(* ===== verification/_CoqProject ===== *)
-Q . S2P
Prelude.v
RustStd.v
Json.v
Effects.v
Format.v
Ir.v
Sse.v
Concrete.v
ClaudeTypes.v
ChatTypes.v
GeminiTypes.v
RespTypes.v
Reasoning.v
Shared.v
ClaudeRead.v
ClaudeBuild.v
ClaudeProps.v
Adapter.v
ClaudeStream.v
ClaudeStreamProps.v
ChatRead.v
ChatBuild.v
ChatProps.v
ChatStream.v
ConcreteWire.v
ChatStreamProps.v
GeminiRead.v
GeminiBuild.v
GeminiProps.v
GeminiStream.v
GeminiStreamProps.v
Base64.v
RespBuild.v
RespRead.v
RespProps.v
RespStream.v
RespStreamProps.v
Hub.v
HubProps.v
Glob.v
Config.v
Routing.v
Utf8.v
Namespace.v
SseRelay.v
SseRelayProps.v
Auth.v
FileLock.v
SecretStore.v
Accounts.v
AccountsProps.v
Redact.v
Handler.v
Failover.v
FailoverProps.v
RequestProps.v
EnvEdit.v
Jsonc.v
Atomic.v
Backup.v
Wiring.v
WiringProps.v
Sha256.v
OAuth.v
Float64.v
VendorSignIn.v
VendorSignInProps.v
ClaudeSignIn.v
SignIn.v
SignInProps.v
Storage.v
Summary.v
Ledger.v
Usage.v
Trace.v
RequestLog.v
AuthStore.v
PluginHost.v
ManagedHosts.v
Import.v
