(* ===== verification/Prelude.v ===== *)
(** * Any Converter: a verification development

    Any Converter is a gateway between the wire formats of four families of
    language-model APIs: Anthropic Messages ([Claude]), OpenAI Chat Completions
    ([OpenAIChat]), OpenAI Responses ([OpenAIResponses]) and Google's
    generateContent ([Gemini]). The crate under src/crates/core converts
    requests, responses and event streams; the crate under src/crates/server is
    the gateway around it: who may ask, which provider and account answer, how
    tokens stay fresh, how people sign in, what is logged and counted, and the
    plugins; src/crates/agent-wiring edits the files of the agents that use it.
    This library models the three and proves what each part must promise.

    ** The core, and the files that model it

    Paths are under src/crates/core/src.

    - [Prelude], [RustStd], [Json], [Effects]: Rust's [Result], the state and
      error monad [StM], string functions of the standard library, machine
      integers as [Z] with their wrap-around written out ([as_u32],
      [u64_add], [saturating_sub]), serde_json's [Value] (an object is an
      association list sorted by key, as its [BTreeMap] is) and the draws from
      the environment, fresh identifiers and clock readings, counted in a
      [World]. [Float64] is [f64] and [Utf8] the decoding of bytes.
    - [Format]: [Format] and [ConvertError] (convert.rs, error.rs).
    - [Ir]: requests, responses, canonical stream events, the stream state, and
      the bag of vendor fields [NamespacedExtra] (ir/).
    - [Sse]: framing of server-sent events (sse.rs).
    - [Reasoning], [Shared]: effort and thinking budgets, response
      identifiers, data URLs, argument strings (converters/).
    - one group of files per format, formats/<name>/: [XTypes] the wire
      structs (types.rs), [XRead] the readers (read.rs), [XBuild] the builders
      (build.rs), [XStream] the stream adapter (stream.rs), [XProps] and
      [XStreamProps] their theorems, for X = [Claude], [Chat], [Gemini],
      [Resp]. [Base64] is the base64 that formats/openai_resp/build.rs writes
      out by hand.
    - [Adapter]: the trait [StreamAdapter] (formats/mod.rs) as a class, which
      the four adapters instantiate, the loop [run_all] that emits a list of
      events, and what the theorems on streams share.
    - [Hub], [HubProps]: the dispatch, the converters and the public entry
      points (converters/mod.rs, convert.rs), and the end-to-end theorems.
    - [Concrete], [ConcreteWire]: instances of the parameters below, for the
      witnesses.

    ** The server, and the files that model it

    Paths are under src/crates/server/src.

    - [Glob], [Config], [Routing]: patterns, providers, routes and model maps
      (config/), paths, URLs, bodies and the order of providers and accounts
      (router.rs, model.rs, wire.rs, route_strategy.rs, provider_pool.rs,
      credentials/allowance.rs). [Auth]: client keys and headers (auth.rs,
      agents_registry.rs, proxy.rs).
    - [Handler], [Failover], [FailoverProps], [RequestProps]: one model request
      from its key to its answer, and the loop over the plan (handlers/chat,
      respond.rs). [Handler.Upstream] is the interface to the HTTP client and
      the plugins; [Failover] uses [Config], [Routing], [Auth] and [Hub].
    - [SseRelay], [SseRelayProps], [Namespace]: the task that relays a stream
      (proxy.rs) over the converters of [Hub], and namespaced tools
      (namespace.rs).
    - [SecretStore], [FileLock], [Accounts], [AccountsProps]: the credential
      file (credentials/store.rs), the lock between processes (lockfile.rs),
      and the renewal of tokens over both (credentials/account.rs, token.rs).
    - [OAuth], [Sha256], [VendorSignIn], [VendorSignInProps], [ClaudeSignIn],
      [SignIn], [SignInProps]: the browser and device sign-ins
      (credentials/gemini.rs, codex_signin.rs, siwc_signin.rs, copilot.rs,
      claude_signin.rs) and the registry of sign-in tasks (signin_task.rs) over
      them. [Import]: accounts taken over from other tools and tokens written
      back to Codex (credentials/import.rs, agent_import.rs, codex_store.rs).
    - [Redact], [Trace], [Usage], [RequestLog]: secrets kept out of the logs
      (handlers/redact.rs, request_log/redactor.rs), previews of conversations
      (observability.rs), tokens and prices (request_log/usage.rs, usage.rs,
      pricing.rs), and the records, their writer task, its files and their
      quota (request_log.rs, disk_quota.rs, agent_id.rs).
    - [Storage], [Summary], [Ledger]: the database of requests: the tables and
      the statements that change them (storage.rs, storage/write.rs,
      storage/maintenance.rs), the statistics (storage.rs, storage/query.rs,
      handlers/usage.rs) and the pages of calls (storage/ledger.rs).
      [RequestLog.writer_delivers] joins the writer to the files and the
      tables, over operations and batches of which any can fail.
    - [AuthStore], [PluginHost], [ManagedHosts]: the auth file of the plugins
      (plugins/authstore.rs), the connection to a plugin process and the calls
      over it (plugins/host.rs, plugins/mod.rs), and the table of processes
      (plugins/managed.rs).

    ** The agents' files

    Paths are under src/crates/agent-wiring/src. [EnvEdit]: the dotenv editor
    (edit/env.rs). [Jsonc]: reading JSON with comments (edit/json.rs).
    [Atomic], [Backup]: files replaced as a whole, and what is kept of them
    (atomic.rs, backup/). [Wiring], [WiringProps]: connecting an agent and back
    (wiring.rs), against the specification of an agent as a class.

    ** How the code is read

    A definition has the name of the function, method or type it models; where
    one function of the source has several definitions (an arm of a match, the
    body of a loop) their names say which. A Rust function that takes
    [&mut state] and returns a [Result] is a [StM] computation, whose state
    survives an error as the Rust state does; one that draws an identifier or
    reads the clock is an [Eff] computation; a loop over a list is a
    [fold_left], a [map] or a [Fixpoint].

    What runs at the same time is a machine: each task is a program counter
    with the operation that comes next, a step is one access to what tasks
    share (a file, a lock, a channel, a map under its mutex), and an event picks
    the task that goes on, or is something the code does not choose: an answer,
    an error, a crash, the clock. [FileLock], [Accounts], [SignIn],
    [RequestLog]'s writer, [AuthStore], [PluginHost] and [ManagedHosts] are of
    this kind, and their theorems hold for every list of events. A file system
    is a map from paths to contents ([Atomic], [Backup], [RequestLog]) or the
    few files a component has ([SecretStore], [AuthStore], [Import]). Where the
    code can go on after an operation that failed, the failures are inputs: in
    [Atomic] a host says which operations fail, where a write is cut short and
    where [Path::exists], which cannot fail, sees nothing; in [SecretStore] a
    list says how each save ends; in [RequestLog] each event carries the faults
    of its file operations and of its batch. A
    table of the database is a list of rows or a map from its key, and a
    statement the function its text says; a transaction is all or nothing.

    ** What the theorems show

    - Requests and responses: for each format, every request the format can
      express ([claude_request], [chat_request], [resp_request],
      [gemini_request] say which) is written and read back unchanged, and so
      is every response. [HubProps.request_path_independent] composes them: a
      request converted along any path of formats arrives as the bytes the
      last format's builder writes for the original.
    - Isolation: what a builder writes does not depend on signatures and
      sealed payloads of other vendors ([HubProps.builders_redact]), nor on the
      vendor fields another format owns ([Ir.extra_vendor_isolation]).
      [RespProps.resp_turn_replayed]: Claude's signed and redacted thinking
      travels through a stateless Responses client and comes back whole; what
      stays behind is named.
    - Streams: each emitter writes the whole transcript and each parser reads
      back what its emitter writes, for Responses up to what
      [RespStreamProps.resp_stream_relay] names; the blocks a Claude client
      assembles are exact for messages of one kind of content, and messages
      that mix kinds collide (a finding); a Claude stream ends exactly once; tool
      calls are numbered densely and their arguments follow them; the relay of
      the server is the conversion of the whole stream, whatever chunks it
      comes in.
    - Errors: [HubProps.convert_errors] and [RespStreamProps.resp_emit_errors]
      say exactly which errors can occur.
    - A request: the plan is the seats of the providers in their order
      ([RequestProps]); the loop with its counters is the same as trying the
      targets one after the other ([FailoverProps.failover_refines]) at a
      bounded cost, resolving an account being allowed to renew its token; the
      one way to leave a request without an answer is a finding; what is sent upstream carries the provider's own
      credentials and no header of the client that should not pass.
    - Credentials: the store is a finite map, whose saves may fail; the lock is
      exclusive unless its holder stalls; a refresh token that was replaced is
      not sent again while no holder of the lock takes more than the 30 seconds
      after which it is taken over; a sign-in that is done has its credential
      kept, and one that is settled changes only by a thread that was at work on
      it; an import loses nothing newer; the plugins' auth file serializes its
      updates.
    - Logs and counts: no secret of a JSON body within the limit reaches the
      request log; every record the logger takes is tried as a line and put into
      one batch, and what does not fail holds it, once; the tables hold exactly
      what a reference grouping of the records gives, the statistics are those
      of exactly the records asked for, and following the cursor of the ledger
      visits each row once.
    - Plugins: every answer reaches its call, and a plugin has one process.
    - Agents: what was in a file before the gateway is never lost, and comes
      back, as long as the backups that are there are seen; a dotenv file changes in the variable that is set and nowhere else.
    - Findings: theorems and examples on inputs or schedules where the code
      does not do what it means to; each says so in its comment.

    ** Parameters

    serde_json's printer and parser ([Json.SerdeJson], with the documented
    behaviour the theorems use in [SerdeJsonLaws]); the serializers serde
    derives for structs ([Serialize], [Deserialize], [ToValue], [FromValue];
    [Adapter.StructJson], [AuthStore.AuthJsonLaws] and [Import.CodexAuthLaws]
    are what theorems need of them); fresh identifiers and the clock
    ([Effects.Env]); HTTP clients ([Handler], [VendorSignIn.VendorHttp]), the
    url and chrono crates, the order and the float sums of SQLite, and the
    files of other programs. [Concrete.binary_json], [ConcreteWire] and
    instances beside the theorems satisfy the laws, so every theorem that
    assumes them has an instance.

    ** Bounds and fuel

    Splitting and trimming a string by patterns recurse on fuel, the length of
    the string; [RustStd.split_fuel_enough] and [RustStd.trim_start_fuel_done]
    show that it is enough, [split_fuel_indep] and [trim_start_fuel_enough] that
    more changes nothing. The wait for a printed link takes at most 662 turns
    ([ClaudeSignIn.claude_start_ends]), GitHub's device flow its timeout over
    the shortest interval and two polls ([VendorSignInProps.device_flow]), the
    search for a segment of the log one step more than the directory has files
    ([RequestLog.scan_day]), the preview of nested content two levels
    ([Trace]), and a walk over the ledger one page more than it has rows
    ([Ledger.ledger_walk]). The loop that redacts the conversion log is shown
    not to end on some bodies ([Redact.sanitize_log_body_ends]). Every other
    recursion is structural.
    A [u32] or [u64] of the source is a [Z]; the theorems on counters assume
    fewer than 2^32 calls in one stream and fewer than 2^64 steps of a
    connection, and the sums of the database below 2^63, past which SQLite turns
    to floats.

    ** Not modelled

    The text of JSON numbers and strings (serde_json) and the code serde
    derives. HTTP itself, axum's tables of routes and its handlers that list
    accounts and models, TLS, the processes of plugins and of Claude Code, the
    system's clock and its calendar (period.rs), SQLite's files and migrations
    (storage/schema.rs): calls of other code. The edits of JSON and TOML text
    (edit/json.rs by string surgery, edit/toml.rs through toml_edit) and the
    specifications of the four agents over them, the catalog, the sign-outs
    and model lists of vendors, project discovery. The command line, the
    terminal and desktop interfaces and the web bridge, which print, draw and
    call the parts above. *)

From Stdlib Require Export Ascii.
From Stdlib Require Import ZArith Lia.
From stdpp Require Export base tactics list strings option.
From stdpp Require Export options.

#[export] Set Warnings "-clear-no-such-hyp,-register-all".

Declare Scope ac_scope.
Delimit Scope ac_scope with ac.

(** ** Results *)

(** Rust's [Result<A, E>], with the error type first so that [result E] is a
    type constructor. *)
Inductive result (E A : Type) : Type :=
  | Ok (a : A)
  | Err (e : E).
Arguments Ok {E A} a.
Arguments Err {E A} e.

#[export] Instance result_ret {E} : MRet (result E) := fun A a => Ok a.
#[export] Instance result_bind {E} : MBind (result E) :=
  fun A B f r => match r with Ok a => f a | Err e => Err e end.
#[export] Instance result_fmap {E} : FMap (result E) :=
  fun A B f r => match r with Ok a => Ok (f a) | Err e => Err e end.

(** [Option::ok_or_else]. *)
Definition ok_or {E A} (e : E) (o : option A) : result E A :=
  match o with Some a => Ok a | None => Err e end.

(** [Result::ok]. *)
Definition ok {E A} (r : result E A) : option A :=
  match r with Ok a => Some a | Err _ => None end.

(** [Result::map_err]. *)
Definition map_err {E F A} (f : E -> F) (r : result E A) : result F A :=
  match r with Ok a => Ok a | Err e => Err (f e) end.

(** [Result::unwrap_or]. *)
Definition unwrap_or_r {E A} (d : A) (r : result E A) : A :=
  match r with Ok a => a | Err _ => d end.

(** ** State passing

    A function that takes [&mut S] and returns a [Result] keeps what it wrote
    to the state when it returns an error, so the state is outside the result. *)
Definition StM (S E A : Type) : Type := S -> result E A * S.

#[export] Instance stm_ret {S E} : MRet (StM S E) := fun A a s => (Ok a, s).
#[export] Instance stm_bind {S E} : MBind (StM S E) :=
  fun A B f m s =>
    match m s with
    | (Ok a, s') => f a s'
    | (Err e, s') => (Err e, s')
    end.

Definition throw {S E A} (e : E) : StM S E A := fun s => (Err e, s).
Definition get {S E} : StM S E S := fun s => (Ok s, s).
Definition gets {S E A} (f : S -> A) : StM S E A := fun s => (Ok (f s), s).
Definition modify {S E} (f : S -> S) : StM S E unit := fun s => (Ok tt, f s).
Definition lift {S E A} (r : result E A) : StM S E A := fun s => (r, s).

(** ** Options *)

(** [Option::filter]. *)
Definition opt_filter {A} (p : A -> bool) (o : option A) : option A :=
  match o with Some a => if p a then Some a else None | None => None end.

(** [Option::or]. *)
Definition opt_or {A} (o d : option A) : option A :=
  match o with Some a => Some a | None => d end.

(** [bool::then_some]. *)
Definition then_some {A} (b : bool) (a : A) : option A := if b then Some a else None.

(** [!v.is_empty()] then [Some(v)]: the idiom by which the builders leave an
    empty collection off the wire. *)
Definition nonempty {A} (l : list A) : option (list A) :=
  match l with [] => None | _ :: _ => Some l end.

Definition is_some {A} (o : option A) : bool := match o with Some _ => true | None => false end.

(** [Iterator::any]. *)
Definition any {A} (p : A -> bool) (l : list A) : bool := existsb p l.

(** ** Lists *)

Definition filter_map {A B} (f : A -> option B) : list A -> list B := omap f.

Lemma filter_map_app {A B} (f : A -> option B) l1 l2 :
  filter_map f (l1 ++ l2) = filter_map f l1 ++ filter_map f l2.
Proof. apply omap_app. Qed.

Lemma filter_map_cons {A B} (f : A -> option B) a l :
  filter_map f (a :: l) =
  match f a with Some b => b :: filter_map f l | None => filter_map f l end.
Proof. done. Qed.

Lemma elem_of_filter_map {A B} (f : A -> option B) l b :
  b ∈ filter_map f l <-> exists a, a ∈ l /\ f a = Some b.
Proof. apply list_elem_of_omap. Qed.

Lemma filter_map_cons_Some {A B} (f : A -> option B) a b l :
  f a = Some b -> filter_map f (a :: l) = b :: filter_map f l.
Proof. intros H. unfold filter_map. simpl. by rewrite H. Qed.

(** A partial map that inverts a partial map on every element of a list
    inverts it on the list. *)
Lemma filter_map_inverse {A B} (f : A -> option B) (g : B -> option A) l :
  Forall (fun a => exists b, f a = Some b /\ g b = Some a) l ->
  filter_map g (filter_map f l) = l.
Proof.
  induction 1 as [|a l (b & Hf & Hg) _ IH]; [done|].
  rewrite (filter_map_cons_Some f a b) by done.
  by rewrite (filter_map_cons_Some g b a), IH.
Qed.

Lemma filter_map_all {A B} (f : A -> option B) (g : A -> B) l :
  Forall (fun a => f a = Some (g a)) l -> filter_map f l = map g l.
Proof.
  induction 1 as [|a l Ha _ IH]; [done|].
  by rewrite (filter_map_cons_Some f a (g a)), IH.
Qed.

Lemma filter_map_none {A B} (f : A -> option B) l :
  Forall (fun a => f a = None) l -> filter_map f l = [].
Proof. induction 1 as [|a l Ha _ IH]; [done|]. unfold filter_map in *. simpl. by rewrite Ha. Qed.

Lemma filter_map_id {A} (f : A -> option A) l :
  Forall (fun a => f a = Some a) l -> filter_map f l = l.
Proof.
  intros H. rewrite (filter_map_all f (fun a => a)) by done. apply map_id.
Qed.

Lemma Forall_weaken {A} (P Q : A -> Prop) l : Forall P l -> (forall a, P a -> Q a) -> Forall Q l.
Proof. intros H HPQ. refine (list.Forall_impl _ _ _ H HPQ). Qed.

Lemma default_nonempty {A} (l : list A) : default [] (nonempty l) = l.
Proof. by destruct l. Qed.

Lemma filter_map_map {A B C} (f : B -> option C) (g : A -> B) l :
  filter_map f (map g l) = filter_map (fun a => f (g a)) l.
Proof.
  unfold filter_map. induction l as [|a l IH]; [done|]. cbn.
  by rewrite IH.
Qed.

Lemma map_filter_map {A B C} (f : A -> option B) (g : B -> C) l :
  map g (filter_map f l) = filter_map (fun a => g <$> f a) l.
Proof.
  unfold filter_map. induction l as [|a l IH]; [done|]. cbn.
  destruct (f a); cbn; by rewrite IH.
Qed.

Lemma map_inverse {A B} (f : A -> B) (g : B -> A) l :
  Forall (fun a => g (f a) = a) l -> map g (map f l) = l.
Proof. induction 1 as [|a l Ha _ IH]; [done|]. simpl. by rewrite Ha, IH. Qed.

(** ** Tactics *)

(** Case analysis on the scrutinee of a [match] in the goal. *)
Ltac case_match_goal :=
  match goal with
  | |- context [match ?x with _ => _ end] => destruct x eqn:?
  end.

(** Unfold the monads of the development and compute. *)
Ltac monad_unfold :=
  unfold mbind, mret, fmap, stm_bind, stm_ret, result_bind, result_ret, result_fmap,
    throw, get, gets, modify, lift in *.
Ltac monad_simpl := monad_unfold; simpl in *.

(** Decide the equalities of concrete strings in the goal. *)
Ltac decide_strings :=
  repeat match goal with
  | |- context [decide (@eq string ?a ?b)] =>
      first [rewrite (decide_True (P := a = b)) by reflexivity
            |rewrite (decide_False (P := a = b)) by discriminate]
  end.
