(* ===== verification/RustStd.v ===== *)
(** * The parts of Rust's language and standard library the code uses

    Machine integers, [f32] clamping, and string operations. A Rust [String]
    is its UTF-8 bytes, so it is modelled by a Rocq [string], whose characters
    are bytes. *)
From Stdlib Require Import ZArith Lia Floats.SpecFloat.
From S2P Require Import Prelude.

Local Open Scope Z_scope.

(** ** Machine integers

    [u32] and [u64] values are integers of [Z] in range. Arithmetic wraps, as
    it does in the release profile (the workspace does not turn
    [overflow-checks] on). *)
Definition u32_max : Z := 2 ^ 32 - 1.
Definition u64_max : Z := 2 ^ 64 - 1.
Definition is_u32 (z : Z) : Prop := 0 <= z <= u32_max.
Definition is_u64 (z : Z) : Prop := 0 <= z <= u64_max.

(** [as u32]: the low 32 bits. *)
Definition as_u32 (z : Z) : Z := z mod 2 ^ 32.
Definition as_u64 (z : Z) : Z := z mod 2 ^ 64.
Definition as_u8 (z : Z) : Z := z mod 2 ^ 8.

Definition u32_add (a b : Z) : Z := as_u32 (a + b).
Definition u64_add (a b : Z) : Z := as_u64 (a + b).

(** [saturating_sub] of an unsigned type. *)
Definition saturating_sub (a b : Z) : Z := Z.max 0 (a - b).

Lemma as_u32_id z : is_u32 z -> as_u32 z = z.
Proof. unfold is_u32, u32_max, as_u32. intros. apply Z.mod_small. lia. Qed.

Lemma as_u32_range z : is_u32 (as_u32 z).
Proof.
  unfold is_u32, u32_max, as_u32.
  pose proof (Z.mod_pos_bound z (2 ^ 32)). lia.
Qed.

Lemma u64_add_exact a b : 0 <= a -> 0 <= b -> a + b <= u64_max -> u64_add a b = a + b.
Proof. unfold u64_max, u64_add, as_u64. intros. apply Z.mod_small. lia. Qed.

(** ** Floating point

    An [f32] is an IEEE value of the Standard Library's [spec_float] with 24
    bits of precision. *)
Definition f32 : Type := spec_float.
#[export] Instance f32_eq_dec : EqDecision f32.
Proof. unfold f32. solve_decision. Defined.
Definition f32_zero : f32 := S754_zero false.
(** 1.0 = 2^23 * 2^-23, the canonical form at 24 bits. *)
Definition f32_one : f32 := S754_finite false 8388608 (-23).

(** [f32::clamp]: [if self < min { min }], then [if self > max { max }]; a NaN
    compares false both times and stays. *)
Definition f32_clamp (x lo hi : f32) : f32 :=
  let x := if SFltb x lo then lo else x in
  if SFltb hi x then hi else x.

(** ** Strings *)

Definition nl : ascii := "010"%char.
Definition cr : ascii := "013"%char.
Definition dquote : string := String "034"%char "".
Definition newline : string := String nl "".
Definition crlf : string := String cr (String nl "").

Fixpoint str_in (c : ascii) (s : string) : bool :=
  match s with
  | EmptyString => false
  | String d s' => if decide (c = d) then true else str_in c s'
  end.

Definition is_empty (s : string) : bool := match s with EmptyString => true | _ => false end.

(** [str::strip_prefix]. *)
Fixpoint strip_prefix (p s : string) : option string :=
  match p, s with
  | EmptyString, _ => Some s
  | String a p', String b s' => if decide (a = b) then strip_prefix p' s' else None
  | _, EmptyString => None
  end.

(** [str::starts_with]. *)
Definition starts_with (p s : string) : bool := is_some (strip_prefix p s).

(** [str::split_once] with a string pattern: around the first occurrence. *)
Fixpoint split_once (p s : string) : option (string * string) :=
  match strip_prefix p s with
  | Some rest => Some ("", rest)
  | None =>
      match s with
      | EmptyString => None
      | String c s' =>
          match split_once p s' with
          | Some (a, b) => Some (String c a, b)
          | None => None
          end
      end
  end.

(** [str::rsplit_once] with a character: around the last occurrence. *)
Fixpoint rsplit_once (c : ascii) (s : string) : option (string * string) :=
  match s with
  | EmptyString => None
  | String d s' =>
      match rsplit_once c s' with
      | Some (a, b) => Some (String d a, b)
      | None => if decide (c = d) then Some ("", s') else None
      end
  end.

(** [str::split] with a string pattern. The fuel is the length of the string:
    every piece but the last consumes an occurrence of a non-empty pattern. *)
Fixpoint split_fuel (n : nat) (p s : string) : list string :=
  match n with
  | O => [s]
  | S n =>
      match split_once p s with
      | None => [s]
      | Some (a, rest) => a :: split_fuel n p rest
      end
  end.
Definition split (p s : string) : list string := split_fuel (String.length s) p s.

(** [join] and [concat] on a vector of strings. *)
Fixpoint join (sep : string) (l : list string) : string :=
  match l with
  | [] => ""
  | [s] => s
  | s :: l' => s +:+ sep +:+ join sep l'
  end.
Definition concat_strings (l : list string) : string := foldr String.append "" l.

(** [str::replace]. *)
Definition replace (p r s : string) : string := join r (split p s).

(** [str::lines]: the pieces between line feeds, each without the carriage
    return that ends it, and no last empty piece. *)
Fixpoint split_lines (s : string) : list string :=
  match s with
  | EmptyString => [""]
  | String c s' =>
      if decide (c = nl) then "" :: split_lines s'
      else match split_lines s' with
           | l :: ls => String c l :: ls
           | [] => [String c ""]
           end
  end.

Fixpoint strip_last_cr (s : string) : string :=
  match s with
  | EmptyString => ""
  | String c EmptyString => if decide (c = cr) then "" else s
  | String c s' => String c (strip_last_cr s')
  end.

Fixpoint finish_lines (ls : list string) : list string :=
  match ls with
  | [] => []
  | [l] => if is_empty l then [] else [l]
  | l :: ls' => strip_last_cr l :: finish_lines ls'
  end.
Definition lines (s : string) : list string := finish_lines (split_lines s).

(** The UTF-8 encodings of the characters with the Unicode property
    White_Space, which [str::trim] removes. *)
Definition bytes2 (a b : ascii) : string := String a (String b "").
Definition bytes3 (a b c : ascii) : string := String a (String b (String c "")).
Definition white_space : list string :=
  [ String "009" ""; String "010" ""; String "011" ""; String "012" ""; String "013" "";
    String "032" ""; bytes2 "194" "133"; bytes2 "194" "160"; bytes3 "225" "154" "128";
    bytes3 "226" "128" "128"; bytes3 "226" "128" "129"; bytes3 "226" "128" "130";
    bytes3 "226" "128" "131"; bytes3 "226" "128" "132"; bytes3 "226" "128" "133";
    bytes3 "226" "128" "134"; bytes3 "226" "128" "135"; bytes3 "226" "128" "136";
    bytes3 "226" "128" "137"; bytes3 "226" "128" "138"; bytes3 "226" "128" "168";
    bytes3 "226" "128" "169"; bytes3 "226" "128" "175"; bytes3 "226" "129" "159";
    bytes3 "227" "128" "128" ]%char.

(** The remainder after the first pattern of the list that is a prefix. *)
Fixpoint strip_any (ps : list string) (s : string) : option string :=
  match ps with
  | [] => None
  | p :: ps' => match strip_prefix p s with Some r => Some r | None => strip_any ps' s end
  end.

Fixpoint trim_start_fuel (n : nat) (ps : list string) (s : string) : string :=
  match n with
  | O => s
  | S n => match strip_any ps s with Some r => trim_start_fuel n ps r | None => s end
  end.
Definition trim_start_of (ps : list string) (s : string) : string :=
  trim_start_fuel (String.length s) ps s.
Definition trim_end_of (ps : list string) (s : string) : string :=
  String.rev (trim_start_of (map String.rev ps) (String.rev s)).

(** [str::trim], [str::trim_start_matches] and [str::trim_end_matches]. *)
Definition trim (s : string) : string := trim_end_of white_space (trim_start_of white_space s).
Definition trim_start_matches (c : ascii) (s : string) : string := trim_start_of [String c ""] s.
Definition trim_end_matches (c : ascii) (s : string) : string := trim_end_of [String c ""] s.

(** [str::strip_suffix], [str::ends_with] and [str::contains]. *)
Definition strip_suffix (p s : string) : option string :=
  String.rev <$> strip_prefix (String.rev p) (String.rev s).
Definition ends_with (p s : string) : bool := is_some (strip_suffix p s).
Definition contains (p s : string) : bool := is_some (split_once p s).

(** [str::split_ascii_whitespace]: tab, line feed, form feed, carriage return
    and space part the words. *)
Definition is_ascii_whitespace (c : ascii) : bool :=
  let n := nat_of_ascii c in
  ((n =? 9) || (n =? 10) || (n =? 12) || (n =? 13) || (n =? 32))%nat.
Fixpoint words_from (word : string) (s : string) : list string :=
  let ended := if is_empty word then [] else [word] in
  match s with
  | EmptyString => ended
  | String c s =>
      if is_ascii_whitespace c then ended ++ words_from "" s else words_from (word +:+ String c "") s
  end.
Definition split_ascii_whitespace (s : string) : list string := words_from "" s.

(** [str::to_ascii_lowercase]. *)
Definition ascii_lower (c : ascii) : ascii :=
  let n := nat_of_ascii c in
  if ((65 <=? n) && (n <=? 90))%nat then ascii_of_nat (n + 32) else c.
Fixpoint to_ascii_lowercase (s : string) : string :=
  match s with
  | EmptyString => EmptyString
  | String c s => String (ascii_lower c) (to_ascii_lowercase s)
  end.

(** ** Lemmas on strings *)

#[local] Ltac str_simpl := unfold String.app in *; simpl in *.

Lemma app_nil_l_str s : "" +:+ s = s.
Proof. done. Qed.
Lemma app_cons_str c s t : String c s +:+ t = String c (s +:+ t).
Proof. done. Qed.
Lemma newline_app s : newline +:+ s = String nl s.
Proof. done. Qed.
Lemma app_nil_r_str s : s +:+ "" = s.
Proof. induction s as [|c s IH]; [done|]. by rewrite app_cons_str, IH. Qed.
Lemma app_assoc_str a b c : (a +:+ b) +:+ c = a +:+ (b +:+ c).
Proof. induction a as [|x a IH]; [done|]. by rewrite !app_cons_str, IH. Qed.
Lemma length_app_str a b : String.length (a +:+ b) = (String.length a + String.length b)%nat.
Proof. induction a as [|x a IH]; [done|]. rewrite app_cons_str. simpl. by rewrite IH. Qed.

Lemma str_in_app c a b : str_in c (a +:+ b) = str_in c a || str_in c b.
Proof.
  induction a as [|x a IH]; [done|]. rewrite app_cons_str. simpl.
  by case_decide.
Qed.

Lemma str_in_cons_false c d s : str_in c (String d s) = false <-> c <> d /\ str_in c s = false.
Proof. simpl. destruct (decide (c = d)); split; intros H; try done; destruct H; congruence. Qed.

Lemma strip_prefix_app p s : strip_prefix p (p +:+ s) = Some s.
Proof. induction p as [|c p IH]; [by destruct s|]. rewrite app_cons_str. simpl. by case_decide. Qed.

Lemma strip_prefix_Some p s r : strip_prefix p s = Some r -> s = p +:+ r.
Proof.
  revert s. induction p as [|c p IH]; intros s H; simpl in H; [by destruct s; simplify_eq|].
  destruct s as [|d s]; [done|]. case_decide; [|done]. subst.
  by rewrite app_cons_str, (IH s).
Qed.

Lemma strip_prefix_None p s : starts_with p s = false -> strip_prefix p s = None.
Proof. unfold starts_with. by destruct (strip_prefix p s). Qed.
Lemma strip_prefix_empty s : strip_prefix "" s = Some s.
Proof. by destruct s. Qed.

Lemma strip_prefix_head a p d s : a <> d -> strip_prefix (String a p) (String d s) = None.
Proof. intros H. simpl. by case_decide. Qed.

Lemma starts_with_app p s : starts_with p (p +:+ s) = true.
Proof. unfold starts_with. by rewrite strip_prefix_app. Qed.

Lemma starts_with_Some p s : starts_with p s = true <-> exists r, s = p +:+ r.
Proof.
  unfold starts_with. split.
  - destruct (strip_prefix p s) as [r|] eqn:H; [|done]. intros _. exists r.
    by apply strip_prefix_Some.
  - intros [r ->]. by rewrite strip_prefix_app.
Qed.

Lemma split_once_cons p c s :
  strip_prefix p (String c s) = None ->
  split_once p (String c s) = (fun '(x, y) => (String c x, y)) <$> split_once p s.
Proof. intros H. cbn [split_once]. rewrite H. by destruct (split_once p s) as [[]|]. Qed.

(** [split_once] skips a prefix in which the pattern does not begin. *)
Lemma split_once_skip c p a s :
  str_in c a = false ->
  split_once (String c p) (a +:+ s) =
  (fun '(x, y) => (a +:+ x, y)) <$> split_once (String c p) s.
Proof.
  induction a as [|d a IH]; intros H.
  - rewrite app_nil_l_str. by destruct (split_once (String c p) s) as [[]|].
  - apply str_in_cons_false in H as [Hne H]. rewrite app_cons_str.
    cbn [split_once]. rewrite strip_prefix_head by done. rewrite IH by done.
    by destruct (split_once (String c p) s) as [[]|].
Qed.

Lemma split_once_here p s : p <> "" -> split_once p (p +:+ s) = Some ("", s).
Proof.
  intros Hp. destruct p as [|c p]; [done|]. rewrite app_cons_str. cbn [split_once].
  by rewrite <-app_cons_str, strip_prefix_app.
Qed.

Lemma split_once_first c p a b :
  str_in c a = false ->
  split_once (String c p) (a +:+ String c p +:+ b) = Some (a, b).
Proof.
  intros H. rewrite split_once_skip by done. rewrite split_once_here by done.
  simpl. by rewrite app_nil_r_str.
Qed.

Lemma split_once_none c p s : str_in c s = false -> split_once (String c p) s = None.
Proof.
  induction s as [|d s IH]; [done|]. intros [Hne H]%str_in_cons_false.
  cbn [split_once]. rewrite strip_prefix_head by done. by rewrite IH.
Qed.

Lemma split_once_Some p s a b : split_once p s = Some (a, b) -> s = a +:+ p +:+ b.
Proof.
  revert a. induction s as [|c s IH]; intros a H; cbn [split_once] in H.
  - destruct (strip_prefix p "") as [r|] eqn:E; [|done]. injection H as <- <-.
    by rewrite app_nil_l_str, <-(strip_prefix_Some _ _ _ E).
  - destruct (strip_prefix p (String c s)) as [r|] eqn:E.
    + injection H as <- <-. by rewrite app_nil_l_str, <-(strip_prefix_Some _ _ _ E).
    + destruct (split_once p s) as [[x y]|]; simplify_eq.
      rewrite app_cons_str. f_equal. by apply IH.
Qed.

Lemma rsplit_once_none c s : str_in c s = false -> rsplit_once c s = None.
Proof.
  induction s as [|d s IH]; [done|]. intros [Hne H]%str_in_cons_false. simpl.
  rewrite IH by done. by case_decide.
Qed.

Lemma rsplit_once_last c a b :
  str_in c b = false -> rsplit_once c (a +:+ String c b) = Some (a, b).
Proof.
  intros H. induction a as [|d a IH].
  - rewrite app_nil_l_str. simpl. rewrite rsplit_once_none by done. by case_decide.
  - rewrite app_cons_str. simpl. by rewrite IH.
Qed.

(** *** Reversal *)
Lemma rev_app_spec s t : String.rev_app s t = String.rev s +:+ t.
Proof.
  unfold String.rev. revert t. induction s as [|c s IH]; intros t; [done|]. simpl.
  rewrite (IH (String c t)), (IH (String c "")), app_assoc_str. done.
Qed.
Lemma rev_cons_str c s : String.rev (String c s) = String.rev s +:+ String c "".
Proof. unfold String.rev at 1. simpl. apply rev_app_spec. Qed.
Lemma rev_app_str a b : String.rev (a +:+ b) = String.rev b +:+ String.rev a.
Proof.
  induction a as [|c a IH]; [by rewrite app_nil_l_str, app_nil_r_str|].
  by rewrite app_cons_str, !rev_cons_str, IH, app_assoc_str.
Qed.
Lemma rev_involutive_str s : String.rev (String.rev s) = s.
Proof. induction s as [|c s IH]; [done|]. by rewrite rev_cons_str, rev_app_str, IH. Qed.
Lemma length_rev_str s : String.length (String.rev s) = String.length s.
Proof.
  induction s as [|c s IH]; [done|]. rewrite rev_cons_str, length_app_str, IH. simpl. lia.
Qed.

Lemma strip_suffix_app p s : strip_suffix p (s +:+ p) = Some s.
Proof. unfold strip_suffix. by rewrite rev_app_str, strip_prefix_app; simpl; rewrite rev_involutive_str. Qed.

Lemma string_snoc s : s = "" \/ exists a c, s = a +:+ String c "".
Proof.
  induction s as [|c s [->|(a & d & ->)]]; [by left|right|right].
  - by exists "", c.
  - by exists (String c a), d.
Qed.

Lemma strip_suffix_Some p s r : strip_suffix p s = Some r -> s = r +:+ p.
Proof.
  unfold strip_suffix. destruct (strip_prefix (String.rev p) (String.rev s)) as [x|] eqn:E; [|done].
  apply strip_prefix_Some in E. intros [= <-].
  by rewrite <-(rev_involutive_str s), E, rev_app_str, rev_involutive_str.
Qed.

Lemma ends_with_Some p s : ends_with p s = true <-> exists x, s = x +:+ p.
Proof.
  unfold ends_with. split.
  - destruct (strip_suffix p s) as [r|] eqn:E; [|done]. intros _. exists r. by apply strip_suffix_Some.
  - intros [x ->]. by rewrite strip_suffix_app.
Qed.

(** *** Trimming *)

(** A printable ASCII character other than the space. No white space
    character begins or ends with such a byte. *)
Definition solid (c : ascii) : bool :=
  let n := N_of_ascii c in (33 <=? n)%N && (n <=? 126)%N.

Definition first_solid (s : string) : bool :=
  match s with EmptyString => false | String c _ => solid c end.
Definition last_solid (s : string) : bool := first_solid (String.rev s).

Definition no_solid_head (p : string) : bool :=
  match p with EmptyString => false | String c _ => negb (solid c) end.

Lemma strip_any_solid ps s :
  forallb no_solid_head ps = true -> first_solid s = true -> strip_any ps s = None.
Proof.
  intros Hps Hs. destruct s as [|c s]; [done|].
  induction ps as [|p ps IH]; [done|]. simpl in *.
  apply andb_prop in Hps as [Hp Hps]. destruct p as [|a p]; [done|]. simpl in *.
  case_decide as Hac; [subst; by rewrite Hs in Hp|]. by apply IH.
Qed.

Lemma trim_start_solid ps s :
  forallb no_solid_head ps = true -> first_solid s = true -> trim_start_of ps s = s.
Proof.
  intros Hps Hs. unfold trim_start_of. destruct (String.length s); [done|]. cbn [trim_start_fuel].
  by rewrite strip_any_solid.
Qed.

(** One pattern at the front of a solid string goes. *)
Lemma trim_start_one ps p s :
  forallb no_solid_head ps = true -> first_solid s = true -> p <> "" ->
  strip_any ps (p +:+ s) = Some s -> trim_start_of ps (p +:+ s) = s.
Proof.
  intros Hps Hs Hp Hany. unfold trim_start_of. rewrite length_app_str.
  destruct p as [|c p]; [done|]. cbn [String.length Nat.add trim_start_fuel].
  rewrite Hany. destruct (String.length p + String.length s)%nat; [done|].
  cbn [trim_start_fuel]. by rewrite strip_any_solid.
Qed.

(** The fuel of [trim_start_of] is enough: it stops where no pattern is left
    to strip, and more fuel changes nothing. *)
Lemma strip_any_length ps s r :
  "" ∉ ps -> strip_any ps s = Some r -> (String.length r < String.length s)%nat.
Proof.
  induction ps as [|p ps IH]; [done|]. rewrite not_elem_of_cons. intros [Hp Hps]. simpl.
  destruct (strip_prefix p s) as [r'|] eqn:E; [|by apply IH].
  intros [= ->]. rewrite (strip_prefix_Some _ _ _ E), length_app_str. destruct p; [done|]. simpl. lia.
Qed.

Lemma trim_start_fuel_done ps n s :
  "" ∉ ps -> (String.length s <= n)%nat -> strip_any ps (trim_start_fuel n ps s) = None.
Proof.
  intros Hps. revert s. induction n as [|n IH]; intros s Hn; simpl;
    destruct (strip_any ps s) as [r|] eqn:E; try done;
    pose proof (strip_any_length ps s r Hps E); [lia|]. apply IH. lia.
Qed.

Lemma trim_start_fuel_enough ps n s :
  "" ∉ ps -> (String.length s <= n)%nat -> trim_start_fuel n ps s = trim_start_of ps s.
Proof.
  intros Hps. unfold trim_start_of.
  assert (forall m n s, (String.length s <= m)%nat -> (String.length s <= n)%nat ->
            trim_start_fuel m ps s = trim_start_fuel n ps s) as Hi; [|intros; by apply Hi].
  clear -Hps. induction m as [|m IH]; intros n s Hm Hn.
  - destruct n; simpl; [done|]. destruct (strip_any ps s) as [r|] eqn:E; [|done].
    pose proof (strip_any_length ps s r Hps E). lia.
  - destruct n as [|n]; simpl; destruct (strip_any ps s) as [r|] eqn:E; try done;
      pose proof (strip_any_length ps s r Hps E); [lia|]. apply IH; lia.
Qed.

Lemma trim_end_solid ps s :
  forallb no_solid_head (map String.rev ps) = true -> last_solid s = true ->
  trim_end_of ps s = s.
Proof.
  intros Hps Hs. unfold trim_end_of. rewrite trim_start_solid by done.
  apply rev_involutive_str.
Qed.

Lemma trim_solid s : first_solid s = true -> last_solid s = true -> trim s = s.
Proof.
  intros Hf Hl. unfold trim. rewrite trim_start_solid by done. by apply trim_end_solid.
Qed.

Lemma trim_space_solid s :
  first_solid s = true -> last_solid s = true -> trim (" " +:+ s) = s.
Proof.
  intros Hf Hl. unfold trim. rewrite (trim_start_one _ " " s) by done.
  by apply trim_end_solid.
Qed.

Lemma trim_start_matches_space s :
  first_solid s = true -> trim_start_matches " " (" " +:+ s) = s.
Proof.
  intros Hf. unfold trim_start_matches.
  by rewrite (trim_start_one _ " " s).
Qed.

Lemma first_solid_app a b : first_solid a = true -> first_solid (a +:+ b) = true.
Proof. by destruct a. Qed.
Lemma last_solid_app a b : last_solid b = true -> last_solid (a +:+ b) = true.
Proof. unfold last_solid. rewrite rev_app_str. apply first_solid_app. Qed.

(** *** Lines *)
Lemma split_lines_app_nl a s :
  str_in nl a = false -> split_lines (a +:+ String nl s) = a :: split_lines s.
Proof.
  induction a as [|c a IH]; intros H.
  - rewrite app_nil_l_str. simpl. done.
  - apply str_in_cons_false in H as [Hne H]. rewrite app_cons_str. simpl.
    case_decide; [congruence|]. by rewrite IH.
Qed.
Lemma split_lines_last a : str_in nl a = false -> split_lines a = [a].
Proof.
  induction a as [|c a IH]; [done|]. intros [Hne H]%str_in_cons_false. simpl.
  case_decide; [congruence|]. by rewrite IH.
Qed.
Lemma strip_last_cr_none s : str_in cr s = false -> strip_last_cr s = s.
Proof.
  induction s as [|c s IH]; [done|]. intros [Hne H]%str_in_cons_false. simpl.
  destruct s; [by case_decide|]. by rewrite IH.
Qed.

(** *** Splitting and joining *)
Lemma split_once_length p s a r :
  p <> "" -> split_once p s = Some (a, r) -> (String.length r < String.length s)%nat.
Proof.
  intros Hp H. rewrite (split_once_Some _ _ _ _ H), !length_app_str.
  destruct p; [done|]. simpl. lia.
Qed.

Lemma split_fuel_indep p n m s :
  p <> "" -> (String.length s <= n)%nat -> (String.length s <= m)%nat ->
  split_fuel n p s = split_fuel m p s.
Proof.
  intros Hp. revert m s. induction n as [|n IH]; intros m s Hn Hm.
  - destruct s; simpl in *; [|lia]. destruct m; [done|]. simpl. by destruct p.
  - destruct (split_once p s) as [[a r]|] eqn:E.
    + pose proof (split_once_length _ _ _ _ Hp E) as Hlt. destruct m as [|m]; [lia|].
      cbn [split_fuel]. rewrite E. f_equal. apply IH; lia.
    + destruct m; cbn [split_fuel]; by rewrite E.
Qed.

Lemma split_fuel_enough p n s :
  p <> "" -> (String.length s <= n)%nat -> split_fuel n p s = split p s.
Proof. intros. by apply split_fuel_indep. Qed.

(** The recursive equation of [split], without the fuel. *)
Lemma split_unfold p s :
  p <> "" ->
  split p s = match split_once p s with None => [s] | Some (a, r) => a :: split p r end.
Proof.
  intros Hp. destruct (split_once p s) as [[a r]|] eqn:E.
  - pose proof (split_once_length _ _ _ _ Hp E) as Hlt. unfold split at 1.
    destruct (String.length s) as [|m] eqn:Hs; [lia|]. cbn [split_fuel]. rewrite E. f_equal.
    apply split_fuel_enough; [done|lia].
  - unfold split. destruct (String.length s); cbn [split_fuel]; by rewrite ?E.
Qed.

Lemma split_ind (P : string -> Prop) p :
  p <> "" ->
  (forall s, split_once p s = None -> P s) ->
  (forall s a r, split_once p s = Some (a, r) -> P r -> P s) ->
  forall s, P s.
Proof.
  intros Hp H1 H2 s. remember (String.length s) as n eqn:Hn. revert s Hn.
  induction n as [n IH] using lt_wf_ind. intros s ->.
  destruct (split_once p s) as [[a r]|] eqn:E; [|by apply H1].
  eapply H2; [done|]. eapply IH; [|done]. by eapply split_once_length.
Qed.

Lemma split_not_nil p s : p <> "" -> split p s <> [].
Proof. intros Hp. rewrite split_unfold by done. by destruct (split_once p s) as [[]|]. Qed.

Lemma join_split p s : p <> "" -> join p (split p s) = s.
Proof.
  intros Hp. revert s. apply (split_ind _ p Hp).
  - intros s H. rewrite split_unfold, H by done. done.
  - intros s a r H IH. rewrite split_unfold, H by done.
    rewrite (split_once_Some _ _ _ _ H). pose proof (split_not_nil p r Hp).
    destruct (split p r) as [|x l]; [done|]. simpl in *. by rewrite IH.
Qed.

Lemma split_join c p ls :
  ls <> [] -> Forall (fun l => str_in c l = false) ls ->
  split (String c p) (join (String c p) ls) = ls.
Proof.
  intros Hne H. induction H as [|l ls Hl Hls IH]; [done|].
  destruct ls as [|l' ls].
  - simpl. rewrite split_unfold by done. by rewrite split_once_none.
  - change (join (String c p) (l :: l' :: ls))
      with (l +:+ String c p +:+ join (String c p) (l' :: ls)).
    rewrite split_unfold, split_once_first by done. by rewrite IH.
Qed.

Lemma split_char_clean c s : Forall (fun l => str_in c l = false) (split (String c "") s).
Proof.
  revert s. apply (split_ind _ (String c "")); [done| |].
  - intros s H. rewrite split_unfold, H by done. apply List.Forall_cons; [|done].
    induction s as [|d s IH]; [done|]. cbn [split_once strip_prefix] in H. simpl.
    case_decide; [done|]. destruct (split_once (String c "") s) as [[]|]; [done|by apply IH].
  - intros s a r H IH. rewrite split_unfold, H by done. apply List.Forall_cons; [|done].
    clear IH. revert a H. induction s as [|d s IH]; intros a H; [done|].
    cbn [split_once strip_prefix] in H. case_decide as Hd; [by simplify_eq|].
    destruct (split_once (String c "") s) as [[a' r']|]; [|done].
    injection H as <- <-. apply str_in_cons_false. split; [done|]. by apply IH.
Qed.

Lemma split_clean c p s :
  p <> "" -> str_in c s = false -> Forall (fun l => str_in c l = false) (split p s).
Proof.
  intros Hp. pattern s. revert s. apply (split_ind _ p Hp).
  - intros s H Hc. rewrite split_unfold, H by done. by apply List.Forall_cons.
  - intros s a r H IH Hc. rewrite split_unfold, H by done.
    rewrite (split_once_Some _ _ _ _ H), !str_in_app in Hc.
    apply orb_false_iff in Hc as [Ha [_ Hr]%orb_false_iff].
    apply List.Forall_cons; [done|by apply IH].
Qed.

Lemma replace_absent c r p s : str_in c s = false -> replace (String c p) r s = s.
Proof.
  intros H. unfold replace. rewrite split_unfold by done. by rewrite split_once_none.
Qed.

(** Replacing a character by a longer pattern that begins with a fresh
    character, and back. *)
Lemma replace_back c d p s :
  str_in d s = false ->
  replace (String d p) (String c "") (replace (String c "") (String d p) s) = s.
Proof.
  intros H. unfold replace. rewrite split_join.
  - by apply join_split.
  - by apply split_not_nil.
  - by apply split_clean.
Qed.

Lemma concat_strings_app l1 l2 : concat_strings (l1 ++ l2) = concat_strings l1 +:+ concat_strings l2.
Proof. induction l1 as [|s l1 IH]; [done|]. simpl. rewrite IH. symmetry. apply app_assoc_str. Qed.

Lemma str_in_concat c l :
  str_in c (concat_strings l) = existsb (str_in c) l.
Proof. induction l as [|s l IH]; [done|]. simpl. by rewrite str_in_app, IH. Qed.

Create Rewrite HintDb str.
#[export] Hint Rewrite app_nil_l_str app_nil_r_str app_assoc_str : str.
