(* ===== verification/Json.v ===== *)
(** * JSON values and the interface to serde_json

    [Value] and its accessors are serde_json's public data type, which the
    code under src/ builds and matches on. The workspace does not enable the
    [preserve_order] feature, so an object is a [BTreeMap]: its entries are in
    the order of their keys. Printing and parsing JSON text, and the derived
    (de)serializers of the wire structs, are not code of this repository: they
    are the classes at the end of the file, with the laws the theorems use. *)
From Stdlib Require Import ZArith Lia Floats.SpecFloat.
From S2P Require Import Prelude.
From S2P Require Import RustStd.

Local Open Scope Z_scope.

(** serde_json's [Number]: an unsigned or a negative integer, or a finite
    [f64]. *)
Inductive Num : Type :=
  | PosInt (n : Z)
  | NegInt (n : Z)
  | Float (f : spec_float).

Inductive Value : Type :=
  | VNull
  | VBool (b : bool)
  | VNumber (n : Num)
  | VString (s : string)
  | VArray (l : list Value)
  | VObject (m : list (string * Value)).

Abbreviation Map := (list (string * Value)).

(** ** Maps *)
Lemma compare_refl_iff (a b : string) : a = b <-> String.compare a b = Eq.
Proof.
  split; [intros <-|apply String.compare_eq_iff].
  destruct (String.compare a a) eqn:E; [done| |];
    pose proof (String.compare_antisym a a) as H; by rewrite E in H.
Qed.
Lemma compare_refl_str (a : string) : String.compare a a = Eq.
Proof. by apply compare_refl_iff. Qed.

Section maps.
Context {V : Type}.

Fixpoint map_get (k : string) (m : list (string * V)) : option V :=
  match m with
  | [] => None
  | (k', v) :: m' => if decide (k = k') then Some v else map_get k m'
  end.

Fixpoint map_insert (k : string) (v : V) (m : list (string * V)) : list (string * V) :=
  match m with
  | [] => [(k, v)]
  | (k', v') :: m' =>
      match String.compare k k' with
      | Lt => (k, v) :: m
      | Eq => (k, v) :: m'
      | Gt => (k', v') :: map_insert k v m'
      end
  end.

Fixpoint map_delete (k : string) (m : list (string * V)) : list (string * V) :=
  match m with
  | [] => []
  | (k', v) :: m' => if decide (k = k') then map_delete k m' else (k', v) :: map_delete k m'
  end.

(** [Map::remove]. *)
Definition map_remove (k : string) (m : list (string * V)) : option V * list (string * V) :=
  (map_get k m, map_delete k m).

Definition map_contains (k : string) (m : list (string * V)) : bool := is_some (map_get k m).

Definition map_of_list (l : list (string * V)) : list (string * V) :=
  fold_left (fun m '(k, v) => map_insert k v m) l [].

Fixpoint keys_sorted (m : list (string * V)) : bool :=
  match m with
  | [] => true
  | (k, _) :: m' =>
      match m' with
      | [] => true
      | (k', _) :: _ => String.ltb k k' && keys_sorted m'
      end
  end.

Lemma map_get_insert k k' v m :
  map_get k (map_insert k' v m) = if decide (k = k') then Some v else map_get k m.
Proof.
  induction m as [|[k'' v''] m IH]; simpl; [done|].
  destruct (String.compare k' k'') eqn:Hc; simpl.
  - apply String.compare_eq_iff in Hc as <-. by destruct (decide (k = k')).
  - done.
  - rewrite IH. destruct (decide (k = k'')) as [E|], (decide (k = k')) as [E'|]; try done.
    rewrite <-E, E' in Hc. by rewrite compare_refl_str in Hc.
Qed.

Lemma map_get_delete k k' m :
  map_get k (map_delete k' m) = if decide (k = k') then None else map_get k m.
Proof.
  induction m as [|[k'' v] m IH]; simpl; [by case_decide|].
  destruct (decide (k' = k'')) as [<-|]; simpl; rewrite ?IH.
  - by destruct (decide (k = k')).
  - destruct (decide (k = k'')), (decide (k = k')); subst; done.
Qed.
End maps.

(** A function applied to every value. *)
Abbreviation map_values f m := (map (fun '(k, v) => (k, f v)) m).

Lemma map_get_values {V W} (f : V -> W) k m :
  map_get k (map_values f m) = f <$> map_get k m.
Proof. induction m as [|[k' v] m IH]; [done|]. simpl. by case_decide. Qed.

(** [json!] of an object: the entries inserted one after the other. *)
Definition obj (l : list (string * Value)) : Value := VObject (map_of_list l).
Definition str (s : string) : Value := VString s.
Definition num (z : Z) : Value := VNumber (PosInt z).
(** [Value::from] of an [i64]. *)
Definition num_i64 (z : Z) : Value := VNumber (if z <? 0 then NegInt z else PosInt z).

(** ** Accessors *)
Definition as_str (v : Value) : option string := match v with VString s => Some s | _ => None end.
Definition as_bool (v : Value) : option bool := match v with VBool b => Some b | _ => None end.
Definition as_u64 (v : Value) : option Z := match v with VNumber (PosInt n) => Some n | _ => None end.
Definition as_i64 (v : Value) : option Z :=
  match v with
  | VNumber (PosInt n) => if n <=? 2 ^ 63 - 1 then Some n else None
  | VNumber (NegInt n) => Some n
  | _ => None
  end.
Definition as_array (v : Value) : option (list Value) := match v with VArray l => Some l | _ => None end.
Definition as_object (v : Value) : option Map := match v with VObject m => Some m | _ => None end.
(** [v == json!({})]. *)
Definition is_empty_object (v : Value) : bool := match v with VObject [] => true | _ => false end.
Definition is_null (v : Value) : bool := match v with VNull => true | _ => false end.

Lemma as_i64_num_i64 z : - 2 ^ 63 <= z <= 2 ^ 63 - 1 -> as_i64 (num_i64 z) = Some z.
Proof.
  intros [Hlo Hhi]. unfold num_i64, as_i64. destruct (Z.ltb_spec z 0); [done|].
  by destruct (Z.leb_spec z (2 ^ 63 - 1)); [|lia].
Qed.

(** [Value::get] with a string key. *)
Definition get_key (k : string) (v : Value) : option Value :=
  match v with VObject m => map_get k m | _ => None end.

(** [m.get(k).and_then(Value::as_str)]. *)
Definition get_str (k : string) (m : Map) : option string := map_get k m ≫= as_str.
Definition value_str (k : string) (v : Value) : option string := get_key k v ≫= as_str.

(** [take_string]: the helper of that name in both readers that consume
    objects, and [take_opt_string]. *)
Definition take_string (k : string) (m : Map) : string * Map :=
  let '(v, m) := map_remove k m in
  (match v with Some (VString s) => s | _ => "" end, m).
Definition take_opt_string (k : string) (m : Map) : option string * Map :=
  let '(v, m) := map_remove k m in
  (match v with Some (VString s) => Some s | _ => None end, m).

Lemma take_string_fst k m : fst (take_string k m) = default "" (get_str k m).
Proof.
  unfold take_string, get_str. simpl. by destruct (map_get k m) as [[]|].
Qed.
Lemma take_string_snd k m : snd (take_string k m) = map_delete k m.
Proof. done. Qed.

(** ** Well-formed values

    What serde_json can hold and print exactly: integers in range, no
    fractional number (the default float parser does not promise to read back
    what the printer wrote), entries in key order. *)
Definition wf_num (n : Num) : bool :=
  match n with
  | PosInt n => (0 <=? n) && (n <=? u64_max)
  | NegInt n => (- 2 ^ 63 <=? n) && (n <? 0)
  | Float _ => false
  end.

Fixpoint wf_value (v : Value) : bool :=
  match v with
  | VNull | VBool _ | VString _ => true
  | VNumber n => wf_num n
  | VArray l => forallb wf_value l
  | VObject m => keys_sorted m && forallb (fun '(_, v) => wf_value v) m
  end.

Lemma keys_sorted_cons {V} k (v : V) m :
  keys_sorted ((k, v) :: m) =
  match m with [] => true | (k', _) :: _ => String.ltb k k' && keys_sorted m end.
Proof. by destruct m as [|[]]. Qed.

Lemma keys_sorted_insert {V} k (v : V) m :
  keys_sorted m = true -> keys_sorted (map_insert k v m) = true.
Proof.
  induction m as [|[k' v'] m IH]; [done|]. cbn [map_insert]. intros Hm.
  destruct (String.compare k k') eqn:E.
  - apply String.compare_eq_iff in E as ->. by rewrite keys_sorted_cons in *.
  - rewrite keys_sorted_cons, Hm. unfold String.ltb. by rewrite E.
  - assert (String.ltb k' k = true) as Hlt.
    { unfold String.ltb. by rewrite String.compare_antisym, E. }
    rewrite keys_sorted_cons in *. destruct m as [|[k2 v2] m].
    + cbn. by rewrite Hlt.
    + apply andb_prop in Hm as [H1 H2]. specialize (IH H2). cbn [map_insert] in *.
      destruct (String.compare k k2) eqn:E2; rewrite IH, ?Hlt, ?H1; done.
Qed.

Lemma wf_map_insert k v m :
  wf_value v = true -> wf_value (VObject m) = true -> wf_value (VObject (map_insert k v m)) = true.
Proof.
  cbn [wf_value]. intros Hv [Hs Hm]%andb_prop. rewrite keys_sorted_insert by done. cbn [andb].
  clear Hs. induction m as [|[k' v'] m IH]; cbn [map_insert forallb] in *; [by rewrite Hv|].
  apply andb_prop in Hm as [H1 H2].
  destruct (String.compare k k'); cbn [forallb]; rewrite ?Hv, ?H1, ?H2, ?IH; done.
Qed.

Lemma wf_map_of_list l :
  forallb (fun '(_, v) => wf_value v) l = true -> wf_value (VObject (map_of_list l)) = true.
Proof.
  unfold map_of_list. assert (wf_value (VObject []) = true) as H by done.
  revert H. generalize (@nil (string * Value)).
  induction l as [|[k v] l IH]; intros m Hm; [done|].
  cbn [forallb fold_left]. intros [Hv Hl]%andb_prop. apply IH; [by apply wf_map_insert|done].
Qed.

(** An object built by [json!] of well-formed values is well-formed. *)
Lemma wf_obj l : forallb (fun '(_, v) => wf_value v) l = true -> wf_value (obj l) = true.
Proof. apply wf_map_of_list. Qed.

(** *** Building a map from entries in key order *)

Lemma compare_lt_trans a b c :
  String.compare a b = Lt -> String.compare b c = Lt -> String.compare a c = Lt.
Proof.
  revert b c. induction a as [|x a IH]; intros [|y b] [|z c]; try done. cbn.
  unfold Ascii.compare.
  destruct (N.compare_spec (N_of_ascii x) (N_of_ascii y)), (N.compare_spec (N_of_ascii y) (N_of_ascii z)),
    (N.compare_spec (N_of_ascii x) (N_of_ascii z)); try done; try lia. apply IH.
Qed.

Lemma keys_sorted_head {V} k (v : V) m :
  keys_sorted ((k, v) :: m) = true ->
  keys_sorted m = true /\ Forall (fun kv => String.compare k (fst kv) = Lt) m.
Proof.
  revert k v. induction m as [|[k' v'] m IH]; intros k v; [done|].
  rewrite keys_sorted_cons. intros [Hk Hm]%andb_prop. split; [done|].
  apply IH in Hm as [_ Hm].
  assert (String.compare k k' = Lt) as Hlt.
  { unfold String.ltb in Hk. by destruct (String.compare k k'). }
  constructor; [done|]. apply (Forall_weaken _ _ _ Hm). intros [k2 v2]. cbn.
  by apply compare_lt_trans.
Qed.

Lemma map_insert_last {V} k (v : V) m :
  Forall (fun kv => String.compare (fst kv) k = Lt) m -> map_insert k v m = m ++ [(k, v)].
Proof.
  induction 1 as [|[k' v'] m Hk _ IH]; [done|]. cbn [map_insert fst] in *.
  rewrite String.compare_antisym, Hk. cbn. by rewrite IH.
Qed.

Lemma insert_sorted {V} (l m : list (string * V)) :
  keys_sorted l = true ->
  Forall (fun kv => Forall (fun kv' => String.compare (fst kv) (fst kv') = Lt) l) m ->
  fold_left (fun m '(k, v) => map_insert k v m) l m = m ++ l.
Proof.
  revert m. induction l as [|[k v] l IH]; intros m Hl Hm; cbn [fold_left]; [by rewrite app_nil_r|].
  apply keys_sorted_head in Hl as [Hl Hk]. rewrite map_insert_last, IH.
  - by rewrite <-app_assoc.
  - done.
  - apply list.Forall_app. split; [|by constructor; [|constructor]].
    apply (Forall_weaken _ _ _ Hm). intros kv. by apply Forall_inv_tail.
  - apply (Forall_weaken _ _ _ Hm). intros kv. by apply Forall_inv.
Qed.

Section value_ind.
Variable P : Value -> Prop.
Hypothesis Hnull : P VNull.
Hypothesis Hbool : forall b, P (VBool b).
Hypothesis Hnum : forall n, P (VNumber n).
Hypothesis Hstr : forall s, P (VString s).
Hypothesis Harr : forall l, Forall P l -> P (VArray l).
Hypothesis Hobj : forall m, Forall (fun kv => P (snd kv)) m -> P (VObject m).

Fixpoint Value_nested_ind (v : Value) : P v :=
  match v with
  | VNull => Hnull
  | VBool b => Hbool b
  | VNumber n => Hnum n
  | VString s => Hstr s
  | VArray l =>
      Harr l ((fix go l := match l return Forall P l with
                           | [] => List.Forall_nil _
                           | v :: l => List.Forall_cons _ _ _ (Value_nested_ind v) (go l)
                           end) l)
  | VObject m =>
      Hobj m ((fix go m := match m return Forall (fun kv => P (snd kv)) m with
                           | [] => List.Forall_nil _
                           | kv :: m => List.Forall_cons _ _ _ (Value_nested_ind (snd kv)) (go m)
                           end) m)
  end.
End value_ind.

(** ** The interface to serde_json *)

(** Printing and parsing of [Value]s; an error is its [Display] text. *)
Class SerdeJson := {
  (** [Value]'s [Display] *)
  value_to_string : Value -> string;
  (** [serde_json::to_string] on a [Value] *)
  serde_to_string : Value -> result string string;
  (** [serde_json::from_str::<Value>] and [from_slice::<Value>] *)
  value_from_str : string -> result string Value
}.

(** The derived serializers and deserializers of the wire structs. *)
Class Serialize (T : Type) := to_json : T -> result string string.
Class Deserialize (T : Type) := from_json : string -> result string T.
Class ToValue (T : Type) := to_value : T -> result string Value.
Class FromValue (T : Type) := from_value : Value -> result string T.

(** A line of text that survives an SSE frame: one line, with no blank at
    either end. *)
Definition wire_field (s : string) : bool :=
  negb (str_in nl s) && negb (str_in cr s) && first_solid s && last_solid s.

Lemma wire_field_spec s :
  wire_field s = true ->
  str_in nl s = false /\ str_in cr s = false /\ first_solid s = true /\ last_solid s = true.
Proof.
  unfold wire_field. intros H.
  repeat (apply andb_prop in H as [H ?]). by rewrite !negb_true_iff in *.
Qed.

(** serde_json's documented behaviour, as far as the theorems rely on it:
    [to_string] of a [Value] is its [Display] text; the text is compact
    JSON, which escapes control characters and starts and ends with a
    printable character; parsing reads it back. *)
Class SerdeJsonLaws `{SerdeJson} : Prop := {
  serde_to_string_display v : serde_to_string v = Ok (value_to_string v);
  value_to_string_wire v : wire_field (value_to_string v) = true;
  value_from_to_string v : wf_value v = true -> value_from_str (value_to_string v) = Ok v
}.

Create HintDb json.
Create Rewrite HintDb json.
#[export] Hint Rewrite @map_get_insert @map_get_delete : json.
