(* ===== verification/Effects.v ===== *)
(** * What the program draws from its environment

    [uuid::Uuid::new_v4] and the system clock. Both are parameters: the n-th
    identifier drawn and the n-th reading of the clock. The state threaded
    through the program counts the draws, so every draw is a fresh one. *)
From Stdlib Require Import ZArith.
From S2P Require Import Prelude.

Class Env := {
  (** the n-th [Uuid::new_v4().to_string()] *)
  uuid_v4 : nat -> string;
  (** the n-th [SystemTime::now()] in whole seconds since the epoch *)
  unix_secs : nat -> Z
}.

(** [as_secs] is a [u64]. *)
Class EnvLaws `{Env} : Prop := unix_secs_u64 n : (0 <= unix_secs n <= 2 ^ 64 - 1)%Z.

Record World := { uuids_drawn : nat; clock_reads : nat }.

Definition Eff (A : Type) : Type := World -> A * World.

#[export] Instance eff_ret : MRet Eff := fun A a w => (a, w).
#[export] Instance eff_bind : MBind Eff := fun A B f m w => let '(a, w) := m w in f a w.
#[export] Instance eff_fmap : FMap Eff := fun A B f m w => let '(a, w) := m w in (f a, w).

Definition draw_uuid `{Env} : Eff string := fun w =>
  (uuid_v4 (uuids_drawn w),
   {| uuids_drawn := S (uuids_drawn w); clock_reads := clock_reads w |}).

Definition read_clock `{Env} : Eff Z := fun w =>
  (unix_secs (clock_reads w),
   {| uuids_drawn := uuids_drawn w; clock_reads := S (clock_reads w) |}).

(** [opt.unwrap_or_else(f)] where [f] has effects. *)
Definition unwrap_or_else {A} (o : option A) (f : Eff A) : Eff A :=
  match o with Some a => mret a | None => f end.

(** An effect inside a computation with state and errors. *)
Definition lift_eff {S E A} (m : Eff A) : StM (S * World) E A :=
  fun '(s, w) => let '(a, w) := m w in (Ok a, (s, w)).

Ltac eff_unfold := unfold mbind, mret, fmap, eff_bind, eff_ret, eff_fmap in *.

Lemma mapM_eff_pure {A B} (f : A -> B) (l : list A) w :
  mapM (M := Eff) (fun a => mret (f a)) l w = (map f l, w).
Proof. induction l as [|a l IH]; [done|]. simpl. eff_unfold. by rewrite IH. Qed.

(** A map of effect-free steps. *)
Lemma mapM_eff_all {A B} (f : A -> Eff B) (g : A -> B) (l : list A) w :
  Forall (fun a => forall w, f a w = (g a, w)) l -> mapM (M := Eff) f l w = (map g l, w).
Proof.
  induction 1 as [|a l Ha _ IH]; [done|]. simpl. eff_unfold. by rewrite Ha, IH.
Qed.

(** Each element of [l] is written by [f] as one thing, which [g] reads back as [h]. *)
Lemma mapM_flat_map {A B C} (f : A -> list B) (g : B -> Eff C) (h : A -> C) (l : list A) w :
  Forall (fun a => exists b, f a = [b] /\ forall w, g b w = (h a, w)) l ->
  mapM (M := Eff) g (flat_map f l) w = (map h l, w).
Proof.
  induction 1 as [|a l (b & Hb & Hg) _ IH]; [done|]. cbn [flat_map]. rewrite Hb. simpl.
  eff_unfold. by rewrite Hg, IH.
Qed.
