(* ===== verification/Format.v ===== *)
(** * Formats and conversion errors

    [convert.rs]'s [Format] and [error.rs]'s [ConvertError]. *)
From S2P Require Import Prelude.
From S2P Require Import RustStd.

Inductive Format : Type :=
  | OpenAIChat
  | Claude
  | OpenAIResponses
  | Gemini.

#[export] Instance Format_eq_dec : EqDecision Format.
Proof. solve_decision. Defined.

(** [#[derive(PartialEq)]]. *)
Definition format_eqb (a b : Format) : bool := bool_decide (a = b).

(** [serde_json::Error] is its [Display] text. *)
Inductive ConvertError : Type :=
  | ErrJson (e : string)
  | UnsupportedConversion (from to : string)
  | MissingField (field : string)
  | InvalidField (field reason : string)
  | UnsupportedContentType (t : string)
  | SseParse (msg : string)
  | ErrStreamState (msg : string).

Definition Result : Type -> Type := result ConvertError.

Definition as_str (f : Format) : string :=
  match f with
  | OpenAIChat => "openai_chat"
  | Claude => "claude"
  | OpenAIResponses => "openai_responses"
  | Gemini => "gemini"
  end.

Definition parse (s : string) : Result Format :=
  if decide (s = "openai_chat") then Ok OpenAIChat else
  if decide (s = "openai") then Ok OpenAIChat else
  if decide (s = "claude") then Ok Claude else
  if decide (s = "anthropic") then Ok Claude else
  if decide (s = "openai_responses") then Ok OpenAIResponses else
  if decide (s = "responses") then Ok OpenAIResponses else
  if decide (s = "gemini") then Ok Gemini else
  if decide (s = "google") then Ok Gemini else
  Err (InvalidField "format" ("unknown format: " +:+ s)).

Lemma parse_as_str f : parse (as_str f) = Ok f.
Proof. by destruct f. Qed.

(** The names [parse] accepts for each format, and no other. *)
Definition aliases (f : Format) : list string :=
  match f with
  | OpenAIChat => ["openai_chat"; "openai"]
  | Claude => ["claude"; "anthropic"]
  | OpenAIResponses => ["openai_responses"; "responses"]
  | Gemini => ["gemini"; "google"]
  end.

Lemma parse_accepts s f : parse s = Ok f <-> s ∈ aliases f.
Proof.
  split.
  - unfold parse. intros H. apply list_elem_of_In.
    repeat case_decide; simplify_eq; simpl; tauto.
  - intros H%list_elem_of_In. destruct f; simpl in H; by destruct H as [<-|[<-|[]]].
Qed.
