(* ===== verification/Ir.v ===== *)
(** * The intermediate representation

    [ir/request.rs], [ir/response.rs] and [ir/stream.rs]: what a reader of one
    wire format hands to the builder of another. *)
From Stdlib Require Import ZArith Lia.
From S2P Require Import Prelude.
From S2P Require Import RustStd.
From S2P Require Import Json.
From S2P Require Import Format.

Local Open Scope Z_scope.

(** ** Requests *)

Inductive Role : Type := User | Assistant.
#[export] Instance Role_eq_dec : EqDecision Role.
Proof. solve_decision. Defined.

Record Signature := { sig_by : Format; sig_value : string }.

Inductive IrPart : Type :=
  | Text (text : string) (signature : option Signature)
  | Image (url media_type : string) (data detail : option string)
  | ToolCall (id name : string) (args : Value) (signature : option Signature)
  | ToolResult (call_id : string) (is_error : bool) (content : list IrPart)
  | Thinking (text : string) (signature : option Signature)
  | Sealed (by_ : Format) (raw : Value).

Section part_ind.
Variable P : IrPart -> Prop.
Hypothesis Htext : forall t s, P (Text t s).
Hypothesis Himage : forall u m d e, P (Image u m d e).
Hypothesis Hcall : forall i n a s, P (ToolCall i n a s).
Hypothesis Hresult : forall c e l, Forall P l -> P (ToolResult c e l).
Hypothesis Hthinking : forall t s, P (Thinking t s).
Hypothesis Hsealed : forall b r, P (Sealed b r).

Fixpoint IrPart_nested_ind (p : IrPart) : P p :=
  match p with
  | Text t s => Htext t s
  | Image u m d e => Himage u m d e
  | ToolCall i n a s => Hcall i n a s
  | ToolResult c e l =>
      Hresult c e l ((fix go l := match l return Forall P l with
                                  | [] => List.Forall_nil _
                                  | p :: l => List.Forall_cons _ _ _ (IrPart_nested_ind p) (go l)
                                  end) l)
  | Thinking t s => Hthinking t s
  | Sealed b r => Hsealed b r
  end.
End part_ind.

Record IrMessage := { msg_role : Role; msg_parts : list IrPart }.

Record IrTool := {
  tool_name : string;
  tool_description : string;
  tool_schema : Value;
  tool_strict : option bool
}.

Inductive IrToolChoice : Type :=
  | ChoiceAuto
  | ChoiceNone
  | ChoiceRequired
  | ChoiceNamed (name : string).

Record Sampling := {
  max_tokens : option Z;
  temperature : option f32;
  top_p : option f32;
  top_k : option Z;
  stop : list string
}.
Definition Sampling_default : Sampling :=
  {| max_tokens := None; temperature := None; top_p := None; top_k := None; stop := [] |}.

Inductive Reasoning : Type :=
  | Off
  | Budget (tokens : Z)
  | Effort (effort : string).

(** [(owner format, field) -> value], in insertion order. *)
Definition NamespacedExtra : Type := list (Format * string * Value).

Record IrRequest := {
  model : string;
  system : list IrPart;
  messages : list IrMessage;
  tools : list IrTool;
  tool_choice : option IrToolChoice;
  sampling : Sampling;
  stream : bool;
  reasoning : Reasoning;
  extra : NamespacedExtra
}.

(** *** The bag of fields no IR type models *)

Definition PASSLIST : list string := ["user"; "stream_options"; "parallel_tool_calls"].

Fixpoint put (owner : Format) (field : string) (value : Value) (x : NamespacedExtra)
  : NamespacedExtra :=
  match x with
  | [] => [(owner, field, value)]
  | (f, name, v) :: x' =>
      if decide (f = owner /\ name = field) then (f, name, value) :: x'
      else (f, name, v) :: put owner field value x'
  end.

(** [put] of a field the client may not have sent. *)
Definition put_opt (owner : Format) (field : string) (value : option Value) (x : NamespacedExtra)
  : NamespacedExtra :=
  match value with Some v => put owner field v x | None => x end.

Definition takes (target owner : Format) (name : string) : bool :=
  bool_decide (owner = target) || bool_decide (name ∈ PASSLIST).

(** The taken entries, and what stays in the bag. *)
Definition take (target : Format) (x : NamespacedExtra)
  : list (string * Value) * NamespacedExtra :=
  (filter_map (fun '(owner, name, v) => if takes target owner name then Some (name, v) else None) x,
   filter (fun '(owner, name, _) => takes target owner name = false) x).

Definition dropped (x : NamespacedExtra) : list (Format * string) :=
  map (fun '(f, name, _) => (f, name)) x.

Definition extra_is_empty (x : NamespacedExtra) : bool :=
  match x with [] => true | _ :: _ => false end.

(** [find] of an entry of the bag. *)
Fixpoint extra_get (owner : Format) (field : string) (x : NamespacedExtra) : option Value :=
  match x with
  | [] => None
  | (f, name, v) :: x' =>
      if decide (f = owner /\ name = field) then Some v else extra_get owner field x'
  end.

(** ** Responses *)

Inductive StopReason : Type := EndTurn | MaxTokens | ToolUse | StopSequence | ContentFilter.
#[export] Instance StopReason_eq_dec : EqDecision StopReason.
Proof. solve_decision. Defined.

Record Usage := {
  input_tokens : Z;
  output_tokens : Z;
  cache_read_tokens : option Z;
  cache_write_tokens : option Z;
  cache_write_1h : option Z;
  reasoning_tokens : option Z
}.
Definition Usage_default : Usage :=
  {| input_tokens := 0; output_tokens := 0; cache_read_tokens := None;
     cache_write_tokens := None; cache_write_1h := None; reasoning_tokens := None |}.

Definition total_tokens (u : Usage) : Z := u64_add (input_tokens u) (output_tokens u).

Definition to_openai_chat (r : StopReason) : string :=
  match r with
  | EndTurn => "stop"
  | MaxTokens => "length"
  | ToolUse => "tool_calls"
  | StopSequence => "stop"
  | ContentFilter => "content_filter"
  end.

Definition to_claude (r : StopReason) : string :=
  match r with
  | EndTurn => "end_turn"
  | MaxTokens => "max_tokens"
  | ToolUse => "tool_use"
  | StopSequence => "stop_sequence"
  | ContentFilter => "end_turn"
  end.

Definition to_gemini (r : StopReason) : string :=
  match r with
  | EndTurn => "STOP"
  | MaxTokens => "MAX_TOKENS"
  | ToolUse => "STOP"
  | StopSequence => "STOP"
  | ContentFilter => "SAFETY"
  end.

Definition from_openai_chat (s : string) : StopReason :=
  if decide (s = "stop") then EndTurn else
  if decide (s = "length") then MaxTokens else
  if decide (s = "tool_calls") then ToolUse else
  if decide (s = "content_filter") then ContentFilter else
  EndTurn.

Definition from_claude (s : string) : StopReason :=
  if decide (s = "end_turn") then EndTurn else
  if decide (s = "max_tokens") then MaxTokens else
  if decide (s = "tool_use") then ToolUse else
  if decide (s = "stop_sequence") then StopSequence else
  if decide (s = "refusal") then ContentFilter else
  EndTurn.

Definition from_gemini (s : string) : StopReason :=
  if decide (s = "STOP") then EndTurn else
  if decide (s = "MAX_TOKENS") then MaxTokens else
  if decide (s = "SAFETY") then ContentFilter else
  if decide (s = "PROHIBITED_CONTENT") then ContentFilter else
  EndTurn.

Definition from_openai_resp (s : string) : StopReason :=
  if decide (s = "max_output_tokens") then MaxTokens else
  if decide (s = "content_filter") then ContentFilter else
  EndTurn.

Record IrResponse := {
  resp_id : option string;
  resp_model : string;
  resp_parts : list IrPart;
  resp_stop_reason : StopReason;
  resp_stop_sequence : option string;
  resp_usage : Usage
}.

(** ** Streams *)

Inductive CanonicalStreamEvent : Type :=
  | Start (id model : string)
  | TextDelta (text : string)
  | ToolCallStart (index : Z) (id name : string) (signature : option string)
  | ToolCallDelta (index : Z) (arguments_delta : string)
  | ThinkingDelta (text : string)
  | ThinkingSignature (by_ : Format) (delta : string)
  | SealedThinking (by_ : Format) (raw : Value)
  | Done (stop_reason : StopReason) (usage : option Usage).

Record AccumulatedToolCall := {
  tc_index : Z;
  tc_id : string;
  tc_name : string;
  tc_arguments : string
}.

Inductive StreamPhase : Type := PhaseInit | PhaseContent | PhaseToolCalls | PhaseDone.
#[export] Instance StreamPhase_eq_dec : EqDecision StreamPhase.
Proof. solve_decision. Defined.

Record StreamState := {
  response_id : option string;
  st_model : option string;
  block_index : Z;
  tool_call_index : Z;
  finish_reason : option StopReason;
  accumulated_usage : option Usage;
  accumulated_text : string;
  accumulated_tool_calls : list AccumulatedToolCall;
  phase : StreamPhase;
  done_ : bool;
  thinking_signature : string;
  thinking_signature_by : option Format
}.

(** [StreamState::new]. *)
Definition StreamState_new : StreamState :=
  {| response_id := None; st_model := None; block_index := 0; tool_call_index := 0;
     finish_reason := None; accumulated_usage := None; accumulated_text := "";
     accumulated_tool_calls := []; phase := PhaseInit; done_ := false;
     thinking_signature := ""; thinking_signature_by := None |}.

(** Assignment to one field of the state. *)
Definition set_response_id (v : option string) (st : StreamState) : StreamState :=
  {| response_id := v; st_model := st_model st; block_index := block_index st;
     tool_call_index := tool_call_index st; finish_reason := finish_reason st;
     accumulated_usage := accumulated_usage st; accumulated_text := accumulated_text st;
     accumulated_tool_calls := accumulated_tool_calls st; phase := phase st; done_ :=
     done_ st; thinking_signature := thinking_signature st; thinking_signature_by :=
     thinking_signature_by st |}.
Definition set_st_model (v : option string) (st : StreamState) : StreamState :=
  {| response_id := response_id st; st_model := v; block_index := block_index st;
     tool_call_index := tool_call_index st; finish_reason := finish_reason st;
     accumulated_usage := accumulated_usage st; accumulated_text := accumulated_text st;
     accumulated_tool_calls := accumulated_tool_calls st; phase := phase st; done_ :=
     done_ st; thinking_signature := thinking_signature st; thinking_signature_by :=
     thinking_signature_by st |}.
Definition set_block_index (v : Z) (st : StreamState) : StreamState :=
  {| response_id := response_id st; st_model := st_model st; block_index := v;
     tool_call_index := tool_call_index st; finish_reason := finish_reason st;
     accumulated_usage := accumulated_usage st; accumulated_text := accumulated_text st;
     accumulated_tool_calls := accumulated_tool_calls st; phase := phase st; done_ :=
     done_ st; thinking_signature := thinking_signature st; thinking_signature_by :=
     thinking_signature_by st |}.
Definition set_tool_call_index (v : Z) (st : StreamState) : StreamState :=
  {| response_id := response_id st; st_model := st_model st; block_index := block_index
     st; tool_call_index := v; finish_reason := finish_reason st; accumulated_usage :=
     accumulated_usage st; accumulated_text := accumulated_text st;
     accumulated_tool_calls := accumulated_tool_calls st; phase := phase st; done_ :=
     done_ st; thinking_signature := thinking_signature st; thinking_signature_by :=
     thinking_signature_by st |}.
Definition set_finish_reason (v : option StopReason) (st : StreamState) : StreamState :=
  {| response_id := response_id st; st_model := st_model st; block_index := block_index
     st; tool_call_index := tool_call_index st; finish_reason := v; accumulated_usage :=
     accumulated_usage st; accumulated_text := accumulated_text st;
     accumulated_tool_calls := accumulated_tool_calls st; phase := phase st; done_ :=
     done_ st; thinking_signature := thinking_signature st; thinking_signature_by :=
     thinking_signature_by st |}.
Definition set_accumulated_usage (v : option Usage) (st : StreamState) : StreamState :=
  {| response_id := response_id st; st_model := st_model st; block_index := block_index
     st; tool_call_index := tool_call_index st; finish_reason := finish_reason st;
     accumulated_usage := v; accumulated_text := accumulated_text st;
     accumulated_tool_calls := accumulated_tool_calls st; phase := phase st; done_ :=
     done_ st; thinking_signature := thinking_signature st; thinking_signature_by :=
     thinking_signature_by st |}.
Definition set_accumulated_text (v : string) (st : StreamState) : StreamState :=
  {| response_id := response_id st; st_model := st_model st; block_index := block_index
     st; tool_call_index := tool_call_index st; finish_reason := finish_reason st;
     accumulated_usage := accumulated_usage st; accumulated_text := v;
     accumulated_tool_calls := accumulated_tool_calls st; phase := phase st; done_ :=
     done_ st; thinking_signature := thinking_signature st; thinking_signature_by :=
     thinking_signature_by st |}.
Definition set_accumulated_tool_calls (v : list AccumulatedToolCall) (st : StreamState) : StreamState :=
  {| response_id := response_id st; st_model := st_model st; block_index := block_index
     st; tool_call_index := tool_call_index st; finish_reason := finish_reason st;
     accumulated_usage := accumulated_usage st; accumulated_text := accumulated_text st;
     accumulated_tool_calls := v; phase := phase st; done_ := done_ st;
     thinking_signature := thinking_signature st; thinking_signature_by :=
     thinking_signature_by st |}.
Definition set_phase (v : StreamPhase) (st : StreamState) : StreamState :=
  {| response_id := response_id st; st_model := st_model st; block_index := block_index
     st; tool_call_index := tool_call_index st; finish_reason := finish_reason st;
     accumulated_usage := accumulated_usage st; accumulated_text := accumulated_text st;
     accumulated_tool_calls := accumulated_tool_calls st; phase := v; done_ := done_ st;
     thinking_signature := thinking_signature st; thinking_signature_by :=
     thinking_signature_by st |}.
Definition set_done_ (v : bool) (st : StreamState) : StreamState :=
  {| response_id := response_id st; st_model := st_model st; block_index := block_index
     st; tool_call_index := tool_call_index st; finish_reason := finish_reason st;
     accumulated_usage := accumulated_usage st; accumulated_text := accumulated_text st;
     accumulated_tool_calls := accumulated_tool_calls st; phase := phase st; done_ := v;
     thinking_signature := thinking_signature st; thinking_signature_by :=
     thinking_signature_by st |}.
Definition set_thinking_signature (v : string) (st : StreamState) : StreamState :=
  {| response_id := response_id st; st_model := st_model st; block_index := block_index
     st; tool_call_index := tool_call_index st; finish_reason := finish_reason st;
     accumulated_usage := accumulated_usage st; accumulated_text := accumulated_text st;
     accumulated_tool_calls := accumulated_tool_calls st; phase := phase st; done_ :=
     done_ st; thinking_signature := v; thinking_signature_by := thinking_signature_by
     st |}.
Definition set_thinking_signature_by (v : option Format) (st : StreamState) : StreamState :=
  {| response_id := response_id st; st_model := st_model st; block_index := block_index
     st; tool_call_index := tool_call_index st; finish_reason := finish_reason st;
     accumulated_usage := accumulated_usage st; accumulated_text := accumulated_text st;
     accumulated_tool_calls := accumulated_tool_calls st; phase := phase st; done_ :=
     done_ st; thinking_signature := thinking_signature st; thinking_signature_by := v |}.

(** [idx] is the old value; the counter wraps as a [u32] does. *)
Definition next_block_index (st : StreamState) : Z * StreamState :=
  (block_index st, set_block_index (u32_add (block_index st) 1) st).
Definition next_tool_call_index (st : StreamState) : Z * StreamState :=
  (tool_call_index st, set_tool_call_index (u32_add (tool_call_index st) 1) st).

(** * Properties of the intermediate representation

    The bag of extra fields keeps vendors apart. *)

(** The keys of a bag. *)
Definition extra_keys (x : NamespacedExtra) : list (Format * string) :=
  map (fun '(f, name, _) => (f, name)) x.

Lemma extra_get_put o f v x o' f' :
  extra_get o' f' (put o f v x) =
  if decide (o = o' /\ f = f') then Some v else extra_get o' f' x.
Proof.
  induction x as [|[[g n] w] x IH]; simpl; [done|].
  destruct (decide (g = o /\ n = f)) as [[-> ->]|H1]; simpl.
  - by destruct (decide (o = o' /\ f = f')).
  - rewrite IH. destruct (decide (g = o' /\ n = f')), (decide (o = o' /\ f = f')); naive_solver.
Qed.

Lemma elem_of_extra_keys_put o f v x k :
  k ∈ extra_keys (put o f v x) <-> k = (o, f) \/ k ∈ extra_keys x.
Proof.
  unfold extra_keys. rewrite !list_elem_of_In.
  induction x as [|[[g n] w] x IH]; simpl; [naive_solver|].
  case_decide as H; simpl; [|rewrite IH]; naive_solver.
Qed.

(** [put] keeps the keys of the bag distinct. *)
Lemma put_NoDup o f v x : NoDup (extra_keys x) -> NoDup (extra_keys (put o f v x)).
Proof.
  induction x as [|[[g n] w] x IH]; simpl; intros H.
  - apply NoDup_singleton.
  - apply list.NoDup_cons in H as [Hnin H]. case_decide as Heq; simpl.
    + by apply list.NoDup_cons.
    + apply list.NoDup_cons. split; [|by apply IH].
      rewrite elem_of_extra_keys_put. naive_solver.
Qed.

Lemma put_opt_NoDup o f v x : NoDup (extra_keys x) -> NoDup (extra_keys (put_opt o f v x)).
Proof. destruct v; [apply put_NoDup|done]. Qed.

Lemma put_new o f v x : extra_get o f x = None -> put o f v x = x ++ [(o, f, v)].
Proof.
  induction x as [|[[g n] w] x IH]; simpl; [done|].
  case_decide; [done|]. intros H'. by rewrite IH.
Qed.

Lemma extra_get_app o f x y : extra_get o f (x ++ y) = opt_or (extra_get o f x) (extra_get o f y).
Proof.
  induction x as [|[[g n] w] x IH]; [done|]. cbn [app extra_get]. by case_decide.
Qed.

Lemma put_opt_new o f v x :
  extra_get o f x = None -> put_opt o f v x = x ++ from_option (fun v => [(o, f, v)]) [] v.
Proof. destruct v; cbn; [apply put_new|by rewrite app_nil_r]. Qed.

Lemma take_taken_iff t x n v :
  (n, v) ∈ fst (take t x) <-> exists o, (o, n, v) ∈ x /\ takes t o n = true.
Proof.
  unfold take. cbn [fst]. rewrite elem_of_filter_map. split.
  - intros ([[o n'] v'] & Hin & H). destruct (takes t o n') eqn:E; naive_solver.
  - intros (o & Hin & H). exists (o, n, v). by rewrite H.
Qed.

Lemma take_rest_iff t x o n v :
  (o, n, v) ∈ snd (take t x) <-> (o, n, v) ∈ x /\ takes t o n = false.
Proof. unfold take. simpl. rewrite list_elem_of_filter. naive_solver. Qed.

(** A field of another vendor, outside the passlist, is invisible to a
    builder: setting it changes nothing in what the builder takes. *)
Lemma take_put_foreign t o f v x :
  takes t o f = false -> fst (take t (put o f v x)) = fst (take t x).
Proof.
  intros Ht. unfold take. cbn [fst]. induction x as [|[[g n] w] x IH]; cbn [put].
  - rewrite filter_map_cons. by rewrite Ht.
  - case_decide as Heq; rewrite !filter_map_cons.
    + destruct Heq as [-> ->]. by rewrite Ht.
    + by rewrite IH.
Qed.

Lemma take_put_own t o f v x :
  takes t o f = true -> (f, v) ∈ fst (take t (put o f v x)).
Proof.
  intros Ht. apply take_taken_iff. exists o. split; [|done].
  apply list_elem_of_In. induction x as [|[[g n] w] x IH]; simpl; [auto|].
  case_decide as Heq; simpl; [|auto]. destruct Heq as [-> ->]. auto.
Qed.

Lemma takes_foreign t o f : o <> t -> f ∉ PASSLIST -> takes t o f = false.
Proof. intros H1 H2. unfold takes. by rewrite !bool_decide_false. Qed.

(** A builder of format [t] takes from the bag exactly the fields that [t]
    owns or that the passlist lets through. A field that another vendor owns
    and that is not on the passlist cannot influence what the builder takes,
    whatever its value, and it stays in the bag to be reported as dropped; a
    field [t] owns, or a passlist field, is taken with the value last put. *)
Theorem extra_vendor_isolation (t o : Format) (f : string) (v : Value) (x : NamespacedExtra) :
  (o <> t -> f ∉ PASSLIST ->
     fst (take t (put o f v x)) = fst (take t x) /\
     (o, f) ∈ dropped (snd (take t (put o f v x)))) /\
  (o = t \/ f ∈ PASSLIST ->
     (f, v) ∈ fst (take t (put o f v x)) /\
     (o, f) ∉ dropped (snd (take t (put o f v x)))) /\
  (forall n w, (n, w) ∈ fst (take t x) ->
     exists o', (o', n, w) ∈ x /\ (o' = t \/ n ∈ PASSLIST)).
Proof.
  split_and!.
  - intros Hne Hp. pose proof (takes_foreign t o f Hne Hp) as Ht.
    split; [by apply take_put_foreign|].
    unfold dropped. apply list_elem_of_fmap. exists (o, f, v). split; [done|].
    apply take_rest_iff. split; [|done]. apply list_elem_of_In.
    induction x as [|[[g n] w] x IH]; simpl; [auto|].
    case_decide as Heq; simpl; [|auto]. destruct Heq as [-> ->]. auto.
  - intros Hown.
    assert (takes t o f = true) as Ht.
    { unfold takes. destruct Hown; [by rewrite bool_decide_true|].
      by rewrite (bool_decide_true (f ∈ PASSLIST)), orb_true_r. }
    split; [by apply take_put_own|].
    unfold dropped. intros ([[o' f'] w] & ? & Hin)%list_elem_of_fmap. simplify_eq.
    apply take_rest_iff in Hin as [_ Hin]. congruence.
  - intros n w (o' & Hin & H)%take_taken_iff. exists o'. split; [done|].
    unfold takes in H. apply orb_prop in H. by rewrite !bool_decide_eq_true in H.
Qed.

Lemma extra_vendor_isolation_witness :
  fst (take OpenAIChat (put Gemini "safetySettings" VNull [(OpenAIChat, "seed", num 7)])) =
    [("seed", num 7)] /\
  (Gemini, "safetySettings") ∈
    dropped (snd (take OpenAIChat (put Gemini "safetySettings" VNull [(OpenAIChat, "seed", num 7)]))).
Proof.
  destruct (extra_vendor_isolation OpenAIChat Gemini "safetySettings" VNull
              [(OpenAIChat, "seed", num 7)]) as [H _].
  destruct H as [H1 H2]; [done| |].
  - apply (bool_decide_unpack _). vm_compute. exact I.
  - split; [|exact H2]. rewrite H1. vm_compute. reflexivity.
Defined.

(** ** Signatures and sealed reasoning

    Opaque material of a vendor: signatures and sealed payloads. [redact t]
    blanks what any vendor other than [t] signed or sealed; a builder of format
    [t] must not see the difference. *)
Definition own_sig (t : Format) (s : option Signature) : option Signature :=
  opt_filter (fun s => format_eqb (sig_by s) t) s.

Fixpoint redact (t : Format) (p : IrPart) : IrPart :=
  match p with
  | Text text s => Text text (own_sig t s)
  | Image url media_type data detail => Image url media_type data detail
  | ToolCall id name args s => ToolCall id name args (own_sig t s)
  | ToolResult call_id is_error content => ToolResult call_id is_error (map (redact t) content)
  | Thinking text s => Thinking text (own_sig t s)
  | Sealed by_ raw => Sealed by_ (if format_eqb by_ t then raw else VNull)
  end.

Definition redact_message (t : Format) (m : IrMessage) : IrMessage :=
  {| msg_role := msg_role m; msg_parts := map (redact t) (msg_parts m) |}.

Definition redact_request (t : Format) (ir : IrRequest) : IrRequest :=
  {| model := model ir;
     system := map (redact t) (system ir);
     messages := map (redact_message t) (messages ir);
     tools := tools ir;
     tool_choice := tool_choice ir;
     sampling := sampling ir;
     stream := stream ir;
     reasoning := reasoning ir;
     extra := extra ir |}.

Lemma own_sig_idemp t s : own_sig t (own_sig t s) = own_sig t s.
Proof.
  unfold own_sig, opt_filter. destruct s as [s|]; [|done].
  destruct (format_eqb (sig_by s) t) eqn:E; [by rewrite E|done].
Qed.

(** Ignoring what [redact] blanks, for a function that is insensitive to it on
    every part of a list. *)
Lemma map_redact {A} (f : IrPart -> A) t l :
  Forall (fun p => f (redact t p) = f p) l -> map f (map (redact t) l) = map f l.
Proof. induction 1 as [|p l Hp _ IH]; [done|]. simpl. by rewrite Hp, IH. Qed.

Lemma filter_map_redact {A} (f : IrPart -> option A) t l :
  Forall (fun p => f (redact t p) = f p) l ->
  filter_map f (map (redact t) l) = filter_map f l.
Proof.
  induction 1 as [|p l Hp _ IH]; [done|]. cbn [map]. rewrite !filter_map_cons.
  by rewrite Hp, IH.
Qed.
