(* ===== verification/Sse.v ===== *)
(** * Server-Sent Events

    [sse.rs]: parsing, splitting and formatting of SSE frames. *)
From Stdlib Require Import ZArith Lia.
From S2P Require Import Prelude.
From S2P Require Import RustStd.
From S2P Require Import Json.

Record SseEvent := { event : option string; data : string }.

(** One line of the block: what the loop body does to [event_type] and
    [data_lines]. *)
Definition parse_line (acc : option string * list string) (line : string)
  : option string * list string :=
  let '(event_type, data_lines) := acc in
  match strip_prefix "event:" line with
  | Some val => (Some (trim val), data_lines)
  | None =>
      match strip_prefix "data:" line with
      | Some val => (event_type, data_lines ++ [trim_start_matches " " val])
      | None => (event_type, data_lines)
      end
  end.

Definition parse_sse_block (block : string) : option SseEvent :=
  let '(event_type, data_lines) := fold_left parse_line (lines block) (None, []) in
  match data_lines with
  | [] => None
  | _ :: _ => Some {| event := event_type; data := join newline data_lines |}
  end.

Definition blank_line : string := newline +:+ newline.

Definition split_sse_blocks (input : string) : list string :=
  let input :=
    if str_in cr input
    then replace (String cr "") newline (replace crlf newline input)
    else input in
  filter (fun s => is_empty s = false) (map trim (split blank_line input)).

Definition format_sse_data (data : string) : string := "data: " +:+ data +:+ blank_line.

Definition format_sse_event (event_type data : string) : string :=
  "event: " +:+ event_type +:+ newline +:+ "data: " +:+ data +:+ blank_line.

Definition is_openai_done (data : string) : bool := bool_decide (trim data = "[DONE]").

(** ** What an emitter writes and a client reads *)

(** The frame of an event: [format_sse_event] when it is named,
    [format_sse_data] when it is not. *)
Definition render (e : SseEvent) : string :=
  match event e with
  | Some name => format_sse_event name (data e)
  | None => format_sse_data (data e)
  end.

(** The event survives the wire: each field is one line without blanks at
    its ends. *)
Definition wire_event (e : SseEvent) : bool :=
  match event e with Some name => wire_field name | None => true end && wire_field (data e).

(** The frame without the blank line that ends it. *)
Definition body (e : SseEvent) : string :=
  match event e with
  | Some name => "event: " +:+ name +:+ newline +:+ "data: " +:+ data e
  | None => "data: " +:+ data e
  end.

Lemma render_body e : render e = body e +:+ blank_line.
Proof.
  unfold render, body, format_sse_event, format_sse_data.
  destruct (event e); by autorewrite with str.
Qed.

(** *** Parsing a frame *)

Lemma parse_line_event name acc :
  first_solid name = true -> last_solid name = true ->
  parse_line acc ("event: " +:+ name) = (Some name, snd acc).
Proof.
  intros Hf Hl. unfold parse_line. destruct acc as [ev ds].
  change ("event: " +:+ name) with ("event:" +:+ (" " +:+ name)).
  by rewrite strip_prefix_app, trim_space_solid.
Qed.

Lemma parse_line_data d acc :
  first_solid d = true ->
  parse_line acc ("data: " +:+ d) = (fst acc, snd acc ++ [d]).
Proof.
  intros Hf. unfold parse_line. destruct acc as [ev ds].
  change ("data: " +:+ d) with ("data:" +:+ (" " +:+ d)) at 2.
  rewrite strip_prefix_app, trim_start_matches_space by done.
  by replace (strip_prefix "event:" ("data: " +:+ d)) with (@None string).
Qed.

Lemma parse_line_empty acc : parse_line acc "" = acc.
Proof. by destruct acc. Qed.

Lemma split_lines_body e tail :
  wire_event e = true -> str_in nl tail = false ->
  split_lines (body e +:+ tail) =
  match event e with
  | Some name => ["event: " +:+ name; "data: " +:+ data e +:+ tail]
  | None => ["data: " +:+ data e +:+ tail]
  end.
Proof.
  unfold wire_event, body. intros [He Hd]%andb_prop Ht.
  apply wire_field_spec in Hd as (Hd & _).
  assert (str_in nl ("data: " +:+ data e +:+ tail) = false) as Hlast.
  { by rewrite !str_in_app, Hd, Ht. }
  destruct (event e) as [name|].
  - apply wire_field_spec in He as (He & _). autorewrite with str.
    rewrite newline_app, <-(app_assoc_str "event: "), split_lines_app_nl
      by (by rewrite str_in_app, He).
    by rewrite split_lines_last.
  - autorewrite with str. by rewrite split_lines_last.
Qed.

(** *** Lines of a frame *)
Definition body_lines (e : SseEvent) : list string :=
  match event e with
  | Some name => ["event: " +:+ name; "data: " +:+ data e]
  | None => ["data: " +:+ data e]
  end.

Lemma body_split_nl e t :
  wire_event e = true -> split_lines (body e +:+ String nl t) = body_lines e ++ split_lines t.
Proof.
  unfold wire_event, body, body_lines. intros [He Hd]%andb_prop.
  apply wire_field_spec in Hd as (Hd & _).
  destruct (event e) as [name|]; autorewrite with str.
  - apply wire_field_spec in He as (He & _).
    rewrite newline_app, <-(app_assoc_str "event: "), split_lines_app_nl
      by (by rewrite str_in_app, He).
    by rewrite <-(app_assoc_str "data: "), split_lines_app_nl by (by rewrite str_in_app, Hd).
  - by rewrite <-(app_assoc_str "data: "), split_lines_app_nl by (by rewrite str_in_app, Hd).
Qed.

Lemma body_lines_clean e :
  wire_event e = true -> Forall (fun l => str_in cr l = false /\ is_empty l = false) (body_lines e).
Proof.
  unfold wire_event, body_lines. intros [He Hd]%andb_prop.
  apply wire_field_spec in Hd as (_ & Hd & _).
  assert (str_in cr ("data: " +:+ data e) = false) by (by rewrite str_in_app, Hd).
  destruct (event e) as [name|]; [|by repeat constructor].
  apply wire_field_spec in He as (_ & He & _).
  by repeat constructor; rewrite ?str_in_app, ?He.
Qed.

Lemma finish_lines_clean ls tail :
  Forall (fun l => str_in cr l = false /\ is_empty l = false) ls ->
  finish_lines (ls ++ tail) = ls ++ finish_lines tail.
Proof.
  induction 1 as [|l ls [Hcr Hne] _ IH]; [done|]. cbn [app finish_lines].
  destruct (ls ++ tail) as [|l' ls'] eqn:E.
  - apply app_eq_nil in E as [-> ->]. by rewrite Hne.
  - by rewrite strip_last_cr_none, <-IH.
Qed.

Lemma fold_parse_body e :
  wire_event e = true ->
  fold_left parse_line (body_lines e) (None, []) = (event e, [data e]).
Proof.
  unfold wire_event, body_lines. intros [He Hd]%andb_prop.
  apply wire_field_spec in Hd as (_ & _ & Hf & _).
  destruct (event e) as [name|]; cbn [fold_left]; [|by rewrite parse_line_data].
  apply wire_field_spec in He as (_ & _ & Hf' & Hl').
  by rewrite parse_line_event, parse_line_data.
Qed.

Lemma parse_block_of_lines e block extra :
  wire_event e = true -> Forall (eq "") extra ->
  lines block = body_lines e ++ extra -> parse_sse_block block = Some e.
Proof.
  intros He Hx Hl. unfold parse_sse_block. rewrite Hl, fold_left_app, fold_parse_body by done.
  assert (fold_left parse_line extra (event e, [data e]) = (event e, [data e])) as ->.
  { clear -Hx. induction Hx as [|? ? <- _ IH]; [done|]. cbn [fold_left]. by rewrite parse_line_empty. }
  by destruct e.
Qed.

Lemma lines_render e : wire_event e = true -> lines (render e) = body_lines e ++ [""].
Proof.
  intros He. unfold lines. rewrite render_body.
  change blank_line with (String nl (String nl "")).
  rewrite body_split_nl by done.
  change (split_lines (String nl "")) with [""; ""].
  by rewrite finish_lines_clean by (by apply body_lines_clean).
Qed.

Lemma lines_body e : wire_event e = true -> lines (body e) = body_lines e.
Proof.
  intros He. unfold lines. rewrite <-(app_nil_r_str (body e)), split_lines_body by done.
  pose proof (body_lines_clean e He) as Hc. unfold body_lines in *.
  destruct (event e); rewrite !app_nil_r_str;
    [rewrite <-(app_nil_r [_; _])|rewrite <-(app_nil_r [_])]; by rewrite finish_lines_clean.
Qed.

(** A frame the emitters write parses back to the event it was written
    for, with the blank line that ends it and without it (the form
    [split_sse_blocks] hands on). *)
Theorem sse_frame_roundtrip (e : SseEvent) :
  wire_event e = true ->
  parse_sse_block (render e) = Some e /\ parse_sse_block (body e) = Some e.
Proof.
  intros He. split.
  - apply (parse_block_of_lines e _ [""]); [done|by repeat constructor|by apply lines_render].
  - apply (parse_block_of_lines e _ []); [done|done|]. by rewrite app_nil_r, lines_body.
Qed.

Lemma sse_frame_roundtrip_witness :
  parse_sse_block (render {| event := Some "message_stop"; data := "{}" |}) =
    Some {| event := Some "message_stop"; data := "{}" |}.
Proof. apply (sse_frame_roundtrip {| event := Some "message_stop"; data := "{}" |}). reflexivity. Defined.

(** *** Splitting a stream of frames *)

Definition prepend (a : string) : string * string -> string * string := fun '(x, y) => (a +:+ x, y).

Lemma split_once_single_nl a c s :
  str_in nl a = false -> c <> nl ->
  split_once blank_line (a +:+ String nl (String c s)) =
  prepend (a +:+ String nl "") <$> split_once blank_line (String c s).
Proof.
  intros Ha Hc. unfold blank_line, newline. rewrite app_cons_str, app_nil_l_str.
  rewrite split_once_skip by done.
  assert (split_once (String nl (String nl "")) (String nl (String c s)) =
          prepend (String nl "") <$> split_once (String nl (String nl "")) (String c s)) as ->.
  { rewrite split_once_cons; [done|]. cbn [strip_prefix]. rewrite decide_True by done.
    by rewrite decide_False by congruence. }
  destruct (split_once _ (String c s)) as [[x y]|]; [|done]. cbn.
  by rewrite !app_assoc_str.
Qed.

Lemma split_once_body e rest :
  wire_event e = true -> split_once blank_line (body e +:+ blank_line +:+ rest) = Some (body e, rest).
Proof.
  unfold wire_event, body. intros [He Hd]%andb_prop.
  apply wire_field_spec in Hd as (Hd & _).
  assert (split_once blank_line ("data: " +:+ data e +:+ blank_line +:+ rest) =
          Some ("data: " +:+ data e, rest)) as Hlast.
  { rewrite <-app_assoc_str. unfold blank_line, newline.
    rewrite (app_cons_str nl "" (String nl "")), app_nil_l_str.
    apply split_once_first. by rewrite str_in_app, Hd. }
  destruct (event e) as [name|]; [|by rewrite app_assoc_str].
  apply wire_field_spec in He as (He & _). rewrite !app_assoc_str, newline_app.
  rewrite <-(app_assoc_str "event: " name).
  change ("data: " +:+ data e +:+ blank_line +:+ rest)
    with (String "d" ("ata: " +:+ data e +:+ blank_line +:+ rest)) in *.
  rewrite split_once_single_nl by (try done; by rewrite str_in_app, He).
  rewrite Hlast. cbn. by rewrite !app_assoc_str.
Qed.

Lemma split_frames es :
  Forall (fun e => wire_event e = true) es ->
  split blank_line (concat_strings (map render es)) = map body es ++ [""].
Proof.
  induction 1 as [|e es He _ IH]; [done|]. cbn [map concat_strings foldr app].
  fold (concat_strings (map render es)).
  rewrite split_unfold, render_body, app_assoc_str, split_once_body by done. by rewrite IH.
Qed.

Lemma render_no_cr e : wire_event e = true -> str_in cr (render e) = false.
Proof.
  unfold wire_event, render, format_sse_event, format_sse_data. intros [He Hd]%andb_prop.
  apply wire_field_spec in Hd as (_ & Hd & _).
  destruct (event e) as [name|]; rewrite !str_in_app, Hd; [|done].
  by apply wire_field_spec in He as (_ & -> & _).
Qed.

Lemma frames_no_cr es :
  Forall (fun e => wire_event e = true) es -> str_in cr (concat_strings (map render es)) = false.
Proof.
  induction 1 as [|e es He _ IH]; [done|]. cbn. rewrite str_in_app, render_no_cr by done. done.
Qed.

Lemma trim_body e : wire_event e = true -> trim (body e) = body e.
Proof.
  unfold wire_event, body. intros [_ Hd]%andb_prop.
  apply wire_field_spec in Hd as (_ & _ & _ & Hl).
  apply trim_solid; [by destruct (event e)|].
  destruct (event e); repeat apply last_solid_app; done.
Qed.

Lemma body_not_empty e : is_empty (body e) = false.
Proof. unfold body. by destruct (event e). Qed.

Lemma split_blocks_frames es :
  Forall (fun e => wire_event e = true) es ->
  filter (fun s => is_empty s = false) (map trim (map body es ++ [""])) = map body es.
Proof.
  intros Hes. rewrite map_app. change (map trim [""]) with [""].
  induction Hes as [|e es He _ IH]; [done|]. cbn [map app].
  rewrite trim_body, filter_cons_True by (done || apply body_not_empty). by rewrite IH.
Qed.

(** A whole stream of frames, concatenated on the wire, splits into one
    block per event and every block parses back to its event. The same stream
    sent with CRLF line ends splits into the same blocks. *)
Theorem sse_stream_roundtrip (es : list SseEvent) :
  Forall (fun e => wire_event e = true) es ->
  let wire := concat_strings (map render es) in
  split_sse_blocks wire = map body es /\
  split_sse_blocks (replace newline crlf wire) = map body es /\
  map parse_sse_block (split_sse_blocks wire) = map Some es.
Proof.
  intros Hes wire.
  assert (split_sse_blocks wire = map body es) as Hsplit.
  { unfold split_sse_blocks, wire. rewrite frames_no_cr by done.
    by rewrite split_frames, split_blocks_frames. }
  split_and!; [done| |].
  - rewrite <-Hsplit. unfold split_sse_blocks. subst wire. rewrite frames_no_cr by done.
    destruct (str_in cr (replace newline crlf _)) eqn:Hcr.
    + unfold crlf, newline. rewrite replace_back by (by apply frames_no_cr).
      by rewrite (replace_absent cr) by (by apply frames_no_cr).
    + destruct es as [|e es]; [done|].
      exfalso. revert Hcr. apply not_false_iff_true. inversion Hes; subst.
      cbn [map concat_strings foldr]. fold (concat_strings (map render es)).
      unfold replace. rewrite render_body. 
      rewrite split_unfold by done.
      rewrite app_assoc_str.
      destruct (split_once newline (body e +:+ blank_line +:+ concat_strings (map render es)))
        as [[a r]|] eqn:E.
      * pose proof (split_not_nil newline r ltac:(done)).
        destruct (split newline r); [done|]. cbn [join]. rewrite !str_in_app.
        change (str_in cr crlf) with true. by rewrite orb_true_r.
      * exfalso. apply (f_equal is_some) in E. revert E. apply not_false_iff_true.
        unfold blank_line. rewrite app_assoc_str.
        clear. induction (body e) as [|c b IH]; [done|].
        rewrite app_cons_str. cbn [split_once newline strip_prefix]. case_decide; [done|].
        fold newline. revert IH. by destruct (split_once newline _) as [[]|].
  - rewrite Hsplit, map_map. apply map_ext_Forall.
    refine (list.Forall_impl _ _ _ Hes _). intros e He.
    by apply (parse_block_of_lines e _ []); [|done|rewrite app_nil_r, lines_body].
Qed.

Lemma sse_stream_roundtrip_witness :
  let es := [ {| event := None; data := "first" |}; {| event := Some "ping"; data := "[1]" |};
              {| event := None; data := "[DONE]" |} ] in
  map parse_sse_block (split_sse_blocks (concat_strings (map render es))) = map Some es.
Proof.
  intros es. apply (sse_stream_roundtrip es). repeat constructor.
Defined.
