(* ===== verification/Concrete.v ===== *)
(** * A concrete instance of the interface to serde_json

    The witnesses instantiate the serde_json parameters with a printer that
    satisfies [SerdeJsonLaws]: a value is coded as a binary numeral, printed
    with the digits 0 and 1. *)
From Stdlib Require Import ZArith Lia Floats.SpecFloat.
From stdpp Require Import countable.
From S2P Require Import Prelude.
From S2P Require Import RustStd.
From S2P Require Import Json.
From S2P Require Import Effects.
From S2P Require Import Sse.

(** ** Codes *)

Definition spec_float_tuple (f : spec_float) : (bool + bool) + (unit + (bool * positive * Z)) :=
  match f with
  | S754_zero s => inl (inl s)
  | S754_infinity s => inl (inr s)
  | S754_nan => inr (inl tt)
  | S754_finite s m e => inr (inr (s, m, e))
  end.
Definition tuple_spec_float (t : (bool + bool) + (unit + (bool * positive * Z))) : spec_float :=
  match t with
  | inl (inl s) => S754_zero s
  | inl (inr s) => S754_infinity s
  | inr (inl _) => S754_nan
  | inr (inr (s, m, e)) => S754_finite s m e
  end.
#[export] Instance spec_float_eq_dec : EqDecision spec_float.
Proof. solve_decision. Defined.
#[export] Instance spec_float_countable : Countable spec_float.
Proof. refine (inj_countable' spec_float_tuple tuple_spec_float _). by intros []. Defined.

#[export] Instance Num_eq_dec : EqDecision Num.
Proof. solve_decision. Defined.
#[export] Instance Num_countable : Countable Num.
Proof.
  refine (inj_countable'
    (fun n => match n with PosInt z => inl (inl z) | NegInt z => inl (inr z) | Float f => inr f end)
    (fun t => match t with inl (inl z) => PosInt z | inl (inr z) => NegInt z | inr f => Float f end) _).
  by intros [].
Defined.

(** Values as trees. *)
Definition leaf : Type := (bool + Num) + string.

Fixpoint to_tree (v : Value) : gen_tree leaf :=
  match v with
  | VNull => GenNode 0 []
  | VBool b => GenLeaf (inl (inl b))
  | VNumber n => GenLeaf (inl (inr n))
  | VString s => GenLeaf (inr s)
  | VArray l => GenNode 1 (map to_tree l)
  | VObject m => GenNode 2 (map (fun '(k, v) => GenNode 3 [GenLeaf (inr k); to_tree v]) m)
  end.

Fixpoint of_tree (t : gen_tree leaf) : option Value :=
  match t with
  | GenNode 0 [] => Some VNull
  | GenLeaf (inl (inl b)) => Some (VBool b)
  | GenLeaf (inl (inr n)) => Some (VNumber n)
  | GenLeaf (inr s) => Some (VString s)
  | GenNode 1 l => Some (VArray (filter_map of_tree l))
  | GenNode 2 l =>
      Some (VObject (filter_map (fun t =>
        match t with
        | GenNode 3 [GenLeaf (inr k); t] => v ← of_tree t; Some (k, v)
        | _ => None
        end) l))
  | _ => None
  end.

Lemma of_to_tree v : of_tree (to_tree v) = Some v.
Proof.
  induction v as [| |n| |l IH|m IH] using Value_nested_ind; try done;
    cbn [to_tree of_tree]; do 2 f_equal; rewrite filter_map_map.
  - rewrite (filter_map_all _ (fun v => v)); [apply map_id|done].
  - rewrite (filter_map_all _ (fun kv => kv)); [apply map_id|].
    apply (Forall_weaken _ _ _ IH). intros [k v] Hv. cbn in Hv. by rewrite Hv.
Qed.

#[export] Instance Value_eq_dec : EqDecision Value.
Proof.
  intros v w. destruct (decide (to_tree v = to_tree w)) as [E|N].
  - left. apply (f_equal of_tree) in E. rewrite !of_to_tree in E. congruence.
  - right. by intros ->.
Defined.
#[export] Instance Value_countable : Countable Value.
Proof. exact (inj_countable to_tree of_tree of_to_tree). Defined.

Fixpoint digits (p : positive) : string :=
  match p with
  | xH => "1"
  | xO p => String "0" (digits p)
  | xI p => String "1" (digits p)
  end.

Fixpoint undigits (s : string) : option positive :=
  match s with
  | String c "" => if decide (c = "1"%char) then Some xH else None
  | String c s =>
      p ← undigits s;
      Some (if decide (c = "0"%char) then xO p else xI p)
  | "" => None
  end.

Lemma undigits_digits p : undigits (digits p) = Some p.
Proof.
  induction p as [p IH|p IH|]; [| |done]; cbn [digits undigits]; rewrite IH;
    by destruct p.
Qed.

Lemma digits_chars c p : str_in c (digits p) = true -> c = "0"%char \/ c = "1"%char.
Proof.
  induction p as [p IH|p IH|]; cbn [digits str_in]; intros H.
  all: case_decide; [by auto|]; auto; done.
Qed.

Lemma digits_last p : exists s, digits p = s +:+ "1".
Proof.
  induction p as [p [s IH]|p [s IH]|]; [| |by exists ""]; cbn [digits]; rewrite IH.
  - by exists (String "1" s).
  - by exists (String "0" s).
Qed.

Lemma digits_wire p : wire_field (digits p) = true.
Proof.
  unfold wire_field.
  assert (str_in nl (digits p) = false) as ->.
  { destruct (str_in nl (digits p)) eqn:E; [|done]. by destruct (digits_chars _ _ E). }
  assert (str_in cr (digits p) = false) as ->.
  { destruct (str_in cr (digits p)) eqn:E; [|done]. by destruct (digits_chars _ _ E). }
  assert (first_solid (digits p) = true) as -> by by destruct p.
  destruct (digits_last p) as [s ->]. by rewrite last_solid_app.
Qed.

(** ** Printing and parsing anything countable *)
Section binary.
Context `{Countable T}.

Definition binary_print (t : T) : string := digits (encode t).
Definition binary_parse (s : string) : result string T :=
  ok_or "not a value" (p ← undigits s; decode p).

Lemma binary_roundtrip t : binary_parse (binary_print t) = Ok t.
Proof.
  unfold binary_parse, binary_print. rewrite undigits_digits. cbn. by rewrite decode_encode.
Qed.
End binary.

#[export] Instance binary_json : SerdeJson :=
  {| value_to_string v := binary_print v;
     serde_to_string v := Ok (binary_print v);
     value_from_str s := binary_parse s |}.

#[export] Instance binary_json_laws : SerdeJsonLaws.
Proof.
  split.
  - done.
  - intros v. apply digits_wire.
  - intros v _. apply binary_roundtrip.
Qed.

Lemma digits_not_done p : is_openai_done (digits p) = false.
Proof.
  unfold is_openai_done. apply bool_decide_eq_false. intros E.
  pose proof (digits_wire p) as Hw. apply wire_field_spec in Hw as (_ & _ & Hf & Hl).
  rewrite trim_solid in E by done. destruct p; discriminate.
Qed.

(** An environment and its first state. *)
Definition sample_env : Env := {| uuid_v4 := fun _ => "u"; unix_secs := fun _ => 0%Z |}.
Definition world0 : World := {| uuids_drawn := 0; clock_reads := 0 |}.

#[export] Instance sample_env_laws : @EnvLaws sample_env.
Proof. intros n. cbn. lia. Qed.
