(* ===== verification/ClaudeTypes.v ===== *)
(** * Wire types of the Claude Messages API

    [formats/claude/types.rs]. The structs' derived (de)serializers are the
    [Serialize] and [Deserialize] parameters of [Json.v]. *)
From Stdlib Require Import ZArith.
From S2P Require Import Prelude.
From S2P Require Import RustStd.
From S2P Require Import Json.

Local Open Scope Z_scope.

Definition DEFAULT_MAX_TOKENS : Z := 4096.

Record ThinkingConfig := { thinking_type : string; budget_tokens : Z }.

Record ClaudeMessage := { cm_role : string; cm_content : Value }.

Record ClaudeTool := {
  ct_name : string;
  ct_description : option string;
  ct_input_schema : Value
}.

Record ClaudeRequest := {
  cq_model : string;
  cq_max_tokens : Z;
  cq_messages : list ClaudeMessage;
  cq_system : option Value;
  cq_temperature : option f32;
  cq_top_p : option f32;
  cq_top_k : option Z;
  cq_stop_sequences : option (list string);
  cq_stream : option bool;
  cq_tools : option (list ClaudeTool);
  cq_tool_choice : option Value;
  cq_metadata : option Value;
  cq_thinking : option ThinkingConfig
}.

Inductive ClaudeContentBlock : Type :=
  | BText (text : string)
  | BToolUse (id name : string) (input : Value)
  | BThinking (thinking : string) (signature : option string)
  | BRedactedThinking (data : string).

Record ClaudeCacheCreation := {
  ephemeral_5m_input_tokens : option Z;
  ephemeral_1h_input_tokens : option Z
}.

Record ClaudeUsage := {
  cu_input_tokens : Z;
  cu_output_tokens : Z;
  cu_cache_creation_input_tokens : option Z;
  cu_cache_creation : option ClaudeCacheCreation;
  cu_cache_read_input_tokens : option Z
}.

Record ClaudeResponse := {
  cr_id : string;
  cr_type : string;
  cr_role : string;
  cr_model : string;
  cr_content : list ClaudeContentBlock;
  cr_stop_reason : option string;
  cr_stop_sequence : option string;
  cr_usage : ClaudeUsage
}.

(** ** Stream events *)

Record ClaudeStreamUsage := {
  su_input_tokens : Z;
  su_output_tokens : Z;
  su_cache_creation_input_tokens : option Z;
  su_cache_creation : option ClaudeCacheCreation;
  su_cache_read_input_tokens : option Z
}.

Record ClaudeStreamMessage := {
  sm_id : string;
  sm_model : string;
  sm_usage : option ClaudeStreamUsage
}.

Record ClaudeMessageStartEvent := { mse_type : string; mse_message : ClaudeStreamMessage }.

Inductive ClaudeStreamContentBlock : Type :=
  | SText (text : string)
  | SToolUse (id name : string) (input : Value)
  | SThinking (thinking : string) (signature : option string).

Record ClaudeContentBlockStartEvent := {
  cbs_type : string;
  cbs_index : Z;
  cbs_content_block : ClaudeStreamContentBlock
}.

Inductive ClaudeStreamDelta : Type :=
  | DText (text : string)
  | DInputJson (partial_json : string)
  | DThinking (thinking : string)
  | DSignature (signature : string).

Record ClaudeContentBlockDeltaEvent := {
  cbd_type : string;
  cbd_index : Z;
  cbd_delta : ClaudeStreamDelta
}.

Record ClaudeMessageDelta := { md_stop_reason : option string; md_stop_sequence : option string }.

Record ClaudeMessageDeltaEvent := {
  mde_type : string;
  mde_delta : ClaudeMessageDelta;
  mde_usage : option ClaudeStreamUsage
}.
