(* ===== verification/ChatTypes.v ===== *)
(** * Wire types of the OpenAI Chat Completions API

    [formats/openai_chat/types.rs]. *)
From Stdlib Require Import ZArith.
From S2P Require Import Prelude.
From S2P Require Import RustStd.
From S2P Require Import Json.

(** ** Requests *)

Record ReasoningConfig := { rc_effort : string }.
Record StreamOptions := { include_usage : option bool }.

Inductive StopValue : Type := Single (s : string) | Multiple (l : list string).

Record ImageUrlDetail := { iu_url : string; iu_detail : option string }.

Inductive ContentPart : Type :=
  | PText (text : string)
  | PImageUrl (image_url : ImageUrlDetail).

Inductive MessageContent : Type :=
  | MText (text : string)
  | MParts (parts : list ContentPart).

Record FunctionCall := { fc_name : string; fc_arguments : string }.
Record ToolCallWire := { tcw_id : string; tcw_type : string; tcw_function : FunctionCall }.

Record OpenAIChatMessage := {
  om_role : string;
  om_content : option MessageContent;
  om_name : option string;
  om_tool_calls : option (list ToolCallWire);
  om_tool_call_id : option string;
  om_reasoning_content : option string
}.

Record FunctionDef := {
  fd_name : string;
  fd_description : option string;
  fd_parameters : option Value;
  fd_strict : option bool
}.
Record OpenAIChatTool := { ot_type : string; ot_function : FunctionDef }.

Record OpenAIChatRequest := {
  oq_model : string;
  oq_messages : list OpenAIChatMessage;
  oq_temperature : option f32;
  oq_top_p : option f32;
  oq_max_completion_tokens : option Z;
  oq_max_tokens : option Z;
  oq_stop : option StopValue;
  oq_seed : option Z;
  oq_stream : option bool;
  oq_stream_options : option StreamOptions;
  oq_tools : option (list OpenAIChatTool);
  oq_tool_choice : option Value;
  oq_response_format : option Value;
  oq_n : option Z;
  oq_reasoning_effort : option string;
  oq_reasoning : option ReasoningConfig
}.

(** ** Responses *)

Record PromptTokensDetails := { cached_tokens : option Z }.

Record OpenAIUsage := {
  ou_prompt_tokens : Z;
  ou_completion_tokens : Z;
  ou_total_tokens : Z;
  ou_prompt_tokens_details : option PromptTokensDetails
}.

Record ChoiceMessage := {
  chm_role : string;
  chm_content : option string;
  chm_tool_calls : option (list ToolCallWire);
  chm_refusal : option string;
  chm_reasoning_content : option string
}.

Record Choice := {
  ch_index : Z;
  ch_message : ChoiceMessage;
  ch_finish_reason : option string
}.

Record OpenAIChatResponse := {
  or_id : string;
  or_object : string;
  or_created : Z;
  or_model : string;
  or_choices : list Choice;
  or_usage : option OpenAIUsage;
  or_system_fingerprint : option string
}.

(** ** Streaming *)

Record StreamFunctionCall := { sfc_name : option string; sfc_arguments : option string }.

Record StreamToolCall := {
  stc_index : Z;
  stc_id : option string;
  stc_type : option string;
  stc_function : option StreamFunctionCall
}.

Record Delta := {
  d_role : option string;
  d_content : option string;
  d_reasoning_content : option string;
  d_tool_calls : option (list StreamToolCall)
}.

Record StreamChoice := {
  sc_index : Z;
  sc_delta : Delta;
  sc_finish_reason : option string
}.

Record OpenAIChatStreamChunk := {
  ck_id : string;
  ck_object : string;
  ck_created : Z;
  ck_model : string;
  ck_choices : list StreamChoice;
  ck_usage : option OpenAIUsage
}.
