(* ===== verification/GeminiTypes.v ===== *)
(** * Wire types of the Gemini API

    [formats/gemini/types.rs]. *)
From Stdlib Require Import ZArith.
From S2P Require Import Prelude.
From S2P Require Import RustStd.
From S2P Require Import Json.

Record GeminiInlineData := { id_mime_type : string; id_data : string }.
Record GeminiFunctionCall := { gfc_name : string; gfc_args : Value; gfc_id : option string }.
Record GeminiFunctionResponse := {
  gfr_name : string;
  gfr_response : Value;
  gfr_id : option string
}.

Record GeminiPart := {
  gp_text : option string;
  gp_thought : option bool;
  gp_thought_signature : option string;
  gp_inline_data : option GeminiInlineData;
  gp_function_call : option GeminiFunctionCall;
  gp_function_response : option GeminiFunctionResponse
}.

(** The constructors of [impl GeminiPart]. *)
Definition part_text (text : string) : GeminiPart :=
  {| gp_text := Some text; gp_thought := None; gp_thought_signature := None;
     gp_inline_data := None; gp_function_call := None; gp_function_response := None |}.

Definition part_thinking (text : string) : GeminiPart :=
  {| gp_text := Some text; gp_thought := Some true; gp_thought_signature := None;
     gp_inline_data := None; gp_function_call := None; gp_function_response := None |}.

Definition with_thought_signature (signature : option string) (p : GeminiPart) : GeminiPart :=
  {| gp_text := gp_text p; gp_thought := gp_thought p; gp_thought_signature := signature;
     gp_inline_data := gp_inline_data p; gp_function_call := gp_function_call p;
     gp_function_response := gp_function_response p |}.

Definition part_inline_data (mime_type data : string) : GeminiPart :=
  {| gp_text := None; gp_thought := None; gp_thought_signature := None;
     gp_inline_data := Some {| id_mime_type := mime_type; id_data := data |};
     gp_function_call := None; gp_function_response := None |}.

Definition part_function_call_with_id (name : string) (args : Value) (id : string) : GeminiPart :=
  {| gp_text := None; gp_thought := None; gp_thought_signature := None; gp_inline_data := None;
     gp_function_call := Some {| gfc_name := name; gfc_args := args; gfc_id := Some id |};
     gp_function_response := None |}.

Definition part_function_response_with_id (name : string) (response : Value) (id : string)
  : GeminiPart :=
  {| gp_text := None; gp_thought := None; gp_thought_signature := None; gp_inline_data := None;
     gp_function_call := None;
     gp_function_response :=
       Some {| gfr_name := name; gfr_response := response; gfr_id := Some id |} |}.

Record GeminiContent := { gc_role : option string; gc_parts : list GeminiPart }.

Record GeminiGenerationConfig := {
  gg_temperature : option f32;
  gg_top_p : option f32;
  gg_top_k : option Z;
  gg_max_output_tokens : option Z;
  gg_stop_sequences : option (list string);
  gg_seed : option Z;
  gg_response_mime_type : option string;
  gg_response_schema : option Value
}.

Record GeminiFunctionDeclaration := {
  gd_name : string;
  gd_description : option string;
  gd_parameters : option Value
}.
Record GeminiToolDeclaration := { function_declarations : list GeminiFunctionDeclaration }.

Record GeminiRequest := {
  gq_model : option string;
  gq_contents : list GeminiContent;
  gq_system_instruction : option GeminiContent;
  gq_generation_config : option GeminiGenerationConfig;
  gq_tools : option (list GeminiToolDeclaration);
  gq_tool_config : option Value
}.

(** ** Responses *)

Record GeminiUsageMetadata := {
  prompt_token_count : option Z;
  candidates_token_count : option Z;
  total_token_count : option Z
}.

Record GeminiCandidate := {
  cand_content : GeminiContent;
  cand_finish_reason : option string;
  cand_index : option Z
}.

Record GeminiResponse := {
  candidates : list GeminiCandidate;
  usage_metadata : option GeminiUsageMetadata;
  model_version : option string
}.
