(* ===== verification/RespTypes.v ===== *)
(** * Wire types of the OpenAI Responses API

    [formats/openai_resp/types.rs]. *)
From Stdlib Require Import ZArith.
From S2P Require Import Prelude.
From S2P Require Import RustStd.
From S2P Require Import Json.

Record OpenAIResponsesRequest := {
  rq_model : string;
  rq_input : option Value;
  rq_instructions : option string;
  rq_max_output_tokens : option Z;
  rq_temperature : option f32;
  rq_top_p : option f32;
  rq_stream : option bool;
  rq_tools : option (list Value);
  rq_tool_choice : option Value;
  rq_text : option Value;
  rq_reasoning : option Value;
  rq_previous_response_id : option string;
  rq_store : option bool;
  (** the [#[serde(flatten)]] catch-all *)
  rq_extra : Map
}.

Record InputTokensDetails := { itd_cached_tokens : option Z }.

Record ResponsesUsage := {
  ru_input_tokens : Z;
  ru_output_tokens : Z;
  ru_total_tokens : option Z;
  ru_input_tokens_details : option InputTokensDetails
}.

Record OpenAIResponsesResponse := {
  rr_id : string;
  rr_object : string;
  rr_created_at : Z;
  rr_model : string;
  rr_status : string;
  rr_output : list Value;
  rr_usage : option ResponsesUsage
}.
