(* ===== verification/Reasoning.v ===== *)
(** * Reasoning effort and thinking budget

    [converters/reasoning.rs]: OpenAI asks for reasoning by an effort word,
    Claude by a token budget. *)
From Stdlib Require Import ZArith Lia.
From S2P Require Import Prelude.
From S2P Require Import RustStd.
From S2P Require Import Json.
From S2P Require Import ClaudeTypes.

Local Open Scope Z_scope.

Definition enabled (budget : Z) : ThinkingConfig :=
  {| thinking_type := "enabled"; budget_tokens := budget |}.

Definition reasoning_effort_to_thinking (effort : option string) (max_tokens : Z)
  : option ThinkingConfig :=
  effort ← effort;
  if decide (effort = "none") then None else
  if decide (effort = "low") then Some (enabled 1024) else
  if decide (effort = "high") then Some (enabled (Z.max max_tokens 4096)) else
  Some (enabled (Z.max max_tokens 2048)).

Definition thinking_to_reasoning_effort (thinking : ThinkingConfig) : option string :=
  if decide (thinking_type thinking = "enabled") then
    Some (if budget_tokens thinking <=? 1024 then "low"
          else if 4096 <=? budget_tokens thinking then "high"
          else "medium")
  else Some "none".

Definition thinking_to_reasoning_json (thinking : ThinkingConfig) : option Value :=
  (fun effort => obj [("effort", str effort)]) <$> thinking_to_reasoning_effort thinking.

(** An effort word goes to a thinking budget and back. Whatever the
    request's [max_tokens], "low" and "high" come back as they were and "none"
    asks for no thinking at all. "medium" (and any label the code does not
    know, which it treats as medium) comes back as "medium" only below 4096
    tokens: from 4096 on, the default included, its budget is the request's
    [max_tokens] and it comes back as "high". *)
Theorem effort_budget_roundtrip (max_tokens : Z) (effort : string) :
  is_u32 max_tokens ->
  (reasoning_effort_to_thinking (Some effort) max_tokens ≫= thinking_to_reasoning_effort) =
  if decide (effort = "none") then None
  else if decide (effort = "low") then Some "low"
  else if decide (effort = "high") then Some "high"
  else if max_tokens <? 4096 then Some "medium" else Some "high".
Proof.
  intros [Hlo Hhi]. unfold reasoning_effort_to_thinking, thinking_to_reasoning_effort. simpl.
  repeat case_decide; simpl; try done; try (by exfalso; auto).
  - destruct (Z.leb_spec (Z.max max_tokens 4096) 1024); [lia|].
    by destruct (Z.leb_spec 4096 (Z.max max_tokens 4096)); [|lia].
  - destruct (Z.leb_spec (Z.max max_tokens 2048) 1024); [lia|].
    destruct (Z.leb_spec 4096 (Z.max max_tokens 2048)), (Z.ltb_spec max_tokens 4096); done || lia.
Qed.

Lemma effort_budget_roundtrip_witness :
  (reasoning_effort_to_thinking (Some "medium") DEFAULT_MAX_TOKENS ≫= thinking_to_reasoning_effort)
  = Some "high".
Proof.
  rewrite (effort_budget_roundtrip DEFAULT_MAX_TOKENS "medium"); [vm_compute; reflexivity|].
  split; vm_compute; discriminate.
Defined.
