(* ===== verification/Shared.v ===== *)
(** * Helpers shared by the readers and builders

    [converters/shared.rs]. *)
From Stdlib Require Import ZArith Lia.
From S2P Require Import Prelude.
From S2P Require Import RustStd.
From S2P Require Import Json.
From S2P Require Import Effects.
From S2P Require Import Format.
From S2P Require Import ChatTypes.

Section fresh.
Context `{Env}.

Definition now_unix_secs : Eff Z := read_clock.
Definition new_chat_id : Eff string := u ← draw_uuid; mret ("chatcmpl-" +:+ u).
Definition new_resp_id : Eff string := u ← draw_uuid; mret ("resp_" +:+ u).
Definition new_msg_id : Eff string := u ← draw_uuid; mret ("msg_" +:+ u).
Definition new_uuid : Eff string := draw_uuid.
End fresh.

Definition strip_private_fields (body : Value) : Value :=
  match body with
  | VObject m => VObject (filter (fun '(key, _) => starts_with "_" key = false) m)
  | _ => body
  end.

Definition clean_system_billing_headers (text : string) : string :=
  join newline (filter (fun line => starts_with "x-anthropic-billing-header:" line = false)
                  (lines text)).

Definition ITEM_TYPE_MESSAGE : string := "message".
Definition ITEM_TYPE_FUNCTION_CALL : string := "function_call".
Definition ITEM_TYPE_FUNCTION_CALL_OUTPUT : string := "function_call_output".
Definition ITEM_TYPE_INPUT_TEXT : string := "input_text".
Definition ITEM_TYPE_OUTPUT_TEXT : string := "output_text".
Definition ITEM_TYPE_INPUT_IMAGE : string := "input_image".
Definition CLAUDE_TEMPERATURE_MAX : f32 := f32_one.

Definition message_content_as_text (content : option MessageContent) : option string :=
  content ← content;
  match content with
  | MText t => Some t
  | MParts parts =>
      let texts := filter_map (fun p => match p with PText text => Some text | PImageUrl _ => None end)
                     parts in
      match texts with
      | [] => None
      | _ :: _ => Some (join "" texts)
      end
  end.

Definition parse_arguments `{SerdeJson} (args : string) : Value :=
  if is_empty args then VObject [] else unwrap_or_r (VObject []) (value_from_str args).

Definition image_block_to_url (m : Map) : Result string :=
  source ← ok_or (MissingField "image.source") (map_get "source" m ≫= as_object);
  source_type ← ok_or (MissingField "image.source.type") (get_str "type" source);
  if decide (source_type = "base64") then
    media_type ← ok_or (MissingField "image.source.media_type") (get_str "media_type" source);
    data ← ok_or (MissingField "image.source.data") (get_str "data" source);
    Ok ("data:" +:+ media_type +:+ ";base64," +:+ data)
  else if decide (source_type = "url") then
    ok_or (MissingField "image.source.url") (get_str "url" source)
  else Err (UnsupportedContentType ("image source: " +:+ source_type)).

(** [rest.find(';')] and the slices around it are [split_once] at [";"]. *)
Definition parse_data_url (url : string) : option (string * string) :=
  rest ← strip_prefix "data:" url;
  '(mime, after) ← split_once ";" rest;
  data ← strip_prefix "base64," after;
  Some (mime, data).

Section ids.
Context `{Env}.

Definition normalize_id_to_chat (id : string) : Eff string :=
  if is_empty id then new_chat_id
  else if starts_with "chatcmpl-" id then mret id
  else mret ("chatcmpl-" +:+
             default id (opt_or (strip_prefix "msg_" id) (strip_prefix "resp_" id))).

Definition normalize_id_to_claude (id : string) : Eff string :=
  if is_empty id then new_msg_id
  else if starts_with "msg_" id then mret id
  else mret ("msg_" +:+
             default id (opt_or (strip_prefix "chatcmpl-" id) (strip_prefix "resp_" id))).

Definition normalize_id_to_resp (id : string) : Eff string :=
  if is_empty id then new_resp_id
  else if starts_with "resp_" id then mret id
  else mret ("resp_" +:+
             default id (opt_or (strip_prefix "chatcmpl-" id) (strip_prefix "msg_" id))).
End ids.

Definition extract_function_response_text `{SerdeJson} (response : Value) : string :=
  match response with
  | VString text => text
  | VObject m =>
      match opt_or (map_get "result" m) (map_get "output" m) with
      | Some result => value_to_string result
      | None => value_to_string response
      end
  | _ => value_to_string response
  end.

(** ** Lemmas *)

(** Arguments that were printed are read back. *)
Lemma parse_arguments_printed `{SerdeJson} `{!SerdeJsonLaws} a :
  wf_value a = true -> parse_arguments (unwrap_or_r "{}" (serde_to_string a)) = a.
Proof.
  intros Ha. unfold parse_arguments. rewrite serde_to_string_display. cbn [unwrap_or_r].
  pose proof (value_to_string_wire a) as Hw. apply wire_field_spec in Hw as (_ & _ & Hw & _).
  destruct (is_empty (value_to_string a)) eqn:E; [by destruct (value_to_string a)|].
  by rewrite value_from_to_string.
Qed.

Lemma parse_data_url_build mime data :
  str_in ";" mime = false ->
  parse_data_url ("data:" +:+ mime +:+ ";base64," +:+ data) = Some (mime, data).
Proof.
  intros Hm. unfold parse_data_url. rewrite strip_prefix_app. cbn.
  change (";base64," +:+ data) with (String ";" "" +:+ ("base64," +:+ data)).
  by rewrite split_once_first by done.
Qed.

Lemma parse_data_url_sound url mime data :
  parse_data_url url = Some (mime, data) -> url = "data:" +:+ mime +:+ ";base64," +:+ data.
Proof.
  unfold parse_data_url. intros H.
  apply bind_Some in H as (rest & E1 & H). apply bind_Some in H as ([m after] & E2 & H).
  apply bind_Some in H as (d & E3 & H).
  apply strip_prefix_Some in E1 as ->. apply split_once_Some in E2 as ->.
  apply strip_prefix_Some in E3 as ->. by simplify_eq.
Qed.

(** An identifier is one of the vendors' forms of a body [b]: the body under
    any of the three prefixes, or bare. *)
Definition bare_id (b : string) : Prop :=
  b <> "" /\ starts_with "chatcmpl-" b = false /\ starts_with "msg_" b = false /\
  starts_with "resp_" b = false.
Definition id_of (b id : string) : Prop :=
  id = b \/ id = "chatcmpl-" +:+ b \/ id = "msg_" +:+ b \/ id = "resp_" +:+ b.

(** Response identifiers. Whichever vendor's form of a bare identifier
    arrives, each normalizer gives it its own prefix, once, and draws no fresh
    identifier; normalizing for one vendor and then for another gives what
    normalizing directly gives, so a response keeps its identity across any
    chain of conversions. An empty identifier is replaced by a fresh one. *)
Theorem normalize_id_canonical `{Env} (b id : string) (w : World) :
  bare_id b -> id_of b id ->
  normalize_id_to_chat id w = ("chatcmpl-" +:+ b, w) /\
  normalize_id_to_claude id w = ("msg_" +:+ b, w) /\
  normalize_id_to_resp id w = ("resp_" +:+ b, w) /\
  id_of b (fst (normalize_id_to_chat id w)) /\
  id_of b (fst (normalize_id_to_claude id w)) /\
  id_of b (fst (normalize_id_to_resp id w)) /\
  normalize_id_to_chat "" w =
    ("chatcmpl-" +:+ uuid_v4 (uuids_drawn w),
     {| uuids_drawn := S (uuids_drawn w); clock_reads := clock_reads w |}).
Proof.
  intros (Hne & Hc & Hm & Hr) Hid.
  assert (normalize_id_to_chat id w = ("chatcmpl-" +:+ b, w) /\
          normalize_id_to_claude id w = ("msg_" +:+ b, w) /\
          normalize_id_to_resp id w = ("resp_" +:+ b, w)) as (-> & -> & ->).
  { unfold normalize_id_to_chat, normalize_id_to_claude, normalize_id_to_resp.
    destruct Hid as [->|[->|[->| ->]]].
    - rewrite Hc, Hm, Hr, !strip_prefix_None by done. by destruct b.
    - rewrite starts_with_app, strip_prefix_app. done.
    - rewrite starts_with_app, strip_prefix_app. done.
    - rewrite starts_with_app, strip_prefix_app. done. }
  unfold id_of. split_and!; auto.
Qed.

Lemma normalize_id_canonical_witness :
  let E := {| uuid_v4 := fun _ => "u"; unix_secs := fun _ => 0%Z |} in
  let w := {| uuids_drawn := 0; clock_reads := 0 |} in
  @normalize_id_to_claude E "resp_abc" w = ("msg_abc", w).
Proof.
  intros E w.
  apply (@normalize_id_canonical E "abc" "resp_abc" w); [|by right; right; right].
  split_and!; done.
Defined.
