(* ===== verification/ClaudeRead.v ===== *)
(** * Claude Messages to the intermediate representation

    [formats/claude/read.rs]. Its [take_string] is [Json.take_string]. *)
From Stdlib Require Import ZArith.
From S2P Require Import Prelude.
From S2P Require Import RustStd.
From S2P Require Import Json.
From S2P Require Import Format.
From S2P Require Import Ir.
From S2P Require Import ClaudeTypes.
From S2P Require Import Shared.

Definition text_field (map : Map) (key : string) : string := default "" (get_str key map).

Definition read_image (obj : Map) : option IrPart :=
  url ← ok (image_block_to_url obj);
  source ← map_get "source" obj ≫= as_object;
  let base64 := bool_decide (get_str "type" source = Some "base64") in
  Some (Image url
          (if base64 then text_field source "media_type" else "")
          (then_some base64 (text_field source "data"))
          None).

(** The body of [read_parts], over the reader of one block. *)
Definition read_parts_with (read_block : Value -> option IrPart) (content : Value) : list IrPart :=
  match content with
  | VString text => [Text text None]
  | VArray blocks => filter_map read_block blocks
  | _ => []
  end.

(** [read_parts] and [read_block] call each other. A removed entry cannot be
    looked up again, but the keys removed from one object are distinct, so
    "content" is looked up in the whole object. *)
Fixpoint read_block (block : Value) : option IrPart :=
  match block with
  | VObject obj =>
      block_type ← get_str "type" obj;
      if decide (block_type = "text") then
        let '(text, obj) := take_string "text" obj in
        Some (Text text None)
      else if decide (block_type = "image") then read_image obj
      else if decide (block_type = "tool_use") then
        let '(id, obj) := take_string "id" obj in
        let '(name, obj) := take_string "name" obj in
        let '(input, obj) := map_remove "input" obj in
        Some (ToolCall id name (default (VObject []) input) None)
      else if decide (block_type = "tool_result") then
        let content := map_get "content" (map_values (read_parts_with read_block) obj) in
        let '(call_id, obj) := take_string "tool_use_id" obj in
        Some (ToolResult call_id
                (default false (map_get "is_error" obj ≫= as_bool))
                (default [] content))
      else if decide (block_type = "thinking") then
        let '(text, obj) := take_string "thinking" obj in
        let '(signature, obj) := take_opt_string "signature" obj in
        Some (Thinking text ((fun value => {| sig_by := Claude; sig_value := value |}) <$> signature))
      else if decide (block_type = "redacted_thinking") then Some (Sealed Claude (VObject obj))
      else None
  | _ => None
  end.

Definition read_parts (content : Value) : list IrPart := read_parts_with read_block content.

(** A role that is neither "user" nor "assistant" is dropped. *)
Definition read_message (msg : ClaudeMessage) : option IrMessage :=
  role ← (if decide (cm_role msg = "user") then Some User
          else if decide (cm_role msg = "assistant") then Some Assistant
          else None);
  Some {| msg_role := role; msg_parts := read_parts (cm_content msg) |}.

Definition read_system (system : option Value) : list IrPart :=
  match system with
  | Some (VString text) => [Text text None]
  | Some (VArray items) =>
      filter_map (fun item =>
        match item with
        | VObject obj =>
            match map_get "text" obj with
            | Some (VString text) => Some (Text text None)
            | _ => None
            end
        | _ => None
        end) items
  | _ => []
  end.

Definition read_tools (tools : option (list ClaudeTool)) : list IrTool :=
  map (fun tool => {| tool_name := ct_name tool;
                      tool_description := default "" (ct_description tool);
                      tool_schema := ct_input_schema tool;
                      tool_strict := None |})
    (default [] tools).

Definition read_tool_choice (value : option Value) : option IrToolChoice :=
  value ← value;
  Some (match value_str "type" value with
        | Some t =>
            if decide (t = "none") then ChoiceNone
            else if decide (t = "any") then ChoiceRequired
            else if decide (t = "tool") then
              match value_str "name" value with
              | Some name => ChoiceNamed name
              | None => ChoiceAuto
              end
            else ChoiceAuto
        | None => ChoiceAuto
        end).

Definition read (req : ClaudeRequest) : IrRequest :=
  {| model := cq_model req;
     system := read_system (cq_system req);
     messages := filter_map read_message (cq_messages req);
     tools := read_tools (cq_tools req);
     tool_choice := read_tool_choice (cq_tool_choice req);
     sampling := {| max_tokens := Some (cq_max_tokens req);
                    temperature := cq_temperature req;
                    top_p := cq_top_p req;
                    top_k := cq_top_k req;
                    stop := default [] (cq_stop_sequences req) |};
     stream := default false (cq_stream req);
     reasoning := match cq_thinking req with
                  | Some cfg => if decide (thinking_type cfg = "enabled")
                                then Budget (budget_tokens cfg) else Off
                  | None => Off
                  end;
     extra := put_opt Claude "metadata" (cq_metadata req) [] |}.

(** The block of a response, as a part. *)
Definition read_content_block (block : ClaudeContentBlock) : IrPart :=
  match block with
  | BText text => Text text None
  | BToolUse id name input => ToolCall id name input None
  | BThinking thinking signature =>
      Thinking thinking ((fun value => {| sig_by := Claude; sig_value := value |}) <$> signature)
  | BRedactedThinking data =>
      Sealed Claude (obj [("type", str "redacted_thinking"); ("data", str data)])
  end.

Definition read_response (resp : ClaudeResponse) : IrResponse :=
  let usage := cr_usage resp in
  {| resp_id := Some (cr_id resp);
     resp_model := cr_model resp;
     resp_parts := map read_content_block (cr_content resp);
     resp_stop_reason := from_claude (default "" (cr_stop_reason resp));
     resp_stop_sequence := cr_stop_sequence resp;
     resp_usage := {| input_tokens := cu_input_tokens usage;
                      output_tokens := cu_output_tokens usage;
                      cache_read_tokens := cu_cache_read_input_tokens usage;
                      cache_write_tokens := cu_cache_creation_input_tokens usage;
                      cache_write_1h := cu_cache_creation usage ≫= ephemeral_1h_input_tokens;
                      reasoning_tokens := None |} |}.

(** ** Unfolding *)

Lemma read_block_tool_result m :
  get_str "type" m = Some "tool_result" ->
  read_block (VObject m) =
    Some (ToolResult (default "" (get_str "tool_use_id" m))
            (default false (map_get "is_error" m ≫= as_bool))
            (default [] (read_parts <$> map_get "content" m))).
Proof.
  intros H. cbn [read_block]. rewrite H. cbn -[take_string].
  pose proof (take_string_fst "tool_use_id" m) as H1.
  pose proof (take_string_snd "tool_use_id" m) as H2.
  destruct (take_string "tool_use_id" m) as [id m']. simpl in H1, H2. subst.
  rewrite map_get_values, map_get_delete. done.
Qed.
