(* ===== verification/ClaudeBuild.v ===== *)
(** * The intermediate representation to Claude Messages

    [formats/claude/build.rs]. *)
From Stdlib Require Import ZArith.
From S2P Require Import Prelude.
From S2P Require Import RustStd.
From S2P Require Import Json.
From S2P Require Import Effects.
From S2P Require Import Format.
From S2P Require Import Ir.
From S2P Require Import ClaudeTypes.
From S2P Require Import Reasoning.
From S2P Require Import Shared.

Local Open Scope Z_scope.

Definition is_thinking (p : IrPart) : bool := match p with Thinking _ _ => true | _ => false end.

Definition build_thinking (reasoning : Reasoning) (max_tokens : Z) (messages : list IrMessage)
  : option ThinkingConfig :=
  let thinking :=
    match reasoning with
    | Off => None
    | Budget budget => Some {| thinking_type := "enabled"; budget_tokens := budget |}
    | Effort effort => reasoning_effort_to_thinking (Some effort) max_tokens
    end in
  let has_thinking := any (fun m => any is_thinking (msg_parts m)) messages in
  opt_or thinking
    (then_some has_thinking
       {| thinking_type := "enabled"; budget_tokens := Z.max max_tokens 1024 |}).

(** One iteration of the loop of [merge_same_role]; [out] holds the messages
    in order. *)
Definition merge_step (out : list IrMessage) (msg : IrMessage) : list IrMessage :=
  match list.last out with
  | Some l =>
      if decide (msg_role l = msg_role msg) then
        removelast out ++ [{| msg_role := msg_role l; msg_parts := msg_parts l ++ msg_parts msg |}]
      else out ++ [msg]
  | None => out ++ [msg]
  end.

Definition merge_same_role (messages : list IrMessage) : list IrMessage :=
  fold_left merge_step messages [].

Definition text_block (text : string) : Value := obj [("type", str "text"); ("text", str text)].

(** The body of [text_or_blocks], over the builder of one block. *)
Definition text_or_blocks_with (build_part : IrPart -> option Value)
  (parts : list IrPart) (empty : Value) : Value :=
  match parts with
  | [Text text _] => VString text
  | [] => empty
  | _ => VArray (filter_map build_part parts)
  end.

Fixpoint build_part (part : IrPart) : option Value :=
  match part with
  | Text text _ => Some (text_block text)
  | Image url media_type data _ =>
      let source :=
        match data with
        | Some data => obj [("type", str "base64"); ("media_type", str media_type);
                            ("data", str data)]
        | None => obj [("type", str "url"); ("url", str url)]
        end in
      Some (obj [("type", str "image"); ("source", source)])
  | ToolCall id name args _ =>
      Some (obj [("type", str "tool_use"); ("id", str id); ("name", str name); ("input", args)])
  | ToolResult call_id is_error content =>
      Some (obj [("type", str "tool_result"); ("tool_use_id", str call_id);
                 ("content", text_or_blocks_with build_part content (str ""));
                 ("is_error", VBool is_error)])
  | Thinking text signature =>
      let block := map_of_list [("type", str "thinking"); ("thinking", str text)] in
      Some (VObject
        match opt_filter (fun s => format_eqb (sig_by s) Claude) signature with
        | Some sig => map_insert "signature" (str (sig_value sig)) block
        | None => block
        end)
  | Sealed Claude raw => Some raw
  | Sealed _ _ => None
  end.

Definition text_or_blocks (parts : list IrPart) (empty : Value) : Value :=
  text_or_blocks_with build_part parts empty.

Definition build_message (msg : IrMessage) : ClaudeMessage :=
  let role := match msg_role msg with User => "user" | Assistant => "assistant" end in
  let empty := match msg_role msg with User => VString "" | Assistant => VArray [] end in
  {| cm_role := role; cm_content := text_or_blocks (msg_parts msg) empty |}.

Definition text_of (p : IrPart) : option string := match p with Text text _ => Some text | _ => None end.

Definition build_system (parts : list IrPart) : option Value :=
  let texts := filter_map text_of parts in
  match texts with
  | [] => None
  | [text] => Some (VString text)
  | _ => Some (VArray (map text_block texts))
  end.

Definition build_tool_choice (choice : option IrToolChoice) : option Value :=
  choice ← choice;
  match choice with
  | ChoiceAuto => Some (obj [("type", str "auto")])
  | ChoiceNone => Some (obj [("type", str "none")])
  | ChoiceRequired => Some (obj [("type", str "any")])
  | ChoiceNamed name => Some (obj [("type", str "tool"); ("name", str name)])
  end.

Definition build (ir : IrRequest) : ClaudeRequest :=
  let s := sampling ir in
  let max_tokens := default DEFAULT_MAX_TOKENS (max_tokens s) in
  let fields := fst (take Claude (extra ir)) in
  {| cq_model := model ir;
     cq_max_tokens := max_tokens;
     cq_messages := map build_message (merge_same_role (messages ir));
     cq_system := build_system (system ir);
     cq_temperature := (fun t => f32_clamp t f32_zero CLAUDE_TEMPERATURE_MAX) <$> temperature s;
     cq_top_p := top_p s;
     cq_top_k := top_k s;
     cq_stop_sequences := nonempty (stop s);
     cq_stream := then_some (stream ir) true;
     cq_tools := nonempty
       (map (fun tool => {| ct_name := tool_name tool;
                            ct_description :=
                              then_some (negb (is_empty (tool_description tool)))
                                (tool_description tool);
                            ct_input_schema := tool_schema tool |}) (tools ir));
     cq_tool_choice := build_tool_choice (tool_choice ir);
     cq_metadata := snd <$> head (filter (fun '(name, _) => name = "metadata") fields);
     cq_thinking := build_thinking (reasoning ir) max_tokens (messages ir) |}.

(** Empty text and thinking are dropped, and so is a text that carries a
    signature: only [Text] with no signature has an arm of its own. *)
Definition build_response_block (part : IrPart) : option ClaudeContentBlock :=
  match part with
  | Text text None => if is_empty text then None else Some (BText text)
  | Thinking text signature =>
      if is_empty text then None
      else Some (BThinking text
                   (sig_value <$> opt_filter (fun s => format_eqb (sig_by s) Claude) signature))
  | ToolCall id name args _ => Some (BToolUse id name args)
  | _ => None
  end.

Definition build_response `{Env} (ir : IrResponse) : Eff ClaudeResponse :=
  id ← normalize_id_to_claude (default "" (resp_id ir));
  let usage := resp_usage ir in
  mret {| cr_id := id;
          cr_type := "message";
          cr_role := "assistant";
          cr_model := resp_model ir;
          cr_content := filter_map build_response_block (resp_parts ir);
          cr_stop_reason := Some (to_claude (resp_stop_reason ir));
          cr_stop_sequence := resp_stop_sequence ir;
          cr_usage := {| cu_input_tokens := input_tokens usage;
                         cu_output_tokens := output_tokens usage;
                         cu_cache_creation_input_tokens := cache_write_tokens usage;
                         cu_cache_creation := None;
                         cu_cache_read_input_tokens := cache_read_tokens usage |} |}.
