(* ===== verification/ClaudeProps.v ===== *)
(** * What the Claude reader and builder promise *)
From Stdlib Require Import ZArith Lia.
From S2P Require Import Prelude.
From S2P Require Import RustStd.
From S2P Require Import Json.
From S2P Require Import Effects.
From S2P Require Import Concrete.
From S2P Require Import Format.
From S2P Require Import Ir.
From S2P Require Import ClaudeTypes.
From S2P Require Import Reasoning.
From S2P Require Import Shared.
From S2P Require Import ClaudeRead.
From S2P Require Import ClaudeBuild.

Local Open Scope Z_scope.

(** ** Folding same-role runs *)

(** Roles alternate. *)
Fixpoint alternating (l : list IrMessage) : bool :=
  match l with
  | [] => true
  | m :: l' =>
      match l' with
      | [] => true
      | m' :: _ => bool_decide (msg_role m <> msg_role m') && alternating l'
      end
  end.

(** Every part with the role that said it, in order. *)
Definition said (l : list IrMessage) : list (Role * IrPart) :=
  flat_map (fun m => map (pair (msg_role m)) (msg_parts m)) l.

Lemma said_app l1 l2 : said (l1 ++ l2) = said l1 ++ said l2.
Proof. apply flat_map_app. Qed.

Lemma merge_step_snoc l m msg :
  merge_step (l ++ [m]) msg =
  if decide (msg_role m = msg_role msg) then
    l ++ [{| msg_role := msg_role m; msg_parts := msg_parts m ++ msg_parts msg |}]
  else (l ++ [m]) ++ [msg].
Proof. unfold merge_step. by rewrite last_snoc, removelast_last. Qed.

Lemma alternating_snoc l m m' :
  alternating ((l ++ [m]) ++ [m']) =
  alternating (l ++ [m]) && bool_decide (msg_role m <> msg_role m').
Proof.
  induction l as [|a l IH]; simpl; [by rewrite andb_true_r|].
  destruct l as [|b l]; simpl in *; rewrite IH; by rewrite ?andb_true_r, ?andb_assoc.
Qed.

Lemma alternating_last l m m' :
  msg_role m = msg_role m' -> alternating (l ++ [m]) = alternating (l ++ [m']).
Proof.
  intros H. induction l as [|a l IH]; simpl; [done|].
  destruct l as [|b l]; simpl in *; [by rewrite H|by rewrite IH].
Qed.

Lemma merge_step_alternating out msg :
  alternating out = true -> alternating (merge_step out msg) = true.
Proof.
  destruct out as [|m l _] using rev_ind; [done|]. rewrite merge_step_snoc. intros H.
  case_decide as Hr.
  - by erewrite alternating_last.
  - rewrite alternating_snoc, H. by rewrite bool_decide_true.
Qed.

Lemma merge_step_said out msg : said (merge_step out msg) = said (out ++ [msg]).
Proof.
  destruct out as [|m l _] using rev_ind; [done|]. rewrite merge_step_snoc.
  case_decide as Hr; [|done]. rewrite !said_app. unfold said. simpl.
  by rewrite !app_nil_r, map_app, Hr, app_assoc.
Qed.

Lemma fold_merge_alternating l out :
  alternating out = true -> alternating (fold_left merge_step l out) = true.
Proof.
  revert out. induction l as [|m l IH]; [done|]. intros out H.
  by apply IH, merge_step_alternating.
Qed.

Lemma fold_merge_said l out : said (fold_left merge_step l out) = said (out ++ l).
Proof.
  revert out. induction l as [|m l IH]; intros out; simpl; [by rewrite app_nil_r|].
  by rewrite IH, said_app, merge_step_said, <-said_app, <-app_assoc.
Qed.

Lemma fold_merge_id l out :
  alternating (out ++ l) = true -> fold_left merge_step l out = out ++ l.
Proof.
  revert out. induction l as [|msg l IH]; intros out H; [by rewrite app_nil_r|].
  assert (merge_step out msg = out ++ [msg]) as E.
  { destruct out as [|m o _] using rev_ind; [done|]. rewrite merge_step_snoc.
    case_decide as Hr; [exfalso|done].
    revert H. clear -Hr. induction o as [|a o IHo]; simpl.
    - by rewrite bool_decide_false by naive_solver.
    - destruct o; simpl in *; intros [_ H]%andb_prop; auto. }
  simpl. rewrite E, IH; by rewrite <-app_assoc.
Qed.

Lemma merge_same_role_id l : alternating l = true -> merge_same_role l = l.
Proof. intros H. by apply (fold_merge_id l []). Qed.

(** The turns Claude receives. Whatever the messages, after the fold the
    roles alternate, as Anthropic requires; no part is lost, invented,
    reordered or given to the other role; and messages that already alternate
    are left as they are, so folding twice is folding once. *)
Theorem merge_same_role_turns (l : list IrMessage) :
  alternating (merge_same_role l) = true /\
  said (merge_same_role l) = said l /\
  merge_same_role (merge_same_role l) = merge_same_role l /\
  (alternating l = true <-> merge_same_role l = l).
Proof.
  assert (alternating (merge_same_role l) = true) as H by by apply fold_merge_alternating.
  split_and!.
  - done.
  - apply fold_merge_said.
  - by apply merge_same_role_id.
  - split; [apply merge_same_role_id|]. by intros <-.
Qed.

(** ** Requests: what Claude can say *)

(** The parts Claude's wire can carry: no signature or payload of another
    vendor, an image whose [url] agrees with its inline data, a tool result
    that says something. *)
Fixpoint claude_part (p : IrPart) : bool :=
  match p with
  | Text _ None => true
  | Image url media_type (Some data) None =>
      bool_decide (url = "data:" +:+ media_type +:+ ";base64," +:+ data)
  | Image _ media_type None None => is_empty media_type
  | ToolCall _ _ _ None => true
  | ToolResult _ _ content => negb (bool_decide (content = [])) && forallb claude_part content
  | Thinking _ None => true
  | Thinking _ (Some s) => format_eqb (sig_by s) Claude
  | Sealed Claude (VObject m) => bool_decide (get_str "type" m = Some "redacted_thinking")
  | _ => false
  end.

Definition claude_message (m : IrMessage) : bool :=
  forallb claude_part (msg_parts m) &&
  (bool_decide (msg_role m = Assistant) || negb (bool_decide (msg_parts m = []))).

Definition plain_text (p : IrPart) : bool := match p with Text _ None => true | _ => false end.

(** The requests Claude's wire can carry. *)
Definition claude_request (ir : IrRequest) : bool :=
  forallb plain_text (system ir) &&
  forallb claude_message (messages ir) &&
  alternating (messages ir) &&
  forallb (fun t => bool_decide (tool_strict t = None)) (tools ir) &&
  is_some (max_tokens (sampling ir)) &&
  match temperature (sampling ir) with
  | Some t => bool_decide (f32_clamp t f32_zero CLAUDE_TEMPERATURE_MAX = t)
  | None => true
  end &&
  match reasoning ir with
  | Off => negb (any (fun m => any is_thinking (msg_parts m)) (messages ir))
  | Budget _ => true
  | Effort _ => false
  end &&
  match extra ir with
  | [] => true
  | [(Claude, name, _)] => bool_decide (name = "metadata")
  | _ => false
  end.

(** A block written is the block read. *)
Definition block_ok (p : IrPart) : Prop :=
  exists v, build_part p = Some v /\ read_block v = Some p.

Lemma filter_map_blocks l :
  Forall block_ok l -> filter_map read_block (filter_map build_part l) = l.
Proof. apply filter_map_inverse. Qed.

Lemma forallb_Forall {A} (p : A -> bool) l :
  forallb p l = true <-> Forall (fun a => p a = true) l.
Proof.
  induction l as [|a l IH]; simpl; [by split|].
  rewrite andb_true_iff, IH, list.Forall_cons. done.
Qed.

Lemma Forall_mp {A} (P Q : A -> Prop) l :
  Forall (fun a => P a -> Q a) l -> Forall P l -> Forall Q l.
Proof. induction 1; intros H'; inversion H'; constructor; auto. Qed.

(** Content written by [text_or_blocks] is read back. *)
Lemma read_text_or_blocks l empty :
  Forall (fun p => claude_part p = true) l -> Forall block_ok l ->
  (l = [] -> read_parts empty = []) ->
  read_parts (text_or_blocks l empty) = l.
Proof.
  intros Hc Hb He. destruct l as [|p [|q l]].
  - by apply He.
  - pose proof (filter_map_blocks _ Hb) as E. apply list.Forall_cons in Hc as [Hp _].
    destruct p as [t [s|]|? ? [] []|? ? ? []|? ? ?|? []|[] []]; exact E || done.
  - pose proof (filter_map_blocks _ Hb) as E. by destruct p.
Qed.

Lemma read_build_part p : claude_part p = true -> block_ok p.
Proof.
  unfold block_ok. induction p as [t s|u m d e|i n a s|c e l IH|t s|b r] using IrPart_nested_ind;
    intros H; cbn [claude_part] in H.
  - destruct s; [done|]. by eexists.
  - destruct d as [d|], e; try done; eexists; (split; [done|]).
    + apply bool_decide_eq_true in H as ->. done.
    + destruct m; done.
  - destruct s; [done|]. by eexists.
  - apply andb_prop in H as [Hne Hl]. apply forallb_Forall in Hl.
    pose proof (Forall_mp _ _ _ IH Hl) as Hb.
    eexists; split; [done|]. unfold obj. rewrite read_block_tool_result by done.
    change (Some (ToolResult c e (read_parts (text_or_blocks l (str "")))) =
            Some (ToolResult c e l)).
    rewrite read_text_or_blocks; try done. intros ->. done.
  - destruct s as [[by_ v]|]; [|by eexists]. destruct by_; try done. by eexists.
  - destruct b, r as [| | | | |m]; try done. exists (VObject m). split; [done|].
    apply bool_decide_eq_true in H. cbn [read_block]. by rewrite H.
Qed.

Lemma read_build_parts l : forallb claude_part l = true -> Forall block_ok l.
Proof.
  intros H%forallb_Forall. induction H; constructor; auto using read_build_part.
Qed.

Lemma read_build_message m :
  claude_message m = true -> read_message (build_message m) = Some m.
Proof.
  destruct m as [role parts]. unfold claude_message. cbn [msg_parts msg_role].
  intros [Hp Hr]%andb_prop. unfold read_message, build_message. cbn [msg_parts msg_role cm_role cm_content].
  rewrite read_text_or_blocks; [by destruct role| | |].
  - by apply forallb_Forall.
  - by apply read_build_parts.
  - intros ->. by destruct role.
Qed.

Lemma claude_read_build_messages l :
  forallb claude_message l = true -> filter_map read_message (map build_message l) = l.
Proof.
  intros H%forallb_Forall. rewrite filter_map_map.
  rewrite (filter_map_all _ (fun m => m)); [apply map_id|].
  refine (list.Forall_impl _ _ _ H _). intros m. apply read_build_message.
Qed.

Lemma plain_texts l :
  forallb plain_text l = true -> l = map (fun t => Text t None) (filter_map text_of l).
Proof.
  induction l as [|p l IH]; [done|]. cbn [forallb]. intros [Hp Hl]%andb_prop.
  destruct p as [t [s|]| | | | |]; try done. rewrite filter_map_cons. simpl. by rewrite <-IH.
Qed.

Lemma claude_read_build_system l :
  forallb plain_text l = true -> read_system (build_system l) = l.
Proof.
  intros H. apply plain_texts in H. rewrite H at 2. unfold build_system.
  destruct (filter_map text_of l) as [|t [|t' ts]]; try done.
  cbn [read_system]. rewrite filter_map_map. by apply filter_map_all, list.Forall_true.
Qed.

Lemma claude_read_build_tools l :
  forallb (fun t => bool_decide (tool_strict t = None)) l = true ->
  read_tools (nonempty (map (fun tool =>
    {| ct_name := tool_name tool;
       ct_description := then_some (negb (is_empty (tool_description tool))) (tool_description tool);
       ct_input_schema := tool_schema tool |}) l)) = l.
Proof.
  intros H%forallb_Forall.
  assert (forall A (x : list A), default [] (nonempty x) = x) as E by by intros A [].
  unfold read_tools. rewrite E. apply map_inverse.
  refine (list.Forall_impl _ _ _ H _). intros [n d s st] Hs%bool_decide_eq_true.
  simpl in *. subst. by destruct d.
Qed.

Lemma claude_read_build_tool_choice c : read_tool_choice (build_tool_choice c) = c.
Proof. by destruct c as [[]|]. Qed.

Lemma claude_read_build (ir : IrRequest) :
  claude_request ir = true ->
  read (build ir) = ir /\ build (read (build ir)) = build ir.
Proof.
  intros H. assert (read (build ir) = ir) as E; [|by rewrite E].
  destruct ir as [model sys msgs tls choice [mt temp tp tk stops] strm reas ext].
  unfold claude_request in H. simpl in H.
  repeat (apply andb_prop in H as [H ?]).
  destruct mt as [mt|]; [|done].
  unfold read, build. simpl. f_equal.
  - by apply claude_read_build_system.
  - rewrite merge_same_role_id by done. by apply claude_read_build_messages.
  - by apply claude_read_build_tools.
  - apply claude_read_build_tool_choice.
  - f_equal; [|by destruct stops].
    destruct temp as [t|]; [|done]. simpl. f_equal.
    match goal with H : bool_decide (f32_clamp _ _ _ = _) = true |- _ =>
      by apply bool_decide_eq_true in H end.
  - by destruct strm.
  - unfold build_thinking. destruct reas; try done. simpl.
    match goal with H : negb _ = true |- _ => apply negb_true_iff in H; by rewrite H end.
  - destruct ext as [|[[[] n] v] [|]]; try done.
    match goal with H : bool_decide (n = _) = true |- _ => apply bool_decide_eq_true in H as -> end.
    done.
Qed.

(** C4: a request survives Claude's wire. Every request of the intermediate
    representation that Claude can express (turns alternate, signatures and
    sealed thinking are Claude's own, tool results are not empty, a
    temperature in Claude's range) is written by the builder and read back
    unchanged: messages with their images, tool calls and nested tool results,
    the system prompt, tools, tool choice, sampling, reasoning budget and
    metadata. Hence what the builder writes is a fixed point of reading and
    writing. *)
Theorem claude_request_roundtrip (ir : IrRequest) :
  claude_request ir = true ->
  read (build ir) = ir /\ build (read (build ir)) = build ir.
Proof. apply claude_read_build. Qed.

Definition sample_request : IrRequest :=
  {| model := "claude-x";
     system := [Text "be brief" None];
     messages :=
       [{| msg_role := User;
           msg_parts := [Text "look" None;
                         Image "data:image/png;base64,AA==" "image/png" (Some "AA==") None] |};
        {| msg_role := Assistant;
           msg_parts := [Thinking "hm" (Some {| sig_by := Claude; sig_value := "s" |});
                         ToolCall "t1" "f" (obj [("x", num 1)]) None] |};
        {| msg_role := User;
           msg_parts := [ToolResult "t1" false [Text "ok" None]] |}];
     tools := [{| tool_name := "f"; tool_description := "d"; tool_schema := obj []; tool_strict := None |}];
     tool_choice := Some (ChoiceNamed "f");
     sampling := {| max_tokens := Some 2048; temperature := Some f32_one; top_p := None;
                    top_k := Some 5; stop := ["END"] |};
     stream := true;
     reasoning := Budget 1024;
     extra := [(Claude, "metadata", VNull)] |}.

Lemma claude_request_roundtrip_witness : read (build sample_request) = sample_request.
Proof. apply (claude_request_roundtrip sample_request). vm_compute. reflexivity. Defined.

(** ** Responses *)

Definition claude_response_part (p : IrPart) : bool :=
  match p with
  | Text text None => negb (is_empty text)
  | Thinking text None => negb (is_empty text)
  | Thinking text (Some s) => negb (is_empty text) && format_eqb (sig_by s) Claude
  | ToolCall _ _ _ None => true
  | _ => false
  end.

Definition claude_response (ir : IrResponse) : bool :=
  match resp_id ir with Some id => starts_with "msg_" id | None => false end &&
  forallb claude_response_part (resp_parts ir) &&
  negb (bool_decide (resp_stop_reason ir = ContentFilter)) &&
  bool_decide (cache_write_1h (resp_usage ir) = None) &&
  bool_decide (reasoning_tokens (resp_usage ir) = None).

Lemma from_to_claude r : from_claude (to_claude r) = if decide (r = ContentFilter) then EndTurn else r.
Proof. by destruct r. Qed.

(** A response survives Claude's wire: identifier, every text, thinking
    (with Claude's signature) and tool call in order, stop reason, stop
    sequence and token counts, cache included, are read back as they were, and
    no fresh identifier is drawn. *)
Theorem claude_response_roundtrip `{Env} (ir : IrResponse) (w : World) :
  claude_response ir = true ->
  exists wire, build_response ir w = (wire, w) /\ read_response wire = ir.
Proof.
  intros Hc. destruct ir as [id m parts sr ss [ti to_ cr cw c1 rt]].
  unfold claude_response in Hc. simpl in Hc. repeat (apply andb_prop in Hc as [Hc ?]).
  destruct id as [id|]; [|done]. eexists. split.
  - unfold build_response, normalize_id_to_claude. simpl. rewrite Hc.
    replace (is_empty id) with false by by destruct id. eff_unfold. reflexivity.
  - unfold read_response. simpl. f_equal.
    + pose proof (filter_map_inverse build_response_block (fun b => Some (read_content_block b))
                    parts) as E.
      rewrite (filter_map_all _ read_content_block) in E by by apply list.Forall_true.
      apply E. match goal with H : forallb _ _ = true |- _ => apply forallb_Forall in H;
        refine (list.Forall_impl _ _ _ H _) end.
      intros [t [s|]| |? ? ? []| |t [[by_ v]|]|]; simpl; try done.
      * destruct (is_empty t) eqn:Et; [done|]. intros _. by eexists.
      * intros _. by eexists.
      * intros [Ht Hs]%andb_prop. destruct (is_empty t) eqn:Et; [done|].
        destruct by_; try done. by eexists.
      * destruct (is_empty t) eqn:Et; [done|]. intros _. by eexists.
    + rewrite from_to_claude. by destruct (decide (sr = ContentFilter)) as [->|].
    + repeat match goal with H : bool_decide (_ = None) = true |- _ =>
        apply bool_decide_eq_true in H as -> end. done.
Qed.

Definition sample_response : IrResponse :=
  {| resp_id := Some "msg_1"; resp_model := "m";
     resp_parts := [Thinking "hm" (Some {| sig_by := Claude; sig_value := "s" |});
                    Text "hello" None; ToolCall "t" "f" (obj [("a", VNull)]) None];
     resp_stop_reason := ToolUse; resp_stop_sequence := None;
     resp_usage := {| input_tokens := 3; output_tokens := 4; cache_read_tokens := Some 1;
                      cache_write_tokens := Some 2; cache_write_1h := None;
                      reasoning_tokens := None |} |}.

Lemma claude_response_roundtrip_witness :
  exists wire, @build_response sample_env sample_response world0 = (wire, world0) /\
               read_response wire = sample_response.
Proof.
  apply (@claude_response_roundtrip sample_env sample_response world0).
  vm_compute. reflexivity.
Defined.

(** ** Opaque material of other vendors *)

Lemma build_part_redact p : build_part (redact Claude p) = build_part p.
Proof.
  induction p as [t s|u m d e|i n a s|c e l IH|t s|b r] using IrPart_nested_ind; try done.
  - cbn [build_part redact]. do 2 f_equal.
    assert (text_or_blocks_with build_part (map (redact Claude) l) (str "") =
            text_or_blocks_with build_part l (str "")) as ->; [|done].
    pose proof (filter_map_redact _ _ _ IH) as E.
    destruct l as [|p [|q l]]; [done| |]; destruct p; done || exact (f_equal VArray E).
  - cbn [build_part redact]. do 2 f_equal.
    change (opt_filter (fun s => format_eqb (sig_by s) Claude) s) with (own_sig Claude s).
    change (opt_filter (fun s => format_eqb (sig_by s) Claude) (own_sig Claude s))
      with (own_sig Claude (own_sig Claude s)).
    by rewrite own_sig_idemp.
  - by destruct b.
Qed.

Lemma build_message_redact m : build_message (redact_message Claude m) = build_message m.
Proof.
  unfold build_message, redact_message. cbn [msg_role msg_parts]. f_equal.
  generalize (match msg_role m with User => VString "" | Assistant => VArray [] end). intros empty.
  assert (Forall (fun p => build_part (redact Claude p) = build_part p) (msg_parts m)) as Hf.
  { apply list.Forall_true. apply build_part_redact. }
  pose proof (filter_map_redact _ _ _ Hf) as E. unfold text_or_blocks.
  destruct (msg_parts m) as [|p [|q l]]; [done| |]; destruct p; done || exact (f_equal VArray E).
Qed.

Lemma merge_map (f : IrMessage -> IrMessage) (g : IrPart -> IrPart) l :
  (forall m, f m = {| msg_role := msg_role m; msg_parts := map g (msg_parts m) |}) ->
  merge_same_role (map f l) = map f (merge_same_role l).
Proof.
  intros Hf. unfold merge_same_role.
  assert (forall out, fold_left merge_step (map f l) (map f out) =
                      map f (fold_left merge_step l out)) as E; [|exact (E [])].
  induction l as [|m l IH]; intros out; [done|]. simpl. rewrite <-IH. f_equal.
  destruct out as [|x o _] using rev_ind; [done|].
  rewrite map_app. cbn [map]. rewrite !merge_step_snoc, !(Hf x), (Hf m). cbn [msg_role msg_parts].
  case_decide as Hr; rewrite !map_app; cbn [map].
  - rewrite Hf. cbn [msg_role msg_parts]. by rewrite map_app.
  - by rewrite (Hf x), (Hf m).
Qed.

Lemma has_thinking_redact t l :
  any (fun m => any is_thinking (msg_parts m)) (map (redact_message t) l) =
  any (fun m => any is_thinking (msg_parts m)) l.
Proof.
  induction l as [|m l IH]; simpl; [done|]. rewrite IH. f_equal.
  induction (msg_parts m) as [|p ps IHp]; simpl; [done|]. rewrite IHp. by destruct p.
Qed.

(** Anthropic never sees another vendor's opaque material. What the Claude
    builder writes does not depend on the signatures and sealed payloads other
    vendors produced: blanking them all, at any depth of the request, gives
    the same Claude request. *)
Theorem claude_build_redacts (ir : IrRequest) :
  build (redact_request Claude ir) = build ir.
Proof.
  unfold build, redact_request. simpl. f_equal.
  - rewrite (merge_map _ (redact Claude)) by done. rewrite map_map.
    apply map_ext. apply build_message_redact.
  - unfold build_system. rewrite filter_map_redact; [done|].
    apply list.Forall_true. by intros [].
  - unfold build_thinking. by rewrite has_thinking_redact.
Qed.

(** A finding. The response builder has an arm for a text without a
    signature only, so a text that carries one is dropped from the Claude
    response, whoever signed it, and its words are lost; the same text
    without the signature is kept. *)
Theorem claude_drops_signed_text `{Env} (ir : IrResponse) (t : string) (s : Signature)
  (l1 l2 : list IrPart) (w : World) :
  resp_parts ir = l1 ++ [Text t (Some s)] ++ l2 ->
  cr_content (fst (build_response ir w)) =
    filter_map build_response_block l1 ++ filter_map build_response_block l2 /\
  (t <> "" -> build_response_block (Text t None) = Some (BText t)).
Proof.
  intros Hp. split.
  - unfold build_response. eff_unfold. destruct (normalize_id_to_claude _ _). simpl.
    by rewrite Hp, !filter_map_app.
  - by destruct t.
Qed.

Lemma claude_drops_signed_text_witness :
  cr_content (fst (@build_response sample_env
    {| resp_id := Some "msg_1"; resp_model := "gemini";
       resp_parts := [Text "answer" (Some {| sig_by := Gemini; sig_value := "sig" |})];
       resp_stop_reason := EndTurn; resp_stop_sequence := None;
       resp_usage := Usage_default |} world0)) = [].
Proof.
  match goal with |- cr_content (fst (@build_response _ ?ir _)) = _ =>
    destruct (@claude_drops_signed_text sample_env ir "answer"
                {| sig_by := Gemini; sig_value := "sig" |} [] [] world0) as [E _];
      [reflexivity|exact E] end.
Defined.
