(* ===== verification/Adapter.v ===== *)
(** * The interface of a stream adapter

    [formats/mod.rs]'s trait [StreamAdapter], which each format implements, and
    what a client of the emitted frames reads.

    An adapter works on a [&mut StreamState] and may draw fresh identifiers and
    read the clock; it can fail with its writes to the state kept. *)
From Stdlib Require Import ZArith Lia.
From S2P Require Import Prelude.
From S2P Require Import RustStd.
From S2P Require Import Json.
From S2P Require Import Effects.
From S2P Require Import Format.
From S2P Require Import Ir.
From S2P Require Import Sse.

Local Open Scope Z_scope.

Definition Stream : Type -> Type := StM (StreamState * World) ConvertError.

(** Reading and assigning fields of the state. *)
Definition st_gets {A} (f : StreamState -> A) : Stream A := fun '(st, w) => (Ok (f st), (st, w)).
Definition st_modify (f : StreamState -> StreamState) : Stream unit :=
  fun '(st, w) => (Ok tt, (f st, w)).
(** A method that returns a value and updates the state. *)
Definition st_run {A} (f : StreamState -> A * StreamState) : Stream A :=
  fun '(st, w) => let '(a, st) := f st in (Ok a, (st, w)).

Class StreamAdapter := {
  parse_sse_event : SseEvent -> Stream (list CanonicalStreamEvent);
  emit_sse_event : CanonicalStreamEvent -> Stream (list string)
}.

(** The loop over canonical events of [HubConverter::convert_stream_event]. *)
Fixpoint run_all {A B} (f : A -> Stream (list B)) (l : list A) : Stream (list B) :=
  match l with
  | [] => mret []
  | a :: l => bs ← f a; cs ← run_all f l; mret (bs ++ cs)
  end.

Lemma run_all_cons {A B} (f : A -> Stream (list B)) a l s :
  run_all f (a :: l) s =
  match f a s with
  | (Ok bs, s) =>
      match run_all f l s with
      | (Ok cs, s) => (Ok (bs ++ cs), s)
      | (Err e, s) => (Err e, s)
      end
  | (Err e, s) => (Err e, s)
  end.
Proof. done. Qed.

Lemma run_all_app {A B} (f : A -> Stream (list B)) l1 l2 s :
  run_all f (l1 ++ l2) s =
  match run_all f l1 s with
  | (Ok bs, s) =>
      match run_all f l2 s with
      | (Ok cs, s) => (Ok (bs ++ cs), s)
      | (Err e, s) => (Err e, s)
      end
  | (Err e, s) => (Err e, s)
  end.
Proof.
  revert s. induction l1 as [|a l1 IH]; intros s.
  - change (run_all f [] s) with (@Ok ConvertError (list B) [], s). cbn [app].
    by destruct (run_all f l2 s) as [[cs|e] s'].
  - cbn [app]. rewrite !run_all_cons. destruct (f a s) as [[bs|e] s']; [|done]. rewrite IH.
    destruct (run_all f l1 s') as [[cs|e] s'']; [|done].
    destruct (run_all f l2 s'') as [[ds|e] s3]; [|done]. by rewrite app_assoc.
Qed.

(** A run whose steps each return [g a] and keep an invariant. *)
Lemma run_all_inv {A B C} (f : A -> Stream (list B)) (I : StreamState -> Prop)
  (P : A -> Prop) (view : B -> option C) (g : A -> list C) l :
  (forall a st w, I st -> P a ->
     exists bs st' w', f a (st, w) = (Ok bs, (st', w')) /\ I st' /\ filter_map view bs = g a) ->
  Forall P l -> forall st w, I st ->
  exists bs st' w', run_all f l (st, w) = (Ok bs, (st', w')) /\ I st' /\
    filter_map view bs = flat_map g l.
Proof.
  intros Hf. induction 1 as [|a l Ha _ IH]; intros st w HI.
  - exists [], st, w. done.
  - destruct (Hf a st w HI Ha) as (bs & st1 & w1 & E1 & HI1 & Hv).
    destruct (IH st1 w1 HI1) as (cs & st2 & w2 & E2 & HI2 & Hv2).
    exists (bs ++ cs), st2, w2. rewrite run_all_cons, E1, E2.
    split_and!; [done|done|]. by rewrite filter_map_app, Hv, Hv2.
Qed.

(** *** Computations that cannot fail *)

Definition succeeds {A} (m : Stream A) : Prop := forall s, exists a s', m s = (Ok a, s').

Lemma succeeds_bind {A B} (m : Stream A) (f : A -> Stream B) :
  succeeds m -> (forall a, succeeds (f a)) -> succeeds (m ≫= f).
Proof.
  intros Hm Hf s. destruct (Hm s) as (a & s' & E). destruct (Hf a s') as (b & s2 & E2).
  exists b, s2. unfold mbind, stm_bind. by rewrite E.
Qed.
Lemma succeeds_ret {A} (a : A) : succeeds (mret a).
Proof. intros s. by eexists _, _. Qed.
Lemma succeeds_gets {A} (f : StreamState -> A) : succeeds (st_gets f).
Proof. intros [st w]. by eexists _, _. Qed.
Lemma succeeds_modify f : succeeds (st_modify f).
Proof. intros [st w]. by eexists _, _. Qed.
Lemma succeeds_run {A} (f : StreamState -> A * StreamState) : succeeds (st_run f).
Proof. intros [st w]. unfold st_run. destruct (f st). by eexists _, _. Qed.
Lemma succeeds_lift_eff {A} (m : Eff A) : succeeds (lift_eff m).
Proof. intros [st w]. unfold lift_eff. destruct (m w). by eexists _, _. Qed.
Lemma succeeds_if {A} (b : bool) (m n : Stream A) : succeeds m -> succeeds n -> succeeds (if b then m else n).
Proof. by destruct b. Qed.

Create HintDb stream.
#[export] Hint Resolve succeeds_bind succeeds_ret succeeds_gets succeeds_modify succeeds_run
succeeds_lift_eff succeeds_if : stream.

(** Go through a chain of steps none of which fails. *)
Ltac succeed :=
  repeat first [solve [auto with stream] | apply succeeds_bind; [solve [auto with stream]|intros ?]].

(** ** What a client reads

    The client parses the frame and the JSON in it. *)
Section client.
Context `{SerdeJson}.

Definition client_read (frame : string) : option (option string * Value) :=
  e ← parse_sse_block frame;
  v ← ok (value_from_str (data e));
  Some (event e, v).

(** The frame [format_sse_event(name, &data.to_string())]. *)
Definition json_frame (name : string) (data : Value) : string :=
  format_sse_event name (value_to_string data).

Lemma client_read_json_frame `{!SerdeJsonLaws} name v :
  wire_field name = true -> wf_value v = true ->
  client_read (json_frame name v) = Some (Some name, v).
Proof.
  intros Hn Hv. unfold client_read, json_frame.
  change (format_sse_event name (value_to_string v))
    with (render {| event := Some name; data := value_to_string v |}).
  rewrite (parse_block_of_lines {| event := Some name; data := value_to_string v |} _ [""]).
  - cbn. by rewrite value_from_to_string.
  - unfold wire_event. cbn. by rewrite Hn, value_to_string_wire.
  - by repeat constructor.
  - apply lines_render. unfold wire_event. cbn. by rewrite Hn, value_to_string_wire.
Qed.

(** The text of an unnamed frame that holds one serialized struct. *)
Definition client_data (frame : string) : option string := data <$> parse_sse_block frame.

Lemma client_data_frame d : wire_field d = true -> client_data (format_sse_data d) = Some d.
Proof.
  intros Hd. unfold client_data.
  change (format_sse_data d) with (render {| event := None; data := d |}).
  rewrite (parse_block_of_lines {| event := None; data := d |} _ [""]); try done.
  - by repeat constructor.
  - by apply lines_render.
Qed.
End client.

(** ** The contract on tool-call indices

    Canonical tool calls are numbered 0, 1, 2, ... in the order they start, and
    a delta names a call that has started. Emitters find the call of a delta by
    its index. [n] calls have started before. *)
Fixpoint well_indexed (n : Z) (es : list CanonicalStreamEvent) : bool :=
  match es with
  | [] => true
  | ToolCallStart i _ _ _ :: es => (i =? n) && well_indexed (n + 1) es
  | ToolCallDelta i _ :: es => (0 <=? i) && (i <? n) && well_indexed n es
  | _ :: es => well_indexed n es
  end.

(** How many tool calls a list of events starts. *)
Fixpoint starts (es : list CanonicalStreamEvent) : Z :=
  match es with
  | [] => 0
  | ToolCallStart _ _ _ _ :: es => 1 + starts es
  | _ :: es => starts es
  end.

Lemma starts_nonneg es : 0 <= starts es.
Proof. induction es as [|[] es IH]; simpl; lia. Qed.

Lemma starts_app es1 es2 : starts (es1 ++ es2) = starts es1 + starts es2.
Proof. induction es1 as [|[] es1 IH]; simpl; lia. Qed.

Lemma well_indexed_app n es1 es2 :
  well_indexed n (es1 ++ es2) = well_indexed n es1 && well_indexed (n + starts es1) es2.
Proof.
  revert n. induction es1 as [|e es1 IH]; intros n; simpl; [by rewrite Z.add_0_r|].
  destruct e; try apply IH; simpl; rewrite IH, ?andb_assoc; do 2 f_equal; lia.
Qed.

Definition is_done_event (e : CanonicalStreamEvent) : bool :=
  match e with Done _ _ => true | _ => false end.
Definition is_tool_start (e : CanonicalStreamEvent) : bool :=
  match e with ToolCallStart _ _ _ _ => true | _ => false end.
Definition is_tool_event (e : CanonicalStreamEvent) : bool :=
  match e with ToolCallStart _ _ _ _ | ToolCallDelta _ _ => true | _ => false end.

(** Counts that a [u64] holds. *)
Definition wf_usage (u : Usage) : Prop :=
  is_u64 (input_tokens u) /\ is_u64 (output_tokens u) /\
  match cache_read_tokens u with Some c => is_u64 c | None => True end /\
  match cache_write_tokens u with Some c => is_u64 c | None => True end.
Definition wf_event (e : CanonicalStreamEvent) : Prop :=
  match e with
  | Done _ (Some u) => wf_usage u
  | ToolCallStart i _ _ _ | ToolCallDelta i _ => is_u32 i
  | _ => True
  end.

Lemma u64_add_range a b : is_u64 (u64_add a b).
Proof.
  unfold u64_add, RustStd.as_u64, is_u64, u64_max.
  pose proof (Z.mod_pos_bound (a + b) (2 ^ 64) ltac:(done)). lia.
Qed.
Lemma wf_num_u64 n : is_u64 n -> wf_value (num n) = true.
Proof. intros [H1 H2]. cbn. by rewrite (proj2 (Z.leb_le _ _) H1), (proj2 (Z.leb_le _ _) H2). Qed.
Lemma u32_u64 n : is_u32 n -> is_u64 n.
Proof. unfold is_u32, is_u64, u32_max, u64_max. lia. Qed.
Lemma wf_num_u32 n : is_u32 n -> wf_value (num n) = true.
Proof. intros H. by apply wf_num_u64, u32_u64. Qed.
Lemma saturating_sub_u32 n k : is_u32 n -> 0 <= k -> is_u32 (saturating_sub n k).
Proof. unfold is_u32, saturating_sub. lia. Qed.
Lemma saturating_sub_u64 n k : is_u64 n -> 0 <= k -> is_u64 (saturating_sub n k).
Proof. unfold is_u64, saturating_sub. lia. Qed.

(** ** The wire structs of the other adapters

    serde's derived serializer and deserializer of a struct, as far as the
    theorems rely on them: the text is compact JSON of the values the struct's
    fields can hold, it is one frame's data and not the [[DONE]] mark, and it
    deserializes to the struct. *)
Class StructJson (T : Type) `{Serialize T} `{Deserialize T} (wf : T -> Prop) : Prop :=
  struct_roundtrip t : wf t ->
    exists s, to_json t = Ok s /\ from_json s = Ok t /\ wire_field s = true /\
      is_openai_done s = false.

(** The events a client parses out of emitted frames. *)
Definition events_of (frames : list string) : list SseEvent := filter_map parse_sse_block frames.

Lemma events_of_app l1 l2 : events_of (l1 ++ l2) = events_of l1 ++ events_of l2.
Proof. apply filter_map_app. Qed.

Lemma events_of_data s l :
  wire_field s = true ->
  events_of (format_sse_data s :: l) = {| event := None; data := s |} :: events_of l.
Proof.
  intros Hs. unfold events_of. apply filter_map_cons_Some.
  change (format_sse_data s) with (render {| event := None; data := s |}).
  apply (parse_block_of_lines _ _ [""]); [done|by repeat constructor|by apply lines_render].
Qed.
