(* ===== verification/ClaudeStream.v ===== *)
(** * Claude's stream adapter

    [formats/claude/stream.rs]. *)
From Stdlib Require Import ZArith.
From S2P Require Import Prelude.
From S2P Require Import RustStd.
From S2P Require Import Json.
From S2P Require Import Effects.
From S2P Require Import Format.
From S2P Require Import Ir.
From S2P Require Import Sse.
From S2P Require Import Shared.
From S2P Require Import ClaudeTypes.
From S2P Require Import Adapter.

Local Open Scope Z_scope.

Section claude_stream.
Context `{SerdeJson} `{Env}.
Context `{Deserialize ClaudeMessageStartEvent} `{FromValue ClaudeContentBlockStartEvent}
  `{Deserialize ClaudeContentBlockDeltaEvent} `{Deserialize ClaudeMessageDeltaEvent}.

Definition parse_message_start (data : string) : Stream (list CanonicalStreamEvent) :=
  parsed ← lift (map_err (fun e => SseParse ("message_start parse error: " +:+ e))
                   (from_json (T := ClaudeMessageStartEvent) data));
  let message := mse_message parsed in
  _ ← st_modify (fun st =>
        set_done_ false
          (set_tool_call_index 0
             (set_block_index 0
                (set_phase PhaseInit
                   (set_st_model (Some (sm_model message))
                      (set_response_id (Some (sm_id message)) st))))));
  _ ← match sm_usage message with
      | Some usage =>
          st_modify (set_accumulated_usage (Some
            {| input_tokens := su_input_tokens usage;
               output_tokens := su_output_tokens usage;
               cache_read_tokens := su_cache_read_input_tokens usage;
               cache_write_tokens := su_cache_creation_input_tokens usage;
               cache_write_1h := None;
               reasoning_tokens := None |}))
      | None => mret tt
      end;
  mret [Start (sm_id message) (sm_model message)].

Definition parse_content_block_start (data : string) : Stream (list CanonicalStreamEvent) :=
  value ← lift (map_err (fun e => SseParse ("content_block_start parse error: " +:+ e))
                  (value_from_str data));
  let sealed :=
    opt_filter (fun block => bool_decide (value_str "type" block = Some "redacted_thinking"))
      (get_key "content_block" value) in
  match sealed with
  | Some raw =>
      _ ← st_modify (fun st =>
            set_phase PhaseContent
              (set_block_index (as_u32 (default 0 (get_key "index" value ≫= Json.as_u64))) st));
      mret [SealedThinking Claude raw]
  | None =>
      parsed ← lift (map_err (fun e => SseParse ("content_block_start parse error: " +:+ e))
                       (from_value (T := ClaudeContentBlockStartEvent) value));
      _ ← st_modify (fun st => set_phase PhaseContent (set_block_index (cbs_index parsed) st));
      match cbs_content_block parsed with
      | SToolUse id name _ =>
          index ← st_run next_tool_call_index;
          _ ← st_modify (set_phase PhaseToolCalls);
          mret [ToolCallStart index id name None]
      | SThinking _ _ => mret []
      | SText _ => mret []
      end
  end.

Definition parse_content_block_delta (data : string) : Stream (list CanonicalStreamEvent) :=
  parsed ← lift (map_err (fun e => SseParse ("content_block_delta parse error: " +:+ e))
                   (from_json (T := ClaudeContentBlockDeltaEvent) data));
  _ ← st_modify (set_block_index (cbd_index parsed));
  match cbd_delta parsed with
  | DText text =>
      _ ← st_modify (set_phase PhaseContent);
      mret [TextDelta text]
  | DInputJson partial_json =>
      _ ← st_modify (set_phase PhaseToolCalls);
      tool_call_index ← st_gets tool_call_index;
      mret [ToolCallDelta (saturating_sub tool_call_index 1) partial_json]
  | DThinking thinking => mret [ThinkingDelta thinking]
  | DSignature signature => mret [ThinkingSignature Claude signature]
  end.

Definition parse_message_delta (data : string) : Stream (list CanonicalStreamEvent) :=
  parsed ← lift (map_err (fun e => SseParse ("message_delta parse error: " +:+ e))
                   (from_json (T := ClaudeMessageDeltaEvent) data));
  _ ← match mde_usage parsed with
      | Some usage =>
          st_modify (fun st =>
            let accumulated := default Usage_default (accumulated_usage st) in
            set_accumulated_usage (Some
              {| input_tokens := input_tokens accumulated;
                 output_tokens := su_output_tokens usage;
                 cache_read_tokens := cache_read_tokens accumulated;
                 cache_write_tokens := cache_write_tokens accumulated;
                 cache_write_1h := cache_write_1h accumulated;
                 reasoning_tokens := reasoning_tokens accumulated |}) st)
      | None => mret tt
      end;
  let stop_reason := default EndTurn (from_claude <$> md_stop_reason (mde_delta parsed)) in
  _ ← st_modify (set_phase PhaseDone);
  usage ← st_gets accumulated_usage;
  mret [Done stop_reason usage].

Definition parse_message_stop : Stream (list CanonicalStreamEvent) :=
  _ ← st_modify (set_done_ true);
  st ← st_gets (fun st => st);
  if decide (phase st = PhaseDone) then mret []
  else
    let stop_reason :=
      if decide (phase st = PhaseToolCalls \/ 0 < tool_call_index st) then ToolUse
      else EndTurn in
    _ ← st_modify (set_phase PhaseDone);
    mret [Done stop_reason (accumulated_usage st)].

Definition claude_parse (e : SseEvent) : Stream (list CanonicalStreamEvent) :=
  event_type ← lift (ok_or (SseParse "Claude SSE events require event type") (event e));
  if decide (event_type = "message_start") then parse_message_start (data e) else
  if decide (event_type = "content_block_start") then parse_content_block_start (data e) else
  if decide (event_type = "content_block_delta") then parse_content_block_delta (data e) else
  if decide (event_type = "content_block_stop") then mret [] else
  if decide (event_type = "message_delta") then parse_message_delta (data e) else
  if decide (event_type = "message_stop") then parse_message_stop else
  if decide (event_type = "ping") then mret [] else
  throw (SseParse ("unknown Claude SSE event: " +:+ event_type)).

Definition emit_message_start (id model : string) : Stream (list string) :=
  normalized_id ← lift_eff (normalize_id_to_claude id);
  _ ← st_modify (fun st =>
        set_accumulated_usage (Some Usage_default)
          (set_done_ false
             (set_tool_call_index 0
                (set_block_index 0
                   (set_phase PhaseInit
                      (set_st_model (Some model)
                         (set_response_id (Some normalized_id) st)))))));
  let data := obj [("type", str "message_start");
                   ("message", obj [("id", str normalized_id); ("type", str "message");
                                    ("role", str "assistant"); ("model", str model);
                                    ("content", VArray []); ("stop_reason", VNull);
                                    ("stop_sequence", VNull);
                                    ("usage", obj [("input_tokens", num 0);
                                                   ("output_tokens", num 0)])])] in
  mret [json_frame "message_start" data].

(** The [content_block_start] that [emit_text_delta] and
    [emit_thinking_delta] push in the [Init] phase. *)
Definition open_block (content_block : Value) : Stream (list string) :=
  st ← st_gets (fun st => st);
  if decide (phase st = PhaseInit) then
    _ ← st_modify (set_phase PhaseContent);
    mret [json_frame "content_block_start"
            (obj [("type", str "content_block_start"); ("index", num (block_index st));
                  ("content_block", content_block)])]
  else mret [].

Definition block_delta (index : Z) (delta : Value) : string :=
  json_frame "content_block_delta"
    (obj [("type", str "content_block_delta"); ("index", num index); ("delta", delta)]).

Definition emit_text_delta (text : string) : Stream (list string) :=
  out ← open_block (obj [("type", str "text"); ("text", str "")]);
  index ← st_gets block_index;
  mret (out ++ [block_delta index (obj [("type", str "text_delta"); ("text", str text)])]).

Definition emit_tool_call_start (index : Z) (id name : string) : Stream (list string) :=
  block_index ← st_run next_block_index;
  _ ← st_modify (fun st =>
        set_phase PhaseToolCalls (set_tool_call_index (u32_add index 1) st));
  mret [json_frame "content_block_start"
          (obj [("type", str "content_block_start"); ("index", num block_index);
                ("content_block", obj [("type", str "tool_use"); ("id", str id);
                                       ("name", str name); ("input", obj [])])])].

Definition emit_tool_call_delta (arguments_delta : string) : Stream (list string) :=
  index ← st_gets block_index;
  mret [block_delta (saturating_sub index 1)
          (obj [("type", str "input_json_delta"); ("partial_json", str arguments_delta)])].

Definition emit_thinking_delta (thinking : string) : Stream (list string) :=
  out ← open_block (obj [("type", str "thinking"); ("thinking", str "")]);
  index ← st_gets block_index;
  mret (out ++ [block_delta index (obj [("type", str "thinking_delta");
                                        ("thinking", str thinking)])]).

(** The [usage] object of [message_delta]: the two counts, then the cache
    counts that are known. *)
Definition usage_counts (usage : option Usage) : Map :=
  let output_tokens := default 0 (output_tokens <$> usage) in
  let input_tokens :=
    default 0 ((fun u => default (input_tokens u)
                           (saturating_sub (input_tokens u) <$> cache_read_tokens u)) <$> usage) in
  map_of_list [("input_tokens", num input_tokens); ("output_tokens", num output_tokens)].

Definition usage_obj (usage : option Usage) : Map :=
  let m := usage_counts usage in
  match usage with
  | Some u =>
      let m := match cache_read_tokens u with
               | Some r => map_insert "cache_read_input_tokens" (num r) m
               | None => m
               end in
      match cache_write_tokens u with
      | Some w => map_insert "cache_creation_input_tokens" (num w) m
      | None => m
      end
  | None => m
  end.

Definition emit_done (stop_reason : StopReason) (usage : option Usage) : Stream (list string) :=
  _ ← match usage with
      | Some u => st_modify (set_accumulated_usage (Some u))
      | None => mret tt
      end;
  let delta_data :=
    obj [("type", str "message_delta");
         ("delta", obj [("stop_reason", str (to_claude stop_reason)); ("stop_sequence", VNull)]);
         ("usage", VObject (usage_obj usage))] in
  let stop_data := obj [("type", str "message_stop")] in
  _ ← st_modify (fun st => set_phase PhaseDone (set_done_ true st));
  mret [json_frame "message_delta" delta_data; json_frame "message_stop" stop_data].

Definition claude_emit (e : CanonicalStreamEvent) : Stream (list string) :=
  match e with
  | ThinkingSignature _ _ | SealedThinking _ _ => mret []
  | Start id model => emit_message_start id model
  | TextDelta text => emit_text_delta text
  | ToolCallStart index id name _ => emit_tool_call_start index id name
  | ToolCallDelta _ arguments_delta => emit_tool_call_delta arguments_delta
  | ThinkingDelta thinking => emit_thinking_delta thinking
  | Done stop_reason usage => emit_done stop_reason usage
  end.

Definition ClaudeStreamAdapter : StreamAdapter :=
  {| parse_sse_event := claude_parse; emit_sse_event := claude_emit |}.
End claude_stream.
