(* ===== verification/ClaudeStreamProps.v ===== *)
(** * What Claude's stream adapter promises *)
From Stdlib Require Import ZArith Lia.
From S2P Require Import Prelude.
From S2P Require Import RustStd.
From S2P Require Import Json.
From S2P Require Import Effects.
From S2P Require Import Concrete.
From S2P Require Import Format.
From S2P Require Import Ir.
From S2P Require Import Sse.
From S2P Require Import Shared.
From S2P Require Import ClaudeTypes.
From S2P Require Import Adapter.
From S2P Require Import ClaudeStream.

Local Open Scope Z_scope.

(** ** Emitting: what the client is told *)

Inductive BlockKind : Type :=
  | KText
  | KThinking
  | KToolUse (id name : string).

(** What a frame tells a Claude client, with the index of the content block it
    is about. *)
Inductive ClientEvent : Type :=
  | CStart (model : string)
  | COpen (index : Z) (kind : BlockKind)
  | CText (index : Z) (text : string)
  | CThinking (index : Z) (text : string)
  | CArguments (index : Z) (json : string)
  | CClose (index : Z)
  | CStop (reason : string)
  | CEnd.

Definition block_kind (block : Value) : option BlockKind :=
  bt ← value_str "type" block;
  if decide (bt = "text") then Some KText
  else if decide (bt = "thinking") then Some KThinking
  else if decide (bt = "tool_use") then
    id ← value_str "id" block; name ← value_str "name" block; Some (KToolUse id name)
  else None.

Definition client_delta (index : Z) (delta : Value) : option ClientEvent :=
  dt ← value_str "type" delta;
  if decide (dt = "text_delta") then CText index <$> value_str "text" delta
  else if decide (dt = "thinking_delta") then CThinking index <$> value_str "thinking" delta
  else if decide (dt = "input_json_delta") then CArguments index <$> value_str "partial_json" delta
  else None.

Definition client_event (v : Value) : option ClientEvent :=
  t ← value_str "type" v;
  let index := get_key "index" v ≫= Json.as_u64 in
  if decide (t = "message_start") then
    CStart <$> (get_key "message" v ≫= value_str "model")
  else if decide (t = "content_block_start") then
    i ← index; COpen i <$> (get_key "content_block" v ≫= block_kind)
  else if decide (t = "content_block_delta") then
    i ← index; get_key "delta" v ≫= client_delta i
  else if decide (t = "content_block_stop") then CClose <$> index
  else if decide (t = "message_delta") then
    CStop <$> (get_key "delta" v ≫= value_str "stop_reason")
  else if decide (t = "message_stop") then Some CEnd
  else None.

(** What the canonical event has to tell, when [opened] says whether a block of
    the message has been opened and [next] is the index the next tool call
    takes. Opaque thinking material is not for this client. *)
Definition told_one (opened : bool) (next : Z) (e : CanonicalStreamEvent) : list ClientEvent :=
  match e with
  | Start _ model => [CStart model]
  | TextDelta text => (if opened then [] else [COpen next KText]) ++ [CText next text]
  | ThinkingDelta text => (if opened then [] else [COpen next KThinking]) ++ [CThinking next text]
  | ToolCallStart _ id name _ => [COpen next (KToolUse id name)]
  | ToolCallDelta _ arguments => [CArguments (saturating_sub next 1) arguments]
  | Done reason _ => [CStop (to_claude reason); CEnd]
  | ThinkingSignature _ _ | SealedThinking _ _ => []
  end.
Definition opened_after (opened : bool) (e : CanonicalStreamEvent) : bool :=
  match e with
  | Start _ _ => false
  | TextDelta _ | ThinkingDelta _ | ToolCallStart _ _ _ _ | Done _ _ => true
  | _ => opened
  end.
Definition next_after (next : Z) (e : CanonicalStreamEvent) : Z :=
  match e with
  | Start _ _ => 0
  | ToolCallStart _ _ _ _ => u32_add next 1
  | _ => next
  end.
Fixpoint told (opened : bool) (next : Z) (es : list CanonicalStreamEvent) : list ClientEvent :=
  match es with
  | [] => []
  | e :: es => told_one opened next e ++ told (opened_after opened e) (next_after next e) es
  end.

(** *** A client that assembles the message

    Blocks are opened one after the other, and a delta extends the block at its
    index, which must be of its kind. *)
Inductive Block : Type :=
  | TextBlock (text : string)
  | ThinkingBlock (text : string)
  | ToolBlock (id name json : string).

Definition new_block (k : BlockKind) : Block :=
  match k with
  | KText => TextBlock ""
  | KThinking => ThinkingBlock ""
  | KToolUse id name => ToolBlock id name ""
  end.

Definition extend_at (blocks : list Block) (index : Z) (f : Block -> option Block) : option (list Block) :=
  block ← blocks !! Z.to_nat index;
  block ← f block;
  Some (<[Z.to_nat index := block]> blocks).

Definition client_step (blocks : list Block) (e : ClientEvent) : option (list Block) :=
  match e with
  | COpen index k =>
      if decide (index = Z.of_nat (length blocks)) then Some (blocks ++ [new_block k]) else None
  | CText index text =>
      extend_at blocks index (fun b => match b with TextBlock s => Some (TextBlock (s +:+ text)) | _ => None end)
  | CThinking index text =>
      extend_at blocks index
        (fun b => match b with ThinkingBlock s => Some (ThinkingBlock (s +:+ text)) | _ => None end)
  | CArguments index json =>
      extend_at blocks index
        (fun b => match b with ToolBlock id name s => Some (ToolBlock id name (s +:+ json)) | _ => None end)
  | CStart _ | CClose _ | CStop _ | CEnd => Some blocks
  end.

Fixpoint assemble (blocks : list Block) (es : list ClientEvent) : option (list Block) :=
  match es with
  | [] => Some blocks
  | e :: es => blocks ← client_step blocks e; assemble blocks es
  end.

(** The content canonical events spell: deltas extend the last block, or begin
    one. *)
Definition add_content (blocks : list Block) (e : CanonicalStreamEvent) : list Block :=
  match e, list.last blocks with
  | TextDelta t, Some (TextBlock s) => removelast blocks ++ [TextBlock (s +:+ t)]
  | TextDelta t, _ => blocks ++ [TextBlock t]
  | ThinkingDelta t, Some (ThinkingBlock s) => removelast blocks ++ [ThinkingBlock (s +:+ t)]
  | ThinkingDelta t, _ => blocks ++ [ThinkingBlock t]
  | ToolCallStart _ id name _, _ => blocks ++ [ToolBlock id name ""]
  | ToolCallDelta _ a, Some (ToolBlock id name s) => removelast blocks ++ [ToolBlock id name (s +:+ a)]
  | _, _ => blocks
  end.
Definition content (es : list CanonicalStreamEvent) : list Block := fold_left add_content es [].

(** Messages of one kind of content. A piece of arguments belongs to the call
    that started last; [n] have. *)
Definition silent (e : CanonicalStreamEvent) : bool :=
  match e with ThinkingSignature _ _ | SealedThinking _ _ => true | _ => false end.
Definition text_event (e : CanonicalStreamEvent) : bool :=
  match e with TextDelta _ => true | _ => silent e end.
Definition thinking_event (e : CanonicalStreamEvent) : bool :=
  match e with ThinkingDelta _ => true | _ => silent e end.
Fixpoint call_events (n : Z) (es : list CanonicalStreamEvent) : bool :=
  match es with
  | [] => true
  | ToolCallStart _ _ _ _ :: es => call_events (n + 1) es
  | ToolCallDelta i _ :: es => (0 <=? i) && (i + 1 =? n) && call_events n es
  | e :: es => silent e && call_events n es
  end.
Definition one_kind (es : list CanonicalStreamEvent) : bool :=
  forallb text_event es || forallb thinking_event es || call_events 0 es.

Lemma assemble_app blocks es1 es2 :
  assemble blocks (es1 ++ es2) = (blocks ← assemble blocks es1; assemble blocks es2).
Proof.
  revert blocks. induction es1 as [|e es1 IH]; intros blocks; [done|]. cbn.
  destruct (client_step blocks e); [apply IH|done].
Qed.

Lemma silent_told opened next e : silent e = true ->
  told_one opened next e = [] /\ opened_after opened e = opened /\ next_after next e = next /\
  forall blocks, add_content blocks e = blocks.
Proof. by destruct e. Qed.

(** Skip an event that tells nothing. *)
Ltac skip_silent IH :=
  match goal with |- context [told ?o ?n (?e :: _)] =>
    destruct (silent_told o n e eq_refl) as (E1 & E2 & E3 & E4);
    cbn [told fold_left]; rewrite E1, E2, E3, E4; by apply IH
  end.

Lemma assemble_text es s :
  forallb text_event es = true ->
  assemble [TextBlock s] (told true 0 es) = Some (fold_left add_content es [TextBlock s]).
Proof.
  revert s. induction es as [|e es IH]; intros s; [done|]. cbn [forallb].
  intros [He Hes]%andb_prop. destruct e; try done; try skip_silent IH. cbn. by apply IH.
Qed.

Lemma assemble_texts es :
  forallb text_event es = true -> assemble [] (told false 0 es) = Some (content es).
Proof.
  unfold content. induction es as [|e es IH]; [done|]. cbn [forallb].
  intros [He Hes]%andb_prop. destruct e; try done; try skip_silent IH. cbn. by apply assemble_text.
Qed.

Lemma assemble_thought es s :
  forallb thinking_event es = true ->
  assemble [ThinkingBlock s] (told true 0 es) = Some (fold_left add_content es [ThinkingBlock s]).
Proof.
  revert s. induction es as [|e es IH]; intros s; [done|]. cbn [forallb].
  intros [He Hes]%andb_prop. destruct e; try done; try skip_silent IH. cbn. by apply IH.
Qed.

Lemma assemble_thoughts es :
  forallb thinking_event es = true -> assemble [] (told false 0 es) = Some (content es).
Proof.
  unfold content. induction es as [|e es IH]; [done|]. cbn [forallb].
  intros [He Hes]%andb_prop. destruct e; try done; try skip_silent IH. cbn. by apply assemble_thought.
Qed.

Lemma assemble_calls es blocks opened n :
  n = Z.of_nat (length blocks) -> n + starts es <= u32_max -> call_events n es = true ->
  (blocks = [] \/ exists bs id name s, blocks = bs ++ [ToolBlock id name s]) ->
  assemble blocks (told opened n es) = Some (fold_left add_content es blocks).
Proof.
  revert blocks opened n. induction es as [|e es IH]; intros blocks opened n Hn Hmax He Hb; [done|].
  destruct e as [| |i id name sg|i a| | | |]; cbn [call_events silent starts] in *; try done;
    try (skip_silent IH); pose proof (starts_nonneg es).
  - cbn [told told_one opened_after next_after fold_left app assemble client_step].
    rewrite decide_True by done. cbn [mbind option_bind].
    unfold u32_add. rewrite as_u32_id by (unfold is_u32; lia).
    change (add_content blocks _) with (blocks ++ [ToolBlock id name ""]).
    apply IH; [rewrite List.length_app; cbn; lia|lia|done|]. right. by eexists _, _, _, _.
  - apply andb_prop in He as [[Hi Hin]%andb_prop He]. apply Z.leb_le in Hi. apply Z.eqb_eq in Hin.
    destruct Hb as [->|(bs & id & name & s & ->)]; [cbn in Hn; lia|].
    rewrite List.length_app in Hn. cbn [length] in Hn.
    cbn [told told_one opened_after next_after fold_left app assemble client_step].
    unfold saturating_sub. replace (Z.max 0 (n - 1)) with (Z.of_nat (length bs)) by lia.
    unfold extend_at. rewrite Nat2Z.id, list_lookup_middle by done. cbn [mbind option_bind].
    rewrite insert_app_r_alt, Nat.sub_diag by done. cbn [list_insert].
    unfold add_content at 2. rewrite last_snoc, removelast_last. cbn [app].
    apply IH; [rewrite List.length_app; cbn; lia|lia|done|]. right. by eexists _, _, _, _.
Qed.

Lemma assemble_one_kind es :
  one_kind es = true -> starts es <= u32_max -> assemble [] (told false 0 es) = Some (content es).
Proof.
  unfold one_kind. intros [[H|H]%orb_prop|H]%orb_prop Hmax.
  - by apply assemble_texts.
  - by apply assemble_thoughts.
  - apply assemble_calls; [done|lia|done|by left].
Qed.

Lemma told_app opened next es1 es2 :
  told opened next (es1 ++ es2) =
  told opened next es1 ++ told (fold_left opened_after es1 opened) (fold_left next_after es1 next) es2.
Proof.
  revert opened next. induction es1 as [|e es1 IH]; intros opened next; [done|].
  cbn [app told fold_left]. by rewrite IH, app_assoc.
Qed.

Section emit.
Context `{SerdeJson} `{Env}.

Definition client_view (frame : string) : option ClientEvent :=
  '(_, v) ← client_read frame; client_event v.

Lemma client_view_json `{!SerdeJsonLaws} name v :
  wire_field name = true -> wf_value v = true ->
  client_view (json_frame name v) = client_event v.
Proof. intros Hn Hv. unfold client_view. by rewrite client_read_json_frame. Qed.
End emit.

Lemma wf_u32_eqns n : is_u32 n -> (0 <=? n) = true /\ (n <=? u64_max) = true.
Proof. unfold is_u32, u32_max, u64_max. intros. split; lia. Qed.

Definition wf_opt_usage (u : option Usage) : Prop :=
  match u with Some u => wf_usage u | None => True end.

Lemma wf_usage_counts u : wf_opt_usage u -> wf_value (VObject (usage_counts u)) = true.
Proof.
  intros Hu. apply wf_map_of_list. cbn [forallb].
  destruct u as [[i o cr cw c1 r]|]; [|done]. destruct Hu as (Hi & Ho & Hr & Hw).
  cbn [input_tokens output_tokens cache_read_tokens cache_write_tokens] in *.
  rewrite !wf_num_u64; try done.
  destruct cr; [|done]. apply saturating_sub_u64; [done|]. by destruct Hr.
Qed.

Lemma wf_usage_obj u : wf_opt_usage u -> wf_value (VObject (usage_obj u)) = true.
Proof.
  intros Hu. pose proof (wf_usage_counts u Hu) as Hm. unfold usage_obj. cbv zeta.
  generalize dependent (usage_counts u). intros m Hm.
  destruct u as [[i o cr cw c1 r]|]; [|done]. destruct Hu as (Hi & Ho & Hr & Hw).
  cbn [cache_read_tokens cache_write_tokens] in *.
  destruct cr as [c|], cw as [c'|]; auto using wf_map_insert, wf_num_u64.
Qed.

Section transcript.
Context `{SerdeJson} `{Env}.
Context `{Deserialize ClaudeMessageStartEvent} `{FromValue ClaudeContentBlockStartEvent}
  `{Deserialize ClaudeContentBlockDeltaEvent} `{Deserialize ClaudeMessageDeltaEvent}.

(** The state agrees with [opened] and [next]. *)
Record agrees (opened : bool) (next : Z) (st : StreamState) : Prop := {
  ag_phase : phase st = PhaseInit <-> opened = false;
  ag_next : block_index st = next;
  ag_range : is_u32 next
}.

Lemma agrees_state st : is_u32 (block_index st) ->
  agrees (negb (bool_decide (phase st = PhaseInit))) (block_index st) st.
Proof. intros Hr. split; [|done..]. by destruct (bool_decide_reflect (phase st = PhaseInit)). Qed.

Lemma open_block_view `{!SerdeJsonLaws} k block opened next st w :
  agrees opened next st -> wf_value block = true -> block_kind block = Some k ->
  exists out st' w', open_block block (st, w) = (Ok out, (st', w')) /\
    agrees true next st' /\ filter_map client_view out = if opened then [] else [COpen next k].
Proof.
  intros [Hp Hn Hr] Hb Hk. unfold open_block. monad_unfold. cbn.
  destruct (decide (phase st = PhaseInit)) as [E|E]; cbn; eexists _, _, _.
  - rewrite (proj1 Hp E). split_and!; [reflexivity|by split|].
    rewrite filter_map_cons, client_view_json; [|done|].
    + rewrite Hn. change (client_event _) with (COpen next <$> block_kind block). by rewrite Hk.
    + apply wf_obj. cbn [forallb]. by rewrite Hn, wf_num_u32, Hb.
  - destruct opened; [|by destruct (E (proj2 Hp eq_refl))]. by split_and!; [reflexivity|split|].
Qed.

Lemma block_delta_view `{!SerdeJsonLaws} i k v :
  is_u32 i -> wf_value (obj [("type", str k); v]) = true ->
  client_view (block_delta i (obj [("type", str k); v])) = client_delta i (obj [("type", str k); v]).
Proof.
  intros Hi Hv. unfold block_delta. rewrite client_view_json; [done|done|].
  apply wf_obj. cbn [forallb]. by rewrite wf_num_u32, Hv.
Qed.

Lemma emit_step_view `{!SerdeJsonLaws} e opened next st w :
  agrees opened next st -> wf_event e ->
  exists out st' w', claude_emit e (st, w) = (Ok out, (st', w')) /\
    agrees (opened_after opened e) (next_after next e) st' /\
    filter_map client_view out = told_one opened next e.
Proof.
  intros Hst He. pose proof Hst as [Hp Hn Hr].
  destruct e as [id m|t|i id n s|i a|t|b d|b r|r u]; cbn [claude_emit].
  - unfold emit_message_start. monad_unfold. cbn.
    destruct (normalize_id_to_claude id w) as [id' w']. cbn.
    eexists _, _, _. split_and!; [reflexivity|by split|]. by rewrite filter_map_cons, client_view_json.
  - unfold emit_text_delta. monad_unfold.
    destruct (open_block_view KText (obj [("type", str "text"); ("text", str "")]) opened next st w)
      as (out & st' & w' & -> & Hb & Hv); try done.
    cbn -[block_delta]. eexists _, _, _. split_and!; [reflexivity|done|].
    by rewrite filter_map_app, Hv, filter_map_cons, block_delta_view, (ag_next _ _ _ Hb)
      by (rewrite ?(ag_next _ _ _ Hb); done).
  - unfold emit_tool_call_start. monad_unfold. cbn. rewrite Hn.
    eexists _, _, _. split_and!; [reflexivity|split; [done|done|apply as_u32_range]|].
    rewrite filter_map_cons, client_view_json; [done|done|].
    apply wf_obj. cbn [forallb]. by rewrite wf_num_u32.
  - unfold emit_tool_call_delta. monad_unfold. cbn -[block_delta]. rewrite Hn.
    eexists _, _, _. split_and!; [reflexivity|done|].
    rewrite filter_map_cons, block_delta_view; [done| |done]. by apply saturating_sub_u32.
  - unfold emit_thinking_delta. monad_unfold.
    destruct (open_block_view KThinking (obj [("type", str "thinking"); ("thinking", str "")]) opened next st w)
      as (out & st' & w' & -> & Hb & Hv); try done.
    cbn -[block_delta]. eexists _, _, _. split_and!; [reflexivity|done|].
    by rewrite filter_map_app, Hv, filter_map_cons, block_delta_view, (ag_next _ _ _ Hb)
      by (rewrite ?(ag_next _ _ _ Hb); done).
  - by eexists _, _, _.
  - by eexists _, _, _.
  - assert (wf_value (VObject (usage_obj u)) = true) as Hu by by apply wf_usage_obj; destruct u.
    unfold emit_done. monad_unfold. destruct u as [u|]; cbn -[usage_obj wf_value].
    all: eexists _, _, _; split_and!; [reflexivity|by split|].
    all: rewrite !filter_map_cons, !client_view_json; try done.
    all: apply wf_obj; cbn [forallb]; by rewrite Hu.
Qed.

Lemma emit_view `{!SerdeJsonLaws} es opened next st w :
  agrees opened next st -> Forall wf_event es ->
  exists frames st' w', run_all claude_emit es (st, w) = (Ok frames, (st', w')) /\
    filter_map client_view frames = told opened next es.
Proof.
  intros Hst Hes. revert opened next st w Hst. induction Hes as [|e es He _ IH]; intros opened next st w Hst.
  - by eexists [], st, w.
  - destruct (emit_step_view e opened next st w Hst He) as (f1 & st1 & w1 & E1 & Hst1 & V1).
    destruct (IH _ _ st1 w1 Hst1) as (f2 & st2 & w2 & E2 & V2).
    exists (f1 ++ f2), st2, w2. rewrite run_all_cons, E1, E2. split; [done|].
    by rewrite filter_map_app, V1, V2.
Qed.

(** C9: what a Claude client is told, block by block. Whatever canonical events
    arrive, in whatever order and state, the emitter writes frames without
    error, and a client that parses each frame and its JSON is told exactly
    the model, the opening of blocks, the texts, the thinking, the pieces of
    arguments, the stop reason and the end, in the order of the events and
    each with the index of its block: text and thinking go to the block that
    was opened first or to the one after the calls, a call opens the next
    index, arguments go to the call before. A message of one kind of content,
    that is of texts, of thinking, or of calls whose arguments arrive in the
    order of the calls, is assembled by a client that goes by the indices into
    the blocks it consists of. Messages that mix the kinds collide, and no
    block is ever closed: the finding [claude_emit_block_collision]. *)
Theorem claude_emit_transcript `{!SerdeJsonLaws} :
  (forall es st w, is_u32 (block_index st) -> Forall wf_event es ->
   exists frames st' w', run_all claude_emit es (st, w) = (Ok frames, (st', w')) /\
     filter_map client_view frames =
       told (negb (bool_decide (phase st = PhaseInit))) (block_index st) es) /\
  (forall id model body reason usage st w,
   is_u32 (block_index st) -> Forall wf_event (body ++ [Done reason usage]) ->
   one_kind body = true -> starts body <= u32_max ->
   exists frames st' w' inner,
     run_all claude_emit (Start id model :: body ++ [Done reason usage]) (st, w) = (Ok frames, (st', w')) /\
     filter_map client_view frames = CStart model :: inner ++ [CStop (to_claude reason); CEnd] /\
     assemble [] inner = Some (content body)).
Proof.
  split.
  - intros es st w Hst Hes. by apply emit_view; [apply agrees_state|].
  - intros id model body reason usage st w Hst Hes Hk Hmax.
    destruct (emit_view (Start id model :: body ++ [Done reason usage]) _ _ st w (agrees_state st Hst))
      as (frames & st' & w' & E & V); [by constructor|].
    exists frames, st', w', (told false 0 body). split_and!; [done| |by apply assemble_one_kind].
    rewrite V. cbn [told told_one opened_after next_after app]. by rewrite told_app.
Qed.
End transcript.

Lemma claude_emit_transcript_witness :
  (exists frames st' w',
    run_all (@claude_emit _ sample_env)
      [Start "x" "m"; ToolCallStart 0 "t" "f" None; ToolCallDelta 0 "{}"; TextDelta "hi";
       Done ToolUse (Some Usage_default)] (StreamState_new, world0)
      = (Ok frames, (st', w')) /\
    filter_map client_view frames =
      [CStart "m"; COpen 0 (KToolUse "t" "f"); CArguments 0 "{}"; CText 1 "hi";
       CStop "tool_use"; CEnd]) /\
  (exists frames st' w' inner,
    run_all (@claude_emit _ sample_env)
      (Start "x" "m" :: [ToolCallStart 0 "t" "f" None; ToolCallDelta 0 "{";
         ToolCallDelta 0 "}"; ToolCallStart 1 "u" "g" None] ++ [Done ToolUse None]) (StreamState_new, world0)
      = (Ok frames, (st', w')) /\
    filter_map client_view frames = CStart "m" :: inner ++ [CStop "tool_use"; CEnd] /\
    assemble [] inner = Some [ToolBlock "t" "f" "{}"; ToolBlock "u" "g" ""]).
Proof.
  split.
  - apply (proj1 (@claude_emit_transcript _ sample_env _)
      [Start "x" "m"; ToolCallStart 0 "t" "f" None; ToolCallDelta 0 "{}"; TextDelta "hi";
       Done ToolUse (Some Usage_default)] StreamState_new world0).
    + split; vm_compute; discriminate.
    + repeat constructor; vm_compute; discriminate.
  - apply (proj2 (@claude_emit_transcript _ sample_env _) "x" "m"
      [ToolCallStart 0 "t" "f" None; ToolCallDelta 0 "{"; ToolCallDelta 0 "}";
       ToolCallStart 1 "u" "g" None] ToolUse None StreamState_new world0).
    + split; vm_compute; discriminate.
    + repeat constructor; vm_compute; discriminate.
    + reflexivity.
    + vm_compute. discriminate.
Defined.

(** ** Parsing: one terminal event *)

(** The events between [message_start] and the end of a message. *)
Definition body_names : list string :=
  ["content_block_start"; "content_block_delta"; "content_block_stop"; "ping"].
Definition in_body (e : SseEvent) : Prop :=
  exists name, event e = Some name /\ name ∈ body_names.
Definition named (name : string) (e : SseEvent) : Prop := event e = Some name.

(** Every argument piece comes after a tool call has started; [n] have before. *)
Fixpoint opens_first (n : Z) (es : list CanonicalStreamEvent) : bool :=
  match es with
  | [] => true
  | ToolCallStart _ _ _ _ :: es => opens_first (n + 1) es
  | ToolCallDelta _ _ :: es => (0 <? n) && opens_first n es
  | _ :: es => opens_first n es
  end.

Lemma opens_first_app n es1 es2 :
  opens_first n (es1 ++ es2) = opens_first n es1 && opens_first (n + starts es1) es2.
Proof.
  revert n. induction es1 as [|e es1 IH]; intros n; simpl; [by rewrite Z.add_0_r|].
  destruct e; try apply IH; simpl; rewrite IH, ?andb_assoc; do 2 f_equal; lia.
Qed.

(** What parsing [out] did to the state, from [st] to [st']. *)
Record body_run (st : StreamState) (out : list CanonicalStreamEvent) (st' : StreamState) : Prop := {
  br_open : phase st <> PhaseDone -> phase st' <> PhaseDone;
  br_no_done : Forall (fun e => is_done_event e = false) out;
  br_index : is_u32 (tool_call_index st) ->
             tool_call_index st' = as_u32 (tool_call_index st + starts out);
  br_tools : Forall (fun e => is_tool_event e = false) out ->
             phase st' = PhaseToolCalls -> phase st = PhaseToolCalls;
  br_indexed : is_u32 (tool_call_index st) -> tool_call_index st + starts out <= u32_max ->
               opens_first (tool_call_index st) out = true ->
               well_indexed (tool_call_index st) out = true;
  br_usage : accumulated_usage st' = accumulated_usage st
}.

Lemma body_run_nil st st' :
  tool_call_index st' = tool_call_index st -> accumulated_usage st' = accumulated_usage st ->
  (phase st' = phase st \/ phase st' = PhaseContent) -> body_run st [] st'.
Proof.
  intros Ht Hu Hp. split; try done.
  - intros H. destruct Hp as [->| ->]; done.
  - intros H. rewrite Ht. simpl. by rewrite Z.add_0_r, as_u32_id.
  - intros _ H. destruct Hp; congruence.
Qed.

Lemma body_run_plain st e st' :
  is_tool_event e = false -> is_done_event e = false ->
  tool_call_index st' = tool_call_index st -> accumulated_usage st' = accumulated_usage st ->
  (phase st' = phase st \/ phase st' = PhaseContent) -> body_run st [e] st'.
Proof.
  intros He Hd Ht Hu Hp. split; try done.
  - intros H. destruct Hp as [->| ->]; done.
  - by repeat constructor.
  - intros H. rewrite Ht. destruct e; try done; simpl; by rewrite Z.add_0_r, as_u32_id.
  - intros _ H. destruct Hp; congruence.
  - intros _ _ _. by destruct e.
Qed.

Lemma body_run_app st out1 st1 out2 st2 :
  is_u32 (tool_call_index st) ->
  body_run st out1 st1 -> body_run st1 out2 st2 -> body_run st (out1 ++ out2) st2.
Proof.
  intros Hst [o1 d1 i1 t1 w1 u1] [o2 d2 i2 t2 w2 u2].
  pose proof (starts_nonneg out1). pose proof (starts_nonneg out2).
  specialize (i1 Hst). assert (is_u32 (tool_call_index st1)) as Hst1
    by (rewrite i1; apply as_u32_range).
  split.
  - auto.
  - by apply Forall_app.
  - intros _. rewrite i2, i1, starts_app by done. unfold as_u32.
    rewrite Zplus_mod_idemp_l. f_equal. lia.
  - intros [H1 H2]%Forall_app. auto.
  - intros _. rewrite starts_app, opens_first_app, well_indexed_app. intros Hle [Ha Hb]%andb_prop.
    assert (tool_call_index st1 = tool_call_index st + starts out1) as E.
    { rewrite i1. apply as_u32_id. unfold is_u32 in *. lia. }
    rewrite w1 by (done || lia). simpl. rewrite <-E in *. apply w2; done || lia.
  - congruence.
Qed.

(** Case analysis on the calls a [Stream] computation made to return [Ok]. *)
Ltac stream_cases H :=
  repeat match type of H with
  | context [match ?x with _ => _ end] =>
      lazymatch x with
      | context [match _ with _ => _ end] => fail
      | _ => destruct x eqn:?; simplify_eq/=
      end
  end.

Section parse.
Context `{SerdeJson} `{Env}.
Context `{Deserialize ClaudeMessageStartEvent} `{FromValue ClaudeContentBlockStartEvent}
  `{Deserialize ClaudeContentBlockDeltaEvent} `{Deserialize ClaudeMessageDeltaEvent}.

Lemma parse_block_start_body d st w out st' w' :
  is_u32 (tool_call_index st) ->
  parse_content_block_start d (st, w) = (Ok out, (st', w')) -> body_run st out st'.
Proof.
  intros Hst. unfold parse_content_block_start. monad_unfold. cbn. intros Hp.
  stream_cases Hp; try (apply body_run_plain; by auto); try (apply body_run_nil; by auto).
  split; cbn; try done.
  - by repeat constructor.
  - intros Hall. by inversion Hall.
  - intros _ Hle _. by rewrite Z.eqb_refl.
Qed.

Lemma parse_block_delta_body d st w out st' w' :
  is_u32 (tool_call_index st) ->
  parse_content_block_delta d (st, w) = (Ok out, (st', w')) -> body_run st out st'.
Proof.
  intros Hst. unfold parse_content_block_delta. monad_unfold. cbn. intros Hp.
  stream_cases Hp; try (apply body_run_plain; by auto).
  split; cbn; try done.
  - by repeat constructor.
  - intros _. by rewrite Z.add_0_r, as_u32_id.
  - intros Hall. by inversion Hall.
  - intros [Hlo _] _ [Hn _]%andb_prop. unfold saturating_sub. apply Z.ltb_lt in Hn.
    rewrite andb_true_r. apply andb_true_intro. split; lia.
Qed.

Lemma parse_body_step e st w out st' w' :
  in_body e -> is_u32 (tool_call_index st) ->
  claude_parse e (st, w) = (Ok out, (st', w')) -> body_run st out st'.
Proof.
  intros (name & Hn & Hin) Hst. unfold claude_parse. monad_unfold. rewrite Hn. cbn.
  apply list_elem_of_In in Hin. destruct Hin as [<-|[<-|[<-|[<-|[]]]]]; decide_strings; cbn; intros Hp.
  - by apply (parse_block_start_body (data e) st w out st' w').
  - by apply (parse_block_delta_body (data e) st w out st' w').
  - simplify_eq. apply body_run_nil; auto.
  - simplify_eq. apply body_run_nil; auto.
Qed.

Lemma run_body es st w out st' w' :
  Forall in_body es -> is_u32 (tool_call_index st) ->
  run_all claude_parse es (st, w) = (Ok out, (st', w')) -> body_run st out st'.
Proof.
  intros Hes. revert st w out. induction Hes as [|e es He _ IH]; intros st w out Hst Hr.
  - cbn in Hr. unfold mret, stm_ret in Hr. simplify_eq. apply body_run_nil; auto.
  - rewrite run_all_cons in Hr.
    destruct (claude_parse e (st, w)) as [[o1|] [st1 w1]] eqn:E1; [|done].
    destruct (run_all claude_parse es (st1, w1)) as [[o2|] [st2 w2]] eqn:E2; [|done].
    simplify_eq. apply parse_body_step in E1; [|done|done].
    apply (body_run_app st o1 st1 o2 st'); [done|done|].
    apply (IH st1 w1 o2); [|done]. rewrite (br_index _ _ _ E1) by done. apply as_u32_range.
Qed.

Lemma parse_start_state e st w out st' w' :
  named "message_start" e -> claude_parse e (st, w) = (Ok out, (st', w')) ->
  phase st' = PhaseInit /\ tool_call_index st' = 0 /\
  exists id m, out = [Start id m] /\ response_id st' = Some id /\ st_model st' = Some m.
Proof.
  unfold named, claude_parse. intros He. monad_unfold. rewrite He. cbn. decide_strings. intros Hp.
  unfold parse_message_start in Hp. monad_unfold. cbn in Hp.
  stream_cases Hp; split_and!; try done; by eexists _, _.
Qed.

Lemma parse_delta_state e st w out st' w' :
  named "message_delta" e -> claude_parse e (st, w) = (Ok out, (st', w')) ->
  phase st' = PhaseDone /\ exists r, out = [Done r (accumulated_usage st')].
Proof.
  unfold named, claude_parse. intros He. monad_unfold. rewrite He. cbn. decide_strings. intros Hp.
  unfold parse_message_delta in Hp. monad_unfold. cbn in Hp.
  stream_cases Hp; split; try done; by eexists.
Qed.

Lemma parse_stop e st w :
  named "message_stop" e ->
  claude_parse e (st, w) =
    (Ok (if decide (phase st = PhaseDone) then []
         else [Done (if decide (phase st = PhaseToolCalls \/ 0 < tool_call_index st)
                     then ToolUse else EndTurn) (accumulated_usage st)]),
     (set_phase PhaseDone (set_done_ true st), w)).
Proof.
  unfold named, claude_parse. intros He. monad_unfold. rewrite He. cbn. decide_strings.
  unfold parse_message_stop. monad_unfold. cbn.
  destruct (decide (phase st = PhaseDone)) as [E|]; [|done]. cbn. destruct st. cbn in E. by subst.
Qed.

(** A Claude message ends exactly once. A stream that starts with
    [message_start], goes on with content blocks and pings, and ends with
    [message_delta] and [message_stop], or with [message_stop] alone as some
    providers do, parses, if every event parses, to one [Start] first, then
    events none of which is terminal, and one [Done] last with the usage
    accumulated; the stream is marked done. When [message_delta] is missing,
    [Done] says the model stopped for a tool if a tool call was started, and
    that the turn ended if no tool event was seen. *)
Theorem claude_parse_done_once (first stop : SseEvent) (body delta : list SseEvent)
  st w out st' w' :
  named "message_start" first -> Forall in_body body ->
  (delta = [] \/ exists d, delta = [d] /\ named "message_delta" d) ->
  named "message_stop" stop ->
  run_all claude_parse ([first] ++ body ++ delta ++ [stop]) (st, w) = (Ok out, (st', w')) ->
  exists id m pre r,
    out = [Start id m] ++ pre ++ [Done r (accumulated_usage st')] /\
    Forall (fun e => is_done_event e = false) pre /\
    done_ st' = true /\ phase st' = PhaseDone /\
    (delta = [] -> 0 < starts pre <= u32_max -> r = ToolUse) /\
    (delta = [] -> Forall (fun e => is_tool_event e = false) pre -> r = EndTurn).
Proof.
  intros Hf Hb Hd Hs. cbn [app]. rewrite run_all_cons.
  destruct (claude_parse first (st, w)) as [[o1|] [s1 w1]] eqn:E1; [|done].
  apply parse_start_state in E1 as (Hp1 & Ht1 & id & m & -> & _); [|done].
  rewrite run_all_app.
  destruct (run_all claude_parse body (s1, w1)) as [[pre|] [s2 w2]] eqn:E2; [|done].
  apply run_body in E2 as [Ho Hnd Hi Ht _ _]; [|done|by rewrite Ht1].
  specialize (Ho ltac:(by rewrite Hp1)). specialize (Hi ltac:(by rewrite Ht1)).
  rewrite run_all_app.
  destruct Hd as [->|(d & -> & Hd)].
  - change (run_all claude_parse [] (s2, w2)) with
      (@Ok ConvertError (list CanonicalStreamEvent) [], (s2, w2)).
    cbn beta iota. rewrite run_all_cons, parse_stop by done.
    rewrite decide_False by done. intros Hr. cbn in Hr. simplify_eq.
    eexists id, m, pre, _. split_and!; try done.
    + intros _ Hc. rewrite decide_True; [done|]. right. rewrite Hi, Ht1.
      rewrite as_u32_id; unfold is_u32; lia.
    + intros _ Hall. rewrite decide_False; [done|]. intros [H'|H'].
      * apply Ht in H'; [|done]. congruence.
      * rewrite Hi, Ht1 in H'. assert (starts pre = 0) as E.
        { clear -Hall. induction Hall as [|[] pre He _ IH]; done. }
        by rewrite E in H'.
  - rewrite run_all_cons.
    destruct (claude_parse d (s2, w2)) as [[o3|] [s3 w3]] eqn:E3; [|done].
    apply parse_delta_state in E3 as (Hp3 & r & ->); [|done].
    change (run_all claude_parse [] (s3, w3)) with
      (@Ok ConvertError (list CanonicalStreamEvent) [], (s3, w3)).
    cbn beta iota. rewrite run_all_cons, parse_stop by done. rewrite decide_True by done.
    intros Hr. cbn in Hr. simplify_eq.
    exists id, m, pre, r. split_and!; done.
Qed.

(** Tool calls of a Claude stream are numbered 0, 1, 2, ... in the order
    their blocks start, and an argument piece carries the number of a call
    that has started, provided no piece comes before the first call and fewer
    than 2^32 calls start. This is the contract on which the emitters find
    the call a piece belongs to. *)
Theorem claude_parse_well_indexed (first : SseEvent) (body : list SseEvent) st w out st' w' :
  named "message_start" first -> Forall in_body body ->
  run_all claude_parse (first :: body) (st, w) = (Ok out, (st', w')) ->
  starts out <= u32_max -> opens_first 0 out = true ->
  well_indexed 0 out = true.
Proof.
  intros Hf Hb. rewrite run_all_cons.
  destruct (claude_parse first (st, w)) as [[o1|] [s1 w1]] eqn:E1; [|done].
  apply parse_start_state in E1 as (_ & Ht1 & id & m & -> & _); [|done].
  destruct (run_all claude_parse body (s1, w1)) as [[pre|] [s2 w2]] eqn:E2; [|done].
  apply run_body in E2 as [_ _ _ _ Hw _]; [|done|by rewrite Ht1].
  rewrite Ht1 in Hw. intros Hr. simplify_eq. cbn. intros Hle Ho. by apply Hw.
Qed.
End parse.

Definition sample_start : Deserialize ClaudeMessageStartEvent := fun _ =>
  Ok {| mse_type := "message_start";
        mse_message := {| sm_id := "i"; sm_model := "m"; sm_usage := None |} |}.
Definition sample_block_start : FromValue ClaudeContentBlockStartEvent := fun _ =>
  Ok {| cbs_type := "content_block_start"; cbs_index := 0;
        cbs_content_block := SToolUse "t" "f" (obj []) |}.
Definition sample_block_delta : Deserialize ClaudeContentBlockDeltaEvent := fun _ =>
  Ok {| cbd_type := "content_block_delta"; cbd_index := 0; cbd_delta := DInputJson "{}" |}.
Definition sample_message_delta : Deserialize ClaudeMessageDeltaEvent := fun _ => Err "absent".

Definition sample_parse : SseEvent -> Stream (list CanonicalStreamEvent) :=
  @claude_parse _ sample_start sample_block_start sample_block_delta sample_message_delta.
Definition sample_body : list SseEvent :=
  [{| event := Some "content_block_start"; data := value_to_string VNull |};
   {| event := Some "content_block_delta"; data := "{}" |};
   {| event := Some "content_block_stop"; data := "{}" |}].

Lemma sample_in_body : Forall in_body sample_body.
Proof.
  repeat constructor; eexists; (split; [reflexivity|]); apply list_elem_of_In; simpl; auto.
Qed.

Lemma claude_parse_done_once_witness :
  exists r, fst (run_all sample_parse
      ([{| event := Some "message_start"; data := "{}" |}] ++ sample_body ++ [] ++
       [{| event := Some "message_stop"; data := "{}" |}]) (StreamState_new, world0)) =
    Ok [Start "i" "m"; ToolCallStart 0 "t" "f" None; ToolCallDelta 0 "{}"; Done r None] /\
    r = ToolUse.
Proof.
  destruct (claude_parse_done_once (H := binary_json) (H1 := sample_start) (H2 := sample_block_start)
     (H3 := sample_block_delta) (H4 := sample_message_delta)
     {| event := Some "message_start"; data := "{}" |}
     {| event := Some "message_stop"; data := "{}" |} sample_body []
     StreamState_new world0
     [Start "i" "m"; ToolCallStart 0 "t" "f" None; ToolCallDelta 0 "{}"; Done ToolUse None]
     (snd (next_tool_call_index
        (set_phase PhaseDone (set_done_ true (set_st_model (Some "m")
           (set_response_id (Some "i") StreamState_new)))))) world0)
    as (id & m & pre & r & E & _ & _ & _ & Hr & _).
  - reflexivity.
  - exact sample_in_body.
  - by left.
  - reflexivity.
  - vm_compute. reflexivity.
  - exists ToolUse. split; [vm_compute; reflexivity|done].
Defined.

Lemma claude_parse_well_indexed_witness :
  well_indexed 0 [Start "i" "m"; ToolCallStart 0 "t" "f" None; ToolCallDelta 0 "{}"] = true.
Proof.
  apply (claude_parse_well_indexed (H := binary_json) (H1 := sample_start) (H2 := sample_block_start)
     (H3 := sample_block_delta) (H4 := sample_message_delta)
     {| event := Some "message_start"; data := "{}" |} sample_body
     StreamState_new world0 _
     (snd (next_tool_call_index
        (set_phase PhaseToolCalls (set_st_model (Some "m")
           (set_response_id (Some "i") StreamState_new))))) world0).
  - reflexivity.
  - exact sample_in_body.
  - vm_compute. reflexivity.
  - vm_compute. discriminate.
  - reflexivity.
Defined.

(** ** Block boundaries *)

(** What a frame says of content blocks: one starts, or a delta extends one. *)
Inductive BlockEvent : Type :=
  | BStart (index : Z) (kind : string)
  | BDelta (index : Z) (kind : string).

Definition block_event (v : Value) : option BlockEvent :=
  t ← value_str "type" v;
  index ← get_key "index" v ≫= Json.as_u64;
  if decide (t = "content_block_start") then
    BStart index <$> (get_key "content_block" v ≫= value_str "type")
  else if decide (t = "content_block_delta") then
    BDelta index <$> (get_key "delta" v ≫= value_str "type")
  else None.

(** The event name of a frame. *)
Definition frame_name (frame : string) : option string := parse_sse_block frame ≫= event.

Section blocks.
Context `{SerdeJson} `{Env}.

Definition block_view (frame : string) : option BlockEvent :=
  '(_, v) ← client_read frame; block_event v.

Lemma block_view_json `{!SerdeJsonLaws} name v :
  wire_field name = true -> wf_value v = true ->
  block_view (json_frame name v) = block_event v.
Proof. intros Hn Hv. unfold block_view. by rewrite client_read_json_frame. Qed.

Lemma frame_name_json `{!SerdeJsonLaws} name v :
  wire_field name = true -> frame_name (json_frame name v) = Some name.
Proof.
  intros Hn. unfold frame_name, json_frame.
  change (format_sse_event name (value_to_string v))
    with (render {| event := Some name; data := value_to_string v |}).
  rewrite (parse_block_of_lines {| event := Some name; data := value_to_string v |} _ [""]).
  - done.
  - unfold wire_event. cbn. by rewrite Hn, value_to_string_wire.
  - by repeat constructor.
  - apply lines_render. unfold wire_event. cbn. by rewrite Hn, value_to_string_wire.
Qed.

Definition stop_view (frame : string) : option unit :=
  if decide (frame_name frame = Some "content_block_stop") then Some tt else None.

Lemma stop_view_json `{!SerdeJsonLaws} name v :
  wire_field name = true -> name <> "content_block_stop" -> stop_view (json_frame name v) = None.
Proof.
  intros Hn Hs. unfold stop_view. rewrite frame_name_json by done.
  by rewrite decide_False by congruence.
Qed.

(** A block is never closed: no emitted frame is a [content_block_stop]. *)
Lemma emit_step_no_stop `{!SerdeJsonLaws} e st w :
  exists out st' w', claude_emit e (st, w) = (Ok out, (st', w')) /\ filter_map stop_view out = [].
Proof.
  destruct e; cbn [claude_emit];
    unfold emit_message_start, emit_text_delta, emit_tool_call_start, emit_tool_call_delta,
      emit_thinking_delta, emit_done, open_block, block_delta; monad_unfold; cbn -[usage_obj].
  - destruct (normalize_id_to_claude id w) as [id' w']. cbn.
    eexists _, _, _. split; [reflexivity|]. by rewrite filter_map_cons, stop_view_json.
  - destruct (decide _); cbn; eexists _, _, _; (split; [reflexivity|]);
      by rewrite ?filter_map_cons, !stop_view_json.
  - eexists _, _, _. split; [reflexivity|]. by rewrite filter_map_cons, stop_view_json.
  - eexists _, _, _. split; [reflexivity|]. by rewrite filter_map_cons, stop_view_json.
  - destruct (decide _); cbn; eexists _, _, _; (split; [reflexivity|]);
      by rewrite ?filter_map_cons, !stop_view_json.
  - by eexists _, _, _.
  - by eexists _, _, _.
  - destruct usage; cbn -[usage_obj]; eexists _, _, _; (split; [reflexivity|]);
      by rewrite !filter_map_cons, !stop_view_json.
Qed.

(** The blocks of a run from a fresh state. *)
Definition blocks_of (es : list CanonicalStreamEvent) (w : World) : option (list BlockEvent) :=
  filter_map block_view <$> ok (fst (run_all claude_emit es (StreamState_new, w))).

(** A finding about block indices. A Claude reply of text followed by a
    tool call goes out with both content blocks at index 0, so the tool call
    lands in the text block a client already has there; text that follows
    thinking is sent as text deltas of the thinking block, with no block of
    its own; and whatever the events, no [content_block_stop] frame is ever
    written. *)
Theorem claude_emit_block_collision `{!SerdeJsonLaws} (rid model t h tid name args : string)
  (sg : option string) (w : World) :
  blocks_of [Start rid model; TextDelta t; ToolCallStart 0 tid name sg; ToolCallDelta 0 args] w =
    Some [BStart 0 "text"; BDelta 0 "text_delta";
          BStart 0 "tool_use"; BDelta 0 "input_json_delta"] /\
  blocks_of [Start rid model; ThinkingDelta h; TextDelta t] w =
    Some [BStart 0 "thinking"; BDelta 0 "thinking_delta"; BDelta 0 "text_delta"] /\
  (forall es st, exists frames s', run_all claude_emit es (st, w) = (Ok frames, s') /\
     filter_map stop_view frames = []).
Proof.
  split_and!.
  - unfold blocks_of. cbn -[json_frame filter_map].
    unfold emit_message_start, emit_text_delta, emit_tool_call_start, emit_tool_call_delta,
      open_block, block_delta. monad_unfold. cbn -[json_frame filter_map].
    destruct (normalize_id_to_claude rid w) as [id' w']. cbn -[json_frame filter_map].
    rewrite decide_True by done. cbn -[json_frame filter_map].
    by rewrite !filter_map_cons, !block_view_json.
  - unfold blocks_of. cbn -[json_frame filter_map].
    unfold emit_message_start, emit_text_delta, emit_thinking_delta, open_block, block_delta.
    monad_unfold. cbn -[json_frame filter_map].
    destruct (normalize_id_to_claude rid w) as [id' w']. cbn -[json_frame filter_map].
    rewrite decide_True by done. cbn -[json_frame filter_map].
    rewrite decide_False by done. cbn -[json_frame filter_map].
    by rewrite !filter_map_cons, !block_view_json.
  - intros es st.
    destruct (run_all_inv claude_emit (fun _ => True) (fun _ => True) stop_view (fun _ => []) es)
      with (st := st) (w := w) as (bs & st' & w' & E & _ & Hv).
    + intros e s w0 _ _. destruct (emit_step_no_stop e s w0) as (o & s' & w1 & E & Hv).
      by exists o, s', w1.
    + by apply list.Forall_true.
    + done.
    + exists bs, (st', w'). split; [done|]. rewrite Hv. clear.
      by induction es.
Qed.
End blocks.

Lemma claude_emit_block_collision_witness :
  @blocks_of _ sample_env
    [Start "r" "m"; TextDelta "hello"; ToolCallStart 0 "t" "f" None; ToolCallDelta 0 "{}"] world0 =
  Some [BStart 0 "text"; BDelta 0 "text_delta"; BStart 0 "tool_use"; BDelta 0 "input_json_delta"].
Proof.
  exact (proj1 (@claude_emit_block_collision _ sample_env _ "r" "m" "hello" "h" "t" "f" "{}" None world0)).
Defined.
