(* ===== verification/ChatRead.v ===== *)
(** * OpenAI Chat Completions to the intermediate representation

    [formats/openai_chat/read.rs]. *)
From Stdlib Require Import ZArith.
From S2P Require Import Prelude.
From S2P Require Import RustStd.
From S2P Require Import Json.
From S2P Require Import Format.
From S2P Require Import Ir.
From S2P Require Import ChatTypes.
From S2P Require Import Shared.

Section chat_read.
Context `{SerdeJson} `{ToValue StreamOptions}.

Definition image_part (detail : ImageUrlDetail) : IrPart :=
  let url := iu_url detail in
  match (rest ← strip_prefix "data:" url; split_once ";base64," rest) with
  | Some (media_type, data) => Image "" media_type (Some data) (iu_detail detail)
  | None => Image url "" None (iu_detail detail)
  end.

Definition content_part (part : ContentPart) : IrPart :=
  match part with
  | PText text => Text text None
  | PImageUrl image_url => image_part image_url
  end.

Definition user_parts (content : option MessageContent) : list IrPart :=
  match content with
  | None => []
  | Some (MText text) => [Text text None]
  | Some (MParts parts) => map content_part parts
  end.

Definition read_tool_call (tc : ToolCallWire) : IrPart :=
  ToolCall (tcw_id tc) (fc_name (tcw_function tc))
    (parse_arguments (fc_arguments (tcw_function tc))) None.

(** [filter(|t| !t.is_empty())] then one part. *)
Definition nonempty_part (f : string -> IrPart) (text : option string) : list IrPart :=
  match opt_filter (fun t => negb (is_empty t)) text with
  | Some text => [f text]
  | None => []
  end.

Definition assistant_parts (content : option MessageContent)
  (tool_calls : option (list ToolCallWire)) (reasoning_content : option string) : list IrPart :=
  nonempty_part (fun text => Thinking text None) reasoning_content ++
  match content with
  | None => []
  | Some (MText text) => if is_empty text then [] else [Text text None]
  | Some (MParts items) =>
      filter_map (fun p =>
        match p with
        | PText text => if is_empty text then None else Some (content_part p)
        | _ => Some (content_part p)
        end) items
  end ++
  map read_tool_call (default [] tool_calls).

Definition tool_result_content (content : option MessageContent) : list IrPart :=
  match message_content_as_text content with
  | Some text => if is_empty text then [] else [Text text None]
  | None => []
  end.

(** [system] and [out] grow at the end. *)
Definition read_message (msg : OpenAIChatMessage) (acc : list IrPart * list IrMessage)
  : list IrPart * list IrMessage :=
  let '(system, out) := acc in
  let role := om_role msg in
  if decide (role = "system" \/ role = "developer") then
    match message_content_as_text (om_content msg) with
    | Some text => (system ++ [Text text None], out)
    | None => (system, out)
    end
  else if decide (role = "assistant") then
    (system,
     out ++ [{| msg_role := Assistant;
                msg_parts := assistant_parts (om_content msg) (om_tool_calls msg)
                               (om_reasoning_content msg) |}])
  else if decide (role = "tool") then
    (system,
     out ++ [{| msg_role := User;
                msg_parts := [ToolResult (default "" (om_tool_call_id msg)) false
                                (tool_result_content (om_content msg))] |}])
  else
    (system, out ++ [{| msg_role := User; msg_parts := user_parts (om_content msg) |}]).

Definition read_tool (tool : OpenAIChatTool) : IrTool :=
  let f := ot_function tool in
  {| tool_name := fd_name f;
     tool_description := default "" (fd_description f);
     tool_schema := default (obj [("type", str "object")]) (fd_parameters f);
     tool_strict := fd_strict f |}.

Definition read_tool_choice (choice : option Value) : option IrToolChoice :=
  choice ← choice;
  Some (match choice with
        | VString s =>
            if decide (s = "none") then ChoiceNone
            else if decide (s = "required") then ChoiceRequired
            else ChoiceAuto
        | VObject m =>
            let name :=
              if decide (get_str "type" m = Some "function") then
                f ← map_get "function" m; value_str "name" f
              else None in
            match name with
            | Some name => ChoiceNamed name
            | None => ChoiceAuto
            end
        | _ => ChoiceAuto
        end).

Definition stop_values (stop : StopValue) : list string :=
  match stop with Single s => [s] | Multiple v => v end.

Definition read (req : OpenAIChatRequest) : IrRequest :=
  let '(system, turns) := fold_left (fun acc msg => read_message msg acc) (oq_messages req) ([], []) in
  let extra :=
    put_opt OpenAIChat "stream_options"
      (oq_stream_options req ≫= (fun o => ok (to_value o)))
      (put_opt OpenAIChat "n" (num <$> oq_n req)
         (put_opt OpenAIChat "response_format" (oq_response_format req)
            (put_opt OpenAIChat "seed" (num_i64 <$> oq_seed req) []))) in
  {| model := oq_model req;
     system := system;
     messages := turns;
     tools := map read_tool (default [] (oq_tools req));
     tool_choice := read_tool_choice (oq_tool_choice req);
     sampling := {| max_tokens := opt_or (oq_max_completion_tokens req) (oq_max_tokens req);
                    temperature := oq_temperature req;
                    top_p := oq_top_p req;
                    top_k := None;
                    stop := default [] (stop_values <$> oq_stop req) |};
     stream := default false (oq_stream req);
     reasoning := match opt_or (oq_reasoning_effort req) (rc_effort <$> oq_reasoning req) with
                  | Some effort => Effort effort
                  | None => Off
                  end;
     extra := extra |}.

Definition read_usage (usage : OpenAIUsage) : Usage :=
  {| input_tokens := ou_prompt_tokens usage;
     output_tokens := ou_completion_tokens usage;
     cache_read_tokens := ou_prompt_tokens_details usage ≫= cached_tokens;
     cache_write_tokens := None;
     cache_write_1h := None;
     reasoning_tokens := None |}.

Definition read_response (resp : OpenAIChatResponse) : IrResponse :=
  let id := then_some (negb (is_empty (or_id resp))) (or_id resp) in
  let usage := default Usage_default (read_usage <$> or_usage resp) in
  match or_choices resp with
  | [] =>
      {| resp_id := id; resp_model := or_model resp; resp_parts := [];
         resp_stop_reason := EndTurn; resp_stop_sequence := None; resp_usage := usage |}
  | choice :: _ =>
      let m := ch_message choice in
      {| resp_id := id; resp_model := or_model resp;
         resp_parts :=
           nonempty_part (fun text => Text text None) (chm_content m) ++
           nonempty_part (fun text => Thinking text None) (chm_reasoning_content m) ++
           map read_tool_call (default [] (chm_tool_calls m));
         resp_stop_reason := default EndTurn (from_openai_chat <$> ch_finish_reason choice);
         resp_stop_sequence := None;
         resp_usage := usage |}
  end.
End chat_read.
