(* ===== verification/ChatBuild.v ===== *)
(** * The intermediate representation to OpenAI Chat Completions

    [formats/openai_chat/build.rs]. *)
From Stdlib Require Import ZArith.
From S2P Require Import Prelude.
From S2P Require Import RustStd.
From S2P Require Import Json.
From S2P Require Import Effects.
From S2P Require Import Format.
From S2P Require Import Ir.
From S2P Require Import ClaudeTypes.
From S2P Require Import ChatTypes.
From S2P Require Import Reasoning.
From S2P Require Import Shared.

Section chat_build.
Context `{SerdeJson} `{FromValue StreamOptions}.

Definition message (role : string) (content : option MessageContent) : OpenAIChatMessage :=
  {| om_role := role; om_content := content; om_name := None; om_tool_calls := None;
     om_tool_call_id := None; om_reasoning_content := None |}.

Definition text_of (parts : list IrPart) : string :=
  concat_strings (filter_map (fun p => match p with Text text _ => Some text | _ => None end) parts).

Definition is_image (p : IrPart) : bool := match p with Image _ _ _ _ => true | _ => false end.

Definition image_url (part : IrPart) : ImageUrlDetail :=
  match part with
  | Image url media_type data detail =>
      {| iu_url := match data with
                   | Some data => "data:" +:+ media_type +:+ ";base64," +:+ data
                   | None => url
                   end;
         iu_detail := detail |}
  | _ => {| iu_url := ""; iu_detail := None |}
  end.

Definition message_content (parts : list IrPart) : option MessageContent :=
  if any is_image parts then
    let items :=
      filter_map (fun part =>
        match part with
        | Text text _ => Some (PText text)
        | Image _ _ _ _ => Some (PImageUrl (image_url part))
        | _ => None
        end) parts in
    MParts <$> nonempty items
  else
    let text := text_of parts in
    then_some (negb (is_empty text)) (MText text).

Definition tool_message (result : string * list IrPart) : OpenAIChatMessage :=
  let '(call_id, inner) := result in
  let text := text_of inner in
  {| om_role := "tool"; om_content := then_some (negb (is_empty text)) (MText text);
     om_name := None; om_tool_calls := None; om_tool_call_id := Some call_id;
     om_reasoning_content := None |}.

(** What the function pushes. *)
Definition push_user_messages (parts : list IrPart) : list OpenAIChatMessage :=
  let results :=
    filter_map (fun p => match p with
                         | ToolResult call_id _ inner => Some (call_id, inner)
                         | _ => None
                         end) parts in
  let content :=
    filter_map (fun p => match p with ToolResult _ _ _ => None | _ => Some p end) parts in
  match message_content content with
  | Some content => [message "user" (Some content)]
  | None => []
  end ++ map tool_message results.

Definition arguments_string (args : Value) : string :=
  unwrap_or_r "{}" (serde_to_string args).

Definition tool_call_wire (p : IrPart) : option ToolCallWire :=
  match p with
  | ToolCall id name args _ =>
      Some {| tcw_id := id; tcw_type := "function";
              tcw_function := {| fc_name := name; fc_arguments := arguments_string args |} |}
  | _ => None
  end.

(** The last thinking block wins. *)
Definition last_thinking (parts : list IrPart) : option string :=
  list.last (filter_map (fun p => match p with Thinking text _ => Some text | _ => None end) parts).

Definition assistant_message (parts : list IrPart) : OpenAIChatMessage :=
  let content :=
    filter_map (fun p => match p with Text _ _ | Image _ _ _ _ => Some p | _ => None end) parts in
  {| om_role := "assistant";
     om_content := message_content content;
     om_name := None;
     om_tool_calls := nonempty (filter_map tool_call_wire parts);
     om_tool_call_id := None;
     om_reasoning_content := opt_filter (fun r => negb (is_empty r)) (last_thinking parts) |}.

Definition system_message (p : IrPart) : option OpenAIChatMessage :=
  match p with Text text _ => Some (message "system" (Some (MText text))) | _ => None end.

Definition build_message (msg : IrMessage) : list OpenAIChatMessage :=
  match msg_role msg with
  | Assistant => [assistant_message (msg_parts msg)]
  | User => push_user_messages (msg_parts msg)
  end.

Definition tool_wire (tool : IrTool) : OpenAIChatTool :=
  {| ot_type := "function";
     ot_function :=
       {| fd_name := tool_name tool;
          fd_description := then_some (negb (is_empty (tool_description tool))) (tool_description tool);
          fd_parameters := Some (tool_schema tool);
          fd_strict := tool_strict tool |} |}.

Definition tool_choice_value (choice : option IrToolChoice) : option Value :=
  choice ← choice;
  match choice with
  | ChoiceAuto => Some (VString "auto")
  | ChoiceNone => Some (VString "none")
  | ChoiceRequired => Some (VString "required")
  | ChoiceNamed name => Some (obj [("type", str "function"); ("function", obj [("name", str name)])])
  end.

Definition stop_value (stop : list string) : option StopValue :=
  match stop with
  | [] => None
  | [s] => Some (Single s)
  | _ => Some (Multiple stop)
  end.

(** The fields the loop over the taken extras fills in. *)
Record Taken := {
  tk_seed : option Z;
  tk_stream_options : option StreamOptions;
  tk_response_format : option Value;
  tk_n : option Z
}.
Definition take_field (t : Taken) (field : string * Value) : Taken :=
  let '(name, value) := field in
  if decide (name = "seed") then
    {| tk_seed := as_i64 value; tk_stream_options := tk_stream_options t;
       tk_response_format := tk_response_format t; tk_n := tk_n t |}
  else if decide (name = "stream_options") then
    {| tk_seed := tk_seed t; tk_stream_options := ok (from_value value);
       tk_response_format := tk_response_format t; tk_n := tk_n t |}
  else if decide (name = "response_format") then
    {| tk_seed := tk_seed t; tk_stream_options := tk_stream_options t;
       tk_response_format := Some value; tk_n := tk_n t |}
  else if decide (name = "n") then
    {| tk_seed := tk_seed t; tk_stream_options := tk_stream_options t;
       tk_response_format := tk_response_format t; tk_n := as_u32 <$> Json.as_u64 value |}
  else t.

Definition take_fields (fields : list (string * Value)) : Taken :=
  fold_left take_field fields
    {| tk_seed := None; tk_stream_options := None; tk_response_format := None; tk_n := None |}.

Definition build (ir : IrRequest) : OpenAIChatRequest :=
  let s := sampling ir in
  let t := take_fields (fst (take OpenAIChat (extra ir))) in
  {| oq_model := model ir;
     oq_messages := filter_map system_message (system ir) ++ flat_map build_message (messages ir);
     oq_temperature := temperature s;
     oq_top_p := top_p s;
     oq_max_completion_tokens := max_tokens s;
     oq_max_tokens := None;
     oq_stop := stop_value (stop s);
     oq_seed := tk_seed t;
     oq_stream := then_some (stream ir) true;
     oq_stream_options := tk_stream_options t;
     oq_tools := nonempty (map tool_wire (tools ir));
     oq_tool_choice := tool_choice_value (tool_choice ir);
     oq_response_format := tk_response_format t;
     oq_n := tk_n t;
     oq_reasoning_effort :=
       match reasoning ir with
       | Effort effort => Some effort
       | Budget budget =>
           thinking_to_reasoning_effort {| thinking_type := "enabled"; budget_tokens := budget |}
       | Off => None
       end;
     oq_reasoning := None |}.

Definition build_response `{Env} (ir : IrResponse) : Eff OpenAIChatResponse :=
  let parts := resp_parts ir in
  let text_parts :=
    filter_map (fun p => match p with
                         | Text text _ => if is_empty text then None else Some text
                         | _ => None
                         end) parts in
  let usage := resp_usage ir in
  id ← normalize_id_to_chat (default "" (resp_id ir));
  created ← now_unix_secs;
  mret {| or_id := id;
          or_object := "chat.completion";
          or_created := created;
          or_model := resp_model ir;
          or_choices :=
            [{| ch_index := 0;
                ch_message :=
                  {| chm_role := "assistant";
                     chm_content := concat_strings <$> nonempty text_parts;
                     chm_tool_calls := nonempty (filter_map tool_call_wire parts);
                     chm_refusal := None;
                     chm_reasoning_content :=
                       opt_filter (fun r => negb (is_empty r)) (last_thinking parts) |};
                ch_finish_reason := Some (to_openai_chat (resp_stop_reason ir)) |}];
          or_usage :=
            Some {| ou_prompt_tokens := input_tokens usage;
                    ou_completion_tokens := output_tokens usage;
                    ou_total_tokens := total_tokens usage;
                    ou_prompt_tokens_details :=
                      (fun cached => {| cached_tokens := Some cached |}) <$> cache_read_tokens usage |};
          or_system_fingerprint := None |}.
End chat_build.
