(* ===== verification/ChatProps.v ===== *)
(** * What the Chat Completions reader and builder promise *)
From Stdlib Require Import ZArith Lia.
From S2P Require Import Prelude.
From S2P Require Import RustStd.
From S2P Require Import Json.
From S2P Require Import Effects.
From S2P Require Import Concrete.
From S2P Require Import Format.
From S2P Require Import Ir.
From S2P Require Import ClaudeTypes.
From S2P Require Import ChatTypes.
From S2P Require Import Reasoning.
From S2P Require Import Shared.
From S2P Require Import ChatRead.
From S2P Require Import ChatBuild.

Local Open Scope Z_scope.

(** ** Requests: what Chat can say *)

(** An image is inline, stored once, or a URL that is not a data URL. *)
Definition chat_content (p : IrPart) : bool :=
  match p with
  | Text _ None => true
  | Image url media_type (Some _) _ => is_empty url && negb (str_in ";" media_type)
  | Image url media_type None _ => is_empty media_type && negb (starts_with "data:" url)
  | _ => false
  end.
Definition chat_solid (p : IrPart) : bool :=
  chat_content p && match p with Text t _ => negb (is_empty t) | _ => true end.

Definition chat_call (p : IrPart) : bool :=
  match p with ToolCall _ _ args None => wf_value args | _ => false end.

(** Reasoning, then content, then tool calls; several texts without an image
    are one text on this wire. *)
Definition chat_assistant (parts : list IrPart) : Prop :=
  exists thinking content calls, parts = thinking ++ content ++ calls /\
    (thinking = [] \/ exists t, t <> "" /\ thinking = [Thinking t None]) /\
    Forall (fun p => chat_solid p = true) content /\
    (any is_image content = true \/ (length content <= 1)%nat) /\
    Forall (fun p => chat_call p = true) calls.

(** Content, or one tool result with at most one text. *)
Definition chat_user (parts : list IrPart) : Prop :=
  (exists t, t <> "" /\ parts = [Text t None]) \/
  (any is_image parts = true /\ Forall (fun p => chat_content p = true) parts) \/
  (exists call_id, parts = [ToolResult call_id false []]) \/
  (exists call_id t, t <> "" /\ parts = [ToolResult call_id false [Text t None]]).

Definition chat_message (m : IrMessage) : Prop :=
  match msg_role m with
  | Assistant => chat_assistant (msg_parts m)
  | User => chat_user (msg_parts m)
  end.

Definition is_plain (p : IrPart) : Prop := exists t, p = Text t None.

Section chat_props.
Context `{SerdeJson} `{ToValue StreamOptions} `{FromValue StreamOptions}.

(** The extra fields of a Chat request, in the order the reader puts them. *)
Definition chat_extra (x : NamespacedExtra) : Prop :=
  exists seed rf n so,
    x = put_opt OpenAIChat "stream_options" so
          (put_opt OpenAIChat "n" (num <$> n)
             (put_opt OpenAIChat "response_format" rf
                (put_opt OpenAIChat "seed" (num_i64 <$> seed) []))) /\
    match seed with Some z => - 2 ^ 63 <= z <= 2 ^ 63 - 1 | None => True end /\
    match n with Some z => is_u32 z | None => True end /\
    match so with Some v => exists o, from_value v = Ok o /\ to_value o = Ok v | None => True end.

Definition chat_request (ir : IrRequest) : Prop :=
  Forall is_plain (system ir) /\
  Forall chat_message (messages ir) /\
  top_k (sampling ir) = None /\
  match reasoning ir with Budget _ => False | _ => True end /\
  chat_extra (extra ir).

(** *** Images and content *)

Lemma read_image_url p :
  chat_content p = true -> is_image p = true -> image_part (image_url p) = p.
Proof.
  destruct p as [|url mt d de| | | |]; try done. cbn [chat_content image_url]. unfold image_part.
  destruct d as [d|]; intros Hc _; apply andb_prop in Hc as [Hu Hn]; cbn [iu_url iu_detail].
  - destruct url; [|done]. rewrite strip_prefix_app. cbn [option_bind mbind].
    rewrite negb_true_iff in Hn.
    replace (split_once ";base64," (mt +:+ ";base64," +:+ d)) with (Some (mt, d)); [done|].
    symmetry. by apply split_once_first.
  - destruct mt; [|done]. rewrite negb_true_iff in Hn.
    by rewrite strip_prefix_None.
Qed.

(** The parts form of a content list. *)
Definition to_part (p : IrPart) : ContentPart :=
  match p with
  | Text t _ => PText t
  | _ => PImageUrl (image_url p)
  end.

Lemma message_content_parts l :
  any is_image l = true -> Forall (fun p => chat_content p = true) l ->
  message_content l = Some (MParts (map to_part l)).
Proof.
  intros Hi Hl. unfold message_content. rewrite Hi.
  rewrite (filter_map_all _ to_part); [by destruct l|].
  refine (list.Forall_impl _ _ _ Hl _). intros p. by destruct p.
Qed.

Lemma read_to_part p : chat_content p = true -> content_part (to_part p) = p.
Proof.
  intros Hp. destruct p as [t [s|]| | | | |]; try done.
  change (image_part (image_url (Image url media_type data detail)) =
          Image url media_type data detail).
  by apply read_image_url.
Qed.

Lemma read_to_parts l :
  Forall (fun p => chat_content p = true) l -> map content_part (map to_part l) = l.
Proof.
  intros Hl. apply map_inverse. refine (list.Forall_impl _ _ _ Hl _). apply read_to_part.
Qed.

Lemma chat_solid_content l :
  Forall (fun p => chat_solid p = true) l -> Forall (fun p => chat_content p = true) l.
Proof. intros Hl. refine (list.Forall_impl _ _ _ Hl _). by intros p [Hp _]%andb_prop. Qed.

Lemma one_text t : t <> "" -> message_content [Text t None] = Some (MText t).
Proof.
  intros Ht. unfold message_content. cbn. unfold text_of. cbn. rewrite app_nil_r_str.
  by destruct t.
Qed.

Lemma read_tool_call_wire p :
  SerdeJsonLaws -> chat_call p = true ->
  exists w, tool_call_wire p = Some w /\ Some (read_tool_call w) = Some p.
Proof.
  intros L Hp. destruct p as [| |i n a [s|]| | |]; try done. eexists. split; [done|].
  unfold read_tool_call. cbn. do 2 f_equal. by apply parse_arguments_printed.
Qed.

Lemma read_tool_calls l :
  SerdeJsonLaws -> Forall (fun p => chat_call p = true) l ->
  map read_tool_call (default [] (nonempty (filter_map tool_call_wire l))) = l.
Proof.
  intros L Hl. replace (default [] (nonempty (filter_map tool_call_wire l)))
    with (filter_map tool_call_wire l) by by destruct (filter_map tool_call_wire l).
  rewrite <-(filter_map_all (fun w => Some (read_tool_call w)) read_tool_call)
    by by apply list.Forall_true.
  apply filter_map_inverse. refine (list.Forall_impl _ _ _ Hl _). intros p.
  by apply read_tool_call_wire.
Qed.
(** *** Messages *)

Lemma read_build_assistant parts sys out :
  SerdeJsonLaws -> chat_assistant parts ->
  read_message (assistant_message parts) (sys, out) =
    (sys, out ++ [{| msg_role := Assistant; msg_parts := parts |}]).
Proof.
  intros L (th & content & calls & -> & Hth & Hc & Hform & Hcalls).
  assert (Forall (fun p => chat_content p = true) content) as Hc' by by apply chat_solid_content.
  unfold read_message, assistant_message. cbn [om_role om_content om_tool_calls om_reasoning_content].
  rewrite decide_False by naive_solver. rewrite decide_True by done.
  do 3 f_equal. unfold last_thinking. rewrite !filter_map_app.
  assert (forall A (f : IrPart -> option A), (forall i n a, f (ToolCall i n a None) = None) ->
            filter_map f calls = []) as Hcalls_none.
  { intros A f Hf. apply filter_map_none. apply (Forall_weaken _ _ _ Hcalls).
    intros p Hp. by destruct p as [| |i n a [s|]| | |]. }
  assert (forall A (f : IrPart -> option A), (forall t s, f (Text t s) = None) ->
            (forall u m d e, f (Image u m d e) = None) ->
            filter_map f content = []) as Hcontent_none.
  { intros A f Hf Hf'. apply filter_map_none. apply (Forall_weaken _ _ _ Hc').
    intros p Hp. destruct p; try done; auto. }
  assert (forall A (f : IrPart -> option A), (forall t s, f (Thinking t s) = None) ->
            filter_map f th = []) as Hth_none.
  { intros A f Hf. by destruct Hth as [->|(t & _ & ->)]; [|unfold filter_map; cbn; rewrite Hf]. }
  rewrite (Hcalls_none _ (fun p => match p with Text _ _ | Image _ _ _ _ => Some p | _ => None end)),
    (Hth_none _ (fun p => match p with Text _ _ | Image _ _ _ _ => Some p | _ => None end)) by done.
  rewrite (Hth_none _ tool_call_wire), (Hcontent_none _ tool_call_wire) by done.
  rewrite (Hcontent_none _ (fun p => match p with Thinking text _ => Some text | _ => None end)),
    (Hcalls_none _ (fun p => match p with Thinking text _ => Some text | _ => None end)) by done.
  rewrite filter_map_id by (apply (Forall_weaken _ _ _ Hc'); intros p; by destruct p).
  rewrite !app_nil_l, !app_nil_r. unfold assistant_parts.
  rewrite read_tool_calls by done. rewrite !app_assoc. f_equal. f_equal. f_equal.
  - destruct Hth as [->|(t & Ht & ->)]; [done|]. cbn. by destruct t.
  - destruct Hform as [Himg|Hlen].
    + rewrite message_content_parts by done.
      rewrite filter_map_map. apply filter_map_id. apply (Forall_weaken _ _ _ Hc).
      intros p [Hp Hs]%andb_prop. rewrite read_to_part by done.
      destruct p as [t s| | | | |]; try done. cbn. by destruct t.
    + destruct content as [|p [|q l]]; [done| |cbn in Hlen; lia].
      inversion Hc as [|? ? Hp _]; subst. apply andb_prop in Hp as [Hp Hs].
      destruct p as [t [s|]| | | | |]; try done.
      * rewrite one_text by by destruct t. by destruct t.
      * rewrite message_content_parts by done. cbn [map].
        rewrite (filter_map_cons_Some _ _ (Image url media_type data detail)); [done|].
        change (Some (image_part (image_url (Image url media_type data detail))) =
                Some (Image url media_type data detail)).
        by rewrite read_image_url.
Qed.

Lemma read_build_user parts sys out :
  chat_user parts ->
  fold_left (fun acc msg => read_message msg acc) (push_user_messages parts) (sys, out) =
    (sys, out ++ [{| msg_role := User; msg_parts := parts |}]).
Proof.
  intros [(t & Ht & ->)|[[Hi Hp]|[(c & ->)|(c & t & Ht & ->)]]].
  - unfold push_user_messages, filter_map. cbn -[message_content].
    by rewrite one_text.
  - unfold push_user_messages.
    rewrite (filter_map_none (fun p => match p with ToolResult c _ l => Some (c, l) | _ => None end))
      by (apply (Forall_weaken _ _ _ Hp); intros p; by destruct p).
    rewrite filter_map_id by (apply (Forall_weaken _ _ _ Hp); intros p; by destruct p).
    rewrite message_content_parts by done. cbn. by rewrite read_to_parts.
  - done.
  - unfold push_user_messages, tool_message, text_of. unfold filter_map. cbn.
    rewrite app_nil_r_str. destruct t; done.
Qed.

Lemma chat_read_build_messages l sys out :
  SerdeJsonLaws -> Forall chat_message l ->
  fold_left (fun acc msg => read_message msg acc) (flat_map build_message l) (sys, out) =
    (sys, out ++ l).
Proof.
  intros L Hl. revert out. induction Hl as [|[[] parts] l Hm _ IH]; intros out.
  - by rewrite app_nil_r.
  - cbn [flat_map]. unfold build_message at 1. cbn [msg_role msg_parts].
    rewrite fold_left_app, read_build_user by done. by rewrite IH, <-app_assoc.
  - cbn [flat_map]. unfold build_message at 1. cbn [msg_role msg_parts app fold_left].
    rewrite read_build_assistant by done. by rewrite IH, <-app_assoc.
Qed.

Lemma chat_read_build_system l sys out :
  Forall is_plain l ->
  fold_left (fun acc msg => read_message msg acc) (filter_map system_message l) (sys, out) =
    (sys ++ l, out).
Proof.
  intros Hl. revert sys. induction Hl as [|p l (t & ->) _ IH]; intros sys.
  - by rewrite app_nil_r.
  - rewrite (filter_map_cons_Some _ _ (message "system" (Some (MText t)))) by done.
    cbn [fold_left].
    change (read_message (message "system" (Some (MText t))) (sys, out))
      with (sys ++ [Text t None], out).
    rewrite IH. by rewrite <-app_assoc.
Qed.

Lemma chat_read_build_tool t : read_tool (tool_wire t) = t.
Proof. destruct t as [n d s st]. unfold read_tool. cbn. by destruct d. Qed.

Lemma chat_read_build_tool_choice c : read_tool_choice (tool_choice_value c) = c.
Proof. by destruct c as [[]|]. Qed.

Lemma read_build_stop s : default [] (stop_values <$> stop_value s) = s.
Proof. by destruct s as [|a [|b l]]. Qed.
Lemma read_build_extra x :
  chat_extra x ->
  let t := take_fields (fst (take OpenAIChat x)) in
  x = put_opt OpenAIChat "stream_options" (tk_stream_options t ≫= (fun o => ok (to_value o)))
        (put_opt OpenAIChat "n" (num <$> tk_n t)
           (put_opt OpenAIChat "response_format" (tk_response_format t)
              (put_opt OpenAIChat "seed" (num_i64 <$> tk_seed t) []))).
Proof.
  intros (seed & rf & n & so & -> & Hs & Hn & Hso).
  destruct seed as [z|], rf as [v|], n as [m|], so as [o|];
    try (destruct Hso as (o' & Hf & Ht));
    cbv -[num_i64 num as_i64 Json.as_u64 as_u32 from_value to_value];
    rewrite ?as_i64_num_i64 by done;  cbn [Json.as_u64 num]; rewrite ?as_u32_id by done; rewrite ?Hf; rewrite ?Ht; reflexivity.
Qed.

Lemma chat_read_build `{!SerdeJsonLaws} (ir : IrRequest) :
  chat_request ir -> read (build ir) = ir.
Proof.
  destruct ir as [mdl sys msgs tls choice [mt temp tp tk stops] strm reas ext].
  intros (Hsys & Hmsg & Htk & Hr & Hx). simpl in *. subst tk.
  unfold read, build. cbn [oq_messages oq_model oq_tools oq_tool_choice oq_stop oq_stream
    oq_reasoning_effort oq_reasoning oq_max_completion_tokens oq_max_tokens oq_temperature
    oq_top_p oq_seed oq_response_format oq_n oq_stream_options model system messages tools
    tool_choice sampling stream reasoning extra max_tokens temperature top_p stop].
  rewrite fold_left_app, chat_read_build_system, chat_read_build_messages by done. cbn [app].
  f_equal.
  - rewrite default_nonempty. apply map_inverse, list.Forall_true. intros t. apply chat_read_build_tool.
  - apply chat_read_build_tool_choice.
  - f_equal; [by destruct mt|apply read_build_stop].
  - by destruct strm.
  - by destruct reas.
  - symmetry. by apply read_build_extra.
Qed.

(** C5: a request survives Chat's wire. Every request of the intermediate
    representation that Chat can express is written by the builder and read
    back unchanged: system prompts, user turns with images, assistant turns
    with reasoning and tool calls, tool results, tools with their strictness,
    tool choice, sampling, effort, and the extra fields [seed],
    [response_format], [n] and [stream_options]. *)
Theorem chat_request_roundtrip `{!SerdeJsonLaws} (ir : IrRequest) :
  chat_request ir -> read (build ir) = ir.
Proof. apply chat_read_build. Qed.
End chat_props.

(** Serializers of [StreamOptions] for the witnesses. *)
Definition sample_options_to : ToValue StreamOptions := fun o =>
  Ok (match include_usage o with Some b => obj [("include_usage", VBool b)] | None => obj [] end).
Definition sample_options_from : FromValue StreamOptions := fun v =>
  Ok {| include_usage := get_key "include_usage" v ≫= as_bool |}.

Definition sample_request : IrRequest :=
  {| model := "gpt";
     system := [Text "be brief" None];
     messages :=
       [{| msg_role := User;
           msg_parts := [Text "look" None; Image "" "image/png" (Some "AA==") (Some "low")] |};
        {| msg_role := Assistant;
           msg_parts := [Thinking "hm" None] ++ [Text "calling" None] ++
                        [ToolCall "t1" "f" (obj [("x", num 1)]) None] |};
        {| msg_role := User; msg_parts := [ToolResult "t1" false [Text "ok" None]] |}];
     tools := [{| tool_name := "f"; tool_description := "d"; tool_schema := obj [];
                  tool_strict := Some true |}];
     tool_choice := Some (ChoiceNamed "f");
     sampling := {| max_tokens := Some 2048; temperature := Some f32_one; top_p := None;
                    top_k := None; stop := ["END"] |};
     stream := true;
     reasoning := Effort "low";
     extra := [(OpenAIChat, "seed", num_i64 7);
               (OpenAIChat, "stream_options", obj [("include_usage", VBool true)])] |}.

Lemma chat_request_roundtrip_witness :
  @read _ sample_options_to (@build _ sample_options_from sample_request) = sample_request.
Proof.
  apply chat_request_roundtrip. unfold chat_request. cbn [system messages sampling reasoning top_k extra sample_request].
  split_and!; try done.
  - repeat constructor. by eexists.
  - apply List.Forall_cons; [|apply List.Forall_cons; [|apply List.Forall_cons; [|done]]].
    + right; left. split; [reflexivity|by repeat constructor].
    + exists [Thinking "hm" None], [Text "calling" None], [ToolCall "t1" "f" (obj [("x", num 1)]) None].
      split_and!; [done|right; by exists "hm"|by repeat constructor|right; simpl; lia|by repeat constructor].
    + do 3 right. by exists "t1", "ok".
  - exists (Some 7), None, None, (Some (obj [("include_usage", VBool true)])).
    split_and!; try done. by exists {| include_usage := Some true |}.
Defined.

(** ** Responses *)

Definition chat_response (ir : IrResponse) : Prop :=
  (exists id, resp_id ir = Some id /\ starts_with "chatcmpl-" id = true) /\
  (exists text thinking calls,
     resp_parts ir = text ++ thinking ++ calls /\
     (text = [] \/ exists t, t <> "" /\ text = [Text t None]) /\
     (thinking = [] \/ exists t, t <> "" /\ thinking = [Thinking t None]) /\
     Forall (fun p => chat_call p = true) calls) /\
  resp_stop_reason ir <> StopSequence /\ resp_stop_sequence ir = None /\
  cache_write_tokens (resp_usage ir) = None /\ cache_write_1h (resp_usage ir) = None /\
  reasoning_tokens (resp_usage ir) = None.

Lemma from_to_chat r :
  from_openai_chat (to_openai_chat r) = if decide (r = StopSequence) then EndTurn else r.
Proof. by destruct r. Qed.

(** A response survives Chat's wire: its identifier, text, reasoning, tool
    calls with their arguments, finish reason and token counts (the cached ones
    too) are read back as they were; the only effect is one reading of the
    clock, for [created]. *)
Theorem chat_response_roundtrip `{SerdeJson} `{!SerdeJsonLaws} `{Env} (ir : IrResponse) (w : World) :
  chat_response ir ->
  exists wire, build_response ir w =
      (wire, {| uuids_drawn := uuids_drawn w; clock_reads := S (clock_reads w) |}) /\
    or_created wire = unix_secs (clock_reads w) /\
    read_response wire = ir.
Proof.
  destruct ir as [id m parts sr ss [ti tokens cr cw c1 rt]]. unfold chat_response. simpl.
  intros ((id' & -> & Hid) & (text & thinking & calls & -> & Ht & Hth & Hc) & Hsr & -> & -> & -> & ->).
  eexists. split; [|split].
  - unfold build_response, normalize_id_to_chat. simpl.
    rewrite Hid. replace (is_empty id') with false by by destruct id'.
    unfold now_unix_secs, read_clock. eff_unfold. reflexivity.
  - reflexivity.
  - unfold read_response. cbn [or_id or_choices ch_message chm_content chm_reasoning_content
      chm_tool_calls ch_finish_reason or_model or_usage].
    f_equal.
    + by destruct id'.
    + unfold last_thinking. rewrite !filter_map_app.
      assert (forall A (f : IrPart -> option A), (forall i n a, f (ToolCall i n a None) = None) ->
                filter_map f calls = []) as Hnone.
      { intros A f Hf. apply filter_map_none. apply (Forall_weaken _ _ _ Hc).
        intros p Hp. by destruct p as [| |i n a [s|]| | |]. }
      rewrite (Hnone _ (fun p => match p with Text text _ => if is_empty text then None else Some text | _ => None end)),
        (Hnone _ (fun p => match p with Thinking text _ => Some text | _ => None end)) by done.
      assert (filter_map tool_call_wire text = []) as -> by by destruct Ht as [->|(t & _ & ->)].
      assert (filter_map tool_call_wire thinking = []) as -> by by destruct Hth as [->|(t & _ & ->)].
      rewrite !app_nil_l, !app_nil_r, read_tool_calls by done. rewrite !app_assoc. f_equal.
      destruct Ht as [->|(t & Ht & ->)], Hth as [->|(t' & Ht' & ->)]; unfold filter_map; cbn;
        try destruct t; try destruct t'; cbn; rewrite ?app_nil_r_str; done.
    + cbn. rewrite from_to_chat. by rewrite decide_False.
    + by destruct cr.
Qed.

Lemma chat_response_roundtrip_witness :
  let ir := {| resp_id := Some "chatcmpl-1"; resp_model := "m";
               resp_parts := [Text "hi" None] ++ [] ++ [ToolCall "t" "f" (obj [("a", VNull)]) None];
               resp_stop_reason := ToolUse; resp_stop_sequence := None;
               resp_usage := {| input_tokens := 3; output_tokens := 4; cache_read_tokens := Some 1;
                                cache_write_tokens := None; cache_write_1h := None;
                                reasoning_tokens := None |} |} in
  exists wire, fst (@build_response _ sample_env ir world0) = wire /\ read_response wire = ir.
Proof.
  intros ir. destruct (@chat_response_roundtrip _ _ sample_env ir world0) as (wire & E & _ & R).
  - split_and!; try done; [by exists "chatcmpl-1"|].
    exists [Text "hi" None], [], [ToolCall "t" "f" (obj [("a", VNull)]) None].
    split_and!; [done|right; by exists "hi"|by left|by repeat constructor].
  - exists wire. by rewrite E.
Defined.

(** ** Opaque material of other vendors *)

Lemma filter_map_redact_map {A} (f : IrPart -> option A) (g : A -> A) t l :
  (forall p, f (redact t p) = g <$> f p) -> filter_map f (map (redact t) l) = map g (filter_map f l).
Proof.
  intros Hf. induction l as [|p l IH]; [done|]. cbn [map]. rewrite !filter_map_cons, Hf, IH.
  by destruct (f p).
Qed.

Lemma text_of_redact t l : text_of (map (redact t) l) = text_of l.
Proof.
  unfold text_of. rewrite filter_map_redact; [done|]. apply list.Forall_true. by intros [].
Qed.

Lemma message_content_redact t l : message_content (map (redact t) l) = message_content l.
Proof.
  unfold message_content. rewrite text_of_redact, filter_map_redact.
  - assert (any is_image (map (redact t) l) = any is_image l) as ->; [|done].
    induction l as [|p l IH]; [done|]. simpl. rewrite IH. by destruct p.
  - apply list.Forall_true. by intros [].
Qed.

Lemma assistant_message_redact `{SerdeJson} t l :
  assistant_message (map (redact t) l) = assistant_message l.
Proof.
  unfold assistant_message, last_thinking.
  rewrite (filter_map_redact_map _ (redact t)) by by intros [].
  rewrite message_content_redact, !filter_map_redact; [done| |];
    apply list.Forall_true; by intros [].
Qed.

Lemma push_user_messages_redact t l :
  push_user_messages (map (redact t) l) = push_user_messages l.
Proof.
  unfold push_user_messages.
  rewrite (filter_map_redact_map _ (redact t)) by by intros [].
  rewrite message_content_redact.
  rewrite (filter_map_redact_map _ (fun '(c, i) => (c, map (redact t) i))) by by intros [].
  f_equal. rewrite map_map. apply map_ext. intros [c i]. unfold tool_message. cbn.
  by rewrite text_of_redact.
Qed.

(** No signature and no sealed payload reaches a Chat upstream. What the
    Chat builder writes is the same whatever other vendors signed or sealed,
    at any depth of the request. *)
Theorem chat_build_redacts `{SerdeJson} `{FromValue StreamOptions} (t : Format) (ir : IrRequest) :
  build (redact_request t ir) = build ir.
Proof.
  unfold build, redact_request. simpl. f_equal. f_equal.
  - apply filter_map_redact, list.Forall_true. by intros [].
  - induction (messages ir) as [|[role parts] l IH]; [done|]. simpl. rewrite IH. f_equal.
    unfold build_message, redact_message. cbn [msg_role msg_parts].
    destruct role; [apply push_user_messages_redact|by rewrite assistant_message_redact].
Qed.

(** ** Tool results and the turn they belong to *)

(** Every [tool] message follows the assistant message with the calls, or
    another [tool] message: what the Chat API requires. *)
Fixpoint tool_messages_follow (prev : bool) (l : list OpenAIChatMessage) : bool :=
  match l with
  | [] => true
  | m :: l =>
      if decide (om_role m = "tool") then prev && tool_messages_follow true l
      else tool_messages_follow (is_some (om_tool_calls m)) l
  end.

(** A finding about tool results. When a user turn answers a tool call and
    says something too, the builder writes the user's words between the
    assistant's tool calls and the tool message that answers them, which the
    Chat API rejects; a turn of tool results alone is written in order. *)
Theorem chat_tool_results_misplaced `{SerdeJson} `{FromValue StreamOptions}
  (ir : IrRequest) (id name t r : string) (args : Value) :
  messages ir =
    [{| msg_role := Assistant; msg_parts := [ToolCall id name args None] |};
     {| msg_role := User; msg_parts := [ToolResult id false [Text r None]; Text t None] |}] ->
  system ir = [] -> t <> "" ->
  map om_role (oq_messages (build ir)) = ["assistant"; "user"; "tool"] /\
  tool_messages_follow false (oq_messages (build ir)) = false /\
  (forall results,
     tool_messages_follow true
       (push_user_messages (map (fun '(c, e, l) => ToolResult c e l) results)) = true).
Proof.
  intros Hm Hs Ht. unfold build. cbn [oq_messages]. rewrite Hm, Hs.
  assert (push_user_messages [ToolResult id false [Text r None]; Text t None] =
          [message "user" (Some (MText t)); tool_message (id, [Text r None])]) as E.
  { unfold push_user_messages, filter_map. cbn -[message_content tool_message].
    unfold message_content. cbn. unfold text_of. cbn. rewrite app_nil_r_str. by destruct t. }
  split_and!.
  - cbn [filter_map flat_map build_message msg_role msg_parts]. rewrite E. done.
  - cbn [filter_map flat_map build_message msg_role msg_parts]. rewrite E. done.
  - intros results. unfold push_user_messages.
    rewrite (filter_map_none (fun p => match p with ToolResult _ _ _ => None | _ => Some p end)).
    + cbn [message_content any is_image existsb text_of filter_map concat_strings foldr].
      generalize (filter_map (fun p => match p with ToolResult c _ i => Some (c, i) | _ => None end)
                    (map (fun '(c, e, l) => ToolResult c e l) results)).
      intros l. cbn. by induction l as [|[c i] l IH].
    + apply Forall_fmap, list.Forall_true. by intros [[c e] l].
Qed.

Lemma chat_tool_results_misplaced_witness :
  let ir := {| model := "m"; system := [];
               messages :=
                 [{| msg_role := Assistant; msg_parts := [ToolCall "t1" "f" (obj []) None] |};
                  {| msg_role := User;
                     msg_parts := [ToolResult "t1" false [Text "42" None]; Text "go on" None] |}];
               tools := []; tool_choice := None; sampling := Sampling_default; stream := false;
               reasoning := Off; extra := [] |} in
  map om_role (oq_messages (@build _ sample_options_from ir)) = ["assistant"; "user"; "tool"].
Proof.
  intros ir.
  apply (@chat_tool_results_misplaced _ sample_options_from ir "t1" "f" "go on" "42" (obj []));
    [reflexivity|reflexivity|discriminate].
Defined.
