(* ===== verification/ChatStream.v ===== *)
(** * The Chat Completions stream adapter

    [formats/openai_chat/stream.rs]. *)
From Stdlib Require Import ZArith.
From S2P Require Import Prelude.
From S2P Require Import RustStd.
From S2P Require Import Json.
From S2P Require Import Effects.
From S2P Require Import Format.
From S2P Require Import Ir.
From S2P Require Import Sse.
From S2P Require Import Shared.
From S2P Require Import ChatTypes.
From S2P Require Import Adapter.

Local Open Scope Z_scope.

Section chat_stream.
Context `{Env}.
Context `{Deserialize OpenAIChatStreamChunk} `{Serialize OpenAIChatStreamChunk}.

(** One entry of a chunk's [tool_calls]. *)
Definition parse_tool_call (tc : StreamToolCall) : list CanonicalStreamEvent :=
  match (id ← stc_id tc; func ← stc_function tc; name ← sfc_name func; Some (id, name)) with
  | Some (id, name) => [ToolCallStart (stc_index tc) id name None]
  | None => []
  end ++
  match (func ← stc_function tc; sfc_arguments func) with
  | Some args => if is_empty args then [] else [ToolCallDelta (stc_index tc) args]
  | None => []
  end.

Definition finish_reason_of (finish_reason : string) : StopReason :=
  if decide (finish_reason = "stop") then EndTurn else
  if decide (finish_reason = "length") then MaxTokens else
  if decide (finish_reason = "tool_calls") then ToolUse else
  if decide (finish_reason = "content_filter") then ContentFilter else
  EndTurn.

(** One iteration of the loop over [chunk.choices]. *)
Definition parse_choice (choice : StreamChoice) : Stream (list CanonicalStreamEvent) :=
  let delta := sc_delta choice in
  text ← match opt_filter (fun c => negb (is_empty c)) (d_content delta) with
         | Some content => _ ← st_modify (set_phase PhaseContent); mret [TextDelta content]
         | None => mret []
         end;
  let thinking :=
    match opt_filter (fun c => negb (is_empty c)) (d_reasoning_content delta) with
    | Some reasoning => [ThinkingDelta reasoning]
    | None => []
    end in
  tools ← match d_tool_calls delta with
          | Some tool_calls =>
              _ ← st_modify (set_phase PhaseToolCalls);
              mret (flat_map parse_tool_call tool_calls)
          | None => mret []
          end;
  _ ← match sc_finish_reason choice with
      | Some finish_reason => st_modify (set_finish_reason (Some (finish_reason_of finish_reason)))
      | None => mret tt
      end;
  mret (text ++ thinking ++ tools).

Definition chat_parse (e : SseEvent) : Stream (list CanonicalStreamEvent) :=
  if is_openai_done (data e) then
    _ ← st_modify (fun st => set_phase PhaseDone (set_done_ true st));
    st ← st_gets (fun st => st);
    let stop_reason :=
      match accumulated_tool_calls st with
      | [] => default EndTurn (finish_reason st)
      | _ :: _ => ToolUse
      end in
    mret [Done stop_reason (accumulated_usage st)]
  else
    chunk ← lift (map_err SseParse (from_json (T := OpenAIChatStreamChunk) (data e)));
    st ← st_gets (fun st => st);
    start ← match response_id st with
            | None =>
                _ ← st_modify (fun st =>
                      set_st_model (Some (ck_model chunk)) (set_response_id (Some (ck_id chunk)) st));
                mret [Start (ck_id chunk) (ck_model chunk)]
            | Some _ => mret []
            end;
    _ ← match ck_usage chunk with
        | Some usage =>
            st_modify (set_accumulated_usage (Some
              {| input_tokens := ou_prompt_tokens usage;
                 output_tokens := ou_completion_tokens usage;
                 cache_read_tokens := ou_prompt_tokens_details usage ≫= cached_tokens;
                 cache_write_tokens := None;
                 cache_write_1h := None;
                 reasoning_tokens := None |}))
        | None => mret tt
        end;
    events ← run_all parse_choice (ck_choices chunk);
    mret (start ++ events).

Definition stream_ids : Stream (string * string) :=
  st ← st_gets (fun st => st);
  id ← lift_eff (match response_id st with
                 | Some id => normalize_id_to_chat id
                 | None => new_chat_id
                 end);
  mret (id, default "gpt-4o" (st_model st)).

Definition make_stream_chunk (id model : string) (delta : Delta) (finish_reason : option string)
  (usage : option OpenAIUsage) : Stream string :=
  created ← lift_eff now_unix_secs;
  mret (unwrap_or_r "" (to_json
    {| ck_id := id;
       ck_object := "chat.completion.chunk";
       ck_created := created;
       ck_model := model;
       ck_choices := [{| sc_index := 0; sc_delta := delta; sc_finish_reason := finish_reason |}];
       ck_usage := usage |})).

Definition no_delta : Delta :=
  {| d_role := None; d_content := None; d_reasoning_content := None; d_tool_calls := None |}.
Definition text_delta (text : string) : Delta :=
  {| d_role := None; d_content := Some text; d_reasoning_content := None; d_tool_calls := None |}.
Definition thinking_delta (text : string) : Delta :=
  {| d_role := None; d_content := None; d_reasoning_content := Some text; d_tool_calls := None |}.
Definition tool_delta (tc : StreamToolCall) : Delta :=
  {| d_role := None; d_content := None; d_reasoning_content := None; d_tool_calls := Some [tc] |}.
Definition role_delta : Delta :=
  {| d_role := Some "assistant"; d_content := None; d_reasoning_content := None;
     d_tool_calls := None |}.

(** The arms that write one chunk with a delta. *)
Definition emit_delta (delta : Delta) : Stream (list string) :=
  '(id, model) ← stream_ids;
  chunk ← make_stream_chunk id model delta None None;
  mret [format_sse_data chunk].

Definition chat_emit (e : CanonicalStreamEvent) : Stream (list string) :=
  match e with
  | ThinkingSignature _ _ | SealedThinking _ _ => mret []
  | Start id model =>
      _ ← st_modify (fun st => set_st_model (Some model) (set_response_id (Some id) st));
      chunk ← make_stream_chunk id model role_delta None None;
      mret [format_sse_data chunk]
  | TextDelta text => emit_delta (text_delta text)
  | ToolCallStart index id name _ =>
      emit_delta (tool_delta
        {| stc_index := index; stc_id := Some id; stc_type := Some "function";
           stc_function := Some {| sfc_name := Some name; sfc_arguments := None |} |})
  | ToolCallDelta index arguments_delta =>
      emit_delta (tool_delta
        {| stc_index := index; stc_id := None; stc_type := None;
           stc_function := Some {| sfc_name := None; sfc_arguments := Some arguments_delta |} |})
  | ThinkingDelta thinking => emit_delta (thinking_delta thinking)
  | Done stop_reason usage =>
      '(id, model) ← stream_ids;
      _ ← st_modify (fun st => set_phase PhaseDone (set_done_ true st));
      _ ← match usage with
          | Some u => st_modify (set_accumulated_usage (Some u))
          | None => mret tt
          end;
      finish_chunk ← make_stream_chunk id model no_delta (Some (to_openai_chat stop_reason))
        ((fun u => {| ou_prompt_tokens := input_tokens u;
                      ou_completion_tokens := output_tokens u;
                      ou_total_tokens := u64_add (input_tokens u) (output_tokens u);
                      ou_prompt_tokens_details := None |}) <$> usage);
      mret [format_sse_data finish_chunk; format_sse_data "[DONE]"]
  end.

Definition OpenAIChatStreamAdapter : StreamAdapter :=
  {| parse_sse_event := chat_parse; emit_sse_event := chat_emit |}.
End chat_stream.
