(* ===== verification/ConcreteWire.v ===== *)
(** * Concrete serializers for the wire structs

    For the witnesses: every wire struct is countable, so the printer of
    [Concrete.v] serializes it. *)
From Stdlib Require Import ZArith.
From stdpp Require Import countable.
From S2P Require Import Prelude.
From S2P Require Import RustStd.
From S2P Require Import Json.
From S2P Require Import Sse.
From S2P Require Import Concrete.
From S2P Require Import ChatTypes.
From S2P Require Import GeminiTypes.
From S2P Require Import Adapter.

Section wire.
Context `{Countable T}.
Definition wire_to_json : Serialize T := fun t => Ok (binary_print t).
Definition wire_from_json : Deserialize T := binary_parse.

Lemma wire_struct_json (wf : T -> Prop) : @StructJson T wire_to_json wire_from_json wf.
Proof.
  intros t _. exists (binary_print t). split_and!.
  - done.
  - apply binary_roundtrip.
  - apply digits_wire.
  - apply digits_not_done.
Qed.
End wire.

(** Equality and codes of a record, through a tuple of its fields. *)
Ltac record_eq := solve_decision.
Ltac record_code f g := refine (inj_countable' f g _); by intros [].

#[export] Instance PromptTokensDetails_eq : EqDecision PromptTokensDetails.
Proof. record_eq. Defined.
#[export] Instance PromptTokensDetails_countable : Countable PromptTokensDetails.
Proof. record_code cached_tokens (fun c => {| cached_tokens := c |}). Defined.

#[export] Instance OpenAIUsage_eq : EqDecision OpenAIUsage.
Proof. record_eq. Defined.
#[export] Instance OpenAIUsage_countable : Countable OpenAIUsage.
Proof.
  record_code
    (fun u => (ou_prompt_tokens u, ou_completion_tokens u, ou_total_tokens u, ou_prompt_tokens_details u))
    (fun '(a, b, c, d) => {| ou_prompt_tokens := a; ou_completion_tokens := b; ou_total_tokens := c;
                             ou_prompt_tokens_details := d |}).
Defined.

#[export] Instance StreamFunctionCall_eq : EqDecision StreamFunctionCall.
Proof. record_eq. Defined.
#[export] Instance StreamFunctionCall_countable : Countable StreamFunctionCall.
Proof.
  record_code (fun f => (sfc_name f, sfc_arguments f))
    (fun '(a, b) => {| sfc_name := a; sfc_arguments := b |}).
Defined.

#[export] Instance StreamToolCall_eq : EqDecision StreamToolCall.
Proof. record_eq. Defined.
#[export] Instance StreamToolCall_countable : Countable StreamToolCall.
Proof.
  record_code (fun t => (stc_index t, stc_id t, stc_type t, stc_function t))
    (fun '(a, b, c, d) => {| stc_index := a; stc_id := b; stc_type := c; stc_function := d |}).
Defined.

#[export] Instance Delta_eq : EqDecision Delta.
Proof. record_eq. Defined.
#[export] Instance Delta_countable : Countable Delta.
Proof.
  record_code (fun d => (d_role d, d_content d, d_reasoning_content d, d_tool_calls d))
    (fun '(a, b, c, d) => {| d_role := a; d_content := b; d_reasoning_content := c; d_tool_calls := d |}).
Defined.

#[export] Instance StreamChoice_eq : EqDecision StreamChoice.
Proof. record_eq. Defined.
#[export] Instance StreamChoice_countable : Countable StreamChoice.
Proof.
  record_code (fun c => (sc_index c, sc_delta c, sc_finish_reason c))
    (fun '(a, b, c) => {| sc_index := a; sc_delta := b; sc_finish_reason := c |}).
Defined.

#[export] Instance OpenAIChatStreamChunk_eq : EqDecision OpenAIChatStreamChunk.
Proof. record_eq. Defined.
#[export] Instance OpenAIChatStreamChunk_countable : Countable OpenAIChatStreamChunk.
Proof.
  record_code
    (fun c => (ck_id c, ck_object c, ck_created c, ck_model c, ck_choices c, ck_usage c))
    (fun '(a, b, c, d, e, f) =>
       {| ck_id := a; ck_object := b; ck_created := c; ck_model := d; ck_choices := e; ck_usage := f |}).
Defined.

#[export] Instance GeminiInlineData_eq : EqDecision GeminiInlineData.
Proof. record_eq. Defined.
#[export] Instance GeminiInlineData_countable : Countable GeminiInlineData.
Proof.
  record_code (fun d => (id_mime_type d, id_data d))
    (fun '(a, b) => {| id_mime_type := a; id_data := b |}).
Defined.

#[export] Instance GeminiFunctionCall_eq : EqDecision GeminiFunctionCall.
Proof. record_eq. Defined.
#[export] Instance GeminiFunctionCall_countable : Countable GeminiFunctionCall.
Proof.
  record_code (fun d => (gfc_name d, gfc_args d, gfc_id d))
    (fun '(a, b, c) => {| gfc_name := a; gfc_args := b; gfc_id := c |}).
Defined.

#[export] Instance GeminiFunctionResponse_eq : EqDecision GeminiFunctionResponse.
Proof. record_eq. Defined.
#[export] Instance GeminiFunctionResponse_countable : Countable GeminiFunctionResponse.
Proof.
  record_code (fun d => (gfr_name d, gfr_response d, gfr_id d))
    (fun '(a, b, c) => {| gfr_name := a; gfr_response := b; gfr_id := c |}).
Defined.

#[export] Instance GeminiPart_eq : EqDecision GeminiPart.
Proof. record_eq. Defined.
#[export] Instance GeminiPart_countable : Countable GeminiPart.
Proof.
  record_code
    (fun p => (gp_text p, gp_thought p, gp_thought_signature p, gp_inline_data p,
               gp_function_call p, gp_function_response p))
    (fun '(a, b, c, d, e, f) =>
       {| gp_text := a; gp_thought := b; gp_thought_signature := c; gp_inline_data := d;
          gp_function_call := e; gp_function_response := f |}).
Defined.

#[export] Instance GeminiContent_eq : EqDecision GeminiContent.
Proof. record_eq. Defined.
#[export] Instance GeminiContent_countable : Countable GeminiContent.
Proof.
  record_code (fun c => (gc_role c, gc_parts c)) (fun '(a, b) => {| gc_role := a; gc_parts := b |}).
Defined.

#[export] Instance GeminiUsageMetadata_eq : EqDecision GeminiUsageMetadata.
Proof. record_eq. Defined.
#[export] Instance GeminiUsageMetadata_countable : Countable GeminiUsageMetadata.
Proof.
  record_code (fun u => (prompt_token_count u, candidates_token_count u, total_token_count u))
    (fun '(a, b, c) => {| prompt_token_count := a; candidates_token_count := b; total_token_count := c |}).
Defined.

#[export] Instance GeminiCandidate_eq : EqDecision GeminiCandidate.
Proof. record_eq. Defined.
#[export] Instance GeminiCandidate_countable : Countable GeminiCandidate.
Proof.
  record_code (fun c => (cand_content c, cand_finish_reason c, cand_index c))
    (fun '(a, b, c) => {| cand_content := a; cand_finish_reason := b; cand_index := c |}).
Defined.

#[export] Instance GeminiResponse_eq : EqDecision GeminiResponse.
Proof. record_eq. Defined.
#[export] Instance GeminiResponse_countable : Countable GeminiResponse.
Proof.
  record_code (fun r => (candidates r, usage_metadata r, model_version r))
    (fun '(a, b, c) => {| candidates := a; usage_metadata := b; model_version := c |}).
Defined.
