(* ===== verification/ChatStreamProps.v ===== *)
(** * What the Chat Completions stream adapter promises *)
From Stdlib Require Import ZArith Lia.
From S2P Require Import Prelude.
From S2P Require Import RustStd.
From S2P Require Import Json.
From S2P Require Import Effects.
From S2P Require Import Format.
From S2P Require Import Ir.
From S2P Require Import Sse.
From S2P Require Import Concrete.
From S2P Require Import Shared.
From S2P Require Import ChatTypes.
From S2P Require Import Adapter.
From S2P Require Import ConcreteWire.
From S2P Require Import ChatStream.

Local Open Scope Z_scope.

(** The numbers of a chunk are in range. *)
Definition wf_chat_usage (u : OpenAIUsage) : Prop :=
  is_u64 (ou_prompt_tokens u) /\ is_u64 (ou_completion_tokens u) /\ is_u64 (ou_total_tokens u) /\
  match ou_prompt_tokens_details u with
  | Some d => match cached_tokens d with Some c => is_u64 c | None => True end
  | None => True
  end.
Definition wf_chunk (c : OpenAIChatStreamChunk) : Prop :=
  is_u64 (ck_created c) /\
  Forall (fun ch => is_u32 (sc_index ch) /\
    match d_tool_calls (sc_delta ch) with
    | Some l => Forall (fun tc => is_u32 (stc_index tc)) l
    | None => True
    end) (ck_choices c) /\
  match ck_usage c with Some u => wf_chat_usage u | None => True end.

(** The events a Chat stream can carry between its start and its end. *)
Definition chat_event (e : CanonicalStreamEvent) : Prop :=
  match e with
  | TextDelta t | ThinkingDelta t => t <> ""
  | ToolCallStart i _ _ s => is_u32 i /\ s = None
  | ToolCallDelta i a => is_u32 i /\ a <> ""
  | _ => False
  end.

(** What a usage keeps on the stream: the two counts. *)
Definition stream_usage (u : Usage) : Usage :=
  {| input_tokens := input_tokens u; output_tokens := output_tokens u;
     cache_read_tokens := None; cache_write_tokens := None; cache_write_1h := None;
     reasoning_tokens := None |}.

Section chat_stream_props.
Context `{Env} `{!EnvLaws}.
Context `{Serialize OpenAIChatStreamChunk} `{Deserialize OpenAIChatStreamChunk}
  `{!StructJson OpenAIChatStreamChunk wf_chunk}.

Lemma make_chunk_ok id model delta fr us st w :
  match d_tool_calls delta with
  | Some l => Forall (fun tc => is_u32 (stc_index tc)) l
  | None => True
  end ->
  match us with Some u => wf_chat_usage u | None => True end ->
  exists s created w', make_stream_chunk id model delta fr us (st, w) = (Ok s, (st, w')) /\
    from_json s = Ok {| ck_id := id; ck_object := "chat.completion.chunk"; ck_created := created;
                        ck_model := model;
                        ck_choices := [{| sc_index := 0; sc_delta := delta;
                                          sc_finish_reason := fr |}];
                        ck_usage := us |} /\
    wire_field s = true /\ is_openai_done s = false.
Proof using All.
  intros Hd Hu. unfold make_stream_chunk. monad_unfold. cbn.
  unfold now_unix_secs, read_clock. eff_unfold. cbn.
  destruct (struct_roundtrip (wf := wf_chunk)
    {| ck_id := id; ck_object := "chat.completion.chunk";
       ck_created := unix_secs (clock_reads w); ck_model := model;
       ck_choices := [{| sc_index := 0; sc_delta := delta; sc_finish_reason := fr |}];
       ck_usage := us |}) as (s & Hs & Hf & Hw & Hn).
  - split_and!; cbn; [apply unix_secs_u64| |done].
    repeat constructor; cbn; done.
  - rewrite Hs. by eexists s, _, _.
Qed.

(** The parser between the first chunk and [[DONE]]. *)
Definition in_stream (sp : StreamState) : Prop :=
  response_id sp <> None /\ accumulated_tool_calls sp = [] /\
  accumulated_usage sp = None /\ finish_reason sp = None.

(** A chunk with one delta, and what it parses to. *)
Definition delta_events (d : Delta) : list CanonicalStreamEvent :=
  match d_content d with Some t => [TextDelta t] | None => [] end ++
  match d_reasoning_content d with Some t => [ThinkingDelta t] | None => [] end ++
  match d_tool_calls d with Some l => flat_map parse_tool_call l | None => [] end.

Definition solid_delta (d : Delta) : Prop :=
  d_content d <> Some "" /\ d_reasoning_content d <> Some "".

Lemma solid_filter (o : option string) :
  o <> Some "" -> opt_filter (fun c => negb (is_empty c)) o = o.
Proof. by destruct o as [[]|]. Qed.

Lemma parse_choice_ok d fr st w :
  solid_delta d ->
  exists st', parse_choice {| sc_index := 0; sc_delta := d; sc_finish_reason := fr |} (st, w) =
      (Ok (delta_events d), (st', w)) /\
    response_id st' = response_id st /\
    accumulated_tool_calls st' = accumulated_tool_calls st /\
    accumulated_usage st' = accumulated_usage st /\
    finish_reason st' = match fr with Some r => Some (finish_reason_of r) | None => finish_reason st end.
Proof.
  intros [Hc Hr]. unfold parse_choice. cbn [sc_delta sc_finish_reason].
  rewrite !solid_filter by done. unfold delta_events. monad_unfold.
  destruct (d_content d), (d_reasoning_content d), (d_tool_calls d), fr; cbn;
    eexists; split_and!; reflexivity.
Qed.

Lemma parse_chunk_ok s id model d fr created sp w :
  from_json s = Ok {| ck_id := id; ck_object := "chat.completion.chunk"; ck_created := created;
                      ck_model := model;
                      ck_choices := [{| sc_index := 0; sc_delta := d; sc_finish_reason := fr |}];
                      ck_usage := None |} ->
  is_openai_done s = false -> solid_delta d ->
  exists sp', chat_parse {| event := None; data := s |} (sp, w) =
      (Ok (match response_id sp with None => [Start id model] | Some _ => [] end ++ delta_events d),
       (sp', w)) /\
    response_id sp' <> None /\
    accumulated_tool_calls sp' = accumulated_tool_calls sp /\
    accumulated_usage sp' = accumulated_usage sp /\
    finish_reason sp' = match fr with Some r => Some (finish_reason_of r) | None => finish_reason sp end.
Proof.
  intros Hs Hd Hsol. unfold chat_parse. cbn [data]. rewrite Hd. monad_unfold. rewrite Hs.
  cbn -[run_all parse_choice].
  destruct (response_id sp) as [rid|] eqn:Er; cbn -[run_all parse_choice];
    rewrite run_all_cons.
  - destruct (parse_choice_ok d fr sp w Hsol) as (sp' & -> & E1 & E2 & E3 & E4).
    cbn. eexists. split_and!; [by rewrite app_nil_r|by rewrite E1, Er|done|done|done].
  - destruct (parse_choice_ok d fr (set_st_model (Some model) (set_response_id (Some id) sp)) w Hsol)
      as (sp' & -> & E1 & E2 & E3 & E4).
    cbn. eexists. split_and!; [by rewrite app_nil_r|by rewrite E1|done|done|done].
Qed.
Lemma emit_event_delta e :
  chat_event e -> exists d, chat_emit e = emit_delta d /\ delta_events d = [e] /\ solid_delta d /\
    match d_tool_calls d with
    | Some l => Forall (fun tc => is_u32 (stc_index tc)) l
    | None => True
    end.
Proof.
  destruct e as [|t|i id n sg|i a|t| | |]; try done; cbn [chat_event]; intros He.
  - eexists. split_and!; [reflexivity|done| |done]. split; cbn; congruence.
  - destruct He as [Hi ->]. eexists. split_and!; [reflexivity|done|done|].
    by repeat constructor; apply Hi.
  - destruct He as [Hi Ha]. eexists. split_and!; [reflexivity| |done|].
    + unfold delta_events, parse_tool_call. cbn. by destruct a.
    + by repeat constructor; apply Hi.
  - eexists. split_and!; [reflexivity|done| |done]. split; cbn; congruence.
Qed.

Lemma chat_relay_body es st w sp wp :
  Forall chat_event es -> response_id sp <> None ->
  exists frames w' sp', run_all chat_emit es (st, w) = (Ok frames, (st, w')) /\
    run_all chat_parse (events_of frames) (sp, wp) = (Ok es, (sp', wp)) /\
    response_id sp' <> None /\
    accumulated_tool_calls sp' = accumulated_tool_calls sp /\
    accumulated_usage sp' = accumulated_usage sp /\ finish_reason sp' = finish_reason sp.
Proof using All.
  intros Hes. revert w sp. induction Hes as [|e es He _ IH]; intros w sp Hsp.
  - by eexists [], w, sp.
  - apply emit_event_delta in He as (d & Hemit & Hd & Hsol & Hu).
    rewrite run_all_cons, Hemit. unfold emit_delta. monad_unfold.
    destruct (stream_ids (st, w)) as [[[id model]|err] [st1 w1]] eqn:Eids.
    2: { unfold stream_ids in Eids. monad_unfold. cbn in Eids.
         by destruct (match response_id st with Some id => normalize_id_to_chat id | None => new_chat_id end w). }
    assert (st1 = st) as ->.
    { unfold stream_ids in Eids. monad_unfold. cbn in Eids.
      destruct (match response_id st with Some id => normalize_id_to_chat id | None => new_chat_id end w).
      by simplify_eq. }
    destruct (make_chunk_ok id model d None None st w1 Hu I) as (s & cr & w2 & -> & Hs & Hw & Hn).
    destruct (parse_chunk_ok s id model d None cr sp wp Hs Hn Hsol)
      as (sp1 & Hp & Hr & Ht & Hus & Hf).
    destruct (IH w2 sp1 Hr) as (fs & w3 & sp2 & -> & Hrun & Hr2 & Ht2 & Hu2 & Hf2).
    eexists _, w3, sp2. cbn [app]. split; [reflexivity|].
    rewrite events_of_data, run_all_cons, Hp, Hrun, Hd by done.
    destruct (response_id sp); [|done].
    split_and!; [done|done|by rewrite Ht2|by rewrite Hu2|by rewrite Hf2].
Qed.

Lemma finish_reason_roundtrip r :
  finish_reason_of (to_openai_chat r) = if decide (r = StopSequence) then EndTurn else r.
Proof. by destruct r. Qed.

Lemma parse_usage_chunk s id model created r u sp w :
  from_json s = Ok {| ck_id := id; ck_object := "chat.completion.chunk"; ck_created := created;
                      ck_model := model;
                      ck_choices := [{| sc_index := 0; sc_delta := no_delta;
                                        sc_finish_reason := Some r |}];
                      ck_usage := Some {| ou_prompt_tokens := input_tokens u;
                                          ou_completion_tokens := output_tokens u;
                                          ou_total_tokens := u64_add (input_tokens u) (output_tokens u);
                                          ou_prompt_tokens_details := None |} |} ->
  is_openai_done s = false -> response_id sp <> None ->
  exists sp', chat_parse {| event := None; data := s |} (sp, w) = (Ok [], (sp', w)) /\
    accumulated_tool_calls sp' = accumulated_tool_calls sp /\
    accumulated_usage sp' = Some (stream_usage u) /\
    finish_reason sp' = Some (finish_reason_of r).
Proof.
  intros Hs Hd Hr. unfold chat_parse. cbn [data]. rewrite Hd. monad_unfold. rewrite Hs.
  cbn. destruct (response_id sp) eqn:E; [|done]. cbn. by eexists.
Qed.

Lemma parse_done_mark sp w :
  accumulated_tool_calls sp = [] ->
  exists sp', chat_parse {| event := None; data := "[DONE]" |} (sp, w) =
    (Ok [Done (default EndTurn (finish_reason sp)) (accumulated_usage sp)], (sp', w)).
Proof.
  intros Ht. unfold chat_parse. cbn [data].
  replace (is_openai_done "[DONE]") with true by (vm_compute; reflexivity).
  monad_unfold. cbn. rewrite Ht. by eexists.
Qed.

Lemma chat_relay_done r us st w sp wp :
  match us with Some u => is_u64 (input_tokens u) /\ is_u64 (output_tokens u) | None => True end ->
  in_stream sp ->
  exists frames st' w' sp', chat_emit (Done r us) (st, w) = (Ok frames, (st', w')) /\
    done_ st' = true /\
    run_all chat_parse (events_of frames) (sp, wp) =
      (Ok [Done (if decide (r = StopSequence) then EndTurn else r) (stream_usage <$> us)], (sp', wp)).
Proof using All.
  intros Hus (Hr & Ht & Hu & Hf).
  cbn [chat_emit]. monad_unfold.
  destruct (stream_ids (st, w)) as [[[id model]|err] [st1 w1]] eqn:Eids.
  2: { unfold stream_ids in Eids. monad_unfold. cbn in Eids.
       by destruct (match response_id st with Some id => normalize_id_to_chat id | None => new_chat_id end w). }
  destruct us as [u|]; cbn -[make_stream_chunk].
  - set (stf := set_accumulated_usage (Some u) (set_phase PhaseDone (set_done_ true st1))).
    destruct (make_chunk_ok id model no_delta (Some (to_openai_chat r))
      (Some {| ou_prompt_tokens := input_tokens u; ou_completion_tokens := output_tokens u;
               ou_total_tokens := u64_add (input_tokens u) (output_tokens u);
               ou_prompt_tokens_details := None |}) stf w1 I) as (s & cr & w2 & Hmk & Hs & Hw & Hn).
    { destruct Hus as [Hi Ho]. split_and!; [done|done| |done].
      cbn [ou_total_tokens]. unfold u64_add, RustStd.as_u64, is_u64, u64_max. pose proof (Z.mod_pos_bound
        (input_tokens u + output_tokens u) (2 ^ 64) ltac:(done)). lia. }
    rewrite Hmk. eexists _, _, _.
    destruct (parse_usage_chunk s id model cr (to_openai_chat r) u sp wp Hs Hn Hr)
      as (sp1 & Hp & Ht1 & Hu1 & Hf1).
    destruct (parse_done_mark sp1 wp ltac:(congruence)) as (sp2 & Hd).
    exists sp2. split; [reflexivity|]. split; [done|].
    rewrite !events_of_data by done. rewrite run_all_cons, Hp, run_all_cons, Hd. cbn.
    by rewrite Hf1, Hu1, finish_reason_roundtrip.
  - destruct (make_chunk_ok id model no_delta (Some (to_openai_chat r)) None
      (set_phase PhaseDone (set_done_ true st1)) w1 I I) as (s & cr & w2 & Hmk & Hs & Hw & Hn).
    rewrite Hmk. eexists _, _, _.
    destruct (parse_chunk_ok s id model no_delta (Some (to_openai_chat r)) cr sp wp Hs Hn)
      as (sp1 & Hp & Hr1 & Ht1 & Hu1 & Hf1); [done|].
    destruct (parse_done_mark sp1 wp ltac:(congruence)) as (sp2 & Hd).
    exists sp2. split; [reflexivity|]. split; [done|].
    rewrite !events_of_data by done. rewrite run_all_cons, Hp, run_all_cons, Hd. cbn.
    rewrite Hf1, Hu1, Hu, finish_reason_roundtrip. by destruct (response_id sp).
Qed.

(** C10: the Chat stream adapter reads what it writes. A canonical stream of a
    start, texts, thinking, tool calls with their argument pieces, and a
    terminal event is emitted without error, and a client that parses the
    frames with the same adapter gets the same events back in the same order,
    the usage's two counts and the stop reason included (a stop sequence
    reads back as the end of the turn, which Chat cannot tell apart). *)
Theorem chat_stream_roundtrip (id model : string) (es : list CanonicalStreamEvent)
  (r : StopReason) (us : option Usage) w wp :
  Forall chat_event es ->
  match us with Some u => is_u64 (input_tokens u) /\ is_u64 (output_tokens u) | None => True end ->
  exists frames st' w' sp',
    run_all chat_emit ([Start id model] ++ es ++ [Done r us]) (StreamState_new, w) =
      (Ok frames, (st', w')) /\ done_ st' = true /\
    run_all chat_parse (events_of frames) (StreamState_new, wp) =
      (Ok ([Start id model] ++ es ++
           [Done (if decide (r = StopSequence) then EndTurn else r) (stream_usage <$> us)]),
       (sp', wp)).
Proof using All.
  intros Hes Hus. cbn [app]. rewrite run_all_cons. cbn [chat_emit]. monad_unfold.
  cbn -[make_stream_chunk run_all].
  set (st1 := set_st_model (Some model) (set_response_id (Some id) StreamState_new)).
  destruct (make_chunk_ok id model role_delta None None st1 w I I) as (s & cr & w1 & -> & Hs & Hw & Hn).
  destruct (parse_chunk_ok s id model role_delta None cr StreamState_new wp Hs Hn)
    as (sp1 & Hp & Hr & Ht & Hu & Hf); [done|].
  rewrite run_all_app.
  destruct (chat_relay_body es st1 w1 sp1 wp Hes Hr) as (fs & w2 & sp2 & -> & Hrun & Hr2 & Ht2 & Hu2 & Hf2).
  rewrite run_all_cons.
  destruct (chat_relay_done r us st1 w2 sp2 wp Hus) as (fd & st' & w3 & sp3 & -> & Hd & Hrund).
  { split_and!; [done|by rewrite Ht2, Ht|by rewrite Hu2, Hu|by rewrite Hf2, Hf]. }
  change (run_all chat_emit [] (st', w3)) with (@Ok ConvertError (list string) [], (st', w3)).
  eexists _, st', w3, sp3. split; [reflexivity|]. split; [done|].
  rewrite app_nil_r. cbn [app]. rewrite events_of_data, run_all_cons, Hp by done.
  rewrite events_of_app, run_all_app, Hrun, Hrund. done.
Qed.

(** The identifiers of the chunks of a stream. *)
Definition chunk_ids (frames : list string) : list (option string) :=
  map (fun e => ck_id <$> ok (from_json (T := OpenAIChatStreamChunk) (data e))) (events_of frames).

(** A finding about chunk identifiers. The chunks of one stream must
    carry one identifier; the emitter writes the first chunk with the
    identifier as it arrived and every later one with the normalized
    identifier, so unless it arrived in Chat's form the first chunk differs
    from the rest. *)
Theorem chat_emit_chunk_ids (id model t : string) w :
  is_empty id = false -> starts_with "chatcmpl-" id = false -> t <> "" ->
  exists frames st' w' nid,
    run_all chat_emit [Start id model; TextDelta t] (StreamState_new, w) = (Ok frames, (st', w')) /\
    chunk_ids frames = [Some id; Some nid] /\ starts_with "chatcmpl-" nid = true /\ nid <> id.
Proof using All.
  intros Hne Hid Ht. rewrite run_all_cons. cbn [chat_emit]. monad_unfold.
  cbn -[make_stream_chunk run_all].
  set (st1 := set_st_model (Some model) (set_response_id (Some id) StreamState_new)).
  destruct (make_chunk_ok id model role_delta None None st1 w I I) as (s & cr & w1 & -> & Hs & Hw & Hn).
  rewrite run_all_cons. cbn [chat_emit]. unfold emit_delta, stream_ids. monad_unfold.
  cbn -[make_stream_chunk run_all normalize_id_to_chat].
  assert (exists nid, normalize_id_to_chat id w1 = ("chatcmpl-" +:+ nid, w1)) as [nid ->].
  { unfold normalize_id_to_chat. rewrite Hne, Hid. by eexists. }
  destruct (make_chunk_ok ("chatcmpl-" +:+ nid) model (text_delta t) None None st1 w1 I I)
    as (s2 & cr2 & w2 & -> & Hs2 & Hw2 & Hn2).
  eexists _, st1, w2, ("chatcmpl-" +:+ nid). split; [reflexivity|]. cbn [app].
  unfold chunk_ids. rewrite !events_of_data by done. cbn [map data]. rewrite Hs, Hs2.
  split_and!; [done|by rewrite starts_with_app|].
  intros E. rewrite <-E, starts_with_app in Hid. done.
Qed.
End chat_stream_props.

Lemma chat_stream_roundtrip_witness :
  exists frames st' w' sp',
    run_all (@chat_emit sample_env wire_to_json)
      ([Start "chatcmpl-1" "m"] ++ [TextDelta "hi"; ToolCallStart 0 "t" "f" None; ToolCallDelta 0 "{}"] ++
       [Done ToolUse (Some Usage_default)]) (StreamState_new, world0) = (Ok frames, (st', w')) /\
    done_ st' = true /\
    run_all (@chat_parse wire_from_json) (events_of frames) (StreamState_new, world0) =
      (Ok ([Start "chatcmpl-1" "m"] ++
           [TextDelta "hi"; ToolCallStart 0 "t" "f" None; ToolCallDelta 0 "{}"] ++
           [Done ToolUse (Some Usage_default)]), (sp', world0)).
Proof.
  apply (@chat_stream_roundtrip sample_env _ wire_to_json wire_from_json (wire_struct_json wf_chunk)
           "chatcmpl-1" "m" [TextDelta "hi"; ToolCallStart 0 "t" "f" None; ToolCallDelta 0 "{}"]
           ToolUse (Some Usage_default) world0 world0).
  - repeat constructor; vm_compute; discriminate.
  - repeat split; vm_compute; discriminate.
Defined.

Lemma chat_emit_chunk_ids_witness :
  exists frames st' w' nid,
    run_all (@chat_emit sample_env wire_to_json) [Start "msg_1" "m"; TextDelta "hi"]
      (StreamState_new, world0) = (Ok frames, (st', w')) /\
    @chunk_ids wire_from_json frames = [Some "msg_1"; Some nid] /\
    starts_with "chatcmpl-" nid = true /\ nid <> "msg_1".
Proof.
  apply (@chat_emit_chunk_ids sample_env _ wire_to_json wire_from_json (wire_struct_json wf_chunk)
           "msg_1" "m" "hi" world0); [reflexivity|reflexivity|discriminate].
Defined.
