(* ===== verification/GeminiRead.v ===== *)
(** * Gemini to the intermediate representation

    [formats/gemini/read.rs]. *)
From Stdlib Require Import ZArith.
From S2P Require Import Prelude.
From S2P Require Import RustStd.
From S2P Require Import Json.
From S2P Require Import Effects.
From S2P Require Import Format.
From S2P Require Import Ir.
From S2P Require Import GeminiTypes.
From S2P Require Import Shared.

Section gemini_read.
Context `{SerdeJson} `{Env}.

Definition read_system (content : GeminiContent) : list IrPart :=
  let text := join "" (filter_map gp_text (gc_parts content)) in
  if is_empty text then [] else [Text text None].

Definition read_tool (fd : GeminiFunctionDeclaration) : IrTool :=
  {| tool_name := gd_name fd;
     tool_description := default "" (gd_description fd);
     tool_schema := default (obj [("type", str "object")]) (gd_parameters fd);
     tool_strict := None |}.

Definition read_tool_choice (config : Value) : IrToolChoice :=
  match get_key "functionCallingConfig" config with
  | None => ChoiceAuto
  | Some fcc =>
      let allowed :=
        default [] (filter_map Json.as_str <$> (get_key "allowedFunctionNames" fcc ≫= as_array)) in
      match allowed with
      | [name] => ChoiceNamed name
      | _ =>
          match value_str "mode" fcc with
          | Some mode =>
              if decide (mode = "NONE") then ChoiceNone
              else if decide (mode = "ANY") then ChoiceRequired
              else ChoiceAuto
          | None => ChoiceAuto
          end
      end
  end.

Definition gemini_signed (p : GeminiPart) : option Signature :=
  (fun value => {| sig_by := Gemini; sig_value := value |}) <$> gp_thought_signature p.

(** The text of a part, as thinking or as content. *)
Definition text_part (p : GeminiPart) : list IrPart :=
  match gp_text p with
  | Some text =>
      if is_empty text then []
      else [if decide (gp_thought p = Some true) then Thinking text (gemini_signed p)
            else Text text (gemini_signed p)]
  | None => []
  end.

Definition call_part (p : GeminiPart) (fc : GeminiFunctionCall) : Eff IrPart :=
  id ← unwrap_or_else (gfc_id fc) new_uuid;
  mret (ToolCall id (gfc_name fc) (gfc_args fc) (gemini_signed p)).

(** One iteration of the loop over the parts of a message: what is pushed to
    [results] and to [parts]. *)
Definition read_part (role : Role) (p : GeminiPart) : Eff (list IrPart * list IrPart) :=
  match gp_function_response p with
  | Some fr =>
      match role with
      | User =>
          call_id ← unwrap_or_else (gfr_id fr) new_uuid;
          mret ([ToolResult call_id
                   (match get_key "error" (gfr_response fr) with
                    | Some e => negb (is_null e)
                    | None => false
                    end)
                   [Text (extract_function_response_text (gfr_response fr)) None]], [])
      | Assistant => mret ([], [])
      end
  | None =>
      match role with
      | Assistant =>
          match gp_function_call p with
          | Some fc => call ← call_part p fc; mret ([], text_part p ++ [call])
          | None => mret ([], text_part p)
          end
      | User =>
          mret ([], text_part p ++
            match gp_inline_data p with
            | Some inline =>
                [Image ("data:" +:+ id_mime_type inline +:+ ";base64," +:+ id_data inline)
                   (id_mime_type inline) (Some (id_data inline)) None]
            | None => []
            end)
      end
  end.

Definition read_message (content : GeminiContent) : Eff (option IrMessage) :=
  let role := if decide (gc_role content = Some "model") then Assistant else User in
  pushed ← mapM (read_part role) (gc_parts content);
  let parts := flat_map fst pushed ++ flat_map snd pushed in
  mret (match parts with
        | [] => None
        | _ :: _ => Some {| msg_role := role; msg_parts := parts |}
        end).

Definition read (req : GeminiRequest) : Eff IrRequest :=
  let g := gq_generation_config req in
  let field {A} (f : GeminiGenerationConfig -> option A) : option A := g ≫= f in
  msgs ← mapM read_message (gq_contents req);
  mret
    {| model := default "" (gq_model req);
       system := default [] (read_system <$> gq_system_instruction req);
       messages := filter_map (fun m => m) msgs;
       tools := map read_tool (flat_map function_declarations (default [] (gq_tools req)));
       tool_choice := read_tool_choice <$> gq_tool_config req;
       sampling := {| max_tokens := field gg_max_output_tokens;
                      temperature := field gg_temperature;
                      top_p := field gg_top_p;
                      top_k := field gg_top_k;
                      stop := default [] (field gg_stop_sequences) |};
       stream := false;
       reasoning := Off;
       extra :=
         put_opt Gemini "responseSchema" (field gg_response_schema)
           (put_opt Gemini "responseMimeType" (VString <$> field gg_response_mime_type)
              (put_opt Gemini "seed" (num_i64 <$> field gg_seed) [])) |}.

Definition read_response_part (p : GeminiPart) : Eff (list IrPart) :=
  match gp_function_call p with
  | Some fc => call ← call_part p fc; mret (text_part p ++ [call])
  | None => mret (text_part p)
  end.

Definition read_response (resp : GeminiResponse) : Eff IrResponse :=
  let candidate := head (candidates resp) in
  parts ← mapM read_response_part
            (default [] ((fun c => gc_parts (cand_content c)) <$> candidate));
  mret
    {| resp_id := None;
       resp_model := default "" (model_version resp);
       resp_parts := List.concat parts;
       resp_stop_reason := default EndTurn (from_gemini <$> (candidate ≫= cand_finish_reason));
       resp_stop_sequence := None;
       resp_usage :=
         match usage_metadata resp with
         | Some u =>
             {| input_tokens := default 0%Z (prompt_token_count u);
                output_tokens := default 0%Z (candidates_token_count u);
                cache_read_tokens := None; cache_write_tokens := None;
                cache_write_1h := None; reasoning_tokens := None |}
         | None => Usage_default
         end |}.
End gemini_read.
