(* ===== verification/GeminiBuild.v ===== *)
(** * The intermediate representation to Gemini

    [formats/gemini/build.rs]. *)
From Stdlib Require Import ZArith.
From S2P Require Import Prelude.
From S2P Require Import RustStd.
From S2P Require Import Json.
From S2P Require Import Format.
From S2P Require Import Ir.
From S2P Require Import GeminiTypes.
From S2P Require Import Shared.

Definition gemini_signature (signature : option Signature) : option string :=
  match signature with
  | Some {| sig_by := Gemini; sig_value := value |} => Some value
  | _ => None
  end.

(** What [push_part] pushes. *)
Definition push_part (part : IrPart) : list GeminiPart :=
  match part with
  | Text text signature =>
      if is_empty text then []
      else [with_thought_signature (gemini_signature signature) (part_text text)]
  | Image url _ _ _ =>
      [match parse_data_url url with
       | Some (mime_type, data) => part_inline_data mime_type data
       | None => part_text url
       end]
  | ToolCall id name args signature =>
      [with_thought_signature (gemini_signature signature) (part_function_call_with_id name args id)]
  | ToolResult call_id _ content =>
      let text :=
        join "" (filter_map (fun p => match p with Text text _ => Some text | _ => None end) content) in
      [part_function_response_with_id "function" (obj [("result", str text)]) call_id]
  | Thinking text signature =>
      if is_empty text then []
      else match gemini_signature signature with
           | Some sig => [with_thought_signature (Some sig) (part_thinking text)]
           | None => [part_text text]
           end
  | Sealed _ _ => []
  end.

Definition build_parts (parts : list IrPart) : list GeminiPart := flat_map push_part parts.

Definition config_field (config : GeminiGenerationConfig) (field : string * Value)
  : GeminiGenerationConfig :=
  let '(name, value) := field in
  let set seed mime schema :=
    {| gg_temperature := gg_temperature config; gg_top_p := gg_top_p config;
       gg_top_k := gg_top_k config; gg_max_output_tokens := gg_max_output_tokens config;
       gg_stop_sequences := gg_stop_sequences config; gg_seed := seed;
       gg_response_mime_type := mime; gg_response_schema := schema |} in
  if decide (name = "seed") then
    set (as_i64 value) (gg_response_mime_type config) (gg_response_schema config)
  else if decide (name = "responseMimeType") then
    set (gg_seed config) (Json.as_str value) (gg_response_schema config)
  else if decide (name = "responseSchema") then
    set (gg_seed config) (gg_response_mime_type config) (Some value)
  else config.

Definition config_is_empty (c : GeminiGenerationConfig) : bool :=
  negb (is_some (gg_temperature c)) && negb (is_some (gg_top_p c)) &&
  negb (is_some (gg_top_k c)) && negb (is_some (gg_max_output_tokens c)) &&
  negb (is_some (gg_stop_sequences c)) && negb (is_some (gg_seed c)) &&
  negb (is_some (gg_response_mime_type c)) && negb (is_some (gg_response_schema c)).

Definition build_generation_config (sampling : Sampling) (extra : list (string * Value))
  : option GeminiGenerationConfig :=
  let config :=
    fold_left config_field extra
      {| gg_temperature := temperature sampling; gg_top_p := top_p sampling;
         gg_top_k := top_k sampling; gg_max_output_tokens := max_tokens sampling;
         gg_stop_sequences := nonempty (stop sampling); gg_seed := None;
         gg_response_mime_type := None; gg_response_schema := None |} in
  then_some (negb (config_is_empty config)) config.

Definition build_tool (t : IrTool) : GeminiFunctionDeclaration :=
  {| gd_name := tool_name t;
     gd_description := then_some (negb (is_empty (tool_description t))) (tool_description t);
     gd_parameters := Some (tool_schema t) |}.

Definition build_tools (tools : list IrTool) : option (list GeminiToolDeclaration) :=
  match tools with
  | [] => None
  | _ :: _ => Some [{| function_declarations := map build_tool tools |}]
  end.

Definition build_tool_config (choice : option IrToolChoice) (has_tools : bool) : option Value :=
  choice ← choice;
  config ← match choice with
           | ChoiceAuto => if has_tools then Some (obj [("mode", str "AUTO")]) else None
           | ChoiceNone => Some (obj [("mode", str "NONE")])
           | ChoiceRequired => Some (obj [("mode", str "ANY")])
           | ChoiceNamed name =>
               Some (obj [("mode", str "ANY"); ("allowedFunctionNames", VArray [str name])])
           end;
  Some (obj [("functionCallingConfig", config)]).

Definition system_part (p : IrPart) : option GeminiPart :=
  match p with
  | Text text _ => if is_empty text then None else Some (part_text text)
  | _ => None
  end.

Definition build_content (msg : IrMessage) : GeminiContent :=
  {| gc_role := Some (match msg_role msg with User => "user" | Assistant => "model" end);
     gc_parts := build_parts (msg_parts msg) |}.

Definition build (ir : IrRequest) : GeminiRequest :=
  let config_extra := fst (take Gemini (extra ir)) in
  let system_instruction :=
    (fun parts => {| gc_role := None; gc_parts := parts |}) <$>
    nonempty (filter_map system_part (system ir)) in
  let tools := build_tools (tools ir) in
  {| gq_model := Some (model ir);
     gq_contents := map build_content (messages ir);
     gq_system_instruction := system_instruction;
     gq_generation_config := build_generation_config (sampling ir) config_extra;
     gq_tools := tools;
     gq_tool_config := build_tool_config (tool_choice ir) (is_some tools) |}.

Definition build_response (ir : IrResponse) : GeminiResponse :=
  let parts :=
    flat_map (fun part =>
      match part with
      | Text _ _ | ToolCall _ _ _ _ | Thinking _ _ => push_part part
      | _ => []
      end) (resp_parts ir) in
  let usage := resp_usage ir in
  {| candidates :=
       [{| cand_content := {| gc_role := Some "model"; gc_parts := parts |};
           cand_finish_reason := Some (to_gemini (resp_stop_reason ir));
           cand_index := Some 0%Z |}];
     usage_metadata :=
       Some {| prompt_token_count := Some (input_tokens usage);
               candidates_token_count := Some (output_tokens usage);
               total_token_count := Some (total_tokens usage) |};
     model_version := Some (resp_model ir) |}.
