(* ===== verification/GeminiProps.v ===== *)
(** * What the Gemini reader and builder promise *)
From Stdlib Require Import ZArith Lia.
From S2P Require Import Prelude.
From S2P Require Import RustStd.
From S2P Require Import Json.
From S2P Require Import Effects.
From S2P Require Import Concrete.
From S2P Require Import Format.
From S2P Require Import Ir.
From S2P Require Import GeminiTypes.
From S2P Require Import Shared.
From S2P Require Import GeminiRead.
From S2P Require Import GeminiBuild.

Local Open Scope Z_scope.

(** ** What Gemini can say *)

(** Absent, or Gemini's own. *)
Definition own_or_none (s : option Signature) : bool :=
  match s with Some s => format_eqb (sig_by s) Gemini | None => true end.

(** A reply's parts. Thinking without Gemini's signature goes out as plain
    text, so it is not among them. *)
Definition gemini_reply_part (p : IrPart) : bool :=
  match p with
  | Text t s => negb (is_empty t) && own_or_none s
  | Thinking t (Some s) => negb (is_empty t) && format_eqb (sig_by s) Gemini
  | ToolCall _ _ _ s => own_or_none s
  | _ => false
  end.

(** A request's parts: calls in model turns, inline images in user turns.
    Tool results are treated apart below. *)
Definition gemini_part (role : Role) (p : IrPart) : bool :=
  match p, role with
  | ToolCall _ _ _ _, User => false
  | Image url media_type (Some data) None, User =>
      bool_decide (url = "data:" +:+ media_type +:+ ";base64," +:+ data) &&
      negb (str_in ";" media_type)
  | _, _ => gemini_reply_part p
  end.

Definition gemini_message (m : IrMessage) : bool :=
  negb (bool_decide (msg_parts m = [])) && forallb (gemini_part (msg_role m)) (msg_parts m).

Definition gemini_extra (x : NamespacedExtra) : Prop :=
  exists schema mime seed,
    x = put_opt Gemini "responseSchema" schema
          (put_opt Gemini "responseMimeType" (VString <$> mime)
             (put_opt Gemini "seed" (num_i64 <$> seed) [])) /\
    match seed with Some z => - 2 ^ 63 <= z <= 2 ^ 63 - 1 | None => True end.

Definition gemini_request (ir : IrRequest) : Prop :=
  (system ir = [] \/ exists t, t <> "" /\ system ir = [Text t None]) /\
  Forall (fun m => gemini_message m = true) (messages ir) /\
  Forall (fun t => tool_strict t = None) (tools ir) /\
  (tool_choice ir = Some ChoiceAuto -> tools ir <> []) /\
  stream ir = false /\ reasoning ir = Off /\ gemini_extra (extra ir).

(** *** Parts *)

Lemma own_gemini_signature s :
  own_or_none s = true ->
  ((fun value => {| sig_by := Gemini; sig_value := value |}) <$> gemini_signature s) = s.
Proof. by destruct s as [[[] v]|]. Qed.

Section parts.
Context `{SerdeJson} `{Env}.

Lemma read_reply_part p :
  gemini_reply_part p = true ->
  exists q, push_part p = [q] /\ gp_function_response q = None /\ gp_inline_data q = None /\
    (gp_function_call q = None -> text_part q = [p]) /\
    (forall fc, gp_function_call q = Some fc ->
       text_part q = [] /\ forall w, call_part q fc w = (p, w)).
Proof.
  destruct p as [t s| |i n a s| |t [s|]|]; try done; cbn [gemini_reply_part].
  - intros [Ht Hs]%andb_prop. unfold push_part.
    destruct (is_empty t) eqn:Et; [done|]. eexists. split_and!; try done.
    intros _. unfold text_part, gemini_signed. cbn. rewrite Et.
    by rewrite own_gemini_signature.
  - intros Hs. eexists. split_and!; try done. cbn. intros fc [= <-]. split; [done|].
    intros w. unfold call_part, gemini_signed. cbn. eff_unfold. by rewrite own_gemini_signature.
  - intros [Ht Hs]%andb_prop. unfold push_part.
    destruct (is_empty t) eqn:Et; [done|]. destruct s as [[] v]; try done.
    eexists. split_and!; try done. intros _. unfold text_part. cbn. by rewrite Et.
Qed.

Lemma read_push_part role p :
  gemini_part role p = true ->
  exists q, push_part p = [q] /\ forall w, read_part role q w = (([], [p]), w).
Proof.
  intros Hp. destruct (gemini_reply_part p) eqn:Hr.
  - destruct (read_reply_part p Hr) as (q & Hq & Hfr & Hid & Ht & Hc).
    exists q. split; [done|]. intros w. unfold read_part. rewrite Hfr.
    destruct role.
    + rewrite Hid. destruct (gp_function_call q) as [fc|] eqn:Ef.
      * destruct p; try done; cbn in Hq; destruct (is_empty _); simplify_eq/=; try done.
        by destruct (gemini_signature signature); simplify_eq/=.
      * rewrite Ht by done. done.
    + destruct (gp_function_call q) as [fc|] eqn:Ef.
      * destruct (Hc fc eq_refl) as [-> Hcall]. eff_unfold. by rewrite Hcall.
      * by rewrite Ht.
  - destruct p as [| url mt [d|] [de|] | | | |], role; cbn [gemini_part] in Hp;
      try congruence; try discriminate.
    apply andb_prop in Hp as [Hu Hm].
    apply bool_decide_eq_true in Hu as ->. rewrite negb_true_iff in Hm.
    cbn [push_part]. rewrite parse_data_url_build by done. by eexists.
Qed.

Lemma flat_map_nil {A B} (l : list A) : flat_map (fun _ => @nil B) l = [].
Proof. by induction l. Qed.

Lemma read_build_content m w :
  gemini_message m = true -> read_message (build_content m) w = (Some m, w).
Proof.
  destruct m as [role parts]. unfold gemini_message. cbn [msg_parts msg_role].
  intros [Hne Hp]%andb_prop. unfold read_message, build_content. cbn [gc_role gc_parts msg_role msg_parts].
  replace (if decide (Some match role with User => "user" | Assistant => "model" end = Some "model")
           then Assistant else User) with role by by destruct role.
  unfold build_parts. eff_unfold.
  rewrite (mapM_flat_map push_part (read_part role) (fun p => ([], [p]))).
  - rewrite !flat_map_concat_map, !map_map. cbn.
    rewrite <-!flat_map_concat_map, flat_map_nil. cbn [app].
    assert (flat_map (fun p => [p]) parts = parts) as ->.
    { clear. induction parts as [|p l IH]; [done|]. cbn. by rewrite IH. }
    by destruct parts.
  - clear Hne. induction parts as [|p l IH]; [constructor|]. cbn in Hp.
    apply andb_prop in Hp as [Hp Hl]. constructor; [by apply read_push_part|by apply IH].
Qed.
End parts.

(** *** Configuration *)

(** The configuration before it is dropped for being empty. *)
Definition config_of (s : Sampling) (schema : option Value) (mime : option string) (seed : option Z)
  : GeminiGenerationConfig :=
  {| gg_temperature := temperature s; gg_top_p := top_p s; gg_top_k := top_k s;
     gg_max_output_tokens := max_tokens s; gg_stop_sequences := nonempty (stop s);
     gg_seed := seed; gg_response_mime_type := mime; gg_response_schema := schema |}.

Lemma build_config s schema mime seed :
  match seed with Some z => - 2 ^ 63 <= z <= 2 ^ 63 - 1 | None => True end ->
  build_generation_config s (fst (take Gemini
    (put_opt Gemini "responseSchema" schema
       (put_opt Gemini "responseMimeType" (VString <$> mime)
          (put_opt Gemini "seed" (num_i64 <$> seed) []))))) =
  let c := config_of s schema mime seed in then_some (negb (config_is_empty c)) c.
Proof.
  intros Hs. unfold build_generation_config.
  assert (fold_left config_field (fst (take Gemini
    (put_opt Gemini "responseSchema" schema
       (put_opt Gemini "responseMimeType" (VString <$> mime)
          (put_opt Gemini "seed" (num_i64 <$> seed) [])))))
      {| gg_temperature := temperature s; gg_top_p := top_p s; gg_top_k := top_k s;
         gg_max_output_tokens := max_tokens s; gg_stop_sequences := nonempty (stop s);
         gg_seed := None; gg_response_mime_type := None; gg_response_schema := None |} =
    config_of s schema mime seed) as ->; [|done].
  destruct schema as [v|], mime as [m|], seed as [z|];
    cbv -[num_i64 as_i64]; rewrite ?as_i64_num_i64 by done; reflexivity.
Qed.

(** Reading a field of a configuration that was dropped for being empty finds
    what reading it in place would. *)
Lemma read_config {A} (f : GeminiGenerationConfig -> option A) c :
  (config_is_empty c = true -> f c = None) ->
  (then_some (negb (config_is_empty c)) c ≫= f) = f c.
Proof. intros Hf. destruct (config_is_empty c); cbn; [by rewrite Hf|done]. Qed.

Lemma config_empty_fields c :
  config_is_empty c = true ->
  gg_temperature c = None /\ gg_top_p c = None /\ gg_top_k c = None /\
  gg_max_output_tokens c = None /\ gg_stop_sequences c = None /\ gg_seed c = None /\
  gg_response_mime_type c = None /\ gg_response_schema c = None.
Proof. destruct c as [[] [] [] [] [] [] [] []]; try discriminate. intros _. split_and!; reflexivity. Qed.

Lemma gemini_read_build_tool_choice tc tls :
  (tc = Some ChoiceAuto -> tls <> []) ->
  read_tool_choice <$> build_tool_config tc (is_some (build_tools tls)) = tc.
Proof.
  intros Ha. destruct tc as [[| | |n]|]; try done. destruct tls; [|done].
  by destruct (Ha eq_refl).
Qed.

Lemma gemini_read_build_tools tls :
  Forall (fun t => tool_strict t = None) tls ->
  map read_tool (flat_map function_declarations (default [] (build_tools tls))) = tls.
Proof.
  intros Ht. destruct tls as [|t tls]; [done|]. unfold build_tools. cbn [default flat_map from_option id].
  rewrite app_nil_r. cbn [function_declarations]. apply map_inverse.
  apply (Forall_weaken _ _ _ Ht). intros [n d s st] Hs. cbn in Hs. subst st.
  unfold read_tool, build_tool. cbn. by destruct d.
Qed.

Lemma gemini_read_build `{SerdeJson} `{Env} (ir : IrRequest) (w : World) :
  gemini_request ir -> read (build ir) w = (ir, w).
Proof.
  destruct ir as [mdl sys msgs tls choice [mt temp tp tk stops] strm reas ext].
  intros (Hsys & Hmsg & Htl & Htc & Hst & Hr & (schema & mime & seed & Hx & Hseed)).
  simpl in *. subst strm reas ext. unfold read, build.
  cbn [gq_contents gq_generation_config gq_model gq_system_instruction gq_tools gq_tool_config
       model system messages tools tool_choice sampling stream reasoning extra].
  assert (mapM (M := Eff) read_message (map build_content msgs) w = (map Some msgs, w)) as E.
  { replace (map build_content msgs) with (flat_map (fun m => [build_content m]) msgs).
    - apply mapM_flat_map. apply (Forall_weaken _ _ _ Hmsg). intros m Hm.
      eexists. split; [done|]. intros w'. by apply read_build_content.
    - clear. induction msgs as [|m l IH]; [done|]. cbn. by rewrite IH. }
  eff_unfold. rewrite E. rewrite build_config by done. cbv zeta.
  set (c := config_of _ schema mime seed).
  rewrite !read_config by (intros Hc; apply config_empty_fields in Hc; tauto).
  subst c. f_equal. f_equal.
  - destruct Hsys as [->|(t & Ht & ->)]; [done|]. unfold filter_map. cbn.
    destruct t; [done|]. done.
  - rewrite filter_map_map. by apply filter_map_id, list.Forall_true.
  - by apply gemini_read_build_tools.
  - by apply gemini_read_build_tool_choice.
  - cbn. f_equal. by destruct stops.
Qed.

(** C6: a request survives Gemini's wire. Every request without tool results
    that Gemini can express is written by the builder and read back unchanged,
    drawing nothing: texts, signed thinking, tool calls with their signatures
    and identifiers, inline images, the system prompt, tools, tool choice,
    sampling, and the extra fields [seed], [responseMimeType] and
    [responseSchema]; a configuration with nothing in it is left off the wire. *)
Theorem gemini_request_roundtrip `{SerdeJson} `{Env} (ir : IrRequest) (w : World) :
  gemini_request ir -> read (build ir) w = (ir, w).
Proof. apply gemini_read_build. Qed.

Definition sample_request : IrRequest :=
  {| model := "gemini-pro";
     system := [Text "be brief" None];
     messages :=
       [{| msg_role := User;
           msg_parts := [Text "look" None;
                         Image "data:image/png;base64,AA==" "image/png" (Some "AA==") None] |};
        {| msg_role := Assistant;
           msg_parts := [Thinking "hm" (Some {| sig_by := Gemini; sig_value := "s" |});
                         ToolCall "t1" "f" (obj [("x", num 1)])
                           (Some {| sig_by := Gemini; sig_value := "c" |})] |}];
     tools := [{| tool_name := "f"; tool_description := "d"; tool_schema := obj []; tool_strict := None |}];
     tool_choice := Some ChoiceAuto;
     sampling := {| max_tokens := Some 2048; temperature := Some f32_one; top_p := None;
                    top_k := Some 5; stop := ["END"] |};
     stream := false;
     reasoning := Off;
     extra := [(Gemini, "seed", num_i64 7)] |}.

Lemma gemini_request_roundtrip_witness :
  @read _ sample_env (build sample_request) world0 = (sample_request, world0).
Proof.
  apply gemini_request_roundtrip. unfold gemini_request.
  cbn [system messages tools tool_choice stream reasoning extra sample_request].
  split_and!; try done.
  - right. by exists "be brief".
  - by repeat constructor.
  - by repeat constructor.
  - by exists None, None, (Some 7).
Defined.

(** ** Responses *)

Definition gemini_response (ir : IrResponse) : Prop :=
  resp_id ir = None /\ Forall (fun p => gemini_reply_part p = true) (resp_parts ir) /\
  resp_stop_reason ir <> ToolUse /\ resp_stop_reason ir <> StopSequence /\
  resp_stop_sequence ir = None /\
  cache_read_tokens (resp_usage ir) = None /\ cache_write_tokens (resp_usage ir) = None /\
  cache_write_1h (resp_usage ir) = None /\ reasoning_tokens (resp_usage ir) = None.

Lemma from_to_gemini r :
  from_gemini (to_gemini r) =
  if decide (r = ToolUse \/ r = StopSequence) then EndTurn else r.
Proof. by destruct r. Qed.

(** A response survives Gemini's wire: text, signed thinking and tool calls
    with their signatures and identifiers in order, the finish reason and the
    two token counts are read back as they were, and nothing is drawn. *)
Theorem gemini_response_roundtrip `{SerdeJson} `{Env} (ir : IrResponse) (w : World) :
  gemini_response ir -> read_response (build_response ir) w = (ir, w).
Proof.
  destruct ir as [id m parts sr ss [ti tokens cr cw c1 rt]]. unfold gemini_response. simpl.
  intros (-> & Hp & Hr1 & Hr2 & -> & -> & -> & -> & ->).
  unfold read_response, build_response. cbn [candidates head fmap option_fmap option_map default
    from_option id cand_content gc_parts resp_parts].
  set (f := fun part => match part with
                        | Text _ _ | ToolCall _ _ _ _ | Thinking _ _ => push_part part
                        | _ => []
                        end).
  assert (mapM (M := Eff) read_response_part (flat_map f parts) w = (map (fun p => [p]) parts, w)) as E.
  { apply mapM_flat_map. apply (Forall_weaken _ _ _ Hp). intros p Hr.
    destruct (read_reply_part p Hr) as (q & Hq & _ & _ & Ht & Hc). exists q. split.
    - by destruct p.
    - intros w'. unfold read_response_part. destruct (gp_function_call q) as [fc|] eqn:Ef.
      + destruct (Hc fc eq_refl) as [-> Hcall]. eff_unfold. by rewrite Hcall.
      + by rewrite Ht. }
  eff_unfold. rewrite E. cbn. f_equal. f_equal.
  - clear. induction parts as [|p l IH]; [done|]. cbn. by rewrite IH.
  - rewrite from_to_gemini. by rewrite decide_False by tauto.
Qed.

Definition sample_response : IrResponse :=
  {| resp_id := None; resp_model := "gemini-pro";
     resp_parts := [Thinking "hm" (Some {| sig_by := Gemini; sig_value := "s" |}); Text "hi" None];
     resp_stop_reason := MaxTokens; resp_stop_sequence := None;
     resp_usage := Usage_default |}.

Lemma gemini_response_roundtrip_witness :
  @read_response sample_env (build_response sample_response) world0 = (sample_response, world0).
Proof.
  apply gemini_response_roundtrip. unfold gemini_response. cbn. split_and!; try done.
  by repeat constructor.
Defined.

(** ** Opaque material of other vendors *)

Lemma gemini_signature_own s : gemini_signature (own_sig Gemini s) = gemini_signature s.
Proof. by destruct s as [[[] v]|]. Qed.

Lemma push_part_redact p : push_part (redact Gemini p) = push_part p.
Proof.
  destruct p as [t s|u m d e|i n a s|c e l|t s|b r]; try done; cbn [redact push_part];
    rewrite ?gemini_signature_own; try done.
  rewrite filter_map_redact; [done|]. apply list.Forall_true. by intros [].
Qed.

(** Gemini never sees another vendor's opaque material. What the Gemini
    builder writes does not depend on the signatures and sealed payloads other
    vendors produced: blanking them all, at any depth, gives the same request,
    and a signature in the request is one Gemini made. *)
Theorem gemini_build_redacts (ir : IrRequest) :
  build (redact_request Gemini ir) = build ir /\
  (forall c p s, c ∈ gq_contents (build ir) -> p ∈ gc_parts c -> gp_thought_signature p = Some s ->
     exists m part, m ∈ messages ir /\ part ∈ msg_parts m /\
       match part with
       | Text _ sg | ToolCall _ _ _ sg | Thinking _ sg =>
           sg = Some {| sig_by := Gemini; sig_value := s |}
       | _ => False
       end).
Proof.
  split.
  - unfold build, redact_request. simpl. f_equal.
    + rewrite map_map. apply map_ext. intros [role parts]. unfold build_content, redact_message.
      cbn [msg_role msg_parts]. f_equal. unfold build_parts.
      rewrite !flat_map_concat_map, map_map. f_equal. apply map_ext, push_part_redact.
    + f_equal. f_equal. apply filter_map_redact, list.Forall_true. by intros [].
  - intros c p s Hc Hp Hs. apply list_elem_of_In, in_map_iff in Hc as (m & <- & Hm).
    apply list_elem_of_In in Hp. unfold build_content, build_parts in Hp. cbn in Hp.
    apply in_flat_map in Hp as (part & Hpart & Hp).
    exists m, part. rewrite !list_elem_of_In. split_and!; [done|done|].
    assert (forall sg v, gemini_signature sg = Some v ->
              sg = Some {| sig_by := Gemini; sig_value := v |}) as Hsig.
    { by intros [[[] v']|] v; cbn; intros; simplify_eq. }
    destruct part as [t sg|u mt d e|i n a sg|c e l|t sg|b r]; cbn [push_part] in Hp.
    + destruct (is_empty t); [done|]. destruct Hp as [<-|[]]. exact (Hsig _ _ Hs).
    + destruct Hp as [<-|[]]. revert Hs. destruct (parse_data_url u) as [[]|]; cbn; discriminate.
    + destruct Hp as [<-|[]]. exact (Hsig _ _ Hs).
    + destruct Hp as [<-|[]]. cbn in Hs. discriminate Hs.
    + destruct (is_empty t); [done|].
      destruct (gemini_signature sg) eqn:E; destruct Hp as [<-|[]]; cbn in Hs; simplify_eq.
      by apply Hsig.
    + done.
Qed.

(** ** Tool results *)

(** Tool results on Gemini's wire. A tool result is written as a function
    response named "function" around one "result" string; read back, its texts
    are one text that has gained a layer of JSON quoting, and the error flag is
    gone. *)
Theorem gemini_tool_result_quoted `{SerdeJson} `{Env} (call_id : string) (is_error : bool)
  (content : list IrPart) (w : World) :
  let text := join "" (filter_map (fun p => match p with Text t _ => Some t | _ => None end) content) in
  let m := {| msg_role := User; msg_parts := [ToolResult call_id is_error content] |} in
  map gp_function_response (gc_parts (build_content m)) =
    [Some {| gfr_name := "function"; gfr_response := obj [("result", str text)];
             gfr_id := Some call_id |}] /\
  read_message (build_content m) w =
    (Some {| msg_role := User;
             msg_parts := [ToolResult call_id false [Text (value_to_string (VString text)) None]] |}, w).
Proof. by intros text m. Qed.

(** ** Stop reasons *)

(** A finding about finish reasons. No Gemini reply is ever read as a stop
    for a tool call: a reply that calls a function and finishes with "STOP",
    which is how Gemini ends such a turn, reads as the end of the turn, so
    Claude and Chat clients are told "end_turn" and "stop" with a tool call
    pending. *)
Theorem gemini_tool_call_end_turn `{Env} (resp : GeminiResponse) (w : World) :
  let r := resp_stop_reason (fst (read_response resp w)) in
  r <> ToolUse /\ r <> StopSequence /\
  (forall c cs fc p ps, candidates resp = c :: cs ->
     gc_parts (cand_content c) = p :: ps -> gp_function_call p = Some fc ->
     cand_finish_reason c = Some "STOP" ->
     existsb (fun p => match p with ToolCall _ _ _ _ => true | _ => false end)
       (resp_parts (fst (read_response resp w))) = true /\
     to_claude r = "end_turn" /\ to_openai_chat r = "stop").
Proof.
  intros r.
  assert (r = default EndTurn (from_gemini <$> (head (candidates resp) ≫= cand_finish_reason))) as Hr.
  { subst r. unfold read_response. eff_unfold.
    by match goal with |- context [match ?x with pair _ _ => _ end] => destruct x end. }
  assert (forall s, from_gemini s <> ToolUse /\ from_gemini s <> StopSequence) as Hg.
  { intros s. unfold from_gemini. repeat case_decide; split; done. }
  clearbody r. subst r. split_and!.
  - destruct (head _ ≫= _); [apply Hg|done].
  - destruct (head _ ≫= _); [apply Hg|done].
  - intros c cs fc p ps Hc Hp Hf Hs. rewrite Hc. cbn. rewrite Hs. split; [|done].
    assert (exists i w1, read_response_part p w =
              (text_part p ++ [ToolCall i (gfc_name fc) (gfc_args fc) (gemini_signed p)], w1))
      as (i & w1 & E).
    { unfold read_response_part. rewrite Hf. unfold call_part. eff_unfold.
      destruct (unwrap_or_else (gfc_id fc) new_uuid w) as [i w1]. by exists i, w1. }
    unfold read_response. rewrite Hc. cbn. rewrite Hp. eff_unfold. cbn. eff_unfold. rewrite E.
    match goal with |- context [match mapM ?f ps w1 with pair _ _ => _ end] =>
      destruct (mapM f ps w1) as [l w2] end.
    cbn. rewrite !existsb_app. cbn. by rewrite orb_true_r.
Qed.

Lemma gemini_tool_call_end_turn_witness :
  let p := part_function_call_with_id "f" (obj []) "t" in
  let resp := {| candidates := [{| cand_content := {| gc_role := Some "model"; gc_parts := [p] |};
                                   cand_finish_reason := Some "STOP"; cand_index := Some 0 |}];
                 usage_metadata := None; model_version := None |} in
  to_claude (resp_stop_reason (fst (@read_response sample_env resp world0))) = "end_turn".
Proof.
  intros p resp.
  destruct (@gemini_tool_call_end_turn sample_env resp world0) as (_ & _ & Hc).
  by destruct (Hc (hd {| cand_content := {| gc_role := None; gc_parts := [] |};
                         cand_finish_reason := None; cand_index := None |} (candidates resp)) []
                 {| gfc_name := "f"; gfc_args := obj []; gfc_id := Some "t" |} p []) as (_ & E & _).
Defined.
