(* ===== verification/GeminiStream.v ===== *)
(** * Gemini's stream adapter

    [formats/gemini/stream.rs]. *)
From Stdlib Require Import ZArith.
From S2P Require Import Prelude.
From S2P Require Import RustStd.
From S2P Require Import Json.
From S2P Require Import Effects.
From S2P Require Import Format.
From S2P Require Import Ir.
From S2P Require Import Sse.
From S2P Require Import GeminiTypes.
From S2P Require Import Adapter.

Local Open Scope Z_scope.

(** [iter_mut().find(|tc| tc.index == index)] and [push_str]: the first call of
    that index gains the piece. The call as it is after. *)
Fixpoint push_arguments (index : Z) (delta : string) (calls : list AccumulatedToolCall)
  : option AccumulatedToolCall * list AccumulatedToolCall :=
  match calls with
  | [] => (None, [])
  | tc :: calls =>
      if tc_index tc =? index then
        let tc := {| tc_index := tc_index tc; tc_id := tc_id tc; tc_name := tc_name tc;
                     tc_arguments := tc_arguments tc +:+ delta |} in
        (Some tc, tc :: calls)
      else
        let '(found, calls) := push_arguments index delta calls in (found, tc :: calls)
  end.

Section gemini_stream.
Context `{SerdeJson} `{Env} `{Deserialize GeminiResponse} `{Serialize GeminiResponse}.

(** The function call of a part. *)
Definition parse_call (part : GeminiPart) : Stream (list CanonicalStreamEvent) :=
  match gp_function_call part with
  | Some fc =>
      _ ← st_modify (set_phase PhaseToolCalls);
      index ← st_run next_tool_call_index;
      id ← lift_eff (unwrap_or_else (gfc_id fc) draw_uuid);
      let start := ToolCallStart index id (gfc_name fc) (gp_thought_signature part) in
      if is_null (gfc_args fc) || is_empty_object (gfc_args fc) then mret [start]
      else
        args_str ← lift (map_err ErrJson (serde_to_string (gfc_args fc)));
        mret [start; ToolCallDelta index args_str]
  | None => mret []
  end.

(** One iteration of the loop over the parts; a thought with text goes on to
    the next part. *)
Definition parse_part (part : GeminiPart) : Stream (list CanonicalStreamEvent) :=
  match opt_filter (fun t => negb (is_empty t)) (gp_text part) with
  | Some text =>
      if decide (gp_thought part = Some true) then
        mret (ThinkingDelta text ::
              match gp_thought_signature part with
              | Some sig => [ThinkingSignature Gemini sig]
              | None => []
              end)
      else
        _ ← st_modify (set_phase PhaseContent);
        call ← parse_call part;
        mret (TextDelta text :: call)
  | None => parse_call part
  end.

(** The [Start] of the first chunk. *)
Definition parse_start (chunk : GeminiResponse) : Stream (list CanonicalStreamEvent) :=
  st ← st_gets (fun st => st);
  match response_id st with
  | None =>
      id ← lift_eff draw_uuid;
      let model := default "gemini" (model_version chunk) in
      _ ← st_modify (fun st => set_st_model (Some model) (set_response_id (Some id) st));
      mret [Start id model]
  | Some _ => mret []
  end.

Definition parse_usage (chunk : GeminiResponse) : Stream unit :=
  match usage_metadata chunk with
  | Some usage =>
      st_modify (set_accumulated_usage (Some
        {| input_tokens := default 0 (prompt_token_count usage);
           output_tokens := default 0 (candidates_token_count usage);
           cache_read_tokens := None; cache_write_tokens := None;
           cache_write_1h := None; reasoning_tokens := None |}))
  | None => mret tt
  end.

Definition parse_candidate (candidate : GeminiCandidate) : Stream (list CanonicalStreamEvent) :=
  events ← run_all parse_part (gc_parts (cand_content candidate));
  finish ← match cand_finish_reason candidate with
           | Some finish_reason =>
               _ ← st_modify (fun st => set_phase PhaseDone (set_done_ true st));
               usage ← st_gets accumulated_usage;
               mret [Done (from_gemini finish_reason) usage]
           | None => mret []
           end;
  mret (events ++ finish).

Definition gemini_parse (e : SseEvent) : Stream (list CanonicalStreamEvent) :=
  chunk ← lift (map_err SseParse (from_json (T := GeminiResponse) (data e)));
  start ← parse_start chunk;
  _ ← parse_usage chunk;
  events ← match head (candidates chunk) with
           | Some candidate => parse_candidate candidate
           | None => mret []
           end;
  mret (start ++ events).

Definition make_stream_response (parts : list GeminiPart) (finish_reason : option string)
  (usage : option GeminiUsageMetadata) : Stream string :=
  model ← st_gets st_model;
  lift (map_err ErrJson (to_json
    {| candidates :=
         [{| cand_content := {| gc_role := Some "model"; gc_parts := parts |};
             cand_finish_reason := finish_reason; cand_index := Some 0 |}];
       usage_metadata := usage;
       model_version := model |})).

Definition emit_parts (parts : list GeminiPart) : Stream (list string) :=
  chunk ← make_stream_response parts None None;
  mret [format_sse_data chunk].

Definition gemini_emit (e : CanonicalStreamEvent) : Stream (list string) :=
  match e with
  | SealedThinking _ _ => mret []
  | Start id model =>
      _ ← st_modify (fun st => set_st_model (Some model) (set_response_id (Some id) st));
      mret []
  | TextDelta text => emit_parts [part_text text]
  | ToolCallStart index id name signature =>
      _ ← st_modify (fun st =>
            set_accumulated_tool_calls
              (accumulated_tool_calls st ++
               [{| tc_index := index; tc_id := id; tc_name := name; tc_arguments := "" |}]) st);
      emit_parts [with_thought_signature signature (part_function_call_with_id name (obj []) id)]
  | ToolCallDelta index arguments_delta =>
      entry ← st_run (fun st =>
                let '(entry, calls) :=
                  push_arguments index arguments_delta (accumulated_tool_calls st) in
                (entry, set_accumulated_tool_calls calls st));
      match entry with
      | None => mret []
      | Some entry =>
          match value_from_str (tc_arguments entry) with
          | Ok args => emit_parts [part_function_call_with_id (tc_name entry) args (tc_id entry)]
          | Err _ => mret []
          end
      end
  | ThinkingDelta text =>
      _ ← st_modify (fun st => set_accumulated_text (accumulated_text st +:+ text) st);
      mret []
  | ThinkingSignature Gemini delta =>
      text ← st_run (fun st => (accumulated_text st, set_accumulated_text "" st));
      emit_parts [with_thought_signature (Some delta) (part_thinking text)]
  | ThinkingSignature _ _ => mret []
  | Done stop_reason usage =>
      _ ← st_modify (fun st => set_phase PhaseDone (set_done_ true st));
      _ ← match usage with
          | Some u => st_modify (set_accumulated_usage (Some u))
          | None => mret tt
          end;
      chunk ← make_stream_response [] (Some (to_gemini stop_reason))
        ((fun u => {| prompt_token_count := Some (input_tokens u);
                      candidates_token_count := Some (output_tokens u);
                      total_token_count := Some (u64_add (input_tokens u) (output_tokens u)) |})
           <$> usage);
      mret [format_sse_data chunk]
  end.

Definition GeminiStreamAdapter : StreamAdapter :=
  {| parse_sse_event := gemini_parse; emit_sse_event := gemini_emit |}.
End gemini_stream.
