(* ===== verification/GeminiStreamProps.v ===== *)
(** * What Gemini's stream adapter promises *)
From Stdlib Require Import ZArith Lia.
From S2P Require Import Prelude.
From S2P Require Import RustStd.
From S2P Require Import Json.
From S2P Require Import Effects.
From S2P Require Import Format.
From S2P Require Import Ir.
From S2P Require Import Sse.
From S2P Require Import Concrete.
From S2P Require Import GeminiTypes.
From S2P Require Import Adapter.
From S2P Require Import ConcreteWire.
From S2P Require Import GeminiStream.

Local Open Scope Z_scope.

(** The values and counts of a chunk are what serde_json can hold. *)
Definition wf_gemini_part (p : GeminiPart) : Prop :=
  match gp_function_call p with Some fc => wf_value (gfc_args fc) = true | None => True end /\
  match gp_function_response p with Some fr => wf_value (gfr_response fr) = true | None => True end.
Definition wf_gemini (r : GeminiResponse) : Prop :=
  Forall (fun c => Forall wf_gemini_part (gc_parts (cand_content c))) (candidates r) /\
  match usage_metadata r with
  | Some u =>
      match prompt_token_count u with Some n => is_u64 n | None => True end /\
      match candidates_token_count u with Some n => is_u64 n | None => True end /\
      match total_token_count u with Some n => is_u64 n | None => True end
  | None => True
  end.

(** ** Parsing *)

Section parse.
Context `{SerdeJson} `{Env} `{Deserialize GeminiResponse}.

(** What parsing [out] did to the tool-call counter. *)
Definition counted (st : StreamState) (out : list CanonicalStreamEvent) (st' : StreamState) : Prop :=
  is_u32 (tool_call_index st) ->
  tool_call_index st' = as_u32 (tool_call_index st + starts out) /\
  (tool_call_index st + starts out <= u32_max -> well_indexed (tool_call_index st) out = true).

Lemma counted_plain st out st' :
  tool_call_index st' = tool_call_index st -> Forall (fun e => is_tool_event e = false) out ->
  counted st out st'.
Proof.
  intros Ht Hp Hst. assert (starts out = 0 /\ well_indexed (tool_call_index st) out = true) as [E Hw].
  { clear -Hp. induction Hp as [|e out He _ IH]; [done|]. by destruct e. }
  rewrite E, Z.add_0_r, as_u32_id by done. done.
Qed.

Lemma counted_app st o1 st1 o2 st2 :
  counted st o1 st1 -> counted st1 o2 st2 -> counted st (o1 ++ o2) st2.
Proof.
  intros C1 C2 Hst. destruct (C1 Hst) as [E1 W1].
  assert (is_u32 (tool_call_index st1)) as Hst1 by (rewrite E1; apply as_u32_range).
  destruct (C2 Hst1) as [E2 W2]. pose proof (starts_nonneg o1). pose proof (starts_nonneg o2).
  rewrite starts_app. split.
  - rewrite E2, E1. unfold as_u32. rewrite Zplus_mod_idemp_l. f_equal. lia.
  - intros Hle. rewrite well_indexed_app, W1 by lia. cbn [andb].
    assert (tool_call_index st1 = tool_call_index st + starts o1) as E.
    { rewrite E1. apply as_u32_id. unfold is_u32 in *. lia. }
    rewrite <-E in *. apply W2. lia.
Qed.

Lemma counted_run {A} (f : A -> Stream (list CanonicalStreamEvent)) l st w out st' w' :
  (forall a st w out st' w', f a (st, w) = (Ok out, (st', w')) -> counted st out st') ->
  run_all f l (st, w) = (Ok out, (st', w')) -> counted st out st'.
Proof.
  intros Hf. revert st w out. induction l as [|a l IH]; intros st w out Hr.
  - cbn in Hr. unfold mret, stm_ret in Hr. simplify_eq. by apply counted_plain.
  - rewrite run_all_cons in Hr. destruct (f a (st, w)) as [[o1|] [st1 w1]] eqn:E1; [|done].
    destruct (run_all f l (st1, w1)) as [[o2|] [st2 w2]] eqn:E2; [|done].
    simplify_eq. apply (counted_app st o1 st1); [by eapply Hf|by eapply IH].
Qed.

Lemma parse_call_counted p st w out st' w' :
  parse_call p (st, w) = (Ok out, (st', w')) -> counted st out st'.
Proof.
  unfold parse_call. destruct (gp_function_call p) as [fc|];
    [|unfold mret, stm_ret; intros; simplify_eq; by apply counted_plain].
  monad_unfold. cbn. destruct (unwrap_or_else (gfc_id fc) draw_uuid w) as [id w1].
  intros Hp Hst.
  assert (tool_call_index st' = as_u32 (tool_call_index st + 1) /\
          exists n s rest, out = ToolCallStart (tool_call_index st) id n s :: rest /\
            (rest = [] \/ exists a, rest = [ToolCallDelta (tool_call_index st) a]))
    as (E & n & s & rest & -> & Hrest).
  { destruct (is_null (gfc_args fc) || is_empty_object (gfc_args fc)).
    - simplify_eq. split; [done|]. eexists _, _, []. split; [done|by left].
    - destruct (serde_to_string (gfc_args fc)) as [a|]; cbn in Hp; simplify_eq.
      split; [done|]. eexists _, _, [_]. split; [done|]. right. by eexists. }
  destruct Hst as [Hlo Hhi]. destruct Hrest as [->|[a ->]]; cbn; (split; [done|]); intros Hle;
    rewrite Z.eqb_refl; [done|]. cbn. rewrite andb_true_r. apply andb_true_intro. split; lia.
Qed.

Lemma parse_part_counted p st w out st' w' :
  parse_part p (st, w) = (Ok out, (st', w')) -> counted st out st'.
Proof.
  unfold parse_part. destruct (opt_filter _ (gp_text p)) as [t|]; [|apply parse_call_counted].
  destruct (decide (gp_thought p = Some true)).
  - unfold mret, stm_ret. intros. simplify_eq. apply counted_plain; [done|].
    by destruct (gp_thought_signature p); repeat constructor.
  - monad_unfold. cbn.
    destruct (parse_call p (set_phase PhaseContent st, w)) as [[o|] [st1 w1]] eqn:E; [|done].
    intros. simplify_eq. apply (counted_app st [TextDelta t] (set_phase PhaseContent st)).
    + apply counted_plain; [done|by repeat constructor].
    + by apply parse_call_counted in E.
Qed.

Lemma parse_candidate_counted c st w out st' w' :
  parse_candidate c (st, w) = (Ok out, (st', w')) -> counted st out st'.
Proof.
  unfold parse_candidate. monad_unfold.
  destruct (run_all parse_part _ (st, w)) as [[evs|] [s1 w1]] eqn:Er; [|done].
  apply (counted_run parse_part) in Er; [|apply parse_part_counted].
  destruct (cand_finish_reason c) as [fr|]; cbn; intros [= <- <- <-];
    apply (counted_app _ evs s1); try done; apply counted_plain; done || by repeat constructor.
Qed.

Lemma parse_start_spec chunk st w :
  exists out st' w', parse_start chunk (st, w) = (Ok out, (st', w')) /\
    tool_call_index st' = tool_call_index st /\ Forall (fun e => is_tool_event e = false) out.
Proof.
  unfold parse_start. monad_unfold. cbn.
  destruct (response_id st); cbn; eexists _, _, _; split_and!; try reflexivity; by repeat constructor.
Qed.

Lemma parse_usage_spec chunk st w :
  exists st', parse_usage chunk (st, w) = (Ok tt, (st', w)) /\
    tool_call_index st' = tool_call_index st.
Proof. unfold parse_usage. destruct (usage_metadata chunk); by eexists. Qed.

Lemma gemini_parse_counted e st w out st' w' :
  gemini_parse e (st, w) = (Ok out, (st', w')) -> counted st out st'.
Proof.
  unfold gemini_parse. monad_unfold.
  destruct (from_json (data e)) as [chunk|]; cbn -[parse_start parse_usage]; [|done].
  destruct (parse_start_spec chunk st w) as (o1 & st1 & w1 & -> & Ht1 & Ho1).
  destruct (parse_usage_spec chunk st1 w1) as (st2 & -> & Ht2).
  destruct (head (candidates chunk)) as [c|].
  - destruct (parse_candidate c (st2, w1)) as [[o2|] [st3 w3]] eqn:E; [|done].
    intros. simplify_eq. apply (counted_app st o1 st2); [|by apply parse_candidate_counted in E].
    apply counted_plain; [congruence|done].
  - intros. simplify_eq. rewrite app_nil_r. apply counted_plain; [congruence|done].
Qed.

(** Tool calls of a Gemini stream are numbered 0, 1, 2, ... in the order
    they arrive, over all its chunks, and the arguments of a call follow it
    under its number, as long as fewer than 2^32 calls arrive. *)
Theorem gemini_parse_well_indexed (es : list SseEvent) st w out st' w' :
  tool_call_index st = 0 ->
  run_all gemini_parse es (st, w) = (Ok out, (st', w')) ->
  starts out <= u32_max ->
  well_indexed 0 out = true /\ tool_call_index st' = starts out.
Proof.
  intros Ht Hr Hle. apply (counted_run gemini_parse) in Hr; [|apply gemini_parse_counted].
  unfold counted in Hr. rewrite Ht in Hr. destruct Hr as [E W]; [done|].
  split; [by apply W|]. rewrite E. apply as_u32_id. pose proof (starts_nonneg out).
  unfold is_u32. lia.
Qed.
End parse.

(** ** What is emitted is what is parsed *)

(** The pieces of a Gemini stream: a text, a thought with the signature that
    ends it, a call without arguments. *)
Inductive Block : Type :=
  | KText (text : string)
  | KThought (text signature : string)
  | KCall (id name : string) (signature : option string).

Definition block_ok (b : Block) : Prop :=
  match b with KText t | KThought t _ => t <> "" | KCall _ _ _ => True end.

Fixpoint block_events (n : Z) (bs : list Block) : list CanonicalStreamEvent :=
  match bs with
  | [] => []
  | KText t :: bs => TextDelta t :: block_events n bs
  | KThought t s :: bs => ThinkingDelta t :: ThinkingSignature Gemini s :: block_events n bs
  | KCall id name s :: bs => ToolCallStart n id name s :: block_events (n + 1) bs
  end.

Definition block_part (b : Block) : GeminiPart :=
  match b with
  | KText t => part_text t
  | KThought t s => with_thought_signature (Some s) (part_thinking t)
  | KCall id name s => with_thought_signature s (part_function_call_with_id name (obj []) id)
  end.

Definition chunk_of (model : string) (parts : list GeminiPart) (fr : option string)
  (us : option GeminiUsageMetadata) : GeminiResponse :=
  {| candidates := [{| cand_content := {| gc_role := Some "model"; gc_parts := parts |};
                       cand_finish_reason := fr; cand_index := Some 0 |}];
     usage_metadata := us; model_version := Some model |}.

Definition counts (us : option Usage) : option GeminiUsageMetadata :=
  (fun u => {| prompt_token_count := Some (input_tokens u);
               candidates_token_count := Some (output_tokens u);
               total_token_count := Some (u64_add (input_tokens u) (output_tokens u)) |}) <$> us.

Definition count_usage (u : Usage) : Usage :=
  {| input_tokens := input_tokens u; output_tokens := output_tokens u;
     cache_read_tokens := None; cache_write_tokens := None; cache_write_1h := None;
     reasoning_tokens := None |}.

Section gemini_roundtrip.
Context `{SerdeJson} `{Env} `{Serialize GeminiResponse} `{Deserialize GeminiResponse}
  `{!StructJson GeminiResponse wf_gemini}.

(** A frame that carries a chunk. *)
Definition carries (frame : string) (c : GeminiResponse) : Prop :=
  exists s, frame = format_sse_data s /\ from_json s = Ok c /\ wire_field s = true.

Lemma make_ok model parts fr us st w :
  st_model st = Some model -> Forall wf_gemini_part parts ->
  match us with Some u => is_u64 (input_tokens u) /\ is_u64 (output_tokens u) | None => True end ->
  exists s, make_stream_response parts fr (counts us) (st, w) = (Ok s, (st, w)) /\
    from_json s = Ok (chunk_of model parts fr (counts us)) /\ wire_field s = true.
Proof using StructJson0.
  intros Hm Hp Hu. unfold make_stream_response. monad_unfold. cbn. rewrite Hm.
  destruct (struct_roundtrip (wf := wf_gemini) (chunk_of model parts fr (counts us)))
    as (s & Hs & Hf & Hw & _).
  - split; [by repeat constructor|]. destruct us as [u|]; [|done]. destruct Hu.
    cbn. split_and!; [done|done|apply u64_add_range].
  - unfold chunk_of in Hs. rewrite Hs. by exists s.
Qed.

Lemma emit_block model b n st w :
  st_model st = Some model -> accumulated_text st = "" ->
  exists frame st', run_all gemini_emit (block_events n [b]) (st, w) = (Ok [frame], (st', w)) /\
    carries frame (chunk_of model [block_part b] None None) /\
    st_model st' = Some model /\ accumulated_text st' = "".
Proof using StructJson0.
  intros Hm Ht.
  assert (Forall wf_gemini_part [block_part b]) as Hwf by by destruct b; repeat constructor.
  destruct b as [t|t sg|id name sg]; cbn [block_events]; rewrite ?run_all_cons;
    cbn [gemini_emit]; unfold emit_parts; monad_unfold; cbn -[make_stream_response run_all].
  - destruct (make_ok model [block_part (KText t)] None None st w) as (s & E & Hf & Hw); try done.
    cbn in E. rewrite E. eexists _, st. split; [reflexivity|]. split; [by exists s|done].
  - rewrite run_all_cons. cbn -[make_stream_response run_all]. rewrite Ht, app_nil_l_str.
    unfold emit_parts. monad_unfold. cbn -[make_stream_response run_all].
    set (st1 := set_accumulated_text "" (set_accumulated_text t st)).
    destruct (make_ok model [block_part (KThought t sg)] None None st1 w) as (s & E & Hf & Hw); try done.
    cbn in E. rewrite E. eexists _, st1. split; [reflexivity|]. split; [by exists s|done].
  - set (st1 := set_accumulated_tool_calls _ st).
    destruct (make_ok model [block_part (KCall id name sg)] None None st1 w) as (s & E & Hf & Hw); try done.
    cbn in E. rewrite E. eexists _, st1. split; [reflexivity|]. split; [by exists s|done].
Qed.

Lemma block_events_cons n b bs :
  block_events n (b :: bs) =
  block_events n [b] ++ block_events (match b with KCall _ _ _ => n + 1 | _ => n end) bs.
Proof. by destruct b. Qed.

Lemma emit_blocks model bs n st w :
  st_model st = Some model -> accumulated_text st = "" ->
  exists frames st', run_all gemini_emit (block_events n bs) (st, w) = (Ok frames, (st', w)) /\
    Forall2 (fun f b => carries f (chunk_of model [block_part b] None None)) frames bs /\
    st_model st' = Some model.
Proof using StructJson0.
  revert n st. induction bs as [|b bs IH]; intros n st Hm Ht.
  - by exists [], st.
  - rewrite block_events_cons, run_all_app.
    destruct (emit_block model b n st w Hm Ht) as (f & st1 & -> & Hf & Hm1 & Ht1).
    destruct (IH (match b with KCall _ _ _ => n + 1 | _ => n end) st1 Hm1 Ht1)
      as (fs & st2 & -> & Hfs & Hm2).
    exists ([f] ++ fs), st2. split_and!; [done| |done]. by constructor.
Qed.

Lemma parse_block b sp w :
  block_ok b -> is_u32 (tool_call_index sp) ->
  exists sp', run_all parse_part [block_part b] (sp, w) =
      (Ok (block_events (tool_call_index sp) [b]), (sp', w)) /\
    response_id sp' = response_id sp /\ accumulated_usage sp' = accumulated_usage sp /\
    tool_call_index sp' =
      match b with KCall _ _ _ => u32_add (tool_call_index sp) 1 | _ => tool_call_index sp end.
Proof.
  intros Hb Hi. rewrite run_all_cons. destruct b as [t|t sg|id name sg]; cbn in Hb.
  - unfold parse_part. cbn [block_part part_text gp_text].
    assert (is_empty t = false) as Et by by destruct t. cbn [opt_filter]. rewrite Et.
    cbn. monad_unfold. cbn. eexists. split_and!; reflexivity.
  - unfold parse_part. cbn [block_part part_thinking with_thought_signature gp_text].
    assert (is_empty t = false) as Et by by destruct t. cbn [opt_filter]. rewrite Et.
    cbn. monad_unfold. eexists. split_and!; reflexivity.
  - cbn. monad_unfold. cbn. eexists. split_and!; reflexivity.
Qed.

Lemma parse_frame_block model b s sp w :
  from_json s = Ok (chunk_of model [block_part b] None None) ->
  response_id sp <> None -> block_ok b -> is_u32 (tool_call_index sp) ->
  exists sp', gemini_parse {| event := None; data := s |} (sp, w) =
      (Ok (block_events (tool_call_index sp) [b]), (sp', w)) /\
    response_id sp' <> None /\ accumulated_usage sp' = accumulated_usage sp /\
    tool_call_index sp' =
      match b with KCall _ _ _ => u32_add (tool_call_index sp) 1 | _ => tool_call_index sp end.
Proof.
  intros Hs Hr Hb Hi. unfold gemini_parse. cbn [data]. monad_unfold. rewrite Hs.
  unfold parse_start. monad_unfold. cbn -[run_all parse_part].
  destruct (response_id sp) as [rid|] eqn:Er; [|done]. cbn -[run_all parse_part].
  unfold parse_candidate. monad_unfold. cbn -[run_all parse_part].
  destruct (parse_block b sp w Hb Hi) as (sp' & -> & E1 & E2 & E3).
  exists sp'. cbn. rewrite app_nil_r. split_and!; [done|by rewrite E1, Er|done|done].
Qed.

Lemma carries_event frame c :
  carries frame c -> exists s, events_of [frame] = [{| event := None; data := s |}] /\ from_json s = Ok c.
Proof. intros (s & -> & Hs & Hw). exists s. by rewrite events_of_data. Qed.

Lemma parse_blocks model frames bs sp w :
  Forall2 (fun f b => carries f (chunk_of model [block_part b] None None)) frames bs ->
  Forall block_ok bs -> response_id sp <> None -> 0 <= tool_call_index sp ->
  tool_call_index sp + starts (block_events (tool_call_index sp) bs) <= u32_max ->
  exists sp', run_all gemini_parse (events_of frames) (sp, w) =
      (Ok (block_events (tool_call_index sp) bs), (sp', w)) /\
    response_id sp' <> None /\ accumulated_usage sp' = accumulated_usage sp.
Proof.
  intros Hf. revert sp. induction Hf as [|f b fs bs Hc _ IH]; intros sp Hb Hr H0' Hle.
  - by exists sp.
  - inversion Hb as [|? ? Hb1 Hbs]; subst.
    rewrite block_events_cons, starts_app in Hle.
    pose proof (starts_nonneg (block_events (match b with KCall _ _ _ => tool_call_index sp + 1
      | _ => tool_call_index sp end) bs)).
    pose proof (starts_nonneg (block_events (tool_call_index sp) [b])).
    destruct (carries_event _ _ Hc) as (s & He & Hs).
    change (f :: fs) with ([f] ++ fs). rewrite events_of_app, He. cbn [app].
    destruct (parse_frame_block model b s sp w Hs Hr Hb1) as (sp1 & Hp & Hr1 & Hu1 & Ht1).
    { unfold is_u32. lia. }
    assert (tool_call_index sp1 =
            match b with KCall _ _ _ => tool_call_index sp + 1 | _ => tool_call_index sp end) as E.
    { rewrite Ht1. destruct b; [done|done|]. unfold u32_add. apply as_u32_id.
      cbn in Hle. unfold is_u32. lia. }
    destruct (IH sp1 Hbs Hr1) as (sp2 & Hrun & Hr2 & Hu2).
    { rewrite E. destruct b; lia. }
    { rewrite E. destruct b; cbn in *; lia. }
    exists sp2. rewrite run_all_cons, Hp, Hrun, E, (block_events_cons _ b bs).
    split_and!; [done|done|congruence].
Qed.

Lemma parse_done model s r us sp w :
  from_json s = Ok (chunk_of model [] (Some (to_gemini r)) (counts us)) ->
  response_id sp <> None -> accumulated_usage sp = None ->
  exists sp', gemini_parse {| event := None; data := s |} (sp, w) =
    (Ok [Done (from_gemini (to_gemini r)) (count_usage <$> us)], (sp', w)).
Proof.
  intros Hs Hr Hu. unfold gemini_parse. cbn [data]. monad_unfold. rewrite Hs.
  unfold parse_start, parse_usage. monad_unfold. cbn.
  destruct (response_id sp) as [rid|] eqn:Er; [|done].
  destruct us as [u|]; cbn; monad_unfold; cbn; rewrite ?Hu; by eexists.
Qed.

(** The first chunk is parsed with its [Start] before it. *)
Lemma gemini_parse_first e chunk model sp w :
  from_json (data e) = Ok chunk -> model_version chunk = Some model -> response_id sp = None ->
  let id := uuid_v4 (uuids_drawn w) in
  let w1 := {| uuids_drawn := S (uuids_drawn w); clock_reads := clock_reads w |} in
  gemini_parse e (sp, w) =
  match gemini_parse e (set_st_model (Some model) (set_response_id (Some id) sp), w1) with
  | (Ok out, s) => (Ok (Start id model :: out), s)
  | (Err err, s) => (Err err, s)
  end.
Proof.
  intros Hc Hm Hr id w1. unfold gemini_parse. monad_unfold. rewrite Hc.
  unfold parse_start. monad_unfold. cbn -[parse_usage parse_candidate].
  rewrite Hr, Hm. cbn -[parse_usage parse_candidate].
  destruct (parse_usage chunk _) as [[u|] s1]; [|done].
  destruct (head (candidates chunk)) as [c|]; [|done].
  by destruct (parse_candidate c s1) as [[o|] s2].
Qed.

Lemma emit_done_ok model r us st w :
  st_model st = Some model ->
  match us with Some u => is_u64 (input_tokens u) /\ is_u64 (output_tokens u) | None => True end ->
  exists s st', gemini_emit (Done r us) (st, w) = (Ok [format_sse_data s], (st', w)) /\
    from_json s = Ok (chunk_of model [] (Some (to_gemini r)) (counts us)) /\
    wire_field s = true /\ done_ st' = true.
Proof using StructJson0.
  intros Hm Hu. cbn [gemini_emit].
  change ((fun u => {| prompt_token_count := Some (input_tokens u);
                       candidates_token_count := Some (output_tokens u);
                       total_token_count := Some (u64_add (input_tokens u) (output_tokens u)) |})
            <$> us) with (counts us).
  monad_unfold.
  destruct us as [u|]; cbn -[make_stream_response counts].
  - set (st3 := set_accumulated_usage (Some u) (set_phase PhaseDone (set_done_ true st))).
    destruct (make_ok model [] (Some (to_gemini r)) (Some u) st3 w) as (s & -> & Hs & Hw); try done.
    by exists s, st3.
  - set (st3 := set_phase PhaseDone (set_done_ true st)).
    destruct (make_ok model [] (Some (to_gemini r)) None st3 w) as (s & -> & Hs & Hw); try done.
    by exists s, st3.
Qed.

(** C11: the Gemini stream adapter reads what it writes. A canonical stream of
    texts, thoughts each ended by Gemini's signature, and calls without
    arguments, numbered in order, is emitted without error, one chunk each;
    a client that parses the chunks with the same adapter gets the same
    events in the same order between a [Start] with an identifier of its own
    and the terminal event, whose two token counts it also gets. *)
Theorem gemini_stream_roundtrip (id model : string) (bs : list Block) (r : StopReason)
  (us : option Usage) w wp :
  Forall block_ok bs -> starts (block_events 0 bs) <= u32_max ->
  match us with Some u => is_u64 (input_tokens u) /\ is_u64 (output_tokens u) | None => True end ->
  exists frames st',
    run_all gemini_emit ([Start id model] ++ block_events 0 bs ++ [Done r us]) (StreamState_new, w) =
      (Ok frames, (st', w)) /\ done_ st' = true /\
    length frames = S (length bs) /\
    fst (run_all gemini_parse (events_of frames) (StreamState_new, wp)) =
      Ok ([Start (uuid_v4 (uuids_drawn wp)) model] ++ block_events 0 bs ++
          [Done (from_gemini (to_gemini r)) (count_usage <$> us)]).
Proof using StructJson0.
  intros Hb Hle Hu.
  cbn [app]. rewrite run_all_cons. cbn [gemini_emit]. monad_unfold. cbn -[run_all].
  set (st1 := set_st_model (Some model) (set_response_id (Some id) StreamState_new)).
  rewrite run_all_app.
  destruct (emit_blocks model bs 0 st1 w) as (fs & st2 & -> & Hfs & Hm2); [done|done|].
  rewrite run_all_cons.
  destruct (emit_done_ok model r us st2 w Hm2 Hu) as (s & st3 & -> & Hs & Hw & Hd3).
  change (run_all gemini_emit [] (st3, w)) with (@Ok ConvertError (list string) [], (st3, w)).
  eexists _, st3. split; [reflexivity|]. split; [done|]. cbn [app].
  pose proof (Forall2_length Hfs) as Hlen.
  split; [rewrite length_app, Hlen; cbn; lia|].
  rewrite events_of_app, events_of_data by done.
  set (id' := uuid_v4 (uuids_drawn wp)).
  set (w1 := {| uuids_drawn := S (uuids_drawn wp); clock_reads := clock_reads wp |}).
  set (sp0 := set_st_model (Some model) (set_response_id (Some id') StreamState_new)).
  destruct (parse_blocks model fs bs sp0 w1 Hfs Hb) as (sp1 & Hp & Hr1 & Hu1); [done|done|done|].
  destruct (parse_done model s r us sp1 w1 Hs Hr1) as (sp2 & Hpd); [by rewrite Hu1|].
  destruct Hfs as [|f b fs bs Hc Hfs].
  - cbn [events_of filter_map app]. unfold events_of, filter_map. cbn [omap list_omap app].
    rewrite run_all_cons.
    rewrite (gemini_parse_first _ (chunk_of model [] (Some (to_gemini r)) (counts us)) model) by done.
    fold id' w1 sp0. cbn in Hp. unfold mret, stm_ret in Hp. simplify_eq.
    rewrite Hpd. reflexivity.
  - destruct (carries_event _ _ Hc) as (sb & He & Hsb).
    change (f :: fs) with ([f] ++ fs) in *. rewrite events_of_app, He in *. cbn [app] in *.
    rewrite run_all_cons in *.
    rewrite (gemini_parse_first _ (chunk_of model [block_part b] None None) model) by done.
    fold id' w1 sp0.
    destruct (gemini_parse {| event := None; data := sb |} (sp0, w1)) as [[o1|] s1]; [|done].
    rewrite run_all_app.
    destruct (run_all gemini_parse (events_of fs) s1) as [[o2|] s2]; [|done].
    change (tool_call_index sp0) with 0 in Hp.
    assert (o1 ++ o2 = block_events 0 (b :: bs)) as Ho by congruence.
    assert (s2 = (sp1, w1)) as -> by congruence.
    rewrite run_all_cons, Hpd. cbn -[block_events].
    by rewrite app_assoc, Ho.
Qed.

(** The parts a client finds in the chunks. *)
Definition event_parts (e : SseEvent) : list GeminiPart :=
  match from_json (T := GeminiResponse) (data e) with
  | Ok r => flat_map (fun c => gc_parts (cand_content c)) (candidates r)
  | Err _ => []
  end.
Definition parts_of (frames : list string) : list GeminiPart :=
  flat_map event_parts (events_of frames).

Lemma parts_of_app l1 l2 : parts_of (l1 ++ l2) = parts_of l1 ++ parts_of l2.
Proof. unfold parts_of. by rewrite events_of_app, flat_map_app. Qed.

Lemma parts_of_chunk s model parts fr us :
  from_json s = Ok (chunk_of model parts fr us) -> wire_field s = true ->
  parts_of [format_sse_data s] = parts.
Proof.
  intros Hs Hw. unfold parts_of, event_parts. rewrite events_of_data by done. cbn [flat_map data].
  rewrite Hs. cbn. by rewrite !app_nil_r.
Qed.

Definition text_of_event (e : CanonicalStreamEvent) : option string :=
  match e with TextDelta t => Some t | _ => None end.

(** Text, and thinking Gemini did not sign. *)
Definition unsigned_event (e : CanonicalStreamEvent) : Prop :=
  match e with
  | TextDelta _ | ThinkingDelta _ => True
  | ThinkingSignature f _ => f <> Gemini
  | _ => False
  end.

Lemma emit_unsigned model es st w :
  st_model st = Some model -> Forall unsigned_event es ->
  exists frames st', run_all gemini_emit es (st, w) = (Ok frames, (st', w)) /\
    st_model st' = Some model /\
    parts_of frames = map part_text (filter_map text_of_event es).
Proof using StructJson0.
  intros Hm Hes. revert st Hm. induction Hes as [|e es He _ IH]; intros st Hm.
  - by exists [], st.
  - rewrite run_all_cons. destruct e as [|t| | |t|f d| |]; try done; cbn [gemini_emit].
    + unfold emit_parts. monad_unfold.
      destruct (make_ok model [part_text t] None None st w) as (s & E & Hs & Hw); try done.
      { by repeat constructor. }
      cbn in E. rewrite E. destruct (IH st Hm) as (fs & st' & -> & Hm' & Hp).
      eexists _, st'. split; [reflexivity|]. split; [done|].
      by rewrite parts_of_app, (parts_of_chunk s _ _ _ _ Hs Hw), Hp.
    + monad_unfold. cbn -[run_all].
      destruct (IH (set_accumulated_text (accumulated_text st +:+ t) st) Hm) as (fs & st' & -> & Hm' & Hp).
      by exists fs, st'.
    + destruct (IH st Hm) as (fs & st' & E & Hm' & Hp). exists fs, st'.
      destruct f; try done; monad_unfold; by rewrite E.
Qed.

(** A finding about thinking. On a Gemini stream, thinking that Gemini did
    not sign, which is all the thinking of another vendor's model, never
    reaches the client: whatever thinking a reply streams between its texts,
    the parts of the emitted chunks are the texts. (The builder of whole
    responses writes the same thinking as text.) *)
Theorem gemini_emit_thinking_lost (id model : string) (es : list CanonicalStreamEvent)
  (r : StopReason) (us : option Usage) w :
  Forall unsigned_event es ->
  match us with Some u => is_u64 (input_tokens u) /\ is_u64 (output_tokens u) | None => True end ->
  exists frames st', run_all gemini_emit ([Start id model] ++ es ++ [Done r us]) (StreamState_new, w) =
      (Ok frames, (st', w)) /\
    parts_of frames = map part_text (filter_map text_of_event es).
Proof using StructJson0.
  intros Hes Hu. cbn [app]. rewrite run_all_cons. cbn [gemini_emit]. monad_unfold. cbn -[run_all].
  rewrite run_all_app.
  destruct (emit_unsigned model es (set_st_model (Some model) (set_response_id (Some id) StreamState_new)) w)
    as (fs & st' & -> & Hm & Hp); [done|done|].
  rewrite run_all_cons. destruct (emit_done_ok model r us st' w Hm Hu) as (s & st2 & -> & Hs & Hw & _).
  eexists _, st2. split; [reflexivity|]. cbn [app].
  by rewrite parts_of_app, Hp, (parts_of_chunk s _ _ _ _ Hs Hw), app_nil_r.
Qed.

(** A finding about calls. A tool call with arguments is written as two
    function calls with the same identifier: one without arguments when it
    starts and one with them when they are complete, so a client that runs
    the calls it is sent runs it twice. *)
Theorem gemini_emit_call_twice `{!SerdeJsonLaws} (id model cid name : string) (args : Value) w :
  wf_value args = true ->
  exists frames st', run_all gemini_emit
      [Start id model; ToolCallStart 0 cid name None; ToolCallDelta 0 (value_to_string args)]
      (StreamState_new, w) = (Ok frames, (st', w)) /\
    parts_of frames = [part_function_call_with_id name (obj []) cid;
                       part_function_call_with_id name args cid].
Proof using StructJson0.
  intros Ha. rewrite run_all_cons. cbn [gemini_emit]. monad_unfold. cbn -[run_all].
  rewrite run_all_cons. cbn [gemini_emit]. unfold emit_parts. monad_unfold.
  cbn -[run_all make_stream_response].
  set (st1 := set_accumulated_tool_calls _ _).
  destruct (make_ok model [part_function_call_with_id name (obj []) cid] None None st1 w)
    as (s & E & Hs & Hw); [done|by repeat constructor|done|]. cbn in E.
  change (with_thought_signature None (part_function_call_with_id name (obj []) cid))
    with (part_function_call_with_id name (obj []) cid).
  change (VObject []) with (obj []) in E. cbn in E. rewrite E. clear E.
  rewrite run_all_cons. cbn [gemini_emit]. unfold emit_parts. monad_unfold.
  cbn -[run_all make_stream_response value_from_str value_to_string].
  rewrite app_nil_l_str, value_from_to_string by done.
  match goal with |- context [make_stream_response _ _ _ (?st2, w)] => set (st2' := st2) end.
  destruct (make_ok model [part_function_call_with_id name args cid] None None st2' w)
    as (s2 & E2 & Hs2 & Hw2); [done|by repeat constructor|done|]. cbn in E2. rewrite E2.
  eexists _, st2'. split; [reflexivity|]. cbn [app].
  change [format_sse_data s; format_sse_data s2] with ([format_sse_data s] ++ [format_sse_data s2]).
  by rewrite parts_of_app, (parts_of_chunk s _ _ _ _ Hs Hw), (parts_of_chunk s2 _ _ _ _ Hs2 Hw2).
Qed.
End gemini_roundtrip.

Lemma gemini_stream_roundtrip_witness :
  exists frames st',
    run_all (@gemini_emit _ wire_to_json)
      ([Start "a" "m"] ++ block_events 0 [KText "hi"; KThought "hm" "sig"; KCall "t" "f" None] ++
       [Done EndTurn (Some Usage_default)]) (StreamState_new, world0) = (Ok frames, (st', world0)) /\
    done_ st' = true /\ length frames = 4%nat /\
    fst (run_all (@gemini_parse _ sample_env wire_from_json) (events_of frames) (StreamState_new, world0)) =
      Ok ([Start "u" "m"] ++ block_events 0 [KText "hi"; KThought "hm" "sig"; KCall "t" "f" None] ++
          [Done EndTurn (Some Usage_default)]).
Proof.
  apply (@gemini_stream_roundtrip _ sample_env wire_to_json wire_from_json (wire_struct_json wf_gemini)
           "a" "m" [KText "hi"; KThought "hm" "sig"; KCall "t" "f" None] EndTurn (Some Usage_default)
           world0 world0).
  - repeat constructor; discriminate.
  - vm_compute. discriminate.
  - repeat split; vm_compute; discriminate.
Defined.

Lemma gemini_emit_thinking_lost_witness :
  exists frames st',
    run_all (@gemini_emit _ wire_to_json)
      ([Start "a" "m"] ++ [ThinkingDelta "hm"; TextDelta "hi"] ++ [Done EndTurn None])
      (StreamState_new, world0) = (Ok frames, (st', world0)) /\
    @parts_of wire_from_json frames = [part_text "hi"].
Proof.
  apply (@gemini_emit_thinking_lost _ wire_to_json wire_from_json (wire_struct_json wf_gemini)
           "a" "m" [ThinkingDelta "hm"; TextDelta "hi"] EndTurn None world0).
  - by repeat constructor.
  - exact I.
Defined.

Lemma gemini_emit_call_twice_witness :
  exists frames st',
    run_all (@gemini_emit _ wire_to_json)
      [Start "a" "m"; ToolCallStart 0 "t" "f" None; ToolCallDelta 0 (value_to_string (num 1))]
      (StreamState_new, world0) = (Ok frames, (st', world0)) /\
    @parts_of wire_from_json frames =
      [part_function_call_with_id "f" (obj []) "t"; part_function_call_with_id "f" (num 1) "t"].
Proof.
  apply (@gemini_emit_call_twice _ wire_to_json wire_from_json (wire_struct_json wf_gemini) _
           "a" "m" "t" "f" (num 1) world0).
  reflexivity.
Defined.

Definition sample_chunk : Deserialize GeminiResponse := fun _ =>
  Ok (chunk_of "m" [part_text "hi"; part_function_call_with_id "f" (num 1) "t"] None None).

Lemma gemini_parse_well_indexed_witness :
  let es := [{| event := None; data := "1" |}; {| event := None; data := "2" |}] in
  exists out st' w', run_all (@gemini_parse _ sample_env sample_chunk) es (StreamState_new, world0) =
    (Ok out, (st', w')) /\ starts out = 2 /\ well_indexed 0 out = true.
Proof.
  intros es. eexists _, _, _. split; [vm_compute; reflexivity|]. split; [reflexivity|].
  eapply (@gemini_parse_well_indexed _ sample_env sample_chunk es StreamState_new world0).
  - reflexivity.
  - vm_compute. reflexivity.
  - vm_compute. discriminate.
Defined.
