(* ===== verification/Base64.v ===== *)
(** * The base64 of the sealed reasoning items

    [base64_encode] and [base64_decode] of [formats/openai_resp/build.rs]. A
    byte string is a [string]. *)
From Stdlib Require Import ZArith Lia.
From S2P Require Import Prelude.
From S2P Require Import RustStd.

Local Open Scope Z_scope.

Definition byte_code (c : ascii) : Z := Z.of_N (N_of_ascii c).
Definition byte_of (z : Z) : ascii := ascii_of_N (Z.to_N z).

Fixpoint bytes (s : string) : list Z :=
  match s with EmptyString => [] | String c s => byte_code c :: bytes s end.

(** [bytes.chunks(3)]. *)
Fixpoint chunks3 (l : list Z) : list (list Z) :=
  match l with
  | a :: b :: c :: l => [a; b; c] :: chunks3 l
  | [] => []
  | l => [l]
  end.

Definition BASE64 : string := "ABCDEFGHIJKLMNOPQRSTUVWXYZabcdefghijklmnopqrstuvwxyz0123456789+/".
Definition base64_char (v : Z) : ascii := default "="%char (String.get (Z.to_nat v) BASE64).

(** The 24 bits of a chunk. *)
Definition chunk_bits (chunk : list Z) : Z :=
  fold_left Z.lor (imap (fun i b => Z.shiftl b (16 - 8 * Z.of_nat i)) chunk) 0.

Definition encode_chunk (chunk : list Z) : string :=
  let n := chunk_bits chunk in
  foldr String ""
    (map (fun i =>
       if (i <=? length chunk)%nat
       then base64_char (Z.land (Z.shiftr n (18 - 6 * Z.of_nat i)) 63)
       else "="%char) [0; 1; 2; 3]%nat).

Definition base64_encode (s : string) : string := concat_strings (map encode_chunk (chunks3 (bytes s))).

Definition base64_value (c : ascii) : option Z :=
  let n := byte_code c in
  if (65 <=? n) && (n <=? 90) then Some (n - 65) else
  if (97 <=? n) && (n <=? 122) then Some (n - 97 + 26) else
  if (48 <=? n) && (n <=? 57) then Some (n - 48 + 52) else
  if n =? 43 then Some 62 else
  if n =? 47 then Some 63 else
  None.

(** The loop, from the values of [acc] and [bits]; what it pushes. *)
Fixpoint decode_loop (s : string) (acc bits : Z) : option string :=
  match s with
  | EmptyString => Some ""
  | String c s =>
      value ← base64_value c;
      let acc := Z.lor (as_u32 (Z.shiftl acc 6)) value in
      let bits := bits + 6 in
      if 8 <=? bits then
        let bits := bits - 8 in
        rest ← decode_loop s acc bits;
        Some (String (byte_of (as_u8 (Z.shiftr acc bits))) rest)
      else decode_loop s acc bits
  end.

Definition base64_decode (text : string) : option string :=
  decode_loop (trim_end_matches "=" text) 0 0.

(** ** Decoding what was encoded *)

Definition is_byte (z : Z) : Prop := 0 <= z < 256.

Lemma byte_code_range c : is_byte (byte_code c).
Proof. unfold byte_code, is_byte. pose proof (N_ascii_bounded c). lia. Qed.

Lemma byte_of_code c : byte_of (byte_code c) = c.
Proof. unfold byte_of, byte_code. rewrite N2Z.id. apply ascii_N_embedding. Qed.

Lemma land_shifted x y k : 0 <= k -> 0 <= y < 2 ^ k -> Z.land (x * 2 ^ k) y = 0.
Proof.
  intros Hk Hy. apply Z.bits_inj'. intros n Hn. rewrite Z.land_spec, Z.bits_0.
  destruct (Z.ltb_spec n k); [by rewrite Z.mul_pow2_bits_low|].
  destruct (Z.eq_dec y 0) as [->|]; [by rewrite Z.bits_0, andb_false_r|].
  rewrite (Z.bits_above_log2 y), andb_false_r; [done|lia|].
  apply Z.log2_lt_pow2; [lia|]. apply (Z.lt_le_trans _ (2 ^ k)); [lia|]. apply Z.pow_le_mono_r; lia.
Qed.

Lemma lor_add x y k : 0 <= k -> 0 <= y < 2 ^ k -> Z.lor (Z.shiftl x k) y = x * 2 ^ k + y.
Proof.
  intros Hk Hy. rewrite Z.shiftl_mul_pow2 by done. pose proof (land_shifted x y k Hk Hy) as E.
  by rewrite <-Z.lxor_lor, Z.add_nocarry_lxor.
Qed.

Lemma land_63 x : Z.land x 63 = x mod 64.
Proof. change 63 with (Z.ones 6). by rewrite Z.land_ones. Qed.

Lemma base64_char_value v : 0 <= v < 64 -> base64_value (base64_char v) = Some v.
Proof.
  intros Hv.
  assert (forallb (fun i => bool_decide (base64_value (base64_char (Z.of_nat i)) = Some (Z.of_nat i)))
            (seq 0 64) = true) as H by (vm_compute; reflexivity).
  rewrite forallb_forall in H. specialize (H (Z.to_nat v)).
  rewrite Z2Nat.id in H by lia. rewrite bool_decide_eq_true in H. apply H.
  apply in_seq. lia.
Qed.

Lemma base64_char_not_pad v : 0 <= v < 64 -> base64_char v <> "="%char.
Proof. intros Hv E. pose proof (base64_char_value v Hv) as H. by rewrite E in H. Qed.

(** One character of the loop, in arithmetic. *)
Definition push6 (acc v : Z) : Z := (acc mod 2 ^ 26) * 64 + v.

Lemma acc_step acc v : 0 <= v < 64 -> Z.lor (as_u32 (Z.shiftl acc 6)) v = push6 acc v.
Proof.
  intros Hv. unfold as_u32, push6. rewrite Z.shiftl_mul_pow2 by done.
  change (2 ^ 32) with (2 ^ 26 * 2 ^ 6). rewrite Z.mul_mod_distr_r by done.
  rewrite <-Z.shiftl_mul_pow2 by done. by rewrite lor_add.
Qed.

Lemma decode_char v s acc bits :
  0 <= v < 64 ->
  decode_loop (String (base64_char v) s) acc bits =
  if 8 <=? bits + 6 then
    rest ← decode_loop s (push6 acc v) (bits - 2);
    Some (String (byte_of (as_u8 (Z.shiftr (push6 acc v) (bits - 2)))) rest)
  else decode_loop s (push6 acc v) (bits + 6).
Proof.
  intros Hv. cbn [decode_loop]. rewrite base64_char_value by done. cbn [mbind option_bind].
  rewrite acc_step by done. by replace (bits + 6 - 8) with (bits - 2) by lia.
Qed.

(** The sextets of 24 bits. *)
Definition sextet (n i : Z) : Z := n / 2 ^ (18 - 6 * i) mod 64.

Lemma sextet_range n i : 0 <= sextet n i < 64.
Proof. unfold sextet. by apply Z.mod_pos_bound. Qed.

(** The byte the loop pushes takes [8 - k] bits of the last but one sextet and
    the rest of the last one, whatever came before. *)
Lemma pushed_byte acc u v k :
  0 <= u < 64 -> 0 <= v < 64 -> 0 <= k <= 4 ->
  as_u8 (Z.shiftr (push6 (push6 acc u) v) k) = (u * 64 + v) / 2 ^ k mod 256.
Proof.
  intros Hu Hv Hk. unfold as_u8, push6. rewrite Z.shiftr_div_pow2 by lia.
  set (x := acc mod 2 ^ 26). change (2 ^ 26) with (64 * 2 ^ 20).
  rewrite Z.rem_mul_r by done.
  rewrite (Z.add_comm (x * 64) u), Z.mod_add, (Z.mod_small u), Z.div_add, (Z.div_small u) by lia.
  set (t := (0 + x) mod 2 ^ 20).
  replace ((u + 64 * t) * 64 + v) with ((t * 2 ^ (4 - k) * 256) * 2 ^ k + (u * 64 + v)).
  - rewrite Z.div_add_l by lia. by rewrite Z.add_comm, Z.mod_add.
  - rewrite <-!Z.mul_assoc, (Z.mul_comm 256), (Z.mul_assoc (2 ^ (4 - k))), <-Z.pow_add_r by lia.
    replace (4 - k + k) with 4 by lia. lia.
Qed.

(** Two neighbouring sextets are twelve bits of [n]. *)
Lemma sextet_pair n i :
  0 <= i <= 2 -> sextet n i * 64 + sextet n (i + 1) = n / 2 ^ (12 - 6 * i) mod 4096.
Proof.
  intros Hi. unfold sextet. change 4096 with (64 * 64).
  rewrite (Z.rem_mul_r _ 64 64), Z.div_div by (try apply Z.pow_pos_nonneg; lia).
  change 64 with (2 ^ 6) at 6. rewrite <-Z.pow_add_r by lia.
  replace (18 - 6 * (i + 1)) with (12 - 6 * i) by lia.
  replace (12 - 6 * i + 6) with (18 - 6 * i) by lia. lia.
Qed.

Lemma sextets_first n : 0 <= n < 2 ^ 24 -> (sextet n 0 * 64 + sextet n 1) / 2 ^ 4 mod 256 = n / 65536.
Proof.
  intros Hn. pose proof (sextet_pair n 0 ltac:(lia)) as E.
  change (sextet n 0 * 64 + sextet n 1 = n / 2 ^ 12 mod 4096) in E. rewrite E. clear E.
  rewrite (Z.mod_small (n / 2 ^ 12)) by (split; [apply Z.div_pos|apply Z.div_lt_upper_bound]; lia).
  rewrite Z.div_div by done. change (2 ^ 12 * 2 ^ 4) with 65536.
  apply Z.mod_small. split; [apply Z.div_pos|apply Z.div_lt_upper_bound]; lia.
Qed.
Lemma sextets_second n : (sextet n 1 * 64 + sextet n 2) / 2 ^ 2 mod 256 = n / 256 mod 256.
Proof.
  pose proof (sextet_pair n 1 ltac:(lia)) as E.
  change (sextet n 1 * 64 + sextet n 2 = n / 2 ^ 6 mod 4096) in E. rewrite E. clear E.
  change 4096 with (2 ^ 2 * 1024). rewrite Z.rem_mul_r by done.
  rewrite Z.add_comm, Z.mul_comm, Z.div_add_l by done.
  rewrite (Z.div_small (_ mod 2 ^ 2)) by (by apply Z.mod_pos_bound). rewrite Z.add_0_r.
  change 1024 with (256 * 4). rewrite Z.rem_mul_r by done.
  rewrite (Z.mul_comm 256), Z.mod_add, Z.mod_mod by done.
  by rewrite Z.div_div.
Qed.
Lemma sextets_third n : (sextet n 2 * 64 + sextet n 3) / 2 ^ 0 mod 256 = n mod 256.
Proof.
  pose proof (sextet_pair n 2 ltac:(lia)) as E.
  change (sextet n 2 * 64 + sextet n 3 = n / 2 ^ 0 mod 4096) in E. rewrite E. clear E. change (2 ^ 0) with 1.
  rewrite !Z.div_1_r. change 4096 with (256 * 16). rewrite Z.rem_mul_r by done.
  by rewrite (Z.mul_comm 256), Z.mod_add, Z.mod_mod.
Qed.

Lemma decode_first v s acc :
  0 <= v < 64 -> decode_loop (String (base64_char v) s) acc 0 = decode_loop s (push6 acc v) 6.
Proof. intros Hv. by rewrite decode_char. Qed.

Lemma decode_next u v s acc bits :
  0 <= u < 64 -> 0 <= v < 64 -> 2 <= bits <= 6 ->
  decode_loop (String (base64_char v) s) (push6 acc u) bits =
  String (byte_of ((u * 64 + v) / 2 ^ (bits - 2) mod 256)) <$>
  decode_loop s (push6 (push6 acc u) v) (bits - 2).
Proof.
  intros Hu Hv Hb. rewrite decode_char by done.
  rewrite (proj2 (Z.leb_le 8 (bits + 6))) by lia. rewrite pushed_byte by lia.
  by destruct (decode_loop s _ _).
Qed.

(** What the characters of a whole chunk, and of the one or two bytes of a
    last chunk, are read back as. *)
Lemma decode_one n acc :
  0 <= n < 2 ^ 24 ->
  decode_loop (String (base64_char (sextet n 0)) (String (base64_char (sextet n 1)) "")) acc 0 =
  Some (String (byte_of (n / 65536)) "").
Proof.
  intros Hn. rewrite decode_first, decode_next by first [apply sextet_range | lia].
  change (6 - 2) with 4. by rewrite sextets_first.
Qed.

Lemma decode_two n acc :
  0 <= n < 2 ^ 24 ->
  decode_loop (String (base64_char (sextet n 0)) (String (base64_char (sextet n 1))
    (String (base64_char (sextet n 2)) ""))) acc 0 =
  Some (String (byte_of (n / 65536)) (String (byte_of (n / 256 mod 256)) "")).
Proof.
  intros Hn. rewrite decode_first, !decode_next by first [apply sextet_range | lia].
  change (6 - 2) with 4. change (4 - 2) with 2. by rewrite sextets_first, sextets_second.
Qed.

Lemma decode_three n acc s r :
  0 <= n < 2 ^ 24 ->
  (forall acc, decode_loop s acc 0 = Some r) ->
  decode_loop (String (base64_char (sextet n 0)) (String (base64_char (sextet n 1))
    (String (base64_char (sextet n 2)) (String (base64_char (sextet n 3)) s)))) acc 0 =
  Some (String (byte_of (n / 65536)) (String (byte_of (n / 256 mod 256))
         (String (byte_of (n mod 256)) r))).
Proof.
  intros Hn Hs. rewrite decode_first, !decode_next by first [apply sextet_range | lia].
  change (6 - 2) with 4. change (4 - 2) with 2. change (2 - 2) with 0.
  by rewrite Hs, sextets_first, sextets_second, sextets_third.
Qed.

(** ** The chunks *)

(** The characters of the first [k] sextets. *)
Definition sextet_chars (n : Z) (l : list Z) : string :=
  foldr String "" (map (fun i => base64_char (sextet n i)) l).

Lemma sextet_of_bits n i : 0 <= i <= 3 -> Z.land (Z.shiftr n (18 - 6 * i)) 63 = sextet n i.
Proof. intros Hi. rewrite land_63. unfold sextet. by rewrite Z.shiftr_div_pow2 by lia. Qed.

Lemma encode_chunk_one a :
  encode_chunk [a] = let n := chunk_bits [a] in sextet_chars n [0; 1] +:+ "==".
Proof.
  unfold encode_chunk, sextet_chars. cbn -[chunk_bits base64_char Z.sub Z.mul Z.of_nat Z.land Z.shiftr].
  rewrite (sextet_of_bits _ (Z.of_nat 0)), (sextet_of_bits _ (Z.of_nat 1)) by lia. done.
Qed.
Lemma encode_chunk_two a b :
  encode_chunk [a; b] = let n := chunk_bits [a; b] in sextet_chars n [0; 1; 2] +:+ "=".
Proof.
  unfold encode_chunk, sextet_chars. cbn -[chunk_bits base64_char Z.sub Z.mul Z.of_nat Z.land Z.shiftr].
  rewrite (sextet_of_bits _ (Z.of_nat 0)), (sextet_of_bits _ (Z.of_nat 1)), (sextet_of_bits _ (Z.of_nat 2)) by lia.
  done.
Qed.
Lemma encode_chunk_three a b c :
  encode_chunk [a; b; c] = let n := chunk_bits [a; b; c] in sextet_chars n [0; 1; 2; 3].
Proof.
  unfold encode_chunk, sextet_chars. cbn -[chunk_bits base64_char Z.sub Z.mul Z.of_nat Z.land Z.shiftr].
  rewrite (sextet_of_bits _ (Z.of_nat 0)), (sextet_of_bits _ (Z.of_nat 1)), (sextet_of_bits _ (Z.of_nat 2)),
    (sextet_of_bits _ (Z.of_nat 3)) by lia.
  done.
Qed.

Lemma chunk_bits_one a : is_byte a -> chunk_bits [a] = a * 65536.
Proof. intros Ha. unfold chunk_bits. cbn -[Z.shiftl]. by rewrite Z.shiftl_mul_pow2. Qed.
Lemma chunk_bits_two a b : is_byte a -> is_byte b -> chunk_bits [a; b] = a * 65536 + b * 256.
Proof.
  unfold is_byte. intros Ha Hb.
  change (chunk_bits [a; b]) with (Z.lor (Z.shiftl a 16) (Z.shiftl b 8)).
  rewrite lor_add by (rewrite ?Z.shiftl_mul_pow2; lia). rewrite Z.shiftl_mul_pow2 by lia. lia.
Qed.
Lemma chunk_bits_three a b c :
  is_byte a -> is_byte b -> is_byte c -> chunk_bits [a; b; c] = a * 65536 + b * 256 + c.
Proof.
  unfold is_byte. intros Ha Hb Hc.
  change (chunk_bits [a; b; c]) with (Z.lor (Z.lor (Z.shiftl a 16) (Z.shiftl b 8)) (Z.shiftl c 0)).
  rewrite (Z.shiftl_0_r c), <-Z.lor_assoc. rewrite (lor_add b c 8), (lor_add a _ 16) by lia. lia.
Qed.

(** The bytes of a chunk, out of its 24 bits. *)
Lemma bits_bytes a b c :
  is_byte a -> is_byte b -> is_byte c ->
  let n := a * 65536 + b * 256 + c in
  0 <= n < 2 ^ 24 /\ n / 65536 = a /\ n / 256 mod 256 = b /\ n mod 256 = c.
Proof.
  unfold is_byte. intros Ha Hb Hc. change (2 ^ 24) with 16777216. cbv zeta. split; [lia|].
  split; [|split].
  - replace (a * 65536 + b * 256 + c) with (a * 65536 + (b * 256 + c)) by lia.
    rewrite Z.div_add_l, Z.div_small by lia. lia.
  - replace (a * 65536 + b * 256 + c) with ((a * 256 + b) * 256 + c) by lia.
    rewrite Z.div_add_l, (Z.div_small c) by lia. rewrite Z.add_0_r, Z.add_comm, Z.mod_add by lia.
    by apply Z.mod_small.
  - replace (a * 65536 + b * 256 + c) with (c + (a * 256 + b) * 256) by lia.
    rewrite Z.mod_add by lia. by apply Z.mod_small.
Qed.

(** ** The padding *)

Definition pads (k : nat) : string := foldr String "" (repeat "="%char k).

Lemma pads_S k : pads (S k) = String "=" (pads k).
Proof. done. Qed.

Lemma pads_snoc k : pads k +:+ "=" = pads (S k).
Proof. induction k as [|k IH]; [done|]. by rewrite pads_S, app_cons_str, IH. Qed.

Lemma rev_pads k : String.rev (pads k) = pads k.
Proof. induction k as [|k IH]; [done|]. rewrite pads_S, rev_cons_str, IH. apply pads_snoc. Qed.

Lemma length_pads k : String.length (pads k) = k.
Proof. induction k as [|k IH]; [done|]. rewrite pads_S. simpl. by rewrite IH. Qed.

Lemma str_in_rev c s : str_in c (String.rev s) = str_in c s.
Proof.
  induction s as [|d s IH]; [done|]. rewrite rev_cons_str, str_in_app, IH. simpl.
  case_decide; [by rewrite orb_true_r|by rewrite orb_false_r].
Qed.

Lemma trim_start_pads n k s :
  str_in "=" s = false -> (k <= n)%nat -> trim_start_fuel n ["="] (pads k +:+ s) = s.
Proof.
  intros Hs. revert k. induction n as [|n IH]; intros k Hk; destruct k as [|k]; try done; try lia.
  - destruct s as [|c s]; [done|]. cbn [trim_start_fuel strip_any strip_prefix]. simpl in Hs.
    rewrite app_nil_l_str. cbn [strip_prefix]. by destruct (decide _).
  - rewrite pads_S, app_cons_str. cbn [trim_start_fuel strip_any strip_prefix].
    rewrite decide_True by done. cbn [strip_prefix]. apply IH. lia.
Qed.

Lemma trim_end_pads s k :
  str_in "=" s = false -> trim_end_matches "=" (s +:+ pads k) = s.
Proof.
  intros Hs. unfold trim_end_matches, trim_end_of, trim_start_of. cbn [map].
  change (String.rev "=") with "=". rewrite rev_app_str, rev_pads, trim_start_pads.
  - apply rev_involutive_str.
  - by rewrite str_in_rev.
  - rewrite length_app_str, length_pads. lia.
Qed.

(** ** The round trip *)

Lemma sextet_chars_clean n l : str_in "=" (sextet_chars n l) = false.
Proof.
  induction l as [|i l IH]; [done|]. cbn [sextet_chars map foldr str_in].
  rewrite decide_False by (intros E; symmetry in E; revert E; apply base64_char_not_pad, sextet_range).
  exact IH.
Qed.

(** An encoded string is characters that are not the pad, which decode to
    it, and a padding. *)
Lemma base64_encode_shape m s :
  (String.length s <= m)%nat ->
  exists body k, base64_encode s = body +:+ pads k /\ str_in "=" body = false /\
    forall acc, decode_loop body acc 0 = Some s.
Proof.
  revert s. induction m as [|m IH]; intros s Hm; (destruct s as [|a s]; [by exists "", 0%nat|]); simpl in Hm; [lia|].
  pose proof (byte_code_range a) as Ha. unfold base64_encode.
  destruct s as [|b s]; [|destruct s as [|c s]].
  - cbn [bytes chunks3 map concat_strings foldr]. rewrite encode_chunk_one, chunk_bits_one by done.
    destruct (bits_bytes (byte_code a) 0 0) as (Hn & Hna & _); [done|done|done|].
    rewrite !Z.add_0_r in *. rewrite app_nil_r_str.
    eexists _, 2%nat. split; [reflexivity|]. split; [apply sextet_chars_clean|]. intros acc.
    cbn [sextet_chars map foldr]. rewrite decode_one by done. by rewrite Hna, byte_of_code.
  - pose proof (byte_code_range b) as Hb.
    cbn [bytes chunks3 map concat_strings foldr]. rewrite encode_chunk_two, chunk_bits_two by done.
    destruct (bits_bytes (byte_code a) (byte_code b) 0) as (Hn & Hna & Hnb & _); [done|done|done|].
    rewrite !Z.add_0_r in *. rewrite app_nil_r_str.
    eexists _, 1%nat. split; [reflexivity|]. split; [apply sextet_chars_clean|]. intros acc.
    cbn [sextet_chars map foldr]. rewrite decode_two by done. by rewrite Hna, Hnb, !byte_of_code.
  - pose proof (byte_code_range b) as Hb. pose proof (byte_code_range c) as Hc. simpl in Hm.
    destruct (IH s) as (body & k & Henc & Hclean & Hdec); [lia|].
    cbn [bytes chunks3 map concat_strings foldr].
    change (foldr String.append "" (map encode_chunk (chunks3 (bytes s)))) with (base64_encode s).
    rewrite Henc, encode_chunk_three, chunk_bits_three by done.
    destruct (bits_bytes (byte_code a) (byte_code b) (byte_code c)) as (Hn & Hna & Hnb & Hnc); [done|done|done|].
    cbv zeta in *. set (n := _ * 65536 + _ + _) in *.
    exists (sextet_chars n [0; 1; 2; 3] +:+ body), k. split; [by rewrite app_assoc_str|].
    split; [by rewrite str_in_app, sextet_chars_clean, Hclean|]. intros acc.
    cbn [sextet_chars map foldr]. rewrite !app_cons_str, app_nil_l_str.
    rewrite (decode_three n acc body s) by done. by rewrite Hna, Hnb, Hnc, !byte_of_code.
Qed.

Lemma base64_decode_encode s : base64_decode (base64_encode s) = Some s.
Proof.
  destruct (base64_encode_shape (String.length s) s) as (body & k & -> & Hclean & Hdec); [done|].
  unfold base64_decode. by rewrite trim_end_pads.
Qed.

Lemma length_encode_chunk l : String.length (encode_chunk l) = 4%nat.
Proof. done. Qed.

Lemma length_base64_encode m s :
  (String.length s <= m)%nat ->
  String.length (base64_encode s) = (4 * ((String.length s + 2) / 3))%nat.
Proof.
  revert s. induction m as [|m IH]; intros s Hm; (destruct s as [|a [|b [|c s]]]; try done); [simpl in Hm; lia|].
  unfold base64_encode. cbn [bytes chunks3 map concat_strings foldr].
  change (foldr String.append "" (map encode_chunk (chunks3 (bytes s)))) with (base64_encode s).
  rewrite length_app_str, length_encode_chunk, IH by (simpl in Hm; lia).
  cbn [String.length]. replace (S (S (S (String.length s))) + 2)%nat with (1 * 3 + (String.length s + 2))%nat by lia.
  rewrite Nat.div_add_l by lia. lia.
Qed.

(** Decoding the base64 of any byte string gives it back, whatever its
    length modulo three; the encoding of [n] bytes is four characters for
    every three bytes begun, and no two byte strings share an encoding. *)
Theorem base64_roundtrip s :
  base64_decode (base64_encode s) = Some s /\
  String.length (base64_encode s) = (4 * ((String.length s + 2) / 3))%nat /\
  (forall t, base64_encode t = base64_encode s -> t = s).
Proof.
  split; [apply base64_decode_encode|]. split; [by apply (length_base64_encode (String.length s))|].
  intros t E. pose proof (base64_decode_encode t) as Ht. rewrite E, base64_decode_encode in Ht. by simplify_eq.
Qed.

(** Text that is not base64 is refused. *)
Example base64_decode_invalid : base64_decode "a-b" = None.
Proof. reflexivity. Qed.
Example base64_encode_value : base64_encode "magpie" = "bWFncGll" /\ base64_encode "{}" = "e30=".
Proof. split; reflexivity. Qed.
