(* ===== verification/RespBuild.v ===== *)
(** * The intermediate representation to OpenAI Responses

    [formats/openai_resp/build.rs]; its base64 is in [Base64]. *)
From Stdlib Require Import ZArith.
From S2P Require Import Prelude.
From S2P Require Import RustStd.
From S2P Require Import Json.
From S2P Require Import Effects.
From S2P Require Import Format.
From S2P Require Import Ir.
From S2P Require Import ClaudeTypes.
From S2P Require Import RespTypes.
From S2P Require Import Reasoning.
From S2P Require Import Shared.
From S2P Require Import Base64.

Definition ITEM_TYPE_REASONING : string := "reasoning".
Definition ITEM_TYPE_SUMMARY_TEXT : string := "summary_text".

(** ** Sealed reasoning *)

(** Begins the [encrypted_content] of a reasoning item carrying Claude's block. *)
Definition CLAUDE_SEAL_MARK : string := "magpie-claude1:".

Definition seal (block : string) : string := CLAUDE_SEAL_MARK +:+ base64_encode block.

Definition quoted (s : string) : string := String "034" (s +:+ String "034" "").

Section seals.
Context `{SerdeJson}.

(** The block's text: type, thinking and signature, in that order. *)
Definition thinking_block_text (text signature : string) : string :=
  "{" +:+ quoted "type" +:+ ":" +:+ quoted "thinking" +:+ "," +:+
  quoted "thinking" +:+ ":" +:+ value_to_string (VString text) +:+ "," +:+
  quoted "signature" +:+ ":" +:+ value_to_string (VString signature) +:+ "}".

Definition seal_thinking (text signature : string) : string :=
  seal (thinking_block_text text signature).

Definition seal_block (raw : Value) : string := seal (value_to_string raw).

Definition open_seal (encrypted : string) : option Value :=
  b64 ← strip_prefix CLAUDE_SEAL_MARK encrypted;
  bytes ← base64_decode b64;
  ok (value_from_str bytes).

Definition is_sealed (encrypted : string) : bool := starts_with CLAUDE_SEAL_MARK encrypted.
End seals.

(** ** Requests *)

Definition text_of (p : IrPart) : option string := match p with Text text _ => Some text | _ => None end.

Definition system_to_instructions (system : list IrPart) : option string :=
  let texts := filter_map text_of system in
  match texts with
  | [] => None
  | _ :: _ => Some (join (newline +:+ newline) texts)
  end.

Definition text_part_type (role : Role) : string :=
  match role with User => ITEM_TYPE_INPUT_TEXT | Assistant => ITEM_TYPE_OUTPUT_TEXT end.

Definition role_name (role : Role) : string :=
  match role with User => "user" | Assistant => "assistant" end.

(** The items after the flush; the content is empty then. *)
Definition flush_input (items : list Value) (role : Role) (content : list Value) : list Value :=
  match content with
  | [] => items
  | _ :: _ =>
      items ++ [obj [("type", str ITEM_TYPE_MESSAGE); ("role", str (role_name role));
                     ("content", VArray content)]]
  end.

Definition parts_to_text (parts : list IrPart) : string := concat_strings (filter_map text_of parts).

Section resp_build.
Context `{SerdeJson}.

Definition arguments_to_string (args : Value) : string := unwrap_or_r "{}" (serde_to_string args).

Definition function_call_item (id name : string) (args : Value) : Value :=
  obj [("type", str ITEM_TYPE_FUNCTION_CALL); ("call_id", str id); ("name", str name);
       ("arguments", str (arguments_to_string args))].

Definition image_item (url : string) (detail : option string) : Value :=
  let part := map_of_list [("type", str ITEM_TYPE_INPUT_IMAGE); ("image_url", str url)] in
  VObject (match detail with Some detail => map_insert "detail" (str detail) part | None => part end).

(** One part of a message: the items and the content gathered so far. *)
Definition input_part (role : Role) (acc : list Value * list Value) (part : IrPart)
  : list Value * list Value :=
  let '(items, content) := acc in
  match part with
  | Text text _ => (items, content ++ [obj [("type", str (text_part_type role)); ("text", str text)]])
  | Image url _ _ detail => (items, content ++ [image_item url detail])
  | ToolCall id name args _ =>
      (flush_input items role content ++ [function_call_item id name args], [])
  | ToolResult call_id _ result =>
      (flush_input items role content ++
       [obj [("type", str ITEM_TYPE_FUNCTION_CALL_OUTPUT); ("call_id", str call_id);
             ("output", str (parts_to_text result))]], [])
  | Thinking _ _ => (items, content)
  | Sealed _ _ => (items, content)
  end.

Definition input_message (items : list Value) (message : IrMessage) : list Value :=
  let role := msg_role message in
  let '(items, content) := fold_left (input_part role) (msg_parts message) (items, []) in
  flush_input items role content.

Definition messages_to_input (messages : list IrMessage) : option Value :=
  VArray <$> nonempty (fold_left input_message messages []).

Definition tool_to_value (tool : IrTool) : Value :=
  let value := map_of_list [("type", str "function"); ("name", str (tool_name tool));
                            ("parameters", tool_schema tool)] in
  let value := map_insert "strict" (VBool (default true (tool_strict tool))) value in
  VObject (if is_empty (tool_description tool) then value
           else map_insert "description" (str (tool_description tool)) value).

Definition tool_choice_to_value (tool_choice : IrToolChoice) : Value :=
  match tool_choice with
  | ChoiceAuto => str "auto"
  | ChoiceNone => str "none"
  | ChoiceRequired => str "required"
  | ChoiceNamed name => obj [("type", str "function"); ("name", str name)]
  end.

Definition reasoning_to_value (reasoning : Reasoning) : option Value :=
  match reasoning with
  | Off => None
  | Effort effort => Some (obj [("effort", str effort)])
  | Budget budget =>
      thinking_to_reasoning_json {| thinking_type := "enabled"; budget_tokens := budget |}
  end.

(** The fields the loop over the taken extras fills in. *)
Record Taken := {
  tk_text : option Value;
  tk_previous_response_id : option string;
  tk_store : option bool;
  tk_reasoning : option Value;
  tk_rest : Map
}.
Definition take_field (t : Taken) (field : string * Value) : Taken :=
  let '(name, value) := field in
  if decide (name = "text") then
    {| tk_text := Some value; tk_previous_response_id := tk_previous_response_id t;
       tk_store := tk_store t; tk_reasoning := tk_reasoning t; tk_rest := tk_rest t |}
  else if decide (name = "previous_response_id") then
    {| tk_text := tk_text t; tk_previous_response_id := Json.as_str value;
       tk_store := tk_store t; tk_reasoning := tk_reasoning t; tk_rest := tk_rest t |}
  else if decide (name = "store") then
    {| tk_text := tk_text t; tk_previous_response_id := tk_previous_response_id t;
       tk_store := as_bool value; tk_reasoning := tk_reasoning t; tk_rest := tk_rest t |}
  else if decide (name = "reasoning") then
    {| tk_text := tk_text t; tk_previous_response_id := tk_previous_response_id t;
       tk_store := tk_store t; tk_reasoning := Some value; tk_rest := tk_rest t |}
  else
    {| tk_text := tk_text t; tk_previous_response_id := tk_previous_response_id t;
       tk_store := tk_store t; tk_reasoning := tk_reasoning t;
       tk_rest := map_insert name value (tk_rest t) |}.

Definition take_fields (fields : list (string * Value)) : Taken :=
  fold_left take_field fields
    {| tk_text := None; tk_previous_response_id := None; tk_store := None; tk_reasoning := None;
       tk_rest := [] |}.

Definition build (ir : IrRequest) : OpenAIResponsesRequest :=
  let t := take_fields (fst (take OpenAIResponses (extra ir))) in
  let s := sampling ir in
  {| rq_model := model ir;
     rq_input := messages_to_input (messages ir);
     rq_instructions := system_to_instructions (system ir);
     rq_max_output_tokens := max_tokens s;
     rq_temperature := temperature s;
     rq_top_p := top_p s;
     rq_stream := then_some (stream ir) true;
     rq_tools := nonempty (map tool_to_value (tools ir));
     rq_tool_choice := tool_choice_to_value <$> tool_choice ir;
     rq_text := tk_text t;
     rq_reasoning := opt_or (tk_reasoning t) (reasoning_to_value (reasoning ir));
     rq_previous_response_id := tk_previous_response_id t;
     rq_store := tk_store t;
     rq_extra := tk_rest t |}.

(** ** Responses *)

Definition flush_text (output content : list Value) : list Value :=
  flush_input output Assistant content.

Context `{Env}.

Definition reasoning_item (text : string) (claude_signature : option Signature) : Eff Value :=
  id ← new_uuid;
  let item := map_of_list [("type", str ITEM_TYPE_REASONING); ("id", str ("rs_" +:+ id));
                           ("summary", VArray [obj [("type", str ITEM_TYPE_SUMMARY_TEXT);
                                                    ("text", str text)]])] in
  mret (VObject
    match claude_signature with
    | Some signature =>
        map_insert "encrypted_content" (str (seal_thinking text (sig_value signature))) item
    | None => item
    end).

Definition sealed_reasoning_item (raw : Value) : Eff Value :=
  id ← new_uuid;
  mret (obj [("type", str ITEM_TYPE_REASONING); ("id", str ("rs_" +:+ id));
             ("summary", VArray []); ("encrypted_content", str (seal_block raw))]).

(** One part of a response: the output and the text gathered so far. *)
Definition output_part (acc : list Value * list Value) (part : IrPart)
  : Eff (list Value * list Value) :=
  let '(output, text_content) := acc in
  match part with
  | Text text _ =>
      mret (output, text_content ++ [obj [("type", str ITEM_TYPE_OUTPUT_TEXT); ("text", str text)]])
  | ToolCall id name args _ =>
      mret (flush_text output text_content ++ [function_call_item id name args], [])
  | Thinking text signature =>
      item ← reasoning_item text (opt_filter (fun s => format_eqb (sig_by s) Claude) signature);
      mret (flush_text output text_content ++ [item], [])
  | Sealed Claude raw =>
      item ← sealed_reasoning_item raw;
      mret (flush_text output text_content ++ [item], [])
  | _ => mret (output, text_content)
  end.

Fixpoint output_parts (acc : list Value * list Value) (parts : list IrPart)
  : Eff (list Value * list Value) :=
  match parts with
  | [] => mret acc
  | part :: parts => acc ← output_part acc part; output_parts acc parts
  end.

Definition build_response (ir : IrResponse) : Eff OpenAIResponsesResponse :=
  '(output, text_content) ← output_parts ([], []) (resp_parts ir);
  let output := flush_text output text_content in
  id ← normalize_id_to_resp (default "" (resp_id ir));
  created_at ← now_unix_secs;
  let usage := resp_usage ir in
  mret {| rr_id := id;
          rr_object := "response";
          rr_created_at := created_at;
          rr_model := resp_model ir;
          rr_status :=
            if decide (resp_stop_reason ir = MaxTokens) then "incomplete" else "completed";
          rr_output := output;
          rr_usage :=
            Some {| ru_input_tokens := input_tokens usage;
                    ru_output_tokens := output_tokens usage;
                    ru_total_tokens := Some (u64_add (input_tokens usage) (output_tokens usage));
                    ru_input_tokens_details :=
                      (fun cached => {| itd_cached_tokens := Some cached |}) <$>
                      cache_read_tokens usage |} |}.
End resp_build.
