(* ===== verification/RespRead.v ===== *)
(** * OpenAI Responses to the intermediate representation

    [formats/openai_resp/read.rs]. Its [take_string] and [take_opt_string] are
    those of [Json]. *)
From Stdlib Require Import ZArith.
From stdpp Require Import gmap strings.
From S2P Require Import Prelude.
From S2P Require Import RustStd.
From S2P Require Import Json.
From S2P Require Import Effects.
From S2P Require Import Format.
From S2P Require Import Ir.
From S2P Require Import RespTypes.
From S2P Require Import Shared.
From S2P Require Import RespBuild.

Inductive ItemKind : Type :=
  | KindMessage
  | KindFunctionCall
  | KindFunctionCallOutput
  | KindReasoning
  | KindOther.

Definition input_item_kind (item : Map) : ItemKind :=
  match get_str "type" item with
  | Some t =>
      if decide (t = ITEM_TYPE_MESSAGE) then KindMessage
      else if decide (t = ITEM_TYPE_FUNCTION_CALL) then KindFunctionCall
      else if decide (t = ITEM_TYPE_FUNCTION_CALL_OUTPUT) then KindFunctionCallOutput
      else if decide (t = ITEM_TYPE_REASONING) then KindReasoning
      else KindOther
  | None => if map_contains "role" item then KindMessage else KindOther
  end.

(** Adjacent parts of one role become one message. *)
Definition push_message (messages : list IrMessage) (role : Role) (parts : list IrPart)
  : list IrMessage :=
  match parts with
  | [] => messages
  | _ :: _ =>
      match list.last messages with
      | Some l =>
          if decide (msg_role l = role) then
            removelast messages ++ [{| msg_role := msg_role l; msg_parts := msg_parts l ++ parts |}]
          else messages ++ [{| msg_role := role; msg_parts := parts |}]
      | None => messages ++ [{| msg_role := role; msg_parts := parts |}]
      end
  end.

Definition is_text_type (t : option string) : bool :=
  match t with
  | Some t => bool_decide (t = ITEM_TYPE_INPUT_TEXT) || bool_decide (t = ITEM_TYPE_OUTPUT_TEXT)
              || bool_decide (t = "text")
  | None => false
  end.

(** [image_url] is a string or an object with a [url]. *)
Definition take_image_url (part : Map) : string * Map :=
  let '(v, part) := map_remove "image_url" part in
  (match v with
   | Some (VString url) => url
   | Some (VObject image) => fst (take_string "url" image)
   | _ => ""
   end, part).

Definition part_from_value (part : Value) : option IrPart :=
  match part with
  | VObject part =>
      if is_text_type (get_str "type" part) then Some (Text (fst (take_string "text" part)) None)
      else if decide (get_str "type" part = Some ITEM_TYPE_INPUT_IMAGE) then
        let '(url, part) := take_image_url part in
        if is_empty url then None
        else
          let '(media_type, data) :=
            match parse_data_url url with
            | Some (media_type, data) => (media_type, Some data)
            | None => ("", None)
            end in
          Some (Image url media_type data (fst (take_opt_string "detail" part)))
      else None
  | _ => None
  end.

Definition content_to_parts (content : Value) : list IrPart :=
  match content with
  | VString text => [Text text None]
  | VArray items => filter_map part_from_value items
  | _ => []
  end.

Definition message_text (part : Value) : option string :=
  match part with
  | VObject part =>
      then_some (is_text_type (get_str "type" part)) (fst (take_string "text" part))
  | _ => None
  end.

Definition take_message_text (item : Map) : string :=
  match map_get "content" item with
  | Some (VString text) => text
  | Some (VArray parts) => join newline (filter_map message_text parts)
  | _ => ""
  end.

Definition summary_text (summary : Value) : option string :=
  match summary with
  | VObject summary =>
      then_some (bool_decide (get_str "type" summary = Some ITEM_TYPE_SUMMARY_TEXT))
        (fst (take_string "text" summary))
  | _ => None
  end.

Definition take_reasoning_text (item : Map) : string :=
  match map_get "summary" item with
  | Some (VArray items) => join "" (filter_map summary_text items)
  | _ => ""
  end.

Section resp_read.
Context `{SerdeJson}.

Definition claude_sealed_part (encrypted : string) : option IrPart :=
  block ← open_seal encrypted;
  let text key := default "" (value_str key block) in
  match value_str "type" block with
  | Some t =>
      if decide (t = "thinking" /\ is_empty (text "signature") = false) then
        Some (Thinking (text "thinking")
                (Some {| sig_by := Claude; sig_value := text "signature" |}))
      else if decide (t = "redacted_thinking" /\ is_empty (text "data") = false) then
        Some (Sealed Claude block)
      else None
  | None => None
  end.

Definition read_reasoning_item (item : Map) : IrPart :=
  let encrypted := default "" (get_str "encrypted_content" item) in
  let summary := Thinking (take_reasoning_text item) None in
  if is_empty encrypted then summary
  else match claude_sealed_part encrypted with
       | Some part => part
       | None => if is_sealed encrypted then summary else Sealed OpenAIResponses (VObject item)
       end.

(** One item: the instructions and the messages gathered so far. *)
Definition read_input_item (acc : list string * list IrMessage) (item : Value)
  : list string * list IrMessage :=
  let '(system_texts, messages) := acc in
  match item with
  | VObject item =>
      match input_item_kind item with
      | KindMessage =>
          let role := get_str "role" item in
          if decide (role = Some "developer" \/ role = Some "system") then
            let text := take_message_text item in
            (if is_empty text then system_texts else system_texts ++ [text], messages)
          else
            let parts := match map_get "content" item with
                         | Some content => content_to_parts content
                         | None => []
                         end in
            if decide (role = Some "user") then (system_texts, push_message messages User parts)
            else if decide (role = Some "assistant") then
              (system_texts, push_message messages Assistant parts)
            else (system_texts, messages)
      | KindFunctionCall =>
          let '(call_id, item) := take_string "call_id" item in
          let '(name, item) := take_string "name" item in
          if is_empty name then (system_texts, messages)
          else
            let args := parse_arguments (fst (take_string "arguments" item)) in
            (system_texts, push_message messages Assistant [ToolCall call_id name args None])
      | KindFunctionCallOutput =>
          let '(call_id, item) := take_string "call_id" item in
          let output := fst (take_string "output" item) in
          (system_texts,
           push_message messages User [ToolResult call_id false [Text output None]])
      | KindReasoning =>
          (system_texts, push_message messages Assistant [read_reasoning_item item])
      | KindOther => (system_texts, messages)
      end
  | _ => (system_texts, messages)
  end.

Definition read_input (input : option Value) : list string * list IrMessage :=
  match input with
  | None => ([], [])
  | Some (VString text) => ([], push_message [] User [Text text None])
  | Some (VArray items) => fold_left read_input_item items ([], [])
  | Some _ => ([], [])
  end.

(** ** Tools *)

Definition function_tool (tool : Map) : option IrTool :=
  let '(name, tool) := take_string "name" tool in
  if is_empty name then None
  else
    let '(description, tool) := take_string "description" tool in
    let '(schema, tool) := map_remove "parameters" tool in
    Some {| tool_name := name;
            tool_description := description;
            tool_schema := default (obj [("type", str "object")]) schema;
            tool_strict := match map_get "strict" tool with
                           | Some (VBool strict) => Some strict
                           | _ => None
                           end |}.

(** One child of a namespace: the tools and the qualified names so far. *)
Definition read_child (namespace : string) (ns_description : option string)
  (acc : list IrTool * gmap string string) (child : Value) : list IrTool * gmap string string :=
  let '(out, ns_names) := acc in
  match child with
  | VObject child =>
      if decide (get_str "type" child = Some "function") then
        let short_name := default "" (get_str "name" child) in
        let qualified := namespace +:+ "__" +:+ short_name in
        let '(name, ns_names) :=
          if is_empty namespace then (short_name, ns_names)
          else (qualified, <[short_name := qualified]> ns_names) in
        match function_tool child with
        | Some ir_tool =>
            (out ++ [{| tool_name := name;
                        tool_description :=
                          if is_empty (tool_description ir_tool) then default "" ns_description
                          else tool_description ir_tool;
                        tool_schema := tool_schema ir_tool;
                        tool_strict := tool_strict ir_tool |}], ns_names)
        | None => (out, ns_names)
        end
      else (out, ns_names)
  | _ => (out, ns_names)
  end.

Definition read_tool (acc : list IrTool * gmap string string) (tool : Value)
  : list IrTool * gmap string string :=
  let '(out, ns_names) := acc in
  match tool with
  | VObject tool =>
      if decide (get_str "type" tool = Some "function") then
        (match function_tool tool with Some ir_tool => out ++ [ir_tool] | None => out end, ns_names)
      else if decide (get_str "type" tool = Some "namespace") then
        let '(namespace, tool) := take_string "name" tool in
        let '(ns_description, tool) := take_opt_string "description" tool in
        match map_get "tools" tool with
        | Some (VArray children) =>
            fold_left (read_child namespace ns_description) children (out, ns_names)
        | _ => (out, ns_names)
        end
      else (out, ns_names)
  | _ => (out, ns_names)
  end.

Definition read_tools (tools : option (list Value)) : list IrTool * gmap string string :=
  fold_left read_tool (default [] tools) ([], ∅).

Definition read_tool_choice (tool_choice : option Value) (ns_names : gmap string string)
  : option IrToolChoice :=
  tool_choice ← tool_choice;
  Some (match tool_choice with
        | VString choice =>
            if decide (choice = "none") then ChoiceNone
            else if decide (choice = "required") then ChoiceRequired
            else ChoiceAuto
        | VObject choice =>
            if decide (get_str "type" choice = Some "function") then
              let name :=
                match map_get "name" choice with
                | Some (VString name) => name
                | _ => match map_get "function" choice with
                       | Some (VObject function) => fst (take_string "name" function)
                       | _ => ""
                       end
                end in
              ChoiceNamed (default name (ns_names !! name))
            else ChoiceAuto
        | _ => ChoiceAuto
        end).

(** ** Requests *)

Definition put_all (owner : Format) (m : Map) (x : NamespacedExtra) : NamespacedExtra :=
  fold_left (fun x '(name, value) => put owner name value x) m x.

Definition read (req : OpenAIResponsesRequest) : IrRequest :=
  let '(system_texts, messages) := read_input (rq_input req) in
  let system_texts :=
    match rq_instructions req with
    | Some instructions => system_texts ++ [instructions]
    | None => system_texts
    end in
  let system := match system_texts with
                | [] => []
                | _ :: _ => [Text (join (newline +:+ newline) system_texts) None]
                end in
  let effort := rq_reasoning req ≫= value_str "effort" in
  let '(tools, ns_names) := read_tools (rq_tools req) in
  {| model := rq_model req;
     system := system;
     messages := messages;
     tools := tools;
     tool_choice := read_tool_choice (rq_tool_choice req) ns_names;
     sampling := {| max_tokens := rq_max_output_tokens req;
                    temperature := rq_temperature req;
                    top_p := rq_top_p req;
                    top_k := None;
                    stop := [] |};
     stream := default false (rq_stream req);
     reasoning := default Off (Effort <$> effort);
     extra :=
       put_opt OpenAIResponses "store" (VBool <$> rq_store req)
         (put_opt OpenAIResponses "previous_response_id" (VString <$> rq_previous_response_id req)
           (put_opt OpenAIResponses "reasoning" (rq_reasoning req)
             (put_opt OpenAIResponses "text" (rq_text req)
               (put_all OpenAIResponses (rq_extra req) [])))) |}.

(** ** Responses *)

Definition usage_to_ir (usage : ResponsesUsage) : Usage :=
  {| input_tokens := ru_input_tokens usage;
     output_tokens := ru_output_tokens usage;
     cache_read_tokens := ru_input_tokens_details usage ≫= itd_cached_tokens;
     cache_write_tokens := None;
     cache_write_1h := None;
     reasoning_tokens := None |}.

Definition output_text (part : Value) : option IrPart :=
  match part with
  | VObject part =>
      if decide (get_str "type" part = Some ITEM_TYPE_OUTPUT_TEXT) then
        let text := fst (take_string "text" part) in
        if is_empty text then None else Some (Text text None)
      else None
  | _ => None
  end.

(** What an item pushes. *)
Definition read_output_item (item : Value) : list IrPart :=
  match item with
  | VObject item =>
      let kind := get_str "type" item in
      if decide (kind = Some ITEM_TYPE_MESSAGE) then
        match map_get "content" item with
        | Some (VArray content) => filter_map output_text content
        | _ => []
        end
      else if decide (kind = Some ITEM_TYPE_FUNCTION_CALL) then
        let '(id, item) := take_string "call_id" item in
        let '(name, item) := take_string "name" item in
        if is_empty name then []
        else [ToolCall id name (parse_arguments (fst (take_string "arguments" item))) None]
      else if decide (kind = Some ITEM_TYPE_REASONING) then
        [Thinking (take_reasoning_text item) None]
      else []
  | _ => []
  end.

Definition read_response `{Env} (resp : OpenAIResponsesResponse) : Eff IrResponse :=
  let parts := flat_map read_output_item (rr_output resp) in
  let stop_reason :=
    if decide (rr_status resp = "incomplete") then MaxTokens
    else from_openai_resp (rr_status resp) in
  id ← (if is_empty (rr_id resp) then new_resp_id else mret (rr_id resp));
  mret {| resp_id := Some id;
          resp_model := rr_model resp;
          resp_parts := parts;
          resp_stop_reason := stop_reason;
          resp_stop_sequence := None;
          resp_usage := match rr_usage resp with Some u => usage_to_ir u | None => Usage_default end |}.
End resp_read.
