(* ===== verification/RespProps.v ===== *)
(** * What the Responses reader and builder promise *)
From Stdlib Require Import ZArith Lia.
From stdpp Require Import gmap.
From S2P Require Import Prelude.
From S2P Require Import RustStd.
From S2P Require Import Json.
From S2P Require Import Effects.
From S2P Require Import Concrete.
From S2P Require Import Format.
From S2P Require Import Ir.
From S2P Require Import RespTypes.
From S2P Require Import Shared.
From S2P Require Import Base64.
From S2P Require Import RespBuild.
From S2P Require Import RespRead.

Local Open Scope Z_scope.

(** ** Messages *)

Lemma push_message_app msgs role a b :
  push_message (push_message msgs role a) role b = push_message msgs role (a ++ b).
Proof.
  destruct a as [|p a]; [done|]. destruct b as [|q b]; [by rewrite app_nil_r|].
  cbn [push_message app]. destruct (list.last msgs) as [l|] eqn:Hl.
  - destruct (decide (msg_role l = role)) as [Hr|Hr]; rewrite last_snoc; cbn [msg_role msg_parts].
    + rewrite decide_True by done. rewrite removelast_last, Hr. by rewrite <-app_assoc.
    + rewrite decide_True by done. by rewrite removelast_last.
  - rewrite last_snoc. cbn [msg_role msg_parts]. rewrite decide_True by done. by rewrite removelast_last.
Qed.

(** No two neighbouring messages have one role, and none is empty. *)
Fixpoint alternating (before : option Role) (msgs : list IrMessage) : bool :=
  match msgs with
  | [] => true
  | m :: msgs =>
      negb (bool_decide (before = Some (msg_role m))) && negb (bool_decide (msg_parts m = [])) &&
      alternating (Some (msg_role m)) msgs
  end.

(** ** What Responses can say *)

Definition data_url_parts (url : string) : string * option string :=
  match parse_data_url url with
  | Some (media_type, data) => (media_type, Some data)
  | None => ("", None)
  end.

(** Text and images, which are gathered into the content of a message item. *)
Definition resp_content (p : IrPart) : bool :=
  match p with
  | Text _ None => true
  | Image url media_type data _ =>
      negb (is_empty url) && bool_decide (data_url_parts url = (media_type, data))
  | _ => false
  end.

(** Parts that are items of their own. *)
Definition resp_item (role : Role) (p : IrPart) : bool :=
  match role, p with
  | Assistant, ToolCall _ name args None => negb (is_empty name) && wf_value args
  | User, ToolResult _ false [Text _ None] => true
  | _, _ => false
  end.

Definition resp_part (role : Role) (p : IrPart) : bool := resp_content p || resp_item role p.

Definition RESERVED : list string := ["text"; "previous_response_id"; "store"; "reasoning"].

Definition own_extra (text reasoning : option Value) (prev : option string) (store : option bool)
  (rest : Map) : NamespacedExtra :=
  put_opt OpenAIResponses "store" (VBool <$> store)
    (put_opt OpenAIResponses "previous_response_id" (VString <$> prev)
      (put_opt OpenAIResponses "reasoning" reasoning
        (put_opt OpenAIResponses "text" text (put_all OpenAIResponses rest [])))).

(** The bag carries only this format's fields; the effort is the one in the
    client's [reasoning] object. *)
Definition resp_extra (r : Reasoning) (x : NamespacedExtra) : Prop :=
  exists text reasoning prev store rest,
    x = own_extra text reasoning prev store rest /\ keys_sorted rest = true /\
    forallb (fun kv => negb (bool_decide (fst kv ∈ RESERVED))) rest = true /\
    r = default Off (Effort <$> (reasoning ≫= value_str "effort")).

Definition resp_request (ir : IrRequest) : Prop :=
  (system ir = [] \/ exists t, system ir = [Text t None]) /\
  alternating None (messages ir) = true /\
  Forall (fun m => forallb (resp_part (msg_role m)) (msg_parts m) = true) (messages ir) /\
  Forall (fun t => tool_name t <> "" /\ exists b, tool_strict t = Some b) (tools ir) /\
  top_k (sampling ir) = None /\ stop (sampling ir) = [] /\
  resp_extra (reasoning ir) (extra ir).

Definition encode_content (role : Role) (p : IrPart) : Value :=
  match p with
  | Text text _ => obj [("type", str (text_part_type role)); ("text", str text)]
  | Image url _ _ detail => image_item url detail
  | _ => VNull
  end.

Lemma read_content role p : resp_content p = true -> part_from_value (encode_content role p) = Some p.
Proof.
  destruct p as [t [s|]|url mt d de| | | |]; try done; cbn [resp_content].
  - intros _. by destruct role.
  - intros [Hu Hd]%andb_prop. apply bool_decide_eq_true in Hd. unfold data_url_parts in Hd.
    destruct url as [|c url]; [done|].
    destruct (parse_data_url (String c url)) as [[mt' d']|] eqn:E; simplify_eq;
      destruct de as [de|]; cbv -[parse_data_url]; by rewrite E.
Qed.

Lemma read_contents role l :
  forallb resp_content l = true -> filter_map part_from_value (map (encode_content role) l) = l.
Proof.
  intros Hl. rewrite filter_map_map. apply filter_map_id. apply Forall_forall.
  intros p Hp. rewrite forallb_forall in Hl. by apply read_content, Hl.
Qed.

Section messages.
Context `{SerdeJson} `{!SerdeJsonLaws}.

Abbreviation read_items := (fold_left read_input_item).

Lemma read_flush sys msgs role pend :
  forallb resp_content pend = true ->
  read_items (flush_input [] role (map (encode_content role) pend)) (sys, msgs) =
  (sys, push_message msgs role pend).
Proof.
  intros Hp. destruct pend as [|p l]; [done|]. cbn [map flush_input app fold_left].
  unfold read_input_item. rewrite <-map_cons. generalize dependent (p :: l). clear p l. intros l Hl.
  destruct role; cbv -[filter_map part_from_value push_message map encode_content];
    by rewrite read_contents.
Qed.

Lemma flush_app items role content :
  flush_input items role content = items ++ flush_input [] role content.
Proof. destruct content; cbn; [by rewrite app_nil_r|done]. Qed.

Lemma read_item_part role p :
  resp_item role p = true ->
  exists v, (forall items content,
               input_part role (items, content) p = (flush_input items role content ++ [v], [])) /\
            forall sys msgs, read_input_item (sys, msgs) v = (sys, push_message msgs role [p]).
Proof using All.
  destruct role, p as [| |i n a [s|]|c [] [|[t [s|]| | | | |] []]| |]; try done; cbn [resp_item].
  - intros _. eexists. split; [done|]. intros sys msgs. unfold parts_to_text. cbn [filter_map omap list_omap text_of concat_strings foldr].
    change (t ++ "")%string with (t +:+ ""). rewrite app_nil_r_str. done.
  - intros [Hn Ha]%andb_prop. eexists. split; [done|]. intros sys msgs.
    destruct n as [|c n]; [done|]. rewrite <-(parse_arguments_printed a) at 2 by done.
    unfold function_call_item, arguments_to_string.
    cbv -[push_message parse_arguments serde_to_string unwrap_or_r]. done.
Qed.

(** The items of one message, read back: what they have added to [msgs] is
    the parts already flushed; the rest is pending in [content]. *)
Lemma read_parts_fold role parts items pend sys msgs acc0 :
  forallb (resp_part role) parts = true -> forallb resp_content pend = true ->
  read_items items acc0 = (sys, msgs) ->
  let '(items', content) := fold_left (input_part role) parts (items, map (encode_content role) pend) in
  read_items (flush_input items' role content) acc0 = (sys, push_message msgs role (pend ++ parts)).
Proof using All.
  revert items pend msgs. induction parts as [|p parts IH]; intros items pend msgs; cbn [forallb].
  - intros _ Hpend Hitems. cbn [fold_left]. rewrite flush_app, fold_left_app, Hitems, app_nil_r.
    by apply read_flush.
  - intros [Hp Hparts]%andb_prop Hpend Hitems. cbn [fold_left].
    unfold resp_part in Hp. apply orb_prop in Hp as [Hp|Hp].
    + assert (input_part role (items, map (encode_content role) pend) p =
              (items, map (encode_content role) (pend ++ [p]))) as ->.
      { rewrite map_app. by destruct p as [? [?|]| | | | |]. }
      specialize (IH items (pend ++ [p]) msgs Hparts). rewrite <-app_assoc in IH. apply IH; [|done].
      rewrite forallb_app, Hpend. cbn [forallb]. by rewrite Hp.
    + destruct (read_item_part role p Hp) as (v & -> & Hv).
      specialize (IH (flush_input items role (map (encode_content role) pend) ++ [v]) []
                    (push_message msgs role (pend ++ [p])) Hparts eq_refl).
      cbn [map app] in IH. replace (pend ++ p :: parts) with ((pend ++ [p]) ++ parts)
        by by rewrite <-app_assoc.
      rewrite <-push_message_app. apply IH. rewrite flush_app, !fold_left_app, Hitems, read_flush by done.
      cbn [fold_left]. by rewrite Hv, push_message_app.
Qed.

Lemma read_input_message m items sys msgs acc0 :
  forallb (resp_part (msg_role m)) (msg_parts m) = true ->
  read_items items acc0 = (sys, msgs) ->
  read_items (input_message items m) acc0 = (sys, push_message msgs (msg_role m) (msg_parts m)).
Proof using All.
  intros Hm Hitems. unfold input_message.
  pose proof (read_parts_fold (msg_role m) (msg_parts m) items [] sys msgs acc0 Hm eq_refl Hitems) as E.
  cbn [map app] in E. by destruct (fold_left (input_part _) _ _).
Qed.

Lemma read_input_messages l items sys msgs acc0 :
  Forall (fun m => forallb (resp_part (msg_role m)) (msg_parts m) = true) l ->
  alternating (msg_role <$> list.last msgs) l = true ->
  read_items items acc0 = (sys, msgs) ->
  read_items (fold_left input_message l items) acc0 = (sys, msgs ++ l).
Proof using All.
  intros Hl. revert items msgs. induction Hl as [|m l Hm _ IH]; intros items msgs Halt Hitems.
  - by rewrite app_nil_r.
  - cbn [alternating] in Halt. apply andb_prop in Halt as [[Hrole Hne]%andb_prop Halt].
    rewrite negb_true_iff, bool_decide_eq_false in Hrole, Hne.
    cbn [fold_left]. pose proof (read_input_message m items sys msgs acc0 Hm Hitems) as E.
    assert (push_message msgs (msg_role m) (msg_parts m) = msgs ++ [m]) as Hpush.
    { unfold push_message. destruct m as [role [|p parts]]; [done|]. cbn [msg_role msg_parts] in *.
      destruct (list.last msgs) as [k|]; [|done]. cbn in Hrole. rewrite decide_False by congruence. done. }
    rewrite Hpush in E. rewrite (IH _ (msgs ++ [m])); [by rewrite <-app_assoc| |done].
    by rewrite last_snoc.
Qed.

Lemma read_build_input l :
  Forall (fun m => forallb (resp_part (msg_role m)) (msg_parts m) = true) l ->
  alternating None l = true ->
  read_input (messages_to_input l) = ([], l).
Proof using All.
  intros Hl Halt. unfold messages_to_input.
  pose proof (read_input_messages l [] [] [] ([], []) Hl Halt eq_refl) as E.
  by destruct (fold_left input_message l []).
Qed.
End messages.

(** ** Tools and extra fields *)

Lemma resp_read_build_tool acc t :
  tool_name t <> "" -> (exists b, tool_strict t = Some b) ->
  read_tool acc (tool_to_value t) = (fst acc ++ [t], snd acc).
Proof.
  destruct acc as [out ns], t as [[|c n] d s st]; [done|]. intros _ [b Hb]. cbn in Hb. subst st.
  unfold tool_to_value. cbn [tool_name tool_description tool_schema tool_strict default from_option id].
  destruct d as [|e d]; cbn [is_empty]; reflexivity.
Qed.

Lemma resp_read_build_tools l :
  Forall (fun t => tool_name t <> "" /\ exists b, tool_strict t = Some b) l ->
  read_tools (nonempty (map tool_to_value l)) = (l, ∅).
Proof.
  intros Hl. unfold read_tools. rewrite default_nonempty.
  assert (forall acc, fold_left read_tool (map tool_to_value l) acc = (fst acc ++ l, snd acc)) as E; [|apply E].
  induction Hl as [|t l [Hn Hb] _ IH]; intros [out ns]; cbn [map fold_left]; [by rewrite app_nil_r|].
  rewrite resp_read_build_tool, IH by done. cbn. by rewrite <-app_assoc.
Qed.

Lemma resp_read_build_tool_choice c : read_tool_choice (tool_choice_to_value <$> c) ∅ = c.
Proof. by destruct c as [[]|]. Qed.

Definition tag (kv : string * Value) : Format * string * Value := (OpenAIResponses, fst kv, snd kv).

Lemma extra_get_tag k rest : extra_get OpenAIResponses k (map tag rest) = map_get k rest.
Proof.
  induction rest as [|[k' v] rest IH]; [done|]. cbn [map tag extra_get fst snd map_get]. rewrite IH.
  destruct (decide (k = k')), (decide (OpenAIResponses = OpenAIResponses /\ k' = k)); naive_solver.
Qed.

Lemma map_get_absent {V} k (m : list (string * V)) :
  Forall (fun kv => fst kv <> k) m -> map_get k m = None.
Proof. induction 1 as [|[k' v] m Hk _ IH]; [done|]. cbn in *. by case_decide. Qed.

Lemma put_all_sorted rest acc :
  keys_sorted rest = true ->
  Forall (fun kv => extra_get OpenAIResponses (fst kv) acc = None) rest ->
  put_all OpenAIResponses rest acc = acc ++ map tag rest.
Proof.
  unfold put_all. revert acc. induction rest as [|[k v] rest IH]; intros acc Hs Hacc; cbn [fold_left map].
  - by rewrite app_nil_r.
  - apply list.Forall_cons in Hacc as [Hk Hacc]. apply keys_sorted_head in Hs as [Hs Hlt]. cbn [fst] in *.
    rewrite put_new by done. rewrite IH; [by rewrite <-app_assoc|done|].
    apply List.Forall_and with (1 := Hacc) in Hlt. apply (Forall_weaken _ _ _ Hlt).
    intros [k' v'] [Hn Hc]. cbn in *. rewrite extra_get_app, Hn. cbn.
    rewrite decide_False; [done|]. intros [_ ->]. by rewrite compare_refl_str in Hc.
Qed.

(** The bag as a list: the catch-all fields, then the four named ones. *)
Lemma own_extra_list text reas prev store rest :
  keys_sorted rest = true ->
  forallb (fun kv => negb (bool_decide (fst kv ∈ RESERVED))) rest = true ->
  own_extra text reas prev store rest =
  map tag (rest ++ from_option (fun v => [("text", v)]) [] text ++
           from_option (fun v => [("reasoning", v)]) [] reas ++
           from_option (fun v => [("previous_response_id", VString v)]) [] prev ++
           from_option (fun v => [("store", VBool v)]) [] store).
Proof.
  intros Hs Hr. unfold own_extra. rewrite put_all_sorted by (done || by apply list.Forall_true).
  assert (forall k, k ∈ RESERVED -> map_get k rest = None) as Habs.
  { intros k Hk. apply map_get_absent, List.Forall_forall. intros kv Hin <-.
    rewrite forallb_forall in Hr. specialize (Hr kv Hin). by rewrite bool_decide_true in Hr. }
  assert (map_get "text" rest = None /\ map_get "reasoning" rest = None /\
          map_get "previous_response_id" rest = None /\ map_get "store" rest = None) as (H1 & H2 & H3 & H4).
  { split_and!; apply Habs; unfold RESERVED; set_solver. }
  cbn [app]. rewrite !map_app.
  rewrite (put_opt_new _ "text") by by rewrite extra_get_tag.
  rewrite (put_opt_new _ "reasoning")
    by (rewrite !extra_get_app, extra_get_tag, H2; by destruct text).
  rewrite (put_opt_new _ "previous_response_id")
    by (rewrite !extra_get_app, extra_get_tag, H3; by destruct text, reas).
  rewrite (put_opt_new _ "store")
    by (rewrite !extra_get_app, extra_get_tag, H4; by destruct text, reas, prev).
  rewrite <-!app_assoc. by destruct text, reas, prev, store.
Qed.

Lemma take_tag l : fst (take OpenAIResponses (map tag l)) = l.
Proof.
  unfold take. cbn [fst]. rewrite filter_map_map. apply filter_map_id, list.Forall_true. by intros [].
Qed.

Lemma take_fields_rest rest t0 :
  forallb (fun kv => negb (bool_decide (fst kv ∈ RESERVED))) rest = true ->
  fold_left take_field rest t0 =
  {| tk_text := tk_text t0; tk_previous_response_id := tk_previous_response_id t0;
     tk_store := tk_store t0; tk_reasoning := tk_reasoning t0;
     tk_rest := fold_left (fun m '(k, v) => map_insert k v m) rest (tk_rest t0) |}.
Proof.
  revert t0. induction rest as [|[k v] rest IH]; intros t0; cbn [forallb fold_left]; [by destruct t0|].
  intros [Hk Hr]%andb_prop. rewrite negb_true_iff, bool_decide_eq_false in Hk. cbn [fst] in Hk.
  rewrite IH by done. unfold take_field.
  rewrite !decide_False by (intros ->; apply Hk; unfold RESERVED; set_solver). done.
Qed.

Lemma take_own_extra text reas prev store rest :
  keys_sorted rest = true ->
  forallb (fun kv => negb (bool_decide (fst kv ∈ RESERVED))) rest = true ->
  take_fields (fst (take OpenAIResponses (own_extra text reas prev store rest))) =
  {| tk_text := text; tk_previous_response_id := prev; tk_store := store; tk_reasoning := reas;
     tk_rest := rest |}.
Proof.
  intros Hs Hr. rewrite own_extra_list, take_tag by done. unfold take_fields.
  rewrite fold_left_app, (take_fields_rest rest) by done.
  cbn [tk_rest tk_text tk_previous_response_id tk_store tk_reasoning].
  rewrite insert_sorted by (done || constructor).
  by destruct text, reas, prev, store.
Qed.

Lemma resp_read_build `{SerdeJson} `{!SerdeJsonLaws} (ir : IrRequest) :
  resp_request ir -> read (build ir) = ir.
Proof.
  destruct ir as [mdl sys msgs tls choice [mt temp tp tk stops] strm reas ext].
  intros (Hsys & Halt & Hmsg & Htl & Htk & Hst & (text & r & prev & store & rest & Hx & Hs & Hr & Heff)).
  simpl in *. subst tk stops ext reas. unfold read, build.
  cbn [model system messages tools tool_choice sampling stream reasoning extra max_tokens temperature
       top_p rq_input rq_instructions rq_reasoning rq_tools rq_model rq_tool_choice
       rq_max_output_tokens rq_temperature rq_top_p rq_stream rq_store rq_previous_response_id
       rq_text rq_extra].
  rewrite read_build_input, resp_read_build_tools, resp_read_build_tool_choice by done.
  rewrite take_own_extra by done. cbn [tk_text tk_previous_response_id tk_store tk_reasoning tk_rest].
  assert (opt_or r (reasoning_to_value (default Off (Effort <$> (r ≫= value_str "effort")))) = r) as ->
    by by destruct r.
  f_equal.
  - destruct Hsys as [->|[t ->]]; done.
  - by destruct strm.
Qed.

(** C7: a request survives Responses' wire. Every request Responses can express
    is written by the builder and read back unchanged: alternating turns of
    text and images, function calls with their arguments, function call
    outputs, instructions, tools with their strictness, tool choice, sampling,
    the effort inside the client's [reasoning] object, and the extra fields,
    named and unnamed. *)
Theorem resp_request_roundtrip `{SerdeJson} `{!SerdeJsonLaws} (ir : IrRequest) :
  resp_request ir -> read (build ir) = ir.
Proof. apply resp_read_build. Qed.

Definition sample_request : IrRequest :=
  {| model := "gpt-5";
     system := [Text "be brief" None];
     messages :=
       [{| msg_role := User;
           msg_parts := [Text "look" None; Image "https://a/b.png" "" None (Some "low")] |};
        {| msg_role := Assistant;
           msg_parts := [Text "calling" None; ToolCall "t1" "f" (obj [("x", num 1)]) None] |};
        {| msg_role := User; msg_parts := [ToolResult "t1" false [Text "ok" None]; Text "go on" None] |}];
     tools := [{| tool_name := "f"; tool_description := "d"; tool_schema := obj [];
                  tool_strict := Some false |}];
     tool_choice := Some (ChoiceNamed "f");
     sampling := {| max_tokens := Some 2048; temperature := Some f32_one; top_p := None;
                    top_k := None; stop := [] |};
     stream := true;
     reasoning := Effort "low";
     extra := own_extra None (Some (obj [("effort", str "low")])) (Some "resp_0") (Some false)
                [("service_tier", str "flex"); ("truncation", str "auto")] |}.

Lemma resp_request_roundtrip_witness : read (build sample_request) = sample_request.
Proof.
  apply resp_request_roundtrip. unfold resp_request.
  cbn [system messages tools tool_choice sampling reasoning extra top_k stop sample_request].
  split_and!; try done.
  - right. by exists "be brief".
  - repeat (apply List.Forall_cons; [reflexivity|]). apply List.Forall_nil.
  - apply List.Forall_cons; [split; [done|by exists false]|apply List.Forall_nil].
  - eexists _, _, _, _, _. split; [reflexivity|]. done.
Defined.

(** ** Sealed reasoning *)

(** serde_json reads an object whatever the order of its members: the block
    [seal_thinking] writes by hand is read as the object it spells. *)
Class SealLaws `{SerdeJson} : Prop :=
  value_from_thinking text signature :
    value_from_str (thinking_block_text text signature) =
    Ok (obj [("type", str "thinking"); ("thinking", str text); ("signature", str signature)]).

Section seals.
Context `{SerdeJson} `{!SerdeJsonLaws} `{!SealLaws}.

Lemma open_sealed block : open_seal (seal block) = ok (value_from_str block).
Proof using Type.
  unfold open_seal, seal. rewrite strip_prefix_app. cbn [mbind option_bind].
  by rewrite base64_decode_encode.
Qed.

Lemma sealed_not_empty block : is_empty (seal block) = false.
Proof using Type. done. Qed.

Lemma open_seal_block raw : wf_value raw = true -> open_seal (seal_block raw) = Some raw.
Proof using All. intros Hr. unfold seal_block. by rewrite open_sealed, value_from_to_string. Qed.

Lemma open_seal_thinking text signature :
  open_seal (seal_thinking text signature) =
  Some (obj [("type", str "thinking"); ("thinking", str text); ("signature", str signature)]).
Proof using All. unfold seal_thinking. by rewrite open_sealed, value_from_thinking. Qed.

Lemma sealed_thinking_part text signature :
  signature <> "" ->
  claude_sealed_part (seal_thinking text signature) =
  Some (Thinking text (Some {| sig_by := Claude; sig_value := signature |})).
Proof using All.
  intros Hs. unfold claude_sealed_part. rewrite open_seal_thinking. by destruct signature.
Qed.

(** Claude's redacted block: an object with its type and data. *)
Definition redacted_block (raw : Value) : bool :=
  wf_value raw && bool_decide (value_str "type" raw = Some "redacted_thinking") &&
  negb (is_empty (default "" (value_str "data" raw))).

Lemma sealed_block_part raw :
  redacted_block raw = true -> claude_sealed_part (seal_block raw) = Some (Sealed Claude raw).
Proof using All.
  unfold redacted_block. intros [[Hw Ht]%andb_prop Hd]%andb_prop.
  rewrite bool_decide_eq_true in Ht. rewrite negb_true_iff in Hd.
  unfold claude_sealed_part. rewrite open_seal_block by done. cbn [mbind option_bind].
  rewrite Ht, Hd. by rewrite decide_False, decide_True by naive_solver.
Qed.
End seals.

(** ** Responses *)

(** The item a part becomes, for the parts that are not text. *)
Definition part_item `{SerdeJson} `{Env} (p : IrPart) : Eff Value :=
  match p with
  | ToolCall id name args _ => mret (function_call_item id name args)
  | Thinking text signature =>
      reasoning_item text (opt_filter (fun s => format_eqb (sig_by s) Claude) signature)
  | Sealed _ raw => sealed_reasoning_item raw
  | _ => mret VNull
  end.

Definition reply_text (p : IrPart) : bool := match p with Text _ _ => true | _ => false end.
Definition reply_item (p : IrPart) : bool :=
  match p with ToolCall _ _ _ _ | Thinking _ _ | Sealed Claude _ => true | _ => false end.

(** Any reading of the output in which gathered texts and items of their own
    are read back part by part, each as its [view], reads the whole response
    back; a part that is neither is not written. *)
Lemma flat_map_single {A} (l : list A) : flat_map (fun a => [a]) l = l.
Proof. induction l as [|a l IH]; [done|]. cbn. by rewrite IH. Qed.

Section output.
Context `{SerdeJson} `{Env}.
Variable reads : list Value -> list IrPart -> Prop.
Variable part_ok : IrPart -> bool.
Variable view : IrPart -> list IrPart.
Hypothesis reads_flush : forall items ps pend,
  reads items ps -> forallb part_ok pend = true -> forallb reply_text pend = true ->
  reads (flush_text items (map (encode_content Assistant) pend)) (ps ++ flat_map view pend).
Hypothesis reads_item : forall items ps p w,
  reads items ps -> part_ok p = true -> reply_item p = true ->
  reads (items ++ [fst (part_item p w)]) (ps ++ view p).
Hypothesis view_unwritten : forall p,
  part_ok p = true -> reply_text p = false -> reply_item p = false -> view p = [].

Lemma output_text_step items pend p w :
  reply_text p = true ->
  output_part (items, map (encode_content Assistant) pend) p w =
  ((items, map (encode_content Assistant) (pend ++ [p])), w).
Proof using Type. destruct p; try done. intros _. by rewrite map_app. Qed.

Lemma output_item_step items content p w :
  reply_item p = true ->
  output_part (items, content) p w =
  (let '(v, w) := part_item p w in ((flush_text items content ++ [v], []), w)).
Proof using Type. by destruct p as [| | | | |[]]. Qed.

Lemma output_unwritten_step items content p w :
  reply_text p = false -> reply_item p = false ->
  output_part (items, content) p w = ((items, content), w).
Proof using Type. by destruct p as [| | | | |[]]. Qed.

Lemma output_parts_read parts items ps pend w :
  forallb part_ok parts = true -> forallb part_ok pend = true -> forallb reply_text pend = true ->
  reads items ps ->
  let '((output, content), _) :=
    output_parts (items, map (encode_content Assistant) pend) parts w in
  reads (flush_text output content) (ps ++ flat_map view (pend ++ parts)).
Proof using All.
  revert items ps pend w. induction parts as [|p parts IH]; intros items ps pend w; cbn [forallb].
  - intros _ Hpend Ht Hr. rewrite app_nil_r. by apply reads_flush.
  - intros [Hp Hparts]%andb_prop Hpend Ht Hr. cbn [output_parts]. unfold mbind, eff_bind.
    destruct (reply_text p) eqn:Ep.
    + rewrite output_text_step by done.
      specialize (IH items ps (pend ++ [p]) w Hparts). rewrite <-app_assoc in IH.
      apply IH; [| |done]; rewrite forallb_app, ?Hpend, ?Ht; cbn [forallb]; by rewrite ?Hp, ?Ep.
    + rewrite flat_map_app. cbn [flat_map]. destruct (reply_item p) eqn:Ei.
      * rewrite output_item_step by done.
        pose proof (reads_item _ _ p w (reads_flush _ _ _ Hr Hpend Ht) Hp Ei) as Hr'.
        destruct (part_item p w) as [v w']. cbn [fst] in Hr'.
        specialize (IH _ _ [] w' Hparts eq_refl eq_refl Hr'). cbn [map app] in IH.
        by rewrite <-!app_assoc in IH.
      * rewrite output_unwritten_step, view_unwritten by done.
        specialize (IH items ps pend w Hparts Hpend Ht Hr). by rewrite flat_map_app in IH.
Qed.
End output.

(** A response's parts: no empty text, no signatures. *)
Definition response_text (p : IrPart) : bool :=
  match p with Text t None => negb (is_empty t) | _ => false end.
Definition response_item (p : IrPart) : bool :=
  match p with
  | ToolCall _ name args None => negb (is_empty name) && wf_value args
  | Thinking _ None => true
  | _ => false
  end.

Definition resp_response (ir : IrResponse) : Prop :=
  (exists b, resp_id ir = Some ("resp_" +:+ b)) /\
  forallb (fun p => response_text p || response_item p) (resp_parts ir) = true /\
  (resp_stop_reason ir = EndTurn \/ resp_stop_reason ir = MaxTokens) /\
  resp_stop_sequence ir = None /\
  cache_write_tokens (resp_usage ir) = None /\ cache_write_1h (resp_usage ir) = None /\
  reasoning_tokens (resp_usage ir) = None.

Lemma read_function_call_item `{SerdeJson} `{!SerdeJsonLaws} id name args :
  name <> "" -> wf_value args = true ->
  read_output_item (function_call_item id name args) = [ToolCall id name args None].
Proof.
  intros Hn Ha. destruct name as [|c n]; [done|]. rewrite <-(parse_arguments_printed args) at 2 by done.
  unfold function_call_item, arguments_to_string.
  cbv -[parse_arguments serde_to_string unwrap_or_r]. done.
Qed.

Section response.
Context `{SerdeJson} `{!SerdeJsonLaws} `{Env}.

Lemma output_text_items l :
  forallb response_text l = true -> filter_map output_text (map (encode_content Assistant) l) = l.
Proof using Type.
  intros Hl. rewrite filter_map_map. apply filter_map_id, Forall_forall. intros p Hp.
  rewrite forallb_forall in Hl. specialize (Hl p Hp).
  destruct p as [[|c t] [s|]| | | | |]; try done.
Qed.

Lemma response_texts l :
  forallb (fun p => response_text p || response_item p) l = true -> forallb reply_text l = true ->
  forallb response_text l = true.
Proof using Type.
  induction l as [|p l IH]; [done|]. cbn [forallb]. intros [Hp Hl]%andb_prop [Ht Htl]%andb_prop.
  rewrite IH by done. by destruct p as [? []| | | | |].
Qed.

Lemma read_response_parts parts w :
  forallb (fun p => response_text p || response_item p) parts = true ->
  let '((output, content), _) := output_parts ([], []) parts w in
  flat_map read_output_item (flush_text output content) = parts.
Proof using All.
  intros Hp.
  apply (output_parts_read (fun items ps => flat_map read_output_item items = ps)
           (fun p => response_text p || response_item p) (fun p => [p])) with
    (items := []) (ps := []) (pend := []) (w := w) in Hp; try done.
  - cbn [app map] in Hp. by rewrite flat_map_single in Hp.
  - intros items ps pend <- Hpend Ht. rewrite flat_map_single. unfold flush_text.
    rewrite flush_app, flat_map_app. f_equal.
    destruct pend as [|p l]; [done|]. rewrite <-(output_text_items (p :: l)) at 2
      by by apply response_texts.
    cbn [map flush_input app flat_map]. rewrite app_nil_r.
    rewrite <-map_cons. generalize (map (encode_content Assistant) (p :: l)). intros vs.
    cbv -[filter_map output_text]. done.
  - intros items ps p w' <- Hp' Hi. rewrite flat_map_app. f_equal. cbn [flat_map]. rewrite app_nil_r.
    destruct p as [| |i n a [s|]| |t [s|]|]; try done; cbn [response_text response_item orb] in Hp'.
    apply andb_prop in Hp' as [Hn Ha]. apply read_function_call_item; [by intros ->|done].
  - by intros [? []| |? ? ? []| |? []|].
Qed.
End response.

(** A response survives Responses' wire: texts, function calls with their
    arguments and unsigned reasoning in order, the identifier, the status, and
    the token counts with the cached ones are read back as they were. *)
Theorem resp_response_roundtrip `{SerdeJson} `{!SerdeJsonLaws} `{Env} (ir : IrResponse) (w : World) :
  resp_response ir ->
  let '(resp, w') := build_response ir w in read_response resp w' = (ir, w').
Proof.
  destruct ir as [id m parts sr ss [ti tokens cr cw c1 rt]]. unfold resp_response. simpl.
  intros ([b ->] & Hp & Hsr & -> & -> & -> & ->).
  pose proof (read_response_parts parts w Hp) as E.
  unfold build_response. cbn [resp_parts resp_id]. unfold mbind, eff_bind.
  destruct (output_parts ([], []) parts w) as [[output content] w1].
  unfold normalize_id_to_resp. cbn [default from_option id]. rewrite starts_with_app.
  change (is_empty ("resp_" +:+ b)) with false.
  unfold now_unix_secs, read_clock, mret, eff_ret. cbv beta iota zeta.
  unfold read_response, mbind, mret, eff_bind, eff_ret.
  cbn [rr_output rr_status rr_id rr_model rr_usage]. rewrite E.
  change (is_empty ("resp_" +:+ b)) with false. cbn.
  f_equal. f_equal; [by destruct Hsr as [->| ->]|by destruct cr].
Qed.

Definition sample_response : IrResponse :=
  {| resp_id := Some "resp_1"; resp_model := "gpt-5";
     resp_parts := [Thinking "hm" None; Text "hi" None; Text "there" None;
                    ToolCall "c" "f" (obj [("x", num 1)]) None];
     resp_stop_reason := MaxTokens; resp_stop_sequence := None;
     resp_usage := {| input_tokens := 5; output_tokens := 7; cache_read_tokens := Some 2;
                      cache_write_tokens := None; cache_write_1h := None; reasoning_tokens := None |} |}.

Lemma resp_response_roundtrip_witness :
  exists r w, @build_response _ sample_env sample_response world0 = (r, w) /\
    length (rr_output r) = 3%nat /\ @read_response _ sample_env r w = (sample_response, w).
Proof.
  pose proof (@resp_response_roundtrip _ _ sample_env sample_response world0) as E.
  destruct (@build_response _ sample_env sample_response world0) as [r w] eqn:Eb.
  exists r, w. split; [done|]. split.
  - apply (f_equal fst) in Eb. cbn [fst] in Eb. subst r. vm_compute. reflexivity.
  - apply E. unfold resp_response. split_and!; try done; [by exists "1"|by right].
Defined.

(** ** The next turn

    A client that keeps no state on the server sends a reply's output items
    back as input. *)

(** What comes back of a part. Signatures of other vendors stay behind, a call
    without a name is not read, and only Claude's sealed blocks are written. *)
Definition replayed (p : IrPart) : list IrPart :=
  match p with
  | Text text _ => [Text text None]
  | ToolCall id name args _ => if is_empty name then [] else [ToolCall id name args None]
  | Thinking text (Some {| sig_by := Claude; sig_value := s |}) =>
      [if is_empty s then Thinking text None else p]
  | Thinking text _ => [Thinking text None]
  | Sealed Claude _ => [p]
  | _ => []
  end.

(** Arguments are values serde_json holds, and what Claude sealed is a
    redacted block with its data. *)
Definition turn_part (p : IrPart) : bool :=
  match p with
  | ToolCall _ _ args _ => wf_value args
  | Sealed Claude raw => redacted_block raw
  | _ => true
  end.

Section turns.
Context `{SerdeJson} `{!SerdeJsonLaws} `{!SealLaws} `{Env}.

Lemma read_reasoning_encrypted item e p :
  get_str "encrypted_content" item = Some e -> is_empty e = false ->
  claude_sealed_part e = Some p -> read_reasoning_item item = p.
Proof using Type. intros E1 E2 E3. unfold read_reasoning_item. rewrite E1. cbn [default from_option id]. by rewrite E2, E3. Qed.

Lemma read_input_reasoning item sys msgs :
  input_item_kind item = KindReasoning ->
  read_input_item (sys, msgs) (VObject item) =
  (sys, push_message msgs Assistant [read_reasoning_item item]).
Proof using Type. intros E. unfold read_input_item. by rewrite E. Qed.

Lemma read_unnamed_call id args sys msgs :
  read_input_item (sys, msgs) (function_call_item id "" args) = (sys, msgs).
Proof using Type. done. Qed.

Lemma sealed_thinking_unsigned text : claude_sealed_part (seal_thinking text "") = None.
Proof using All. unfold claude_sealed_part. by rewrite open_seal_thinking. Qed.

Lemma read_turn_item p w sys msgs :
  turn_part p = true -> reply_item p = true ->
  read_input_item (sys, msgs) (fst (part_item p w)) = (sys, push_message msgs Assistant (replayed p)).
Proof using All.
  intros Hp Hi. destruct p as [| |i n a s| |t s|[] raw]; try done; cbn [turn_part] in Hp.
  - destruct n as [|c n]; [apply read_unnamed_call|].
    destruct (read_item_part Assistant (ToolCall i (String c n) a None) Hp) as (v & Hv & Hread).
    specialize (Hv [] []). cbn in Hv. injection Hv as <-. apply Hread.
  - unfold part_item, reasoning_item, new_uuid, draw_uuid, mbind, eff_bind, mret, eff_ret.
    destruct s as [[[] s]|]; cbn [fst opt_filter sig_by];
      try (rewrite read_input_reasoning by reflexivity; unfold replayed; do 3 f_equal;
           reflexivity).
    change (format_eqb Claude Claude) with true. cbn iota.
    rewrite read_input_reasoning by reflexivity. cbn [replayed]. do 3 f_equal.
    destruct (is_empty s) eqn:Es.
    + destruct s; [|done]. unfold read_reasoning_item.
      match goal with |- context [default "" ?x] => change x with (Some (seal_thinking t "")) end.
      cbn [default from_option id sig_value]. change (is_empty (seal_thinking t "")) with false.
      cbn iota. rewrite sealed_thinking_unsigned. change (is_sealed (seal_thinking t "")) with true.
      reflexivity.
    + eapply read_reasoning_encrypted; [reflexivity|reflexivity|].
      apply sealed_thinking_part. by intros ->.
  - unfold part_item, sealed_reasoning_item, new_uuid, draw_uuid, mbind, eff_bind, mret, eff_ret.
    cbn [fst]. unfold obj. rewrite read_input_reasoning by reflexivity.
    rewrite (read_reasoning_encrypted _ (seal_block raw) (Sealed Claude raw));
      [done|reflexivity|reflexivity|].
    by apply sealed_block_part.
Qed.

Lemma replayed_texts pend :
  forallb reply_text pend = true ->
  map (encode_content Assistant) pend = map (encode_content Assistant) (flat_map replayed pend) /\
  forallb resp_content (flat_map replayed pend) = true.
Proof using Type.
  induction pend as [|p pend IH]; [done|]. cbn [forallb]. intros [Ht Hpend]%andb_prop.
  destruct (IH Hpend) as [E1 E2]. destruct p; try done. cbn. by rewrite E1, E2.
Qed.

Lemma read_turn_parts parts w :
  forallb turn_part parts = true ->
  let '((output, content), _) := output_parts ([], []) parts w in
  fold_left read_input_item (flush_text output content) ([], []) =
  ([], push_message [] Assistant (flat_map replayed parts)).
Proof using All.
  intros Hp.
  apply (output_parts_read (fun items ps => fold_left read_input_item items ([], []) =
                              ([], push_message [] Assistant ps))
           turn_part replayed) with (items := []) (ps := []) (pend := []); try done.
  - intros items ps pend Hr _ Ht. destruct (replayed_texts pend Ht) as [-> Hc].
    unfold flush_text. by rewrite flush_app, fold_left_app, Hr, read_flush, push_message_app.
  - intros items ps p w' Hr Hp' Hi. rewrite fold_left_app, Hr. cbn [fold_left].
    by rewrite read_turn_item, push_message_app.
  - by intros [| | | | |[]].
Qed.
End turns.

(** C3: Claude's reasoning survives a stateless Responses client. Send the
    output items of any reply back as the next request's input, and they read
    as one assistant message with what was written of the reply's parts, in
    order: texts, named function calls with their arguments, summaries of
    thinking, Claude's thinking with its signature, and Claude's redacted
    thinking whole, both of which travelled sealed in [encrypted_content]. What
    stays behind are the signatures of other vendors, their sealed blocks,
    images and tool results, and calls without a name; a reply that leaves
    nothing reads as no message. Arguments and redacted blocks are asked to be
    values as serde_json holds them. *)
Theorem resp_turn_replayed `{SerdeJson} `{!SerdeJsonLaws} `{!SealLaws} `{Env} (ir : IrResponse) (w : World) :
  forallb turn_part (resp_parts ir) = true ->
  read_input (Some (VArray (rr_output (fst (build_response ir w))))) =
  ([], match flat_map replayed (resp_parts ir) with
       | [] => []
       | parts => [{| msg_role := Assistant; msg_parts := parts |}]
       end).
Proof.
  intros Hp. pose proof (read_turn_parts (resp_parts ir) w Hp) as E.
  unfold build_response, mbind, eff_bind, mret, eff_ret.
  destruct (output_parts ([], []) (resp_parts ir) w) as [[output content] w1].
  destruct (normalize_id_to_resp _ w1) as [id w2]. unfold now_unix_secs, read_clock. cbn [fst rr_output].
  cbn [read_input]. rewrite E. by destruct (flat_map replayed (resp_parts ir)).
Qed.

(** An instance that reads the sealed block's own syntax, and [binary_json]
    elsewhere. *)
Definition block_head : string :=
  "{" +:+ quoted "type" +:+ ":" +:+ quoted "thinking" +:+ "," +:+ quoted "thinking" +:+ ":".

Definition parse_block (s : string) : option Value :=
  r ← strip_prefix block_head s;
  '(a, r) ← split_once "," r;
  r ← strip_prefix (quoted "signature" +:+ ":") r;
  '(b, _) ← split_once "}" r;
  text ← ok (binary_parse a);
  signature ← ok (binary_parse b);
  Some (obj [("type", str "thinking"); ("thinking", text); ("signature", signature)]).

Definition block_json : SerdeJson :=
  {| value_to_string v := binary_print v;
     serde_to_string v := Ok (binary_print v);
     value_from_str s := match parse_block s with Some v => Ok v | None => binary_parse s end |}.

Lemma digits_without c p : c <> "0"%char -> c <> "1"%char -> str_in c (digits p) = false.
Proof. intros H0 H1. destruct (str_in c (digits p)) eqn:E; [|done]. by destruct (digits_chars c p E). Qed.

Lemma block_json_laws : @SerdeJsonLaws block_json.
Proof.
  split; [done|intros v; apply digits_wire|]. intros v _. cbn [value_from_str value_to_string block_json].
  assert (parse_block (binary_print v) = None) as ->; [|apply binary_roundtrip].
  unfold parse_block, binary_print. by destruct (encode v).
Qed.

Lemma block_json_seal : @SealLaws block_json.
Proof.
  intros text signature. cbn [value_from_str block_json].
  assert (@thinking_block_text block_json text signature =
          block_head +:+ binary_print (VString text) +:+ String "," "" +:+
          (quoted "signature" +:+ ":") +:+ binary_print (VString signature) +:+ String "}" "" +:+ "") as ->.
  { unfold thinking_block_text, block_head. by rewrite ?app_assoc_str. }
  unfold parse_block. rewrite strip_prefix_app. cbn [mbind option_bind].
  rewrite split_once_first by by apply digits_without. cbn [mbind option_bind].
  rewrite strip_prefix_app. cbn [mbind option_bind].
  rewrite split_once_first by by apply digits_without. cbn [mbind option_bind].
  by rewrite !binary_roundtrip.
Qed.

Definition sample_turn : IrResponse :=
  {| resp_id := Some "msg_1"; resp_model := "claude";
     resp_parts := [Thinking "hm" (Some {| sig_by := Claude; sig_value := "sig" |});
                    Sealed Claude (obj [("type", str "redacted_thinking"); ("data", str "xx")]);
                    Thinking "" (Some {| sig_by := Gemini; sig_value := "g" |});
                    Text "hi" None; ToolCall "c" "f" (obj [("x", num 1)]) None];
     resp_stop_reason := ToolUse; resp_stop_sequence := None; resp_usage := Usage_default |}.

Lemma resp_turn_replayed_witness :
  @read_input block_json (Some (VArray (rr_output (fst (@build_response block_json sample_env sample_turn world0))))) =
  ([], [{| msg_role := Assistant;
           msg_parts := [Thinking "hm" (Some {| sig_by := Claude; sig_value := "sig" |});
                         Sealed Claude (obj [("type", str "redacted_thinking"); ("data", str "xx")]);
                         Thinking "" None; Text "hi" None; ToolCall "c" "f" (obj [("x", num 1)]) None] |}]).
Proof.
  apply (@resp_turn_replayed block_json block_json_laws block_json_seal sample_env).
  vm_compute. reflexivity.
Defined.

(** ** Opaque material *)

Section opaque.
Context `{SerdeJson}.

Lemma input_part_redact t role acc p : input_part role acc (redact t p) = input_part role acc p.
Proof using Type.
  destruct acc as [items content], p as [x s|u m d e|i n a s|c e l|x s|b r]; try done.
  cbn [redact input_part]. unfold parts_to_text. rewrite filter_map_redact; [done|].
  apply list.Forall_true. by intros [].
Qed.

Lemma fold_left_map_ext {A B C} (f : A -> B -> A) (g : A -> C -> A) (h : B -> C) l a :
  (forall a b, g a (h b) = f a b) -> fold_left g (map h l) a = fold_left f l a.
Proof using Type. intros E. revert a. induction l as [|b l IH]; intros a; [done|]. cbn. by rewrite E. Qed.

Lemma messages_to_input_redact t l : messages_to_input (map (redact_message t) l) = messages_to_input l.
Proof using Type.
  unfold messages_to_input. do 2 f_equal. apply fold_left_map_ext. intros items [role parts].
  unfold input_message, redact_message. cbn [msg_role msg_parts].
  rewrite (fold_left_map_ext (input_part role)); [done|]. intros acc p. apply input_part_redact.
Qed.

(** What the items of a request are. *)
Definition input_types : list string :=
  [ITEM_TYPE_MESSAGE; ITEM_TYPE_FUNCTION_CALL; ITEM_TYPE_FUNCTION_CALL_OUTPUT].
Definition input_typed (v : Value) : Prop := exists t, value_str "type" v = Some t /\ t ∈ input_types.

Lemma flush_input_typed items role content :
  Forall input_typed items -> Forall input_typed (flush_input items role content).
Proof using Type.
  intros Hi. destruct content as [|v l]; [done|]. apply list.Forall_app. split; [done|].
  constructor; [|constructor]. exists ITEM_TYPE_MESSAGE. split; [reflexivity|]. unfold input_types. set_solver.
Qed.

Lemma input_part_typed role items content p :
  Forall input_typed items -> Forall input_typed (fst (input_part role (items, content) p)).
Proof using Type.
  intros Hi. destruct p as [x s|u m d e|i n a s|c e l|x s|b r]; try done; cbn [input_part fst];
    (apply list.Forall_app; split; [by apply flush_input_typed|]; constructor; [|constructor]).
  - exists ITEM_TYPE_FUNCTION_CALL. split; [reflexivity|]. unfold input_types. set_solver.
  - exists ITEM_TYPE_FUNCTION_CALL_OUTPUT. split; [reflexivity|]. unfold input_types. set_solver.
Qed.

Lemma input_message_typed m items :
  Forall input_typed items -> Forall input_typed (input_message items m).
Proof using Type.
  intros Hi. unfold input_message.
  assert (forall parts acc, Forall input_typed (fst acc) ->
            Forall input_typed (fst (fold_left (input_part (msg_role m)) parts acc))) as Hfold.
  { induction parts as [|p parts IH]; intros [i c] Hacc; [done|]. cbn [fold_left]. apply IH.
    by apply input_part_typed. }
  specialize (Hfold (msg_parts m) (items, []) Hi).
  destruct (fold_left _ _ _) as [i c]. by apply flush_input_typed.
Qed.

Lemma messages_to_input_typed l items :
  messages_to_input l = Some (VArray items) -> Forall input_typed items.
Proof using Type.
  unfold messages_to_input. intros E.
  assert (forall l acc, Forall input_typed acc -> Forall input_typed (fold_left input_message l acc)) as Hfold.
  { clear. induction l as [|m l IH]; intros acc Hacc; [done|]. cbn. by apply IH, input_message_typed. }
  specialize (Hfold l [] (List.Forall_nil _)).
  destruct (fold_left input_message l []); cbn in E; simplify_eq; done.
Qed.
End opaque.

(** No signature and no sealed block of another vendor reaches Responses
    upstream. What the builder writes does not depend on opaque material,
    whoever made it, and every item it writes is a message, a function call or
    a function call's output. For material of other vendors that is as it
    should be; that Responses' own is dropped as well is the finding below. *)
Theorem resp_build_redacts `{SerdeJson} (t : Format) (ir : IrRequest) :
  build (redact_request t ir) = build ir /\
  (forall items, rq_input (build ir) = Some (VArray items) ->
     Forall (fun v => exists ty, value_str "type" v = Some ty /\
       (ty = "message" \/ ty = "function_call" \/ ty = "function_call_output")) items).
Proof.
  split.
  - unfold build, redact_request. simpl. rewrite messages_to_input_redact. f_equal.
    unfold system_to_instructions. rewrite filter_map_redact; [done|]. apply list.Forall_true. by intros [].
  - intros items E%messages_to_input_typed. apply (Forall_weaken _ _ _ E).
    intros v (ty & Ht & Hin). exists ty. split; [done|]. unfold input_types in Hin.
    apply list_elem_of_In in Hin. cbn in Hin. destruct Hin as [<-|[<-|[<-|[]]]]; auto.
Qed.

(** A finding. A reasoning item that Responses itself encrypted is read and
    kept whole as this format's sealed part, "only this format's builder writes
    it back", but the builder drops it: the same client talking to a Responses
    upstream loses its encrypted reasoning, here the whole input. *)
Theorem resp_encrypted_reasoning_lost `{SerdeJson} (req : OpenAIResponsesRequest) (item : Map) (e : string) :
  rq_input req = Some (VArray [VObject item]) ->
  get_str "type" item = Some "reasoning" ->
  get_str "encrypted_content" item = Some e -> e <> "" -> is_sealed e = false ->
  messages (read req) = [{| msg_role := Assistant; msg_parts := [Sealed OpenAIResponses (VObject item)] |}] /\
  rq_input (build (read req)) = None.
Proof.
  intros Hi Ht He Hne Hs.
  assert (read_input (rq_input req) =
          ([], [{| msg_role := Assistant; msg_parts := [Sealed OpenAIResponses (VObject item)] |}])) as E.
  { rewrite Hi. cbn [read_input fold_left]. rewrite read_input_reasoning
      by (unfold input_item_kind; by rewrite Ht).
    unfold read_reasoning_item. rewrite He. cbn [default from_option id].
    destruct e as [|c e]; [done|]. cbn [is_empty].
    unfold claude_sealed_part, open_seal. rewrite strip_prefix_None by done. cbn [mbind option_bind].
    by rewrite Hs. }
  unfold read. rewrite E. destruct (read_tools (rq_tools req)). split; reflexivity.
Qed.

Lemma resp_encrypted_reasoning_lost_witness :
  let item := map_of_list [("type", str "reasoning"); ("id", str "rs_1"); ("encrypted_content", str "gAAAA")] in
  let req := {| rq_model := "gpt-5"; rq_input := Some (VArray [VObject item]); rq_instructions := None;
                rq_max_output_tokens := None; rq_temperature := None; rq_top_p := None; rq_stream := None;
                rq_tools := None; rq_tool_choice := None; rq_text := None; rq_reasoning := None;
                rq_previous_response_id := None; rq_store := Some false; rq_extra := [] |} in
  rq_input (build (read req)) = None.
Proof. intros item req. by apply (resp_encrypted_reasoning_lost req item "gAAAA"). Defined.
