(* ===== verification/RespStream.v ===== *)
(** * The Responses stream adapter

    [formats/openai_resp/stream.rs]. *)
From Stdlib Require Import ZArith.
From stdpp Require Import pretty.
From S2P Require Import Prelude.
From S2P Require Import RustStd.
From S2P Require Import Json.
From S2P Require Import Effects.
From S2P Require Import Format.
From S2P Require Import Ir.
From S2P Require Import Sse.
From S2P Require Import Shared.
From S2P Require Import RespBuild.
From S2P Require Import Adapter.

Local Open Scope Z_scope.

(** The open thinking block's text rides ahead of its signature in
    [thinking_signature], split by a NUL. *)
Definition THINKING_TEXT_END : ascii := "000".

Definition thinking_parts (st : StreamState) : string * string :=
  match rsplit_once THINKING_TEXT_END (thinking_signature st) with
  | Some (text, signature) => (text, signature)
  | None => (thinking_signature st, "")
  end.

Definition signed_by_claude (st : StreamState) : bool :=
  bool_decide (thinking_signature_by st = Some Claude) &&
  match rsplit_once THINKING_TEXT_END (thinking_signature st) with
  | Some (_, signature) => negb (is_empty signature)
  | None => false
  end.

Definition reasoning_prefix (st : StreamState) : Z := if signed_by_claude st then 1 else 0.

Definition status_to_stop_reason (status : string) : StopReason :=
  if decide (status = "completed") then EndTurn else
  if decide (status = "incomplete") then MaxTokens else
  if decide (status = "failed") then ContentFilter else
  EndTurn.

Definition stop_reason_to_status (reason : StopReason) : string :=
  match reason with
  | MaxTokens => "incomplete"
  | ContentFilter => "failed"
  | _ => "completed"
  end.

Section resp_stream.
Context `{SerdeJson} `{Env}.

(** ** Parsing *)

Definition event_usage (usage : Value) : Usage :=
  {| input_tokens := default 0 (get_key "input_tokens" usage ≫= Json.as_u64);
     output_tokens := default 0 (get_key "output_tokens" usage ≫= Json.as_u64);
     cache_read_tokens :=
       (details ← get_key "input_tokens_details" usage;
        cached ← get_key "cached_tokens" details; Json.as_u64 cached);
     cache_write_tokens := None;
     cache_write_1h := None;
     reasoning_tokens := None |}.

Definition parse_created (data : Value) : Stream (list CanonicalStreamEvent) :=
  response ← lift (ok_or (MissingField "response") (get_key "response" data));
  id ← lift (ok_or (MissingField "response.id") (value_str "id" response));
  let model := default "" (value_str "model" response) in
  _ ← match get_key "usage" response with
      | Some usage => st_modify (set_accumulated_usage (Some (event_usage usage)))
      | None => mret tt
      end;
  _ ← st_modify (fun st =>
        set_phase PhaseContent (set_st_model (Some model) (set_response_id (Some id) st)));
  mret [Start id model].

Definition parse_item_added (data : Value) : Stream (list CanonicalStreamEvent) :=
  let item := default data (get_key "item" data) in
  if decide (value_str "type" item = Some "function_call") then
    let id := default "" (value_str "call_id" item) in
    let name := default "" (value_str "name" item) in
    index ← st_run next_tool_call_index;
    _ ← st_modify (set_phase PhaseToolCalls);
    mret [ToolCallStart index id name None]
  else mret [].

Definition parse_completed (data : Value) : Stream (list CanonicalStreamEvent) :=
  response ← lift (ok_or (MissingField "response") (get_key "response" data));
  let status := default "completed" (value_str "status" response) in
  let usage := event_usage <$> get_key "usage" response in
  _ ← st_modify (fun st =>
        set_accumulated_usage usage (set_phase PhaseDone (set_done_ true st)));
  mret [Done (status_to_stop_reason status) usage].

(** The match on the event's type. *)
Definition parse_event (event_type : string) (data : Value) : Stream (list CanonicalStreamEvent) :=
  if decide (event_type = "response.created") then parse_created data
  else if decide (event_type = "response.output_text.delta") then
    mret [TextDelta (default "" (value_str "delta" data))]
  else if decide (event_type = "response.function_call_arguments.delta") then
    next ← st_gets tool_call_index;
    mret [ToolCallDelta (as_u32 (default next (get_key "output_index" data ≫= Json.as_u64)))
            (default "" (value_str "delta" data))]
  else if decide (event_type = "response.output_item.added") then parse_item_added data
  else if decide (event_type = "response.completed") then parse_completed data
  else mret [].

Definition resp_parse (e : SseEvent) : Stream (list CanonicalStreamEvent) :=
  data ← lift (map_err SseParse (value_from_str (data e)));
  event_type ← lift (ok_or (SseParse "missing event type")
                       (opt_or (event e) (value_str "type" data)));
  parse_event event_type data.

(** ** Emitting *)

(** A frame named after the event's own [type]. *)
Definition resp_frame (type : string) (fields : list (string * Value)) : string :=
  json_frame type (obj (("type", str type) :: fields)).

Definition text_offset (st : StreamState) : Z := if is_empty (accumulated_text st) then 0 else 1.

Definition emit_signature (by_ : Format) (delta : string) : Stream (list string) :=
  if negb (format_eqb by_ Claude) || is_empty delta then mret []
  else
    _ ← st_modify (fun st =>
          if decide (thinking_signature_by st = Some by_) then st
          else set_thinking_signature
                 (thinking_signature st +:+ String THINKING_TEXT_END "")
                 (set_thinking_signature_by (Some by_) st));
    _ ← st_modify (fun st => set_thinking_signature (thinking_signature st +:+ delta) st);
    mret [].

Definition in_progress_reasoning (id : string) : Value :=
  obj [("id", str id); ("type", str ITEM_TYPE_REASONING); ("status", str "in_progress");
       ("summary", VArray [])].

Definition emit_sealed (raw : Value) : Stream (list string) :=
  st ← st_gets (fun st => st);
  block ← st_run next_block_index;
  let index :=
    u32_add (u32_add (text_offset st) (as_u32 (Z.of_nat (length (accumulated_tool_calls st))))) block in
  uuid ← lift_eff draw_uuid;
  let id := "rs_" +:+ uuid in
  let item :=
    VObject (map_insert "encrypted_content" (str (seal_block raw))
      (map_of_list [("id", str id); ("type", str ITEM_TYPE_REASONING);
                    ("status", str "completed"); ("summary", VArray [])])) in
  mret [resp_frame "response.output_item.added"
          [("output_index", num index); ("item", in_progress_reasoning id)];
        resp_frame "response.output_item.done" [("output_index", num index); ("item", item)]].

Definition emit_start (id model : string) : Stream (list string) :=
  normalized_id ← lift_eff (normalize_id_to_resp id);
  _ ← st_modify (fun st =>
        set_phase PhaseContent
          (set_st_model (Some model) (set_response_id (Some normalized_id) st)));
  created_at ← lift_eff read_clock;
  let response :=
    obj [("id", str normalized_id); ("object", str "response"); ("created_at", num created_at);
         ("model", str model); ("status", str "in_progress"); ("output", VArray [])] in
  mret [resp_frame "response.created" [("response", response)];
        resp_frame "response.in_progress" [("response", response)]].

Definition output_text_part (text : string) : Value :=
  obj [("type", str "output_text"); ("text", str text)].

Definition message_item (item_id status : string) (content : list Value) : Value :=
  obj [("type", str "message"); ("id", str item_id); ("role", str "assistant");
       ("status", str status); ("content", VArray content)].

Definition emit_text (text : string) : Stream (list string) :=
  st ← st_gets (fun st => st);
  item_id ← lift_eff (match response_id st with
                      | Some id => mret (id +:+ "_msg_0")
                      | None => u ← draw_uuid; mret ("resp_" +:+ u)
                      end);
  let output_index := reasoning_prefix st in
  let opening :=
    if is_empty (accumulated_text st) then
      [resp_frame "response.output_item.added"
         [("output_index", num output_index); ("item", message_item item_id "in_progress" [])];
       resp_frame "response.content_part.added"
         [("item_id", str item_id); ("output_index", num output_index); ("content_index", num 0);
          ("part", output_text_part "")]]
    else [] in
  _ ← st_modify (set_accumulated_text (accumulated_text st +:+ text));
  mret (opening ++
        [resp_frame "response.output_text.delta"
           [("item_id", str item_id); ("output_index", num output_index);
            ("content_index", num 0); ("delta", str text)]]).

(** [index + text_offset + reasoning_prefix(state)] on [u32]. *)
Definition call_output_index (st : StreamState) (index : Z) : Z :=
  u32_add (u32_add index (text_offset st)) (reasoning_prefix st).

Definition call_item (status id name arguments : string) : Value :=
  obj [("id", str ("fc_" +:+ id)); ("type", str "function_call"); ("status", str status);
       ("call_id", str id); ("name", str name); ("arguments", str arguments)].

Definition emit_call_start (index : Z) (id name : string) : Stream (list string) :=
  st ← st_gets (fun st => st);
  _ ← st_modify (set_accumulated_tool_calls
        (accumulated_tool_calls st ++
         [{| tc_index := index; tc_id := id; tc_name := name; tc_arguments := "" |}]));
  mret [resp_frame "response.output_item.added"
          [("output_index", num (call_output_index st index));
           ("item", call_item "in_progress" id name "")]].

(** [iter_mut().find(..).map(..)]: the first call with the index, with the
    delta appended, and the calls after that. *)
Fixpoint push_arguments (index : Z) (delta : string) (calls : list AccumulatedToolCall)
  : option (string * list AccumulatedToolCall) :=
  match calls with
  | [] => None
  | tc :: calls =>
      if tc_index tc =? index then
        Some ("fc_" +:+ tc_id tc,
              {| tc_index := tc_index tc; tc_id := tc_id tc; tc_name := tc_name tc;
                 tc_arguments := tc_arguments tc +:+ delta |} :: calls)
      else
        '(item_id, calls) ← push_arguments index delta calls;
        Some (item_id, tc :: calls)
  end.

Definition emit_call_delta (index : Z) (arguments_delta : string) : Stream (list string) :=
  st ← st_gets (fun st => st);
  '(item_id, calls) ←
    lift (ok_or (ErrStreamState ("tool call index " +:+ pretty index +:+ " not found in state"))
            (push_arguments index arguments_delta (accumulated_tool_calls st)));
  _ ← st_modify (set_accumulated_tool_calls calls);
  mret [resp_frame "response.function_call_arguments.delta"
          [("item_id", str item_id); ("output_index", num (call_output_index st index));
           ("delta", str arguments_delta)]].

(** The frames, and the output item, of Claude's signed thinking. *)
Definition close_thinking (st : StreamState) : Eff (list string * list Value) :=
  let '(thinking_text, signature) := thinking_parts st in
  if signed_by_claude st then
    uuid ← draw_uuid;
    let id := "rs_" +:+ uuid in
    let item := map_of_list [("id", str id); ("type", str ITEM_TYPE_REASONING);
                             ("status", str "completed"); ("summary", VArray [])] in
    let item :=
      if is_empty thinking_text then item
      else map_insert "summary"
             (VArray [obj [("type", str ITEM_TYPE_SUMMARY_TEXT); ("text", str thinking_text)]]) item in
    let reasoning_item :=
      VObject (map_insert "encrypted_content" (str (seal_thinking thinking_text signature)) item) in
    mret ([resp_frame "response.output_item.added"
             [("output_index", num 0); ("item", in_progress_reasoning id)];
           resp_frame "response.output_item.done"
             [("output_index", num 0); ("item", reasoning_item)]],
          [reasoning_item])
  else mret ([], []).

Definition close_text (st : StreamState) (item_id : string) : list string * list Value :=
  let text := accumulated_text st in
  if is_empty text then ([], [])
  else
    let prefix := num (reasoning_prefix st) in
    let msg_item := message_item item_id "completed" [output_text_part text] in
    ([resp_frame "response.output_text.done"
        [("item_id", str item_id); ("output_index", prefix); ("content_index", num 0);
         ("text", str text)];
      resp_frame "response.content_part.done"
        [("item_id", str item_id); ("output_index", prefix); ("content_index", num 0);
         ("part", output_text_part text)];
      resp_frame "response.output_item.done" [("output_index", prefix); ("item", msg_item)]],
     [msg_item]).

Definition call_done_item (tc : AccumulatedToolCall) : Value :=
  call_item "completed" (tc_id tc) (tc_name tc) (tc_arguments tc).

Definition close_call (st : StreamState) (tc : AccumulatedToolCall) : list string :=
  let output_index := num (call_output_index st (tc_index tc)) in
  [resp_frame "response.function_call_arguments.done"
     [("item_id", str ("fc_" +:+ tc_id tc)); ("output_index", output_index);
      ("arguments", str (tc_arguments tc))];
   resp_frame "response.output_item.done"
     [("output_index", output_index); ("item", call_done_item tc)]].

Definition emit_done (stop_reason : StopReason) (usage : option Usage) : Stream (list string) :=
  st ← st_gets (fun st => st);
  response_id ← lift_eff (match response_id st with
                          | Some id => mret id
                          | None => u ← draw_uuid; mret ("resp_" +:+ u)
                          end);
  let item_id := response_id +:+ "_msg_0" in
  '(thinking_events, thinking_items) ← lift_eff (close_thinking st);
  let '(text_events, text_items) := close_text st item_id in
  let call_events := flat_map (close_call st) (accumulated_tool_calls st) in
  let output_items := thinking_items ++ text_items ++ map call_done_item (accumulated_tool_calls st) in
  let output_items :=
    match output_items with
    | [] => [message_item item_id "completed" [output_text_part ""]]
    | _ :: _ => output_items
    end in
  created_at ← lift_eff read_clock;
  let response :=
    map_of_list [("id", str response_id); ("object", str "response");
                 ("created_at", num created_at); ("model", str (default "" (st_model st)));
                 ("status", str (stop_reason_to_status stop_reason));
                 ("output", VArray output_items)] in
  let response :=
    match usage with
    | Some u =>
        map_insert "usage"
          (obj [("input_tokens", num (input_tokens u)); ("output_tokens", num (output_tokens u));
                ("total_tokens", num (total_tokens u))]) response
    | None => response
    end in
  _ ← st_modify (fun st => set_phase PhaseDone (set_done_ true st));
  mret (thinking_events ++ text_events ++ call_events ++
        [resp_frame "response.completed" [("response", VObject response)]]).

Definition emit_thinking (delta : string) : Stream (list string) :=
  _ ← st_modify (fun st =>
        set_thinking_signature
          (match rsplit_once THINKING_TEXT_END (thinking_signature st) with
           | Some (text, rest) => text +:+ delta +:+ String THINKING_TEXT_END rest
           | None => thinking_signature st +:+ delta
           end) st);
  mret [].

Definition resp_emit (e : CanonicalStreamEvent) : Stream (list string) :=
  match e with
  | ThinkingSignature by_ delta => emit_signature by_ delta
  | SealedThinking Claude raw => emit_sealed raw
  | SealedThinking _ _ => mret []
  | Start id model => emit_start id model
  | TextDelta text => emit_text text
  | ToolCallStart index id name _ => emit_call_start index id name
  | ToolCallDelta index arguments_delta => emit_call_delta index arguments_delta
  | Done stop_reason usage => emit_done stop_reason usage
  | ThinkingDelta delta => emit_thinking delta
  end.

Definition OpenAIResponsesStreamAdapter : StreamAdapter :=
  {| parse_sse_event := resp_parse; emit_sse_event := resp_emit |}.
End resp_stream.
