(* ===== verification/RespStreamProps.v ===== *)
(** * What the Responses stream adapter promises *)
From Stdlib Require Import ZArith Lia.
From stdpp Require Import pretty list_numbers.
From S2P Require Import Prelude.
From S2P Require Import RustStd.
From S2P Require Import Json.
From S2P Require Import Effects.
From S2P Require Import Format.
From S2P Require Import Ir.
From S2P Require Import Sse.
From S2P Require Import Concrete.
From S2P Require Import Shared.
From S2P Require Import RespBuild.
From S2P Require Import RespRead.
From S2P Require Import RespProps.
From S2P Require Import Adapter.
From S2P Require Import RespStream.

Local Open Scope Z_scope.

(** ** What a stream has said *)

Definition gathered (f : CanonicalStreamEvent -> option string) (es : list CanonicalStreamEvent) : string :=
  concat_strings (filter_map f es).

Definition texts : list CanonicalStreamEvent -> string :=
  gathered (fun e => match e with TextDelta t => Some t | _ => None end).
Definition thinking : list CanonicalStreamEvent -> string :=
  gathered (fun e => match e with ThinkingDelta t => Some t | _ => None end).
Definition claude_signature : list CanonicalStreamEvent -> string :=
  gathered (fun e => match e with ThinkingSignature Claude s => Some s | _ => None end).
(** The arguments of the call with an index. *)
Definition args_of (i : Z) : list CanonicalStreamEvent -> string :=
  gathered (fun e => match e with ToolCallDelta j d => then_some (j =? i) d | _ => None end).

(** Index, identifier and name of the calls, in the order they start. *)
Definition started (es : list CanonicalStreamEvent) : list (Z * string * string) :=
  filter_map (fun e => match e with ToolCallStart i id name _ => Some (i, id, name) | _ => None end) es.

Definition call_of (args : Z -> string) (c : Z * string * string) : AccumulatedToolCall :=
  let '(i, id, name) := c in {| tc_index := i; tc_id := id; tc_name := name; tc_arguments := args i |}.
Definition calls_of (es : list CanonicalStreamEvent) : list AccumulatedToolCall :=
  map (call_of (fun i => args_of i es)) (started es).

Lemma gathered_snoc f es e :
  gathered f (es ++ [e]) = match f e with Some s => gathered f es +:+ s | None => gathered f es end.
Proof.
  unfold gathered. rewrite filter_map_app, concat_strings_app. unfold filter_map at 2. cbn.
  destruct (f e); cbn; by rewrite app_nil_r_str, ?app_nil_r_str.
Qed.

Lemma started_snoc es e :
  started (es ++ [e]) =
  match e with ToolCallStart i id name _ => started es ++ [(i, id, name)] | _ => started es end.
Proof. unfold started. rewrite filter_map_app. destruct e; try apply app_nil_r; done. Qed.

Lemma started_indices n es :
  well_indexed n es = true -> map (fun c => fst (fst c)) (started es) = seqZ n (starts es).
Proof.
  revert n. induction es as [|e es IH]; intros n; [done|].
  destruct e; cbn [well_indexed starts]; try apply IH.
  - intros [Hi%Z.eqb_eq Hw]%andb_prop. subst index. unfold started.
    rewrite (filter_map_cons_Some _ _ (n, id, name)) by done. cbn [map fst].
    pose proof (starts_nonneg es). rewrite (seqZ_cons n) by lia. fold (started es).
    rewrite (IH (n + 1)) by done. f_equal. by replace (Z.pred (1 + starts es)) with (starts es) by lia.
  - intros [[_ _]%andb_prop Hw]%andb_prop. by apply IH.
Qed.

Lemma args_of_fresh n i es :
  well_indexed n es = true -> n + starts es <= i -> args_of i es = "".
Proof.
  unfold args_of, gathered. revert n. induction es as [|e es IH]; intros n; [done|].
  rewrite filter_map_cons. pose proof (starts_nonneg es).
  destruct e; cbn [well_indexed starts]; try (by apply IH).
  - intros [_ Hw]%andb_prop Hi. apply (IH (n + 1)); [done|lia].
  - intros [[Hlo Hhi]%andb_prop Hw]%andb_prop Hi.
    rewrite (proj2 (Z.eqb_neq index i)) by lia. by apply (IH n).
Qed.

Lemma call_of_ext f g l :
  Forall (fun c => f (fst (fst c)) = g (fst (fst c))) l -> map (call_of f) l = map (call_of g) l.
Proof. induction 1 as [|[[i id] name] l Hc _ IH]; [done|]. cbn in *. by rewrite Hc, IH. Qed.

(** The delta goes to the call with the index, and to no other. *)
Lemma push_arguments_at f i d l :
  NoDup (map (fun c => fst (fst c)) l) -> i ∈ map (fun c => fst (fst c)) l ->
  exists item, push_arguments i d (map (call_of f) l) =
    Some (item, map (call_of (fun j => if j =? i then f j +:+ d else f j)) l).
Proof.
  induction l as [|[[j id] name] l IH]; cbn [map fst]; intros Hnd Hin; [by apply not_elem_of_nil in Hin|].
  apply list.NoDup_cons in Hnd as [Hj Hnd]. cbn [push_arguments call_of tc_index tc_id tc_name tc_arguments].
  destruct (Z.eqb_spec j i) as [->|Hne].
  - eexists. do 3 f_equal. apply call_of_ext. apply Forall_forall. intros c Hc.
    rewrite (proj2 (Z.eqb_neq _ _)); [done|]. intros E. apply Hj, list_elem_of_In, in_map_iff. by exists c.
  - apply list_elem_of_In in Hin as [<-|Hin%list_elem_of_In]; [done|]. destruct (IH Hnd Hin) as [item ->].
    by eexists.
Qed.

Lemma push_arguments_none i d calls :
  push_arguments i d calls = None <-> Forall (fun tc => tc_index tc <> i) calls.
Proof.
  induction calls as [|tc calls IH]; [by split|]. cbn [push_arguments].
  destruct (Z.eqb_spec (tc_index tc) i) as [E|E].
  - split; [done|]. intros [Hc _]%list.Forall_cons. done.
  - rewrite list.Forall_cons, <-IH. destruct (push_arguments i d calls) as [[]|]; cbn; naive_solver.
Qed.

(** ** Emitting *)

Definition no_nul (s : string) : bool := negb (str_in THINKING_TEXT_END s).

(** The events between the first and the last: thinking and Claude's
    signatures carry no NUL, and calls have a name. *)
Definition body_event (e : CanonicalStreamEvent) : bool :=
  match e with
  | Start _ _ | Done _ _ => false
  | ThinkingDelta t => no_nul t
  | ThinkingSignature Claude s => no_nul s
  | ToolCallStart _ _ name _ => negb (is_empty name)
  | _ => true
  end.

(** What the state holds of the events so far. *)
Record holds (id model : string) (es : list CanonicalStreamEvent) (st : StreamState) : Prop := {
  holds_id : response_id st = Some id;
  holds_model : st_model st = Some model;
  holds_text : accumulated_text st = texts es;
  holds_calls : accumulated_tool_calls st = calls_of es;
  holds_by : thinking_signature_by st = (if is_empty (claude_signature es) then None else Some Claude);
  holds_thinking : thinking_signature st =
    thinking es +:+ (if is_empty (claude_signature es) then ""
                     else String THINKING_TEXT_END (claude_signature es));
  holds_clean : no_nul (thinking es) = true /\ no_nul (claude_signature es) = true
}.

Lemma no_nul_app a b : no_nul a = true -> no_nul b = true -> no_nul (a +:+ b) = true.
Proof.
  unfold no_nul. rewrite str_in_app, !negb_true_iff. by intros -> ->.
Qed.

Lemma is_empty_app_r a b : is_empty b = false -> is_empty (a +:+ b) = false.
Proof. by destruct a, b. Qed.

Lemma calls_of_snoc_other es e :
  is_tool_event e = false -> calls_of (es ++ [e]) = calls_of es.
Proof.
  intros He. unfold calls_of. rewrite started_snoc. destruct e; try done;
    (apply call_of_ext, list.Forall_true; intros c; unfold args_of; by rewrite gathered_snoc).
Qed.

Lemma calls_of_snoc_start es i id name s :
  well_indexed 0 (es ++ [ToolCallStart i id name s]) = true ->
  calls_of (es ++ [ToolCallStart i id name s]) =
  calls_of es ++ [{| tc_index := i; tc_id := id; tc_name := name; tc_arguments := "" |}].
Proof.
  rewrite well_indexed_app. intros [Hes Hi]%andb_prop. cbn [well_indexed] in Hi.
  apply andb_prop in Hi as [Hi%Z.eqb_eq _].
  unfold calls_of. rewrite started_snoc, map_app. cbn [map call_of].
  assert (forall j, args_of j (es ++ [ToolCallStart i id name s]) = args_of j es) as E.
  { intros j. unfold args_of. by rewrite gathered_snoc. }
  rewrite E, (args_of_fresh 0 i es) by (done || lia). f_equal. apply call_of_ext, list.Forall_true.
  intros c. apply E.
Qed.

Lemma calls_of_snoc_delta es i d :
  well_indexed 0 (es ++ [ToolCallDelta i d]) = true ->
  exists item, push_arguments i d (calls_of es) = Some (item, calls_of (es ++ [ToolCallDelta i d])).
Proof.
  rewrite well_indexed_app. intros [Hes Hi]%andb_prop. cbn [well_indexed] in Hi.
  apply andb_prop in Hi as [Hi _].
  destruct (push_arguments_at (fun j => args_of j es) i d (started es)) as [item E].
  - rewrite (started_indices 0) by done. apply NoDup_seqZ.
  - rewrite (started_indices 0) by done. apply elem_of_seqZ. lia.
  - exists item. unfold calls_of. rewrite E, started_snoc. do 2 f_equal. apply call_of_ext, list.Forall_true.
    intros c. unfold args_of. rewrite gathered_snoc. rewrite Z.eqb_sym.
    destruct (i =? fst (fst c)); done.
Qed.

Section emit.
Context `{SerdeJson} `{Env}.

Lemma rsplit_held id model es st :
  holds id model es st ->
  rsplit_once THINKING_TEXT_END (thinking_signature st) =
  if is_empty (claude_signature es) then None else Some (thinking es, claude_signature es).
Proof using Type.
  intros Hst. rewrite (holds_thinking _ _ _ _ Hst). destruct (holds_clean _ _ _ _ Hst) as [Ht Hs].
  unfold no_nul in *. rewrite negb_true_iff in Ht, Hs. destruct (is_empty _).
  - rewrite app_nil_r_str. by apply rsplit_once_none.
  - by apply rsplit_once_last.
Qed.

(** A signature delta: another vendor's is ignored, Claude's first one ends
    the text it signs. *)
Lemma emit_signature_held id model es by_ s st w :
  holds id model es st -> body_event (ThinkingSignature by_ s) = true ->
  exists frames st' w', resp_emit (ThinkingSignature by_ s) (st, w) = (Ok frames, (st', w')) /\
    holds id model (es ++ [ThinkingSignature by_ s]) st'.
Proof using Type.
  intros [Hid Hm Ht Hc Hb Hth [Hc1 Hc2]] He.
  assert (calls_of (es ++ [ThinkingSignature by_ s]) = calls_of es) as Hcalls
    by by apply calls_of_snoc_other.
  assert (thinking (es ++ [ThinkingSignature by_ s]) = thinking es /\
          texts (es ++ [ThinkingSignature by_ s]) = texts es) as [Eth Etx]
    by (unfold thinking, texts; by rewrite !gathered_snoc).
  destruct (format_eqb by_ Claude) eqn:Eby.
  - assert (by_ = Claude) as -> by (by apply bool_decide_eq_true in Eby). cbn [body_event] in He.
    assert (claude_signature (es ++ [ThinkingSignature Claude s]) = claude_signature es +:+ s) as Esig
      by (unfold claude_signature; by rewrite gathered_snoc).
    destruct (is_empty s) eqn:Es.
    + destruct s; [|done]. exists [], st, w. split; [reflexivity|]. rewrite app_nil_r_str in Esig.
      by split; rewrite ?Hcalls, ?Esig, ?Eth, ?Etx.
    + eexists _, _, _. split.
      { unfold resp_emit, emit_signature. rewrite Es. cbn [negb orb format_eqb]. reflexivity. }
      cbv beta. rewrite Hb. destruct (is_empty (claude_signature es)) eqn:E0.
      * destruct (claude_signature es); [|done]. rewrite app_nil_l_str in Esig.
        rewrite decide_False by done.
        split; cbn; rewrite ?Hcalls, ?Esig, ?Eth, ?Etx, ?Es; try done.
        by rewrite Hth, app_nil_r_str, app_assoc_str.
      * rewrite decide_True by done.
        split; cbn; rewrite ?Hcalls, ?Esig, ?Eth, ?Etx, ?(is_empty_app_r _ s) by done; try done.
        -- by rewrite Hth, app_assoc_str.
        -- split; [done|by apply no_nul_app].
  - exists [], st, w. split; [unfold resp_emit, emit_signature; by rewrite Eby|].
    assert (claude_signature (es ++ [ThinkingSignature by_ s]) = claude_signature es) as Esig
      by (unfold claude_signature; rewrite gathered_snoc; by destruct by_).
    by split; rewrite ?Hcalls, ?Esig, ?Eth, ?Etx.
Qed.

Lemma emit_body id model es e st w :
  holds id model es st -> body_event e = true -> well_indexed 0 (es ++ [e]) = true ->
  exists frames st' w', resp_emit e (st, w) = (Ok frames, (st', w')) /\ holds id model (es ++ [e]) st'.
Proof using Type.
  intros Hst He Hw. pose proof (rsplit_held _ _ _ _ Hst) as Hsplit.
  destruct Hst as [Hid Hm Ht Hc Hb Hth [Hc1 Hc2]].
  assert (is_tool_event e = false -> calls_of (es ++ [e]) = calls_of es) as Hcalls
    by apply calls_of_snoc_other.
  destruct e as [| |i cid name s|i d|t|by_ s|by_ raw|]; try done; cbn [body_event] in He.
  - eexists _, _, _. split; [unfold resp_emit, emit_text; monad_unfold; cbn; rewrite Hid; reflexivity|].
    split; cbn; rewrite ?Hcalls by done; unfold texts, thinking, claude_signature;
      rewrite ?gathered_snoc; try done. by rewrite Ht.
  - eexists _, _, _. split; [reflexivity|].
    split; cbn; unfold texts, thinking, claude_signature; rewrite ?gathered_snoc; try done.
    by rewrite Hc, calls_of_snoc_start.
  - destruct (calls_of_snoc_delta es i d Hw) as [item E].
    eexists _, _, _. split.
    { unfold resp_emit, emit_call_delta. monad_unfold. cbn -[push_arguments pretty]. by rewrite Hc, E. }
    split; cbn; unfold texts, thinking, claude_signature; by rewrite ?gathered_snoc.
  - eexists _, _, _. split; [reflexivity|].
    assert (claude_signature (es ++ [ThinkingDelta t]) = claude_signature es) as Esig
      by (unfold claude_signature; by rewrite gathered_snoc).
    assert (thinking (es ++ [ThinkingDelta t]) = thinking es +:+ t) as Eth
      by (unfold thinking; by rewrite gathered_snoc).
    split; cbn; rewrite ?Hcalls, ?Esig, ?Eth by done; try done.
    + unfold texts. by rewrite gathered_snoc.
    + rewrite Hsplit. destruct (is_empty (claude_signature es)).
      * by rewrite Hth, !app_nil_r_str.
      * by rewrite app_assoc_str.
    + split; [by apply no_nul_app|done].
  - by apply emit_signature_held.
  - assert (exists frames st' w', resp_emit (SealedThinking by_ raw) (st, w) = (Ok frames, (st', w')) /\
              response_id st' = response_id st /\ st_model st' = st_model st /\
              accumulated_text st' = accumulated_text st /\
              accumulated_tool_calls st' = accumulated_tool_calls st /\
              thinking_signature_by st' = thinking_signature_by st /\
              thinking_signature st' = thinking_signature st)
      as (frames & st' & w' & E & E1 & E2 & E3 & E4 & E5 & E6).
    { destruct by_; eexists _, _, _;
        (split; [unfold resp_emit, emit_sealed; monad_unfold; cbn; reflexivity|]); split_and!; reflexivity. }
    exists frames, st', w'. split; [done|].
    split; rewrite ?Hcalls, ?E1, ?E2, ?E3, ?E4, ?E5, ?E6 by done;
      unfold texts, thinking, claude_signature; by rewrite ?gathered_snoc.
Qed.
End emit.

(** *** Errors *)

Lemma emit_succeeds `{SerdeJson} `{Env} e :
  match e with ToolCallDelta _ _ => True | _ => succeeds (resp_emit e) end.
Proof.
  destruct e as [| |i cid name s|i d|t|by_ s|by_ raw|r u]; try done; cbn [resp_emit].
  - unfold emit_start. eauto 10 with stream.
  - unfold emit_text. eauto 10 with stream.
  - unfold emit_call_start. eauto 10 with stream.
  - unfold emit_thinking. eauto 10 with stream.
  - unfold emit_signature. eauto 10 with stream.
  - destruct by_; try apply succeeds_ret. unfold emit_sealed. eauto 10 with stream.
  - unfold emit_done. apply succeeds_bind; [auto with stream|]. intros st.
    apply succeeds_bind; [auto with stream|]. intros rid.
    apply succeeds_bind; [auto with stream|]. intros [te ti]. destruct (close_text st _) as [xe xi].
    eauto 10 with stream.
Qed.

(** The emitter's only error. Emitting fails exactly on an arguments delta
    whose index no started call has, with the stream-state error that names the
    index, and then nothing has changed; every other event, in whatever state,
    is written. *)
Theorem resp_emit_errors `{SerdeJson} `{Env} (e : CanonicalStreamEvent) (st : StreamState) (w : World) :
  ((exists err, fst (resp_emit e (st, w)) = Err err) <->
   (exists i d, e = ToolCallDelta i d /\ Forall (fun tc => tc_index tc <> i) (accumulated_tool_calls st))) /\
  (forall err, fst (resp_emit e (st, w)) = Err err ->
     snd (resp_emit e (st, w)) = (st, w) /\
     exists i d, e = ToolCallDelta i d /\
       err = ErrStreamState ("tool call index " +:+ pretty i +:+ " not found in state")).
Proof.
  pose proof (emit_succeeds e) as Hok. destruct e as [| | |i d| | | |];
    try (destruct (Hok (st, w)) as (a & s' & ->); split; [|done]; split; [by intros [? ?]|by intros (? & ? & ? & ?)]).
  clear Hok. pose proof (push_arguments_none i d (accumulated_tool_calls st)) as Hnone.
  unfold resp_emit, emit_call_delta. monad_unfold. cbn -[push_arguments pretty].
  destruct (push_arguments i d (accumulated_tool_calls st)) as [[item calls]|]; cbn -[pretty].
  - split; [|done]. split; [by intros [? ?]|]. intros (i' & d' & [= <- <-] & Hf).
    by apply Hnone in Hf.
  - split.
    + split; [|by eauto]. intros _. exists i, d. split; [done|]. by apply Hnone.
    + intros err [= <-]. split; [done|]. by exists i, d.
Qed.

(** *** The completed response *)

(** What the reply said, as parts; a reply that said nothing says the empty
    text. *)
Definition said `{SerdeJson} (es : list CanonicalStreamEvent) : list IrPart :=
  (if is_empty (claude_signature es) then []
   else [Thinking (thinking es) (Some {| sig_by := Claude; sig_value := claude_signature es |})]) ++
  (if is_empty (texts es) then [] else [Text (texts es) None]) ++
  map (fun tc => ToolCall (tc_id tc) (tc_name tc) (parse_arguments (tc_arguments tc)) None) (calls_of es).
Definition reply_parts `{SerdeJson} (es : list CanonicalStreamEvent) : list IrPart :=
  match said es with [] => [Text "" None] | _ :: _ => said es end.

Section completed.
Context `{SerdeJson} `{!SerdeJsonLaws} `{!SealLaws} `{Env}.

Abbreviation read_items := (fold_left read_input_item).

(** Reading an item back: it adds [ps] to the assistant's turn. *)
Definition reads_as (items : list Value) (ps : list IrPart) : Prop :=
  forall sys msgs, read_items items (sys, msgs) = (sys, push_message msgs Assistant ps).

Lemma reads_as_nil : reads_as [] [].
Proof using Type. done. Qed.
Lemma reads_as_app i1 i2 p1 p2 : reads_as i1 p1 -> reads_as i2 p2 -> reads_as (i1 ++ i2) (p1 ++ p2).
Proof using Type. intros Ha Hb sys msgs. by rewrite fold_left_app, Ha, Hb, push_message_app. Qed.

Lemma reads_message item_id text :
  reads_as [message_item item_id "completed" [output_text_part text]] [Text text None].
Proof using Type. by intros sys msgs. Qed.

Lemma reads_call tc :
  is_empty (tc_name tc) = false ->
  reads_as [call_done_item tc] [ToolCall (tc_id tc) (tc_name tc) (parse_arguments (tc_arguments tc)) None].
Proof using Type.
  destruct tc as [i id [|c name] args]; [done|]. intros _ sys msgs.
  cbn [fold_left]. unfold call_done_item, call_item. cbn [tc_id tc_name tc_arguments].
  cbv -[push_message parse_arguments]. done.
Qed.

Lemma reads_calls calls :
  Forall (fun tc => is_empty (tc_name tc) = false) calls ->
  reads_as (map call_done_item calls)
    (map (fun tc => ToolCall (tc_id tc) (tc_name tc) (parse_arguments (tc_arguments tc)) None) calls).
Proof using Type.
  induction 1 as [|tc calls Htc _ IH]; [apply reads_as_nil|]. cbn [map].
  apply (reads_as_app [_] _ [_]); [by apply reads_call|done].
Qed.

(** What a state that holds a stream closes with. *)
Lemma close_thinking_held id mdl es st w :
  holds id mdl es st ->
  exists frames items w', close_thinking st w = ((frames, items), w') /\
    forallb wf_value items = true /\
    (is_empty (claude_signature es) = true -> items = []) /\
    reads_as items (if is_empty (claude_signature es) then []
      else [Thinking (thinking es) (Some {| sig_by := Claude; sig_value := claude_signature es |})]).
Proof using All.
  intros Hst. pose proof (rsplit_held _ _ _ _ Hst) as Hsplit. pose proof (holds_by _ _ _ _ Hst) as Hb.
  unfold close_thinking, thinking_parts, signed_by_claude. rewrite Hsplit, Hb.
  destruct (is_empty (claude_signature es)) eqn:Es.
  - eexists _, _, _. split; [reflexivity|]. split_and!; [done|done|apply reads_as_nil].
  - rewrite Es. cbn [negb andb]. rewrite bool_decide_true by done. cbn [andb].
    unfold draw_uuid, mbind, eff_bind, mret, eff_ret. cbv beta iota.
    set (item := if is_empty (thinking es) then _ else _).
    assert (wf_value (VObject item) = true /\
            get_str "type" item = Some ITEM_TYPE_REASONING) as [Hw Ht].
    { subst item. destruct (is_empty (thinking es)); (split; [|reflexivity]).
      - by apply wf_map_of_list.
      - apply wf_map_insert; [by cbn [wf_value forallb]; rewrite wf_obj|by apply wf_map_of_list]. }
    eexists _, _, _. split; [reflexivity|]. split.
    { cbn [forallb]. rewrite wf_map_insert by done. done. }
    split; [done|]. intros sys msgs. cbn [fold_left]. rewrite read_input_reasoning.
    + rewrite (read_reasoning_encrypted _ (seal_thinking (thinking es) (claude_signature es))
        (Thinking (thinking es) (Some {| sig_by := Claude; sig_value := claude_signature es |})));
        [done| |reflexivity|].
      * unfold get_str. by rewrite map_get_insert, decide_True by done.
      * apply sealed_thinking_part. intros E. by rewrite E in Es.
    + unfold input_item_kind, get_str. rewrite map_get_insert, decide_False by done.
      unfold get_str in Ht. by rewrite Ht.
Qed.

Lemma close_text_held id mdl es st item_id :
  holds id mdl es st ->
  exists frames items, close_text st item_id = (frames, items) /\ forallb wf_value items = true /\
    (is_empty (texts es) = true -> items = []) /\
    reads_as items (if is_empty (texts es) then [] else [Text (texts es) None]).
Proof using Type.
  intros Hst. unfold close_text. rewrite (holds_text _ _ _ _ Hst).
  destruct (is_empty (texts es)); eexists _, _; (split; [reflexivity|]); split_and!; try done.
Qed.

Lemma calls_named es :
  forallb body_event es = true -> Forall (fun tc => is_empty (tc_name tc) = false) (calls_of es).
Proof using Type.
  intros He. unfold calls_of. apply Forall_forall. intros tc Hin.
  apply in_map_iff in Hin as ([[i id] name] & <- & Hin). cbn [call_of tc_name].
  unfold started in Hin. apply list_elem_of_In, elem_of_filter_map in Hin as (e & Hin & E).
  destruct e; simplify_eq. rewrite forallb_forall in He. apply list_elem_of_In, He in Hin.
  cbn in Hin. by rewrite negb_true_iff in Hin.
Qed.

Lemma wf_calls calls : forallb wf_value (map call_done_item calls) = true.
Proof using Type.
  induction calls as [|tc calls IH]; [done|]. cbn [map forallb]. rewrite IH.
  unfold call_done_item, call_item. by rewrite wf_obj.
Qed.

(** A [response.completed] whose response has this status and output. *)
Definition completes (frame mdl status : string) (ps : list IrPart) : Prop :=
  exists response,
    client_read frame = Some (Some "response.completed",
      obj [("type", str "response.completed"); ("response", VObject response)]) /\
    get_str "model" response = Some mdl /\ get_str "status" response = Some status /\
    read_input (map_get "output" response) = ([], [{| msg_role := Assistant; msg_parts := ps |}]).

Lemma completed_frame rid created mdl status us items es :
  is_u64 created -> match us with Some u => wf_usage u | None => True end ->
  forallb wf_value items = true -> reads_as items (reply_parts es) ->
  let response := map_of_list [("id", str rid); ("object", str "response"); ("created_at", num created);
                               ("model", str mdl); ("status", str status); ("output", VArray items)] in
  completes
    (resp_frame "response.completed" [("response", VObject
       match us with
       | Some u =>
           map_insert "usage" (obj [("input_tokens", num (input_tokens u));
                                    ("output_tokens", num (output_tokens u));
                                    ("total_tokens", num (total_tokens u))]) response
       | None => response
       end)]) mdl status (reply_parts es).
Proof using All.
  intros Hc Hu Hi Hr response.
  assert (wf_value (VObject response) = true) as Hw.
  { apply wf_map_of_list. cbn [forallb]. rewrite wf_num_u64 by done. cbn [wf_value str]. by rewrite Hi. }
  set (final := match us with Some _ => _ | None => _ end).
  assert (wf_value (VObject final) = true) as Hwf.
  { subst final. destruct us as [u|]; [|done]. destruct Hu as (Hu1 & Hu2 & _).
    apply wf_map_insert; [|done]. apply wf_obj. cbn [forallb].
    rewrite !wf_num_u64 by (done || apply u64_add_range). done. }
  exists final. unfold resp_frame. rewrite client_read_json_frame; [|done|by apply wf_obj; cbn [forallb]; rewrite Hwf].
  split; [done|].
  assert (forall k, k <> "usage" -> map_get k final = map_get k response) as Hget.
  { intros k Hk. subst final. destruct us; [|done]. by rewrite map_get_insert, decide_False. }
  unfold get_str. rewrite !Hget by done. split_and!; [done|done|].
  change (map_get "output" response) with (Some (VArray items)). cbn [read_input]. rewrite Hr.
  unfold reply_parts. by destruct (said es).
Qed.

(** The output items, or the empty message when there are none. *)
Lemma reads_or_empty es ti xi item_id :
  (is_empty (claude_signature es) = true -> ti = []) -> (is_empty (texts es) = true -> xi = []) ->
  reads_as (ti ++ xi ++ map call_done_item (calls_of es)) (said es) ->
  reads_as
    match ti ++ xi ++ map call_done_item (calls_of es) with
    | [] => [message_item item_id "completed" [output_text_part ""]]
    | _ :: _ => ti ++ xi ++ map call_done_item (calls_of es)
    end (reply_parts es).
Proof using Type.
  intros Hnt Hnx Hr. unfold reply_parts.
  destruct (ti ++ xi ++ map call_done_item (calls_of es)) as [|v l] eqn:E.
  - assert (said es = []) as ->; [|apply reads_message].
    specialize (Hr [] []). cbn in Hr. by destruct (said es).
  - rewrite <-E in *. destruct (said es) as [|p ps] eqn:Eps; [|done]. exfalso.
    unfold said in Eps. destruct (is_empty (claude_signature es)), (is_empty (texts es)); try done.
    rewrite Hnt, Hnx in E by done. by destruct (calls_of es).
Qed.

Lemma emit_done_held `{!EnvLaws} id mdl es st w sr us :
  holds id mdl es st -> forallb body_event es = true ->
  match us with Some u => wf_usage u | None => True end ->
  exists frames last s', resp_emit (Done sr us) (st, w) = (Ok (frames ++ [last]), s') /\
    completes last mdl (stop_reason_to_status sr) (reply_parts es).
Proof using All.
  intros Hst He Hu. unfold resp_emit, emit_done. monad_unfold. cbn -[close_thinking close_text].
  rewrite (holds_id _ _ _ _ Hst), (holds_model _ _ _ _ Hst), (holds_calls _ _ _ _ Hst).
  destruct (close_thinking_held id mdl es st w Hst) as (tf & ti & w1 & Et & Hwt & Hnt & Hrt).
  destruct (close_text_held id mdl es st (id +:+ "_msg_0") Hst) as (xf & xi & Ex & Hwx & Hnx & Hrx).
  cbn -[close_thinking close_text]. unfold eff_ret. rewrite Et. cbn -[close_text]. rewrite Ex. cbn -[resp_frame].
  rewrite (app_assoc xf), (app_assoc tf). eexists _, _, _. split; [reflexivity|].
  pose proof (reads_calls _ (calls_named es He)) as Hrc.
  pose proof (reads_as_app _ _ _ _ Hrt (reads_as_app _ _ _ _ Hrx Hrc)) as Hall.
  apply (completed_frame id (unix_secs (clock_reads w1))); try done.
  - apply unix_secs_u64.
  - destruct (ti ++ xi ++ map call_done_item (calls_of es)) eqn:E.
    + cbn [forallb]. unfold message_item. by rewrite wf_obj.
    + rewrite <-E, !forallb_app, Hwt, Hwx. apply wf_calls.
  - by apply reads_or_empty.
Qed.
End completed.

Section transcript.
Context `{SerdeJson} `{!SerdeJsonLaws} `{!SealLaws} `{Env} `{!EnvLaws}.

Lemma emit_all_body id mdl l es st w :
  holds id mdl es st -> forallb body_event l = true -> well_indexed 0 (es ++ l) = true ->
  exists frames st' w', run_all resp_emit l (st, w) = (Ok frames, (st', w')) /\ holds id mdl (es ++ l) st'.
Proof using Type.
  revert es st w. induction l as [|e l IH]; intros es st w Hst.
  - intros _ _. exists [], st, w. rewrite app_nil_r. done.
  - cbn [forallb]. intros [He Hl]%andb_prop Hw.
    replace (es ++ e :: l) with ((es ++ [e]) ++ l) in * by by rewrite <-app_assoc.
    assert (well_indexed 0 (es ++ [e]) = true) as Hw1.
    { rewrite well_indexed_app in Hw. by apply andb_prop in Hw as [Hw _]. }
    destruct (emit_body id mdl es e st w Hst He Hw1) as (f1 & st1 & w1 & E1 & Hst1).
    destruct (IH _ st1 w1 Hst1 Hl Hw) as (f2 & st2 & w2 & E2 & Hst2).
    exists (f1 ++ f2), st2, w2. rewrite run_all_cons, E1, E2. done.
Qed.

Lemma emit_start_held id mdl w :
  exists frames st' w' nid, resp_emit (Start id mdl) (StreamState_new, w) = (Ok frames, (st', w')) /\
    holds nid mdl [] st'.
Proof using Type.
  unfold resp_emit, emit_start. monad_unfold. cbn -[resp_frame].
  destruct (normalize_id_to_resp id w) as [nid w1]. cbn -[resp_frame].
  eexists _, _, _, nid. split; [reflexivity|]. by split.
Qed.

(** C2: a Responses stream ends in the whole reply. Any well-indexed stream of
    canonical events is written without error, and its last frame is the
    [response.completed] event, with the model, the status of the stop reason
    and an output that, sent back as input, reads as one assistant message:
    Claude's thinking with its signature, the deltas' whole text, and each
    tool call with all of its arguments, in the order they started. *)
Theorem resp_emit_complete (id mdl : string) (body : list CanonicalStreamEvent)
  (sr : StopReason) (us : option Usage) (w : World) :
  forallb body_event body = true -> well_indexed 0 body = true ->
  match us with Some u => wf_usage u | None => True end ->
  exists frames last s',
    run_all resp_emit (Start id mdl :: body ++ [Done sr us]) (StreamState_new, w) =
      (Ok (frames ++ [last]), s') /\
    completes last mdl (stop_reason_to_status sr) (reply_parts body).
Proof using All.
  intros Hb Hw Hu.
  destruct (emit_start_held id mdl w) as (f1 & st1 & w1 & nid & E1 & Hst1).
  destruct (emit_all_body nid mdl body [] st1 w1 Hst1 Hb Hw) as (f2 & st2 & w2 & E2 & Hst2).
  destruct (emit_done_held nid mdl body st2 w2 sr us Hst2 Hb Hu) as (f3 & last & s3 & E3 & Hlast).
  exists (f1 ++ f2 ++ f3), last, s3. split; [|done].
  rewrite run_all_cons, E1, run_all_app, E2, run_all_cons, E3.
  change (run_all resp_emit [] s3) with (@Ok ConvertError (list string) [], s3).
  cbn iota beta. by rewrite app_nil_r, <-!app_assoc.
Qed.
End transcript.

Definition sample_stream : list CanonicalStreamEvent :=
  [ThinkingDelta "let me "; ThinkingDelta "see"; ThinkingSignature Claude "c2ln"; TextDelta "Call";
   TextDelta "ing"; ToolCallStart 0 "t1" "f" None; ToolCallDelta 0 "1"; ToolCallStart 1 "t2" "g" None;
   ToolCallDelta 1 "01"; ToolCallDelta 0 "01"].

Lemma resp_emit_complete_witness :
  exists frames last s',
    run_all (@resp_emit block_json sample_env) (Start "msg_1" "m" :: sample_stream ++ [Done ToolUse None])
      (StreamState_new, world0) = (Ok (frames ++ [last]), s') /\
    @completes block_json last "m" "completed"
      [Thinking "let me see" (Some {| sig_by := Claude; sig_value := "c2ln" |});
       Text "Calling" None;
       ToolCall "t1" "f" (@parse_arguments block_json "101") None;
       ToolCall "t2" "g" (@parse_arguments block_json "01") None].
Proof.
  exact (@resp_emit_complete block_json block_json_laws block_json_seal sample_env sample_env_laws
    "msg_1" "m" sample_stream ToolUse None world0 eq_refl eq_refl I).
Defined.

(** ** Relaying

    What the adapter's own parser makes of what it emits. *)

Definition relay_event (e : CanonicalStreamEvent) : bool :=
  match e with
  | ThinkingSignature Claude _ => false
  | ToolCallStart _ _ _ _ | ToolCallDelta _ _ | TextDelta _ | ThinkingDelta _
  | ThinkingSignature _ _ | SealedThinking _ _ => body_event e
  | _ => false
  end.

(** [offset] is 1 once text has been written. *)
Definition relay_one (offset : Z) (e : CanonicalStreamEvent) : list CanonicalStreamEvent :=
  match e with
  | TextDelta t => [TextDelta t]
  | ToolCallStart i id name _ => [ToolCallStart i id name None]
  | ToolCallDelta i d => [ToolCallDelta (i + offset) d]
  | _ => []
  end.
Definition next_offset (offset : Z) (e : CanonicalStreamEvent) : Z :=
  match e with TextDelta t => if is_empty t then offset else 1 | _ => offset end.
Fixpoint relayed (offset : Z) (es : list CanonicalStreamEvent) : list CanonicalStreamEvent :=
  match es with
  | [] => []
  | e :: es => relay_one offset e ++ relayed (next_offset offset e) es
  end.

(** No arguments delta follows a text that is not empty. *)
Fixpoint no_deltas (es : list CanonicalStreamEvent) : bool :=
  match es with
  | [] => true
  | ToolCallDelta _ _ :: _ => false
  | _ :: es => no_deltas es
  end.
Fixpoint deltas_before_text (es : list CanonicalStreamEvent) : bool :=
  match es with
  | [] => true
  | TextDelta t :: es => if is_empty t then deltas_before_text es else no_deltas es
  | _ :: es => deltas_before_text es
  end.
Definition plain_event (e : CanonicalStreamEvent) : bool :=
  match e with TextDelta _ | ToolCallStart _ _ _ None | ToolCallDelta _ _ => true | _ => false end.

Lemma relayed_no_deltas offset es :
  no_deltas es = true -> relayed offset es = flat_map (relay_one 0) es.
Proof.
  revert offset. induction es as [|e es IH]; intros offset; [done|].
  intros Hn. destruct e; cbn [no_deltas relayed flat_map] in *; by rewrite ?IH.
Qed.

Lemma relayed_indices es :
  deltas_before_text es = true -> relayed 0 es = flat_map (relay_one 0) es.
Proof.
  induction es as [|e es IH]; [done|]. intros Hd.
  destruct e; cbn [deltas_before_text relayed next_offset flat_map] in *; try (by rewrite IH).
  destruct (is_empty text); [by rewrite IH|]. by rewrite relayed_no_deltas.
Qed.

Lemma relay_plain es :
  forallb plain_event es = true -> flat_map (relay_one 0) es = es.
Proof.
  induction es as [|e es IH]; [done|]. cbn [forallb]. intros [He Hes]%andb_prop.
  destruct e as [| |? ? ? []| | | | |]; try done; cbn [flat_map relay_one app]; rewrite IH by done;
    by rewrite ?Z.add_0_r.
Qed.

Definition offset_of (es : list CanonicalStreamEvent) : Z := if is_empty (texts es) then 0 else 1.

Lemma offset_snoc es e : offset_of (es ++ [e]) = next_offset (offset_of es) e.
Proof.
  unfold offset_of, texts. rewrite gathered_snoc. destruct e; try done. cbn [next_offset].
  destruct (is_empty text) eqn:E.
  - destruct text; [|done]. by rewrite app_nil_r_str.
  - by rewrite is_empty_app_r.
Qed.

Section relay.
Context `{SerdeJson} `{!SerdeJsonLaws} `{Env}.

Lemma parse_frame_cons type fields frames s :
  wire_field type = true -> wf_value (obj (("type", str type) :: fields)) = true ->
  run_all resp_parse (events_of (resp_frame type fields :: frames)) s =
  match parse_event type (obj (("type", str type) :: fields)) s with
  | (Ok out, s) =>
      match run_all resp_parse (events_of frames) s with
      | (Ok rest, s) => (Ok (out ++ rest), s)
      | (Err e, s) => (Err e, s)
      end
  | (Err e, s) => (Err e, s)
  end.
Proof using All.
  intros Ht Hw. set (v := obj _).
  assert (events_of (resp_frame type fields :: frames) =
          {| event := Some type; data := value_to_string v |} :: events_of frames) as ->.
  { unfold events_of. apply filter_map_cons_Some. unfold resp_frame, json_frame. fold v.
    change (format_sse_event type (value_to_string v))
      with (render {| event := Some type; data := value_to_string v |}).
    assert (wire_event {| event := Some type; data := value_to_string v |} = true) as Hwe
      by (unfold wire_event; cbn; by rewrite Ht, value_to_string_wire).
    apply (parse_block_of_lines _ _ [""]); [done|by repeat constructor|by apply lines_render]. }
  rewrite run_all_cons. unfold resp_parse at 1. monad_unfold. cbn [data event].
  rewrite value_from_to_string by done. cbn [map_err opt_or ok_or]. done.
Qed.

Lemma reasoning_prefix_held id mdl es st :
  holds id mdl es st -> claude_signature es = "" -> reasoning_prefix st = 0.
Proof using Type.
  intros Hst Hs. unfold reasoning_prefix, signed_by_claude. by rewrite (holds_by _ _ _ _ Hst), Hs.
Qed.
Lemma text_offset_held id mdl es st : holds id mdl es st -> text_offset st = offset_of es.
Proof using Type. intros Hst. unfold text_offset, offset_of. by rewrite (holds_text _ _ _ _ Hst). Qed.

Lemma call_output_index_held id mdl es st i :
  holds id mdl es st -> claude_signature es = "" -> 0 <= i < u32_max ->
  call_output_index st i = i + offset_of es.
Proof using Type.
  intros Hst Hs Hi. unfold call_output_index, u32_add.
  rewrite (text_offset_held _ _ _ _ Hst), (reasoning_prefix_held _ _ _ _ Hst Hs).
  assert (0 <= offset_of es <= 1) by (unfold offset_of; destruct (is_empty _); lia).
  rewrite Z.add_0_r, !as_u32_id; [done|unfold is_u32; lia|rewrite as_u32_id; unfold is_u32; lia].
Qed.

Lemma parse_text id mdl es st w t frames st' w' sp wp :
  holds id mdl es st -> claude_signature es = "" ->
  resp_emit (TextDelta t) (st, w) = (Ok frames, (st', w')) ->
  run_all resp_parse (events_of frames) (sp, wp) = (Ok [TextDelta t], (sp, wp)).
Proof using All.
  intros Hst Hs He. unfold resp_emit, emit_text in He. monad_unfold. cbn -[resp_frame] in He.
  rewrite (holds_id _ _ _ _ Hst), (reasoning_prefix_held _ _ _ _ Hst Hs) in He. cbn -[resp_frame] in He.
  injection He as <- _ _.
  assert (forall item_id fs, fs = [resp_frame "response.output_text.delta"
            [("item_id", str item_id); ("output_index", num 0); ("content_index", num 0); ("delta", str t)]] ->
          run_all resp_parse (events_of fs) (sp, wp) = (Ok [TextDelta t], (sp, wp))) as Hdelta.
  { intros item_id fs ->. by rewrite parse_frame_cons by done. }
  destruct (is_empty (accumulated_text st)); cbn [app]; [|by eapply Hdelta].
  rewrite parse_frame_cons by done.
  change (parse_event _ _ (sp, wp)) with (@Ok ConvertError (list CanonicalStreamEvent) [], (sp, wp)).
  cbn iota beta. rewrite parse_frame_cons by done.
  change (parse_event _ _ (sp, wp)) with (@Ok ConvertError (list CanonicalStreamEvent) [], (sp, wp)).
  cbn iota beta. by erewrite Hdelta by reflexivity.
Qed.

Lemma parse_call_start id mdl es st w i cid name sg frames st' w' sp wp :
  holds id mdl es st -> claude_signature es = "" -> 0 <= i < u32_max -> tool_call_index sp = i ->
  resp_emit (ToolCallStart i cid name sg) (st, w) = (Ok frames, (st', w')) ->
  exists sp', run_all resp_parse (events_of frames) (sp, wp) =
    (Ok [ToolCallStart i cid name None], (sp', wp)) /\ tool_call_index sp' = i + 1.
Proof using All.
  intros Hst Hs Hi Hsp He. unfold resp_emit, emit_call_start in He. monad_unfold. cbn -[resp_frame] in He.
  rewrite (call_output_index_held _ _ _ _ _ Hst Hs Hi) in He.
  injection He as <- _ _.
  assert (0 <= offset_of es <= 1) by (unfold offset_of; destruct (is_empty _); lia).
  eexists. split.
  - rewrite parse_frame_cons; [|done|].
    + rewrite <-Hsp. reflexivity.
    + apply wf_obj. cbn [forallb]. rewrite wf_num_u32 by (unfold is_u32; lia).
      unfold call_item. by rewrite wf_obj.
  - cbn. rewrite Hsp. apply as_u32_id. unfold is_u32. lia.
Qed.

Lemma parse_call_delta id mdl es st w i d frames st' w' sp wp :
  holds id mdl es st -> claude_signature es = "" -> 0 <= i < u32_max ->
  resp_emit (ToolCallDelta i d) (st, w) = (Ok frames, (st', w')) ->
  run_all resp_parse (events_of frames) (sp, wp) = (Ok [ToolCallDelta (i + offset_of es) d], (sp, wp)).
Proof using All.
  intros Hst Hs Hi He. unfold resp_emit, emit_call_delta in He. monad_unfold.
  cbn -[resp_frame push_arguments pretty] in He.
  destruct (push_arguments i d (accumulated_tool_calls st)) as [[item calls]|]; [|done].
  cbn -[resp_frame] in He. rewrite (call_output_index_held _ _ _ _ _ Hst Hs Hi) in He.
  injection He as <- _ _.
  assert (0 <= offset_of es <= 1) by (unfold offset_of; destruct (is_empty _); lia).
  rewrite parse_frame_cons; [|done|].
  - assert (forall k, parse_event "response.function_call_arguments.delta"
        (obj [("type", str "response.function_call_arguments.delta"); ("item_id", str item);
              ("output_index", num k); ("delta", str d)]) (sp, wp) =
        (Ok [ToolCallDelta (as_u32 k) d], (sp, wp))) as -> by done.
    by rewrite as_u32_id by (unfold is_u32; lia).
  - apply wf_obj. cbn [forallb]. by rewrite wf_num_u32 by (unfold is_u32; lia).
Qed.

Lemma parse_silent e st w frames st' w' sp wp :
  relay_one 0 e = [] -> relay_event e = true ->
  resp_emit e (st, w) = (Ok frames, (st', w')) ->
  run_all resp_parse (events_of frames) (sp, wp) = (Ok [], (sp, wp)).
Proof using All.
  intros Hr Hrel He. destruct e as [| |i cid name s|i d|t|by_ s|by_ raw|]; try done.
  - cbn in He. by injection He as <- _ _.
  - unfold resp_emit, emit_signature in He. destruct by_; try done; by injection He as <- _ _.
  - destruct by_; try (by injection He as <- _ _).
    unfold resp_emit, emit_sealed in He. monad_unfold. cbn -[resp_frame map_insert map_of_list] in He.
    injection He as <- _ _.
    rewrite parse_frame_cons; [|done|].
    + change (parse_event _ _ (sp, wp)) with (@Ok ConvertError (list CanonicalStreamEvent) [], (sp, wp)).
      cbn iota beta. rewrite parse_frame_cons; [|done|].
      * done.
      * apply wf_obj. cbn [forallb]. by rewrite wf_num_u32 by apply as_u32_range.
    + apply wf_obj. cbn [forallb]. rewrite wf_num_u32 by apply as_u32_range.
      unfold in_progress_reasoning. by rewrite wf_obj.
Qed.

Lemma relay_step id mdl es e st w sp wp :
  holds id mdl es st -> claude_signature es = "" -> relay_event e = true ->
  well_indexed 0 (es ++ [e]) = true -> starts (es ++ [e]) <= u32_max -> tool_call_index sp = starts es ->
  exists frames st' w' sp', resp_emit e (st, w) = (Ok frames, (st', w')) /\
    holds id mdl (es ++ [e]) st' /\ claude_signature (es ++ [e]) = "" /\
    run_all resp_parse (events_of frames) (sp, wp) = (Ok (relay_one (offset_of es) e), (sp', wp)) /\
    tool_call_index sp' = starts (es ++ [e]).
Proof using All.
  intros Hst Hs Hrel Hw Hmax Hsp.
  assert (body_event e = true) as He by (destruct e as [| | | | |[] ?| |]; done).
  destruct (emit_body id mdl es e st w Hst He Hw) as (frames & st' & w' & Ee & Hst').
  assert (claude_signature (es ++ [e]) = "") as Hs'.
  { unfold claude_signature in *. rewrite gathered_snoc. by destruct e as [| | | | |[] ?| |]. }
  assert (forall i d, e = ToolCallDelta i d -> 0 <= i < starts es) as Hdelta.
  { intros i d ->. rewrite well_indexed_app in Hw. apply andb_prop in Hw as [_ Hw]. cbn in Hw. lia. }
  assert (forall i a b c, e = ToolCallStart i a b c -> i = starts es) as Hstart.
  { intros i a b c ->. rewrite well_indexed_app in Hw. apply andb_prop in Hw as [_ Hw]. cbn in Hw. lia. }
  rewrite starts_app in *. pose proof (starts_nonneg es).
  destruct (relay_one 0 e) as [|e0 l0] eqn:Er.
  - exists frames, st', w', sp. rewrite (parse_silent e st w frames st' w' sp wp Er Hrel Ee).
    destruct e; try done; cbn [starts relay_one]; rewrite Z.add_0_r; done.
  - destruct e as [|t|i cid name sg|i d| | | |]; try done; cbn [starts relay_one] in *.
    + exists frames, st', w', sp. rewrite (parse_text _ _ _ _ _ _ _ _ _ sp wp Hst Hs Ee).
      rewrite Z.add_0_r. done.
    + rewrite (Hstart i cid name sg eq_refl) in *.
      destruct (parse_call_start _ _ _ _ _ (starts es) _ _ _ _ _ _ sp wp Hst Hs ltac:(lia) Hsp Ee)
        as (sp' & Ep & Hsp').
      exists frames, st', w', sp'. rewrite Ep, Hsp'. done.
    + specialize (Hdelta i d eq_refl).
      exists frames, st', w', sp.
      rewrite (parse_call_delta _ _ _ _ _ i _ _ _ _ sp wp Hst Hs ltac:(lia) Ee), Z.add_0_r. done.
Qed.

Lemma resp_relay_body id mdl l es st w sp wp :
  holds id mdl es st -> claude_signature es = "" -> forallb relay_event l = true ->
  well_indexed 0 (es ++ l) = true -> starts (es ++ l) <= u32_max -> tool_call_index sp = starts es ->
  exists frames st' w' sp', run_all resp_emit l (st, w) = (Ok frames, (st', w')) /\
    holds id mdl (es ++ l) st' /\ claude_signature (es ++ l) = "" /\
    run_all resp_parse (events_of frames) (sp, wp) = (Ok (relayed (offset_of es) l), (sp', wp)).
Proof using All.
  revert es st w sp. induction l as [|e l IH]; intros es st w sp Hst Hs Hrel Hw Hmax Hsp.
  - exists [], st, w, sp. rewrite app_nil_r. done.
  - cbn [forallb] in Hrel. apply andb_prop in Hrel as [Hrel Hl].
    replace (es ++ e :: l) with ((es ++ [e]) ++ l) in * by by rewrite <-app_assoc.
    assert (well_indexed 0 (es ++ [e]) = true) as Hw1.
    { rewrite well_indexed_app in Hw. by apply andb_prop in Hw as [Hw _]. }
    assert (starts (es ++ [e]) <= u32_max) as Hmax1.
    { rewrite starts_app in Hmax. pose proof (starts_nonneg l). lia. }
    destruct (relay_step id mdl es e st w sp wp Hst Hs Hrel Hw1 Hmax1 Hsp)
      as (f1 & st1 & w1 & sp1 & E1 & Hst1 & Hs1 & P1 & Hsp1).
    destruct (IH _ st1 w1 sp1 Hst1 Hs1 Hl Hw Hmax Hsp1) as (f2 & st2 & w2 & sp2 & E2 & Hst2 & Hs2 & P2).
    exists (f1 ++ f2), st2, w2, sp2. rewrite run_all_cons, E1, E2, events_of_app, run_all_app, P1, P2.
    rewrite offset_snoc. done.
Qed.

(** A frame the parser passes over. *)
Definition quiet (frame : string) : Prop :=
  exists type fields, frame = resp_frame type fields /\ wire_field type = true /\
    wf_value (obj (("type", str type) :: fields)) = true /\
    forall s, parse_event type (obj (("type", str type) :: fields)) s = (Ok [], s).

Lemma parse_quiet fs rest s :
  Forall quiet fs ->
  run_all resp_parse (events_of (fs ++ rest)) s = run_all resp_parse (events_of rest) s.
Proof using All.
  intros Hq. revert s. induction Hq as [|f fs (type & fields & -> & Ht & Hw & Hp) _ IH]; intros s; [done|].
  cbn [app]. rewrite parse_frame_cons by done. rewrite Hp, IH.
  by destruct (run_all resp_parse (events_of rest) s) as [[]].
Qed.

Lemma quiet_text id mdl es st item_id :
  holds id mdl es st -> claude_signature es = "" -> Forall quiet (fst (close_text st item_id)).
Proof using Type.
  intros Hst Hs. unfold close_text. rewrite (reasoning_prefix_held _ _ _ _ Hst Hs).
  destruct (is_empty (accumulated_text st)); [constructor|].
  repeat (apply List.Forall_cons; [eexists _, _; split_and!; [reflexivity|done|apply wf_obj; done|done]|]).
  apply List.Forall_nil.
Qed.

Lemma quiet_calls st calls : Forall quiet (flat_map (close_call st) calls).
Proof using Type.
  induction calls as [|tc calls IH]; [constructor|]. cbn [flat_map]. apply list.Forall_app. split; [|done].
  unfold close_call, call_output_index, u32_add. set (k := as_u32 _).
  assert (wf_value (num k) = true) as Hk by apply wf_num_u32, as_u32_range. clearbody k.
  repeat apply List.Forall_cons; try apply List.Forall_nil; eexists _, _; (split_and!; [reflexivity|done| |done]);
    apply wf_obj; cbn [forallb]; by rewrite Hk.
Qed.

(** What is left of a usage. *)
Definition relay_usage (u : Usage) : Usage :=
  {| input_tokens := input_tokens u; output_tokens := output_tokens u; cache_read_tokens := None;
     cache_write_tokens := None; cache_write_1h := None; reasoning_tokens := None |}.

Lemma resp_relay_done `{!EnvLaws} id mdl es st w sp wp sr us :
  holds id mdl es st -> claude_signature es = "" ->
  match us with Some u => wf_usage u | None => True end ->
  exists frames s' sp', resp_emit (Done sr us) (st, w) = (Ok frames, s') /\
    run_all resp_parse (events_of frames) (sp, wp) =
      (Ok [Done (status_to_stop_reason (stop_reason_to_status sr)) (relay_usage <$> us)], (sp', wp)).
Proof using All.
  intros Hst Hs Hu. unfold resp_emit, emit_done. monad_unfold. cbn -[close_thinking close_text map_of_list map_insert].
  rewrite (holds_id _ _ _ _ Hst), (holds_model _ _ _ _ Hst).
  pose proof (quiet_text id mdl es st (id +:+ "_msg_0") Hst Hs) as Hqt.
  assert (close_thinking st w = (([], []), w)) as Et.
  { unfold close_thinking, signed_by_claude. rewrite (holds_by _ _ _ _ Hst), Hs. by destruct (thinking_parts st). }
  cbn -[close_thinking close_text map_of_list map_insert]. unfold eff_ret. rewrite Et. cbn -[close_text map_of_list map_insert].
  destruct (close_text st (id +:+ "_msg_0")) as [xf xi] eqn:Ex. cbn [fst] in Hqt.
  assert (forallb wf_value xi = true) as Hwx.
  { pose proof Ex as E. unfold close_text in E. destruct (is_empty _); injection E as <- <-; [done|].
    cbn [forallb]. unfold message_item. by rewrite wf_obj. }
  cbn -[resp_frame map_of_list map_insert]. set (items := match xi ++ _ with [] => _ | _ :: _ => _ end).
  assert (forallb wf_value items = true) as Hwi.
  { subst items. destruct (xi ++ map call_done_item (accumulated_tool_calls st)) eqn:E.
    - cbn [forallb]. unfold message_item. by rewrite wf_obj.
    - rewrite <-E, forallb_app, Hwx. apply wf_calls. }
  clearbody items.
  eexists _, _, (set_accumulated_usage (relay_usage <$> us) (set_phase PhaseDone (set_done_ true sp))).
  split; [reflexivity|]. rewrite parse_quiet by done. rewrite parse_quiet by apply quiet_calls.
  rewrite parse_frame_cons; [|done|].
  - destruct us as [u|], sr; reflexivity.
  - apply wf_obj. cbn [forallb]. rewrite andb_true_r.
    pose proof (unix_secs_u64 (clock_reads w)) as Hc. apply andb_true_intro. split; [done|].
    destruct us as [u|].
    + destruct Hu as (Hu1 & Hu2 & _). apply wf_map_insert.
      * apply wf_obj. cbn [forallb]. rewrite !wf_num_u64 by (done || apply u64_add_range). done.
      * apply wf_map_of_list. cbn [forallb]. rewrite wf_num_u64 by done. cbn [wf_value str]. by rewrite Hwi.
    + apply wf_map_of_list. cbn [forallb]. rewrite wf_num_u64 by done. cbn [wf_value str]. by rewrite Hwi.
Qed.

Lemma relay_start `{!EnvLaws} id mdl w wp :
  exists frames st' w' sp', resp_emit (Start id mdl) (StreamState_new, w) = (Ok frames, (st', w')) /\
    holds (fst (normalize_id_to_resp id w)) mdl [] st' /\
    run_all resp_parse (events_of frames) (StreamState_new, wp) =
      (Ok [Start (fst (normalize_id_to_resp id w)) mdl], (sp', wp)) /\ tool_call_index sp' = 0.
Proof using All.
  unfold resp_emit, emit_start. monad_unfold. cbn -[resp_frame map_of_list obj].
  destruct (normalize_id_to_resp id w) as [nid w1]. cbn -[resp_frame map_of_list obj].
  pose proof (unix_secs_u64 (clock_reads w1)) as Hc.
  set (r := obj _). assert (wf_value r = true) as Hr.
  { apply wf_obj. cbn [forallb]. rewrite wf_num_u64 by done. done. }
  eexists _, _, _, (set_phase PhaseContent (set_st_model (Some mdl) (set_response_id (Some nid) StreamState_new))).
  split; [reflexivity|]. split; [by split|]. split; [|done].
  rewrite parse_frame_cons; [|done|by apply wf_obj; cbn [forallb]; rewrite Hr].
  match goal with |- context [parse_event ?t ?v ?s] =>
    replace (parse_event t v s) with
      (@Ok ConvertError _ [Start nid mdl],
       (set_phase PhaseContent (set_st_model (Some mdl) (set_response_id (Some nid) StreamState_new)), wp))
      by reflexivity end.
  cbn iota beta. rewrite parse_frame_cons; [|done|by apply wf_obj; cbn [forallb]; rewrite Hr].
  done.
Qed.

(** C12: the Responses adapter reading its own stream. A stream with no
    reasoning of Claude's is written without error, and what the adapter's
    parser reads back from the frames, without error, is the same text and
    tool calls in the same order between one start and one end: thinking and
    signatures on calls are dropped, the stop reason is the status', the usage
    keeps its two counts, and the index of an arguments delta is one too high
    once text has been written (a published finding). A stream none of whose
    arguments deltas follows a text is so read back with every index as it
    was, and when it holds neither thinking nor signatures, whole. *)
Theorem resp_stream_relay `{!EnvLaws} (id mdl : string) (body : list CanonicalStreamEvent)
  (sr : StopReason) (us : option Usage) (w wp : World) :
  forallb relay_event body = true -> well_indexed 0 body = true -> starts body <= u32_max ->
  match us with Some u => wf_usage u | None => True end ->
  exists frames s' sp',
    run_all resp_emit (Start id mdl :: body ++ [Done sr us]) (StreamState_new, w) = (Ok frames, s') /\
    run_all resp_parse (events_of frames) (StreamState_new, wp) =
      (Ok (Start (fst (normalize_id_to_resp id w)) mdl :: relayed 0 body ++
           [Done (status_to_stop_reason (stop_reason_to_status sr)) (relay_usage <$> us)]), (sp', wp)) /\
    (deltas_before_text body = true -> relayed 0 body = flat_map (relay_one 0) body) /\
    (deltas_before_text body = true -> forallb plain_event body = true -> relayed 0 body = body).
Proof using All.
  intros Hb Hw Hmax Hu.
  destruct (relay_start id mdl w wp) as (f1 & st1 & w1 & sp1 & E1 & Hst1 & P1 & Hsp1).
  destruct (resp_relay_body _ mdl body [] st1 w1 sp1 wp Hst1 eq_refl Hb Hw Hmax Hsp1)
    as (f2 & st2 & w2 & sp2 & E2 & Hst2 & Hs2 & P2).
  destruct (resp_relay_done _ mdl body st2 w2 sp2 wp sr us Hst2 Hs2 Hu) as (f3 & s3 & sp3 & E3 & P3).
  exists (f1 ++ f2 ++ f3), s3, sp3.
  rewrite run_all_cons, E1, run_all_app, E2, run_all_cons, E3.
  change (run_all resp_emit [] s3) with (@Ok ConvertError (list string) [], s3). cbn iota beta.
  rewrite app_nil_r. split_and!; [done| |apply relayed_indices|].
  - rewrite events_of_app, run_all_app, P1, events_of_app, run_all_app, P2, P3. done.
  - intros Hd Hp. by rewrite relayed_indices, relay_plain.
Qed.

(** A finding about tool-call indices. Responses numbers output items, the
    canonical events number tool calls, and the parser starts a call with the
    second number but reads its deltas with the first. So a reply with text
    before a tool call, as this adapter itself writes it, is read as a delta
    for a call that never started, and emitting what was read for a Responses
    client fails. *)
Theorem resp_call_index_shift `{!EnvLaws} (id mdl t cid name args : string) (w wp : World) :
  t <> "" -> name <> "" ->
  let body := [TextDelta t; ToolCallStart 0 cid name None; ToolCallDelta 0 args] in
  exists frames s' out sp',
    run_all resp_emit (Start id mdl :: body ++ [Done ToolUse None]) (StreamState_new, w) = (Ok frames, s') /\
    run_all resp_parse (events_of frames) (StreamState_new, wp) = (Ok out, sp') /\
    well_indexed 0 out = false /\
    exists err, fst (run_all resp_emit out (StreamState_new, wp)) = Err (ErrStreamState err).
Proof using All.
  intros Ht Hn body.
  destruct t as [|c t]; [done|]. destruct name as [|d name]; [done|].
  destruct (relay_start id mdl w wp) as (f1 & st1 & w1 & sp1 & E1 & Hst1 & P1 & Hsp1).
  destruct (resp_relay_body _ mdl body [] st1 w1 sp1 wp Hst1 eq_refl eq_refl eq_refl ltac:(done) Hsp1)
    as (f2 & st2 & w2 & sp2 & E2 & Hst2 & Hs2 & P2).
  destruct (resp_relay_done _ mdl body st2 w2 sp2 wp ToolUse None Hst2 Hs2 I) as (f3 & s3 & sp3 & E3 & P3).
  eexists (f1 ++ f2 ++ f3), s3, _, _.
  rewrite run_all_cons, E1, run_all_app, E2, run_all_cons, E3.
  change (run_all resp_emit [] s3) with (@Ok ConvertError (list string) [], s3). cbn iota beta.
  rewrite app_nil_r. split; [done|]. split; [|split].
  - rewrite events_of_app, run_all_app, P1, events_of_app, run_all_app, P2, P3. reflexivity.
  - reflexivity.
  - set (nid := fst (normalize_id_to_resp id w)). clearbody nid.
    change (relayed (offset_of []) body) with
      [TextDelta (String c t); ToolCallStart 0 cid (String d name) None; ToolCallDelta 1 args].
    cbn [app]. rewrite run_all_cons.
    unfold resp_emit at 1, emit_start. monad_unfold. cbn -[resp_frame pretty resp_emit].
    destruct (normalize_id_to_resp nid wp) as [nid2 w4]. cbn. by eexists.
Qed.
End relay.

Lemma resp_stream_relay_witness :
  let body := [ToolCallStart 0 "t" "f" None; ToolCallDelta 0 "{}"; TextDelta "hi"] in
  exists frames s' sp',
    run_all (@resp_emit binary_json sample_env) (Start "msg_1" "m" :: body ++ [Done MaxTokens None])
      (StreamState_new, world0) = (Ok frames, s') /\
    run_all (@resp_parse binary_json) (events_of frames) (StreamState_new, world0) =
      (Ok (Start "resp_1" "m" :: body ++ [Done MaxTokens None]), (sp', world0)).
Proof.
  destruct (@resp_stream_relay binary_json binary_json_laws sample_env sample_env_laws "msg_1" "m"
    [ToolCallStart 0 "t" "f" None; ToolCallDelta 0 "{}"; TextDelta "hi"] MaxTokens None world0 world0
    eq_refl eq_refl ltac:(done) I) as (frames & s' & sp' & E & P & _ & R).
  specialize (R eq_refl eq_refl). exists frames, s', sp'. split; [exact E|]. rewrite R in P. exact P.
Defined.

Lemma resp_call_index_shift_witness :
  exists frames s' out sp',
    run_all (@resp_emit binary_json sample_env)
      (Start "r" "m" :: [TextDelta "hi"; ToolCallStart 0 "t" "f" None; ToolCallDelta 0 "{}"] ++ [Done ToolUse None])
      (StreamState_new, world0) = (Ok frames, s') /\
    run_all (@resp_parse binary_json) (events_of frames) (StreamState_new, world0) = (Ok out, sp') /\
    well_indexed 0 out = false /\
    exists err, fst (run_all (@resp_emit binary_json sample_env) out (StreamState_new, world0)) = Err (ErrStreamState err).
Proof.
  apply (@resp_call_index_shift binary_json binary_json_laws sample_env sample_env_laws
    "r" "m" "hi" "t" "f" "{}" world0 world0); discriminate.
Defined.
