(* ===== verification/Hub.v ===== *)
(** * The hub and the public entry points

    [converters/mod.rs] and [convert.rs]: a conversion reads one wire format
    into the intermediate representation and builds another from it. A body is
    the text of its bytes. *)
From Stdlib Require Import ZArith.
From S2P Require Import Prelude.
From S2P Require Import RustStd.
From S2P Require Import Json.
From S2P Require Import Effects.
From S2P Require Import Format.
From S2P Require Import Ir.
From S2P Require Import Sse.
From S2P Require Import ClaudeTypes.
From S2P Require Import ChatTypes.
From S2P Require Import GeminiTypes.
From S2P Require Import RespTypes.
From S2P Require Import ClaudeRead.
From S2P Require Import ChatRead.
From S2P Require Import GeminiRead.
From S2P Require Import RespRead.
From S2P Require Import ClaudeBuild.
From S2P Require Import ChatBuild.
From S2P Require Import GeminiBuild.
From S2P Require Import RespBuild.
From S2P Require Import Adapter.
From S2P Require Import ClaudeStream.
From S2P Require Import ChatStream.
From S2P Require Import GeminiStream.
From S2P Require Import RespStream.

(** A conversion draws from the environment and can fail. *)
Definition Conv : Type -> Type := StM World ConvertError.

Definition conv_eff {A} (m : Eff A) : Conv A := fun w => let '(a, w) := m w in (Ok a, w).

(** [serde_json::from_slice(body)?] and [serde_json::to_vec(&t)?]. *)
Definition from_slice `{Deserialize T} (body : string) : Conv T := lift (map_err ErrJson (from_json body)).
Definition to_vec `{Serialize T} (t : T) : Conv string := lift (map_err ErrJson (to_json t)).

(** The serializers of the wire structs: code serde generates. *)
Class RequestSerde := {
  #[global] ser_claude_request :: Serialize ClaudeRequest;
  #[global] de_claude_request :: Deserialize ClaudeRequest;
  #[global] ser_chat_request :: Serialize OpenAIChatRequest;
  #[global] de_chat_request :: Deserialize OpenAIChatRequest;
  #[global] ser_resp_request :: Serialize OpenAIResponsesRequest;
  #[global] de_resp_request :: Deserialize OpenAIResponsesRequest;
  #[global] ser_gemini_request :: Serialize GeminiRequest;
  #[global] de_gemini_request :: Deserialize GeminiRequest;
  #[global] stream_options_to :: ToValue StreamOptions;
  #[global] stream_options_from :: FromValue StreamOptions
}.

Class ResponseSerde := {
  #[global] ser_claude_response :: Serialize ClaudeResponse;
  #[global] de_claude_response :: Deserialize ClaudeResponse;
  #[global] ser_chat_response :: Serialize OpenAIChatResponse;
  #[global] de_chat_response :: Deserialize OpenAIChatResponse;
  #[global] ser_resp_response :: Serialize OpenAIResponsesResponse;
  #[global] de_resp_response :: Deserialize OpenAIResponsesResponse;
  #[global] ser_gemini_response :: Serialize GeminiResponse;
  #[global] de_gemini_response :: Deserialize GeminiResponse
}.

Class StreamSerde := {
  #[global] de_message_start :: Deserialize ClaudeMessageStartEvent;
  #[global] de_block_start :: FromValue ClaudeContentBlockStartEvent;
  #[global] de_block_delta :: Deserialize ClaudeContentBlockDeltaEvent;
  #[global] de_message_delta :: Deserialize ClaudeMessageDeltaEvent;
  #[global] ser_chat_chunk :: Serialize OpenAIChatStreamChunk;
  #[global] de_chat_chunk :: Deserialize OpenAIChatStreamChunk;
  #[global] ser_gemini_chunk :: Serialize GeminiResponse;
  #[global] de_gemini_chunk :: Deserialize GeminiResponse
}.

(** ** Requests and responses *)

Section requests.
Context `{SerdeJson} `{Env} `{RequestSerde}.

Definition read_request (from : Format) (body : string) : Conv IrRequest :=
  match from with
  | Claude => r ← from_slice body; mret (ClaudeRead.read r)
  | OpenAIChat => r ← from_slice body; mret (ChatRead.read r)
  | OpenAIResponses => r ← from_slice body; mret (RespRead.read r)
  | Gemini => r ← from_slice body; conv_eff (GeminiRead.read r)
  end.

Definition build_request (to : Format) (ir : IrRequest) : Conv string :=
  match to with
  | Claude => to_vec (ClaudeBuild.build ir)
  | OpenAIChat => to_vec (ChatBuild.build ir)
  | OpenAIResponses => to_vec (RespBuild.build ir)
  | Gemini => to_vec (GeminiBuild.build ir)
  end.
End requests.

Section responses.
Context `{SerdeJson} `{Env} `{ResponseSerde}.

Definition read_response (from : Format) (body : string) : Conv IrResponse :=
  match from with
  | Claude => r ← from_slice body; mret (ClaudeRead.read_response r)
  | OpenAIChat => r ← from_slice body; mret (ChatRead.read_response r)
  | OpenAIResponses => r ← from_slice body; conv_eff (RespRead.read_response r)
  | Gemini => r ← from_slice body; conv_eff (GeminiRead.read_response r)
  end.

Definition build_response (to : Format) (ir : IrResponse) : Conv string :=
  match to with
  | Claude => r ← conv_eff (ClaudeBuild.build_response ir); to_vec r
  | OpenAIChat => r ← conv_eff (ChatBuild.build_response ir); to_vec r
  | OpenAIResponses => r ← conv_eff (RespBuild.build_response ir); to_vec r
  | Gemini => to_vec (GeminiBuild.build_response ir)
  end.
End responses.

(** ** Streams *)

Section streams.
Context `{SerdeJson} `{Env} `{StreamSerde}.

Definition adapter (f : Format) : StreamAdapter :=
  match f with
  | Claude => ClaudeStream.ClaudeStreamAdapter
  | OpenAIChat => ChatStream.OpenAIChatStreamAdapter
  | OpenAIResponses => RespStream.OpenAIResponsesStreamAdapter
  | Gemini => GeminiStream.GeminiStreamAdapter
  end.

Definition parse_stream (from : Format) (e : SseEvent) : Stream (list CanonicalStreamEvent) :=
  @parse_sse_event (adapter from) e.
Definition emit_stream (to : Format) (e : CanonicalStreamEvent) : Stream (list string) :=
  @emit_sse_event (adapter to) e.

(** The two states of a stream conversion. *)
Definition Relay : Type -> Type := StM ((StreamState * StreamState) * World) ConvertError.
Definition on_in {A} (m : Stream A) : Relay A := fun '((i, o), w) =>
  let '(r, (i, w)) := m (i, w) in (r, ((i, o), w)).
Definition on_out {A} (m : Stream A) : Relay A := fun '((i, o), w) =>
  let '(r, (o, w)) := m (o, w) in (r, ((i, o), w)).
End streams.

(** ** The converters *)

Record HubConverter := { hub_from : Format; hub_to : Format }.

Section hub.
Context `{SerdeJson} `{Env} `{RequestSerde} `{ResponseSerde} `{StreamSerde}.

Definition hub_convert_request (c : HubConverter) (input : string) : Conv string :=
  ir ← read_request (hub_from c) input;
  build_request (hub_to c) ir.

Definition hub_convert_response (c : HubConverter) (input : string) : Conv string :=
  ir ← read_response (hub_from c) input;
  build_response (hub_to c) ir.

Definition hub_convert_stream_event (c : HubConverter) (e : SseEvent) : Relay (list string) :=
  canonical ← on_in (parse_stream (hub_from c) e);
  on_out (run_all (emit_stream (hub_to c)) canonical).

Definition hub (from to : Format) : option HubConverter := Some {| hub_from := from; hub_to := to |}.

Definition get_converter (from to : Format) : option HubConverter :=
  match from, to with
  | Claude, OpenAIChat => hub Claude OpenAIChat
  | Claude, OpenAIResponses => hub Claude OpenAIResponses
  | Claude, Gemini => hub Claude Gemini
  | OpenAIChat, Claude => hub OpenAIChat Claude
  | OpenAIChat, OpenAIResponses => hub OpenAIChat OpenAIResponses
  | OpenAIChat, Gemini => hub OpenAIChat Gemini
  | OpenAIResponses, Claude => hub OpenAIResponses Claude
  | OpenAIResponses, OpenAIChat => hub OpenAIResponses OpenAIChat
  | OpenAIResponses, Gemini => hub OpenAIResponses Gemini
  | Gemini, Claude => hub Gemini Claude
  | Gemini, OpenAIChat => hub Gemini OpenAIChat
  | Gemini, OpenAIResponses => hub Gemini OpenAIResponses
  | _, _ => None
  end.

Definition unsupported (from to : Format) : ConvertError :=
  UnsupportedConversion (Format.as_str from) (Format.as_str to).

Definition convert_request (input : string) (from to : Format) : Conv string :=
  if decide (from = to) then mret input
  else match get_converter from to with
       | Some converter => hub_convert_request converter input
       | None => throw (unsupported from to)
       end.

Definition convert_response (input : string) (from to : Format) : Conv string :=
  if decide (from = to) then mret input
  else match get_converter from to with
       | Some converter => hub_convert_response converter input
       | None => throw (unsupported from to)
       end.

Definition convert_stream_event (e : SseEvent) (from to : Format) : Relay (list string) :=
  if decide (from = to) then
    mret [match event e with
          | Some evt => format_sse_event evt (data e)
          | None => format_sse_data (data e)
          end]
  else match get_converter from to with
       | Some converter => hub_convert_stream_event converter e
       | None => throw (unsupported from to)
       end.

(** A client's loop over the events of a stream. *)
Fixpoint convert_stream (es : list SseEvent) (from to : Format) : Relay (list string) :=
  match es with
  | [] => mret []
  | e :: es =>
      lines ← convert_stream_event e from to;
      rest ← convert_stream es from to;
      mret (lines ++ rest)
  end.
End hub.
