(* ===== verification/HubProps.v ===== *)
(** * What a conversion promises, end to end *)
From Stdlib Require Import ZArith Lia.
From S2P Require Import Prelude.
From S2P Require Import RustStd.
From S2P Require Import Json.
From S2P Require Import Effects.
From S2P Require Import Format.
From S2P Require Import Ir.
From S2P Require Import Sse.
From S2P Require Import Concrete.
From S2P Require Import Shared.
From S2P Require Import ClaudeTypes.
From S2P Require Import ChatTypes.
From S2P Require Import GeminiTypes.
From S2P Require Import RespTypes.
From S2P Require Import ClaudeBuild.
From S2P Require Import ChatBuild.
From S2P Require Import GeminiBuild.
From S2P Require Import RespBuild.
From S2P Require Import ClaudeProps.
From S2P Require Import ChatProps.
From S2P Require Import GeminiProps.
From S2P Require Import RespProps.
From S2P Require Import Adapter.
From S2P Require Import ClaudeStream.
From S2P Require Import ChatStream.
From S2P Require Import GeminiStream.
From S2P Require Import RespStream.
From S2P Require Import RespStreamProps.
From S2P Require Import Hub.

(** ** The dispatch *)

Lemma get_converter_none from to : get_converter from to = None <-> from = to.
Proof. by destruct from, to. Qed.

Lemma get_converter_some from to :
  from <> to -> get_converter from to = Some {| hub_from := from; hub_to := to |}.
Proof. by destruct from, to. Qed.

Section requests.
Context `{SerdeJson} `{Env} `{RequestSerde}.

Lemma read_request_json from body w e :
  fst (read_request from body w) = Err e -> exists m, e = ErrJson m.
Proof using Type.
  destruct from; unfold read_request, from_slice, conv_eff; monad_unfold; destruct (from_json body) as [r|m];
    cbn -[GeminiRead.read]; intros; simplify_eq; eauto.
  destruct (GeminiRead.read r w); done.
Qed.

Lemma build_request_json to ir w e :
  fst (build_request to ir w) = Err e -> exists m, e = ErrJson m.
Proof using Type.
  destruct to; unfold build_request, to_vec; monad_unfold; destruct (to_json _) as [r|m];
    cbn; intros; simplify_eq; eauto.
Qed.
End requests.

Lemma read_request_err `{SerdeJson} `{Env} `{RequestSerde} from body w e :
  fst (read_request from body w) = Err e -> read_request from body w = (Err e, w).
Proof.
  destruct from; unfold read_request, from_slice, conv_eff; monad_unfold; destruct (from_json body) as [r|m];
    cbn -[GeminiRead.read]; intros; simplify_eq; try done.
  destruct (GeminiRead.read r w); done.
Qed.

Section responses.
Context `{SerdeJson} `{Env} `{ResponseSerde}.

Lemma read_response_err from body w e :
  fst (read_response from body w) = Err e -> read_response from body w = (Err e, w).
Proof using Type.
  destruct from; unfold read_response, from_slice, conv_eff; monad_unfold; destruct (from_json body) as [r|m];
    cbn -[GeminiRead.read_response RespRead.read_response]; intros; simplify_eq; try done.
  - destruct (RespRead.read_response r w); done.
  - destruct (GeminiRead.read_response r w); done.
Qed.

Lemma read_response_json from body w e :
  fst (read_response from body w) = Err e -> exists m, e = ErrJson m.
Proof using Type.
  destruct from; unfold read_response, from_slice, conv_eff; monad_unfold; destruct (from_json body) as [r|m];
    cbn -[GeminiRead.read_response RespRead.read_response]; intros; simplify_eq; eauto.
  - destruct (RespRead.read_response r w); done.
  - destruct (GeminiRead.read_response r w); done.
Qed.

Lemma build_response_json to ir w e :
  fst (build_response to ir w) = Err e -> exists m, e = ErrJson m.
Proof using Type.
  destruct to; unfold build_response, to_vec, conv_eff; monad_unfold;
    [destruct (ChatBuild.build_response ir w)|destruct (ClaudeBuild.build_response ir w)
    |destruct (RespBuild.build_response ir w)|];
    destruct (to_json _) as [r|m]; cbn; intros; simplify_eq; eauto.
Qed.
End responses.

(** ** Emitters *)

Lemma open_block_succeeds `{SerdeJson} block : succeeds (open_block block).
Proof.
  unfold open_block. apply succeeds_bind; [auto with stream|]. intros st. destruct (decide _); succeed.
Qed.

Lemma claude_emit_succeeds `{SerdeJson} `{Env} e : succeeds (claude_emit e).
Proof.
  pose proof open_block_succeeds as Hopen.
  destruct e; cbn [claude_emit]; unfold emit_message_start, emit_text_delta, emit_tool_call_start,
    emit_tool_call_delta, emit_thinking_delta, ClaudeStream.emit_done; try solve [succeed];
    (apply succeeds_bind; [solve [done|destruct usage; succeed]|intros]; succeed).
Qed.

Lemma chat_emit_succeeds `{Env} `{Serialize OpenAIChatStreamChunk} e : succeeds (chat_emit e).
Proof.
  assert (forall id model d fr us, succeeds (make_stream_chunk id model d fr us)) as Hmake
    by (intros; unfold make_stream_chunk; succeed).
  assert (succeeds stream_ids) as Hids by (unfold stream_ids; succeed).
  assert (forall d, succeeds (emit_delta d)) as Hdelta.
  { intros d. unfold emit_delta. apply succeeds_bind; [done|]. intros []. succeed. }
  destruct e; cbn [chat_emit]; try solve [succeed].
  apply succeeds_bind; [done|]. intros []. apply succeeds_bind; [auto with stream|]. intros _.
  apply succeeds_bind; [destruct usage; succeed|]. intros _. succeed.
Qed.

Lemma succeeds_all {A B} (f : A -> Stream (list B)) l :
  (forall a, succeeds (f a)) -> succeeds (run_all f l).
Proof.
  intros Hf. induction l as [|a l IH]; [apply succeeds_ret|]. cbn [run_all].
  apply succeeds_bind; [done|]. intros bs. apply succeeds_bind; [done|]. intros cs. apply succeeds_ret.
Qed.

Lemma convert_stream_event_err `{SerdeJson} `{Env} `{RequestSerde} `{ResponseSerde} `{StreamSerde}
  (from to : Format) (ev : SseEvent) (i o : StreamState) (w : World) e :
  fst (convert_stream_event ev from to ((i, o), w)) = Err e -> to = Claude \/ to = OpenAIChat ->
  fst (parse_stream from ev (i, w)) = Err e.
Proof.
  intros He Hto. revert He. unfold convert_stream_event. destruct (decide (from = to)) as [|Hne]; [done|].
  rewrite get_converter_some by done. unfold hub_convert_stream_event, mbind, stm_bind, on_in, on_out.
  cbn [hub_from hub_to].
  destruct (parse_stream from ev (i, w)) as [[es|e'] [i' w']]; [|by intros [= ->]].
  assert (succeeds (run_all (emit_stream to) es)) as Hs.
  { apply succeeds_all. intros c. destruct Hto as [->| ->];
      [apply claude_emit_succeeds|apply chat_emit_succeeds]. }
  destruct (Hs (o, w')) as (fs & [o' w2] & ->). done.
Qed.

(** C37: what can go wrong in a conversion. Between one format and itself a body
    and a stream event pass through as they are, and there is a converter for
    every other pair, so [UnsupportedConversion] is never returned. A request
    or a response fails only with serde_json's error, and one that does not
    deserialize fails with the reader's error before a fresh identifier or the
    clock is drawn. Towards Claude and Chat a stream event fails only when the
    upstream's event cannot be parsed. *)
Theorem convert_errors `{SerdeJson} `{Env} `{RequestSerde} `{ResponseSerde} `{StreamSerde}
  (from to : Format) (input : string) (ev : SseEvent) (i o : StreamState) (w : World) :
  (from = to ->
     convert_request input from to w = (Ok input, w) /\
     convert_response input from to w = (Ok input, w) /\
     convert_stream_event ev from to ((i, o), w) = (Ok [render ev], ((i, o), w))) /\
  (get_converter from to = None <-> from = to) /\
  (forall e, fst (convert_request input from to w) = Err e -> exists m, e = ErrJson m) /\
  (forall e, fst (convert_response input from to w) = Err e -> exists m, e = ErrJson m) /\
  (forall e, from <> to -> fst (read_request from input w) = Err e ->
     convert_request input from to w = (Err e, w)) /\
  (forall e, from <> to -> fst (read_response from input w) = Err e ->
     convert_response input from to w = (Err e, w)) /\
  (forall e, fst (convert_stream_event ev from to ((i, o), w)) = Err e -> to = Claude \/ to = OpenAIChat ->
     fst (parse_stream from ev (i, w)) = Err e).
Proof.
  split_and!.
  - intros <-. unfold convert_request, convert_response, convert_stream_event.
    rewrite !decide_True by done. done.
  - apply get_converter_none.
  - intros e. unfold convert_request. destruct (decide (from = to)) as [|Hne]; [done|].
    rewrite get_converter_some by done. unfold hub_convert_request, mbind, stm_bind. cbn [hub_from hub_to].
    destruct (read_request from input w) as [[ir|e'] w1] eqn:E.
    + apply build_request_json.
    + intros [= ->]. apply (read_request_json from input w). by rewrite E.
  - intros e. unfold convert_response. destruct (decide (from = to)) as [|Hne]; [done|].
    rewrite get_converter_some by done. unfold hub_convert_response, mbind, stm_bind. cbn [hub_from hub_to].
    destruct (read_response from input w) as [[ir|e'] w1] eqn:E.
    + apply build_response_json.
    + intros [= ->]. apply (read_response_json from input w). by rewrite E.
  - intros e Hne E. unfold convert_request. rewrite decide_False, get_converter_some by done.
    unfold hub_convert_request, mbind, stm_bind. cbn [hub_from hub_to]. by rewrite (read_request_err _ _ _ _ E).
  - intros e Hne E. unfold convert_response. rewrite decide_False, get_converter_some by done.
    unfold hub_convert_response, mbind, stm_bind. cbn [hub_from hub_to]. by rewrite (read_response_err _ _ _ _ E).
  - apply convert_stream_event_err.
Qed.

(** ** Paths of conversions *)

Section paths.
Context `{SerdeJson} `{!SerdeJsonLaws} `{Env} `{RequestSerde}.

(** The fragment each wire can carry. *)
Definition expressible (f : Format) (ir : IrRequest) : Prop :=
  match f with
  | Claude => claude_request ir = true
  | OpenAIChat => chat_request ir
  | OpenAIResponses => resp_request ir
  | Gemini => gemini_request ir
  end.

(** [body] is the struct the builder of [f] makes, printed, and serde reads
    it back. *)
Definition wire (f : Format) (ir : IrRequest) (body : string) : Prop :=
  match f with
  | Claude => to_json (ClaudeBuild.build ir) = Ok body /\ from_json body = Ok (ClaudeBuild.build ir)
  | OpenAIChat => to_json (ChatBuild.build ir) = Ok body /\ from_json body = Ok (ChatBuild.build ir)
  | OpenAIResponses => to_json (RespBuild.build ir) = Ok body /\ from_json body = Ok (RespBuild.build ir)
  | Gemini => to_json (GeminiBuild.build ir) = Ok body /\ from_json body = Ok (GeminiBuild.build ir)
  end.

Lemma read_wire f ir body w :
  expressible f ir -> wire f ir body -> read_request f body w = (Ok ir, w).
Proof using All.
  destruct f; cbn [expressible wire]; intros He [_ Hf];
    unfold read_request, from_slice, conv_eff; monad_unfold; rewrite Hf; cbn [map_err].
  - by rewrite chat_read_build.
  - by rewrite (proj1 (claude_read_build _ He)).
  - by rewrite resp_read_build.
  - by rewrite gemini_read_build.
Qed.

Lemma build_wire f ir body w : wire f ir body -> build_request f ir w = (Ok body, w).
Proof using Type.
  destruct f; cbn [wire]; intros [Ht _]; unfold build_request, to_vec; monad_unfold; by rewrite Ht.
Qed.

Lemma convert_wire from to ir b1 b2 w :
  expressible from ir -> wire from ir b1 -> wire to ir b2 ->
  (from = to -> b1 = b2) -> convert_request b1 from to w = (Ok b2, w).
Proof using All.
  intros He H1' H2' Heq. unfold convert_request. destruct (decide (from = to)) as [E|Hne].
  - by rewrite (Heq E).
  - rewrite get_converter_some by done. unfold hub_convert_request, mbind, stm_bind. cbn [hub_from hub_to].
    rewrite (read_wire _ ir) by done. by apply build_wire.
Qed.

(** Converting through the formats of a path, one after the other. *)
Fixpoint convert_path (body : string) (from : Format) (path : list Format) : Conv string :=
  match path with
  | [] => mret body
  | to :: path => body ← convert_request body from to; convert_path body to path
  end.

(** C1: conversions do not wear a request down. Take a request that every
    format of a path can express, in the wire form of the first. Converted
    from format to format along the path, of any length and visiting formats
    as often as one likes, it arrives without error as exactly what the last
    format's builder writes for the original request, byte for byte, drawing
    nothing. So a conversion there and back is the identity on bodies, and
    every route between two formats gives the same body. *)
Theorem request_path_independent (ir : IrRequest) (bodies : Format -> string) (from : Format)
  (path : list Format) (w : World) :
  Forall (fun f => expressible f ir /\ wire f ir (bodies f)) (from :: path) ->
  convert_path (bodies from) from path w = (Ok (bodies (default from (list.last path))), w).
Proof using All.
  revert from. induction path as [|to path IH]; intros from Hall; [done|].
  apply list.Forall_cons in Hall as [[He Hb] Hall].
  pose proof Hall as Hall'. apply list.Forall_cons in Hall' as [[_ Hb'] _].
  cbn [convert_path]. unfold mbind, stm_bind.
  rewrite (convert_wire from to ir (bodies from) (bodies to) w He Hb Hb') by by intros ->.
  rewrite IH by done. rewrite last_cons. by destruct (list.last path).
Qed.
End paths.

Definition plain_request : IrRequest :=
  {| model := "m";
     system := [Text "be brief" None];
     messages :=
       [{| msg_role := User; msg_parts := [Text "what time is it?" None] |};
        {| msg_role := Assistant; msg_parts := [Text "late" None] |};
        {| msg_role := User; msg_parts := [Text "thanks" None] |}];
     tools := [];
     tool_choice := None;
     sampling := {| max_tokens := Some 256%Z; temperature := None; top_p := None; top_k := None; stop := [] |};
     stream := false;
     reasoning := Off;
     extra := [] |}.

(** Serializers that know this request. *)
Definition one_body {T} (body : string) (t : T) : string -> result string T :=
  fun s => if decide (s = body) then Ok t else Err "another body".

Definition plain_body (f : Format) : string := Format.as_str f.

Definition plain_serde : RequestSerde :=
  let so_to : ToValue StreamOptions := sample_options_to in
  let so_from : FromValue StreamOptions := sample_options_from in
  {| ser_claude_request := fun _ => Ok (plain_body Claude);
     de_claude_request := one_body (plain_body Claude) (ClaudeBuild.build plain_request);
     ser_chat_request := fun _ => Ok (plain_body OpenAIChat);
     de_chat_request := one_body (plain_body OpenAIChat) (ChatBuild.build plain_request);
     ser_resp_request := fun _ => Ok (plain_body OpenAIResponses);
     de_resp_request := one_body (plain_body OpenAIResponses) (RespBuild.build plain_request);
     ser_gemini_request := fun _ => Ok (plain_body Gemini);
     de_gemini_request := one_body (plain_body Gemini) (GeminiBuild.build plain_request);
     stream_options_to := so_to;
     stream_options_from := so_from |}.

Lemma request_path_independent_witness :
  @convert_path binary_json sample_env plain_serde (plain_body Claude) Claude
    [OpenAIChat; Gemini; OpenAIResponses; Gemini; Claude] world0 = (Ok (plain_body Claude), world0).
Proof.
  apply (@request_path_independent binary_json binary_json_laws sample_env plain_serde plain_request plain_body
           Claude [OpenAIChat; Gemini; OpenAIResponses; Gemini; Claude] world0).
  assert (forall f, @expressible plain_serde f plain_request /\
                    @wire binary_json plain_serde f plain_request (plain_body f)) as Hall.
  { intros f. split.
    - destruct f; cbn [expressible].
      + unfold chat_request. split_and!; try done.
        * repeat constructor. by exists "be brief".
        * apply List.Forall_cons; [left; by exists "what time is it?"|].
          apply List.Forall_cons; [|apply List.Forall_cons; [left; by exists "thanks"|apply List.Forall_nil]].
          exists [], [Text "late" None], []. split_and!; try done; [by left|by repeat constructor|by right].
        * by exists None, None, None, None.
      + vm_compute. reflexivity.
      + unfold resp_request. split_and!; try done.
        * right. by exists "be brief".
        * repeat (apply List.Forall_cons; [reflexivity|]). apply List.Forall_nil.
        * by exists None, None, None, None, [].
      + unfold gemini_request. split_and!; try done.
        * right. by exists "be brief".
        * repeat (apply List.Forall_cons; [reflexivity|]). apply List.Forall_nil.
        * by exists None, None, None.
    - destruct f; split; reflexivity. }
  repeat (apply List.Forall_cons; [apply Hall|]). apply List.Forall_nil.
Defined.

(** ** Streams from Gemini to Responses *)

(** Every delta names a call that is in [calls] or started before it. *)
Fixpoint answered (calls : list Z) (es : list CanonicalStreamEvent) : Prop :=
  match es with
  | [] => True
  | ToolCallStart i _ _ _ :: es => answered (i :: calls) es
  | ToolCallDelta i _ :: es => i ∈ calls /\ answered calls es
  | _ :: es => answered calls es
  end.

Lemma answered_mono c1 c2 es : (forall i, i ∈ c1 -> i ∈ c2) -> answered c1 es -> answered c2 es.
Proof.
  revert c1 c2. induction es as [|e es IH]; intros c1 c2 Hsub; [done|].
  destruct e; cbn [answered]; try by apply IH.
  - apply IH. intros i. rewrite !list_elem_of_In. cbn. intros [->|Hi]; [by left|right].
    by apply list_elem_of_In, Hsub, list_elem_of_In.
  - intros [Hi Hes]. split; [by apply Hsub|by apply (IH c1)].
Qed.

Lemma answered_app calls o1 o2 : answered calls o1 -> answered [] o2 -> answered calls (o1 ++ o2).
Proof.
  intros Ha Hb. revert calls Ha. induction o1 as [|e o1 IH]; intros calls Ha; cbn [app].
  - apply (answered_mono []); [|done]. intros i Hi. by apply not_elem_of_nil in Hi.
  - destruct e; cbn [answered] in *; try by apply IH. destruct Ha as [Hi Ha]. split; [done|by apply IH].
Qed.

Section gemini_parse.
Context `{SerdeJson} `{!SerdeJsonLaws} `{Env} `{Deserialize GeminiResponse}.

(** What a step of the parser gives: events that answer for themselves, or
    a parse error. *)
Definition sound (r : result ConvertError (list CanonicalStreamEvent)) : Prop :=
  match r with Ok out => answered [] out | Err e => exists m, e = SseParse m end.

Lemma sound_all {A} (f : A -> Stream (list CanonicalStreamEvent)) l s :
  (forall a s, sound (fst (f a s))) -> sound (fst (run_all f l s)).
Proof using Type.
  intros Hf. revert s. induction l as [|a l IH]; intros s; [done|]. rewrite run_all_cons.
  specialize (Hf a s). destruct (f a s) as [[o1|e] s1]; [|done]. specialize (IH s1).
  destruct (run_all f l s1) as [[o2|e] s2]; [|done]. by apply answered_app.
Qed.

Lemma sound_call part s : sound (fst (parse_call part s)).
Proof using All.
  destruct s as [st w]. unfold parse_call. destruct (gp_function_call part) as [fc|]; [|done].
  monad_unfold. cbn. destruct (unwrap_or_else (gfc_id fc) draw_uuid w) as [id w1].
  destruct (_ || _); [done|]. rewrite serde_to_string_display. cbn. split; [|done]. apply list_elem_of_In; by left.
Qed.

Lemma sound_part part s : sound (fst (parse_part part s)).
Proof using All.
  destruct s as [st w]. unfold parse_part. destruct (opt_filter _ (gp_text part)) as [t|].
  - destruct (decide _); [by destruct (gp_thought_signature part)|].
    monad_unfold. cbn. pose proof (sound_call part (set_phase PhaseContent st, w)) as Hc.
    by destruct (parse_call part _) as [[o|e] s'].
  - apply sound_call.
Qed.

Lemma sound_gemini ev s : sound (fst (gemini_parse ev s)).
Proof using All.
  destruct s as [st w]. unfold gemini_parse. monad_unfold.
  destruct (from_json (data ev)) as [chunk|m]; cbn -[GeminiStream.parse_start GeminiStream.parse_usage]; [|by eexists].
  assert (exists out s', GeminiStream.parse_start chunk (st, w) = (Ok out, s') /\ answered [] out) as (o1 & s1 & -> & Ho1).
  { unfold GeminiStream.parse_start. monad_unfold. cbn.
    by destruct (response_id st); cbn; eexists _, _. }
  assert (exists s', GeminiStream.parse_usage chunk s1 = (Ok tt, s')) as [s2 ->].
  { destruct s1 as [st1 w1]. unfold GeminiStream.parse_usage. destruct (usage_metadata chunk); by eexists. }
  destruct (head (candidates chunk)) as [c|].
  - unfold parse_candidate. monad_unfold.
    pose proof (sound_all parse_part (gc_parts (cand_content c)) s2 sound_part) as Hp.
    destruct (run_all parse_part _ s2) as [[o2|e] [st3 w3]]; [|done].
    destruct (cand_finish_reason c); cbn; repeat apply answered_app; done.
  - cbn. by apply answered_app.
Qed.
End gemini_parse.

Section resp_emit.
Context `{SerdeJson} `{Env}.

Definition calls_at (s : StreamState * World) : list Z := map tc_index (accumulated_tool_calls (fst s)).

Lemma push_arguments_indices i d calls item calls' :
  RespStream.push_arguments i d calls = Some (item, calls') -> map tc_index calls' = map tc_index calls.
Proof using Type.
  revert item calls'. induction calls as [|tc calls IH]; intros item calls'; [done|]. cbn [RespStream.push_arguments].
  destruct (tc_index tc =? i)%Z; [by intros [= _ <-]|].
  destruct (RespStream.push_arguments i d calls) as [[it cs]|]; [|done]. cbn. intros [= _ <-].
  cbn. by rewrite (IH it cs).
Qed.

(** Emitting an event leaves the started calls, and adds the one it starts. *)
Lemma emit_calls e s fs s' :
  resp_emit e s = (Ok fs, s') -> forall i,
  (i ∈ calls_at s \/ match e with ToolCallStart j _ _ _ => i = j | _ => False end) -> i ∈ calls_at s'.
Proof using Type.
  destruct s as [st w]. intros E i. unfold calls_at.
  destruct e as [id m|t|j cid name sg|j d|t|by_ sg|by_ raw|r u]; cbn [resp_emit] in E.
  - unfold emit_start in E. monad_unfold. cbn -[resp_frame obj] in E.
    destruct (normalize_id_to_resp id w). cbn -[resp_frame obj] in E. injection E as _ <-. by intros [?|[]].
  - unfold emit_text in E. monad_unfold. cbn -[resp_frame] in E.
    destruct (response_id st); cbn -[resp_frame] in E; injection E as _ <-; by intros [?|[]].
  - injection E as _ <-. cbn. rewrite map_app, !list_elem_of_In, in_app_iff. cbn. intuition.
  - unfold emit_call_delta in E. monad_unfold. cbn -[RespStream.push_arguments resp_frame pretty.pretty] in E.
    destruct (RespStream.push_arguments j d (accumulated_tool_calls st)) as [[item calls]|] eqn:Ep; [|done].
    injection E as _ <-. cbn. rewrite (push_arguments_indices _ _ _ _ _ Ep). by intros [?|[]].
  - injection E as _ <-. by intros [?|[]].
  - unfold emit_signature in E. destruct (_ || _); injection E as _ <-; [by intros [?|[]]|].
    cbn. destruct (decide _); by intros [?|[]].
  - destruct by_; injection E as _ <-; by intros [?|[]].
  - unfold RespStream.emit_done in E. monad_unfold. cbn -[close_thinking close_text] in E.
    destruct (response_id st); cbn -[close_thinking close_text] in E; unfold eff_ret in E;
      destruct (close_thinking st _) as [[tf ti] w2]; cbn -[close_text] in E;
      destruct (close_text st _) as [xf xi]; cbn -[resp_frame] in E; injection E as _ <-; by intros [?|[]].
Qed.

Lemma emit_answered es calls s :
  answered calls es -> (forall i, i ∈ calls -> i ∈ calls_at s) ->
  exists fs s', run_all resp_emit es s = (Ok fs, s').
Proof using Type.
  revert calls s. induction es as [|e es IH]; intros calls s Ha Hc; [by eexists _, _|].
  assert (exists fs s1, resp_emit e s = (Ok fs, s1)) as (f1 & s1 & E1).
  { pose proof (emit_succeeds e) as Hok. destruct e as [| | |i d| | | |]; try apply (Hok s).
    destruct Ha as [Hi _]. destruct s as [st w].
    pose proof (push_arguments_none i d (accumulated_tool_calls st)) as Hnone.
    unfold resp_emit, emit_call_delta. monad_unfold. cbn -[RespStream.push_arguments pretty.pretty].
    destruct (RespStream.push_arguments i d (accumulated_tool_calls st)) as [[item calls']|]; [by eexists _, _|].
    exfalso. destruct Hnone as [Hnone _]. specialize (Hnone eq_refl). specialize (Hc i Hi).
    apply list_elem_of_In, in_map_iff in Hc as (tc & Etc & Hin).
    rewrite List.Forall_forall in Hnone. by apply (Hnone tc Hin). }
  assert (exists c, answered c es /\ forall i, i ∈ c -> i ∈ calls_at s1) as (c & Hans & Hsub).
  { pose proof (emit_calls e s f1 s1 E1) as Hk.
    destruct e; cbn [answered] in Ha; try (exists calls; split; [done|]; intros i' Hi'; apply Hk; left; by apply Hc).
    - exists (index :: calls). split; [done|]. intros i' Hi'. apply Hk. apply list_elem_of_In in Hi' as [->|Hi'];
        [by right|left]. by apply Hc, list_elem_of_In.
    - exists calls. destruct Ha as [_ Ha]. split; [done|]. intros i' Hi'. apply Hk. left. by apply Hc. }
  destruct (IH c s1 Hans Hsub) as (f2 & s2 & E2).
  exists (f1 ++ f2), s2. by rewrite run_all_cons, E1, E2.
Qed.
End resp_emit.

(** A Gemini stream never breaks a Responses client's. Whatever events the
    upstream sends, from whatever states, converting the stream from Gemini to
    Responses fails only on an event that does not parse: every call's
    arguments follow its start, so the emitter's "tool call index not found"
    cannot happen. *)
Theorem gemini_to_resp_errors `{SerdeJson} `{!SerdeJsonLaws} `{Env} `{RequestSerde} `{ResponseSerde}
  `{StreamSerde} (es : list SseEvent) (s : (StreamState * StreamState) * World) (e : ConvertError) :
  fst (convert_stream es Gemini OpenAIResponses s) = Err e -> exists m, e = SseParse m.
Proof.
  revert s. induction es as [|ev es IH]; intros [[i o] w]; [done|].
  cbn [convert_stream]. unfold mbind at 1, stm_bind.
  assert (match fst (convert_stream_event ev Gemini OpenAIResponses ((i, o), w)) with
          | Ok _ => True | Err e => exists m, e = SseParse m end) as Hev.
  { unfold convert_stream_event. rewrite decide_False by done. cbn [get_converter hub].
    unfold hub_convert_stream_event, mbind, stm_bind, on_in, on_out. cbn [hub_from hub_to].
    pose proof (sound_gemini ev (i, w)) as Hs. unfold parse_stream. cbn [adapter parse_sse_event].
    change (@parse_sse_event GeminiStreamAdapter ev) with (gemini_parse ev).
    destruct (gemini_parse ev (i, w)) as [[out|err] [i' w']]; [|done].
    destruct (emit_answered out [] (o, w') Hs) as (fs & [o' w2] & Ef); [by intros k Hk%not_elem_of_nil|].
    change (run_all (emit_stream OpenAIResponses) out (o, w')) with (run_all resp_emit out (o, w')). by rewrite Ef. }
  destruct (convert_stream_event ev Gemini OpenAIResponses ((i, o), w)) as [[lines|err] s1].
  - unfold mbind, stm_bind, mret, stm_ret. specialize (IH s1).
    destruct (convert_stream es Gemini OpenAIResponses s1) as [[rest|err] s2]; [done|].
    by intros [= ->]; apply IH.
  - by intros [= ->].
Qed.

(** Deserializers of an upstream that sends no JSON at all. *)
Definition mute {T} (b : string) (_ : T) : result string string := Ok b.
Definition deaf {T} (_ : string) : result string T := Err "expected value".
Definition deaf_value {T} (_ : Value) : result string T := Err "expected value".

Definition deaf_responses : ResponseSerde :=
  {| ser_claude_response := mute ""; de_claude_response := deaf;
     ser_chat_response := mute ""; de_chat_response := deaf;
     ser_resp_response := mute ""; de_resp_response := deaf;
     ser_gemini_response := mute ""; de_gemini_response := deaf |}.
Definition deaf_stream : StreamSerde :=
  {| de_message_start := deaf; de_block_start := deaf_value; de_block_delta := deaf;
     de_message_delta := deaf; ser_chat_chunk := mute ""; de_chat_chunk := deaf;
     ser_gemini_chunk := mute ""; de_gemini_chunk := deaf |}.

Lemma gemini_to_resp_errors_witness :
  exists m, SseParse "expected value" = SseParse m.
Proof.
  apply (@gemini_to_resp_errors binary_json binary_json_laws sample_env plain_serde deaf_responses deaf_stream
           [{| event := None; data := "<html>" |}] ((StreamState_new, StreamState_new), world0)).
  reflexivity.
Defined.

(** ** An image between formats *)

(** ** Opaque material *)

(** C8: no vendor sees another vendor's opaque material. What each builder
    writes is the same when the signatures and sealed payloads that other
    formats produced are blanked, at any depth of the request; and every
    signature in a Gemini request is one Gemini made, of a part of the request.
    That a builder also writes its own material back is another matter: see
    the round trips of Claude and Gemini, and [resp_encrypted_reasoning_lost]
    for Responses. *)
Theorem builders_redact `{SerdeJson} `{FromValue StreamOptions} (ir : IrRequest) :
  ClaudeBuild.build (redact_request Claude ir) = ClaudeBuild.build ir /\
  GeminiBuild.build (redact_request Gemini ir) = GeminiBuild.build ir /\
  ChatBuild.build (redact_request OpenAIChat ir) = ChatBuild.build ir /\
  RespBuild.build (redact_request OpenAIResponses ir) = RespBuild.build ir /\
  (forall c p s, c ∈ gq_contents (GeminiBuild.build ir) -> p ∈ gc_parts c -> gp_thought_signature p = Some s ->
     exists m part, m ∈ messages ir /\ part ∈ msg_parts m /\
       match part with
       | Text _ sg | ToolCall _ _ _ sg | Thinking _ sg => sg = Some {| sig_by := Gemini; sig_value := s |}
       | _ => False
       end).
Proof.
  split_and!.
  - apply claude_build_redacts.
  - apply gemini_build_redacts.
  - apply chat_build_redacts.
  - apply resp_build_redacts.
  - apply gemini_build_redacts.
Qed.

(** A finding about images. Chat's reader keeps an image sent as a data URL as
    its media type and data, with an empty URL; the builders of Gemini and
    Responses look at the URL alone. The image is lost on the way: Gemini is
    sent an empty text, Responses an image with an empty URL. *)
Theorem chat_data_image_lost `{SerdeJson} `{ToValue StreamOptions} (req : OpenAIChatRequest)
  (mime bytes : string) (detail : option string) :
  str_in ";" mime = false ->
  oq_messages req =
    [message "user" (Some (MParts [PImageUrl {| iu_url := "data:" +:+ mime +:+ ";base64," +:+ bytes;
                                                iu_detail := detail |}]))] ->
  let ir := ChatRead.read req in
  messages ir = [{| msg_role := User; msg_parts := [Image "" mime (Some bytes) detail] |}] /\
  gq_contents (GeminiBuild.build ir) = [{| gc_role := Some "user"; gc_parts := [part_text ""] |}] /\
  exists item, rq_input (RespBuild.build ir) =
    Some (VArray [obj [("type", str "message"); ("role", str "user"); ("content", VArray [item])]]) /\
    value_str "image_url" item = Some "".
Proof.
  intros Hm Hr ir.
  assert (messages ir = [{| msg_role := User; msg_parts := [Image "" mime (Some bytes) detail] |}]) as Hmsg.
  { subst ir. unfold ChatRead.read. rewrite Hr. cbn [fold_left ChatRead.read_message].
    assert (ChatRead.image_part {| iu_url := "data:" +:+ mime +:+ ";base64," +:+ bytes; iu_detail := detail |}
            = Image "" mime (Some bytes) detail) as E.
    { unfold ChatRead.image_part. cbn [iu_url iu_detail]. rewrite strip_prefix_app. cbn [mbind option_bind].
      change (";base64," +:+ bytes) with (String ";" "base64," +:+ bytes). by rewrite split_once_first. }
    unfold ChatRead.read_message, message. cbn [om_role om_content ChatRead.user_parts map ChatRead.content_part].
    rewrite E. reflexivity. }
  split; [done|]. unfold GeminiBuild.build, RespBuild.build. cbn [gq_contents rq_input]. rewrite Hmsg.
  split; [done|]. exists (image_item "" detail). split; [done|]. by destruct detail.
Qed.
