(* ===== verification/Glob.v ===== *)
(** * Glob patterns

    [glob_match] of the server's config/mod.rs, which routes, model maps and
    header filters share, and the meaning it implements. *)
From Stdlib Require Import Lia.
From S2P Require Import Prelude.
From S2P Require Import RustStd.

(** The loop over the pieces of a pattern with several stars; [rest] is
    [value[pos..]] and [first] says whether the index is 0. *)
Fixpoint glob_parts (first : bool) (parts : list string) (rest : string) : bool :=
  match parts with
  | [] => true
  | part :: parts =>
      if is_empty part then glob_parts false parts rest
      else if first then
        match strip_prefix part rest with
        | Some rest => glob_parts false parts rest
        | None => false
        end
      else
        match parts with
        | [] => ends_with part rest
        | _ :: _ =>
            match split_once part rest with
            | Some (_, rest) => glob_parts false parts rest
            | None => false
            end
        end
  end.

Definition glob_match (pattern value : string) : bool :=
  if decide (pattern = "*") then true
  else if negb (str_in "*" pattern) then bool_decide (pattern = value)
  else
    match split "*" pattern with
    | [prefix; suffix] =>
        starts_with prefix value && ends_with suffix value &&
        (String.length prefix + String.length suffix <=? String.length value)%nat
    | parts => glob_parts true parts value
    end.

(** ** The meaning of a pattern

    A star stands for any text, every other character for itself. *)
Inductive glob : string -> string -> Prop :=
  | glob_end : glob "" ""
  | glob_star p s t : glob p t -> glob (String "*" p) (s +:+ t)
  | glob_char c p s : c <> "*"%char -> glob p s -> glob (String c p) (String c s).

(** What the pieces after a star match: each piece somewhere after the last,
    and the last piece at the end. *)
Fixpoint glob_tail (parts : list string) (s : string) : Prop :=
  match parts with
  | [] => s = ""
  | [p] => exists x, s = x +:+ p
  | p :: parts => exists x r, s = x +:+ p +:+ r /\ glob_tail parts r
  end.

Definition glob_pieces (parts : list string) (s : string) : Prop :=
  match parts with
  | [] => s = ""
  | [p] => s = p
  | p :: parts => exists r, s = p +:+ r /\ glob_tail parts r
  end.

Lemma split_star p : split "*" (String "*" p) = "" :: split "*" p.
Proof. rewrite split_unfold by done. change (String "*" p) with ("*" +:+ p). by rewrite split_once_here. Qed.

Lemma split_char c p :
  c <> "*"%char ->
  split "*" (String c p) =
  match split "*" p with [] => [] | part :: parts => String c part :: parts end.
Proof.
  intros Hc. rewrite (split_unfold _ (String c p)), split_once_cons, (split_unfold _ p) by
    (done || by apply strip_prefix_head).
  by destruct (split_once "*" p) as [[]|].
Qed.

Lemma glob_pieces_char c part parts s :
  glob_pieces (String c part :: parts) s <-> exists t, s = String c t /\ glob_pieces (part :: parts) t.
Proof.
  destruct parts as [|q parts]; cbn [glob_pieces].
  - split; [by intros ->; exists part|by intros (t & -> & ->)].
  - split.
    + intros (r & -> & Hr). rewrite app_cons_str. eauto.
    + intros (t & -> & r & -> & Hr). rewrite <-app_cons_str. eauto.
Qed.

Lemma glob_tail_mono parts x s : parts <> [] -> glob_tail parts s -> glob_tail parts (x +:+ s).
Proof.
  destruct parts as [|p [|q parts]]; [done| |]; intros _; cbn [glob_tail].
  - intros (y & ->). exists (x +:+ y). by rewrite app_assoc_str.
  - intros (y & r & -> & Hr). exists (x +:+ y), r. by rewrite app_assoc_str.
Qed.

Lemma glob_tail_pieces parts s :
  parts <> [] -> glob_tail parts s <-> exists x t, s = x +:+ t /\ glob_pieces parts t.
Proof.
  destruct parts as [|p [|q parts]]; [done| |]; intros _; cbn [glob_tail glob_pieces].
  - split; [intros (x & ->); eauto|intros (x & t & -> & ->); eauto].
  - split; [intros (x & r & -> & Hr); eauto 6|intros (x & t & -> & r & -> & Hr); eauto].
Qed.

Lemma glob_iff_pieces p s : glob p s <-> glob_pieces (split "*" p) s.
Proof.
  revert s. induction p as [|c p IH]; intros s.
  - cbn. split; [by inversion 1|intros ->; constructor].
  - destruct (decide (c = "*"%char)) as [->|Hc].
    + rewrite split_star. pose proof (split_not_nil "*" p ltac:(done)) as Hne.
      destruct (split "*" p) as [|q qs] eqn:E; [done|]. cbn [glob_pieces].
      split.
      * inversion 1; subst; [|congruence]. exists (s0 +:+ t). split; [done|].
        apply glob_tail_pieces; [done|]. exists s0, t. split; [done|]. by apply IH.
      * intros (r & -> & (x & t & -> & Ht)%glob_tail_pieces); [|done]. rewrite app_nil_l_str.
        constructor. by apply IH.
    + rewrite split_char by done. pose proof (split_not_nil "*" p ltac:(done)) as Hne.
      destruct (split "*" p) as [|q qs] eqn:E; [done|]. rewrite glob_pieces_char. split.
      * inversion 1; subst; [congruence|]. eexists. split; [done|]. by apply IH.
      * intros (t & -> & Ht). constructor; [done|]. by apply IH.
Qed.

(** The first place a piece occurs is as good as any. *)
Lemma split_once_min p x r' :
  exists a r, split_once p (x +:+ p +:+ r') = Some (a, r) /\ (String.length a <= String.length x)%nat.
Proof.
  induction x as [|c x IH].
  - exists "", r'. split; [|done]. rewrite app_nil_l_str. destruct p; [by destruct r'|].
    by apply split_once_here.
  - rewrite app_cons_str. cbn [split_once].
    destruct (strip_prefix p (String c (x +:+ p +:+ r'))) as [r0|]; [by exists "", r0; split; [|cbn; lia]|].
    destruct IH as (a & r & -> & Ha). exists (String c a), r. split; [done|]. cbn. lia.
Qed.

Lemma app_suffix_str a b c d :
  a +:+ b = c +:+ d -> (String.length a <= String.length c)%nat -> exists y, b = y +:+ d.
Proof.
  revert c. induction a as [|x a IH]; intros c H Hl.
  - exists c. by rewrite app_nil_l_str in H.
  - destruct c as [|y c]; [cbn in Hl; lia|]. rewrite !app_cons_str in H. injection H as -> H.
    apply (IH c); [done|]. cbn in Hl. lia.
Qed.

Lemma glob_tail_first part parts s :
  parts <> [] ->
  glob_tail (part :: parts) s <->
  match split_once part s with Some (_, r) => glob_tail parts r | None => False end.
Proof.
  intros Hne.
  assert (glob_tail (part :: parts) s <-> exists x r, s = x +:+ part +:+ r /\ glob_tail parts r) as ->
    by by destruct parts.
  split.
  - intros (x & r' & -> & Hr'). destruct (split_once_min part x r') as (a & r & E & Ha). rewrite E.
    apply split_once_Some in E. rewrite <-!(app_assoc_str _ part) in E.
    apply eq_sym, app_suffix_str in E as [y ->]; [by apply glob_tail_mono|].
    rewrite !length_app_str. lia.
  - destruct (split_once part s) as [[a r]|] eqn:E; [|done]. intros Hr.
    exists a, r. split; [by apply split_once_Some|done].
Qed.

Lemma glob_tail_empty parts s : glob_tail ("" :: parts) s <-> parts = [] \/ glob_tail parts s.
Proof.
  destruct parts as [|q parts].
  - cbn. split; [auto|]. intros _. exists s. by rewrite app_nil_r_str.
  - rewrite glob_tail_first by done. destruct s; cbn; naive_solver.
Qed.

Lemma glob_parts_tail parts s : glob_parts false parts s = true <-> parts = [] \/ glob_tail parts s.
Proof.
  revert s. induction parts as [|p parts IH]; intros s; [naive_solver|]. cbn [glob_parts].
  destruct p as [|c p]; cbn [is_empty].
  - rewrite IH, glob_tail_empty. naive_solver.
  - destruct parts as [|q parts].
    + rewrite ends_with_Some. cbn [glob_tail]. naive_solver.
    + rewrite glob_tail_first by done. destruct (split_once (String c p) s) as [[a r]|]; [|naive_solver].
      rewrite IH. naive_solver.
Qed.

Lemma split_no_star p : str_in "*" p = false -> split "*" p = [p].
Proof. intros H. by rewrite split_unfold, split_once_none. Qed.

Lemma glob_two prefix suffix value :
  starts_with prefix value && ends_with suffix value &&
    (String.length prefix + String.length suffix <=? String.length value)%nat = true <->
  glob_pieces [prefix; suffix] value.
Proof.
  cbn [glob_pieces glob_tail]. rewrite !andb_true_iff, starts_with_Some, ends_with_Some, Nat.leb_le. split.
  - intros [[[r ->] [x Hx]] Hl]. exists r. split; [done|]. rewrite length_app_str in Hl.
    apply app_suffix_str in Hx as [y Hy]; [by exists y|].
    apply (f_equal String.length) in Hx. rewrite !length_app_str in Hx. lia.
  - intros (r & -> & x & ->). split_and!; [by eexists| |rewrite !length_app_str; lia].
    exists (prefix +:+ x). by rewrite app_assoc_str.
Qed.

Lemma glob_many p q r parts s :
  glob_parts true (p :: q :: r :: parts) s = true <-> glob_pieces (p :: q :: r :: parts) s.
Proof.
  remember (q :: r :: parts) as ps eqn:Eps. assert (ps <> []) by (by subst).
  cbn [glob_parts glob_pieces]. destruct ps as [|q' ps']; [done|]. destruct p as [|c p]; cbn [is_empty].
  - rewrite glob_parts_tail. naive_solver.
  - destruct (strip_prefix (String c p) s) as [t|] eqn:E.
    + apply strip_prefix_Some in E as ->. rewrite glob_parts_tail. split; [naive_solver|].
      intros (t' & Ht & Hg). right.
      assert (t = t') as ->; [|done]. by apply (inj (String.append (String c p))).
    + split; [done|]. intros (t & -> & _). by rewrite strip_prefix_app in E.
Qed.

(** C26: a glob means what its stars say. [glob_match] accepts a value exactly
    when the value is the pattern with each star replaced by some text,
    whatever the number of stars and wherever they are; taking the first
    occurrence of each middle piece loses nothing. *)
Theorem glob_match_spec (pattern value : string) :
  glob_match pattern value = true <-> glob pattern value.
Proof.
  rewrite glob_iff_pieces. unfold glob_match. case_decide as Hs.
  { subst. split; [|done]. intros _. cbn. exists value. split; [done|]. exists value.
    by rewrite app_nil_r_str. }
  destruct (str_in "*" pattern) eqn:Hin; cbn [negb].
  - destruct (split "*" pattern) as [|p [|q [|r parts]]] eqn:E.
    + by apply split_not_nil in E.
    + pose proof (split_char_clean "*" pattern) as Hc. rewrite E in Hc.
      pose proof (join_split "*" pattern ltac:(done)) as Hj. rewrite E in Hj. cbn in Hj. subst p.
      apply Forall_inv in Hc. congruence.
    + apply glob_two.
    + apply glob_many.
  - rewrite split_no_star, bool_decide_eq_true by done. cbn. naive_solver.
Qed.
