(* ===== verification/Config.v ===== *)
(** * The server's configuration

    src/crates/server/src/config: providers, model routes, the upstream APIs,
    and how a client's model name picks providers and an upstream model. *)
From Stdlib Require Import ZArith Lia.
From stdpp Require Import gmap pretty.
From S2P Require Import Prelude.
From S2P Require Import RustStd.
From S2P Require Import Format.
From S2P Require Import Glob.

Local Open Scope Z_scope.

(** ** Hash maps

    A [HashMap<String, String>] is a [gmap]; the order in which it is iterated
    is not specified, so it is a parameter. *)
Abbreviation HashMap := (gmap string string).

Class HashOrder := hash_iter : HashMap -> list (string * string).
Class HashOrderLaws `{HashOrder} : Prop :=
  hash_iter_entries m : Permutation (hash_iter m) (map_to_list m).

(** ** Upstream APIs *)

Inductive UpstreamApi : Type := Chat | ApiClaude | Responses | ApiGemini | CodeAssist | Copilot.
#[export] Instance UpstreamApi_eq_dec : EqDecision UpstreamApi.
Proof. solve_decision. Defined.

Definition to_format (a : UpstreamApi) : Format :=
  match a with
  | Chat | Copilot => OpenAIChat
  | ApiClaude => Claude
  | Responses => OpenAIResponses
  | ApiGemini | CodeAssist => Gemini
  end.

Definition path (a : UpstreamApi) (model : string) (streaming : bool) : string :=
  match a with
  | Chat => "/v1/chat/completions"
  | ApiClaude => "/v1/messages"
  | Responses => "/v1/responses"
  | ApiGemini =>
      if streaming then "/v1beta/models/" +:+ model +:+ ":streamGenerateContent"
      else "/v1beta/models/" +:+ model +:+ ":generateContent"
  | CodeAssist =>
      if streaming then "/v1internal:streamGenerateContent?alt=sse" else "/v1internal:generateContent"
  | Copilot => "/v1/chat/completions"
  end.

Definition from_format (f : Format) : UpstreamApi :=
  match f with
  | OpenAIChat => Chat
  | Claude => ApiClaude
  | OpenAIResponses => Responses
  | Gemini => ApiGemini
  end.

Definition from_npm (npm : string) : UpstreamApi :=
  if bool_decide (npm = "@ai-sdk/anthropic") || bool_decide (npm = "@ai-sdk/google-vertex/anthropic")
  then ApiClaude
  else if bool_decide (npm = "@ai-sdk/openai") || bool_decide (npm = "@ai-sdk/azure") then Responses
  else if decide (npm = "@ai-sdk/google") then CodeAssist
  else Chat.

(** [take_while(is_ascii_digit)] and [str::parse::<u32>] of what it takes. *)
Fixpoint leading_digits (s : string) : list Z :=
  match s with
  | EmptyString => []
  | String c s =>
      let n := Z.of_nat (nat_of_ascii c) - 48 in
      if (0 <=? n) && (n <=? 9) then n :: leading_digits s else []
  end.

Definition parse_u32 (digits : list Z) : option Z :=
  match digits with
  | [] => None
  | _ :: _ =>
      let n := fold_left (fun acc d => 10 * acc + d) digits 0 in
      if n <=? u32_max then Some n else None
  end.

Definition copilot_api (model : string) : UpstreamApi :=
  match strip_prefix "gpt-" model with
  | None => Chat
  | Some rest =>
      match parse_u32 (leading_digits rest) with
      | None => Chat
      | Some version =>
          if (5 <=? version) && negb (starts_with "gpt-5-mini" model) then Responses else Chat
      end
  end.

Inductive WireCompat : Type := WireGeminiApi | WireCodeAssist.

Definition from_wire (wire : WireCompat) : UpstreamApi :=
  match wire with WireGeminiApi => ApiGemini | WireCodeAssist => CodeAssist end.

(** ** Providers *)

Record PluginRef := { pl_spec : string; pl_target : string }.

Record ProviderEndpointConfig := { pe_path : option string; pe_stream_path : option string }.

Inductive AuthScheme : Type := Bearer | ApiKeyHeader | XApiKey | GoogleApiKey | Anthropic | NoAuth.

Record ProviderAuthConfig := { pa_scheme : option AuthScheme; pa_headers : HashMap }.

Record ProviderConfig := {
  pv_name : string;
  pv_format : Format;
  pv_base_url : string;
  pv_api_key : string;
  pv_account : option string;
  pv_accounts : list string;
  pv_api : option UpstreamApi;
  pv_wire : option WireCompat;
  pv_model_map : HashMap;
  pv_endpoints : ProviderEndpointConfig;
  pv_auth : ProviderAuthConfig;
  pv_plugin : option PluginRef;
  pv_proxy : option string
}.

(** [account_ids]: the loop keeps an id that is not empty and not kept yet. *)
Definition keep_id (ids : list string) (id : string) : list string :=
  if negb (is_empty id) && negb (bool_decide (id ∈ ids)) then ids ++ [id] else ids.

Definition account_ids (p : ProviderConfig) : list string :=
  let source :=
    match pv_accounts p with
    | _ :: _ => pv_accounts p
    | [] => match pv_account p with Some account => [account] | None => [] end
    end in
  fold_left keep_id source [].

(** [id.split(':').next()]: what comes before the first colon. *)
Definition before_colon (s : string) : string :=
  match split_once ":" s with Some (a, _) => a | None => s end.

(** [self.account_ids().first().and_then(|a| a.split(':').next())]. *)
Definition account_prefix (p : ProviderConfig) : option string := before_colon <$> head (account_ids p).

Definition effective_api (p : ProviderConfig) : UpstreamApi :=
  match pv_api p with
  | Some api => api
  | None =>
      match pv_wire p with
      | Some wire => from_wire wire
      | None =>
          match account_prefix p with
          | Some prefix =>
              if bool_decide (prefix = "gemini") || bool_decide (prefix = "antigravity") then CodeAssist
              else if decide (prefix = "chatgpt-api") then Responses
              else from_format (pv_format p)
          | None => from_format (pv_format p)
          end
      end
  end.

Definition is_copilot_account (p : ProviderConfig) : bool :=
  bool_decide (account_prefix p = Some "copilot").

Definition api_for (p : ProviderConfig) (model : string) : UpstreamApi :=
  if is_copilot_account p then copilot_api model else effective_api p.

Definition proxy_for (p : ProviderConfig) (server_proxy : option string) : option string :=
  match pv_proxy p with Some proxy => Some proxy | None => server_proxy end.

Definition GEMINI_CODE_ASSIST_BASE : string := "https://cloudcode-pa.googleapis.com".
Definition ANTIGRAVITY_CODE_ASSIST_BASE : string := "https://daily-cloudcode-pa.googleapis.com".

Definition code_assist_base (p : ProviderConfig) : string :=
  if negb (is_empty (trim (pv_base_url p))) then pv_base_url p
  else if decide (account_prefix p = Some "antigravity") then ANTIGRAVITY_CODE_ASSIST_BASE
  else GEMINI_CODE_ASSIST_BASE.

Definition chatgpt_api_base (p : ProviderConfig) : string :=
  let base :=
    if is_empty (trim (pv_base_url p)) then "https://api.openai.com"
    else trim_end_matches "/" (pv_base_url p) in
  default base (strip_suffix "/v1" base).

Definition code_assist_load_base (p : ProviderConfig) : string :=
  if negb (is_empty (trim (pv_base_url p))) then pv_base_url p else GEMINI_CODE_ASSIST_BASE.

(** [resolve_model]: one step of its loop over the map's patterns. *)
Definition better_match (model : string) (best : option (string * string)) (entry : string * string)
  : option (string * string) :=
  let '(pattern, target) := entry in
  if decide (pattern = "*") then best
  else if glob_match pattern model &&
          match best with
          | None => true
          | Some (p, _) => (String.length p <? String.length pattern)%nat
          end
  then Some (pattern, target)
  else best.

Definition resolve_model `{HashOrder} (p : ProviderConfig) (model : string) : string :=
  match pv_model_map p !! model with
  | Some mapped => mapped
  | None =>
      match fold_left (better_match model) (hash_iter (pv_model_map p)) None with
      | Some (_, target) => target
      | None => default model (pv_model_map p !! "*")
      end
  end.

(** ** Routes *)

Inductive RouteStrategy : Type := Priority | RoundRobin.
#[export] Instance RouteStrategy_eq_dec : EqDecision RouteStrategy.
Proof. solve_decision. Defined.

Record ModelRouteConfig := {
  mr_pattern : string;
  mr_provider : option string;
  mr_providers : list string;
  mr_upstream_model : option string;
  mr_strategy : RouteStrategy
}.

Record ResolvedRoute := {
  rt_provider_names : list string;
  rt_upstream_model : string;
  rt_strategy : RouteStrategy
}.

Definition provider_names (mr : ModelRouteConfig) : list string :=
  match mr_provider mr with Some p => [p] | None => [] end ++ mr_providers mr.

(** ** The configuration

    The parts of [ServerConfig] that routing reads; its model metadata, price
    table and logging settings are left out. *)
Inductive PassThroughMode : Type := Allow | Deny.

Record PassThroughHeadersConfig := {
  pt_mode : PassThroughMode;
  pt_allow : list string;
  pt_deny : list string
}.

Record ServerSettings := {
  ss_host : string;
  ss_port : Z;
  ss_api_key : option string;
  ss_pass_through_headers : PassThroughHeadersConfig;
  ss_proxy : option string
}.

Record ServerConfig := {
  sc_server : ServerSettings;
  sc_providers : list ProviderConfig;
  sc_model_routes : list ModelRouteConfig
}.

Definition find_provider (c : ServerConfig) (name : string) : option ProviderConfig :=
  List.find (fun p => bool_decide (pv_name p = name)) (sc_providers c).

Definition is_wildcard (mr : ModelRouteConfig) : bool :=
  str_in "*" (mr_pattern mr) || str_in "?" (mr_pattern mr).

Section resolve.
Context `{HashOrder}.

Definition route_upstream (c : ServerConfig) (mr : ModelRouteConfig) (client_model : string) : string :=
  match mr_upstream_model mr with
  | Some upstream => upstream
  | None =>
      match provider_names mr with
      | name :: _ =>
          match find_provider c name with
          | Some provider => resolve_model provider client_model
          | None => client_model
          end
      | [] => client_model
      end
  end.

(** The loop over the routes. *)
Fixpoint resolve_routes (c : ServerConfig) (routes : list ModelRouteConfig) (client_model : string)
    (allow_wildcards : bool) : option ResolvedRoute :=
  match routes with
  | [] => None
  | mr :: routes =>
      if is_wildcard mr && negb allow_wildcards then resolve_routes c routes client_model allow_wildcards
      else if glob_match (mr_pattern mr) client_model then
        match provider_names mr with
        | [] => resolve_routes c routes client_model allow_wildcards
        | names =>
            Some {| rt_provider_names := names;
                    rt_upstream_model := route_upstream c mr client_model;
                    rt_strategy := mr_strategy mr |}
        end
      else resolve_routes c routes client_model allow_wildcards
  end.

Definition resolve_provider_form (c : ServerConfig) (client_model : string) (allow_wildcards : bool)
  : option ResolvedRoute :=
  resolve_routes c (sc_model_routes c) client_model allow_wildcards.

Definition rebase_upstream (resolved : ResolvedRoute) (client_model bare_model : string) : ResolvedRoute :=
  if decide (rt_upstream_model resolved = client_model) then
    {| rt_provider_names := rt_provider_names resolved;
       rt_upstream_model := bare_model;
       rt_strategy := rt_strategy resolved |}
  else resolved.

(** The bare form of a model, when its prefix names a provider. *)
Definition known_bare (c : ServerConfig) (client_model : string) : option string :=
  '(prefix, bare) ← split_once "/" client_model;
  _ ← find_provider c prefix;
  Some bare.

Definition resolve_provider (c : ServerConfig) (client_model : string) : option ResolvedRoute :=
  match resolve_provider_form c client_model false with
  | Some resolved => Some resolved
  | None =>
      match bare ← known_bare c client_model;
            resolved ← resolve_provider_form c bare false;
            Some (rebase_upstream resolved client_model bare) with
      | Some resolved => Some resolved
      | None =>
          match resolve_provider_form c client_model true with
          | Some resolved =>
              Some (default resolved
                (bare ← known_bare c client_model;
                 bare_resolved ← resolve_provider_form c bare true;
                 Some (rebase_upstream bare_resolved client_model bare)))
          | None =>
              '(_, bare) ← split_once "/" client_model;
              resolve_provider_form c bare true
          end
      end
  end.
End resolve.

(** ** Validation *)

Definition str_of_index (i : nat) : string := pretty (Z.of_nat i).

Definition validate_provider (i : nat) (p : ProviderConfig) : list string :=
  (if is_some (pv_plugin p) && (is_some (pv_api p) || is_some (pv_wire p)) then
     ["providers[" +:+ str_of_index i +:+ "] (name=" +:+ dquote +:+ pv_name p +:+ dquote +:+
      "): `api`/`wire` must not be set together with `plugin` (the plugin decides the protocol per model)"]
   else []) ++
  (if is_some (pv_account p) && negb (match pv_accounts p with [] => true | _ => false end) then
     ["providers[" +:+ str_of_index i +:+ "] (name=" +:+ dquote +:+ pv_name p +:+ dquote +:+
      "): `account` and `accounts` cannot both be set — `account` is the single-account form of `accounts`; keep one"]
   else []).

Definition validate_route (c : ServerConfig) (i : nat) (mr : ModelRouteConfig) : list string :=
  let at_route :=
    "model_routes[" +:+ str_of_index i +:+ "] (pattern=" +:+ dquote +:+ mr_pattern mr +:+ dquote +:+ "): " in
  flat_map (fun name =>
    if bool_decide (name ∈ map pv_name (sc_providers c)) then []
    else [at_route +:+ "provider " +:+ dquote +:+ name +:+ dquote +:+ " not found"])
    (provider_names mr) ++
  match provider_names mr with [] => [at_route +:+ "no provider specified"] | _ => [] end.

Definition validate (c : ServerConfig) : list string :=
  concat (imap validate_provider (sc_providers c)) ++ concat (imap (validate_route c) (sc_model_routes c)).

(** [available_models]: [seen.insert(m)] and the push it guards. *)
Definition list_model (models : list string) (m : string) : list string :=
  if bool_decide (m ∈ models) then models else models ++ [m].

Definition available_models `{HashOrder} (c : ServerConfig) : list string :=
  let of_routes :=
    fold_left (fun models mr =>
      if negb (bool_decide (mr_pattern mr = "*")) && negb (str_in "*" (mr_pattern mr))
      then list_model models (mr_pattern mr) else models)
      (sc_model_routes c) [] in
  fold_left (fun models p =>
    fold_left (fun models '(m, _) => if decide (m = "*") then models else list_model models m)
      (hash_iter (pv_model_map p)) models)
    (sc_providers c) of_routes.

(** * Which providers and which model a request goes to *)

(** ** Routes *)

Definition live (mr : ModelRouteConfig) : Prop := provider_names mr <> [].
Definition serves (mr : ModelRouteConfig) (model : string) : Prop :=
  live mr /\ glob (mr_pattern mr) model.

(** A route that names its model outright. *)
Definition names_model (model : string) (mr : ModelRouteConfig) : Prop :=
  live mr /\ is_wildcard mr = false /\ mr_pattern mr = model.

Lemma glob_match_exact mr model :
  is_wildcard mr = false -> glob_match (mr_pattern mr) model = bool_decide (mr_pattern mr = model).
Proof.
  intros [Hs _]%orb_false_iff. unfold glob_match. rewrite Hs. case_decide as E; [|done].
  by rewrite E in Hs.
Qed.

Section resolve_routes.
Context `{HashOrder}.

Definition route_of (c : ServerConfig) (mr : ModelRouteConfig) (model : string) : ResolvedRoute :=
  {| rt_provider_names := provider_names mr;
     rt_upstream_model := route_upstream c mr model;
     rt_strategy := mr_strategy mr |}.

Lemma resolve_routes_some c routes model w r :
  resolve_routes c routes model w = Some r ->
  exists mr, mr ∈ routes /\ serves mr model /\ r = route_of c mr model.
Proof.
  induction routes as [|mr routes IH]; [done|]. cbn [resolve_routes]. intros E.
  assert ((exists mr', mr' ∈ routes /\ serves mr' model /\ r = route_of c mr' model) ->
          exists mr', mr' ∈ mr :: routes /\ serves mr' model /\ r = route_of c mr' model) as Hskip.
  { intros (mr' & Hin & Hs). exists mr'. split; [by right|done]. }
  destruct (is_wildcard mr && negb w); [by apply Hskip, IH|].
  destruct (glob_match (mr_pattern mr) model) eqn:Hg; [|by apply Hskip, IH].
  destruct (provider_names mr) as [|n ns] eqn:En; [by apply Hskip, IH|].
  injection E as <-. exists mr. split; [by left|]. unfold serves, live, route_of. rewrite En.
  split; [|done]. split; [done|]. by apply glob_match_spec.
Qed.

Lemma resolve_routes_none c routes model :
  resolve_routes c routes model true = None <-> forall mr, mr ∈ routes -> ~ serves mr model.
Proof.
  induction routes as [|mr routes IH]; cbn [resolve_routes].
  { split; [|done]. by intros _ mr Hin%elem_of_nil. }
  rewrite andb_false_r. setoid_rewrite elem_of_cons.
  destruct (glob_match (mr_pattern mr) model) eqn:Hg.
  - destruct (provider_names mr) as [|n ns] eqn:En.
    + rewrite IH. split; [|auto]. intros Hr mr' [->|Hin]; [by intros [Hl _]|auto].
    + split; [done|]. intros Hr. exfalso. apply (Hr mr); [auto|].
      split; [by unfold live; rewrite En|by apply glob_match_spec].
  - rewrite IH. split; [|auto]. intros Hr mr' [->|Hin]; [|auto].
    intros [_ Hm%glob_match_spec]. congruence.
Qed.
End resolve_routes.

Section resolve_named.
Context `{HashOrder}.

Lemma resolve_routes_named c l1 mr l2 model :
  Forall (fun mr => ~ names_model model mr) l1 -> names_model model mr ->
  resolve_routes c (l1 ++ mr :: l2) model false = Some (route_of c mr model).
Proof.
  intros Hl1 (Hlive & Hw & Hp). induction Hl1 as [|mr' l1 Hn _ IH]; cbn [resolve_routes app].
  - rewrite Hw, glob_match_exact, bool_decide_true by done. cbn [andb].
    unfold live, route_of in *. by destruct (provider_names mr).
  - rewrite IH, andb_true_r. destruct (is_wildcard mr') eqn:Hw'; [done|].
    rewrite glob_match_exact by done. case_bool_decide; [|done].
    destruct (provider_names mr') eqn:E; [done|]. exfalso. apply Hn.
    split_and!; [by unfold live; rewrite E|done|done].
Qed.

Lemma resolve_routes_unnamed c routes model :
  Forall (fun mr => ~ names_model model mr) routes -> resolve_routes c routes model false = None.
Proof.
  induction 1 as [|mr routes Hn _ IH]; [done|]. cbn [resolve_routes]. rewrite IH, andb_true_r.
  destruct (is_wildcard mr) eqn:Hw; [done|]. rewrite glob_match_exact by done. case_bool_decide; [|done].
  destruct (provider_names mr) eqn:E; [done|]. exfalso. apply Hn.
  split_and!; [by unfold live; rewrite E|done|done].
Qed.

Lemma resolve_routes_weaker c routes model :
  resolve_routes c routes model true = None -> resolve_routes c routes model false = None.
Proof.
  intros Hn. destruct (resolve_routes c routes model false) as [r|] eqn:E; [|done].
  apply resolve_routes_some in E as (mr & Hin & Hs & _).
  exfalso. by eapply resolve_routes_none.
Qed.

Lemma rebase_names r model bare :
  rt_provider_names (rebase_upstream r model bare) = rt_provider_names r /\
  rt_strategy (rebase_upstream r model bare) = rt_strategy r.
Proof. unfold rebase_upstream. by case_decide. Qed.

Lemma known_bare_some c model bare :
  known_bare c model = Some bare -> exists prefix, split_once "/" model = Some (prefix, bare).
Proof.
  unfold known_bare. destruct (split_once "/" model) as [[prefix b]|]; [|done]. cbn.
  destruct (find_provider c prefix); [|done]. cbn. intros [= <-]. eauto.
Qed.

(** What a resolved route may be: one the configuration has, for the model or
    for its bare form. *)
Definition route_for (c : ServerConfig) (model : string) (r : ResolvedRoute) : Prop :=
  exists mr, mr ∈ sc_model_routes c /\
    rt_provider_names r = provider_names mr /\ rt_strategy r = mr_strategy mr /\
    (serves mr model \/ exists prefix bare, split_once "/" model = Some (prefix, bare) /\ serves mr bare).

Lemma route_for_full c model w r :
  resolve_provider_form c model w = Some r -> route_for c model r.
Proof.
  intros (mr & Hin & Hs & ->)%resolve_routes_some. exists mr. split_and!; auto.
Qed.

Lemma route_for_bare c model prefix bare w r :
  split_once "/" model = Some (prefix, bare) ->
  resolve_provider_form c bare w = Some r -> route_for c model r.
Proof.
  intros Hsp (mr & Hin & Hs & ->)%resolve_routes_some. exists mr. split_and!; eauto 6.
Qed.

Lemma route_for_rebase c model bare r :
  route_for c model r -> route_for c model (rebase_upstream r model bare).
Proof.
  intros (mr & Hin & Hn & Hs & Hm). exists mr. destruct (rebase_names r model bare) as [-> ->]. auto.
Qed.

(** Routing is complete and invents nothing. A model is refused exactly
    when no route with a provider matches it, as it is or without what comes
    before its first slash; and a resolved route has the providers and the
    strategy of a configured route that matches. *)
Theorem resolve_provider_complete (c : ServerConfig) (model : string) :
  (resolve_provider c model = None <->
   forall mr, mr ∈ sc_model_routes c ->
     ~ serves mr model /\
     (forall prefix bare, split_once "/" model = Some (prefix, bare) -> ~ serves mr bare)) /\
  (forall r, resolve_provider c model = Some r -> route_for c model r).
Proof using Type.
  assert (forall r, resolve_provider c model = Some r -> route_for c model r) as Hs.
  { intros r. unfold resolve_provider.
    destruct (resolve_provider_form c model false) as [r1|] eqn:E1;
      [intros [= <-]; by eapply route_for_full|].
    destruct (known_bare c model) as [bare|] eqn:Eb; cbn -[resolve_provider_form].
    - pose proof (known_bare_some _ _ _ Eb) as [prefix Hsp].
      destruct (resolve_provider_form c bare false) as [r2|] eqn:E2.
      { intros [= <-]. eapply route_for_rebase, route_for_bare; done. }
      rewrite Hsp. destruct (resolve_provider_form c model true) as [r3|] eqn:E3; cbn;
        destruct (resolve_provider_form c bare true) as [r4|] eqn:E4; intros [= <-];
        eauto using route_for_full, route_for_bare, route_for_rebase.
    - destruct (resolve_provider_form c model true) as [r3|] eqn:E3;
        [intros [= <-]; by eapply route_for_full|].
      destruct (split_once "/" model) as [[prefix bare]|] eqn:Hsp; [|done]. cbn.
      eauto using route_for_bare. }
  split; [|done]. split.
  - intros Hn mr Hin. unfold resolve_provider in Hn.
    destruct (resolve_provider_form c model false); [done|].
    destruct (bare ← known_bare c model; _); [done|].
    destruct (resolve_provider_form c model true) eqn:E3; [done|].
    split; [by eapply resolve_routes_none|]. intros prefix bare Hsp. rewrite Hsp in Hn.
    by eapply resolve_routes_none.
  - intros Hn. destruct (resolve_provider c model) as [r|]; [|done].
    destruct (Hs r eq_refl) as (mr & Hin & _ & _ & Hm). destruct (Hn mr Hin) as [Hf Hb].
    naive_solver.
Qed.

(** A named route is never shadowed. The first route that names the model
    outright serves it, and so does the first that names it without the prefix
    of a configured provider, whatever wildcard routes, a catch-all included,
    stand before it; the upstream is then never asked for the prefixed name by
    passing it through. *)
Theorem resolve_provider_named (c : ServerConfig) (l1 l2 : list ModelRouteConfig)
  (mr : ModelRouteConfig) (model : string) :
  sc_model_routes c = l1 ++ mr :: l2 ->
  (Forall (fun mr => ~ names_model model mr) l1 -> names_model model mr ->
   resolve_provider c model = Some (route_of c mr model)) /\
  (forall prefix bare p, split_once "/" model = Some (prefix, bare) -> find_provider c prefix = Some p ->
   Forall (fun mr => ~ names_model model mr) (sc_model_routes c) ->
   Forall (fun mr => ~ names_model bare mr) l1 -> names_model bare mr ->
   exists r, resolve_provider c model = Some r /\
     rt_provider_names r = provider_names mr /\ rt_strategy r = mr_strategy mr /\
     rt_upstream_model r <> model /\
     (route_upstream c mr bare <> model -> rt_upstream_model r = route_upstream c mr bare)).
Proof using Type.
  intros Hr. split.
  - intros Hl1 Hm. unfold resolve_provider, resolve_provider_form.
    by rewrite Hr, resolve_routes_named.
  - intros prefix bare p Hsp Hp Hfull Hl1 Hm.
    assert (bare <> model) as Hne.
    { intros ->. apply split_once_Some in Hsp. apply (f_equal String.length) in Hsp.
      rewrite !length_app_str in Hsp. cbn in Hsp. lia. }
    unfold resolve_provider, resolve_provider_form, known_bare.
    rewrite resolve_routes_unnamed by done. rewrite Hsp. cbn. rewrite Hp. cbn.
    rewrite Hr, resolve_routes_named by done. eexists. split; [done|]. unfold rebase_upstream.
    case_decide; cbn in *; split_and!; done.
Qed.
End resolve_named.

(** ** Model maps *)

(** The patterns of a model map that apply to a model, the catch-all aside. *)
Definition applies (model : string) (entry : string * string) : bool :=
  negb (bool_decide (fst entry = "*")) && glob_match (fst entry) model.

Definition longest_of (model : string) (entries : list (string * string)) (best : option (string * string))
  : Prop :=
  match best with
  | None => Forall (fun e => applies model e = false) entries
  | Some b =>
      b ∈ entries /\ applies model b = true /\
      Forall (fun e => applies model e = true ->
                (String.length (fst e) <= String.length (fst b))%nat) entries
  end.

Lemma better_match_applies model best e :
  better_match model best e =
  if applies model e &&
     match best with
     | None => true
     | Some b => (String.length (fst b) <? String.length (fst e))%nat
     end
  then Some e else best.
Proof.
  destruct e as [pat target], best as [[p t]|]; unfold better_match, applies; cbn [fst];
    case_decide as Hp; rewrite ?(bool_decide_true _ Hp), ?(bool_decide_false _ Hp); done.
Qed.

Lemma better_match_longest model entries :
  longest_of model entries (fold_left (better_match model) entries None).
Proof.
  induction entries as [|e entries IH] using rev_ind; [constructor|].
  rewrite fold_left_app. cbn [fold_left]. rewrite better_match_applies.
  destruct (applies model e) eqn:Ha; cbn [andb];
    destruct (fold_left (better_match model) entries None) as [b|]; cbn [longest_of] in *.
  - destruct IH as (Hin & Hb & Hl). destruct (Nat.ltb_spec (String.length (fst b)) (String.length (fst e))).
    + split_and!; [apply elem_of_app; right; by apply list_elem_of_singleton|done|].
      apply list.Forall_app. split; [|by repeat constructor].
      apply (Forall_weaken _ _ _ Hl). intros e' He Hae. specialize (He Hae). lia.
    + split_and!; [apply elem_of_app; by left|done|].
      apply list.Forall_app. split; [done|]. repeat constructor. lia.
  - split_and!; [apply elem_of_app; right; by apply list_elem_of_singleton|done|].
    apply list.Forall_app. split; [|by repeat constructor].
    apply (Forall_weaken _ _ _ IH). cbn. congruence.
  - destruct IH as (Hin & Hb & Hl). split_and!; [apply elem_of_app; by left|done|].
    apply list.Forall_app. split; [done|]. repeat constructor. congruence.
  - apply list.Forall_app. by repeat constructor.
Qed.

Section model_map.
Context `{HashOrder} `{!HashOrderLaws}.

Lemma elem_of_hash_iter m k v : (k, v) ∈ hash_iter m <-> m !! k = Some v.
Proof using All. by rewrite (hash_iter_entries m), elem_of_map_to_list. Qed.

(** A pattern that applies and is longer than every other that does. *)
Definition wins (m : HashMap) (model pattern target : string) : Prop :=
  m !! pattern = Some target /\ applies model (pattern, target) = true /\
  forall pattern' target', m !! pattern' = Some target' -> applies model (pattern', target') = true ->
    pattern' <> pattern -> (String.length pattern' < String.length pattern)%nat.

(** The upstream model. An exact entry of the provider's model map wins
    over every pattern; otherwise the longest pattern that matches wins, in
    whatever order the hash map yields its entries, as long as it is the only
    one of its length; the catch-all answers only when no other pattern
    matches, and without it the model keeps its name. *)
Theorem resolve_model_longest (p : ProviderConfig) (model : string) :
  let m := pv_model_map p in
  (forall target, m !! model = Some target -> resolve_model p model = target) /\
  (m !! model = None ->
   (forall pattern target, wins m model pattern target -> resolve_model p model = target) /\
   ((forall pattern target, m !! pattern = Some target -> applies model (pattern, target) = false) ->
    resolve_model p model = default model (m !! "*"))).
Proof using All.
  intros m. unfold resolve_model. fold m. split; [by intros target ->|]. intros ->.
  pose proof (better_match_longest model (hash_iter m)) as Hb.
  destruct (fold_left (better_match model) (hash_iter m) None) as [[pat tgt]|]; cbn [longest_of] in Hb.
  - destruct Hb as (Hin%elem_of_hash_iter & Ha & Hl). split.
    + intros pattern target (Hp & Hap & Hw). destruct (decide (pattern = pat)) as [->|Hne]; [congruence|].
      specialize (Hw _ _ Hin Ha (not_eq_sym Hne)).
      rewrite Forall_forall in Hl. apply elem_of_hash_iter, list_elem_of_In in Hp. specialize (Hl _ Hp Hap). cbn in Hl. lia.
    + intros Hn. specialize (Hn _ _ Hin). congruence.
  - split; [|done]. intros pattern target (Hp & Hap & _).
    rewrite Forall_forall in Hb. apply elem_of_hash_iter, list_elem_of_In in Hp. specialize (Hb _ Hp). congruence.
Qed.
End model_map.

(** A finding about model maps. When two patterns of one length match, the
    upstream model depends on the order in which the hash map yields them,
    which Rust picks afresh for every map: here one model goes to either of
    two upstreams. *)
Definition tied_map : HashMap := {["claude-*" := "opus"; "*-sonnet" := "sonnet"]}.

Lemma resolve_model_tied (p : ProviderConfig) :
  pv_model_map p = tied_map ->
  exists o1 o2, @HashOrderLaws o1 /\ @HashOrderLaws o2 /\
    @resolve_model o1 p "claude-4-sonnet" = "opus" /\ @resolve_model o2 p "claude-4-sonnet" = "sonnet".
Proof.
  intros Hm. unfold resolve_model. rewrite Hm.
  exists (fun m => if decide (m = tied_map) then [("claude-*", "opus"); ("*-sonnet", "sonnet")] else map_to_list m),
         (fun m => if decide (m = tied_map) then [("*-sonnet", "sonnet"); ("claude-*", "opus")] else map_to_list m).
  assert (Permutation (map_to_list tied_map) [("claude-*", "opus"); ("*-sonnet", "sonnet")]) as Hp.
  { unfold tied_map. rewrite map_to_list_insert, map_to_list_singleton; [done|]. by apply lookup_singleton_ne. }
  split_and!.
  - intros m. unfold hash_iter. case_decide; [subst; by rewrite Hp|done].
  - intros m. unfold hash_iter. case_decide; [subst; rewrite Hp; apply perm_swap|done].
  - unfold hash_iter. rewrite decide_True by done. vm_compute. done.
  - unfold hash_iter. rewrite decide_True by done. vm_compute. done.
Qed.

(** ** Accounts *)

Lemma keep_ids_spec source ids :
  NoDup ids -> "" ∉ ids ->
  NoDup (fold_left keep_id source ids) /\ ("" ∉ fold_left keep_id source ids) /\
  (forall id, id ∈ fold_left keep_id source ids <-> id ∈ ids \/ (id ∈ source /\ id <> "")).
Proof.
  revert ids. induction source as [|s source IH]; intros ids Hd He; cbn [fold_left].
  { split_and!; [done..|]. intros id. rewrite elem_of_nil. naive_solver. }
  assert (NoDup (keep_id ids s) /\ ("" ∉ keep_id ids s) /\
          (forall id, id ∈ keep_id ids s <-> id ∈ ids \/ (id = s /\ id <> ""))) as (Hd' & He' & Hk).
  { unfold keep_id. destruct s as [|c s]; cbn [is_empty negb andb]; [naive_solver|].
    case_bool_decide as Hin; cbn [negb]; [naive_solver|]. split_and!.
    - apply list.NoDup_app. split_and!; [done| |apply NoDup_singleton].
      intros x Hx ->%list_elem_of_singleton. done.
    - rewrite elem_of_app, list_elem_of_singleton. naive_solver.
    - intros id. rewrite elem_of_app, list_elem_of_singleton. naive_solver. }
  destruct (IH _ Hd' He') as (H1 & H2 & H3). split_and!; [done..|]. intros id.
  rewrite H3, Hk, elem_of_cons. naive_solver.
Qed.

Lemma account_ids_spec p :
  NoDup (account_ids p) /\ ("" ∉ account_ids p) /\
  (forall id, id ∈ account_ids p <->
     id <> "" /\ (id ∈ pv_accounts p \/ (pv_accounts p = [] /\ pv_account p = Some id))).
Proof.
  destruct (keep_ids_spec
    match pv_accounts p with
    | _ :: _ => pv_accounts p
    | [] => match pv_account p with Some account => [account] | None => [] end
    end [] (NoDup_nil_2) (not_elem_of_nil _)) as (H1 & H2 & H3).
  split_and!; [done..|]. intros id. unfold account_ids. rewrite H3, elem_of_nil.
  destruct (pv_accounts p) as [|a l] eqn:E; [|naive_solver].
  destruct (pv_account p) as [acc|]; rewrite ?list_elem_of_singleton, ?elem_of_nil; split.
  - intros [?|[-> ?]]; [done|]. auto.
  - intros [? [?|[_ [= ->]]]]; auto.
  - by intros [?|[]].
  - by intros [? [?|[_ ?]]].
Qed.

(** ** A configuration with a catch-all before a named route *)

#[export] Instance sample_hash : HashOrder := map_to_list.
#[export] Instance sample_hash_laws : HashOrderLaws.
Proof. by intros m. Qed.

Definition sample_provider (name : string) (accounts : list string) (models : HashMap) : ProviderConfig :=
  {| pv_name := name; pv_format := OpenAIChat; pv_base_url := "https://" +:+ name; pv_api_key := "k";
     pv_account := None; pv_accounts := accounts; pv_api := None; pv_wire := None; pv_model_map := models;
     pv_endpoints := {| pe_path := None; pe_stream_path := None |};
     pv_auth := {| pa_scheme := None; pa_headers := ∅ |}; pv_plugin := None; pv_proxy := None |}.

Definition sample_route (pattern : string) (providers : list string) : ModelRouteConfig :=
  {| mr_pattern := pattern; mr_provider := None; mr_providers := providers;
     mr_upstream_model := None; mr_strategy := Priority |}.

Definition sample_config : ServerConfig :=
  {| sc_server :=
       {| ss_host := "127.0.0.1"; ss_port := 1228; ss_api_key := None;
          ss_pass_through_headers := {| pt_mode := Allow; pt_allow := []; pt_deny := [] |};
          ss_proxy := None |};
     sc_providers :=
       [sample_provider "openai" [] ∅;
        sample_provider "deepseek" [] {["deepseek-*" := "v3"; "deepseek-chat-*" := "v3-chat"]}];
     sc_model_routes := [sample_route "*" ["openai"]; sample_route "deepseek-chat" ["deepseek"; "openai"]] |}.

Lemma resolve_provider_complete_witness :
  exists r, resolve_provider sample_config "gpt-5" = Some r /\ route_for sample_config "gpt-5" r.
Proof.
  eexists. split; [vm_compute; reflexivity|].
  apply (proj2 (resolve_provider_complete sample_config "gpt-5")). vm_compute. reflexivity.
Defined.

Lemma resolve_provider_named_witness :
  exists r, resolve_provider sample_config "deepseek/deepseek-chat" = Some r /\
    rt_provider_names r = ["deepseek"; "openai"] /\ rt_upstream_model r = "v3".
Proof.
  destruct (proj2 (resolve_provider_named sample_config [sample_route "*" ["openai"]] []
    (sample_route "deepseek-chat" ["deepseek"; "openai"]) "deepseek/deepseek-chat" eq_refl)
    "deepseek" "deepseek-chat" (sample_provider "deepseek" [] {["deepseek-*" := "v3"; "deepseek-chat-*" := "v3-chat"]}))
    as (r & E & Hn & _ & _ & Hu).
  - reflexivity.
  - reflexivity.
  - repeat (apply List.Forall_cons; [intros (_ & Hw & Hp); discriminate|]). apply List.Forall_nil.
  - repeat (apply List.Forall_cons; [intros (_ & Hw & Hp); discriminate|]). apply List.Forall_nil.
  - split_and!; [discriminate|reflexivity|reflexivity].
  - exists r. split; [exact E|]. split; [exact Hn|]. rewrite Hu; vm_compute; [reflexivity|discriminate].
Defined.

Lemma resolve_model_longest_witness :
  resolve_model (sample_provider "deepseek" [] {["deepseek-*" := "v3"; "deepseek-chat-*" := "v3-chat"]})
    "deepseek-chat-0324" = "v3-chat".
Proof.
  assert (pv_model_map (sample_provider "deepseek" [] {["deepseek-*" := "v3"; "deepseek-chat-*" := "v3-chat"]})
          !! "deepseek-chat-0324" = None) as Hn by (vm_compute; reflexivity).
  apply (proj1 (proj2 (resolve_model_longest
    (sample_provider "deepseek" [] {["deepseek-*" := "v3"; "deepseek-chat-*" := "v3-chat"]})
    "deepseek-chat-0324") Hn) "deepseek-chat-*" "v3-chat").
  split_and!; [vm_compute; reflexivity|vm_compute; reflexivity|].
  intros pattern' target' Hp _ Hne. cbn [pv_model_map sample_provider] in Hp.
  apply lookup_insert_Some in Hp as [[<- <-]|[_ Hp%lookup_singleton_Some]]; [cbn; lia|].
  destruct Hp as [<- <-]. contradiction.
Defined.
