(* ===== verification/Routing.v ===== *)
(** * Paths, bodies and the order of providers

    The pure parts of the server around a request: router.rs (which format a
    path is), model.rs (the model in a body), wire.rs (Code Assist's
    envelope), route_strategy.rs and provider_pool.rs (in which order
    providers and their accounts are tried), credentials/allowance.rs (when an
    account is past its quota), and the URLs of proxy.rs. *)
From Stdlib Require Import ZArith Lia Floats.SpecFloat.
From S2P Require Import Prelude.
From S2P Require Import RustStd.
From S2P Require Import Json.
From S2P Require Import Format.
From S2P Require Import Config.

Local Open Scope Z_scope.

(** ** Paths *)

Record RouteInfo := { client_format : Format; path_streaming : bool }.
#[export] Instance RouteInfo_eq_dec : EqDecision RouteInfo.
Proof. solve_decision. Defined.

Definition parse_gemini_path (path : string) : option RouteInfo :=
  rest ← strip_prefix "/v1beta/models/" path;
  if ends_with ":streamGenerateContent" rest then
    Some {| client_format := Gemini; path_streaming := true |}
  else if ends_with ":generateContent" rest then
    Some {| client_format := Gemini; path_streaming := false |}
  else None.

Definition detect_format_from_path (path : string) : option RouteInfo :=
  if bool_decide (path = "/v1/chat/completions") || bool_decide (path = "/chat/completions") then
    Some {| client_format := OpenAIChat; path_streaming := false |}
  else if bool_decide (path = "/v1/messages") || bool_decide (path = "/messages") then
    Some {| client_format := Claude; path_streaming := false |}
  else if bool_decide (path = "/v1/responses") || bool_decide (path = "/responses") then
    Some {| client_format := OpenAIResponses; path_streaming := false |}
  else if starts_with "/v1beta/models/" path then parse_gemini_path path
  else None.

Definition parse_gemini_model_action (model_action : string) : option (string * bool) :=
  match strip_suffix ":streamGenerateContent" model_action with
  | Some model => Some (model, true)
  | None => (fun model => (model, false)) <$> strip_suffix ":generateContent" model_action
  end.

Definition extract_gemini_model (path : string) : option string :=
  rest ← strip_prefix "/v1beta/models/" path;
  match strip_suffix ":streamGenerateContent" rest with
  | Some model => Some model
  | None => strip_suffix ":generateContent" rest
  end.

Definition path_for_route (route_info : RouteInfo) (model : string) : string :=
  match client_format route_info with
  | OpenAIChat => "/v1/chat/completions"
  | Claude => "/v1/messages"
  | OpenAIResponses => "/v1/responses"
  | Gemini =>
      if path_streaming route_info then "/v1beta/models/" +:+ model +:+ ":streamGenerateContent"
      else "/v1beta/models/" +:+ model +:+ ":generateContent"
  end.

(** ** Upstream URLs *)

Definition build_upstream_url (format : Format) (base_url model : string) (streaming : bool) : string :=
  let base := trim_end_matches "/" base_url in
  match format with
  | OpenAIChat => base +:+ "/v1/chat/completions"
  | Claude => base +:+ "/v1/messages"
  | OpenAIResponses => base +:+ "/v1/responses"
  | Gemini =>
      if streaming then base +:+ "/v1beta/models/" +:+ model +:+ ":streamGenerateContent"
      else base +:+ "/v1beta/models/" +:+ model +:+ ":generateContent"
  end.

Definition join_base_and_path (base_url path : string) : string :=
  if starts_with "http://" path || starts_with "https://" path then path
  else
    let base := trim_end_matches "/" base_url in
    if starts_with "/" path then base +:+ path else base +:+ "/" +:+ path.

Definition build_upstream_url_for_provider (provider : ProviderConfig) (model : string) (streaming : bool)
  : string :=
  let custom_path :=
    if streaming then
      match pe_stream_path (pv_endpoints provider) with
      | Some path => Some path
      | None => pe_path (pv_endpoints provider)
      end
    else pe_path (pv_endpoints provider) in
  match custom_path with
  | Some path => join_base_and_path (pv_base_url provider) (replace "{model}" model path)
  | None => build_upstream_url (pv_format provider) (pv_base_url provider) model streaming
  end.

(** wire.rs's [build_url]. *)
Definition build_url (api : UpstreamApi) (base_url model : string) (streaming : bool) : string :=
  trim_end_matches "/" base_url +:+ path api model streaming.

(** ** Bodies *)

Section bodies.
Context `{SerdeJson}.

Definition strip_private_fields (body : string) : string :=
  match value_from_str body with
  | Ok val =>
      let val :=
        match val with
        | VObject m => VObject (filter (fun kv => starts_with "_" kv.1 = false) m)
        | _ => val
        end in
      unwrap_or_r body (serde_to_string val)
  | Err _ => body
  end.

Definition extract_model_from_body (body : string) : option string :=
  v ← ok (value_from_str body);
  value_str "model" v.

(** [value[k] = v]: serde_json's [IndexMut] adds the key to an object, makes
    an object of [null], and panics on anything else ([None]). *)
Definition index_set (k : string) (v value : Value) : option Value :=
  match value with
  | VObject m => Some (VObject (map_insert k v m))
  | VNull => Some (VObject [(k, v)])
  | _ => None
  end.

(** [None] is a panic; the body is the new one, or the one it was when
    serde_json fails. *)
Definition patch_model_in_body (body : string) (format : Format) (model : string)
  : option (result string unit * string) :=
  match value_from_str body with
  | Err e => Some (Err e, body)
  | Ok value =>
      value ←
        match format with
        | Gemini =>
            if is_some (get_key "model" value) then index_set "model" (str model) value else Some value
        | _ => index_set "model" (str model) value
        end;
      Some match serde_to_string value with
           | Ok bytes => (Ok tt, bytes)
           | Err e => (Err e, body)
           end
  end.

Definition is_streaming_request (body : string) (route_info : RouteInfo) : bool :=
  if path_streaming route_info then true
  else default false (v ← ok (value_from_str body); get_key "stream" v ≫= as_bool).

(** The envelope of Code Assist. *)
Definition wrap_code_assist (gemini_body model : string) : result string string :=
  request ← map_err (fun e => "request body is not valid JSON: " +:+ e) (value_from_str gemini_body);
  serde_to_string (obj [("model", str model); ("request", request)]).

Definition unwrap_code_assist (payload : string) : result string string :=
  match value_from_str payload with
  | Err _ => Ok payload
  | Ok value =>
      match get_key "response" value with
      | None => Ok payload
      | Some inner => serde_to_string inner
      end
  end.
End bodies.

(** ** The order of providers

    [ROUND_ROBIN_COUNTER] is one atomic [u64] for the whole process; a call
    reads it and adds one to it. *)
Definition order_provider_names (provider_names : list string) (strategy : RouteStrategy) (counter : Z)
  : list string * Z :=
  if (length provider_names <=? 1)%nat || bool_decide (strategy = Priority) then (provider_names, counter)
  else
    let start := Z.to_nat (counter mod Z.of_nat (length provider_names)) in
    (drop start provider_names ++ take start provider_names, u64_add counter 1).

(** ** The order of a provider's accounts

    [Orders] is the content of account-order.json, empty when the file is
    missing or does not parse. [save_order] returns what it writes there. *)
Abbreviation Orders := (list (string * list string)).

Fixpoint check_order (provider : string) (ids seen : list string) : result string unit :=
  match ids with
  | [] => Ok tt
  | id :: ids =>
      match split_once ":" id with
      | Some (prefix, _) =>
          if decide (prefix = provider) then
            if decide (id ∈ seen) then Err (id +:+ " is listed twice")
            else check_order provider ids (id :: seen)
          else Err (id +:+ " is not an account of " +:+ provider)
      | None => Err (id +:+ " is not an account of " +:+ provider)
      end
  end.

Definition save_order (orders : Orders) (provider : string) (ids : list string) : result string Orders :=
  _ ← check_order provider ids [];
  Ok (map_insert provider ids orders).

Definition saved_order (orders : Orders) (provider : string) : option (list string) := map_get provider orders.

Definition apply_order (ids : list string) (saved : option (list string)) : list string :=
  match saved with
  | None => ids
  | Some saved =>
      fold_left (fun out id => if decide (id ∈ out) then out else out ++ [id]) ids
        (filter (fun id => id ∈ ids) saved)
  end.

(** ** Quota

    A window's use is an [f64], a percentage; a [SystemTime] is a number of
    seconds. *)
Record Limit := {
  lm_used : spec_float;
  lm_resets : option Z;
  lm_span : Z;
  lm_model : option string
}.

Definition counts (limit : Limit) (model : string) : bool :=
  match lm_model limit with Some word => contains word model | None => true end.

Definition used_now (limit : Limit) (now : Z) : spec_float :=
  match lm_resets limit with
  | Some resets => if resets <=? now then S754_zero false else lm_used limit
  | None => lm_used limit
  end.

Definition Allowance : Type := list Limit.

Definition for_model (allowance : Allowance) (model : string) : list Limit :=
  filter (fun limit => counts limit model = true) allowance.

Definition exhausted (allowance : Allowance) (model : string) (share : spec_float) (now : Z) : bool :=
  match for_model allowance model with
  | [] => false
  | windows => any (fun limit => SFleb share (used_now limit now)) windows
  end.

Definition order_accounts (ids : list string) (allowances : string -> option Allowance) (model : string)
    (share : spec_float) (now : Z) : list string :=
  let step '(room, spent) id :=
    if match allowances id with Some allowance => exhausted allowance model share now | None => false end
    then (room, spent ++ [id]) else (room ++ [id], spent) in
  let '(room, spent) := fold_left step ids ([], []) in
  room ++ spent.

(** * What the server promises about paths, bodies and orders *)
From S2P Require Import Concrete.

Local Open Scope Z_scope.

(** ** Paths *)

Lemma not_stream_suffix s : strip_suffix ":streamGenerateContent" (s +:+ ":generateContent") = None.
Proof. unfold strip_suffix. by rewrite rev_app_str. Qed.

Lemma parse_action_model s (streaming : bool) :
  parse_gemini_model_action
    (s +:+ if streaming then ":streamGenerateContent" else ":generateContent") = Some (s, streaming).
Proof.
  unfold parse_gemini_model_action. destruct streaming; [by rewrite strip_suffix_app|].
  by rewrite not_stream_suffix, strip_suffix_app.
Qed.

Lemma detect_gemini_path action :
  detect_format_from_path ("/v1beta/models/" +:+ action) =
  (fun '(_, s) => {| client_format := Gemini; path_streaming := s |}) <$> parse_gemini_model_action action.
Proof.
  unfold detect_format_from_path. rewrite !bool_decide_false by (intros H; discriminate H). cbn [orb].
  rewrite starts_with_app. unfold parse_gemini_path. rewrite strip_prefix_app. cbn [mbind option_bind].
  unfold ends_with, parse_gemini_model_action.
  destruct (strip_suffix ":streamGenerateContent" action); [done|]. cbn [is_some].
  by destruct (strip_suffix ":generateContent" action).
Qed.

Lemma extract_gemini_path action :
  extract_gemini_model ("/v1beta/models/" +:+ action) = fst <$> parse_gemini_model_action action.
Proof.
  unfold extract_gemini_model, parse_gemini_model_action. rewrite strip_prefix_app. cbn [mbind option_bind].
  destruct (strip_suffix ":streamGenerateContent" action); [done|].
  by destruct (strip_suffix ":generateContent" action).
Qed.

(** Paths say what was asked. The path of a route, which is where its
    requests arrive and what the log records, is detected as that route,
    streaming included, and gives the model back, whatever characters the
    model has; the router's pattern and the path parsers agree on every path;
    and a URL built for an API ends in the path of its format, so for every API
    but Code Assist the two URL builders agree. *)
Theorem route_path_roundtrip (route : RouteInfo) (model action base : string) (api : UpstreamApi)
  (streaming : bool) :
  (path_streaming route = true -> client_format route = Gemini) ->
  detect_format_from_path (path_for_route route model) = Some route /\
  (client_format route = Gemini -> extract_gemini_model (path_for_route route model) = Some model) /\
  (fun r => (client_format r, path_streaming r)) <$> detect_format_from_path ("/v1beta/models/" +:+ action) =
    (fun '(_, s) => (Gemini, s)) <$> parse_gemini_model_action action /\
  extract_gemini_model ("/v1beta/models/" +:+ action) = fst <$> parse_gemini_model_action action /\
  (api <> CodeAssist -> build_url api base model streaming = build_upstream_url (to_format api) base model streaming) /\
  build_url (from_format (client_format route)) base model (path_streaming route) =
    trim_end_matches "/" base +:+ path_for_route route model.
Proof.
  intros Hs. destruct route as [f s]. unfold path_for_route. cbn [client_format path_streaming] in *.
  pose proof (parse_action_model model s) as Hp. split_and!.
  - destruct f; try (destruct s; [by specialize (Hs eq_refl)|reflexivity]).
    destruct s; by rewrite detect_gemini_path, Hp.
  - intros ->. destruct s; by rewrite extract_gemini_path, Hp.
  - rewrite detect_gemini_path. by destruct (parse_gemini_model_action action) as [[]|].
  - apply extract_gemini_path.
  - unfold build_url, build_upstream_url. intros Hc. destruct api, streaming; done.
  - unfold build_url. destruct f, s; done.
Qed.

Lemma route_path_roundtrip_witness :
  detect_format_from_path "/v1beta/models/models/gemini:v3:streamGenerateContent" =
  Some {| client_format := Gemini; path_streaming := true |}.
Proof.
  apply (route_path_roundtrip {| client_format := Gemini; path_streaming := true |} "models/gemini:v3" "x" "b"
           Chat false).
  reflexivity.
Defined.

(** ** Bodies *)

Section bodies.
Context `{SerdeJson} `{!SerdeJsonLaws}.

Lemma to_string_from m :
  wf_value (VObject m) = true -> value_from_str (value_to_string (VObject m)) = Ok (VObject m).
Proof using All. apply value_from_to_string. Qed.

(** The upstream is asked for the resolved model. Patching an object's
    body never panics or fails; what it writes has that model, and every other
    field as it was. A Gemini body without a model field, whose model is in
    the URL, is left without one. Without it, extracting the model of a body
    gives the field as written. *)
Theorem patch_model_spec (m : Map) (format : Format) (model : string) :
  wf_value (VObject m) = true ->
  exists m', patch_model_in_body (value_to_string (VObject m)) format model =
      Some (Ok tt, value_to_string (VObject m')) /\
    wf_value (VObject m') = true /\
    (forall k, k <> "model" -> map_get k m' = map_get k m) /\
    extract_model_from_body (value_to_string (VObject m')) =
      if decide (format = Gemini /\ map_get "model" m = None) then None else Some model.
Proof using All.
  intros Hm. unfold patch_model_in_body, extract_model_from_body. rewrite to_string_from by done.
  set (m' := map_insert "model" (str model) m).
  assert (wf_value (VObject m') = true) as Hm' by by apply wf_map_insert.
  assert (forall k, k <> "model" -> map_get k m' = map_get k m) as Hk.
  { intros k Hne. unfold m'. by rewrite map_get_insert, decide_False. }
  assert (value_str "model" (VObject m') = Some model) as Hg.
  { unfold value_str, m'. cbn [get_key]. by rewrite map_get_insert. }
  destruct (decide (format = Gemini /\ map_get "model" m = None)) as [[-> Hn]|Hd].
  - exists m. cbn [get_key]. rewrite Hn. cbn. rewrite serde_to_string_display, to_string_from by done.
    split_and!; try done. cbn. unfold value_str. cbn. by rewrite Hn.
  - exists m'.
    assert (forall r, (Some (VObject m') ≫= fun value => Some match serde_to_string value with
                        | Ok bytes => (Ok tt, bytes) | Err e => (Err e, r) end)
                      = Some (@Ok string unit tt, value_to_string (VObject m'))) as E
      by (intros r; cbn; by rewrite serde_to_string_display).
    rewrite to_string_from by done. cbn [ok mbind option_bind]. rewrite Hg. split_and!; try done.
    cbn [index_set]. fold m'. destruct format; try apply E. cbn [get_key].
    destruct (map_get "model" m); [apply E|naive_solver].
Qed.

(** Code Assist's envelope. A reply in the envelope is unwrapped to what
    the inner value prints; a request is wrapped with its model, whole; and
    what is not JSON, or has no [response] field, passes through byte for
    byte. *)
Theorem code_assist_envelope (inner body : Value) (model payload : string) :
  wf_value inner = true -> wf_value body = true ->
  unwrap_code_assist (value_to_string (obj [("response", inner)])) = Ok (value_to_string inner) /\
  wrap_code_assist (value_to_string body) model =
    Ok (value_to_string (obj [("model", str model); ("request", body)])) /\
  ((forall v, value_from_str payload = Ok v -> get_key "response" v = None) ->
   unwrap_code_assist payload = Ok payload).
Proof using All.
  intros Hi Hb. split_and!.
  - unfold unwrap_code_assist. rewrite value_from_to_string.
    + cbn. apply serde_to_string_display.
    + apply wf_obj. cbn. by rewrite Hi.
  - unfold wrap_code_assist. rewrite value_from_to_string by done. cbn. apply serde_to_string_display.
  - unfold unwrap_code_assist. destruct (value_from_str payload) as [v|]; [|done].
    intros Hn. by rewrite (Hn v).
Qed.
End bodies.

Lemma patch_model_spec_witness :
  exists m', @patch_model_in_body binary_json (value_to_string (VObject [("model", str "a/b"); ("n", num 1)])) OpenAIChat "b" =
      Some (Ok tt, value_to_string (VObject m')) /\
    wf_value (VObject m') = true /\
    (forall k, k <> "model" -> map_get k m' = map_get k [("model", str "a/b"); ("n", num 1)]) /\
    extract_model_from_body (value_to_string (VObject m')) = Some "b".
Proof.
  apply (@patch_model_spec binary_json binary_json_laws [("model", str "a/b"); ("n", num 1)] OpenAIChat "b").
  reflexivity.
Defined.

Lemma code_assist_envelope_witness :
  @unwrap_code_assist binary_json (value_to_string (obj [("response", num 1)])) = Ok (value_to_string (num 1)).
Proof.
  apply (@code_assist_envelope binary_json binary_json_laws (num 1) VNull "m" ""); reflexivity.
Defined.

(** ** The order of providers *)

(** Which provider each of [n] requests on one round-robin route tries first. *)
Fixpoint turns (n : nat) (names : list string) (counter : Z) : list (option string) :=
  match n with
  | O => []
  | S n =>
      let '(order, counter) := order_provider_names names RoundRobin counter in
      head order :: turns n names counter
  end.

Lemma order_permutation names strategy counter :
  Permutation (fst (order_provider_names names strategy counter)) names.
Proof.
  unfold order_provider_names. destruct (_ || _); [done|]. cbn [fst].
  rewrite Permutation_app_comm. by rewrite take_drop.
Qed.

Section round_robin.
Context (names : list string) (Hmany : (2 <= length names)%nat).

Lemma order_round_robin counter :
  0 <= counter < u64_max ->
  order_provider_names names RoundRobin counter =
  (let s := Z.to_nat (counter mod Z.of_nat (length names)) in drop s names ++ take s names, counter + 1).
Proof using All.
  intros Hc. unfold order_provider_names. rewrite bool_decide_false by done.
  destruct (Nat.leb_spec (length names) 1); [lia|]. cbn [orb]. f_equal. unfold u64_max in *.
  apply u64_add_exact; unfold u64_max; lia.
Qed.

Lemma head_rotation s :
  (s < length names)%nat -> head (drop s names ++ take s names) = names !! s.
Proof using Type.
  intros Hs. destruct (lookup_lt_is_Some_2 names s Hs) as [x Hx].
  by rewrite (drop_S _ _ _ Hx).
Qed.

Lemma turns_lookup n counter :
  0 <= counter -> counter + Z.of_nat n <= u64_max ->
  turns n names counter =
  map (fun i => names !! Z.to_nat ((counter + Z.of_nat i) mod Z.of_nat (length names))) (seq 0 n).
Proof using All.
  revert counter. induction n as [|n IH]; intros c Hc Hn; [done|].
  cbn [turns]. rewrite order_round_robin by lia. cbn zeta iota beta.
  rewrite IH by lia. cbn [seq map]. rewrite head_rotation, Z.add_0_r.
  - f_equal. rewrite <-seq_shift, map_map. apply map_ext. intros i. do 3 f_equal. lia.
  - pose proof (Z.mod_pos_bound c (Z.of_nat (length names))). lia.
Qed.

Lemma turns_app n m counter :
  0 <= counter -> counter + Z.of_nat (n + m) <= u64_max ->
  turns (n + m) names counter = turns n names counter ++ turns m names (counter + Z.of_nat n).
Proof using All.
  revert counter. induction n as [|n IH]; intros c Hc Hn; cbn [turns Nat.add app].
  { by rewrite Z.add_0_r. }
  rewrite order_round_robin by lia. cbn zeta iota beta. rewrite IH by lia. cbn [app].
  by replace (c + 1 + Z.of_nat n) with (c + Z.of_nat (S n)) by lia.
Qed.

Lemma map_seq_shift {A} (f : nat -> A) a b n :
  map f (seq (a + b) n) = map (fun i => f (a + i)%nat) (seq b n).
Proof using Type.
  revert b. induction n as [|n IH]; intros b; [done|]. cbn [seq map].
  by rewrite <-IH, Nat.add_succ_r.
Qed.

Lemma map_lookup_seq (l : list string) : map (fun i => l !! i) (seq 0 (length l)) = map Some l.
Proof using Type.
  induction l as [|x l IH]; [done|]. cbn [length seq map]. f_equal. rewrite <-IH.
  change (seq 1 (length l)) with (seq (1 + 0) (length l)). by rewrite map_seq_shift.
Qed.

Lemma rotate_index counter i (L := length names) (s := Z.to_nat (counter mod Z.of_nat L)) :
  (i < L)%nat ->
  Z.to_nat ((counter + Z.of_nat i) mod Z.of_nat L) =
  if (i <? L - s)%nat then (s + i)%nat else (i - (L - s))%nat.
Proof using Hmany.
  intros Hi. pose proof (Z.mod_pos_bound counter (Z.of_nat L) ltac:(lia)) as Hs.
  rewrite <-Z.add_mod_idemp_l by lia. subst s. destruct (Nat.ltb_spec i (L - Z.to_nat (counter mod Z.of_nat L))).
  - rewrite Z.mod_small by lia. lia.
  - replace (counter mod Z.of_nat L + Z.of_nat i) with (counter mod Z.of_nat L + Z.of_nat i - Z.of_nat L + 1 * Z.of_nat L) by lia.
    rewrite Z.mod_add, Z.mod_small by lia. lia.
Qed.

(** One round: every provider is first once. *)
Lemma turns_round counter :
  0 <= counter -> counter + Z.of_nat (length names) <= u64_max ->
  Permutation (turns (length names) names counter) (map Some names).
Proof using All.
  intros Hc Hn. rewrite turns_lookup by lia.
  set (L := length names) in *. pose proof (Z.mod_pos_bound counter (Z.of_nat L) ltac:(lia)) as Hs.
  set (s := Z.to_nat (counter mod Z.of_nat L)).
  assert (map (fun i => names !! Z.to_nat ((counter + Z.of_nat i) mod Z.of_nat L)) (seq 0 L) =
          map (fun i => names !! i) (seq s (L - s) ++ seq 0 s)) as ->.
  { rewrite (map_ext_in _ (fun i => names !! (if (i <? L - s)%nat then (s + i)%nat else (i - (L - s))%nat)))
      by (intros i [_ Hi]%in_seq; unfold s; by rewrite <-rotate_index by done).
    replace (seq 0 L) with (seq 0 (L - s) ++ seq (L - s + 0) s) by (rewrite Nat.add_0_r, <-seq_app; f_equal; lia).
    rewrite !map_app, map_seq_shift. f_equal.
    - rewrite <-(Nat.add_0_r s) at 2. rewrite map_seq_shift. apply map_ext_in.
      intros i [_ Hi]%in_seq. by destruct (Nat.ltb_spec i (L - s)); [|lia].
    - apply map_ext_in. intros i [_ Hi]%in_seq.
      destruct (Nat.ltb_spec (L - s + i) (L - s)); [lia|]. f_equal. lia. }
  rewrite map_app, Permutation_app_comm, <-map_app, <-seq_app.
  replace (s + (L - s))%nat with L by lia. by rewrite map_lookup_seq.
Qed.
End round_robin.

(** C27: round robin is fair and drops nobody. Each request's order is a
    permutation of the route's providers, so failover can reach all of them;
    and of [k] times as many requests in a row as there are providers, each
    provider is tried first by [k], as long as the counter does not wrap. With
    the priority strategy the order is the configured one. *)
Theorem round_robin_fair (names : list string) (strategy : RouteStrategy) (counter : Z) (k : nat) :
  0 <= counter -> counter + Z.of_nat (k * length names) <= u64_max ->
  Permutation (fst (order_provider_names names strategy counter)) names /\
  order_provider_names names Priority counter = (names, counter) /\
  Permutation (turns (k * length names) names counter) (concat (replicate k (map Some names))).
Proof.
  intros Hc Hk. split_and!; [apply order_permutation|by unfold order_provider_names; rewrite orb_true_r|].
  destruct (decide (2 <= length names)%nat) as [Hmany|Hfew].
  - revert counter Hc Hk. induction k as [|k IH]; intros c Hc Hk; [done|]. cbn [Nat.mul replicate concat] in *.
    rewrite turns_app, turns_round, IH by lia. done.
  - assert (order_provider_names names RoundRobin counter = (names, counter)) as E.
    { unfold order_provider_names. destruct (Nat.leb_spec (length names) 1); [done|lia]. }
    assert (turns (k * length names) names counter = concat (replicate k (map Some names))) as ->; [|done].
    clear Hk. destruct names as [|x [|y names]]; [|clear Hfew|cbn in Hfew; lia].
    { rewrite Nat.mul_0_r. by induction k. }
    cbn [length]. rewrite Nat.mul_1_r. induction k as [|k IH]; [done|]. cbn [turns]. by rewrite E, IH.
Qed.

Lemma round_robin_fair_witness :
  Permutation (turns 4 ["a"; "b"] 7) [Some "a"; Some "b"; Some "a"; Some "b"].
Proof. apply (round_robin_fair ["a"; "b"] RoundRobin 7 2); vm_compute; discriminate. Defined.

(** A finding about the shared counter. The counter counts the requests of
    every round-robin route together: when the requests of two routes with two
    providers each alternate, each route always tries the same provider first,
    and its other provider never gets a first try. *)
Fixpoint alternate (n : nat) (names1 names2 : list string) (counter : Z)
  : list (option string * option string) :=
  match n with
  | O => []
  | S n =>
      let '(order1, counter) := order_provider_names names1 RoundRobin counter in
      let '(order2, counter) := order_provider_names names2 RoundRobin counter in
      (head order1, head order2) :: alternate n names1 names2 counter
  end.

Lemma alternate_starved n a b c d q :
  0 <= q -> 2 * q + 2 * Z.of_nat n <= u64_max ->
  alternate n [a; b] [c; d] (2 * q) = replicate n (Some a, Some d).
Proof.
  revert q. induction n as [|n IH]; intros q Hq Hn; [done|]. cbn [alternate].
  rewrite order_round_robin by (cbn; unfold u64_max in *; lia). cbn zeta iota beta.
  rewrite order_round_robin by (cbn; unfold u64_max in *; lia). cbn zeta iota beta.
  cbn [length]. change (Z.of_nat 2) with 2.
  assert ((2 * q) mod 2 = 0) as -> by (rewrite Z.mul_comm; apply Z_mod_mult).
  assert ((2 * q + 1) mod 2 = 1) as -> by (rewrite Z.add_comm, Z.mul_comm, Z_mod_plus_full; done).
  replace (2 * q + 1 + 1) with (2 * (q + 1)) by lia. rewrite IH by lia. done.
Qed.

(** ** The order of accounts *)

Lemma check_order_ok provider ids seen :
  check_order provider ids seen = Ok tt ->
  NoDup ids /\ Forall (fun id => id ∉ seen) ids /\ Forall (fun id => before_colon id = provider) ids.
Proof.
  revert seen. induction ids as [|id ids IH]; intros seen; cbn [check_order].
  { intros _. split_and!; constructor. }
  destruct (split_once ":" id) as [[prefix rest]|] eqn:E; [|done].
  destruct (decide (prefix = provider)) as [->|]; [|done]. destruct (decide (id ∈ seen)) as [|Hs]; [done|].
  intros (Hd & Hf & Hp)%IH. rewrite Forall_forall in Hf. split_and!.
  - constructor; [|done]. intros Hin%list_elem_of_In. apply (Hf _ Hin). left.
  - constructor; [done|]. apply Forall_forall. intros x Hx Hxs. apply (Hf x Hx). by right.
  - constructor; [|done]. unfold before_colon. by rewrite E.
Qed.

Lemma filter_ext_elem (P Q : string -> Prop) `{!forall x, Decision (P x)} `{!forall x, Decision (Q x)}
  (l : list string) :
  (forall x, x ∈ l -> (P x <-> Q x)) -> filter P l = filter Q l.
Proof.
  induction l as [|x l IH]; intros Hpq; [done|]. rewrite !filter_cons.
  rewrite IH by (intros y Hy; apply Hpq; by right). specialize (Hpq x (list_elem_of_here _ _)).
  destruct (decide (P x)), (decide (Q x)); naive_solver.
Qed.

Lemma fold_add_missing (ids out : list string) :
  NoDup ids ->
  fold_left (fun out id => if decide (id ∈ out) then out else out ++ [id]) ids out =
  out ++ filter (fun id => id ∉ out) ids.
Proof.
  revert out. induction ids as [|id ids IH]; intros out Hd; cbn [fold_left]; [by rewrite app_nil_r|].
  inversion_clear Hd as [|? ? Hni Hd']. rewrite filter_cons. destruct (decide (id ∈ out)) as [Hin|Hni'].
  - rewrite IH by done. by destruct (decide (id ∉ out)).
  - rewrite IH by done. destruct (decide (id ∉ out)); [|done]. rewrite <-app_assoc. cbn [app]. do 2 f_equal.
    f_equal. apply filter_ext_elem. intros x Hx. rewrite elem_of_app, list_elem_of_singleton.
    split; [naive_solver|]. intros Ho [Ho'| ->]; [done|]. by apply Hni, list_elem_of_In.
Qed.

Lemma apply_order_saved (ids saved : list string) :
  NoDup ids ->
  apply_order ids (Some saved) =
  filter (fun id => id ∈ ids) saved ++ filter (fun id => id ∉ saved) ids.
Proof.
  intros Hd. unfold apply_order. rewrite fold_add_missing by done. f_equal.
  apply filter_ext_elem. intros x Hx. rewrite list_elem_of_filter. naive_solver.
Qed.

Lemma filter_permutation (P : string -> Prop) `{!forall x, Decision (P x)} (l : list string) :
  Permutation (filter P l ++ filter (fun x => ~ P x) l) l.
Proof.
  induction l as [|x l IH]; [done|]. rewrite !filter_cons.
  destruct (decide (P x)), (decide (~ P x)); try done; cbn [app].
  - by rewrite IH.
  - by rewrite <-Permutation_middle, IH.
Qed.

Lemma apply_order_permutation (ids saved : list string) :
  NoDup ids -> NoDup saved -> Permutation (apply_order ids (Some saved)) ids.
Proof.
  intros Hi Hs. rewrite apply_order_saved by done.
  etransitivity; [|apply (filter_permutation (fun id => id ∈ saved) ids)]. apply Permutation_app_tail.
  apply NoDup_Permutation; [by apply list.NoDup_filter..|].
  intros x. rewrite !list_elem_of_filter. naive_solver.
Qed.

Lemma filter_bool_filter (f : string -> bool) (a b : bool) (l : list string) :
  filter (fun x => f x = a) (filter (fun x => f x = b) l) = if decide (a = b) then filter (fun x => f x = b) l else [].
Proof.
  induction l as [|x l IH]; [by case_decide|]. rewrite !filter_cons.
  destruct (decide (f x = b)) as [Hb|]; [|done]. rewrite filter_cons, IH.
  destruct (decide (a = b)), (decide (f x = a)); congruence.
Qed.

Lemma filter_bool_partition (f : string -> bool) (q : bool) (l : list string) :
  filter (fun x => f x = q) (filter (fun x => f x = false) l ++ filter (fun x => f x = true) l) =
  filter (fun x => f x = q) l.
Proof. rewrite list.filter_app, !filter_bool_filter. destruct q; cbn; by rewrite ?app_nil_r. Qed.

Lemma filter_bool_permutation (f : string -> bool) (l : list string) :
  Permutation (filter (fun x => f x = false) l ++ filter (fun x => f x = true) l) l.
Proof.
  etransitivity; [|apply (filter_permutation (fun x => f x = false))]. apply Permutation_app_head.
  by rewrite (filter_ext_elem (fun x => f x = true) (fun x => ~ f x = false)) by
    (intros x _; by destruct (f x)).
Qed.

Section accounts.
Context (allowances : string -> option Allowance) (model : string) (share : spec_float) (now : Z).

(** The account is past its quota line. *)
Definition past (id : string) : bool :=
  match allowances id with Some allowance => exhausted allowance model share now | None => false end.

Lemma order_accounts_partition ids :
  order_accounts ids allowances model share now =
  filter (fun id => past id = false) ids ++ filter (fun id => past id = true) ids.
Proof using Type.
  unfold order_accounts.
  assert (forall room spent,
    (let '(r, s) := fold_left (fun '(room, spent) id => if past id then (room, spent ++ [id]) else (room ++ [id], spent))
        ids (room, spent) in r ++ s) =
    (room ++ filter (fun id => past id = false) ids) ++ (spent ++ filter (fun id => past id = true) ids)) as E.
  { induction ids as [|id ids IH]; intros room spent; cbn [fold_left]; [by rewrite !app_nil_r|].
    rewrite !filter_cons. destruct (past id) eqn:Hp; rewrite IH;
      destruct (decide (_ = true)), (decide (_ = false)); try done; by rewrite <-!app_assoc. }
  apply E.
Qed.
End accounts.

(** The seats of a provider. With an order the user saved, which is
    accepted only if it lists accounts of that provider, none twice, every
    account the provider has is tried exactly once; the accounts with room
    come before the ones past their quota line; and among either the saved
    order is kept, the accounts it does not name coming after in the order of
    the configuration. *)
Theorem seat_order (p : ProviderConfig) (orders orders' : Orders) (provider : string) (saved : list string)
  (allowances : string -> option Allowance) (model : string) (share : spec_float) (now : Z) :
  save_order orders provider saved = Ok orders' ->
  let ids := account_ids p in
  let tried := order_accounts (apply_order ids (saved_order orders' provider)) allowances model share now in
  Forall (fun id => before_colon id = provider) saved /\
  Permutation tried ids /\ NoDup tried /\
  (forall q : bool,
     filter (fun id => past allowances model share now id = q) tried =
     filter (fun id => past allowances model share now id = q)
       (filter (fun id => id ∈ ids) saved ++ filter (fun id => id ∉ saved) ids)) /\
  exists room spent, tried = room ++ spent /\
    Forall (fun id => past allowances model share now id = false) room /\
    Forall (fun id => past allowances model share now id = true) spent.
Proof.
  unfold save_order. destruct (check_order provider saved []) as [[]|] eqn:Ec; [|done]. cbn [mbind result_bind].
  intros [= <-]. set (ids := account_ids p).
  set (tried := order_accounts (apply_order ids _) allowances model share now).
  apply check_order_ok in Ec as (Hs & _ & Hp).
  destruct (account_ids_spec p) as (Hd & _ & _). fold ids in Hd.
  assert (tried = order_accounts (apply_order ids (Some saved)) allowances model share now) as Et.
  { subst tried. unfold saved_order. by rewrite map_get_insert, decide_True. }
  rewrite order_accounts_partition in Et.
  assert (Permutation tried ids) as Hperm.
  { rewrite Et, filter_bool_permutation. by apply apply_order_permutation. }
  split_and!; [done|done|by rewrite Hperm| |].
  - intros q. rewrite Et, filter_bool_partition. by rewrite apply_order_saved.
  - eexists _, _. split; [exact Et|].
    split; apply List.Forall_forall; intros x Hx; by apply list_elem_of_In, list_elem_of_filter in Hx as [Hx _].
Qed.

Lemma seat_order_witness :
  let p := sample_provider "gem" ["gemini:a"; "gemini:b"; "gemini:c"] ∅ in
  let full := {| lm_used := S754_finite false 100 0; lm_resets := Some 50; lm_span := 0; lm_model := None |} in
  NoDup (order_accounts (apply_order (account_ids p) (saved_order [("gemini", ["gemini:c"; "gemini:a"])] "gemini"))
    (fun id => if decide (id = "gemini:c") then Some [full] else None) "m" (S754_finite false 95 0) 10).
Proof.
  intros p full.
  apply (seat_order p [] [("gemini", ["gemini:c"; "gemini:a"])] "gemini" ["gemini:c"; "gemini:a"]
    (fun id => if decide (id = "gemini:c") then Some [full] else None) "m" (S754_finite false 95 0) 10).
  reflexivity.
Defined.

Example seat_order_sample :
  let p := sample_provider "gem" ["gemini:a"; "gemini:b"; "gemini:c"] ∅ in
  let full := {| lm_used := S754_finite false 100 0; lm_resets := Some 50; lm_span := 0; lm_model := None |} in
  order_accounts (apply_order (account_ids p) (saved_order [("gemini", ["gemini:c"; "gemini:a"])] "gemini"))
    (fun id => if decide (id = "gemini:c") then Some [full] else None) "m" (S754_finite false 95 0) 10
  = ["gemini:a"; "gemini:b"; "gemini:c"].
Proof. vm_compute. reflexivity. Qed.
