(* ===== verification/Utf8.v ===== *)
(** * UTF-8

    [String::from_utf8_lossy] of the standard library: well-formed sequences
    are kept, and each maximal piece that cannot begin or go on with one is
    replaced by U+FFFD. *)
From Stdlib Require Import ZArith Lia.
From S2P Require Import Prelude.
From S2P Require Import RustStd.

Local Open Scope Z_scope.

Definition byte_val (c : ascii) : Z := Z.of_nat (nat_of_ascii c).
Definition between (lo hi z : Z) : bool := (lo <=? z) && (z <=? hi).

(** The ranges of the bytes that must follow a first byte; [None] when no
    sequence begins with it. *)
Definition continuation : Z * Z := (128, 191).
Definition utf8_need (b : Z) : option (list (Z * Z)) :=
  if b <=? 127 then Some []
  else if between 194 223 b then Some [continuation]
  else if b =? 224 then Some [(160, 191); continuation]
  else if b =? 237 then Some [(128, 159); continuation]
  else if between 225 239 b then Some [continuation; continuation]
  else if b =? 240 then Some [(144, 191); continuation; continuation]
  else if between 241 243 b then Some [continuation; continuation; continuation]
  else if b =? 244 then Some [(128, 143); continuation; continuation]
  else None.

(** U+FFFD in UTF-8. *)
Definition replacement : string := bytes3 "239" "191" "189".

(** [pending] is a sequence begun, [need] what it still needs. *)
Fixpoint lossy (pending : string) (need : list (Z * Z)) (s : string) : string :=
  match s with
  | EmptyString => match need with [] => "" | _ :: _ => replacement end
  | String c s =>
      let fresh :=
        match utf8_need (byte_val c) with
        | None => replacement +:+ lossy "" [] s
        | Some [] => String c (lossy "" [] s)
        | Some need => lossy (String c "") need s
        end in
      match need with
      | [] => fresh
      | (lo, hi) :: need =>
          if between lo hi (byte_val c) then
            match need with
            | [] => pending +:+ String c (lossy "" [] s)
            | _ :: _ => lossy (pending +:+ String c "") need s
            end
          else replacement +:+ fresh
      end
  end.

Definition from_utf8_lossy (s : string) : string := lossy "" [] s.

(** [str::from_utf8(s).is_ok()]. *)
Fixpoint utf8_after (need : list (Z * Z)) (s : string) : bool :=
  match s with
  | EmptyString => match need with [] => true | _ :: _ => false end
  | String c s =>
      match need with
      | [] => match utf8_need (byte_val c) with Some need => utf8_after need s | None => false end
      | (lo, hi) :: need => between lo hi (byte_val c) && utf8_after need s
      end
  end.
Definition is_utf8 (s : string) : bool := utf8_after [] s.

(** The characters of a text: a character begins at each byte that does not
    go on with one. *)
Definition is_continuation (c : ascii) : bool := between 128 191 (byte_val c).
Fixpoint chars (s : string) : list string :=
  match s with
  | EmptyString => []
  | String c rest =>
      match chars rest with
      | (String d _ as head) :: tail => if is_continuation d then String c head :: tail else String c "" :: head :: tail
      | others => String c "" :: others
      end
  end.

Lemma lossy_app pending need a b :
  (need = [] -> pending = "") -> utf8_after need a = true ->
  lossy pending need (a +:+ b) = pending +:+ a +:+ lossy "" [] b.
Proof.
  revert pending need. induction a as [|c a IH]; intros pending need Hp Ha.
  - destruct need; [|done]. by rewrite Hp.
  - rewrite !app_cons_str. cbn [lossy utf8_after] in *. destruct need as [|[lo hi] need].
    + rewrite (Hp eq_refl). destruct (utf8_need (byte_val c)) as [[|n need]|]; [| |done].
      * by rewrite IH.
      * rewrite IH by done. by rewrite app_cons_str.
    + apply andb_prop in Ha as [Hb Ha]. rewrite Hb. destruct need as [|n need].
      * by rewrite IH.
      * rewrite IH by done. by rewrite app_assoc_str, app_cons_str.
Qed.

(** Text that is cut between characters decodes piece by piece. *)
Lemma from_utf8_lossy_app a b :
  is_utf8 a = true -> from_utf8_lossy (a +:+ b) = a +:+ from_utf8_lossy b.
Proof. intros Ha. unfold from_utf8_lossy. by rewrite lossy_app. Qed.

Lemma from_utf8_lossy_id a : is_utf8 a = true -> from_utf8_lossy a = a.
Proof. intros Ha. rewrite <-(app_nil_r_str a) at 1. by rewrite from_utf8_lossy_app, app_nil_r_str. Qed.

Lemma utf8_after_app need a b :
  utf8_after need a = true -> is_utf8 b = true -> utf8_after need (a +:+ b) = true.
Proof.
  revert need. induction a as [|c a IH]; intros need Ha Hb.
  - by destruct need.
  - rewrite app_cons_str. cbn [utf8_after] in *. destruct need as [|[lo hi] need].
    + destruct (utf8_need (byte_val c)); [by apply IH|done].
    + apply andb_prop in Ha as [-> Ha]. by apply IH.
Qed.

Lemma is_utf8_concat l : Forall (fun s => is_utf8 s = true) l -> is_utf8 (concat_strings l) = true.
Proof. induction 1 as [|s l Hs _ IH]; [done|]. by apply utf8_after_app. Qed.

(** A character cut in two is lost: each half is replaced. *)
Example utf8_cut :
  from_utf8_lossy (bytes2 "195" "169") = bytes2 "195" "169" /\
  from_utf8_lossy (String "195" "") +:+ from_utf8_lossy (String "169" "") = replacement +:+ replacement.
Proof. by vm_compute. Qed.

(** ** Characters *)

Lemma chars_nonempty s : Forall (fun c => c <> "") (chars s).
Proof.
  induction s as [|c s IH]; [constructor|]. cbn [chars].
  destruct (chars s) as [|[|d t] tail]; [| |destruct (is_continuation d)];
    repeat (apply List.Forall_cons; [done|]); first [exact IH | constructor | by inversion IH].
Qed.

Lemma chars_concat s : concat_strings (chars s) = s.
Proof.
  induction s as [|c s IH]; [done|]. unfold concat_strings in *. cbn [chars].
  destruct (chars s) as [|[|d t] tail]; [..|destruct (is_continuation d)]; cbn [foldr] in *; rewrite <-IH; by rewrite ?app_cons_str.
Qed.
