(* ===== verification/Namespace.v ===== *)
(** * Tool namespaces

    namespace.rs and the patches of proxy.rs: a Responses client groups tools
    under namespaces; upstream a tool goes under its qualified name
    [namespace__name], and the answer is given its namespace back. *)
From Stdlib Require Import ZArith Lia.
From stdpp Require Import gmap.
From S2P Require Import Prelude.
From S2P Require Import RustStd.
From S2P Require Import Json.
From S2P Require Import Format.
From S2P Require Import Sse.

(** Qualified name to namespace and short name. *)
Abbreviation NsMap := (gmap string (string * string)).

(** One child of a namespace tool. *)
Definition add_child (ns : string) (map : NsMap) (child : Value) : NsMap :=
  match value_str "name" child with
  | Some name => <[ns +:+ "__" +:+ name := (ns, name)]> map
  | None => map
  end.

(** One tool of the request. *)
Definition add_tool (map : NsMap) (tool : Value) : NsMap :=
  if bool_decide (value_str "type" tool = Some "namespace") then
    let ns := default "" (value_str "name" tool) in
    if is_empty ns then map
    else
      match get_key "tools" tool ≫= as_array with
      | None => map
      | Some children => fold_left (add_child ns) children map
      end
  else map.

Section namespaces.
Context `{SerdeJson}.

Definition extract_namespace_map (body : string) (client_format : Format) : NsMap :=
  if decide (client_format = OpenAIResponses) then
    match value_from_str body with
    | Err _ => ∅
    | Ok value =>
        match get_key "tools" value ≫= as_array with
        | None => ∅
        | Some tools => fold_left add_tool tools ∅
        end
    end
  else ∅.

(** A [function_call] item under a qualified name gets the short name and the
    namespace; [item["name"] = ...] is on an object, since it has a type. The
    flag says whether it changed. *)
Definition patch_item (ns_map : NsMap) (item : Value) : Value * bool :=
  match item with
  | VObject m =>
      if bool_decide (value_str "type" item = Some "function_call") then
        match value_str "name" item ≫= fun name => ns_map !! name with
        | Some (ns, short) => (VObject (map_insert "namespace" (str ns) (map_insert "name" (str short) m)), true)
        | None => (item, false)
        end
      else (item, false)
  | _ => (item, false)
  end.

Definition patch_function_call_items (ns_map : NsMap) (items : list Value) : list Value * bool :=
  (map (fun item => fst (patch_item ns_map item)) items, any (fun item => snd (patch_item ns_map item)) items).

(** [value.get_mut("output").and_then(as_array_mut)] and the patch of it. *)
Definition patch_output (ns_map : NsMap) (value : Value) : Value * bool :=
  match value with
  | VObject m =>
      match map_get "output" m with
      | Some (VArray output) =>
          let '(output, patched) := patch_function_call_items ns_map output in
          (VObject (map_insert "output" (VArray output) m), patched)
      | _ => (value, false)
      end
  | _ => (value, false)
  end.

Definition patch_response_namespaces (body : string) (ns_map : NsMap) : string :=
  if decide (ns_map = ∅) then body
  else
    match value_from_str body with
    | Err _ => body
    | Ok value =>
        let '(value, patched) := patch_output ns_map value in
        if patched then unwrap_or_r body (serde_to_string value) else body
    end.

(** [value.get_mut("response")] and the output inside it. *)
Definition patch_under (ns_map : NsMap) (key : string) (patch : NsMap -> Value -> Value * bool) (value : Value)
  : Value * bool :=
  match value with
  | VObject m =>
      match map_get key m with
      | Some inner => let '(inner, patched) := patch ns_map inner in (VObject (map_insert key inner m), patched)
      | None => (value, false)
      end
  | _ => (value, false)
  end.

Definition patch_event (ns_map : NsMap) (value : Value) : Value * bool :=
  let '(value, p1) := patch_output ns_map value in
  let '(value, p2) := patch_under ns_map "response" patch_output value in
  let event_type := default "" (value_str "type" value) in
  let '(value, p3) :=
    if bool_decide (event_type = "response.output_item.added") || bool_decide (event_type = "response.output_item.done")
    then patch_under ns_map "item" patch_item value
    else (value, false) in
  (value, p1 || p2 || p3).

(** Where the data of a line begins: what stands before it, and the rest. *)
Definition sse_data (line : string) : option (string * string) :=
  match split_once (newline +:+ "data: ") line with
  | Some (a, rest) => if is_empty a then Some ("", " " +:+ rest) else Some (a +:+ newline, rest)
  | None => (fun rest => ("", rest)) <$> strip_prefix "data: " line
  end.

Definition patch_sse_namespaces (line : string) (ns_map : NsMap) : string :=
  if decide (ns_map = ∅) then line
  else
    match sse_data line with
    | None => line
    | Some (prefix, data_part) =>
        let json_str := trim_end_of white_space data_part in
        if is_empty json_str || bool_decide (json_str = "[DONE]") then line
        else
          match value_from_str json_str with
          | Err _ => line
          | Ok value =>
              let '(value, patched) := patch_event ns_map value in
              if patched then prefix +:+ "data: " +:+ unwrap_or_r json_str (serde_to_string value) +:+ blank_line
              else line
          end
    end.
End namespaces.
