(* ===== verification/SseRelay.v ===== *)
(** * The relay of an event stream

    proxy.rs: cutting the upstream's bytes into event blocks, converting each
    block, and the task [forward_streaming] spawns, which sends the converted
    lines to the client and captures them for the log. *)
From Stdlib Require Import ZArith Lia.
From stdpp Require Import gmap.
From S2P Require Import Prelude.
From S2P Require Import RustStd.
From S2P Require Import Json.
From S2P Require Import Effects.
From S2P Require Import Format.
From S2P Require Import Ir.
From S2P Require Import Sse.
From S2P Require Import Adapter.
From S2P Require Import Hub.
From S2P Require Import Config.
From S2P Require Import Routing.
From S2P Require Import Utf8.
From S2P Require Import Namespace.

Local Open Scope Z_scope.

(** [ConvertError]'s [Display]. *)
Definition display (e : ConvertError) : string :=
  match e with
  | ErrJson e => "JSON serialization error: " +:+ e
  | UnsupportedConversion from to => "unsupported format conversion: " +:+ from +:+ " -> " +:+ to
  | MissingField field => "missing required field: " +:+ field
  | InvalidField field reason => "invalid field value for '" +:+ field +:+ "': " +:+ reason
  | UnsupportedContentType t => "unsupported content type: " +:+ t
  | SseParse msg => "SSE parse error: " +:+ msg
  | ErrStreamState msg => "stream state error: " +:+ msg
  end.

(** ** Blocks *)

(** The loop: each turn consumes a blank line, so the length of the buffer is
    fuel enough. *)
Fixpoint take_blocks (n : nat) (buffer : string) : list string * string :=
  match n with
  | O => ([], buffer)
  | S n =>
      match split_once blank_line buffer with
      | None => ([], buffer)
      | Some (block, rest) =>
          let '(blocks, rest) := take_blocks n rest in
          (if is_empty (trim block) then blocks else trim block :: blocks, rest)
      end
  end.
Definition take_complete_sse_blocks (buffer : string) : list string * string :=
  take_blocks (String.length buffer) buffer.

(** ** Content points *)

Definition carries_content (block : string) : bool :=
  any (fun line =>
    match strip_prefix "data:" line with
    | None => false
    | Some data => let data := trim data in negb (is_empty data) && negb (bool_decide (data = "[DONE]"))
    end) (lines block).

Definition content_window (first_ms last_ms : option Z) : Z :=
  match first_ms, last_ms with
  | Some first, Some last => saturating_sub last first
  | _, _ => 0
  end.

(** ** One block *)

Section relay.
Context `{SerdeJson} `{Env} `{StreamSerde}.

(** The two stream states and the environment. *)
Abbreviation States := ((StreamState * StreamState) * World)%type.

Definition error_frame (err : ConvertError) : string :=
  format_sse_event "error" (value_to_string (obj [("error", str (display err))])).

(** The conversion does not panic, so there is nothing for [catch_unwind] to
    catch. *)
Definition convert_sse_block (from_format to_format : Format) (api : UpstreamApi) (block : string) (s : States)
  : list string * States :=
  match parse_sse_block block with
  | None => ([], s)
  | Some e =>
      let e :=
        if decide (api = CodeAssist) then
          match unwrap_code_assist (data e) with
          | Ok unwrapped => {| event := event e; data := unwrapped |}
          | Err _ => e
          end
        else e in
      if is_openai_done (data e) then (["data: [DONE]" +:+ blank_line], s)
      else
        match convert_stream_event e from_format to_format s with
        | (Ok lines, s) => (lines, s)
        | (Err err, s) => ([error_frame err], s)
        end
  end.

(** ** The task

    What the client and the clock do is given: [gone k] says that the client
    has left when the [k]-th line is sent, and [elapsed k] is the [k]-th
    reading of the request's clock, in milliseconds. *)
Record Config := {
  rc_from : Format;
  rc_to : Format;
  rc_api : UpstreamApi;
  rc_ns_map : NsMap;
  rc_log_ctx : bool;
  rc_logger : bool;
  rc_max_capture_bytes : Z;
  rc_gone : nat -> bool;
  rc_elapsed : nat -> Z
}.

Record Task := {
  tk_buffer : string;
  tk_states : States;
  tk_chunk_count : nat;
  tk_event_count : nat;
  tk_emitted_count : nat;
  tk_sse_lines : list string;
  tk_captured_bytes : Z;
  tk_response_truncated : bool;
  tk_first_byte_ms : option Z;
  tk_first_content_ms : option Z;
  tk_last_content_ms : option Z;
  tk_readings : nat;
  tk_sent : list string
}.

Definition task0 (w : World) : Task :=
  {| tk_buffer := ""; tk_states := ((StreamState_new, StreamState_new), w);
     tk_chunk_count := 0; tk_event_count := 0; tk_emitted_count := 0;
     tk_sse_lines := []; tk_captured_bytes := 0; tk_response_truncated := false;
     tk_first_byte_ms := None; tk_first_content_ms := None; tk_last_content_ms := None;
     tk_readings := 0; tk_sent := [] |}.

(** [mark_content!]. *)
Definition mark_content (c : Config) (line : string) (t : Task) : Task :=
  if carries_content line && rc_log_ctx c then
    let at_ms := rc_elapsed c (tk_readings t) in
    {| tk_buffer := tk_buffer t; tk_states := tk_states t;
       tk_chunk_count := tk_chunk_count t; tk_event_count := tk_event_count t;
       tk_emitted_count := tk_emitted_count t; tk_sse_lines := tk_sse_lines t;
       tk_captured_bytes := tk_captured_bytes t; tk_response_truncated := tk_response_truncated t;
       tk_first_byte_ms := tk_first_byte_ms t;
       tk_first_content_ms := Some (default at_ms (tk_first_content_ms t));
       tk_last_content_ms := Some at_ms;
       tk_readings := S (tk_readings t); tk_sent := tk_sent t |}
  else t.

(** The capture of a line for the log. *)
Definition capture (c : Config) (line : string) (t : Task) : Task :=
  if rc_log_ctx c && rc_logger c && negb (tk_response_truncated t) then
    let line_bytes := Z.of_nat (String.length line) in
    let fits := tk_captured_bytes t + line_bytes <=? rc_max_capture_bytes c in
    {| tk_buffer := tk_buffer t; tk_states := tk_states t;
       tk_chunk_count := tk_chunk_count t; tk_event_count := tk_event_count t;
       tk_emitted_count := tk_emitted_count t;
       tk_sse_lines := if fits then tk_sse_lines t ++ [line] else tk_sse_lines t;
       tk_captured_bytes := if fits then tk_captured_bytes t + line_bytes else tk_captured_bytes t;
       tk_response_truncated := negb fits;
       tk_first_byte_ms := tk_first_byte_ms t; tk_first_content_ms := tk_first_content_ms t;
       tk_last_content_ms := tk_last_content_ms t; tk_readings := tk_readings t; tk_sent := tk_sent t |}
  else t.

(** [emitted_count += 1] and [tx.send(line)], which delivers the line while
    the client is there. *)
Definition deliver (c : Config) (line : string) (t : Task) : Task :=
  {| tk_buffer := tk_buffer t; tk_states := tk_states t;
     tk_chunk_count := tk_chunk_count t; tk_event_count := tk_event_count t;
     tk_emitted_count := S (tk_emitted_count t); tk_sse_lines := tk_sse_lines t;
     tk_captured_bytes := tk_captured_bytes t; tk_response_truncated := tk_response_truncated t;
     tk_first_byte_ms := tk_first_byte_ms t; tk_first_content_ms := tk_first_content_ms t;
     tk_last_content_ms := tk_last_content_ms t; tk_readings := tk_readings t;
     tk_sent := if rc_gone c (tk_emitted_count t) then tk_sent t else tk_sent t ++ [line] |}.

Definition send_line (c : Config) (line : string) (t : Task) : Task :=
  let line := patch_sse_namespaces line (rc_ns_map c) in
  deliver c line (capture c line (mark_content c line t)).

(** The lines of one block; [false] when the client has left, which ends the
    task. *)
Fixpoint send_lines (c : Config) (ls : list string) (t : Task) : bool * Task :=
  match ls with
  | [] => (true, t)
  | line :: ls =>
      let left := rc_gone c (tk_emitted_count t) in
      let t := send_line c line t in
      if left then (false, t) else send_lines c ls t
  end.

Definition set_states (s : States) (events : nat) (t : Task) : Task :=
  {| tk_buffer := tk_buffer t; tk_states := s;
     tk_chunk_count := tk_chunk_count t; tk_event_count := events;
     tk_emitted_count := tk_emitted_count t; tk_sse_lines := tk_sse_lines t;
     tk_captured_bytes := tk_captured_bytes t; tk_response_truncated := tk_response_truncated t;
     tk_first_byte_ms := tk_first_byte_ms t; tk_first_content_ms := tk_first_content_ms t;
     tk_last_content_ms := tk_last_content_ms t; tk_readings := tk_readings t; tk_sent := tk_sent t |}.

Fixpoint relay_blocks (c : Config) (blocks : list string) (t : Task) : bool * Task :=
  match blocks with
  | [] => (true, t)
  | block :: blocks =>
      let '(ls, s) := convert_sse_block (rc_from c) (rc_to c) (rc_api c) block (tk_states t) in
      match send_lines c ls (set_states s (S (tk_event_count t)) t) with
      | (true, t) => relay_blocks c blocks t
      | (false, t) => (false, t)
      end
  end.

(** A chunk arrives: the first one stops the clock of the first byte, its text
    goes to the end of the buffer, and the complete blocks leave it. *)
Definition arrive (c : Config) (buffer : string) (t : Task) : Task :=
  let stamp := rc_log_ctx c && match tk_first_byte_ms t with None => true | Some _ => false end in
  {| tk_buffer := buffer; tk_states := tk_states t;
     tk_chunk_count := S (tk_chunk_count t); tk_event_count := tk_event_count t;
     tk_emitted_count := tk_emitted_count t; tk_sse_lines := tk_sse_lines t;
     tk_captured_bytes := tk_captured_bytes t; tk_response_truncated := tk_response_truncated t;
     tk_first_byte_ms := if stamp then Some (rc_elapsed c (tk_readings t)) else tk_first_byte_ms t;
     tk_first_content_ms := tk_first_content_ms t; tk_last_content_ms := tk_last_content_ms t;
     tk_readings := if stamp then S (tk_readings t) else tk_readings t; tk_sent := tk_sent t |}.

Definition relay_chunk (c : Config) (chunk : string) (t : Task) : bool * Task :=
  let '(blocks, buffer) := take_complete_sse_blocks (tk_buffer t +:+ from_utf8_lossy chunk) in
  relay_blocks c blocks (arrive c buffer t).

(** The upstream's stream: a chunk, or an error, which is logged and passed
    over. *)
Fixpoint relay_chunks (c : Config) (chunks : list (result string string)) (t : Task) : bool * Task :=
  match chunks with
  | [] => (true, t)
  | Err _ :: chunks => relay_chunks c chunks t
  | Ok chunk :: chunks =>
      match relay_chunk c chunk t with
      | (true, t) => relay_chunks c chunks t
      | (false, t) => (false, t)
      end
  end.

(** What is left in the buffer when the upstream ends. A send that fails does
    not end this loop. *)
Definition flush (c : Config) (t : Task) : Task :=
  let rest := trim (tk_buffer t) in
  if is_empty rest then t
  else
    let '(ls, s) := convert_sse_block (rc_from c) (rc_to c) (rc_api c) rest (tk_states t) in
    fold_left (fun t line => send_line c line t) ls (set_states s (tk_event_count t) t).

Definition relay_stream (c : Config) (chunks : list (result string string)) (w : World) : Task :=
  match relay_chunks c chunks (task0 w) with
  | (true, t) => flush c t
  | (false, t) => t
  end.

(** What the task logs: the content window, and the usage of the outbound
    side unless it has none. *)
Definition has_usage (u : Usage) : bool :=
  (0 <? input_tokens u) || (0 <? output_tokens u) || is_some (cache_read_tokens u) ||
  is_some (cache_write_tokens u) || is_some (reasoning_tokens u).
Definition final_usage (t : Task) : Usage :=
  let out_usage := default Usage_default (accumulated_usage (snd (fst (tk_states t)))) in
  let in_usage := default Usage_default (accumulated_usage (fst (fst (tk_states t)))) in
  if has_usage out_usage then out_usage else in_usage.
Definition decode_ms (t : Task) : Z := content_window (tk_first_content_ms t) (tk_last_content_ms t).

(** The plugin transport, whose answer is whole. *)
Definition relay_whole_run (c : Config) (body : string) (w : World) : string * States :=
  let '(blocks, buffer) := take_complete_sse_blocks body in
  let step acc block :=
    let '(out, s) := acc in
    let '(ls, s) := convert_sse_block (rc_from c) (rc_to c) (rc_api c) block s in
    (out +:+ concat_strings (map (fun line => patch_sse_namespaces line (rc_ns_map c)) ls), s) in
  let acc := fold_left step blocks ("", ((StreamState_new, StreamState_new), w)) in
  let rest := trim buffer in
  if is_empty rest then acc else step acc rest.

Definition relay_whole (c : Config) (body : string) (w : World) : string := fst (relay_whole_run c body w).
End relay.
