(* ===== verification/SseRelayProps.v ===== *)
(** * What a relayed stream is

    The relay against its specification: the blocks of the whole text,
    converted one after the other, whatever chunks the text came in. *)
From Stdlib Require Import ZArith Lia.
From stdpp Require Import gmap.
From S2P Require Import Prelude.
From S2P Require Import RustStd.
From S2P Require Import Json.
From S2P Require Import Effects.
From S2P Require Import Format.
From S2P Require Import Ir.
From S2P Require Import Sse.
From S2P Require Import Adapter.
From S2P Require Import Hub.
From S2P Require Import HubProps.
From S2P Require Import Concrete.
From S2P Require Import Config.
From S2P Require Import Routing.
From S2P Require Import Utf8.
From S2P Require Import Namespace.
From S2P Require Import SseRelay.

Local Open Scope Z_scope.

(** ** Blocks *)

Lemma blank_line_neq : blank_line <> "".
Proof. done. Qed.

Lemma take_blocks_enough n m buffer :
  (String.length buffer <= n)%nat -> (String.length buffer <= m)%nat ->
  take_blocks n buffer = take_blocks m buffer.
Proof.
  revert m buffer. induction n as [|n IH]; intros m buffer Hn Hm.
  - destruct buffer; [|cbn in Hn; lia]. by destruct m.
  - destruct m as [|m]; [by destruct buffer; [|cbn in Hm; lia]|]. cbn [take_blocks].
    destruct (split_once blank_line buffer) as [[a r]|] eqn:E; [|done].
    pose proof (split_once_length _ _ _ _ blank_line_neq E). by rewrite (IH m) by lia.
Qed.

Lemma take_complete_unfold buffer :
  take_complete_sse_blocks buffer =
  match split_once blank_line buffer with
  | None => ([], buffer)
  | Some (block, rest) =>
      let '(blocks, rest) := take_complete_sse_blocks rest in
      (if is_empty (trim block) then blocks else trim block :: blocks, rest)
  end.
Proof.
  unfold take_complete_sse_blocks at 1. destruct (split_once blank_line buffer) as [[a r]|] eqn:E.
  - pose proof (split_once_length _ _ _ _ blank_line_neq E) as Hl.
    destruct (String.length buffer) as [|n] eqn:En; [lia|]. cbn [take_blocks]. rewrite E.
    unfold take_complete_sse_blocks. by rewrite (take_blocks_enough n (String.length r)) by lia.
  - destruct (String.length buffer) as [|n]; [done|]. cbn [take_blocks]. by rewrite E.
Qed.

(** More text does not move the first occurrence of a pattern. *)
Lemma strip_prefix_less p s t :
  (String.length p <= String.length s)%nat -> strip_prefix p (s +:+ t) <> None -> strip_prefix p s <> None.
Proof.
  revert s. induction p as [|c p IH]; intros [|d s]; cbn [String.length]; try done; [lia|].
  rewrite app_cons_str. cbn [strip_prefix]. intros Hl. case_decide; [|done]. apply IH. lia.
Qed.

Lemma split_once_more p s t a r : split_once p s = Some (a, r) -> split_once p (s +:+ t) = Some (a, r +:+ t).
Proof.
  revert a. induction s as [|c s IH]; intros a H.
  - pose proof (split_once_Some _ _ _ _ H) as E. destruct a; [|done]. destruct p; [|done].
    rewrite !app_nil_l_str in E. subst r. by destruct t.
  - pose proof (split_once_Some _ _ _ _ H) as Hs. revert H. cbn [split_once].
    rewrite app_cons_str. cbn [split_once]. rewrite <-app_cons_str.
    destruct (strip_prefix p (String c s)) as [x|] eqn:E.
    + intros [= <- <-]. apply strip_prefix_Some in E.
      by rewrite E, app_assoc_str, strip_prefix_app.
    + destruct (split_once p s) as [[b q]|] eqn:Es; [|done]. intros [= <- <-].
      rewrite (IH _ eq_refl). destruct (strip_prefix p (String c s +:+ t)) as [x|] eqn:Et; [|done].
      exfalso. apply (strip_prefix_less p (String c s) t); [|congruence|done].
      rewrite Hs, !length_app_str. lia.
Qed.

Lemma take_complete_app a b :
  take_complete_sse_blocks (a +:+ b) =
  let '(b1, r1) := take_complete_sse_blocks a in
  let '(b2, r2) := take_complete_sse_blocks (r1 +:+ b) in
  (b1 ++ b2, r2).
Proof.
  remember (String.length a) as n eqn:Hn. revert a Hn.
  induction n as [n IH] using lt_wf_ind. intros a ->.
  rewrite (take_complete_unfold a). destruct (split_once blank_line a) as [[x r]|] eqn:E.
  - rewrite (take_complete_unfold (a +:+ b)), (split_once_more _ _ _ _ _ E).
    rewrite (IH (String.length r) (split_once_length _ _ _ _ blank_line_neq E) r eq_refl).
    destruct (take_complete_sse_blocks r) as [b1 r1].
    destruct (take_complete_sse_blocks (r1 +:+ b)) as [b2 r2]. by destruct (is_empty (trim x)).
  - by destruct (take_complete_sse_blocks (a +:+ b)).
Qed.

Lemma take_complete_rest buffer :
  let '(_, rest) := take_complete_sse_blocks buffer in take_complete_sse_blocks rest = ([], rest).
Proof.
  remember (String.length buffer) as n eqn:Hn. revert buffer Hn.
  induction n as [n IH] using lt_wf_ind. intros buffer ->.
  rewrite (take_complete_unfold buffer). destruct (split_once blank_line buffer) as [[x r]|] eqn:E.
  - specialize (IH (String.length r) (split_once_length _ _ _ _ blank_line_neq E) r eq_refl).
    by destruct (take_complete_sse_blocks r).
  - by rewrite take_complete_unfold, E.
Qed.

(** ** The specification *)

Section relay.
Context `{SerdeJson} `{Env} `{StreamSerde}.

Abbreviation States := ((StreamState * StreamState) * World)%type.

(** The lines of a list of blocks, converted one after the other. *)
Fixpoint block_lines (c : SseRelay.Config) (blocks : list string) (s : States) : list string * States :=
  match blocks with
  | [] => ([], s)
  | block :: blocks =>
      let '(ls, s) := convert_sse_block (rc_from c) (rc_to c) (rc_api c) block s in
      let '(more, s) := block_lines c blocks s in
      (map (fun line => patch_sse_namespaces line (rc_ns_map c)) ls ++ more, s)
  end.

(** The blocks of a text: the complete ones, and what is left at the end. *)
Definition all_blocks (text : string) : list string :=
  let '(blocks, rest) := take_complete_sse_blocks text in
  blocks ++ (if is_empty (trim rest) then [] else [trim rest]).

Definition start_states (w : World) : States := ((StreamState_new, StreamState_new), w).

(** What the client of a relayed text is sent. *)
Definition stream_spec (c : SseRelay.Config) (text : string) (w : World) : list string :=
  fst (block_lines c (all_blocks text) (start_states w)).

Lemma block_lines_app c b1 b2 s :
  block_lines c (b1 ++ b2) s =
  let '(l1, s) := block_lines c b1 s in let '(l2, s) := block_lines c b2 s in (l1 ++ l2, s).
Proof.
  revert s. induction b1 as [|b b1 IH]; intros s; cbn [app block_lines]; [by destruct (block_lines c b2 s)|].
  destruct (convert_sse_block _ _ _ b s) as [ls s1]. rewrite IH.
  destruct (block_lines c b1 s1) as [l1 s2]. destruct (block_lines c b2 s2) as [l2 s3].
  by rewrite app_assoc.
Qed.

(** ** The task follows it *)

(** The client leaves after [n] lines, or stays. *)
Definition leaves (c : SseRelay.Config) (n : option nat) : Prop :=
  forall k, rc_gone c k = match n with Some n => (n <=? k)%nat | None => false end.
Definition cut {A} (n : option nat) (l : list A) : list A :=
  match n with Some n => firstn n l | None => l end.

(** What has been done: the converted lines so far, the part of them that was
    sent, and the part that was captured for the log, within its limit. *)
Record follows (c : SseRelay.Config) (n : option nat) (lines : list string) (t : Task) : Prop := {
  fo_emitted : tk_emitted_count t = length lines;
  fo_sent : tk_sent t = cut n lines;
  fo_bytes : tk_captured_bytes t = Z.of_nat (String.length (concat_strings (tk_sse_lines t)));
  fo_limit : tk_captured_bytes t <= Z.max 0 (rc_max_capture_bytes c);
  fo_capture : exists k, (k <= length lines)%nat /\ tk_sse_lines t = firstn k lines;
  fo_whole : rc_log_ctx c && rc_logger c = true -> tk_response_truncated t = false -> tk_sse_lines t = lines
}.

Lemma cut_done {A} n (lines more : list A) :
  (n <= length lines)%nat -> firstn n lines = firstn n (lines ++ more).
Proof. intros Hn. by rewrite firstn_app, (proj2 (Nat.sub_0_le _ _) Hn), app_nil_r. Qed.

Lemma concat_strings_length l line :
  String.length (concat_strings (l ++ [line])) =
  (String.length (concat_strings l) + String.length line)%nat.
Proof.
  rewrite concat_strings_app, length_app_str. cbn. by rewrite app_nil_r_str.
Qed.

Lemma follows_mark c n lines line t : follows c n lines t -> follows c n lines (mark_content c line t).
Proof. unfold mark_content. by destruct (_ && _); [intros []|]. Qed.

Lemma follows_states c n lines s k t : follows c n lines t -> follows c n lines (set_states s k t).
Proof. by intros []. Qed.

Lemma follows_arrive c n lines buffer t : follows c n lines t -> follows c n lines (arrive c buffer t).
Proof. by intros []. Qed.

(** One line: captured if there is room, and sent if the client is there. *)
Lemma follows_send c n lines line t :
  leaves c n -> follows c n lines t ->
  follows c n (lines ++ [patch_sse_namespaces line (rc_ns_map c)]) (send_line c line t).
Proof.
  intros Hgone Hf. unfold send_line. set (l := patch_sse_namespaces line (rc_ns_map c)).
  apply (follows_mark c n lines l) in Hf. generalize dependent (mark_content c l t). clear t. intros t [].
  assert (cut n (lines ++ [l]) = if rc_gone c (tk_emitted_count t) then tk_sent t else tk_sent t ++ [l]) as Hcut.
  { rewrite Hgone, fo_emitted0, fo_sent0. destruct n as [n|]; [|done]. cbn [cut].
    destruct (Nat.leb_spec n (length lines)) as [Hle|Hgt]; [by rewrite <-cut_done|].
    rewrite !firstn_all2; [done|lia|rewrite length_app; cbn; lia]. }
  destruct fo_capture0 as (k & Hk & Hlines).
  assert (exists k, (k <= length (lines ++ [l]))%nat /\ tk_sse_lines t = firstn k (lines ++ [l])) as Hsame.
  { exists k. rewrite length_app. split; [lia|]. by rewrite <-cut_done. }
  unfold deliver, capture. split; cbn [tk_emitted_count tk_sent tk_captured_bytes tk_sse_lines tk_response_truncated].
  - rewrite length_app, <-fo_emitted0. cbn. destruct (_ && _ && _); cbn; lia.
  - rewrite Hcut. by destruct (_ && _ && _).
  - destruct (_ && _ && _); [|done]. cbn.
    destruct (Z.leb_spec (tk_captured_bytes t + Z.of_nat (String.length l)) (rc_max_capture_bytes c)); [|done].
    rewrite concat_strings_length. lia.
  - destruct (_ && _ && _); [|done]. cbn.
    destruct (Z.leb_spec (tk_captured_bytes t + Z.of_nat (String.length l)) (rc_max_capture_bytes c)); lia.
  - destruct (rc_log_ctx c && rc_logger c) eqn:Hlog, (tk_response_truncated t) eqn:Htr; try done. cbn.
    destruct (Z.leb_spec (tk_captured_bytes t + Z.of_nat (String.length l)) (rc_max_capture_bytes c)); [|done].
    rewrite (fo_whole0 eq_refl eq_refl). exists (length (lines ++ [l])). by rewrite firstn_all.
  - intros Hlog. rewrite Hlog. destruct (tk_response_truncated t) eqn:Htr; cbn; [congruence|].
    destruct (Z.leb_spec (tk_captured_bytes t + Z.of_nat (String.length l)) (rc_max_capture_bytes c)); [|done].
    intros _. by rewrite (fo_whole0 Hlog eq_refl).
Qed.

(** What a finished task sent and captured, when [lines] is all there was. *)
Definition ended (c : SseRelay.Config) (n : option nat) (all : list string) (t : Task) : Prop :=
  tk_sent t = cut n all /\
  Z.of_nat (String.length (concat_strings (tk_sse_lines t))) <= Z.max 0 (rc_max_capture_bytes c) /\
  exists k, tk_sse_lines t = firstn k all.

Lemma follows_ended c n lines more t :
  follows c n lines t -> (more = [] \/ exists k, n = Some k /\ (k <= length lines)%nat) -> ended c n (lines ++ more) t.
Proof.
  intros [] Hm. split_and!.
  - rewrite fo_sent0. destruct Hm as [->|(k & -> & Hk)]; [by rewrite app_nil_r|by apply cut_done].
  - lia.
  - destruct fo_capture0 as (k & Hk & ->). exists k. by apply cut_done.
Qed.

(** The outcome of sending part of the lines: all of them, or the client has
    left and nothing more can reach it. *)
Definition outcome (c : SseRelay.Config) (n : option nat) (lines new : list string) (s : States) (buffer : string)
  (r : bool * Task) : Prop :=
  match r with
  | (true, t) => follows c n (lines ++ new) t /\ tk_states t = s /\ tk_buffer t = buffer
  | (false, t) => forall more, ended c n (lines ++ new ++ more) t
  end.

Lemma send_line_states c line t : tk_states (send_line c line t) = tk_states t.
Proof. unfold send_line, deliver, capture, mark_content. cbn. by destruct (_ && _ && _), (_ && _). Qed.
Lemma send_line_buffer c line t : tk_buffer (send_line c line t) = tk_buffer t.
Proof. unfold send_line, deliver, capture, mark_content. cbn. by destruct (_ && _ && _), (_ && _). Qed.

Lemma send_lines_outcome c n ls lines t :
  leaves c n -> follows c n lines t ->
  outcome c n lines (map (fun line => patch_sse_namespaces line (rc_ns_map c)) ls) (tk_states t) (tk_buffer t)
    (send_lines c ls t).
Proof.
  intros Hgone. revert lines t. induction ls as [|line ls IH]; intros lines t Hf; cbn [send_lines map].
  { cbn. by rewrite app_nil_r. }
  pose proof (follows_send c n lines line t Hgone Hf) as Hf'.
  destruct (rc_gone c (tk_emitted_count t)) eqn:Hg.
  - cbn. intros more.
    pose proof (follows_ended c n _ (map (fun line => patch_sse_namespaces line (rc_ns_map c)) ls ++ more) _ Hf') as He.
    rewrite <-app_assoc in He. apply He. right.
    rewrite Hgone, (fo_emitted _ _ _ _ Hf) in Hg. destruct n as [k|]; [|done].
    exists k. split; [done|]. apply Nat.leb_le in Hg. rewrite length_app. lia.
  - specialize (IH _ _ Hf'). rewrite send_line_states, send_line_buffer in IH.
    destruct (send_lines c ls (send_line c line t)) as [[] t']; cbn in *.
    + by rewrite <-app_assoc in IH.
    + intros more. specialize (IH more). by rewrite <-app_assoc in IH.
Qed.

Lemma relay_blocks_outcome c n blocks lines t :
  leaves c n -> follows c n lines t ->
  outcome c n lines (fst (block_lines c blocks (tk_states t))) (snd (block_lines c blocks (tk_states t)))
    (tk_buffer t) (relay_blocks c blocks t).
Proof.
  intros Hgone. revert lines t. induction blocks as [|b blocks IH]; intros lines t Hf; cbn [relay_blocks block_lines].
  { cbn. by rewrite app_nil_r. }
  destruct (convert_sse_block (rc_from c) (rc_to c) (rc_api c) b (tk_states t)) as [ls s1].
  pose proof (send_lines_outcome c n ls lines _ Hgone (follows_states c n lines s1 (S (tk_event_count t)) t Hf)) as Hl.
  cbn [tk_states tk_buffer set_states] in Hl.
  destruct (send_lines c ls (set_states s1 (S (tk_event_count t)) t)) as [[] t1].
  - destruct Hl as (Hf1 & <- & <-). specialize (IH _ _ Hf1).
    destruct (block_lines c blocks (tk_states t1)) as [more s2]. cbn [fst snd] in *.
    destruct (relay_blocks c blocks t1) as [[] t2]; cbn [outcome] in *; [by rewrite app_assoc|].
    intros rest. specialize (IH rest). by rewrite <-!app_assoc in IH |- *.
  - cbn [outcome] in *. intros rest. destruct (block_lines c blocks s1) as [more s2]. cbn [fst].
    rewrite <-app_assoc. apply Hl.
Qed.

(** The text that has arrived. *)
Definition texts (chunks : list (result string string)) : string :=
  concat_strings (filter_map (fun chunk => from_utf8_lossy <$> ok chunk) chunks).

Lemma relay_chunks_outcome c n chunks lines t :
  leaves c n -> follows c n lines t ->
  let '(blocks, rest) := take_complete_sse_blocks (tk_buffer t +:+ texts chunks) in
  (take_complete_sse_blocks (tk_buffer t) = ([], tk_buffer t)) ->
  outcome c n lines (fst (block_lines c blocks (tk_states t))) (snd (block_lines c blocks (tk_states t)))
    rest (relay_chunks c chunks t).
Proof.
  intros Hgone. revert lines t. induction chunks as [|[chunk|err] chunks IH]; intros lines t Hf.
  - unfold texts. cbn [filter_map concat_strings foldr]. rewrite app_nil_r_str.
    destruct (take_complete_sse_blocks (tk_buffer t)) as [blocks rest]. intros [= -> ->].
    cbn. by rewrite app_nil_r.
  - cbn [relay_chunks]. unfold relay_chunk.
    change (texts (Ok chunk :: chunks)) with (from_utf8_lossy chunk +:+ texts chunks).
    rewrite <-app_assoc_str, take_complete_app.
    destruct (take_complete_sse_blocks (tk_buffer t +:+ from_utf8_lossy chunk)) as [b1 r1] eqn:E1.
    pose proof (relay_blocks_outcome c n b1 lines _ Hgone (follows_arrive c n lines r1 t Hf)) as Hb.
    cbn [tk_states tk_buffer arrive] in Hb.
    pose proof (take_complete_rest (tk_buffer t +:+ from_utf8_lossy chunk)) as Hr. rewrite E1 in Hr.
    destruct (take_complete_sse_blocks (r1 +:+ texts chunks)) as [b2 r2] eqn:E2. intros _.
    rewrite block_lines_app. destruct (block_lines c b1 (tk_states t)) as [l1 s1]. cbn [fst snd] in *.
    destruct (relay_blocks c b1 (arrive c r1 t)) as [[] t1]; cbn [outcome] in Hb.
    + destruct Hb as (Hf1 & <- & Hbuf). specialize (IH _ _ Hf1). rewrite Hbuf, E2 in IH. specialize (IH Hr).
      destruct (block_lines c b2 (tk_states t1)) as [l2 s2]. cbn [fst snd] in *.
      destruct (relay_chunks c chunks t1) as [[] t2]; cbn [outcome] in *; [by rewrite app_assoc|].
      intros rest. specialize (IH rest). by rewrite <-!app_assoc in IH |- *.
    + cbn [outcome]. intros rest. destruct (block_lines c b2 s1) as [l2 s2]. cbn [fst].
      rewrite <-app_assoc. apply Hb.
  - apply (IH lines t Hf).
Qed.

Lemma flush_follows c n ls lines t :
  leaves c n -> follows c n lines t ->
  follows c n (lines ++ map (fun line => patch_sse_namespaces line (rc_ns_map c)) ls)
    (fold_left (fun t line => send_line c line t) ls t).
Proof.
  intros Hgone. revert lines t. induction ls as [|line ls IH]; intros lines t Hf; cbn [fold_left map].
  - by rewrite app_nil_r.
  - apply (follows_send c n lines line t Hgone), IH in Hf. by rewrite <-app_assoc in Hf.
Qed.

Lemma relay_stream_ended c n chunks w :
  leaves c n -> ended c n (stream_spec c (texts chunks) w) (relay_stream c chunks w).
Proof.
  intros Hgone. assert (follows c n [] (task0 w)) as H0'.
  { split; cbn; try done; [by destruct n; cbn; rewrite ?firstn_nil|lia|]. by exists 0%nat. }
  pose proof (relay_chunks_outcome c n chunks [] (task0 w) Hgone H0') as Ho.
  unfold stream_spec, all_blocks, relay_stream. cbn [tk_buffer task0 tk_states] in Ho.
  rewrite app_nil_l_str in Ho. fold (start_states w) in Ho.
  destruct (take_complete_sse_blocks (texts chunks)) as [blocks rest]. specialize (Ho eq_refl).
  rewrite block_lines_app. destruct (block_lines c blocks (start_states w)) as [l1 s1]. cbn [fst snd] in *.
  destruct (relay_chunks c chunks (task0 w)) as [[] t]; cbn [outcome app] in Ho.
  - destruct Ho as (Hf & <- & <-). unfold flush. destruct (is_empty (trim (tk_buffer t))); cbn [block_lines].
    + apply (follows_ended c n l1 [] t Hf). by left.
    + destruct (convert_sse_block (rc_from c) (rc_to c) (rc_api c) (trim (tk_buffer t)) (tk_states t)) as [ls s2].
      cbn [fst]. rewrite app_nil_r, <-(app_nil_r (l1 ++ _)). apply follows_ended; [|by left].
      by apply flush_follows, follows_states.
  - destruct (block_lines c _ s1) as [l2 s2]. cbn [fst]. apply Ho.
Qed.

(** C22: a relayed stream is its text, converted. Whatever chunks the upstream's
    text arrives in, and whatever read errors come between them, the client is
    sent the conversion of the blocks of the whole text, in order and with
    their namespaces restored, up to where it leaves; and when every chunk
    ends between characters that text is what the upstream wrote. What is
    captured for the log is the beginning of it, within the configured limit. *)
Theorem relay_refines_spec (c : SseRelay.Config) (n : option nat) (chunks : list (result string string)) (w : World) :
  leaves c n ->
  let t := relay_stream c chunks w in
  let all := stream_spec c (texts chunks) w in
  tk_sent t = cut n all /\
  Z.of_nat (String.length (concat_strings (tk_sse_lines t))) <= Z.max 0 (rc_max_capture_bytes c) /\
  (exists k, tk_sse_lines t = firstn k all) /\
  (Forall (fun s => is_utf8 s = true) (filter_map ok chunks) -> texts chunks = concat_strings (filter_map ok chunks)).
Proof.
  intros Hgone t all. destruct (relay_stream_ended c n chunks w Hgone) as (Hs & Hb & Hk).
  split_and!; [done..|]. unfold texts. clear. induction chunks as [|[s|e] chunks IH]; [done| |exact IH].
  cbn. intros [Hs Hf]%list.Forall_cons. rewrite from_utf8_lossy_id by done. f_equal. by apply IH.
Qed.

(** ** Streams of frames *)

Lemma take_complete_frames es :
  Forall (fun e => wire_event e = true) es ->
  take_complete_sse_blocks (concat_strings (map render es)) = (map body es, "").
Proof.
  induction 1 as [|e es He _ IH]; [done|]. cbn [map concat_strings foldr].
  fold (concat_strings (map render es)).
  rewrite take_complete_unfold, render_body, app_assoc_str, split_once_body, IH by done.
  by rewrite trim_body, body_not_empty by done.
Qed.

Lemma all_blocks_frames es :
  Forall (fun e => wire_event e = true) es -> all_blocks (concat_strings (map render es)) = map body es.
Proof. intros Hes. unfold all_blocks. rewrite take_complete_frames by done. apply app_nil_r. Qed.

(** An event that is converted, not passed on as the end mark. *)
Definition plain_event (e : SseEvent) : bool := wire_event e && negb (is_openai_done (data e)).

Lemma convert_block_event c e s :
  rc_api c <> CodeAssist -> plain_event e = true ->
  convert_sse_block (rc_from c) (rc_to c) (rc_api c) (body e) s =
  match convert_stream_event e (rc_from c) (rc_to c) s with
  | (Ok lines, s) => (lines, s)
  | (Err err, s) => ([error_frame err], s)
  end.
Proof.
  unfold plain_event. intros Hapi [He Hd%negb_true_iff]%andb_prop. unfold convert_sse_block.
  rewrite (parse_block_of_lines e _ []) by (done || by rewrite app_nil_r, lines_body).
  rewrite decide_False by done. by rewrite Hd.
Qed.

(** A stream that converts is relayed. When the upstream writes a stream
    of frames and every event converts, the client that stays is sent exactly
    the lines of the conversion, event after event, with namespaces restored
    and nothing in between; and when an event fails, the client is sent the
    lines so far, then one error frame that says why. *)
Theorem relay_of_frames (c : SseRelay.Config) (es : list SseEvent) (chunks : list (result string string)) (w : World) :
  leaves c None -> rc_api c <> CodeAssist ->
  forallb plain_event es = true -> texts chunks = concat_strings (map render es) ->
  let sent := tk_sent (relay_stream c chunks w) in
  let patched ls := map (fun line => patch_sse_namespaces line (rc_ns_map c)) ls in
  (forall lines s, convert_stream es (rc_from c) (rc_to c) (start_states w) = (Ok lines, s) -> sent = patched lines) /\
  (forall es1 e lines s err, es = es1 ++ [e] ->
     convert_stream es1 (rc_from c) (rc_to c) (start_states w) = (Ok lines, s) ->
     fst (convert_stream_event e (rc_from c) (rc_to c) s) = Err err ->
     sent = patched (lines ++ [error_frame err])).
Proof.
  intros Hgone Hapi Hes Ht sent patched.
  assert (sent = fst (block_lines c (map body es) (start_states w))) as ->.
  { destruct (relay_stream_ended c None chunks w Hgone) as (Hs & _). subst sent. rewrite Hs. cbn [cut].
    unfold stream_spec. rewrite Ht, all_blocks_frames; [done|].
    rewrite List.Forall_forall. rewrite List.forallb_forall in Hes. intros e Hin.
    by apply Hes, andb_prop in Hin as [He _]. }
  generalize (start_states w). clear Ht.
  assert (forall es, forallb plain_event es = true -> forall s lines s',
    convert_stream es (rc_from c) (rc_to c) s = (Ok lines, s') ->
    block_lines c (map body es) s = (patched lines, s')) as Hall.
  { clear es Hes. induction es as [|e es IH]; cbn [forallb convert_stream]; intros Hes s lines s'.
    { intros [= <- <-]. done. }
    apply andb_prop in Hes as [He Hes]. cbn [map block_lines]. rewrite convert_block_event by done.
    unfold mbind, stm_bind. destruct (convert_stream_event e (rc_from c) (rc_to c) s) as [[ls|err] s1]; [|done].
    specialize (IH Hes s1). destruct (convert_stream es (rc_from c) (rc_to c) s1) as [[rest|err] s2]; [|done].
    intros [= <- <-]. rewrite (IH rest s2 eq_refl). unfold patched. by rewrite map_app. }
  intros s. split.
  - intros lines s' E. by rewrite (Hall es Hes _ _ _ E).
  - intros es1 e lines s1 err -> E Herr. rewrite forallb_app in Hes. apply andb_prop in Hes as [Hes1 He].
    cbn [forallb] in He. rewrite andb_true_r in He.
    rewrite map_app, block_lines_app, (Hall es1 Hes1 _ _ _ E). cbn [map block_lines].
    rewrite convert_block_event by done.
    destruct (convert_stream_event e (rc_from c) (rc_to c) s1) as [[ls|err'] s2]; [done|].
    cbn [fst] in Herr. injection Herr as ->. cbn [fst]. unfold patched. by rewrite map_app.
Qed.

(** The two transports agree. The plugin transport, which converts an
    answer it has whole, writes the very bytes the incremental relay sends a
    client that stays, however that answer is cut into chunks. *)
Theorem relay_whole_equiv (c : SseRelay.Config) (chunks : list (result string string)) (w : World) :
  leaves c None ->
  relay_whole c (texts chunks) w = concat_strings (tk_sent (relay_stream c chunks w)).
Proof.
  intros Hgone. destruct (relay_stream_ended c None chunks w Hgone) as (-> & _). cbn [cut].
  unfold stream_spec, all_blocks, relay_whole, relay_whole_run.
  destruct (take_complete_sse_blocks (texts chunks)) as [blocks rest].
  set (step := fun (acc : string * States) (block : string) => _).
  assert (forall bs out s, fold_left step bs (out, s) =
    let '(ls, s') := block_lines c bs s in (out +:+ concat_strings ls, s')) as Hfold.
  { induction bs as [|b bs IH]; intros out s; cbn [fold_left block_lines]; [by rewrite app_nil_r_str|].
    unfold step at 2. destruct (convert_sse_block (rc_from c) (rc_to c) (rc_api c) b s) as [ls s1].
    rewrite IH. destruct (block_lines c bs s1) as [more s2].
    by rewrite concat_strings_app, app_assoc_str. }
  rewrite block_lines_app. fold (start_states w). rewrite Hfold.
  destruct (block_lines c blocks (start_states w)) as [l1 s1].
  destruct (is_empty (trim rest)); cbn [block_lines]; [by rewrite app_nil_r|].
  destruct (convert_sse_block (rc_from c) (rc_to c) (rc_api c) (trim rest) s1) as [ls s2].
  cbn [fst]. by rewrite app_nil_r, concat_strings_app, app_nil_l_str.
Qed.
End relay.

(** ** A relay between equal formats, cut inside a frame *)

Definition sample_relay (n : option nat) : SseRelay.Config :=
  {| rc_from := Claude; rc_to := Claude; rc_api := ApiClaude; rc_ns_map := ∅;
     rc_log_ctx := true; rc_logger := true; rc_max_capture_bytes := 20;
     rc_gone := fun k => match n with Some n => (n <=? k)%nat | None => false end;
     rc_elapsed := Z.of_nat |}.

Definition sample_events : list SseEvent :=
  [{| event := Some "ping"; data := "{}" |}; {| event := None; data := "[1]" |}].
Definition sample_chunks : list (result string string) :=
  [Ok "event: pi"; Err "reset"; Ok ("ng" +:+ newline +:+ "data: {}" +:+ newline);
   Ok (newline +:+ "data: [1]" +:+ blank_line)].

Abbreviation sample_run := (@relay_stream binary_json sample_env deaf_stream).

Lemma relay_refines_spec_witness :
  tk_sent (sample_run (sample_relay (Some 1%nat)) sample_chunks world0) =
  firstn 1 (@stream_spec binary_json sample_env deaf_stream
              (sample_relay (Some 1%nat)) (texts sample_chunks) world0).
Proof.
  apply (@relay_refines_spec binary_json sample_env deaf_stream
           (sample_relay (Some 1%nat)) (Some 1%nat) sample_chunks world0).
  intros k. reflexivity.
Defined.

Lemma relay_of_frames_witness :
  tk_sent (sample_run (sample_relay None) sample_chunks world0) =
  ["event: ping" +:+ newline +:+ "data: {}" +:+ blank_line; "data: [1]" +:+ blank_line].
Proof.
  destruct (@relay_of_frames binary_json sample_env deaf_stream
              (sample_relay None) sample_events sample_chunks world0) as [Hall _].
  - intros k. reflexivity.
  - discriminate.
  - reflexivity.
  - reflexivity.
  - rewrite (Hall ["event: ping" +:+ newline +:+ "data: {}" +:+ blank_line; "data: [1]" +:+ blank_line]
               (start_states world0)); reflexivity.
Defined.

Lemma relay_whole_equiv_witness :
  @relay_whole binary_json sample_env deaf_stream (sample_relay None)
    (texts sample_chunks) world0 =
  concat_strings (tk_sent (sample_run (sample_relay None) sample_chunks world0)).
Proof.
  apply (@relay_whole_equiv binary_json sample_env deaf_stream
           (sample_relay None) sample_chunks world0).
  intros k. reflexivity.
Defined.

(** A finding about line ends. [split_sse_blocks] takes streams with CRLF line
    ends; the relay cuts at two line feeds only, so such a stream is one block
    to it: nothing is sent before the upstream ends, and then every event's
    data is read as the lines of a single event. *)
Example relay_crlf :
  let text := "data: 1" +:+ crlf +:+ crlf +:+ "data: 2" +:+ crlf +:+ crlf in
  split_sse_blocks text = ["data: 1"; "data: 2"] /\
  take_complete_sse_blocks text = ([], text) /\
  map parse_sse_block (all_blocks text) = [Some {| event := None; data := "1" +:+ newline +:+ "2" |}].
Proof. vm_compute. done. Qed.

(** A finding about characters. Each chunk is decoded by itself, so a character
    the network cuts in two reaches the client as two replacement characters. *)
Example relay_cut_character :
  tk_sent (sample_run (sample_relay None) [Ok ("data: " +:+ bytes2 "195" "169" +:+ blank_line)] world0) =
    ["data: " +:+ bytes2 "195" "169" +:+ blank_line] /\
  tk_sent (sample_run (sample_relay None) [Ok ("data: " +:+ String "195" ""); Ok (String "169" blank_line)] world0) =
    ["data: " +:+ replacement +:+ replacement +:+ blank_line].
Proof. vm_compute. done. Qed.
