(* ===== verification/Auth.v ===== *)
(** * Keys and headers

    The server's auth.rs (which client keys are accepted, how a provider is
    signed in to), the part of agents_registry.rs that knows the agents' keys,
    the static-key source of credentials/mod.rs, the Copilot headers of
    credentials/copilot.rs and the header filter of proxy.rs. *)
From Stdlib Require Import ZArith Lia.
From stdpp Require Import gmap.
From S2P Require Import Prelude.
From S2P Require Import RustStd.
From S2P Require Import Format.
From S2P Require Import Glob.
From S2P Require Import Config.

Local Open Scope Z_scope.

(** ** Headers

    A client's header is its name, in lower case as the HTTP library keeps
    it, and what [HeaderValue::to_str] makes of its value; the map is the list
    of its headers in the order it is iterated. *)
Abbreviation HeaderMap := (list (string * option string)).
Abbreviation Headers := (list (string * string)).

(** [headers.get(name).and_then(|v| v.to_str().ok())]: the first value. *)
Definition header_str (name : string) (headers : HeaderMap) : option string :=
  match List.find (fun h => bool_decide (h.1 = name)) headers with
  | Some (_, v) => v
  | None => None
  end.

(** ** Client keys *)

Inductive AuthError : Type := Missing | Invalid.
#[export] Instance AuthError_eq_dec : EqDecision AuthError.
Proof. solve_decision. Defined.

Definition auth_error_text (e : AuthError) : string :=
  match e with
  | Missing => "missing or malformed Authorization header"
  | Invalid => "invalid API key"
  end.

Definition bearer (header : option string) : option string := header ≫= strip_prefix "Bearer ".

Definition validate_client_key (client_api_key auth_header : option string) : result AuthError unit :=
  match client_api_key with
  | None => Ok tt
  | Some expected =>
      provided ← ok_or Missing (bearer auth_header);
      if decide (provided = expected) then Ok tt else Err Invalid
  end.

Definition validate_client_keys (client_api_key : option string) (agent_keys : list string)
    (auth_header : option string) : result AuthError unit :=
  match client_api_key with
  | None => Ok tt
  | Some expected =>
      provided ← ok_or Missing (bearer auth_header);
      if bool_decide (provided = expected) || any (fun key => bool_decide (key = provided)) agent_keys
      then Ok tt else Err Invalid
  end.

Definition require_management_key (client_api_key auth_header : option string) : result AuthError unit :=
  validate_client_key client_api_key auth_header.

(** ** The agents' keys

    The registry's key table in its order of iteration, agent by agent; its
    state file and its syncs are not part of the model. *)
Record AgentKeyEntry := { ak_key : string; ak_id : string; ak_created_at : Z; ak_last_used : option Z }.

Record AgentRegistry := {
  ar_global_key : option string;
  ar_agent_keys : list (string * AgentKeyEntry)
}.

Definition key_snapshot (r : AgentRegistry) : list string := map (fun e => ak_key e.2) (ar_agent_keys r).

Definition validate_key (r : AgentRegistry) (global_key header : option string) : result AuthError unit :=
  validate_client_keys (opt_or global_key (ar_global_key r)) (key_snapshot r) header.

Fixpoint note_key (key_plaintext : string) (now : Z) (keys : list (string * AgentKeyEntry))
  : option string * list (string * AgentKeyEntry) :=
  match keys with
  | [] => (None, [])
  | (agent_id, e) :: keys =>
      if decide (ak_key e = key_plaintext) then
        (Some agent_id,
         (agent_id, {| ak_key := ak_key e; ak_id := ak_id e; ak_created_at := ak_created_at e;
                       ak_last_used := Some now |}) :: keys)
      else let '(matched, keys) := note_key key_plaintext now keys in (matched, (agent_id, e) :: keys)
  end.

Definition note_request_key (key_plaintext : string) (now : Z) (r : AgentRegistry)
  : option string * AgentRegistry :=
  let '(matched, keys) := note_key key_plaintext now (ar_agent_keys r) in
  (matched, {| ar_global_key := ar_global_key r; ar_agent_keys := keys |}).

(** The agent whose key it was is returned: a sync of its catalog is started
    for it, which the request does not wait for. *)
Definition authenticate (r : AgentRegistry) (global_key header : option string) (now : Z)
  : result AuthError (option string) * AgentRegistry :=
  match validate_key r global_key header with
  | Err e => (Err e, r)
  | Ok _ =>
      match bearer header with
      | None => (Ok None, r)
      | Some provided => let '(matched, r) := note_request_key provided now r in (Ok matched, r)
      end
  end.

(** ** Signing in to a provider *)

Definition default_auth_scheme (format : Format) : AuthScheme :=
  match format with
  | OpenAIChat | OpenAIResponses => Bearer
  | Claude => Anthropic
  | Gemini => GoogleApiKey
  end.

Definition build_headers_for_scheme (scheme : AuthScheme) (api_key : string) : Headers :=
  match scheme with
  | Bearer => [("Authorization", "Bearer " +:+ api_key)]
  | ApiKeyHeader => [("api-key", api_key)]
  | XApiKey => [("x-api-key", api_key)]
  | GoogleApiKey => [("x-goog-api-key", api_key)]
  | Anthropic => [("x-api-key", api_key); ("anthropic-version", "2023-06-01")]
  | NoAuth => []
  end.

Definition build_upstream_auth_headers (format : Format) (api_key : string) : Headers :=
  build_headers_for_scheme (default_auth_scheme format) api_key.

Record ApiKeySource := { as_scheme : AuthScheme; as_api_key : string; as_extra_headers : Headers }.

Section sources.
Context `{HashOrder}.

Definition for_provider (p : ProviderConfig) : ApiKeySource :=
  {| as_scheme := default (default_auth_scheme (pv_format p)) (pa_scheme (pv_auth p));
     as_api_key := pv_api_key p;
     as_extra_headers := hash_iter (pa_headers (pv_auth p)) |}.

Definition materialize_headers (s : ApiKeySource) : Headers :=
  build_headers_for_scheme (as_scheme s) (as_api_key s) ++ as_extra_headers s.

Definition auth_headers (s : ApiKeySource) : result AuthError Headers := Ok (materialize_headers s).

Definition build_upstream_auth_headers_for_provider (p : ProviderConfig) : Headers :=
  materialize_headers (for_provider p).
End sources.

Definition copilot_api_headers (session_token : string) : Headers :=
  [("Authorization", "Bearer " +:+ session_token);
   ("X-GitHub-Api-Version", "2026-01-09");
   ("Editor-Version", "vscode/1.140.0");
   ("Editor-Plugin-Version", "copilot-chat/0.68.0");
   ("Copilot-Integration-Id", "vscode-chat");
   ("User-Agent", "GitHubCopilotChat/0.68.0")].

(** ** The headers of an upstream request *)

Definition HOP_BY_HOP_HEADERS : list string :=
  ["connection"; "keep-alive"; "proxy-authenticate"; "proxy-authorization"; "te"; "trailer";
   "transfer-encoding"; "upgrade"].

Definition REQUEST_CONTROL_HEADERS : list string :=
  ["host"; "content-length"; "content-type"; "authorization"].

Definition should_forward (config : PassThroughHeadersConfig) (name_lower : string) : bool :=
  let allowed := any (fun pat => glob_match pat name_lower) (pt_allow config) in
  let denied := any (fun pat => glob_match pat name_lower) (pt_deny config) in
  match pt_mode config with
  | Allow => negb denied || allowed
  | Deny => allowed && negb denied
  end.

(** One client header, under the names the sign-in already uses. *)
Definition forward_header (config : PassThroughHeadersConfig) (auth_names : list string)
    (h : string * option string) : option (string * string) :=
  let name_lower := to_ascii_lowercase h.1 in
  if decide (name_lower ∈ HOP_BY_HOP_HEADERS) then None
  else if decide (name_lower ∈ REQUEST_CONTROL_HEADERS) then None
  else if decide (name_lower ∈ auth_names) then None
  else if should_forward config name_lower then (fun v => (h.1, v)) <$> h.2
  else None.

Definition build_upstream_headers (client_headers : HeaderMap) (auth_headers : Headers)
    (config : PassThroughHeadersConfig) : Headers :=
  let auth_names := map (fun h => to_ascii_lowercase h.1) auth_headers in
  auth_headers ++ filter_map (forward_header config auth_names) client_headers.

(** * What the keys and the headers promise

    Which keys a request may carry, and what of a client's headers reaches a
    provider. *)

Local Open Scope Z_scope.

(** ** Keys *)

Lemma any_key (keys : list string) (provided : string) :
  any (fun key => bool_decide (key = provided)) keys = true <-> provided ∈ keys.
Proof.
  unfold any. rewrite existsb_exists. split.
  - intros (k & Hk%list_elem_of_In & Heq%bool_decide_eq_true). by subst.
  - intros Hk. exists provided. split; [by apply list_elem_of_In|by apply bool_decide_eq_true].
Qed.

Lemma note_key_keys provided now keys :
  map (fun e => ak_key e.2) (note_key provided now keys).2 = map (fun e => ak_key e.2) keys /\
  (forall agent, (note_key provided now keys).1 = Some agent ->
     exists e, (agent, e) ∈ keys /\ ak_key e = provided).
Proof.
  induction keys as [|[id e] keys IH]; [done|]. cbn [note_key].
  destruct (decide (ak_key e = provided)) as [<-|Hne].
  - split; [done|]. intros agent [= <-]. exists e. split; [apply list_elem_of_here|done].
  - destruct (note_key provided now keys) as [m ks]. cbn in *. destruct IH as (-> & IH).
    split; [done|]. intros agent Hm. destruct (IH agent Hm) as (e' & ? & ?).
    exists e'. split; [by right|done].
Qed.

Definition carries (header : option string) (key : string) : Prop := header = Some ("Bearer " +:+ key).

Lemma bearer_carries header key : bearer header = Some key <-> carries header key.
Proof.
  unfold bearer, carries. destruct header as [h|]; cbn [mbind option_bind]; [|by split].
  split; [intros Hp%strip_prefix_Some; by subst h|intros [= ->]; apply strip_prefix_app].
Qed.

Lemma validate_client_keys_spec (force : option string) (keys : list string) (header : option string) :
  match validate_client_keys force keys header with
  | Ok _ => force = None \/ exists key, carries header key /\ (force = Some key \/ key ∈ keys)
  | Err Missing => force <> None /\ bearer header = None
  | Err Invalid => exists expected key, force = Some expected /\ carries header key /\ key <> expected /\ key ∉ keys
  end.
Proof.
  unfold validate_client_keys. destruct force as [expected|]; [|by left].
  destruct (bearer header) as [p|] eqn:Hp; [|done]. apply bearer_carries in Hp.
  cbn [ok_or mbind result_bind].
  destruct (bool_decide (p = expected)) eqn:He; cbn [orb].
  { apply bool_decide_eq_true in He. subst p. right. eauto. }
  apply bool_decide_eq_false in He. destruct (any _ keys) eqn:Ha.
  - apply any_key in Ha. right. eauto.
  - exists expected, p. split_and!; [done|done|done|]. intros Hin%any_key. by rewrite Ha in Hin.
Qed.

Lemma authenticate_spec r global header now :
  authenticate r global header now =
  match validate_key r global header with
  | Err e => (Err e, r)
  | Ok _ =>
      (Ok (bearer header ≫= fun p => fst (note_key p now (ar_agent_keys r))),
       match bearer header with
       | None => r
       | Some p => {| ar_global_key := ar_global_key r; ar_agent_keys := snd (note_key p now (ar_agent_keys r)) |}
       end)
  end.
Proof.
  unfold authenticate, note_request_key. destruct (validate_key r global header); [|done].
  destruct (bearer header) as [p|]; [|done]. cbn. by destruct (note_key p now (ar_agent_keys r)).
Qed.

(** Who may call. Without a key in force every request passes. With one,
    an inference request passes exactly when it carries the key in force or
    the key of an agent, a management request exactly when it carries the key
    in force, so no agent's key opens the management side; a request without
    a bearer token and one with a wrong token are told apart. The key in force
    is the one of the configuration, else the registry's. Noting the use of a
    key changes no key, and names an agent whose key it is. *)
Theorem keys_accepted (r : AgentRegistry) (global header : option string) (now : Z) :
  let force := opt_or global (ar_global_key r) in
  (fst (authenticate r global header now) = Err Missing <-> force <> None /\ bearer header = None) /\
  (is_some (ok (fst (authenticate r global header now))) = true <->
     force = None \/ exists key, carries header key /\ (force = Some key \/ key ∈ key_snapshot r)) /\
  (require_management_key force header = Ok tt <->
     force = None \/ exists key, carries header key /\ force = Some key) /\
  key_snapshot (snd (authenticate r global header now)) = key_snapshot r /\
  (forall agent, fst (authenticate r global header now) = Ok (Some agent) ->
     exists e, (agent, e) ∈ ar_agent_keys r /\ carries header (ak_key e)).
Proof.
  intros force. rewrite authenticate_spec. unfold validate_key. fold force.
  pose proof (validate_client_keys_spec force (key_snapshot r) header) as Hv.
  assert (forall key, carries header key -> bearer header = Some key) as Hc by (intros key; by apply bearer_carries).
  split_and!.
  - destruct (validate_client_keys _ _ _) as [?|[]]; cbn; [|done|]; split; try done.
    + intros [Hf Hn]. destruct Hv as [?|(k & Hk & _)]; [done|]. apply Hc in Hk. congruence.
    + intros [Hf Hn]. destruct Hv as (? & k & _ & Hk & _). apply Hc in Hk. congruence.
  - destruct (validate_client_keys _ _ _) as [?|[]]; cbn; [done| |]; split; try done.
    + intros [?|(k & Hk & _)]; [tauto|]. apply Hc in Hk. destruct Hv. congruence.
    + destruct Hv as (e & k & He & Hk & Hne & Hnin). intros [?|(k' & Hk' & Hor)]; [congruence|].
      apply Hc in Hk. apply Hc in Hk'. assert (k' = k) as -> by congruence.
      destruct Hor; [congruence|done].
  - unfold require_management_key, validate_client_key. destruct force as [expected|]; [|by split; [left|]].
    destruct (bearer header) as [p|] eqn:Hp; cbn [ok_or mbind result_bind].
    + apply bearer_carries in Hp. destruct (decide (p = expected)) as [->|Hne]; split; try done.
      * intros _. right. by exists expected.
      * intros [?|(k & Hk & [= ->])]; [done|]. apply Hc in Hk. apply Hc in Hp. congruence.
    + split; [done|]. intros [?|(k & Hk & _)]; [done|]. apply Hc in Hk. congruence.
  - destruct (validate_client_keys _ _ _); [|done]. cbn [snd]. destruct (bearer header) as [p|]; [|done].
    unfold key_snapshot. cbn [ar_agent_keys]. apply note_key_keys.
  - destruct (validate_client_keys _ _ _); [|done]. cbn [fst]. intros agent [= Ha].
    destruct (bearer header) as [p|] eqn:Hp; [|done]. cbn in Ha.
    apply note_key_keys in Ha as (e & Hin & Hke). exists e. split; [done|]. rewrite Hke. by apply bearer_carries.
Qed.

(** ** Headers *)

Lemma forward_header_Some config names h n v :
  forward_header config names h = Some (n, v) <->
  h = (n, Some v) /\ (to_ascii_lowercase n ∉ HOP_BY_HOP_HEADERS ++ REQUEST_CONTROL_HEADERS) /\
  (to_ascii_lowercase n ∉ names) /\ should_forward config (to_ascii_lowercase n) = true.
Proof.
  destruct h as [m w]. unfold forward_header. cbn [fst snd]. rewrite not_elem_of_app. split.
  - intros Hf. repeat case_decide; try done. destruct (should_forward _ _) eqn:Hs; [|done].
    destruct w as [w|]; [|done]. cbn in Hf. by simplify_eq.
  - intros ([= -> ->] & [Hh Hr] & Hn & Hs). by rewrite !decide_False, Hs by done.
Qed.

(** C33: what of a client's headers reaches a provider. The headers that sign
    in to the provider come first, unchanged, and no later header has the
    name of one of them, in whatever case. After them come, in the client's
    order, the client's headers that the configuration lets through and that
    are readable, none of them a hop-by-hop header or one the proxy sets
    itself: the gateway's own key, which arrives in Authorization, is never
    passed on. Filtering the result again, as the code does when it sends,
    changes nothing. *)
Theorem upstream_headers (client : HeaderMap) (auth : Headers) (config : PassThroughHeadersConfig) :
  exists forwarded,
    build_upstream_headers client auth config = auth ++ forwarded /\
    sublist (map (fun h => (h.1, Some h.2)) forwarded) client /\
    (forall n v, ((n, v) ∈ forwarded) <->
       ((n, Some v) ∈ client) /\
       (to_ascii_lowercase n ∉ HOP_BY_HOP_HEADERS ++ REQUEST_CONTROL_HEADERS) /\
       (forall a, a ∈ auth -> to_ascii_lowercase a.1 <> to_ascii_lowercase n) /\
       should_forward config (to_ascii_lowercase n) = true) /\
    (forall n v, (n, v) ∈ forwarded -> to_ascii_lowercase n <> "authorization") /\
    build_upstream_headers client (build_upstream_headers client auth config) config =
      build_upstream_headers client auth config.
Proof.
  unfold build_upstream_headers. set (names := map _ auth).
  assert (forall n : string, (n ∉ names) <-> forall a, a ∈ auth -> to_ascii_lowercase a.1 <> n) as Hnames.
  { intros n. subst names. rewrite list_elem_of_fmap. split.
    - intros Hn a Ha He. apply Hn. by exists a.
    - intros Hn (a & -> & Ha). by apply (Hn a). }
  eexists. split_and!; [done| | | |].
  - induction client as [|h client IH]; [done|]. rewrite filter_map_cons.
    destruct (forward_header config names h) as [[n v]|] eqn:Hh.
    + apply forward_header_Some in Hh as (-> & _). by apply sublist_skip.
    + by apply sublist_cons.
  - intros n v. rewrite elem_of_filter_map. rewrite <- Hnames. split.
    + intros (h & Hin & Hf). apply forward_header_Some in Hf as (-> & ?). tauto.
    + intros (Hin & ?). exists (n, Some v). split; [done|]. apply forward_header_Some. tauto.
  - intros n v (h & _ & Hf)%elem_of_filter_map. apply forward_header_Some in Hf as (_ & Hn & _).
    intros He. rewrite He in Hn. apply Hn. set_solver.
  - rewrite <- (app_nil_r (auth ++ _)) at 3. f_equal. apply filter_map_none. apply List.Forall_forall.
    intros [n w] Hin%list_elem_of_In. destruct (forward_header config _ (n, w)) as [[m v]|] eqn:Hf; [|done].
    apply forward_header_Some in Hf as ([= -> ->] & Hh & Hn & Hs). exfalso. apply Hn.
    rewrite fmap_app. apply elem_of_app. destruct (decide (to_ascii_lowercase m ∈ names)); [by left|]. right.
    apply list_elem_of_fmap. exists (m, v). split; [done|]. apply elem_of_filter_map.
    exists (m, Some v). split; [done|]. by apply forward_header_Some.
Qed.

(** A finding about case. Names are compared in lower case, patterns as they
    are written: a pattern with a capital letter never matches a header, so
    denying [Cookie] lets every cookie through. *)
Example deny_pattern_case :
  let config pat := {| pt_mode := Allow; pt_allow := []; pt_deny := [pat] |} in
  let client := [("cookie", Some "id=1")] in
  build_upstream_headers client [] (config "Cookie") = [("cookie", "id=1")] /\
  build_upstream_headers client [] (config "cookie") = [].
Proof. by vm_compute. Qed.
