(* ===== verification/FileLock.v ===== *)
(** * The cross-process file lock

    lockfile.rs: a lock is a file that its holder creates and removes. Each
    attempt is a few file operations, other processes act between any two of
    them, and a holder may die; so the lock is a state machine whose steps are
    single file operations. *)
From Stdlib Require Import ZArith Lia.
From stdpp Require Import functions pretty.
From S2P Require Import Prelude.
From S2P Require Import RustStd.

Local Open Scope Z_scope.

(** Times are in nanoseconds. *)
Definition DEFAULT_STALE_AFTER : Z := 30 * 1000000000.
Definition DEFAULT_ACQUIRE_TIMEOUT : Z := 10 * 1000000000.
Definition RETRY_INTERVAL : Z := 50 * 1000000.

Inductive LockError : Type := LockIo | LockTimeout.

(** ** The file

    What the path names: the contents, the time of the last change, and which
    file it is (a file that was removed lives on for those who hold it
    open). *)
Record LockFile := { lf_contents : string; lf_modified : Z; lf_inode : nat }.

Fixpoint pad9_fuel (n : nat) (s : string) : string :=
  match n with
  | O => s
  | S n => if (String.length s <? 9)%nat then pad9_fuel n ("0" +:+ s) else s
  end.

(** [format!("pid={} at={}.{:09}\n", ...)]. *)
Definition payload (pid : Z) (now : Z) : string :=
  "pid=" +:+ pretty pid +:+ " at=" +:+ pretty (now / 1000000000) +:+ "." +:+
  pad9_fuel 9 (pretty (now mod 1000000000)) +:+ newline.

(** ** A contender

    Where a call of [acquire_timeout] and the guard it returns are: the
    operation that comes next. *)
Inductive Phase : Type :=
  | Idle
  | Opening (deadline : Z)
  | Writing (inode : nat) (text : string)
  | Inspecting (deadline : Z)
  | Removing (deadline : Z)
  | Holding (inode : nat) (text : string)
  | Dropping (inode : nat) (text : string)
  | Failed (e : LockError).

Record Lock := {
  lk_file : option LockFile;
  lk_next_inode : nat;
  lk_now : Z;
  lk_phase : nat -> Phase
}.

Definition lock0 (now : Z) : Lock :=
  {| lk_file := None; lk_next_inode := 0; lk_now := now; lk_phase := fun _ => Idle |}.

Definition set_phase (i : nat) (p : Phase) (s : Lock) : Lock :=
  {| lk_file := lk_file s; lk_next_inode := lk_next_inode s; lk_now := lk_now s;
     lk_phase := <[i := p]> (lk_phase s) |}.

Definition set_file (f : option LockFile) (s : Lock) : Lock :=
  {| lk_file := f; lk_next_inode := lk_next_inode s; lk_now := lk_now s; lk_phase := lk_phase s |}.

(** ** The operations *)

(** [OpenOptions::create_new]: atomic, and fails when the path exists. *)
Definition create_new (s : Lock) : option (nat * Lock) :=
  match lk_file s with
  | Some _ => None
  | None =>
      let n := lk_next_inode s in
      Some (n, {| lk_file := Some {| lf_contents := ""; lf_modified := lk_now s; lf_inode := n |};
                  lk_next_inode := S n; lk_now := lk_now s; lk_phase := lk_phase s |})
  end.

(** [write_all] through the open file: the path shows it only while it still
    names that file. *)
Definition write_all (n : nat) (text : string) (s : Lock) : Lock :=
  match lk_file s with
  | Some f =>
      if decide (lf_inode f = n) then
        set_file (Some {| lf_contents := text; lf_modified := lk_now s; lf_inode := n |}) s
      else s
  | None => s
  end.

Definition remove_file (s : Lock) : Lock := set_file None s.

(** [metadata], [modified] and [elapsed]: a missing file is not abandoned. *)
Definition abandoned (stale_after : Z) (s : Lock) : bool :=
  match lk_file s with
  | Some f => stale_after <? lk_now s - lf_modified f
  | None => false
  end.

Definition owns (text : string) (s : Lock) : bool :=
  match lk_file s with
  | Some f => bool_decide (lf_contents f = text)
  | None => false
  end.

(** ** The machine

    [Go i] lets contender [i] do its next operation; the others are the events
    the code does not choose. *)
Inductive Event : Type :=
  | Start (i : nat)
  | Go (i : nat)
  | IoError (i : nat)
  | Crash (i : nat)
  | Tick (d : Z).

Section machine.
Variables (stale_after timeout : Z) (pid : nat -> Z).

Definition lock_go (i : nat) (s : Lock) : option Lock :=
  match lk_phase s i with
  | Opening deadline =>
      match create_new s with
      | Some (n, s') => Some (set_phase i (Writing n (payload (pid i) (lk_now s))) s')
      | None => Some (set_phase i (Inspecting deadline) s)
      end
  | Writing n text => Some (set_phase i (Holding n text) (write_all n text s))
  | Inspecting deadline =>
      Some (set_phase i
              (if abandoned stale_after s then Removing deadline
               else if deadline <=? lk_now s then Failed LockTimeout
               else Opening deadline) s)
  | Removing deadline => Some (set_phase i (Opening deadline) (remove_file s))
  | Holding n text => Some (set_phase i (if owns text s then Dropping n text else Idle) s)
  | Dropping n text => Some (set_phase i Idle (remove_file s))
  | Idle | Failed _ => None
  end.

Definition lock_step (e : Event) (s : Lock) : option Lock :=
  match e with
  | Start i =>
      match lk_phase s i with
      | Idle => Some (set_phase i (Opening (lk_now s + timeout)) s)
      | _ => None
      end
  | Go i => lock_go i s
  | IoError i =>
      match lk_phase s i with
      | Opening _ => Some (set_phase i (Failed LockIo) s)
      | Writing _ _ => Some (set_phase i (Failed LockIo) (remove_file s))
      | _ => None
      end
  | Crash i => Some (set_phase i Idle s)
  | Tick d =>
      if 0 <=? d then
        Some {| lk_file := lk_file s; lk_next_inode := lk_next_inode s; lk_now := lk_now s + d;
                lk_phase := lk_phase s |}
      else None
  end.

Fixpoint lock_run (es : list Event) (s : Lock) : option Lock :=
  match es with
  | [] => Some s
  | e :: es => s ← lock_step e s; lock_run es s
  end.
End machine.

(** * What the file lock promises

    One holder at a time, as long as no lock file grows old; and what happens
    when one does. *)
From stdpp Require Import functions.

Local Open Scope Z_scope.

(** The file a contender has created and not given up. *)
Definition held (p : Phase) : option nat :=
  match p with
  | Writing n _ | Holding n _ | Dropping n _ => Some n
  | _ => None
  end.

Definition holds (s : Lock) (i : nat) : Prop := is_some (held (lk_phase s i)) = true.

Section machine.
Variables (stale_after timeout : Z) (pid : nat -> Z).

(** No lock file is older than [stale_after]. *)
Definition timely (s : Lock) : Prop :=
  forall f, lk_file s = Some f -> lk_now s - lf_modified f <= stale_after.

(** The states of the runs that start without a lock file, and of those in
    which every state is timely. *)
Inductive reachable : Lock -> Prop :=
  | reach_init now : reachable (lock0 now)
  | reach_step s e s' : reachable s -> lock_step stale_after timeout pid e s = Some s' -> reachable s'.

Inductive reachable_timely : Lock -> Prop :=
  | timely_init now : reachable_timely (lock0 now)
  | timely_step s e s' :
      reachable_timely s -> lock_step stale_after timeout pid e s = Some s' -> timely s' -> reachable_timely s'.

(** The invariant: nobody is about to remove a lock file that is not his, and
    who holds the lock holds the file at the path, which nobody else made. *)
Record exclusive (s : Lock) : Prop := {
  ex_removing : forall i d, lk_phase s i <> Removing d;
  ex_file : forall i n, held (lk_phase s i) = Some n ->
    exists f, lk_file s = Some f /\ lf_inode f = n /\ (n < lk_next_inode s)%nat;
  ex_one : forall i j n, held (lk_phase s i) = Some n -> held (lk_phase s j) = Some n -> i = j;
  ex_text : forall i n text, lk_phase s i = Holding n text \/ lk_phase s i = Dropping n text ->
    exists f, lk_file s = Some f /\ lf_contents f = text
}.

Lemma phase_insert s i p j :
  lk_phase (set_phase i p s) j = if decide (i = j) then p else lk_phase s j.
Proof. cbn. destruct (decide (i = j)) as [->|]; [apply fn_lookup_insert|by apply fn_lookup_insert_ne]. Qed.

(** A step that leaves the file alone and does not make its contender a
    holder keeps the invariant. *)
Lemma exclusive_quiet s i p :
  exclusive s -> held p = None -> (forall d, p <> Removing d) -> exclusive (set_phase i p s).
Proof.
  intros [Hr Hf Ho Hx] Hp Hq. constructor.
  - intros j d. rewrite phase_insert. by case_decide.
  - intros j n. rewrite phase_insert. case_decide; [by rewrite Hp|]. apply Hf.
  - intros j k n. rewrite !phase_insert. repeat case_decide; try (by rewrite Hp). apply Ho.
  - intros j n text. rewrite phase_insert. case_decide; [intros [->| ->]; done|]. apply Hx.
Qed.

Lemma exclusive_create s i n s' text :
  exclusive s -> create_new s = Some (n, s') -> held (lk_phase s i) = None ->
  exclusive (set_phase i (Writing n text) s').
Proof.
  intros [Hr Hf Ho Hx] Hc Hi. unfold create_new in Hc. destruct (lk_file s) eqn:Hfile; [done|].
  injection Hc as <- <-.
  assert (forall j, held (lk_phase s j) = None) as Hnone.
  { intros j. destruct (held (lk_phase s j)) as [m|] eqn:Hj; [|done].
    destruct (Hf j m Hj) as (f & ? & _). congruence. }
  constructor.
  - intros j d. rewrite phase_insert. case_decide; [done|]. apply Hr.
  - intros j m. rewrite phase_insert. case_decide; cbn; [|by rewrite Hnone].
    intros [= <-]. eexists. split_and!; [done|done|lia].
  - intros j k m. rewrite !phase_insert. cbn [lk_phase]. repeat case_decide; rewrite ?Hnone; congruence.
  - intros j m txt. rewrite phase_insert. case_decide; [by intros [|]|]. cbn [lk_phase].
    intros Hj. specialize (Hnone j). destruct Hj as [Hj|Hj]; rewrite Hj in Hnone; done.
Qed.

Lemma exclusive_write s i n text :
  exclusive s -> lk_phase s i = Writing n text ->
  exclusive (set_phase i (Holding n text) (write_all n text s)).
Proof.
  intros [Hr Hf Ho Hx] Hi. destruct (Hf i n) as (f & Hfile & Hn & Hlt); [by rewrite Hi|].
  assert (forall j m, i <> j -> held (lk_phase s j) = Some m -> False) as Hothers.
  { intros j m Hij Hj. destruct (Hf j m Hj) as (f' & Hf' & Hm & _). apply Hij.
    apply (Ho i j n); [by rewrite Hi|]. rewrite Hj. congruence. }
  unfold write_all. rewrite Hfile, decide_True by done. constructor.
  - intros j d. rewrite phase_insert. case_decide; [done|]. apply Hr.
  - intros j m. rewrite phase_insert. case_decide; cbn.
    + intros [= <-]. eexists. by split_and!.
    + intros Hj. by destruct (Hothers j m).
  - intros j k m. rewrite !phase_insert. cbn [lk_phase set_file]. repeat case_decide; intros Hj Hk; try congruence.
    + by destruct (Hothers k m).
    + by destruct (Hothers j m).
    + by apply (Ho j k m).
  - intros j m txt. rewrite phase_insert. case_decide; cbn [lk_phase lk_file set_file set_phase].
    + intros [[= <- <-]|]; [|done]. eexists. by split.
    + intros Hj. destruct (Hothers j m); [done|]. by destruct Hj as [-> | ->].
Qed.

(** The holder removes the file: he alone holds it, so the path is free. *)
Lemma exclusive_remove s i n p :
  exclusive s -> held (lk_phase s i) = Some n -> held p = None -> (forall d, p <> Removing d) ->
  exclusive (set_phase i p (remove_file s)).
Proof.
  intros [Hr Hf Ho Hx] Hi Hp Hq. destruct (Hf i n Hi) as (f & Hfile & Hn & Hlt).
  assert (forall j, i <> j -> held (lk_phase s j) = None) as Hothers.
  { intros j Hij. destruct (held (lk_phase s j)) as [m|] eqn:Hj; [|done]. destruct Hij.
    destruct (Hf j m Hj) as (f' & Hf' & Hm & _). apply (Ho i j n); [done|]. rewrite Hj. congruence. }
  assert (forall j, held (lk_phase (set_phase i p (remove_file s)) j) = None) as Hnone.
  { intros j. rewrite phase_insert. case_decide; [done|]. by apply Hothers. }
  constructor.
  - intros j d. rewrite phase_insert. case_decide; [done|]. apply Hr.
  - intros j m. by rewrite Hnone.
  - intros j k m. by rewrite Hnone.
  - intros j m txt Hj. specialize (Hnone j). destruct Hj as [Hj|Hj]; by rewrite Hj in Hnone.
Qed.

Lemma exclusive_drop s i n text :
  exclusive s -> lk_phase s i = Holding n text ->
  owns text s = true /\ exclusive (set_phase i (Dropping n text) s).
Proof.
  intros He Hi. pose proof He as [Hr Hf Ho Hx]. destruct (Hx i n text) as (f & Hfile & Htext); [by left|].
  assert (forall j, held (lk_phase (set_phase i (Dropping n text) s) j) = held (lk_phase s j)) as Hh.
  { intros j. rewrite phase_insert. case_decide; [|done]. subst j. by rewrite Hi. }
  split; [unfold owns; rewrite Hfile; by apply bool_decide_eq_true|]. constructor.
  - intros j d. rewrite phase_insert. case_decide; [done|]. apply Hr.
  - intros j m. rewrite Hh. apply Hf.
  - intros j k m. rewrite !Hh. apply Ho.
  - intros j m txt. rewrite phase_insert. case_decide; [|apply Hx].
    intros [|[= <- <-]]; [done|]. by exists f.
Qed.

Lemma timely_not_abandoned s : timely s -> abandoned stale_after s = false.
Proof.
  unfold timely, abandoned. destruct (lk_file s) as [f|]; [|done]. intros Ht. specialize (Ht f eq_refl). lia.
Qed.

Lemma exclusive_step s e s' :
  timely s -> exclusive s -> lock_step stale_after timeout pid e s = Some s' -> exclusive s'.
Proof.
  intros Ht He. destruct e as [i|i|i|i|d]; cbn [lock_step].
  - destruct (lk_phase s i); try done. intros [= <-]. by apply exclusive_quiet.
  - unfold lock_go. destruct (lk_phase s i) as [ |dl|n text|dl|dl|n text|n text|err] eqn:Hi; try done.
    + destruct (create_new s) as [[n s1]|] eqn:Hc; intros [= <-]; [|by apply exclusive_quiet].
      apply (exclusive_create s); [done|done|by rewrite Hi].
    + intros [= <-]. by apply exclusive_write.
    + rewrite timely_not_abandoned by done. intros [= <-].
      apply exclusive_quiet; [done|by destruct (dl <=? lk_now s)|intros d; by destruct (dl <=? lk_now s)].
    + by destruct (ex_removing s He i dl).
    + destruct (exclusive_drop s i n text He Hi) as [-> Hd]. by intros [= <-].
    + intros [= <-]. apply (exclusive_remove s i n); [done|by rewrite Hi|done|done].
  - destruct (lk_phase s i) eqn:Hi; try done; intros [= <-].
    + by apply exclusive_quiet.
    + eapply exclusive_remove; [done|by rewrite Hi|done|done].
  - intros [= <-]. by apply exclusive_quiet.
  - destruct (0 <=? d); [|done]. intros [= <-]. destruct He as [Hr Hf Ho Hx]. by constructor.
Qed.

Lemma reachable_exclusive s : reachable_timely s -> timely s /\ exclusive s.
Proof.
  induction 1 as [now|s e s' _ [Ht He] Hstep Ht']; [|split; [done|eauto using exclusive_step]].
  split; [done|]. constructor; cbn; try done. intros i n text [|]; done.
Qed.

(** C28: mutual exclusion. However the steps of the contenders, their crashes
    and their failures are interleaved, as long as no lock file gets older
    than the limit after which it counts as abandoned, at most one contender
    holds the lock, the file is his until he removes it himself, and nobody
    else's drop or takeover removes it. *)
Theorem lock_exclusive (s : Lock) (i j : nat) :
  reachable_timely s -> holds s i ->
  (holds s j -> i = j) /\
  (exists f, lk_file s = Some f /\ held (lk_phase s i) = Some (lf_inode f)) /\
  (forall e s', lock_step stale_after timeout pid e s = Some s' ->
     lk_file s' = None -> e = Go i \/ e = IoError i).
Proof.
  intros [Ht He]%reachable_exclusive Hi. unfold holds in *.
  destruct (held (lk_phase s i)) as [n|] eqn:Hhi; [|done].
  pose proof He as [Hr Hf Ho Hx]. destruct (Hf i n Hhi) as (f & Hfile & <- & Hlt).
  assert (forall k, is_some (held (lk_phase s k)) = true -> i = k) as Hone.
  { intros k Hk. destruct (held (lk_phase s k)) as [m|] eqn:Hhk; [|done].
    destruct (Hf k m Hhk) as (f' & Hf' & <- & _). apply (Ho i k (lf_inode f)); [done|]. congruence. }
  split_and!; [apply Hone|by exists f|].
  intros e s' Hstep Hnone. destruct e as [k|k|k|k|d]; cbn [lock_step] in Hstep.
  - destruct (lk_phase s k); try done. injection Hstep as <-. cbn in Hnone. congruence.
  - left. f_equal. symmetry. unfold lock_go, create_new in Hstep.
    destruct (lk_phase s k) eqn:Hk; rewrite ?Hfile in Hstep; try done;
      try (injection Hstep as <-; cbn in Hnone; congruence).
    + apply Hone. by rewrite Hk.
    + by destruct (Hr k deadline).
    + apply Hone. by rewrite Hk.
  - right. f_equal. symmetry. destruct (lk_phase s k) eqn:Hk; try done; injection Hstep as <-; cbn in Hnone;
      [congruence|]. apply Hone. by rewrite Hk.
  - injection Hstep as <-. cbn in Hnone. congruence.
  - destruct (0 <=? d); [|done]. injection Hstep as <-. cbn in Hnone. congruence.
Qed.
End machine.

(** ** Runs *)

Section runs.
Variables (stale_after timeout : Z) (pid : nat -> Z).

Definition timely_b (s : Lock) : bool :=
  match lk_file s with Some f => lk_now s - lf_modified f <=? stale_after | None => true end.

Fixpoint timely_run (es : list Event) (s : Lock) : option Lock :=
  match es with
  | [] => Some s
  | e :: es => s ← lock_step stale_after timeout pid e s; if timely_b s then timely_run es s else None
  end.

Lemma timely_run_reachable es s s' :
  reachable_timely stale_after timeout pid s -> timely_run es s = Some s' ->
  reachable_timely stale_after timeout pid s'.
Proof.
  revert s. induction es as [|e es IH]; cbn; intros s Hs Hrun; [by simplify_eq|].
  destruct (lock_step _ _ _ e s) as [s1|] eqn:He; [|done]. cbn in Hrun.
  destruct (timely_b s1) eqn:Ht; [|done]. apply (IH s1); [|done].
  apply (timely_step _ _ _ s e s1); [done|done|]. intros f Hf. unfold timely_b in Ht. rewrite Hf in Ht. lia.
Qed.

Lemma timely_run_default es s :
  reachable_timely stale_after timeout pid s -> is_some (timely_run es s) = true ->
  reachable_timely stale_after timeout pid (default s (timely_run es s)).
Proof.
  intros Hs Hr. destruct (timely_run es s) as [s'|] eqn:He; [|done]. by apply (timely_run_reachable es s).
Qed.

Lemma run_reachable es s s' :
  reachable stale_after timeout pid s -> lock_run stale_after timeout pid es s = Some s' ->
  reachable stale_after timeout pid s'.
Proof.
  revert s. induction es as [|e es IH]; cbn; intros s Hs Hrun; [by simplify_eq|].
  destruct (lock_step _ _ _ e s) as [s1|] eqn:He; [|done]. apply (IH s1); [|done].
  by apply (reach_step _ _ _ s e).
Qed.

Lemma run_default es s :
  reachable stale_after timeout pid s -> is_some (lock_run stale_after timeout pid es s) = true ->
  reachable stale_after timeout pid (default s (lock_run stale_after timeout pid es s)).
Proof.
  intros Hs Hr. destruct (lock_run _ _ _ es s) as [s'|] eqn:He; [|done]. by apply (run_reachable es s).
Qed.
End runs.

(** A contender that takes the lock while another is waiting for it. *)
Definition sample_events : list Event := [Start 0; Go 0; Start 1; Go 1; Go 0; Tick RETRY_INTERVAL; Go 1].
Definition sample_lock : Lock :=
  default (lock0 5) (timely_run DEFAULT_STALE_AFTER DEFAULT_ACQUIRE_TIMEOUT (fun _ => 7) sample_events (lock0 5)).

Lemma lock_exclusive_witness :
  holds sample_lock 0 /\ ~ holds sample_lock 1 /\
  exists f, lk_file sample_lock = Some f /\ lf_contents f = payload 7 5.
Proof.
  assert (reachable_timely DEFAULT_STALE_AFTER DEFAULT_ACQUIRE_TIMEOUT (fun _ => 7) sample_lock) as Hr.
  { apply timely_run_default; [apply timely_init|]. vm_compute. reflexivity. }
  destruct (lock_exclusive _ _ _ sample_lock 0 1 Hr) as (Hone & _ & _); [reflexivity|].
  split; [reflexivity|]. split; [intros H1; discriminate (Hone H1)|].
  eexists. split; vm_compute; reflexivity.
Defined.

(** A finding about takeovers. Looking at the age of a lock file and removing
    it are two operations: of two contenders that both find the file of a
    crashed holder abandoned, the slower one removes the new file of the
    faster, and both hold the lock, though no holder alive has held it for
    any time at all. *)
Definition takeover_run : list Event :=
  [Start 0; Go 0; Go 0; Crash 0; Tick (DEFAULT_STALE_AFTER + 1); Start 1; Start 2;
   Go 1; Go 2; Go 1; Go 2; Go 1; Go 1; Go 1; Go 2; Go 2; Go 2].

Lemma lock_takeover_race :
  exists s, reachable DEFAULT_STALE_AFTER DEFAULT_ACQUIRE_TIMEOUT Z.of_nat s /\ holds s 1 /\ holds s 2.
Proof.
  exists (default (lock0 5) (lock_run DEFAULT_STALE_AFTER DEFAULT_ACQUIRE_TIMEOUT Z.of_nat takeover_run (lock0 5))).
  split; [|split; vm_compute; reflexivity].
  apply run_default; [apply reach_init|]. vm_compute. reflexivity.
Qed.
