(* ===== verification/SecretStore.v ===== *)
(** * Credentials and the file that keeps them

    The credential of credentials/mod.rs, the extra fields of a ChatGPT
    sign-in (credentials/siwc_store.rs) and the store of credentials/store.rs:
    one file that holds every credential, and a copy of it that is taken after
    every write. Writes are those of a Unix system, where a rename replaces the
    file or leaves it. *)
From Stdlib Require Import ZArith Lia.
From stdpp Require Import gmap.
From S2P Require Import Prelude.
From S2P Require Import RustStd.

Local Open Scope Z_scope.

Record SiwcMeta := {
  sm_client_id : string;
  sm_host_id : string;
  sm_id_token : string;
  sm_scopes : list string
}.

Inductive Credential : Type :=
  | CredApiKey (key : string)
  | CredOAuth (provider account access_token : string) (refresh_token : option string)
              (expires_at_unix : option Z) (siwc : option SiwcMeta).

#[export] Instance SiwcMeta_eq_dec : EqDecision SiwcMeta.
Proof. solve_decision. Defined.
#[export] Instance Credential_eq_dec : EqDecision Credential.
Proof. solve_decision. Defined.

Abbreviation DiskMap := (gmap string Credential).

(** What a path of the store holds: nothing, something that cannot be read or
    parsed, or a map. *)
Inductive StoreFile : Type := NoFile | Broken | Holds (m : DiskMap).

Inductive SecretStoreError : Type := StoreIo | StoreSerialize | StoreNotFound.

(** How one [save] ends: the error of the write, which then leaves the file as
    it was; whether [exists] finds the file that was written; and the copy of
    it to the backup, which leaves [leaves] there when it fails. *)
Inductive CopyEnd : Type := Copied | CopyFailed (leaves : StoreFile).
Record SaveEnd := { se_write : option SecretStoreError; se_exists : bool; se_copy : CopyEnd }.
Definition saved : SaveEnd := {| se_write := None; se_exists := true; se_copy := Copied |}.

(** [fs_saves] are the ends of the next saves; those after them end well. *)
Record FileSecretStore := { fs_path : StoreFile; fs_backup_path : StoreFile; fs_saves : list SaveEnd }.
Definition next_save (saves : list SaveEnd) : SaveEnd * list SaveEnd :=
  match saves with [] => (saved, []) | e :: saves => (e, saves) end.

Definition read_file (f : StoreFile) : result SecretStoreError (option DiskMap) :=
  match f with
  | NoFile => Ok None
  | Broken => Err StoreSerialize
  | Holds m => Ok (Some m)
  end.

Definition load (s : FileSecretStore) : result SecretStoreError DiskMap :=
  match read_file (fs_path s) with
  | Ok (Some map) => Ok map
  | Ok None => Ok ∅
  | Err _ =>
      match read_file (fs_backup_path s) with
      | Ok (Some map) => Ok map
      | Ok None => Err StoreNotFound
      | Err e => Err e
      end
  end.

(** The copy's result is not looked at. *)
Definition save (m : DiskMap) (s : FileSecretStore) : result SecretStoreError unit * FileSecretStore :=
  let '(e, saves) := next_save (fs_saves s) in
  match se_write e with
  | Some err => (Err err, {| fs_path := fs_path s; fs_backup_path := fs_backup_path s; fs_saves := saves |})
  | None =>
      (Ok tt, {| fs_path := Holds m;
                 fs_backup_path := if se_exists e then match se_copy e with Copied => Holds m | CopyFailed leaves => leaves end
                                   else fs_backup_path s;
                 fs_saves := saves |})
  end.

Definition store_put (account_id : string) (cred : Credential) (s : FileSecretStore)
  : result SecretStoreError unit * FileSecretStore :=
  match load s with
  | Ok map => save (<[account_id := cred]> map) s
  | Err e => (Err e, s)
  end.

Definition store_get (account_id : string) (s : FileSecretStore) : result SecretStoreError (option Credential) :=
  map ← load s; Ok (map !! account_id).

Definition store_delete (account_id : string) (s : FileSecretStore) : result SecretStoreError unit * FileSecretStore :=
  match load s with
  | Ok map =>
      match map !! account_id with
      | Some _ => save (delete account_id map) s
      | None => (Ok tt, s)
      end
  | Err e => (Err e, s)
  end.

(** The order of the ids is not specified. *)
Definition store_list (s : FileSecretStore) : result SecretStoreError (list string) :=
  map ← load s; Ok (fst <$> map_to_list map).

(** * What the store promises

    The uses of a store, and the damage its main file may take between them:
    it can then not be read or parsed until it is written again. *)
Inductive StoreUse : Type :=
  | UsePut (account_id : string) (cred : Credential)
  | UseDelete (account_id : string)
  | Damage.

Definition use (u : StoreUse) (s : FileSecretStore) : result SecretStoreError unit * FileSecretStore :=
  match u with
  | UsePut a c => store_put a c s
  | UseDelete a => store_delete a s
  | Damage => (Ok tt, {| fs_path := Broken; fs_backup_path := fs_backup_path s; fs_saves := fs_saves s |})
  end.
Fixpoint use_all (uses : list StoreUse) (s : FileSecretStore) : list (result SecretStoreError unit) * FileSecretStore :=
  match uses with
  | [] => ([], s)
  | u :: uses => let '(r, s) := use u s in let '(rs, s) := use_all uses s in (r :: rs, s)
  end.

(** The specification: a map, and whether the last write that succeeded was
    copied as well. [None]: the file is damaged while it was not. *)
Record Kept := { k_map : DiskMap; k_copied : bool; k_saves : list SaveEnd }.

Definition copies (e : SaveEnd) : bool := se_exists e && match se_copy e with Copied => true | CopyFailed _ => false end.
Definition keep (m : DiskMap) (k : Kept) : result SecretStoreError unit * Kept :=
  let '(e, saves) := next_save (k_saves k) in
  match se_write e with
  | Some err => (Err err, {| k_map := k_map k; k_copied := k_copied k; k_saves := saves |})
  | None => (Ok tt, {| k_map := m; k_copied := copies e; k_saves := saves |})
  end.
Definition keep_use (u : StoreUse) (k : Kept) : option (result SecretStoreError unit * Kept) :=
  match u with
  | UsePut a c => Some (keep (<[a := c]> (k_map k)) k)
  | UseDelete a => Some (if decide (a ∈ dom (k_map k)) then keep (delete a (k_map k)) k else (Ok tt, k))
  | Damage => if k_copied k then Some (Ok tt, k) else None
  end.
Fixpoint keep_all (uses : list StoreUse) (k : Kept) : option (list (result SecretStoreError unit) * Kept) :=
  match uses with
  | [] => Some ([], k)
  | u :: uses =>
      '(r, k) ← keep_use u k;
      '(rs, k) ← keep_all uses k;
      Some (r :: rs, k)
  end.

Record keeps_to (k : Kept) (s : FileSecretStore) : Prop := {
  kt_load : load s = Ok (k_map k);
  kt_backup : k_copied k = true -> fs_backup_path s = Holds (k_map k);
  kt_saves : fs_saves s = k_saves k
}.

Lemma save_keeps m k s : keeps_to k s ->
  fst (save m s) = fst (keep m k) /\ keeps_to (snd (keep m k)) (snd (save m s)).
Proof.
  intros [Hl Hb Hs]. unfold save, keep. rewrite Hs. destruct (next_save (k_saves k)) as [e saves].
  destruct (se_write e); cbn; (split; [done|]); split; cbn; try done.
  unfold copies. by destruct (se_exists e), (se_copy e).
Qed.

Lemma use_keeps u k s r k' : keeps_to k s -> keep_use u k = Some (r, k') ->
  fst (use u s) = r /\ keeps_to k' (snd (use u s)).
Proof.
  intros Hk Hu. pose proof Hk as [Hl Hb Hs]. destruct u as [a c|a|]; cbn in *.
  - unfold store_put. rewrite Hl. injection Hu as Hu. pose proof (save_keeps (<[a := c]> (k_map k)) k s Hk). by rewrite Hu in *.
  - unfold store_delete. rewrite Hl. case_decide as Hin.
    + injection Hu as Hu. apply elem_of_dom in Hin as [c ->]. pose proof (save_keeps (delete a (k_map k)) k s Hk). by rewrite Hu in *.
    + injection Hu as <- <-. apply not_elem_of_dom in Hin. by rewrite Hin.
  - destruct (k_copied k) eqn:Hc; [|done]. injection Hu as <- <-. split; [done|]. specialize (Hb eq_refl).
    split; cbn; [|done..]. unfold load. cbn. by rewrite Hb.
Qed.

(** C32: the store is a finite map. Take a new store and any sequence of puts
    and deletes, each of whose saves may fail (the write, the look whether the
    file is there, or the copy to the backup, whose failure the code passes
    over and which may leave anything there), and of damage to the main file,
    where the file is damaged only while the last write that succeeded was also
    copied. Then every put and delete answers what the map's does, which
    changes the map exactly where the write succeeds; every read succeeds and
    gives the map, an id for an id and the ids in the list, each once. When no
    save fails, damage at any time after a first put is such a sequence. *)
Theorem store_refines_map (saves : list SaveEnd) (uses : list StoreUse) :
  let fresh := {| fs_path := NoFile; fs_backup_path := NoFile; fs_saves := saves |} in
  let start := {| k_map := ∅; k_copied := false; k_saves := saves |} in
  (forall rs k, keep_all uses start = Some (rs, k) ->
     fst (use_all uses fresh) = rs /\
     let s := snd (use_all uses fresh) in
     load s = Ok (k_map k) /\ (forall id, store_get id s = Ok (k_map k !! id)) /\
     exists ids, store_list s = Ok ids /\ NoDup ids /\ forall id, id ∈ ids <-> id ∈ dom (k_map k)) /\
  (saves = [] -> forall first cred, is_Some (keep_all (UsePut first cred :: uses) start)).
Proof.
  intros fresh start. split.
  - assert (keeps_to start fresh) as H0 by done. revert H0. generalize fresh, start. clear. intros s k.
    revert s k. induction uses as [|u uses IH]; intros s k Hk rs k' Hrun; cbn in Hrun.
    + injection Hrun as <- <-. destruct Hk as [Hl _ _]. cbn. split_and!; [done|done|..].
      * intros id. unfold store_get. by rewrite Hl.
      * unfold store_list. rewrite Hl. cbn. eexists. split; [done|]. split; [apply NoDup_fst_map_to_list|].
        intros id. rewrite elem_of_dom, list_elem_of_fmap. split.
        -- intros ([i c] & -> & Hi%elem_of_map_to_list). by exists c.
        -- intros [c Hc]. exists (id, c). split; [done|]. by apply elem_of_map_to_list.
    + destruct (keep_use u k) as [[r k1]|] eqn:E; [cbn in Hrun|done].
      destruct (keep_all uses k1) as [[rs1 k2]|] eqn:E'; [cbn in Hrun|done]. injection Hrun as <- <-.
      destruct (use_keeps u k s r k1 Hk E) as [Hr Hk1]. cbn [use_all]. destruct (use u s) as [r' s1]. cbn in Hr, Hk1. subst r'.
      destruct (IH s1 k1 Hk1 rs1 k2 E') as [Hrs Hend]. destruct (use_all uses s1) as [rs' s2]. cbn in *. by subst rs'.
  - intros -> first cred. cbn.
    assert (forall k, k_copied k = true -> k_saves k = [] -> is_Some (keep_all uses k)) as Hall.
    { clear. induction uses as [|u uses IH]; intros k Hc Hs; [by eexists|]. cbn.
      assert (exists r k', keep_use u k = Some (r, k') /\ k_copied k' = true /\ k_saves k' = []) as (r & k' & -> & Hc' & Hs').
      { destruct u as [a c|a|]; cbn; [|case_decide|]; rewrite ?Hc; unfold keep; rewrite ?Hs; cbn; by eexists _, _. }
      cbn. destruct (IH k' Hc' Hs') as [[rs k2] ->]. by eexists. }
    destruct (Hall {| k_map := {[first := cred]}; k_copied := true; k_saves := [] |} eq_refl eq_refl) as [[rs k] E].
    change (<[first := cred]> ∅) with ({[first := cred]} : DiskMap). rewrite E. by eexists.
Qed.

(** A run with a write that fails and a copy that fails. *)
Definition some_saves : list SaveEnd :=
  [saved; {| se_write := Some StoreIo; se_exists := true; se_copy := Copied |};
   {| se_write := None; se_exists := true; se_copy := CopyFailed Broken |}; saved].
Definition some_uses : list StoreUse :=
  [UsePut "a" (CredApiKey "1"); Damage; UsePut "b" (CredApiKey "2"); UsePut "c" (CredApiKey "3"); UseDelete "a"; Damage].

Lemma store_refines_map_witness :
  exists k, keep_all some_uses {| k_map := ∅; k_copied := false; k_saves := some_saves |} =
      Some ([Ok tt; Ok tt; Err StoreIo; Ok tt; Ok tt; Ok tt], k) /\
    store_get "c" (snd (use_all some_uses {| fs_path := NoFile; fs_backup_path := NoFile; fs_saves := some_saves |})) =
      Ok (k_map k !! "c").
Proof.
  eexists. split; [vm_compute; reflexivity|]. apply (proj1 (store_refines_map some_saves some_uses) _ _ ltac:(vm_compute; reflexivity)).
Defined.

(** A store whose main file is damaged before anything was kept in it cannot
    be read, and nothing can be put into it. *)
Example store_damaged_first :
  let s := {| fs_path := Broken; fs_backup_path := NoFile; fs_saves := [] |} in
  store_get "a" s = Err StoreNotFound /\ fst (store_put "a" (CredApiKey "k") s) = Err StoreNotFound.
Proof. done. Qed.

(** When the copy fails, a put that answered [Ok] is lost with the main
    file. *)
Example copy_failed_lost :
  let saves := [saved; {| se_write := None; se_exists := true; se_copy := CopyFailed Broken |}] in
  let '(rs, s) := use_all [UsePut "a" (CredApiKey "1"); UsePut "b" (CredApiKey "2"); Damage]
                    {| fs_path := NoFile; fs_backup_path := NoFile; fs_saves := saves |} in
  rs = [Ok tt; Ok tt; Ok tt] /\ store_get "b" s = Err StoreSerialize.
Proof. done. Qed.
