(* ===== verification/Accounts.v ===== *)
(** * Accounts and the refresh of their tokens

    [AccountResolver] of credentials/account.rs: how an account id becomes an
    access token. A token near its end is renewed with a refresh token that
    the vendor takes once only, so renewals are serialized, in a process by a
    mutex per account and between processes by the file lock. The calls of
    all tasks of all processes run interleaved: each is a program whose steps
    are its reads and writes of the shared store, its waits for locks and its
    requests to the vendor.

    The lock file is that of FileLock.v seen from outside: it names its owner
    and the time it was taken, and a contender that finds it older than the
    limit takes it over, whatever its owner is doing. That takeover is two
    operations is the business of FileLock.v; here it is one. *)
From Stdlib Require Import ZArith Lia.
From stdpp Require Import functions gmap.
From S2P Require Import Prelude.
From S2P Require Import RustStd.
From S2P Require Import Config.
From S2P Require Import SecretStore.

Local Open Scope Z_scope.

Inductive AccountError : Type :=
  | NotSignedIn (account_id : string)
  | NotOAuth (account_id : string)
  | UnsupportedProvider (account_id : string)
  | RefreshFailed (why : string)
  | Revoked (account_id why : string)
  | LockFailed
  | StoreFailed
  | Cancelled.

Definition REFRESH_MARGIN_SECS : Z := 300.
Definition SIWC_MARGIN_SECS : Z := 180.

(** [DEFAULT_STALE_AFTER] of lockfile.rs, in seconds. *)
Definition LOCK_STALE_SECS : Z := 30.

Definition is_antigravity (account_id : string) : bool := bool_decide (before_colon account_id = "antigravity").

(** Unknown expiry counts as valid. *)
Definition expired (now : Z) (expires_at_unix : option Z) : bool :=
  match expires_at_unix with
  | None => false
  | Some at_unix => at_unix <=? now + REFRESH_MARGIN_SECS
  end.

Record StoredOAuth := {
  so_provider : string;
  so_account : string;
  so_access_token : string;
  so_refresh_token : option string;
  so_expires_at_unix : option Z
}.

(** [read_oauth]: only an entry without ChatGPT fields is taken. *)
Definition read_oauth (disk : DiskMap) (account_id : string) : result AccountError StoredOAuth :=
  match disk !! account_id with
  | None => Err (NotSignedIn account_id)
  | Some (CredOAuth provider account access_token refresh_token expires_at_unix None) =>
      Ok {| so_provider := provider; so_account := account; so_access_token := access_token;
            so_refresh_token := refresh_token; so_expires_at_unix := expires_at_unix |}
  | Some _ => Err (NotOAuth account_id)
  end.

(** The extra fields of a ChatGPT account: its own entry, else the side
    file. *)
Definition siwc_meta_of (disk : DiskMap) (side : gmap string SiwcMeta) (account_id : string) : option SiwcMeta :=
  match disk !! account_id with
  | Some (CredOAuth _ _ _ _ _ (Some meta)) => Some meta
  | _ => side !! account_id
  end.

(** ** The vendor's answers

    A success of the token endpoint after its text is parsed, or what went
    wrong; [SiwcTokens] and [Dead], the end of a sign-in, are answers to a
    ChatGPT account. [exp_claim] is the [exp] claim of the new access token.
    Of a request that failed on the way, [lost] is the refresh token the vendor
    issued, if it did, without its answer arriving. *)
Inductive Reply : Type :=
  | Tokens (access_token : string) (refresh_token id_token : option string) (expires_in exp_claim : option Z)
  | SiwcTokens (access_token refresh_token id_token scope : string) (expires_in : Z)
  | Refused (text : string)
  | Dead
  | Hiccup (text : string) (lost : option string).

(** The credential that a renewal keeps. *)
Definition renewed (now : Z) (provider : string) (latest : StoredOAuth) (access_token : string)
    (refresh_token : option string) (expires_in exp_claim : option Z) : Credential :=
  CredOAuth (so_provider latest) (so_account latest) access_token
    (opt_or refresh_token (so_refresh_token latest))
    (match expires_in with
     | Some secs => Some (now + secs)
     | None => if decide (provider = "codex") then exp_claim else None
     end) None.

Definition renewed_siwc (now : Z) (meta : SiwcMeta) (latest : StoredOAuth)
    (access_token refresh_token id_token scope : string) (expires_in : Z) : Credential :=
  CredOAuth (so_provider latest) (so_account latest) access_token (Some refresh_token) (Some (now + expires_in))
    (Some {| sm_client_id := sm_client_id meta; sm_host_id := sm_host_id meta;
             sm_id_token := if is_empty id_token then sm_id_token meta else id_token;
             sm_scopes := split_ascii_whitespace scope |}).

Definition cred_access (c : Credential) : string :=
  match c with CredOAuth _ _ access _ _ _ => access | CredApiKey _ => "" end.
Definition cred_refresh (c : Credential) : option string :=
  match c with CredOAuth _ _ _ refresh _ _ => refresh | CredApiKey _ => None end.
Definition cred_expires (c : Credential) : option Z :=
  match c with CredOAuth _ _ _ _ expires _ => expires | CredApiKey _ => None end.

(** ** Tasks *)

Inductive Call : Type :=
  | Resolve
  | ForceRefresh
  | StoreSignIn (cred : Credential)
  | DeleteStored.
#[export] Instance Call_eq_dec : EqDecision Call.
Proof. solve_decision. Defined.

(** The operation a task does next. [seen] is the refresh token it read
    before it waited. *)
Inductive Pc : Type :=
  | Ready
  | Begin
  | ReadStored
  | WaitFlight (seen : option string)
  | ReadFlight (seen : option string)
  | WaitFile (seen : option string)
  | ReadFile (seen : option string)
  | Asking (latest : StoredOAuth) (refresh_token : string) (meta : option SiwcMeta)
  | PutLoad (cred : option Credential)
  | PutSave (map : DiskMap) (cred : option Credential)
  | AfterPut (cred : option Credential)
  | WriteBack (access_token : string)
  | Finished (r : result AccountError string).

(** What an adopted Codex account's auth.json receives. *)
Record BackUpdate := { bk_access_token : string; bk_refresh_token : string; bk_id_token : option string }.

(** [sy_file_lock] is the owner of the lock file and when it was taken;
    [sy_back] the tokens a task will write back, [sy_home] those last written
    to the home of an adopted account (see [update_tokens] of Import.v). *)
Record Sys := {
  sy_disk : DiskMap;
  sy_side : gmap string SiwcMeta;
  sy_revoked : gmap string string;
  sy_cache : gmap (nat * string) (string * option Z);
  sy_flight : gmap (nat * string) nat;
  sy_file_lock : option (nat * Z);
  sy_store_lock : gmap nat nat;
  sy_back : gmap nat BackUpdate;
  sy_home : gmap string BackUpdate;
  sy_now : Z;
  sy_pc : nat -> Pc
}.

Definition goto (i : nat) (pc : Pc) (s : Sys) : Sys :=
  {| sy_disk := sy_disk s; sy_side := sy_side s; sy_revoked := sy_revoked s; sy_cache := sy_cache s;
     sy_flight := sy_flight s; sy_file_lock := sy_file_lock s; sy_store_lock := sy_store_lock s; sy_back := sy_back s; sy_home := sy_home s;
     sy_now := sy_now s; sy_pc := <[i := pc]> (sy_pc s) |}.

Definition set_disk (m : DiskMap) (s : Sys) : Sys :=
  {| sy_disk := m; sy_side := sy_side s; sy_revoked := sy_revoked s; sy_cache := sy_cache s;
     sy_flight := sy_flight s; sy_file_lock := sy_file_lock s; sy_store_lock := sy_store_lock s; sy_back := sy_back s; sy_home := sy_home s;
     sy_now := sy_now s; sy_pc := sy_pc s |}.

Definition set_revoked (m : gmap string string) (s : Sys) : Sys :=
  {| sy_disk := sy_disk s; sy_side := sy_side s; sy_revoked := m; sy_cache := sy_cache s;
     sy_flight := sy_flight s; sy_file_lock := sy_file_lock s; sy_store_lock := sy_store_lock s; sy_back := sy_back s; sy_home := sy_home s;
     sy_now := sy_now s; sy_pc := sy_pc s |}.

Definition set_cache (m : gmap (nat * string) (string * option Z)) (s : Sys) : Sys :=
  {| sy_disk := sy_disk s; sy_side := sy_side s; sy_revoked := sy_revoked s; sy_cache := m;
     sy_flight := sy_flight s; sy_file_lock := sy_file_lock s; sy_store_lock := sy_store_lock s; sy_back := sy_back s; sy_home := sy_home s;
     sy_now := sy_now s; sy_pc := sy_pc s |}.

Definition set_locks (flight : gmap (nat * string) nat) (file : option (nat * Z)) (store : gmap nat nat) (s : Sys) : Sys :=
  {| sy_disk := sy_disk s; sy_side := sy_side s; sy_revoked := sy_revoked s; sy_cache := sy_cache s;
     sy_flight := flight; sy_file_lock := file; sy_store_lock := store; sy_back := sy_back s; sy_home := sy_home s;
     sy_now := sy_now s; sy_pc := sy_pc s |}.

Definition set_now (now : Z) (s : Sys) : Sys :=
  {| sy_disk := sy_disk s; sy_side := sy_side s; sy_revoked := sy_revoked s; sy_cache := sy_cache s;
     sy_flight := sy_flight s; sy_file_lock := sy_file_lock s; sy_store_lock := sy_store_lock s; sy_back := sy_back s; sy_home := sy_home s;
     sy_now := now; sy_pc := sy_pc s |}.

Definition set_back (back : gmap nat BackUpdate) (home : gmap string BackUpdate) (s : Sys) : Sys :=
  {| sy_disk := sy_disk s; sy_side := sy_side s; sy_revoked := sy_revoked s; sy_cache := sy_cache s;
     sy_flight := sy_flight s; sy_file_lock := sy_file_lock s; sy_store_lock := sy_store_lock s; sy_back := back;
     sy_home := home; sy_now := sy_now s; sy_pc := sy_pc s |}.

Definition lock_owner (s : Sys) : option nat := fst <$> sy_file_lock s.

(** Whether the lock file counts as abandoned. *)
Definition lock_stale (s : Sys) : bool :=
  match sy_file_lock s with Some (_, since) => LOCK_STALE_SECS <? sy_now s - since | None => false end.

Section resolver.
(** The process, the account and the call of each task, and which accounts are
    adopted from Codex. *)
Variables (proc : nat -> nat) (acct : nat -> string) (call : nat -> Call) (adopted : string -> bool).

Definition cache_put (i : nat) (token : string) (expires : option Z) (s : Sys) : Sys :=
  set_cache (<[(proc i, acct i) := (token, expires)]> (sy_cache s)) s.

(** The end of a call: the guards it holds are dropped. *)
Definition finish (i : nat) (r : result AccountError string) (s : Sys) : Sys :=
  goto i (Finished r)
    (set_locks
       (if decide (sy_flight s !! (proc i, acct i) = Some i) then delete (proc i, acct i) (sy_flight s)
        else sy_flight s)
       (if decide (lock_owner s = Some i) then None else sy_file_lock s)
       (if decide (sy_store_lock s !! proc i = Some i) then delete (proc i) (sy_store_lock s)
        else sy_store_lock s) s).

(** The token of a credential that another task keeps in force. *)
Definition settle (i : nat) (stored : StoredOAuth) (s : Sys) : Sys :=
  finish i (Ok (so_access_token stored)) (cache_put i (so_access_token stored) (so_expires_at_unix stored) s).

(** [refresh_stored] up to its request. *)
Definition start_refresh (i : nat) (latest : StoredOAuth) (s : Sys) : Sys :=
  let provider := before_colon (acct i) in
  let no_token := RefreshFailed "token expired and no refresh token is stored" in
  if decide (provider = "chatgpt-api") then
    match siwc_meta_of (sy_disk s) (sy_side s) (acct i) with
    | None => finish i (Err (RefreshFailed ("no ChatGPT API client id is kept for " +:+ acct i +:+ "; sign in again"))) s
    | Some meta =>
        match so_refresh_token latest with
        | None => finish i (Err no_token) s
        | Some refresh_token =>
            let left := default 0 (so_expires_at_unix latest) - sy_now s in
            if SIWC_MARGIN_SECS <? left then
              goto i (PutLoad (Some (renewed_siwc (sy_now s) meta latest (so_access_token latest) refresh_token
                                       (sm_id_token meta) (join " " (sm_scopes meta)) left))) s
            else goto i (Asking latest refresh_token (Some meta)) s
        end
    end
  else if bool_decide (provider = "gemini") || bool_decide (provider = "codex") then
    match so_refresh_token latest with
    | None => finish i (Err no_token) s
    | Some refresh_token => goto i (Asking latest refresh_token None) s
    end
  else finish i (Err (UnsupportedProvider (acct i))) s.

(** A read of the store by a task whose process is not writing it. *)
Definition with_stored (i : nat) (s : Sys) (k : StoredOAuth -> Sys) : option Sys :=
  match sy_store_lock s !! proc i with
  | Some _ => None
  | None =>
      Some (match read_oauth (sy_disk s) (acct i) with
            | Err e => finish i (Err e) s
            | Ok stored => k stored
            end)
  end.

(** [write_tokens] for the home of the account. *)
Definition write_back (i : nat) (s : Sys) : Sys :=
  match sy_back s !! i with
  | Some update => set_back (delete i (sy_back s)) (<[acct i := update]> (sy_home s)) s
  | None => s
  end.

(** The next operation of a task; [None] when it has to wait. *)
Definition sys_go (i : nat) (s : Sys) : option Sys :=
  match sy_pc s i with
  | Begin =>
      match call i with
      | StoreSignIn cred =>
          Some (goto i (PutLoad (Some cred))
                  (match cred with
                   | CredOAuth _ _ access _ expires _ => cache_put i access expires s
                   | CredApiKey _ => s
                   end))
      | DeleteStored => Some (goto i (PutLoad None) (set_cache (delete (proc i, acct i) (sy_cache s)) s))
      | c =>
          match sy_revoked s !! acct i with
          | Some why => Some (finish i (Err (Revoked (acct i) why)) s)
          | None =>
              if decide (c = ForceRefresh) then Some (goto i (WaitFlight None) s)
              else
                match sy_cache s !! (proc i, acct i) with
                | Some (token, expires) =>
                    if expired (sy_now s) expires then Some (goto i ReadStored s)
                    else Some (finish i (Ok token) s)
                | None => Some (goto i ReadStored s)
                end
          end
      end
  | ReadStored =>
      with_stored i s (fun stored =>
        if expired (sy_now s) (so_expires_at_unix stored) then goto i (WaitFlight (so_refresh_token stored)) s
        else settle i stored s)
  | WaitFlight seen =>
      match sy_flight s !! (proc i, acct i) with
      | Some _ => None
      | None =>
          Some (goto i (ReadFlight seen)
                  (set_locks (<[(proc i, acct i) := i]> (sy_flight s)) (sy_file_lock s) (sy_store_lock s) s))
      end
  | ReadFlight seen =>
      with_stored i s (fun stored =>
        if decide (call i = ForceRefresh) then goto i (WaitFile (so_refresh_token stored)) s
        else if negb (bool_decide (so_refresh_token stored = seen)) ||
                negb (expired (sy_now s) (so_expires_at_unix stored))
        then settle i stored s
        else goto i (WaitFile seen) s)
  | WaitFile seen =>
      if is_some (sy_file_lock s) && negb (lock_stale s) then None
      else Some (goto i (ReadFile seen) (set_locks (sy_flight s) (Some (i, sy_now s)) (sy_store_lock s) s))
  | ReadFile seen =>
      with_stored i s (fun latest =>
        if negb (bool_decide (so_refresh_token latest = seen)) ||
           (negb (bool_decide (call i = ForceRefresh)) && negb (expired (sy_now s) (so_expires_at_unix latest)))
        then settle i latest s
        else start_refresh i latest s)
  | PutLoad cred =>
      match sy_store_lock s !! proc i with
      | Some _ => None
      | None =>
          let map := match cred with
                     | Some c => <[acct i := c]> (sy_disk s)
                     | None => delete (acct i) (sy_disk s)
                     end in
          Some (goto i (PutSave map cred)
                  (set_locks (sy_flight s) (sy_file_lock s) (<[proc i := i]> (sy_store_lock s)) s))
      end
  | PutSave map cred =>
      Some (goto i (AfterPut cred)
              (set_locks (sy_flight s) (sy_file_lock s) (delete (proc i) (sy_store_lock s)) (set_disk map s)))
  | AfterPut cred =>
      Some (match cred with
            | None => finish i (Ok "") s
            | Some c =>
                match call i with
                | StoreSignIn _ => finish i (Ok (cred_access c)) (set_revoked (delete (acct i) (sy_revoked s)) s)
                | _ =>
                    let s := cache_put i (cred_access c) (cred_expires c) s in
                    match sy_back s !! i with
                    | Some _ => goto i (WriteBack (cred_access c)) s
                    | None => finish i (Ok (cred_access c)) s
                    end
                end
            end)
  | WriteBack access => Some (finish i (Ok access) (write_back i s))
  | Ready | Asking _ _ _ | Finished _ => None
  end.

(** The vendor answers a request. *)
Definition sys_answer (i : nat) (reply : Reply) (s : Sys) : option Sys :=
  match sy_pc s i with
  | Asking latest _ None =>
      match reply with
      | Tokens access refresh id_token expires_in exp_claim =>
          let update := {| bk_access_token := access;
                           bk_refresh_token := default "" (opt_or refresh (so_refresh_token latest));
                           bk_id_token := id_token |} in
          Some (goto i (PutLoad (Some (renewed (sy_now s) (before_colon (acct i)) latest access refresh
                                         expires_in exp_claim)))
                  (set_back (if adopted (acct i) then <[i := update]> (sy_back s) else sy_back s) (sy_home s) s))
      | Refused text | Hiccup text _ => Some (finish i (Err (RefreshFailed text)) s)
      | SiwcTokens _ _ _ _ _ | Dead => None
      end
  | Asking latest _ (Some meta) =>
      match reply with
      | SiwcTokens access refresh id_token scope expires_in =>
          Some (goto i (PutLoad (Some (renewed_siwc (sy_now s) meta latest access refresh id_token scope
                                         expires_in))) s)
      | Hiccup text _ =>
          if sy_now s <? default 0 (so_expires_at_unix latest)
          then Some (finish i (Ok (so_access_token latest)) s)
          else Some (finish i (Err (RefreshFailed text)) s)
      | Dead =>
          let why := acct i +:+ "'s ChatGPT sign-in has expired — sign in again" in
          Some (finish i (Err (Revoked (acct i) why)) (set_revoked (<[acct i := why]> (sy_revoked s)) s))
      | Refused text => Some (finish i (Err (RefreshFailed text)) s)
      | Tokens _ _ _ _ _ => None
      end
  | _ => None
  end.

(** The events: a call begins, a task goes on, the vendor answers, the wait
    for the file lock fails, a write of the store or of a Codex home fails (the
    second only leaves a warning), the future of a call is dropped where it
    waits (a write-back that has begun runs on), time passes. *)
Inductive SysEvent : Type :=
  | Call_ (i : nat)
  | Step (i : nat)
  | Answer (i : nat) (reply : Reply)
  | LockTimesOut (i : nat)
  | WriteFails (i : nat)
  | Drop (i : nat)
  | Passes (secs : Z).

Definition sys_step (e : SysEvent) (s : Sys) : option Sys :=
  match e with
  | Call_ i => match sy_pc s i with Ready => Some (goto i Begin s) | _ => None end
  | Step i => sys_go i s
  | Answer i reply => sys_answer i reply s
  | LockTimesOut i => match sy_pc s i with WaitFile _ => Some (finish i (Err LockFailed) s) | _ => None end
  | WriteFails i =>
      match sy_pc s i with
      | PutSave _ _ => Some (finish i (Err StoreFailed) s)
      | WriteBack access => Some (finish i (Ok access) s)
      | _ => None
      end
  | Drop i =>
      match sy_pc s i with
      | WaitFlight _ | WaitFile _ | Asking _ _ _ => Some (finish i (Err Cancelled) s)
      | WriteBack _ => Some (finish i (Err Cancelled) (write_back i s))
      | _ => None
      end
  | Passes secs => if 0 <=? secs then Some (set_now (sy_now s + secs) s) else None
  end.

Fixpoint sys_run (es : list SysEvent) (s : Sys) : option Sys :=
  match es with
  | [] => Some s
  | e :: es => s ← sys_step e s; sys_run es s
  end.
End resolver.

(** ** The revoked markers *)

Definition revoked_entry (s : Sys) (account_id : string) : option string := sy_revoked s !! account_id.
Definition is_revoked (s : Sys) (account_id : string) : bool := is_some (revoked_entry s account_id).
Definition mark_revoked (account_id why : string) (s : Sys) : Sys :=
  set_revoked (<[account_id := why]> (sy_revoked s)) s.
Definition clear_revoked (account_id : string) (s : Sys) : Sys :=
  set_revoked (delete account_id (sy_revoked s)) s.
