(* ===== verification/AccountsProps.v ===== *)
(** * What the refresh of tokens promises

    The vendor takes a refresh token that it has replaced for stolen: it ends
    the sign-in. So a replaced token must never be sent again, whatever tasks
    of whatever processes renew at the same time. *)
From Stdlib Require Import ZArith Lia.
From stdpp Require Import functions gmap.
From S2P Require Import Prelude.
From S2P Require Import RustStd.
From S2P Require Import Config.
From S2P Require Import SecretStore.
From S2P Require Import Accounts.

Local Open Scope Z_scope.

Definition disk_refresh (m : DiskMap) (account_id : string) : option string := m !! account_id ≫= cred_refresh.

Definition refresh_of (reply : Reply) : option string :=
  match reply with
  | Tokens _ refresh _ _ _ => refresh
  | SiwcTokens _ refresh _ _ _ => Some refresh
  | Hiccup _ lost => lost
  | _ => None
  end.

(** The refresh token that an answer replaces, and the new one. *)
Definition rotation (e : SysEvent) (s : Sys) : option (string * string) :=
  match e with
  | Answer i reply =>
      match sy_pc s i, refresh_of reply with
      | Asking _ r _, Some r' => if decide (r' = r) then None else Some (r, r')
      | _, _ => None
      end
  | _ => None
  end.

(** What is asked of the surroundings: a new token of the vendor is none of
    those it gave before, and its answer arrives; the store can be written; and
    a request that was sent is waited for. *)
Definition fair (e : SysEvent) (issued : list string) (s : Sys) : Prop :=
  match e with
  | WriteFails i => forall m c, sy_pc s i <> PutSave m c
  | Answer _ (Hiccup _ (Some _)) => False
  | Drop i => forall latest r meta, sy_pc s i <> Asking latest r meta
  | _ => forall r r', rotation e s = Some (r, r') -> r' ∉ issued
  end.

(** Nobody holds the lock file for longer than it takes to count as
    abandoned. *)
Definition timely (s : Sys) : Prop := lock_stale s = false.

Section resolver.
Variables (proc : nat -> nat) (acct : nat -> string) (call : nat -> Call) (adopted : string -> bool).

(** No call has begun, and no two accounts have the same refresh token. *)
Record started (s : Sys) : Prop := {
  st_ready : forall i, sy_pc s i = Ready;
  st_file_lock : sy_file_lock s = None;
  st_inj : forall a b r, disk_refresh (sy_disk s) a = Some r -> disk_refresh (sy_disk s) b = Some r -> a = b
}.

(** The runs, with the refresh tokens that were replaced and all those the
    vendor ever gave. *)
Inductive refreshing : list string -> list string -> Sys -> Prop :=
  | refreshing_init issued s :
      started s -> (forall a r, disk_refresh (sy_disk s) a = Some r -> r ∈ issued) -> refreshing [] issued s
  | refreshing_step replaced issued e s s' :
      refreshing replaced issued s -> sys_step proc acct call adopted e s = Some s' -> fair e issued s ->
      timely s' ->
      refreshing (option_list (fst <$> rotation e s) ++ replaced)
                 (option_list (snd <$> rotation e s) ++ issued) s'.

Definition locked (pc : Pc) : bool :=
  match pc with
  | ReadFile _ | Asking _ _ _ | PutLoad _ | PutSave _ _ | AfterPut _ | WriteBack _ => true
  | _ => false
  end.

(** The credential a task is about to write. *)
Definition writing (pc : Pc) : option (option Credential) :=
  match pc with PutLoad c | PutSave _ c => Some c | _ => None end.

Record safe (replaced issued : list string) (s : Sys) : Prop := {
  sf_lock : forall i, locked (sy_pc s i) = true -> lock_owner s = Some i;
  sf_asking : forall i latest r meta, sy_pc s i = Asking latest r meta ->
    read_oauth (sy_disk s) (acct i) = Ok latest /\ so_refresh_token latest = Some r /\
    (call i = Resolve -> expired (sy_now s) (so_expires_at_unix latest) = true);
  sf_writing : forall i c, writing (sy_pc s i) = Some c ->
    exists cred, c = Some cred /\
      forall r, cred_refresh cred = Some r ->
        (r ∉ replaced) /\ (r ∈ issued) /\ forall b, b <> acct i -> disk_refresh (sy_disk s) b <> Some r;
  sf_save : forall i m c, sy_pc s i = PutSave m (Some c) -> m = <[acct i := c]> (sy_disk s);
  sf_replaced : forall a r, disk_refresh (sy_disk s) a = Some r -> r ∈ replaced ->
    exists i c, acct i = a /\ writing (sy_pc s i) = Some c;
  sf_inj : forall a b r, disk_refresh (sy_disk s) a = Some r -> disk_refresh (sy_disk s) b = Some r -> a = b;
  sf_issued : forall a r, disk_refresh (sy_disk s) a = Some r -> r ∈ issued;
  sf_subset : forall r, r ∈ replaced -> r ∈ issued
}.

(** A step that writes nothing, sends nothing and holds no lock after. *)
Record quiet (i : nat) (s s' : Sys) : Prop := {
  qt_disk : sy_disk s' = sy_disk s;
  qt_pc : forall j, j <> i -> sy_pc s' j = sy_pc s j;
  qt_before : writing (sy_pc s i) = None;
  qt_after : locked (sy_pc s' i) = false;
  qt_lock : forall j, j <> i -> lock_owner s = Some j -> lock_owner s' = Some j;
  qt_now : sy_now s <= sy_now s'
}.

Lemma expired_later now now' e : now <= now' -> expired now e = true -> expired now' e = true.
Proof. unfold expired. destruct e; [lia|done]. Qed.

Lemma quiet_safe i s s' replaced issued : quiet i s s' -> safe replaced issued s -> safe replaced issued s'.
Proof.
  intros [Hd Hp Hb Ha Hl Hn] [H1 H2 H3 H4 H5 H6 H7 H8]. constructor; rewrite ?Hd; try done.
  - intros j Hj. destruct (decide (j = i)) as [->|Hne]; [congruence|].
    apply Hl; [done|]. apply H1. by rewrite <- (Hp j Hne).
  - intros j latest r meta Hj. destruct (decide (j = i)) as [->|Hne]; [by rewrite Hj in Ha|].
    rewrite Hp in Hj by done. destruct (H2 j latest r meta Hj) as (? & ? & He). split_and!; [done|done|].
    intros Hc. by apply (expired_later (sy_now s)), He.
  - intros j c Hj. destruct (decide (j = i)) as [->|Hne].
    + by destruct (sy_pc s' i).
    + rewrite Hp in Hj by done. by apply H3.
  - intros j m c Hj. destruct (decide (j = i)) as [->|Hne]; [by rewrite Hj in Ha|].
    rewrite Hp in Hj by done. by apply (H4 j).
  - intros a r Hr Hin. destruct (H5 a r Hr Hin) as (j & c & Hacct & Hj). exists j, c. split; [done|].
    rewrite Hp; [done|]. intros ->. congruence.
Qed.

(** ** Which steps are quiet *)

Lemma pc_goto i pc s j : sy_pc (goto i pc s) j = if decide (i = j) then pc else sy_pc s j.
Proof. cbn. destruct (decide (i = j)) as [->|]; [apply fn_lookup_insert|by apply fn_lookup_insert_ne]. Qed.

Lemma quiet_goto i pc s s1 :
  sy_disk s1 = sy_disk s -> sy_pc s1 = sy_pc s -> sy_file_lock s1 = sy_file_lock s -> sy_now s1 = sy_now s ->
  writing (sy_pc s i) = None -> locked pc = false -> quiet i s (goto i pc s1).
Proof.
  intros Hd Hp Hl Hn Hw Hpc. constructor; [done| |done| | |cbn; lia].
  - intros j Hj. by rewrite pc_goto, decide_False, Hp by done.
  - by rewrite pc_goto, decide_True.
  - intros j Hj. unfold lock_owner. cbn. by rewrite Hl.
Qed.

Lemma quiet_finish i r s s1 :
  sy_disk s1 = sy_disk s -> sy_pc s1 = sy_pc s -> sy_file_lock s1 = sy_file_lock s -> sy_now s1 = sy_now s ->
  writing (sy_pc s i) = None -> quiet i s (finish proc acct i r s1).
Proof.
  intros Hd Hp Hl Hn Hw. constructor; [done| |done| | |cbn; lia].
  - intros j Hj. unfold finish. rewrite pc_goto, decide_False by done. cbn. by rewrite Hp.
  - unfold finish. by rewrite pc_goto, decide_True.
  - intros j Hj Hf. assert (lock_owner s1 = Some j) as Hf1 by (unfold lock_owner in *; by rewrite Hl).
    unfold finish, goto, set_locks. unfold lock_owner at 1. cbn [sy_file_lock].
    by rewrite decide_False by congruence.
Qed.

Lemma quiet_settle i stored s : writing (sy_pc s i) = None -> quiet i s (settle proc acct i stored s).
Proof. intros Hw. by apply quiet_finish. Qed.

#[local] Hint Resolve quiet_settle : core.
#[local] Hint Extern 1 (quiet _ _ (goto _ _ _)) => apply quiet_goto; try done : core.
#[local] Hint Extern 1 (quiet _ _ (finish _ _ _ _ _)) => apply quiet_finish; try done : core.

(** ** The other steps *)

Lemma safe_take_lock i seen replaced issued s :
  safe replaced issued s -> sy_file_lock s = None ->
  safe replaced issued (goto i (ReadFile seen) (set_locks (sy_flight s) (Some (i, sy_now s)) (sy_store_lock s) s)).
Proof.
  intros [H1 H2 H3 H4 H5 H6 H7 H8] Hfree.
  assert (forall j, locked (sy_pc s j) = false) as Hnone.
  { intros j. destruct (locked (sy_pc s j)) eqn:Hj; [|done]. apply H1 in Hj.
    unfold lock_owner in Hj. by rewrite Hfree in Hj. }
  assert (forall j, writing (sy_pc s j) = None) as Hquiet.
  { intros j. specialize (Hnone j). by destruct (sy_pc s j). }
  constructor; try done.
  - intros j. rewrite pc_goto. case_decide; [by subst|]. cbn. by rewrite Hnone.
  - intros j latest r meta. rewrite pc_goto. case_decide; [done|]. apply H2.
  - intros j c. rewrite pc_goto. case_decide; [done|]. apply H3.
  - intros j m c. rewrite pc_goto. case_decide; [done|]. apply H4.
  - intros a r Hr Hin. destruct (H5 a r Hr Hin) as (j & c & _ & Hj). by rewrite Hquiet in Hj.
Qed.

(** The holder of the lock goes on to ask the vendor or to write; nobody else
    is asking or writing. *)
Lemma holder_alone i j replaced issued s :
  safe replaced issued s -> locked (sy_pc s i) = true -> j <> i -> locked (sy_pc s j) = false.
Proof.
  intros [H1 _ _ _ _ _ _ _] Hi Hj. destruct (locked (sy_pc s j)) eqn:Hl; [|done].
  apply H1 in Hi, Hl. congruence.
Qed.

Lemma not_locked_writing pc : locked pc = false -> writing pc = None.
Proof. by destruct pc. Qed.

(** What the holder read is in force: its token has not been replaced. *)
Lemma holder_token i r replaced issued s :
  safe replaced issued s -> locked (sy_pc s i) = true -> writing (sy_pc s i) = None ->
  disk_refresh (sy_disk s) (acct i) = Some r -> (r ∉ replaced) /\ (r ∈ issued).
Proof.
  intros Hs Hi Hw Hr. split; [|by apply (sf_issued _ _ _ Hs (acct i))]. intros Hin.
  destruct (sf_replaced _ _ _ Hs (acct i) r Hr Hin) as (j & c & _ & Hj).
  destruct (decide (j = i)) as [->|Hne]; [congruence|].
  rewrite (not_locked_writing (sy_pc s j)) in Hj; [done|]. by apply (holder_alone i j replaced issued).
Qed.

Lemma disk_refresh_read m a stored :
  read_oauth m a = Ok stored -> disk_refresh m a = so_refresh_token stored.
Proof.
  unfold read_oauth, disk_refresh. destruct (m !! a) as [[|p c t r e []]|]; try done. by intros [= <-].
Qed.

Lemma safe_ask i latest r meta replaced issued s :
  safe replaced issued s -> locked (sy_pc s i) = true -> writing (sy_pc s i) = None ->
  read_oauth (sy_disk s) (acct i) = Ok latest -> so_refresh_token latest = Some r ->
  (call i = Resolve -> expired (sy_now s) (so_expires_at_unix latest) = true) ->
  safe replaced issued (goto i (Asking latest r meta) s).
Proof.
  intros Hs Hl Hw Hread Hr He. pose proof Hs as [H1 H2 H3 H4 H5 H6 H7 H8]. constructor; try done.
  - intros j. rewrite pc_goto. case_decide; [subst j; intros _; by apply H1|]. apply H1.
  - intros j l r' m. rewrite pc_goto. case_decide; [subst j; by intros [= <- <- <-]|]. apply H2.
  - intros j c. rewrite pc_goto. case_decide; [done|]. apply H3.
  - intros j m c. rewrite pc_goto. case_decide; [done|]. apply H4.
  - intros a r' Ha Hin. destruct (H5 a r' Ha Hin) as (j & c & Hj & Hc). exists j, c. split; [done|].
    rewrite pc_goto. case_decide; [by subst; congruence|done].
Qed.

Lemma safe_back back home replaced issued s :
  safe replaced issued s -> safe replaced issued (set_back back home s).
Proof. by intros [H1 H2 H3 H4 H5 H6 H7 H8]. Qed.

(** The holder has a credential to write, with the token it read or with a
    new one that replaces it. *)
Lemma safe_write i cred r new replaced issued s :
  safe replaced issued s -> locked (sy_pc s i) = true -> writing (sy_pc s i) = None ->
  disk_refresh (sy_disk s) (acct i) = Some r ->
  match new with
  | Some r' => cred_refresh cred = Some r' /\ r' <> r /\ (r' ∉ issued)
  | None => cred_refresh cred = Some r
  end ->
  safe (option_list ((fun _ => r) <$> new) ++ replaced) (option_list new ++ issued) (goto i (PutLoad (Some cred)) s).
Proof.
  intros Hs Hl Hw Hr Hnew. pose proof Hs as [H1 H2 H3 H4 H5 H6 H7 H8].
  destruct (holder_token i r replaced issued s Hs Hl Hw Hr) as [Hin Hiss].
  assert (forall j, j <> i -> writing (sy_pc s j) = None /\ locked (sy_pc s j) = false) as Hothers.
  { intros j Hj. pose proof (holder_alone i j replaced issued s Hs Hl Hj). split; [|done]. by apply not_locked_writing. }
  constructor; cbn [sy_disk goto].
  - intros j. rewrite pc_goto. case_decide; [subst j; intros _; by apply H1|]. apply H1.
  - intros j l r' m. rewrite pc_goto. case_decide; [done|]. apply H2.
  - intros j c. rewrite pc_goto. case_decide as Hj; [|by intros Hc; destruct (Hothers j); congruence].
    subst j. intros [= <-]. exists cred. split; [done|]. intros r' Hc. destruct new as [r1|]; cbn.
    + destruct Hnew as (Hc1 & Hne & Hfresh). assert (r' = r1) as -> by congruence. split_and!.
      * apply not_elem_of_cons. split; [done|]. auto.
      * left.
      * intros b _ Hb. by apply Hfresh, (H7 b).
    + assert (r' = r) as -> by congruence. split_and!; [done|done|].
      intros b Hb Hdisk. apply Hb. by apply (H6 b (acct i) r).
  - intros j m c. rewrite pc_goto. case_decide; [done|]. apply H4.
  - intros a r' Ha Hr'. destruct (decide (a = acct i)) as [->|Hne].
    + exists i, (Some cred). split; [done|]. by rewrite pc_goto, decide_True.
    + assert (r' ∈ replaced) as Hold.
      { destruct new; cbn in Hr'; [|done]. apply elem_of_cons in Hr' as [->|]; [|done].
        exfalso. apply Hne. by apply (H6 a (acct i) r). }
      destruct (H5 a r' Ha Hold) as (j & c & Hj & Hc). destruct (decide (j = i)) as [->|Hji]; [congruence|].
      destruct (Hothers j Hji). congruence.
  - done.
  - intros a r' Ha. apply elem_of_app. right. by apply (H7 a).
  - intros r' Hr'. apply elem_of_app in Hr' as [Hr'|Hr']; apply elem_of_app; right; [|by apply H8].
    destruct new; cbn in Hr'; [|by apply elem_of_nil in Hr']. by apply list_elem_of_singleton in Hr' as ->.
Qed.

Lemma safe_put_load i cred replaced issued s s1 :
  safe replaced issued s -> sy_pc s i = PutLoad (Some cred) ->
  sy_disk s1 = sy_disk s -> sy_pc s1 = sy_pc s -> sy_file_lock s1 = sy_file_lock s -> sy_now s1 = sy_now s ->
  safe replaced issued (goto i (PutSave (<[acct i := cred]> (sy_disk s)) (Some cred)) s1).
Proof.
  intros [H1 H2 H3 H4 H5 H6 H7 H8] Hi Hd Hp Hl Hn.
  assert (lock_owner s1 = lock_owner s) as Ho by (unfold lock_owner; by rewrite Hl).
  constructor; cbn [sy_disk sy_now sy_file_lock goto];
    rewrite ?Hd, ?Hl, ?Hn; try done.
  - intros j. rewrite pc_goto, Hp. change (lock_owner (goto i _ s1)) with (lock_owner s1). rewrite Ho.
    case_decide; [subst j; intros _; apply H1; by rewrite Hi|]. apply H1.
  - intros j l r m. rewrite pc_goto, Hp. case_decide; [done|]. apply H2.
  - intros j c. rewrite pc_goto, Hp. case_decide; [subst j; intros [= <-]; apply (H3 i); by rewrite Hi|]. apply H3.
  - intros j m c. rewrite pc_goto, Hp. case_decide; [by subst j; intros [= <- <-]|]. apply H4.
  - intros a r Ha Hin. destruct (H5 a r Ha Hin) as (j & c & Hj & Hc).
    destruct (decide (j = i)) as [->|Hne].
    + exists i, (Some cred). split; [done|]. by rewrite pc_goto, decide_True.
    + exists j, c. split; [done|]. by rewrite pc_goto, decide_False, Hp.
Qed.

Lemma safe_put_save i m c replaced issued s s1 :
  safe replaced issued s -> sy_pc s i = PutSave m c ->
  sy_disk s1 = m -> sy_pc s1 = sy_pc s -> sy_file_lock s1 = sy_file_lock s ->
  safe replaced issued (goto i (AfterPut c) s1).
Proof.
  intros Hs Hi Hd Hp Hl. pose proof Hs as [H1 H2 H3 H4 H5 H6 H7 H8].
  destruct (H3 i c) as (cred & -> & Hcred); [by rewrite Hi|]. rewrite (H4 i m cred Hi) in Hd.
  assert (locked (sy_pc s i) = true) as Hli by by rewrite Hi.
  assert (forall j, j <> i -> locked (sy_pc s j) = false) as Hothers.
  { intros j Hj. by apply (holder_alone i j replaced issued). }
  assert (forall b r, disk_refresh (sy_disk s1) b = Some r ->
            (b = acct i /\ cred_refresh cred = Some r) \/ (b <> acct i /\ disk_refresh (sy_disk s) b = Some r)) as Hdisk.
  { intros b r. rewrite Hd. unfold disk_refresh. destruct (decide (b = acct i)) as [->|Hne].
    - rewrite lookup_insert_eq. by left.
    - rewrite lookup_insert_ne by done. by right. }
  assert (lock_owner s1 = lock_owner s) as Ho by (unfold lock_owner; by rewrite Hl).
  constructor; cbn [sy_disk sy_now sy_file_lock goto]; rewrite ?Hl; try done.
  - intros j. rewrite pc_goto, Hp. change (lock_owner (goto i _ s1)) with (lock_owner s1). rewrite Ho.
    case_decide; [subst j; intros _; by apply H1|]. apply H1.
  - intros j l r mt. rewrite pc_goto, Hp. case_decide as Hj; [done|]. intros Hpc.
    specialize (Hothers j). rewrite Hpc in Hothers. by discriminate Hothers.
  - intros j c. rewrite pc_goto, Hp. case_decide as Hj; [done|]. intros Hpc.
    rewrite (not_locked_writing (sy_pc s j)) in Hpc; [done|]. by apply Hothers.
  - intros j m' c. rewrite pc_goto, Hp. case_decide as Hj; [done|]. intros Hpc.
    specialize (Hothers j). rewrite Hpc in Hothers. by discriminate Hothers.
  - intros b r Hb Hin. apply Hdisk in Hb as [[-> Hb]|[Hne Hb]]; [by destruct (Hcred r Hb)|].
    destruct (H5 b r Hb Hin) as (j & c & Hj & Hc). destruct (decide (j = i)) as [->|Hji]; [done|].
    rewrite (not_locked_writing (sy_pc s j)) in Hc; [done|]. by apply Hothers.
  - intros a b r Ha Hb. apply Hdisk in Ha as [[-> Ha]|[Hna Ha]]; apply Hdisk in Hb as [[-> Hb]|[Hnb Hb]]; [done| | |].
    + destruct (Hcred r Ha) as (_ & _ & Hc). by destruct (Hc b Hnb).
    + destruct (Hcred r Hb) as (_ & _ & Hc). by destruct (Hc a Hna).
    + by apply (H6 a b r).
  - intros b r Hb. apply Hdisk in Hb as [[-> Hb]|[Hne Hb]]; [by apply (Hcred r Hb)|by apply (H7 b)].
Qed.

Hypothesis refreshers : forall i, call i = Resolve \/ call i = ForceRefresh.

Lemma safe_start_refresh i latest replaced issued s :
  safe replaced issued s -> locked (sy_pc s i) = true -> writing (sy_pc s i) = None ->
  read_oauth (sy_disk s) (acct i) = Ok latest ->
  (call i = Resolve -> expired (sy_now s) (so_expires_at_unix latest) = true) ->
  safe replaced issued (start_refresh proc acct i latest s).
Proof.
  intros Hs Hl Hw Hread He. unfold start_refresh.
  assert (forall r, safe replaced issued (finish proc acct i r s)) as Hfin.
  { intros r. apply (quiet_safe i s); [by apply quiet_finish|done]. }
  destruct (decide (before_colon (acct i) = "chatgpt-api")).
  - destruct (siwc_meta_of _ _ _) as [meta|]; [|done]. destruct (so_refresh_token latest) as [r|] eqn:Hr; [|done].
    case_match; [|by eapply safe_ask].
    apply (safe_write i _ r None); [done|done|done| |done].
    by rewrite (disk_refresh_read _ _ latest).
  - destruct (_ || _); [|done]. destruct (so_refresh_token latest) as [r|] eqn:Hr; [|done]. by eapply safe_ask.
Qed.

Lemma with_stored_Some i s k s' :
  with_stored proc acct i s k = Some s' ->
  (exists e, s' = finish proc acct i (Err e) s) \/
  exists stored, read_oauth (sy_disk s) (acct i) = Ok stored /\ s' = k stored.
Proof.
  unfold with_stored. destruct (sy_store_lock s !! proc i); [done|]. intros [= <-].
  destruct (read_oauth (sy_disk s) (acct i)) as [stored|e]; [right; by exists stored|left; by exists e].
Qed.

Lemma resolve_or_force i : (call i = Resolve \/ call i = ForceRefresh) -> forall c, call i <> StoreSignIn c.
Proof. intros [-> | ->]; done. Qed.

(** The holder goes on to a state in which it neither asks nor writes. *)
Lemma safe_done i pc replaced issued s s1 :
  safe replaced issued s -> locked (sy_pc s i) = true -> writing (sy_pc s i) = None ->
  (forall latest r meta, pc <> Asking latest r meta) -> writing pc = None ->
  sy_disk s1 = sy_disk s -> sy_pc s1 = sy_pc s -> lock_owner s1 = lock_owner s -> sy_now s1 = sy_now s ->
  safe replaced issued (goto i pc s1).
Proof.
  intros [H1 H2 H3 H4 H5 H6 H7 H8] Hl Hw Hask Hwpc Hd Hp Ho Hn.
  constructor; cbn [sy_disk sy_now goto]; rewrite ?Hd, ?Hn; try done.
  - intros j. rewrite pc_goto, Hp. change (lock_owner (goto i pc s1)) with (lock_owner s1). rewrite Ho.
    case_decide; [subst j; intros _; by apply H1|]. apply H1.
  - intros j l r m. rewrite pc_goto, Hp. case_decide; [by intros Hpc; destruct (Hask l r m)|]. apply H2.
  - intros j c. rewrite pc_goto, Hp. case_decide; [by rewrite Hwpc|]. apply H3.
  - intros j m c. rewrite pc_goto, Hp. case_decide; [by intros ->|]. apply H4.
  - intros a r Ha Hin. destruct (H5 a r Ha Hin) as (j & c & Hj & Hc). exists j, c. split; [done|].
    rewrite pc_goto, Hp. case_decide; [by subst; congruence|done].
Qed.

Lemma safe_go i replaced issued s s' :
  safe replaced issued s -> timely s -> sys_go proc acct call i s = Some s' -> safe replaced issued s'.
Proof using Type*.
  intros Hs Ht Hgo. unfold sys_go in Hgo.
  assert (forall s1, quiet i s s1 -> safe replaced issued s1) as Hq by (intros s1 Hq; by apply (quiet_safe i s)).
  destruct (sy_pc s i) as [ | | |seen|seen|seen|seen|latest r meta|c|m c|c|access|res] eqn:Hpc; try done.
  - apply Hq. assert (writing (sy_pc s i) = None) as Hw by by rewrite Hpc.
    destruct (refreshers i) as [Hc|Hc]; rewrite Hc in Hgo; cbn in Hgo;
      repeat case_match; simplify_eq; auto.
  - assert (writing (sy_pc s i) = None) as Hw by by rewrite Hpc.
    apply with_stored_Some in Hgo as [(e & ->)|(st & Hst & ->)]; [auto|]. case_match; auto.
  - assert (writing (sy_pc s i) = None) as Hw by by rewrite Hpc. case_match; [done|]. simplify_eq. auto.
  - assert (writing (sy_pc s i) = None) as Hw by by rewrite Hpc.
    apply with_stored_Some in Hgo as [(e & ->)|(st & Hst & ->)]; [auto|]. repeat case_match; auto.
  - unfold timely in Ht. rewrite Ht, andb_true_r in Hgo. destruct (sy_file_lock s) eqn:Hfree; [done|].
    injection Hgo as <-. by apply safe_take_lock.
  - assert (writing (sy_pc s i) = None) as Hw by by rewrite Hpc.
    apply with_stored_Some in Hgo as [(e & ->)|(st & Hst & ->)]; [auto|].
    destruct (negb _ || _) eqn:Hcond; [auto|]. apply orb_false_iff in Hcond as [_ Hcond].
    apply safe_start_refresh; [done|by rewrite Hpc|done|done|]. intros Hc. rewrite Hc in Hcond.
    by destruct (expired _ _).
  - destruct (sy_store_lock s !! proc i); [done|]. injection Hgo as <-.
    destruct (sf_writing _ _ _ Hs i c) as (cred & -> & _); [by rewrite Hpc|]. by apply safe_put_load.
  - injection Hgo as <-. by apply (safe_put_save i m c replaced issued s).
  - assert (writing (sy_pc s i) = None) as Hw by by rewrite Hpc.
    destruct c as [c|]; [|simplify_eq; auto]. pose proof (resolve_or_force i (refreshers i)) as Hcall.
    assert (safe replaced issued (goto i (WriteBack (cred_access c))
              (cache_put proc acct i (cred_access c) (cred_expires c) s))) as Hback
      by by apply (safe_done i _ _ _ s); rewrite ?Hpc.
    destruct (call i) eqn:Hc; try (by destruct (Hcall cred)); simplify_eq; case_match; auto.
  - injection Hgo as <-. assert (writing (sy_pc s i) = None) as Hw by by rewrite Hpc.
    unfold write_back. destruct (sy_back s !! i); auto.
Qed.

Lemma safe_answer i reply replaced issued s s' :
  safe replaced issued s -> sys_answer proc acct adopted i reply s = Some s' -> fair (Answer i reply) issued s ->
  safe (option_list (fst <$> rotation (Answer i reply) s) ++ replaced)
       (option_list (snd <$> rotation (Answer i reply) s) ++ issued) s'.
Proof.
  intros Hs Hans Hfair. unfold sys_answer in Hans. cbn [rotation fair] in *.
  destruct (sy_pc s i) as [ | | |seen|seen|seen|seen|latest r meta|c|m c|c|access|res] eqn:Hpc; try done.
  destruct (sf_asking _ _ _ Hs i latest r meta Hpc) as (Hread & Hr & _).
  assert (locked (sy_pc s i) = true) as Hl by by rewrite Hpc.
  assert (writing (sy_pc s i) = None) as Hw by by rewrite Hpc.
  assert (disk_refresh (sy_disk s) (acct i) = Some r) as Hdisk by by rewrite (disk_refresh_read _ _ latest).
  assert (forall s1, quiet i s s1 -> safe replaced issued s1) as Hq by (intros s1 Hq; by apply (quiet_safe i s)).
  assert (forall back home cred r', cred_refresh cred = Some r' ->
            (forall r0 r1, (if decide (r' = r) then None else Some (r, r')) = Some (r0, r1) -> r1 ∉ issued) ->
            safe (option_list (fst <$> (if decide (r' = r) then None else Some (r, r'))) ++ replaced)
                 (option_list (snd <$> (if decide (r' = r) then None else Some (r, r'))) ++ issued)
                 (goto i (PutLoad (Some cred)) (set_back back home s))) as Hput.
  { intros back home cred r' Hc Hf. pose proof (safe_back back home _ _ _ Hs). destruct (decide (r' = r)) as [->|Hne].
    - by apply (safe_write i cred r None).
    - apply (safe_write i cred r (Some r')); try done. split_and!; [done|done|by apply (Hf r r')]. }
  destruct meta as [meta|], reply as [a rr idt ei ec|a rr idt sc ei|txt| |txt [lost|]]; try done; cbn [refresh_of] in *;
    try (injection Hans as <-).
  - by apply (Hput (sy_back s) (sy_home s) _ rr).
  - auto.
  - auto.
  - case_match; simplify_eq; auto.
  - destruct rr as [r'|]; [by apply (Hput _ _ _ r')|].
    apply (safe_write i _ r None); try done. by apply safe_back.
  - auto.
  - auto.
Qed.

Lemma safe_step e replaced issued s s' :
  safe replaced issued s -> timely s -> sys_step proc acct call adopted e s = Some s' -> fair e issued s ->
  safe (option_list (fst <$> rotation e s) ++ replaced) (option_list (snd <$> rotation e s) ++ issued) s'.
Proof using Type*.
  intros Hs Ht Hstep Hfair. destruct e as [i|i|i reply|i|i|i|d]; cbn [sys_step] in Hstep; try apply (safe_answer i);
    try done; cbn [rotation fmap option_fmap option_map option_list app].
  - destruct (sy_pc s i) eqn:Hpc; try done. injection Hstep as <-.
    apply (quiet_safe i s); [|done]. apply quiet_goto; try done. by rewrite Hpc.
  - by apply (safe_go i replaced issued s).
  - destruct (sy_pc s i) eqn:Hpc; try done. injection Hstep as <-.
    apply (quiet_safe i s); [|done]. apply quiet_finish; try done. by rewrite Hpc.
  - destruct (sy_pc s i) eqn:Hpc; try done; [by destruct (Hfair map cred)|]. injection Hstep as <-.
    apply (quiet_safe i s); [|done]. apply quiet_finish; try done. by rewrite Hpc.
  - destruct (sy_pc s i) eqn:Hpc; try done; injection Hstep as <-;
      (apply (quiet_safe i s); [|done]; apply quiet_finish; try (by rewrite Hpc); try done;
       unfold write_back; by destruct (sy_back s !! i)).
  - destruct (0 <=? d) eqn:Hd; [|done]. injection Hstep as <-. destruct Hs as [H1 H2 H3 H4 H5 H6 H7 H8].
    constructor; cbn; try done. intros i latest r meta Hi. destruct (H2 i latest r meta Hi) as (? & ? & He).
    split_and!; [done|done|]. intros Hc. apply (expired_later (sy_now s)); [lia|by apply He].
Qed.

Lemma refreshing_safe replaced issued s : refreshing replaced issued s -> safe replaced issued s /\ timely s.
Proof using Type*.
  induction 1 as [issued s [Hr Hl Hi] Hiss|replaced issued e s s' _ [IH Ht] Hstep Hfair Ht'];
    [|split; [by apply (safe_step e _ _ s)|done]].
  split; [|unfold timely, lock_stale; by rewrite Hl]. constructor; try done.
  - intros i. by rewrite Hr.
  - intros i l r m. by rewrite Hr.
  - intros i c. by rewrite Hr.
  - intros i m c. by rewrite Hr.
  - intros a r _ Hin. by apply elem_of_nil in Hin.
  - intros r Hin. by apply elem_of_nil in Hin.
Qed.

(** C15: renewals do not trip over each other. However the renewals of any
    number of tasks, in any number of processes, are interleaved, with calls
    abandoned while they wait for a lock and waits that time out, whenever a
    task asks the vendor: no other task is asking or writing; the refresh token
    it sends is the one the store holds, and one that the vendor has not
    replaced yet, so no token is ever reported as reused; and unless the
    renewal was demanded, the access token in the store is past its margin,
    so of the tasks that found it stale together only one spends the refresh
    token. This is so among renewals alone, no sign-in or removal running
    beside them, from a start without a lock file, and as long as: no lock
    file is held for more than the 30 seconds after which it is taken over;
    the vendor's new tokens are new, and a request that fails or is refused
    has replaced no token; the store can be written; and a request once sent
    is waited for. What happens else is shown by the findings
    [refresh_taken_over_reused], [refresh_dropped_reused] and
    [sign_in_restores_token]. *)
Theorem refresh_never_reused (replaced issued : list string) (s : Sys) (i : nat) (latest : StoredOAuth)
  (r : string) (meta : option SiwcMeta) :
  refreshing replaced issued s -> sy_pc s i = Asking latest r meta ->
  (r ∉ replaced) /\
  read_oauth (sy_disk s) (acct i) = Ok latest /\ so_refresh_token latest = Some r /\
  (forall j, j <> i -> locked (sy_pc s j) = false) /\
  (call i = Resolve -> expired (sy_now s) (so_expires_at_unix latest) = true).
Proof using Type*.
  intros [Hs _]%refreshing_safe Hpc. destruct (sf_asking _ _ _ Hs i latest r meta Hpc) as (Hread & Hr & He).
  assert (locked (sy_pc s i) = true) as Hl by by rewrite Hpc. split_and!; [|done|done| |done].
  - apply (holder_token i r replaced issued s); [done|done|by rewrite Hpc|].
    by rewrite (disk_refresh_read _ _ latest).
  - intros j Hj. by apply (holder_alone i j replaced issued).
Qed.
End resolver.

(** ** A call on its own *)

Section alone.
Variables (proc : nat -> nat) (acct : nat -> string) (call : nat -> Call) (adopted : string -> bool).

(** No guard is held that task [i] may have to wait for. *)
Record unblocked (i : nat) (s : Sys) : Prop := {
  ub_flight : sy_flight s !! (proc i, acct i) = None;
  ub_file : sy_file_lock s = None;
  ub_back : sy_back s !! i = None;
  ub_store : sy_store_lock s !! proc i = None
}.

Lemma run_step e es s s' s'' :
  sys_step proc acct call adopted e s = Some s' -> sys_run proc acct call adopted es s' = Some s'' ->
  sys_run proc acct call adopted (e :: es) s = Some s''.
Proof. intros He Hes. cbn. by rewrite He. Qed.

Lemma run_nil s : sys_run proc acct call adopted [] s = Some s.
Proof. done. Qed.

Ltac pc_here := rewrite ?pc_goto, ?decide_True by done.
Ltac one_step := eapply run_step; [cbn [sys_step]; unfold sys_go, sys_answer, with_stored; pc_here;
                                   cbn [sy_flight sy_file_lock sy_store_lock sy_disk sy_now sy_cache sy_revoked sy_back sy_home
                                        goto set_back set_locks set_disk set_cache set_now]|].

Lemma start_refresh_asks i latest r s :
  so_refresh_token latest = Some r -> before_colon (acct i) = "gemini" \/ before_colon (acct i) = "codex" ->
  start_refresh proc acct i latest s = goto i (Asking latest r None) s.
Proof. intros Hr Hp. unfold start_refresh. rewrite Hr. by destruct Hp as [-> | ->]. Qed.

(** Up to the request to the vendor. *)
Lemma run_to_asking i s stored r :
  unblocked i s -> sy_pc s i = Ready -> call i = Resolve -> sy_revoked s !! acct i = None ->
  sy_cache s !! (proc i, acct i) = None ->
  read_oauth (sy_disk s) (acct i) = Ok stored -> expired (sy_now s) (so_expires_at_unix stored) = true ->
  so_refresh_token stored = Some r ->
  before_colon (acct i) = "gemini" \/ before_colon (acct i) = "codex" ->
  exists s', sys_run proc acct call adopted (Call_ i :: repeat (Step i) 6) s = Some s' /\
    sy_pc s' i = Asking stored r None /\ sy_disk s' = sy_disk s /\ sy_now s' = sy_now s /\
    sy_store_lock s' = sy_store_lock s /\ lock_owner s' = Some i /\ sy_back s' = sy_back s /\
    sy_flight s' = <[(proc i, acct i) := i]> (sy_flight s).
Proof.
  intros [Hf Hl Hb Hst] Hpc Hcall Hrev Hcache Hread Hexp Hr Hprov.
  eexists. split.
  - one_step; [by rewrite Hpc|]. cbn [repeat].
    one_step; [rewrite Hcall, Hrev, Hcache, decide_False by done; reflexivity|].
    one_step; [rewrite Hst, Hread, Hexp; reflexivity|].
    one_step; [rewrite Hf; reflexivity|].
    one_step; [rewrite Hst, Hread, Hexp, decide_False, bool_decide_eq_true_2 by congruence; cbn [negb orb]; reflexivity|].
    one_step; [rewrite Hl; reflexivity|].
    one_step; [|apply run_nil].
    rewrite Hst, Hread, Hexp, bool_decide_eq_true_2, andb_false_r by done. cbn [negb orb].
    rewrite (start_refresh_asks i stored r) by done. reflexivity.
  - pc_here. by split_and!.
Qed.

Lemma run_app es1 es2 s s1 s2 :
  sys_run proc acct call adopted es1 s = Some s1 -> sys_run proc acct call adopted es2 s1 = Some s2 ->
  sys_run proc acct call adopted (es1 ++ es2) s = Some s2.
Proof.
  revert s. induction es1 as [|e es1 IH]; cbn; intros s H1 H2; [by injection H1 as ->|].
  destruct (sys_step _ _ _ _ e s) as [s0|]; [|done]. by apply IH.
Qed.

(** The guards of a call that ends are free. *)
Lemma finish_unblocked i r s :
  lock_owner s = Some i -> sy_flight s !! (proc i, acct i) = Some i -> sy_back s !! i = None ->
  sy_store_lock s !! proc i = None -> unblocked i (finish proc acct i r s).
Proof.
  intros Hl Hf Hb Hst. constructor; unfold finish, goto, set_locks; cbn [sy_flight sy_file_lock sy_back sy_store_lock].
  - rewrite decide_True by done. apply lookup_delete_eq.
  - by rewrite decide_True.
  - done.
  - by case_decide; [apply lookup_delete_eq|].
Qed.

(** From the answer of the vendor to the end of the call; an adopted account
    is written back before. *)
Definition steps_to_end (i : nat) : nat := if adopted (acct i) then 4 else 3.

Lemma run_from_answer i s latest r access refresh id_token expires_in exp_claim :
  sy_pc s i = Asking latest r None -> call i = Resolve -> sy_back s !! i = None ->
  sy_store_lock s !! proc i = None -> lock_owner s = Some i -> sy_flight s !! (proc i, acct i) = Some i ->
  let c := renewed (sy_now s) (before_colon (acct i)) latest access refresh expires_in exp_claim in
  exists s',
    sys_run proc acct call adopted
      (Answer i (Tokens access refresh id_token expires_in exp_claim) :: repeat (Step i) (steps_to_end i)) s = Some s' /\
    sy_pc s' i = Finished (Ok access) /\ sy_disk s' = <[acct i := c]> (sy_disk s) /\
    sy_cache s' !! (proc i, acct i) = Some (access, cred_expires c) /\ unblocked i s' /\
    sy_home s' = if adopted (acct i)
                 then <[acct i := {| bk_access_token := access;
                                     bk_refresh_token := default "" (opt_or refresh (so_refresh_token latest));
                                     bk_id_token := id_token |}]> (sy_home s)
                 else sy_home s.
Proof.
  intros Hpc Hcall Hb Hst Hl Hf c. unfold lock_owner in Hl. unfold steps_to_end.
  assert (delete (proc i) (<[proc i := i]> (sy_store_lock s)) !! proc i = None) as Hd by apply lookup_delete_eq.
  destruct (adopted (acct i)) eqn:Ha; eexists; (split;
    [one_step; [rewrite Hpc, Ha; fold c; reflexivity|]; cbn [repeat];
     one_step; [rewrite Hst; reflexivity|];
     one_step; [reflexivity|];
     one_step; [rewrite Hcall; cbn [sy_back cache_put set_cache goto set_locks set_disk set_back];
                rewrite ?lookup_insert_eq, ?Hb; reflexivity|];
     first [apply run_nil|one_step; [reflexivity|apply run_nil]]|]).
  - unfold write_back. cbn [sy_back cache_put set_cache goto set_locks set_disk set_back].
    rewrite lookup_insert_eq. split_and!; [unfold finish; by pc_here|done|cbn; by rewrite lookup_insert_eq| |done].
    apply finish_unblocked; [done|done| |done]. cbn. apply lookup_delete_eq.
  - split_and!; [unfold finish; by pc_here|done|cbn; by rewrite lookup_insert_eq| |done].
    by apply finish_unblocked.
Qed.

(** A call on its own. With no guard held by others, an account that is
    not marked and nothing in the cache, resolving ends: with the token in the
    store when it is good for more than the margin, without asking anybody;
    with the store's error when there is no usable entry; and for a stale
    token, after one request that spends the stored refresh token, with the
    vendor's new token, which the store and the cache then keep, together with
    the old refresh token if the vendor gave no new one, and which the home of
    an adopted account receives. All guards are free again. *)
Theorem resolve_alone (i : nat) (s : Sys) :
  unblocked i s -> sy_pc s i = Ready -> call i = Resolve -> sy_revoked s !! acct i = None ->
  sy_cache s !! (proc i, acct i) = None ->
  match read_oauth (sy_disk s) (acct i) with
  | Err e =>
      exists s', sys_run proc acct call adopted [Call_ i; Step i; Step i] s = Some s' /\
        sy_pc s' i = Finished (Err e) /\ sy_disk s' = sy_disk s /\ unblocked i s'
  | Ok stored =>
      (expired (sy_now s) (so_expires_at_unix stored) = false ->
       exists s', sys_run proc acct call adopted [Call_ i; Step i; Step i] s = Some s' /\
         sy_pc s' i = Finished (Ok (so_access_token stored)) /\ sy_disk s' = sy_disk s /\ unblocked i s') /\
      (forall r access refresh id_token expires_in exp_claim,
       expired (sy_now s) (so_expires_at_unix stored) = true -> so_refresh_token stored = Some r ->
       before_colon (acct i) = "gemini" \/ before_colon (acct i) = "codex" ->
       exists s1 s', sys_run proc acct call adopted (Call_ i :: repeat (Step i) 6) s = Some s1 /\
         sy_pc s1 i = Asking stored r None /\
         sys_run proc acct call adopted 
           (Answer i (Tokens access refresh id_token expires_in exp_claim) :: repeat (Step i) (steps_to_end i)) s1 = Some s' /\
         sy_pc s' i = Finished (Ok access) /\ unblocked i s' /\
         sy_disk s' = <[acct i := renewed (sy_now s) (before_colon (acct i)) stored access refresh expires_in exp_claim]>
                        (sy_disk s) /\
         disk_refresh (sy_disk s') (acct i) = Some (default r refresh) /\
         fst <$> sy_cache s' !! (proc i, acct i) = Some access /\
         (adopted (acct i) = true -> bk_access_token <$> sy_home s' !! acct i = Some access))
  end.
Proof.
  intros Hub Hpc Hcall Hrev Hcache. pose proof Hub as [Hf Hl Hb Hst].
  destruct (read_oauth (sy_disk s) (acct i)) as [stored|e] eqn:Hread; [split|].
  - intros Hexp. eexists. split.
    + one_step; [by rewrite Hpc|]. one_step; [rewrite Hcall, Hrev, Hcache, decide_False by done; reflexivity|].
      one_step; [|apply run_nil]. rewrite Hst, Hread, Hexp. reflexivity.
    + unfold settle, finish. pc_here. cbn. unfold lock_owner. cbn. rewrite Hf, Hl, Hst. rewrite !decide_False by done. by split_and!.
  - intros r access refresh idt ei ec Hexp Hr Hp.
    destruct (run_to_asking i s stored r) as (s1 & Hrun & Hpc1 & Hd1 & Hn1 & Hs1 & Hl1 & Hb1 & Hf1); try done.
    destruct (run_from_answer i s1 stored r access refresh idt ei ec) as (s2 & Hrun2 & Hpc2 & Hd2 & Hc2 & Hub2 & Hh2);
      [done|done|by rewrite Hb1|by rewrite Hs1|done|by rewrite Hf1, lookup_insert_eq|].
    exists s1, s2. rewrite Hd2, Hc2, Hn1, Hd1. split_and!; try done.
    + unfold disk_refresh. rewrite lookup_insert_eq. cbn. rewrite Hr. by destruct refresh.
    + intros Ha. rewrite Hh2, Ha. by rewrite lookup_insert_eq.
  - eexists. split.
    + one_step; [by rewrite Hpc|]. one_step; [rewrite Hcall, Hrev, Hcache, decide_False by done; reflexivity|].
      one_step; [|apply run_nil]. rewrite Hst, Hread. reflexivity.
    + unfold finish, lock_owner. pc_here. cbn. rewrite Hf, Hl, Hst. rewrite !decide_False by done. by split_and!.
Qed.
End alone.

(** ** Runs *)

Section runs.
Variables (proc : nat -> nat) (acct : nat -> string) (call : nat -> Call) (adopted : string -> bool).

Definition fair_b (e : SysEvent) (issued : list string) (s : Sys) : bool :=
  match e with
  | WriteFails i => match sy_pc s i with PutSave _ _ => false | _ => true end
  | Answer _ (Hiccup _ (Some _)) => false
  | Drop i => match sy_pc s i with Asking _ _ _ => false | _ => true end
  | _ => match rotation e s with Some (_, r') => negb (bool_decide (r' ∈ issued)) | None => true end
  end.

Lemma fair_b_spec e issued s : fair_b e issued s = true -> fair e issued s.
Proof.
  assert (forall x, match rotation x s with Some (_, r') => negb (bool_decide (r' ∈ issued)) | None => true end = true ->
            forall r r', rotation x s = Some (r, r') -> r' ∉ issued) as Hr.
  { intros x Hb r r' Hr. rewrite Hr in Hb. by apply negb_true_iff, bool_decide_eq_false in Hb. }
  unfold fair_b, fair. destruct e as [i|i|i reply|i|i|i|d]; try apply Hr.
  - destruct reply as [| | | |text [lost|]]; try done; apply Hr.
  - by destruct (sy_pc s i).
  - by destruct (sy_pc s i).
Qed.

Fixpoint fair_run (es : list SysEvent) (x : list string * list string * Sys)
  : option (list string * list string * Sys) :=
  match es with
  | [] => Some x
  | e :: es =>
      let '(replaced, issued, s) := x in
      s' ← sys_step proc acct call adopted e s;
      if fair_b e issued s && negb (lock_stale s') then
        fair_run es (option_list (fst <$> rotation e s) ++ replaced,
                     option_list (snd <$> rotation e s) ++ issued, s')
      else None
  end.

Lemma fair_run_refreshing es replaced issued s replaced' issued' s' :
  refreshing proc acct call adopted replaced issued s ->
  fair_run es (replaced, issued, s) = Some (replaced', issued', s') ->
  refreshing proc acct call adopted replaced' issued' s'.
Proof.
  revert replaced issued s. induction es as [|e es IH]; cbn; intros replaced issued s Hs Hrun; [by simplify_eq|].
  destruct (sys_step proc acct call adopted e s) as [s1|] eqn:He; [|done]. cbn in Hrun.
  destruct (fair_b e issued s && negb (lock_stale s1)) eqn:Hf; [|done]. apply andb_prop in Hf as [Hf Ht%negb_true_iff].
  eapply IH; [|exact Hrun]. by apply (refreshing_step _ _ _ _ _ _ e s); [| |apply fair_b_spec|].
Qed.
End runs.

(** One Gemini account whose token is stale, wanted by task 0 of the server
    and by task 1 of another process. *)
Definition stale_gemini : Credential := CredOAuth "gemini" "me" "A1" (Some "R1") (Some 100) None.
Definition sample_sys (disk : DiskMap) : Sys :=
  {| sy_disk := disk; sy_side := ∅; sy_revoked := ∅; sy_cache := ∅; sy_flight := ∅; sy_file_lock := None;
     sy_store_lock := ∅; sy_back := ∅; sy_home := ∅; sy_now := 1000; sy_pc := fun _ => Ready |}.
Definition sample_disk : DiskMap := {["gemini:me" := stale_gemini]}.
Definition sample_stored : StoredOAuth :=
  {| so_provider := "gemini"; so_account := "me"; so_access_token := "A1"; so_refresh_token := Some "R1";
     so_expires_at_unix := Some 100 |}.
Definition to_asking (i : nat) : list SysEvent := Call_ i :: repeat (Step i) 6.
Definition both_wait : list SysEvent := Call_ 1 :: repeat (Step 1) 4 ++ to_asking 0.

Lemma sample_started : started (sample_sys sample_disk).
Proof.
  constructor; [done|done|]. intros a b r. unfold disk_refresh. cbn. unfold sample_disk.
  destruct (decide (a = "gemini:me")) as [->|Ha]; [|by rewrite lookup_singleton_ne].
  destruct (decide (b = "gemini:me")) as [->|Hb]; [done|by rewrite (lookup_singleton_ne "gemini:me" b)].
Qed.

Abbreviation sample_run es s :=
  (sys_run id (fun _ => "gemini:me") (fun _ => Resolve) (fun _ => false) es s).
Definition sample_asking : Sys := default (sample_sys sample_disk) (sample_run both_wait (sample_sys sample_disk)).

Lemma sample_refreshing :
  refreshing id (fun _ => "gemini:me") (fun _ => Resolve) (fun _ => false) [] ["R1"] sample_asking.
Proof.
  apply (fair_run_refreshing _ _ _ _ both_wait [] ["R1"] (sample_sys sample_disk)).
  - apply refreshing_init; [apply sample_started|]. intros a r. unfold disk_refresh. cbn. unfold sample_disk.
    destruct (decide (a = "gemini:me")) as [->|Ha]; [|by rewrite lookup_singleton_ne].
    rewrite lookup_singleton_eq. intros [= <-]. left.
  - vm_compute. reflexivity.
Qed.

Lemma refresh_never_reused_witness :
  sample_run both_wait (sample_sys sample_disk) = Some sample_asking /\
  sy_pc sample_asking 0 = Asking sample_stored "R1" None /\ locked (sy_pc sample_asking 1) = false.
Proof.
  assert (sy_pc sample_asking 0 = Asking sample_stored "R1" None) as Hpc by (vm_compute; reflexivity).
  destruct (refresh_never_reused id (fun _ => "gemini:me") (fun _ => Resolve) (fun _ => false) (fun _ => or_introl eq_refl)
              [] ["R1"] sample_asking 0 sample_stored "R1" None sample_refreshing Hpc) as (_ & _ & _ & Hothers & _).
  split; [vm_compute; reflexivity|]. split; [exact Hpc|]. apply Hothers. discriminate.
Defined.

Lemma resolve_alone_witness :
  exists s1 s', sys_run id (fun _ => "gemini:me") (fun _ => Resolve) (fun _ => false) (to_asking 0) (sample_sys sample_disk) = Some s1 /\
    sys_run id (fun _ => "gemini:me") (fun _ => Resolve) (fun _ => false) (Answer 0 (Tokens "A2" None None (Some 3600) None) :: repeat (Step 0) 3) s1
      = Some s' /\
    sy_pc s' 0 = Finished (Ok "A2") /\ disk_refresh (sy_disk s') "gemini:me" = Some "R1".
Proof.
  pose proof (resolve_alone id (fun _ => "gemini:me") (fun _ => Resolve) (fun _ => false) 0 (sample_sys sample_disk)) as Hr.
  assert (read_oauth (sy_disk (sample_sys sample_disk)) "gemini:me" = Ok sample_stored) as Hread
    by (vm_compute; reflexivity).
  cbv beta in Hr. rewrite Hread in Hr.
  destruct Hr as [_ Hask]; [constructor; vm_compute; reflexivity|reflexivity|reflexivity| | |].
  1, 2: vm_compute; reflexivity.
  destruct (Hask "R1" "A2" None None (Some 3600) None) as (s1 & s2 & H1 & _ & H2 & H3 & _ & _ & H4 & _);
    [reflexivity|reflexivity|by left|].
  by exists s1, s2.
Defined.

(** ** Findings *)

(** A renewal lives in the future of the request that needed it. When that is
    dropped while the vendor answers, as for a client that hangs up, the new
    tokens are lost, and the next task sends the same refresh token again. *)
Lemma refresh_dropped_reused :
  exists s latest,
    sample_run (both_wait ++ Drop 0 :: repeat (Step 1) 2) (sample_sys sample_disk) = Some s /\
    sy_pc sample_asking 0 = Asking latest "R1" None /\ sy_pc s 1 = Asking latest "R1" None.
Proof.
  exists (default (sample_sys sample_disk)
            (sample_run (both_wait ++ Drop 0 :: repeat (Step 1) 2) (sample_sys sample_disk))), sample_stored.
  split_and!; vm_compute; reflexivity.
Qed.

(** The lock file counts as abandoned after thirty seconds, while the client
    that asks the vendor has no time limit: when the answer takes longer, a
    waiting task takes the lock over and sends the same refresh token. *)
Lemma refresh_taken_over_reused :
  exists s latest,
    sample_run (both_wait ++ Passes (LOCK_STALE_SECS + 1) :: repeat (Step 1) 2) (sample_sys sample_disk) = Some s /\
    sy_pc s 0 = Asking latest "R1" None /\ sy_pc s 1 = Asking latest "R1" None.
Proof.
  exists (default (sample_sys sample_disk)
            (sample_run (both_wait ++ Passes (LOCK_STALE_SECS + 1) :: repeat (Step 1) 2) (sample_sys sample_disk))),
    sample_stored.
  split_and!; vm_compute; reflexivity.
Qed.

(** A sign-in writes the store without the file lock. Of two processes, one
    that reads the store for the sign-in of another account before a renewal
    is kept, and writes it after, puts the replaced refresh token back: the
    next renewal sends it. *)
Definition sign_in_call (i : nat) : Call :=
  if decide (i = 1%nat) then StoreSignIn (CredApiKey "k") else Resolve.
Definition sign_in_acct (i : nat) : string := if decide (i = 1%nat) then "other" else "gemini:me".
Definition sign_in_run : list SysEvent :=
  to_asking 0 ++ [Call_ 1; Step 1; Step 1; Answer 0 (Tokens "A2" (Some "R2") None (Some 10) None)] ++
  repeat (Step 0) 3 ++ [Step 1; Step 1; Passes 100] ++ to_asking 2.

Lemma sign_in_restores_token :
  exists s latest, sys_run id sign_in_acct sign_in_call (fun _ => false) sign_in_run (sample_sys sample_disk) = Some s /\
    sy_pc s 2 = Asking latest "R1" None.
Proof. eexists _, _. split; vm_compute; reflexivity. Qed.

(** The entry of a ChatGPT account carries its extra fields, and only entries
    without them are read: once the token its sign-in left in the cache is
    past its margin, or the server is started again, the account cannot be
    used, whatever the store holds. *)
Lemma chatgpt_never_resolves (m : DiskMap) (a provider account access : string) (refresh : option string)
    (expires : option Z) (meta : SiwcMeta) :
  m !! a = Some (CredOAuth provider account access refresh expires (Some meta)) ->
  read_oauth m a = Err (NotOAuth a).
Proof. intros Ha. unfold read_oauth. by rewrite Ha. Qed.

(** An Antigravity account has no token endpoint: once its token is past its
    margin, it cannot be used. *)
Lemma antigravity_never_refreshes (proc : nat -> nat) (acct : nat -> string) (i : nat) (latest : StoredOAuth) (s : Sys) :
  is_antigravity (acct i) = true ->
  start_refresh proc acct i latest s = finish proc acct i (Err (UnsupportedProvider (acct i))) s.
Proof.
  intros Ha%bool_decide_eq_true. unfold start_refresh. by rewrite Ha.
Qed.
