(* ===== verification/Redact.v ===== *)
(** * Keeping secrets out of the logs

    handlers/redact.rs (the conversion log), request_log/redactor.rs (the
    request log) and the prefix of a text that observability.rs takes without
    cutting a character. *)
From Stdlib Require Import ZArith Lia.
From stdpp Require Import pretty.
From S2P Require Import Prelude.
From S2P Require Import RustStd.
From S2P Require Import Json.
From S2P Require Import Utf8.

(** ** Prefixes of a text *)

(** [str::is_char_boundary]. *)
Definition is_char_boundary (text : string) (i : nat) : bool :=
  match i with
  | O => true
  | _ =>
      match String.get i text with
      | Some c => negb (between 128%Z 191%Z (byte_val c))
      | None => (i =? String.length text)%nat
      end
  end.

(** The loop of [utf8_prefix]: [end] is the argument. *)
Fixpoint char_end (text : string) (i : nat) : nat :=
  match i with
  | O => O
  | S j => if is_char_boundary text i then i else char_end text j
  end.

Definition utf8_prefix (text : string) (max_bytes : nat) : string :=
  if (String.length text <=? max_bytes)%nat then text
  else String.substring 0 (char_end text (Nat.min max_bytes (String.length text))) text.

Definition preview_str (text : string) (max_preview_bytes : nat) : string :=
  if (String.length text <=? max_preview_bytes)%nat then text
  else utf8_prefix text max_preview_bytes +:+ "...<truncated>".

(** ** The conversion log *)

Definition SENSITIVE_KEYS : list string := ["api_key"; "apiKey"; "authorization"; "x-api-key"; "secret"].
Definition SENSITIVE_HEADERS : list string :=
  ["authorization"; "x-api-key"; "api-key"; "x-goog-api-key"; "proxy-authorization"].

Definition sanitize_headers_for_log (headers : list (string * string)) : string :=
  join " " (map (fun '(name, value) =>
                   if bool_decide (to_ascii_lowercase name ∈ SENSITIVE_HEADERS)
                   then name +:+ "=[REDACTED]" else name +:+ "=" +:+ value) headers).

Definition key_patterns (key : string) : list string :=
  [dquote +:+ key +:+ dquote +:+ ":" +:+ dquote; dquote +:+ key +:+ dquote +:+ ": " +:+ dquote].

(** The [while let] loop for one pattern; [None] is fuel that ran out. *)
Fixpoint redact_pattern (fuel : nat) (pat result : string) : option string :=
  match fuel with
  | O => None
  | S fuel =>
      match split_once pat result with
      | None => Some result
      | Some (before, after) =>
          match split_once dquote after with
          | Some (_, rest) => redact_pattern fuel pat (before +:+ pat +:+ "[REDACTED]" +:+ dquote +:+ rest)
          | None => Some result
          end
      end
  end.

Fixpoint redact_patterns (fuel : nat) (pats : list string) (result : string) : option string :=
  match pats with
  | [] => Some result
  | pat :: pats => result ← redact_pattern fuel pat result; redact_patterns fuel pats result
  end.

Definition sanitize_log_body (fuel : nat) (text : string) : option string :=
  redact_patterns fuel (flat_map key_patterns SENSITIVE_KEYS) text.

Definition truncated_body (fuel : nat) (body : string) (max_len : nat) : option string :=
  let s := from_utf8_lossy body in
  sanitize_log_body fuel
    (if (String.length s <=? max_len)%nat then s
     else
       let prefix := utf8_prefix s max_len in
       prefix +:+ "...<truncated " +:+ pretty (String.length s - String.length prefix)%nat +:+ " bytes>").

(** ** The request log *)

Definition SENSITIVE_BODY_KEYS : list string := ["api_key"; "apiKey"; "authorization"; "x-api-key"; "secret"].

Record SanitizedBody := { sb_text : string; sb_truncated : bool }.

Definition is_sensitive (key : string) : bool := bool_decide (key ∈ SENSITIVE_BODY_KEYS).

Fixpoint sanitize_json_value (value : Value) : Value :=
  match value with
  | VObject map =>
      VObject (fold_left (fun sanitized '(key, val) => map_insert key val sanitized)
                 ((fix values (m : Map) : Map :=
                     match m with
                     | [] => []
                     | (key, val) :: m =>
                         (key, if is_sensitive key then VString "[REDACTED]" else sanitize_json_value val)
                           :: values m
                     end) map) [])
  | VArray arr => VArray (map sanitize_json_value arr)
  | other => other
  end.

Section body.
Context `{SerdeJson}.

Definition sanitize_body (body : string) (max_bytes : nat) : SanitizedBody :=
  if (max_bytes <? String.length body)%nat then
    {| sb_text := from_utf8_lossy (String.substring 0 max_bytes body); sb_truncated := true |}
  else
    match value_from_str body with
    | Ok value => {| sb_text := unwrap_or_r "" (serde_to_string (sanitize_json_value value)); sb_truncated := false |}
    | Err _ => {| sb_text := from_utf8_lossy body; sb_truncated := false |}
    end.
End body.

(** * Keeping secrets out of the logs, proofs

    The request log's entry shows exactly the public part of a body; the
    conversion log's loop never redacts anything: it either leaves the text
    as it is or does not end; the prefix of a text never cuts a character. *)
From S2P Require Import Concrete.

(** ** The conversion log *)

(** A text that begins with [p] and is long enough for it. *)
Lemma app_prefix_str p a y r : a +:+ y = p +:+ r -> (String.length p <= String.length a)%nat -> exists r', a = p +:+ r'.
Proof.
  revert a. induction p as [|c p IH]; intros a E Hl; [by exists a|].
  destruct a as [|d a]; [cbn in Hl; lia|]. rewrite !app_cons_str in E. injection E as -> E.
  destruct (IH a E) as [r' ->]; [cbn in Hl; lia|]. by exists r'.
Qed.

(** The first occurrence of a pattern in front of it stays the first one
    whatever follows it. *)
Lemma split_once_again p x before after :
  split_once p x = Some (before, after) ->
  forall y, split_once p (before +:+ p +:+ y) = Some (before, y).
Proof.
  intros Hx y. pose proof (split_once_Some _ _ _ _ Hx) as ->. revert Hx.
  induction before as [|c before IH]; intros Hx.
  - rewrite app_nil_l_str. destruct p as [|d p]; [by destruct y|by apply split_once_here].
  - rewrite app_cons_str in *. cbn [split_once] in *.
    destruct (strip_prefix p (String c (before +:+ p +:+ after))) as [r|] eqn:E; [done|].
    assert (strip_prefix p (String c (before +:+ p +:+ y)) = None) as ->.
    { destruct (strip_prefix p (String c (before +:+ p +:+ y))) as [r|] eqn:E'; [exfalso|done].
      apply strip_prefix_Some in E'.
      assert (exists r', String c before +:+ p = p +:+ r') as [r' Hr].
      { rewrite <-app_cons_str, <-app_assoc_str in E'. apply app_prefix_str in E'; [done|rewrite length_app_str; cbn; lia]. }
      rewrite <-app_cons_str, <-app_assoc_str, Hr, app_assoc_str, strip_prefix_app in E. done. }
    destruct (split_once p (before +:+ p +:+ after)) as [[a b]|]; [|done].
    injection Hx as -> ->. by rewrite IH.
Qed.

(** The loop has work to do: a pattern, and a quote after it. *)
Definition closed (text pat : string) : bool :=
  match split_once pat text with
  | Some (_, after) => is_some (split_once dquote after)
  | None => false
  end.

Lemma redact_pattern_open fuel pat text : closed text pat = false -> redact_pattern (S fuel) pat text = Some text.
Proof.
  unfold closed. cbn [redact_pattern]. destruct (split_once pat text) as [[before after]|]; [|done].
  by destruct (split_once dquote after) as [[]|].
Qed.

(** What the loop writes in place of the value is found again. *)
Lemma redact_pattern_closed fuel pat text : closed text pat = true -> redact_pattern fuel pat text = None.
Proof.
  revert text. induction fuel as [|fuel IH]; intros text; [done|]. unfold closed. cbn [redact_pattern].
  destruct (split_once pat text) as [[before after]|] eqn:E; [|done].
  destruct (split_once dquote after) as [[value rest]|]; [intros _|done].
  apply IH. unfold closed. rewrite (split_once_again _ _ _ _ E).
  change dquote with (String "034" ""). by rewrite split_once_first.
Qed.

(** Whether the text of a log line is ever finished. The loop of
    sanitize_log_body looks for a pattern from the start of the text each time,
    and what it writes in place of the value begins with the pattern. So with
    a sensitive key that has a quoted value anywhere in the text the loop
    never ends, however long it runs, and without one the text goes out as it
    is: no value is ever redacted. *)
Theorem sanitize_log_body_ends (text : string) :
  if any (closed text) (flat_map key_patterns SENSITIVE_KEYS)
  then forall fuel, sanitize_log_body fuel text = None
  else forall fuel, sanitize_log_body (S fuel) text = Some text.
Proof.
  unfold sanitize_log_body. induction (flat_map key_patterns SENSITIVE_KEYS) as [|pat pats IH]; [done|].
  unfold any in *. cbn [existsb redact_patterns]. destruct (closed text pat) eqn:E; cbn [orb].
  - intros fuel. by rewrite redact_pattern_closed.
  - destruct (existsb (closed text) pats); intros fuel.
    + destruct fuel as [|fuel]; [done|]. rewrite redact_pattern_open by done. apply IH.
    + rewrite redact_pattern_open by done. apply IH.
Qed.

(** A body with a key in it is enough. *)
Example api_key_hangs fuel :
  truncated_body fuel ("{" +:+ dquote +:+ "api_key" +:+ dquote +:+ ":" +:+ dquote +:+ "k" +:+ dquote +:+ "}") 4096 = None.
Proof.
  unfold truncated_body.
  set (s := from_utf8_lossy _). pose proof (sanitize_log_body_ends s) as H. revert H. by vm_compute.
Qed.

(** ** The request log *)

(** Two bodies are the same but for the values of sensitive keys. *)
Definition atom (v : Value) : bool := match v with VArray _ | VObject _ => false | _ => true end.

Inductive same_public : Value -> Value -> Prop :=
  | SameAtom v : atom v = true -> same_public v v
  | SameArray l l' : Forall2 same_public l l' -> same_public (VArray l) (VArray l')
  | SameObject m m' :
      Forall2 (fun e e' => e.1 = e'.1 /\ (is_sensitive e.1 = true \/ same_public e.2 e'.2)) m m' ->
      same_public (VObject m) (VObject m').

Definition redacted (e : string * Value) : string * Value :=
  (e.1, if is_sensitive e.1 then VString "[REDACTED]" else sanitize_json_value e.2).

Lemma keys_sorted_redacted m : keys_sorted (map redacted m) = keys_sorted m.
Proof.
  induction m as [|[k v] m IH]; [done|]. cbn [map redacted fst]. rewrite !keys_sorted_cons, <-IH.
  by destruct m as [|[k' v'] m].
Qed.

Lemma sanitize_object m : keys_sorted m = true -> sanitize_json_value (VObject m) = VObject (map redacted m).
Proof.
  intros Hm. cbn [sanitize_json_value]. f_equal.
  transitivity (fold_left (fun acc '(k, v) => map_insert k v acc) (map redacted m) []).
  - f_equal. clear Hm. induction m as [|[k v] m IH]; [done|]. cbn [map]. by rewrite IH.
  - by rewrite insert_sorted; [|rewrite keys_sorted_redacted|].
Qed.

Lemma wf_array l : wf_value (VArray l) = true <-> Forall (fun v => wf_value v = true) l.
Proof. cbn [wf_value]. by rewrite forallb_forall, List.Forall_forall. Qed.

Lemma wf_object m :
  wf_value (VObject m) = true <-> keys_sorted m = true /\ Forall (fun e => wf_value e.2 = true) m.
Proof.
  cbn [wf_value]. rewrite andb_true_iff, forallb_forall, List.Forall_forall.
  split; intros [Hs Hf]; (split; [done|]); intros e He; specialize (Hf e He); by destruct e.
Qed.

Lemma map_eq_Forall2 {A B} (f : A -> B) (R : A -> A -> Prop) l l' :
  Forall (fun a => forall b, b ∈ l' -> f a = f b <-> R a b) l ->
  map f l = map f l' <-> Forall2 R l l'.
Proof.
  revert l'. induction l as [|a l IH]; intros [|b l'] Hf; (split; [intros E; try discriminate E|intros E; inversion E; subst]);
    try done; apply list.Forall_cons in Hf as [Ha Hf];
    assert (Forall (fun a => forall b, b ∈ l' -> f a = f b <-> R a b) l) as Hf'
      by (apply (Forall_weaken _ _ _ Hf); intros x Hx y Hy; apply Hx; by right).
  - injection E as E1 E2. constructor; [apply Ha; [by left|done]|by apply IH].
  - cbn [map]. f_equal; [apply Ha; [by left|done]|by apply IH].
Qed.

Lemma sanitize_same_public v : forall w, wf_value v = true -> wf_value w = true ->
  sanitize_json_value v = sanitize_json_value w <-> same_public v w.
Proof.
  induction v as [|b|n|s|l IH|m IH] using Value_nested_ind; intros w Hv Hw.
  1-4: destruct w; split; intros E; try (inversion E; subst; by constructor); by inversion E.
  - destruct w as [| | | |l'|m']; try (split; intros E; [discriminate E|by inversion E]).
    rewrite wf_array in Hv, Hw. cbn [sanitize_json_value].
    transitivity (map sanitize_json_value l = map sanitize_json_value l'); [split; [by intros [= ->]|by intros ->]|].
    rewrite map_eq_Forall2 with (R := same_public).
    + split; [by constructor|]. intros E. by inversion E.
    + apply List.Forall_forall. intros v Hin w Hin'. rewrite List.Forall_forall in IH, Hv, Hw.
      apply IH; [done|by apply Hv|]. by apply Hw, list_elem_of_In.
  - destruct w as [| | | |l'|m']; try (rewrite sanitize_object by apply wf_object, Hv; split; intros E; [discriminate E|by inversion E]).
    rewrite wf_object in Hv, Hw. destruct Hv as [Hs Hv], Hw as [Hs' Hw]. rewrite !sanitize_object by done.
    transitivity (map redacted m = map redacted m'); [split; [by intros [= ->]|by intros ->]|].
    rewrite map_eq_Forall2.
    + split; [apply SameObject|]. intros E. by inversion E.
    + apply List.Forall_forall. intros [k v] Hin [k' w] Hin'. rewrite List.Forall_forall in IH, Hv, Hw.
      specialize (IH (k, v) Hin w (Hv _ Hin) (Hw (k', w) (proj1 (list_elem_of_In _ _) Hin'))). cbn [fst snd] in *.
      unfold redacted. cbn [fst snd]. split.
      * intros [= <- E]. split; [done|]. destruct (is_sensitive k); [by left|right]. by apply IH.
      * intros [<- [->|Hp]]; [done|]. apply IH in Hp. by rewrite Hp.
Qed.

Lemma sanitize_wf v : wf_value v = true -> wf_value (sanitize_json_value v) = true.
Proof.
  induction v as [|b|n|s|l IH|m IH] using Value_nested_ind; intros Hv; try done.
  - rewrite wf_array in Hv. cbn [sanitize_json_value]. apply wf_array, List.Forall_forall.
    intros w [v [<- Hin]]%in_map_iff. rewrite List.Forall_forall in IH, Hv. by apply IH, Hv.
  - apply wf_object in Hv as [Hs Hv]. rewrite sanitize_object by done. apply wf_object.
    split; [by rewrite keys_sorted_redacted|]. apply List.Forall_forall.
    intros e [[k v] [<- Hin]]%in_map_iff. rewrite List.Forall_forall in IH, Hv. unfold redacted. cbn [fst snd].
    destruct (is_sensitive k); [done|]. by apply (IH _ Hin), (Hv _ Hin).
Qed.

Lemma sanitize_hides v : forall w, same_public v w -> sanitize_json_value v = sanitize_json_value w.
Proof.
  assert (forall m, (fix values (m : Map) : Map :=
                       match m with
                       | [] => []
                       | (key, val) :: m => (key, if is_sensitive key then VString "[REDACTED]" else sanitize_json_value val) :: values m
                       end) m = map redacted m) as Hvals.
  { induction m as [|[k v'] m IH]; [done|]. cbn [map]. by rewrite IH. }
  induction v as [|b|n|s|l IH|m IH] using Value_nested_ind; intros w Hp; try by inversion Hp.
  - inversion Hp as [|? l' Hl|]; subst; [done|]. cbn [sanitize_json_value]. f_equal. clear Hp. revert IH.
    induction Hl as [|x y l l' Hxy _ IHl]; [done|]. intros [Hx Hl]%list.Forall_cons. cbn [map]. f_equal; auto.
  - inversion Hp as [| |? m' Hm]; subst; [done|]. cbn [sanitize_json_value]. rewrite !Hvals. do 2 f_equal. clear Hp Hvals. revert IH.
    induction Hm as [|[k x] [k' y] m m' [Hk Hxy] _ IHm]; [done|]. intros [Hx Hm]%list.Forall_cons. cbn [map fst snd] in *. f_equal; [|by auto].
    unfold redacted. cbn [fst snd]. subst k'. f_equal. destruct Hxy as [->|Hxy]; [done|]. by rewrite (Hx y Hxy).
Qed.

(** C36: what the request log shows of a body that is JSON text, however it is
    laid out, and not longer than the capture limit. When the values read from
    two such bodies differ at most in the values of sensitive keys, at whatever
    depth, they leave the same entry: it tells nothing of those values. And it
    tells everything else of the value: when neither has a number with a
    fraction and they leave the same entry, they differ in nothing but that.
    (The layout and the order of the keys are forgotten in reading.) *)
Theorem request_log_secrecy `{SerdeJson} `{!SerdeJsonLaws} (body body' : string) (v w : Value) (max_bytes : nat) :
  value_from_str body = Ok v -> value_from_str body' = Ok w ->
  (String.length body <= max_bytes)%nat -> (String.length body' <= max_bytes)%nat ->
  (same_public v w -> sanitize_body body max_bytes = sanitize_body body' max_bytes) /\
  (wf_value v = true -> wf_value w = true ->
   sanitize_body body max_bytes = sanitize_body body' max_bytes -> same_public v w).
Proof.
  intros Ev Ew Hlv Hlw. unfold sanitize_body.
  rewrite !(proj2 (Nat.ltb_ge _ _)), Ev, Ew by done. rewrite !serde_to_string_display. cbn [unwrap_or_r]. split.
  - intros Hp. by rewrite (sanitize_hides v w Hp).
  - intros Hv Hw [= E]. apply sanitize_same_public; [done..|].
    pose proof (value_from_to_string _ (sanitize_wf v Hv)) as Es.
    rewrite E, value_from_to_string in Es by by apply sanitize_wf. by injection Es as ->.
Qed.

Definition keyed (key question : string) : Value := obj [("api_key", str key); ("q", str question)].

Lemma request_log_secrecy_witness :
  sanitize_body (value_to_string (keyed "k1" "hi")) 1000 = sanitize_body (value_to_string (keyed "k2" "hi")) 1000 /\
  sanitize_body (value_to_string (keyed "k1" "hi")) 1000 <> sanitize_body (value_to_string (keyed "k1" "ho")) 1000.
Proof.
  assert (forall a b, (a, b) ∈ [("k1", "hi"); ("k2", "hi"); ("k1", "ho")] ->
    value_from_str (value_to_string (keyed a b)) = Ok (keyed a b) /\
    wf_value (keyed a b) = true /\ (String.length (value_to_string (keyed a b)) <= 1000)%nat) as Hk.
  { intros a b Hin. repeat (apply elem_of_cons in Hin as [[= -> ->]|Hin];
      [split; [by apply value_from_to_string|split; [reflexivity|apply Nat.leb_le; vm_compute; reflexivity]]|]).
    by apply elem_of_nil in Hin. }
  destruct (Hk "k1" "hi") as (Ev & Hv & Hlv); [by left|]. destruct (Hk "k2" "hi") as (Ev2 & Hv2 & Hlv2); [by right; left|].
  destruct (Hk "k1" "ho") as (Ew & Hw & Hlw); [by right; right; left|]. split.
  - apply (proj1 (request_log_secrecy _ _ _ _ 1000 Ev Ev2 Hlv Hlv2)).
    apply SameObject. constructor; [|constructor; [|constructor]].
    + split; [reflexivity|left; reflexivity].
    + split; [reflexivity|right]. by constructor.
  - intros E. pose proof (proj2 (request_log_secrecy _ _ _ _ 1000 Ev Ew Hlv Hlw) Hv Hw E) as Hp.
    inversion Hp as [| |m m' Hf]; subst. inversion Hf as [|? ? ? ? _ Hf']; subst.
    inversion Hf' as [|? ? ? ? [_ [Hs|Hs]]]; subst; [discriminate Hs|inversion Hs].
Defined.

(** A body over the limit is cut, not redacted: a key in its first bytes is in
    the entry. *)
Lemma long_body_not_redacted `{SerdeJson} body max_bytes :
  (max_bytes < String.length body)%nat ->
  sb_text (sanitize_body body max_bytes) = from_utf8_lossy (String.substring 0 max_bytes body).
Proof. intros Hl. unfold sanitize_body. by rewrite (proj2 (Nat.ltb_lt _ _)). Qed.

(** ** Prefixes of a text *)

Lemma substring_app a b : String.substring 0 (String.length a) (a +:+ b) = a.
Proof. induction a as [|c a IH]; [by destruct b|]. rewrite app_cons_str. cbn. by rewrite IH. Qed.

Lemma split_at s i : (i <= String.length s)%nat -> exists a b, s = a +:+ b /\ String.length a = i.
Proof.
  revert i. induction s as [|c s IH]; intros i Hi.
  - exists "", "". cbn in Hi. split; [done|]. cbn. lia.
  - destruct i as [|i]; [by exists "", (String c s)|]. cbn in Hi.
    destruct (IH i ltac:(lia)) as (a & b & -> & <-). by exists (String c a), b.
Qed.

Lemma get_middle a c b : String.get (String.length a) (a +:+ String c b) = Some c.
Proof. induction a as [|d a IH]; [done|]. apply IH. Qed.

(** What is still needed after a text, [None] when it is not UTF-8 so far. *)
Fixpoint utf8_state (need : list (Z * Z)) (s : string) : option (list (Z * Z)) :=
  match s with
  | EmptyString => Some need
  | String c s =>
      match need with
      | [] => need ← utf8_need (byte_val c); utf8_state need s
      | (lo, hi) :: need => if between lo hi (byte_val c) then utf8_state need s else None
      end
  end.

Lemma utf8_after_state need a b :
  utf8_after need (a +:+ b) = match utf8_state need a with Some n => utf8_after n b | None => false end.
Proof.
  revert need. induction a as [|c a IH]; intros need; [done|]. rewrite app_cons_str. cbn [utf8_after utf8_state].
  destruct need as [|[lo hi] need]; [|destruct (between lo hi (byte_val c)); [apply IH|done]].
  destruct (utf8_need (byte_val c)); [apply IH|done].
Qed.

(** The bytes that may follow are continuation bytes, three at most. *)
Definition follows (need : list (Z * Z)) : Prop :=
  Forall (fun r => (128 <= r.1)%Z /\ (r.2 <= 191)%Z) need.

Lemma utf8_need_spec b need :
  utf8_need b = Some need -> between 128%Z 191%Z b = false /\ (length need <= 3)%nat /\ follows need.
Proof.
  unfold utf8_need, between, follows, continuation. intros E.
  repeat (case_match; simplify_eq); cbn; (split_and!; [|lia|repeat constructor; cbn; lia]);
    apply andb_false_iff; rewrite !Z.leb_gt, ?andb_true_iff, ?Z.leb_le, ?Z.eqb_eq in *; lia.
Qed.

(** Where a text is cut: some bytes after the start of a character. *)
Lemma utf8_state_split need a n :
  follows need -> (length need <= 3)%nat -> utf8_state need a = Some n ->
  follows n /\
  ((exists a' t, a = a' +:+ t /\ utf8_state need a' = Some [] /\
      ((n = [] /\ t = "") \/ (n <> [] /\ String.length t <= 3)%nat)) \/
   (n <> [] /\ String.length a + length n <= length need)%nat).
Proof.
  assert (forall need a n, follows need -> utf8_state need a = Some n ->
    follows n /\
    ((exists a' t, a = a' +:+ t /\ utf8_state need a' = Some [] /\
        ((n = [] /\ t = "") \/ (n <> [] /\ String.length t + length n <= 4)%nat)) \/
     (n <> [] /\ String.length a + length n <= length need)%nat)) as Hs.
  { clear. intros need a. revert need. induction a as [|c a IH]; intros need n Hf E; cbn [utf8_state] in E.
    - injection E as <-. split; [done|]. destruct need as [|r need]; [left; by exists "", ""; split_and!; [..|left]|right].
      cbn. split; [done|lia].
    - destruct need as [|[lo hi] need].
      + destruct (utf8_need (byte_val c)) as [need|] eqn:En; [|done]. cbn in E.
        pose proof (utf8_need_spec _ _ En) as (_ & Hl & Hf').
        destruct (IH need n Hf' E) as (Hn & [(a' & t & -> & Ea & Ht)|[Hne Hlen]]); (split; [done|]); left.
        * exists (String c a'), t. split_and!; [done| |done]. cbn [utf8_state]. by rewrite En.
        * exists "", (String c a). split_and!; [done..|right]. cbn [String.length]. split; [done|lia].
      + destruct (between lo hi (byte_val c)) eqn:Eb; [|done]. apply list.Forall_cons in Hf as [_ Hf].
        destruct (IH need n Hf E) as (Hn & [(a' & t & -> & Ea & Ht)|[Hne Hlen]]); (split; [done|]).
        * left. exists (String c a'), t. split_and!; [done| |done]. cbn [utf8_state]. by rewrite Eb.
        * right. cbn [String.length length]. split; [done|lia]. }
  intros Hf Hl E. destruct (Hs need a n Hf E) as (Hn & [(a' & t & -> & Ea & [Ht|[Hne Ht]])|Hr]); (split; [done|]).
  - left. exists a', t. split_and!; [done..|by left].
  - left. exists a', t. split_and!; [done..|right]. split; [done|]. destruct n; [done|]. cbn in Ht. lia.
  - by right.
Qed.

(** A place is a character's start exactly when nothing is needed there. *)
Lemma boundary_state a b n :
  utf8_state [] a = Some n -> utf8_after n b = true -> follows n ->
  is_char_boundary (a +:+ b) (String.length a) = bool_decide (n = []).
Proof.
  intros Ea Eb Hf. unfold is_char_boundary. destruct (String.length a) as [|i] eqn:El.
  - destruct a; [|done]. injection Ea as <-. by rewrite bool_decide_eq_true_2.
  - rewrite <-El. destruct b as [|c b].
    + destruct n; [|done]. rewrite app_nil_r_str, bool_decide_eq_true_2 by done.
      assert (String.get (String.length a) a = None) as ->; [|by apply Nat.eqb_refl].
      clear. induction a as [|c a IH]; [done|]. apply IH.
    + rewrite get_middle. destruct n as [|[lo hi] n]; cbn [utf8_after] in Eb.
      * rewrite bool_decide_eq_true_2 by done. destruct (utf8_need (byte_val c)) as [need|] eqn:En; [|done].
        apply utf8_need_spec in En as (-> & _). done.
      * rewrite bool_decide_eq_false_2 by done. apply list.Forall_cons in Hf as [[Hlo Hhi] _].
        apply andb_true_iff in Eb as [Eb _]. unfold between in *. cbn in *.
        apply andb_true_iff in Eb as [H1%Z.leb_le H2%Z.leb_le].
        apply negb_false_iff, andb_true_iff. split; apply Z.leb_le; lia.
Qed.

Lemma char_end_spec text i :
  (char_end text i <= i)%nat /\ is_char_boundary text (char_end text i) = true /\
  forall j, (j <= i)%nat -> is_char_boundary text j = true -> (j <= char_end text i)%nat.
Proof.
  induction i as [|i IH]; [by split_and!; [| |intros j Hj _]|]. cbn [char_end].
  destruct (is_char_boundary text (S i)) eqn:E; [by split_and!|]. destruct IH as (Hl & Hb & Hm).
  split_and!; [lia|done|]. intros j Hj Hj'. destruct (decide (j = S i)) as [->|]; [congruence|]. apply Hm; [lia|done].
Qed.

(** A text that is UTF-8 stays UTF-8 when it is cut for a preview or a log
    line, and loses no more than it must: what is kept is a prefix of it of
    at most max_bytes bytes, all of it when it fits, and otherwise no more than
    three bytes less than max_bytes. *)
Theorem utf8_prefix_text (text : string) (max_bytes : nat) :
  is_utf8 text = true ->
  exists rest, text = utf8_prefix text max_bytes +:+ rest /\
    is_utf8 (utf8_prefix text max_bytes) = true /\
    (String.length (utf8_prefix text max_bytes) <= max_bytes)%nat /\
    (rest = "" \/ (max_bytes <= String.length (utf8_prefix text max_bytes) + 3)%nat).
Proof.
  intros Ht. unfold utf8_prefix. destruct (Nat.leb_spec (String.length text) max_bytes) as [Hl|Hl].
  - exists "". by rewrite app_nil_r_str; split_and!; [..|left].
  - rewrite Nat.min_l by lia. destruct (char_end_spec text max_bytes) as (He & Hb & Hm).
    destruct (split_at text (char_end text max_bytes)) as (a & b & E & Ha); [lia|].
    rewrite <-Ha in *. rewrite E, substring_app in *. exists b.
    unfold is_utf8 in Ht. rewrite utf8_after_state in Ht.
    destruct (utf8_state [] a) as [n|] eqn:Ea; [|done].
    destruct (utf8_state_split [] a n) as (Hf & _); [by constructor|cbn; lia|done|].
    rewrite (boundary_state a b n), bool_decide_eq_true in Hb by done. subst n.
    split_and!; [done| |done|right].
    + unfold is_utf8. rewrite <-(app_nil_r_str a), utf8_after_state, Ea. done.
    + rewrite length_app_str in Hl.
      destruct (split_at (a +:+ b) max_bytes) as (a2 & b2 & E2 & Ha2); [rewrite length_app_str; lia|].
      assert (utf8_after [] (a2 +:+ b2) = true) as Ht2 by by rewrite <-E2, utf8_after_state, Ea.
      rewrite utf8_after_state in Ht2. destruct (utf8_state [] a2) as [n2|] eqn:Ea2; [|done].
      destruct (utf8_state_split [] a2 n2) as (Hf2 & [(a' & t & -> & Ea' & Hn)|[Hn Hlen]]);
        [by constructor|cbn; lia|done| |destruct n2; [done|cbn in Hlen; lia]].
      assert (String.length a' <= String.length a)%nat.
      { apply Hm; [rewrite <-Ha2, length_app_str; lia|]. rewrite E2, app_assoc_str.
        rewrite (boundary_state a' (t +:+ b2) []); [done|done| |by constructor].
        assert (utf8_after [] (a' +:+ (t +:+ b2)) = true) as Ht3
          by by rewrite <-app_assoc_str, <-E2, utf8_after_state, Ea.
        by rewrite utf8_after_state, Ea' in Ht3. }
      rewrite <-Ha2, length_app_str. destruct Hn as [[_ ->]|[_ Ht3]]; cbn; lia.
Qed.

Lemma utf8_prefix_text_witness :
  is_utf8 (utf8_prefix ("a" +:+ bytes2 "195" "169") 2) = true /\ utf8_prefix ("a" +:+ bytes2 "195" "169") 2 = "a".
Proof.
  destruct (utf8_prefix_text ("a" +:+ bytes2 "195" "169") 2 eq_refl) as (rest & _ & Hu & _).
  split; [exact Hu|reflexivity].
Defined.
