(* ===== verification/Handler.v ===== *)
(** * Model requests

    handlers/chat: what one request does up to the choice of a provider
    (plan.rs, [build_plan]), the request sent upstream for one provider and
    account (forward.rs, plugin.rs) and the answers of the handlers
    (respond.rs). The loop over the plan is in Failover.v. *)
From Stdlib Require Import ZArith Lia Floats.SpecFloat.
From stdpp Require Import gmap pretty.
From S2P Require Import Prelude.
From S2P Require Import RustStd.
From S2P Require Import Json.
From S2P Require Import Effects.
From S2P Require Import Format.
From S2P Require Import Sse.
From S2P Require Import Hub.
From S2P Require Import Config.
From S2P Require Import Routing.
From S2P Require Import Namespace.
From S2P Require Import SseRelay.
From S2P Require Import Auth.

Local Open Scope Z_scope.

(** ** Responses *)

Record Response := { rs_status : Z; rs_content_type : string; rs_body : string }.

Definition is_success (status : Z) : bool := (200 <=? status) && (status <=? 299).

Section responses.
Context `{SerdeJson}.

Definition json_response (status : Z) (v : Value) : Response :=
  {| rs_status := status; rs_content_type := "application/json"; rs_body := value_to_string v |}.

Definition api_error_response (status : Z) (error_type message : string) : Response :=
  json_response status
    (obj [("error", obj [("message", str message); ("type", str error_type); ("code", str error_type)])]).

Definition auth_error_response (err : AuthError) : Response :=
  api_error_response 401 "authentication_error" (auth_error_text err).
Definition upstream_error_response (err : string) : Response := api_error_response 502 "upstream_error" err.

(** A conversion that panics is caught; the conversions of the model are total
    and never do. *)
Inductive HandlerError : Type :=
  | Conversion (e : ConvertError)
  | Envelope (e : string)
  | ConversionPanic.

Definition handler_error_text (e : HandlerError) : string :=
  match e with Conversion e => display e | Envelope e => e | ConversionPanic => "conversion not implemented" end.
Definition conversion_error_response (err : HandlerError) : Response :=
  api_error_response 500 "conversion_error" (handler_error_text err).
End responses.

(** ** What is around the handler

    The accounts, the Copilot sessions, the plugins and the network, as the
    handler sees them: operations on a state of their own. [up_resolve] gives
    an access token, an error is its text. *)
Record CopilotSession := { cs_token : string; cs_api_base : string }.
Inductive CopilotError : Type := SessionRefused (message : string) | SessionExchange (message : string).
Record PluginModel := { pm_id : string; pm_npm : string; pm_url : string; pm_api_id : string }.

Record UpstreamRequest := { rq_url : string; rq_headers : Headers; rq_body : string }.

(** An answer: its body arrives in chunks, and reading one may fail. *)
Record UpstreamReply := {
  ur_status : Z; ur_content_type : option string; ur_chunks : list (result string string)
}.

Record PluginFetch := {
  pf_url : string; pf_method : string; pf_headers : Headers; pf_body : string; pf_provider : string; pf_account : string;
  pf_model : string; pf_npm : string
}.
Record PluginReply := { pr_status : Z; pr_content_type : option string; pr_body : string }.

Class Upstream (W : Type) := {
  up_now : W -> Z;
  up_orders : W -> list (string * list string);
  up_is_revoked : string -> W -> bool;
  up_allowance : string -> W -> option Allowance;
  up_resolve : string -> W -> result string string * W;
  up_force_refresh : string -> W -> result string unit * W;
  up_mark_revoked : string -> string -> W -> W;
  up_session : string -> W -> result CopilotError CopilotSession * W;
  up_send : UpstreamRequest -> W -> result string UpstreamReply * W;
  up_models : PluginRef -> string -> W -> result string (list PluginModel) * W;
  up_plugin_start : PluginRef -> W -> result string string * W;
  up_plugin_load : PluginRef -> string -> string -> W -> result string string * W;
  up_plugin_fetch : PluginRef -> PluginFetch -> W -> result string PluginReply * W;
  (** [StatusCode]'s [Display] and [assert_same_host]'s comparison of URLs *)
  up_status_text : Z -> string;
  up_same_host : string -> string -> bool
}.

Record RequestContext := {
  cx_client_model : string;
  cx_upstream_model : string;
  cx_ns_map : NsMap;
  cx_streaming : bool;
  cx_provider_names : list string;
  cx_strategy : RouteStrategy
}.

Definition QUOTA_SHARE : spec_float := S754_finite false 6685030696878080 (-46).

Definition set_account (p : ProviderConfig) (account : option string) : ProviderConfig :=
  {| pv_name := pv_name p; pv_format := pv_format p; pv_base_url := pv_base_url p; pv_api_key := pv_api_key p;
     pv_account := account; pv_accounts := pv_accounts p; pv_api := pv_api p; pv_wire := pv_wire p;
     pv_model_map := pv_model_map p; pv_endpoints := pv_endpoints p; pv_auth := pv_auth p;
     pv_plugin := pv_plugin p; pv_proxy := pv_proxy p |}.

(** ** Preparing a request *)

Section prepare.
Context `{SerdeJson} `{HashOrder}.

Definition prepare_request (cfg : ServerConfig) (agent_keys : list string) (headers : HeaderMap) (body : string)
    (route_info : RouteInfo) (gemini_model : option string) : result Response (RequestContext * string) :=
  _ ← map_err auth_error_response
        (validate_client_keys (ss_api_key (sc_server cfg)) agent_keys (header_str "authorization" headers));
  let client_model := default "" (opt_or (extract_model_from_body body) gemini_model) in
  let stripped_body := strip_private_fields body in
  resolved ← ok_or
    (api_error_response 404 "route_not_found"
       ("no route configured for model " +:+ dquote +:+ client_model +:+ dquote +:+ " (format: " +:+
        Format.as_str (client_format route_info) +:+ ")"))
    (resolve_provider cfg client_model);
  Ok ({| cx_client_model := client_model;
         cx_upstream_model := rt_upstream_model resolved;
         cx_ns_map := extract_namespace_map stripped_body (client_format route_info);
         cx_streaming := is_streaming_request stripped_body route_info;
         cx_provider_names := rt_provider_names resolved;
         cx_strategy := rt_strategy resolved |}, stripped_body).
End prepare.

(** ** Effects of the handler

    On the state around it, and on the identifiers and clock readings the
    conversions draw. *)
Definition Act (W A : Type) : Type := W * World -> A * (W * World).
#[export] Instance act_ret {W} : MRet (Act W) := fun A a s => (a, s).
#[export] Instance act_bind {W} : MBind (Act W) := fun A B f m s => let '(a, s) := m s in f a s.

Definition act {W A} (f : W * World -> A * (W * World)) : Act W A := f.
Definition outside {W A} (f : W -> A * W) : Act W A := fun '(w, c) => let '(a, w) := f w in (a, (w, c)).
Definition converting {W A} (m : Conv A) : Act W (result ConvertError A) :=
  fun '(w, c) => let '(r, c) := m c in (r, (w, c)).

Section attempts.
Context `{SerdeJson} `{Env} `{RequestSerde} `{ResponseSerde} `{StreamSerde} `{HashOrder} {W : Type} `{Upstream W}.
Variable cfg : ServerConfig.

(** ** The plan *)

Definition serves_model (model : string) (m : PluginModel) : bool :=
  bool_decide (pm_id m = model) || (negb (is_empty (pm_api_id m)) && bool_decide (pm_api_id m = model)).

Definition resolve_upstream_api (provider : ProviderConfig) (model : string)
  : Act W (result Response UpstreamApi) :=
  match pv_plugin provider with
  | None => mret (Ok (api_for provider model))
  | Some plugin_ref =>
      models ← outside (up_models plugin_ref (default "" (pv_account provider)));
      mret match models with
           | Err err => Err (api_error_response 502 "plugin_error" ("plugin models: " +:+ err))
           | Ok models =>
               match List.find (serves_model model) models with
               | Some m => Ok (from_npm (pm_npm m))
               | None => Ok Chat
               end
           end
  end.

(** The seats of one provider, in the order they are tried; [None] is the
    slot of a provider that signs in with its static key. *)
Definition candidates (provider : ProviderConfig) (upstream_model : string) (w : W) : list (option string) :=
  let ids := apply_order (account_ids provider)
               (saved_order (up_orders w) (default "" (account_prefix provider))) in
  let allowances id := if (1 <? length ids)%nat then up_allowance id w else None in
  match ids with
  | [] => [None]
  | _ => map Some (order_accounts ids allowances upstream_model QUOTA_SHARE (up_now w))
  end.

Abbreviation Plan := (list (ProviderConfig * UpstreamApi)).

Fixpoint plan_seats (provider : ProviderConfig) (upstream_model : string) (seats : list (option string))
  : Act W (result Response Plan) :=
  match seats with
  | [] => mret (Ok [])
  | account :: seats => fun s =>
      if match account with Some id => up_is_revoked id (fst s) | None => false end
      then plan_seats provider upstream_model seats s
      else
        let effective := set_account provider account in
        (api ← resolve_upstream_api effective upstream_model;
         match api with
         | Err response => mret (Err response)
         | Ok api =>
             rest ← plan_seats provider upstream_model seats;
             mret (plan ← rest; Ok ((effective, api) :: plan))
         end) s
  end.

Fixpoint build_plan (upstream_model : string) (names : list string) (plan_error : option string)
  : Act W (result Response (Plan * option string)) :=
  match names with
  | [] => mret (Ok ([], plan_error))
  | name :: names => fun s =>
      match find_provider cfg name with
      | None => build_plan upstream_model names (Some ("provider not found: " +:+ name)) s
      | Some provider =>
          (plan ← plan_seats provider upstream_model (candidates provider upstream_model (fst s));
           match plan with
           | Err response => mret (Err response)
           | Ok plan =>
               rest ← build_plan upstream_model names plan_error;
               mret (rest ← rest; Ok (plan ++ fst rest, snd rest))
           end) s
      end
  end.

(** ** One attempt *)

Record Attempt := { at_provider : ProviderConfig; at_api : UpstreamApi; at_route_info : RouteInfo }.

Inductive AccountStep : Type :=
  | StepReady (converted_body url : string) (upstream_headers : Headers)
  | StepUnavailable (response : Response)
  | StepFailed (response : Response)
  | StepPanic.

(** The body for the upstream's API. *)
Definition convert_body (att : Attempt) (ctx : RequestContext) (body : string)
  : Act W (option (result Response string)) :=
  let api := at_api att in
  converted ← converting (convert_request body (client_format (at_route_info att)) (to_format api));
  mret match converted with
       | Err err => Some (Err (conversion_error_response (Conversion err)))
       | Ok bytes =>
           if decide (api = CodeAssist) then
             Some (map_err (fun err => conversion_error_response (Envelope err))
                     (wrap_code_assist bytes (cx_upstream_model ctx)))
           else Ok ∘ snd <$> patch_model_in_body bytes (to_format api) (cx_upstream_model ctx)
       end.

Definition account_error (account_id err : string) : Response :=
  api_error_response 502 "account_error" ("account " +:+ account_id +:+ ": " +:+ err).

Definition copilot_session (provider : ProviderConfig) : Act W (result Response (option CopilotSession)) :=
  if is_copilot_account provider then
    let account_id := default "" (pv_account provider) in
    account ← outside (up_resolve account_id);
    match account with
    | Err err => mret (Err (account_error account_id err))
    | Ok token =>
        session ← outside (up_session token);
        mret match session with
             | Ok session => Ok (Some session)
             | Err (SessionRefused message) =>
                 Err (api_error_response 502 "account_error"
                        ("Copilot account " +:+ account_id +:+ ": " +:+ message +:+ "; please re-login (重新登录)"))
             | Err (SessionExchange message) =>
                 Err (api_error_response 502 "account_error"
                        ("Copilot account " +:+ account_id +:+ ": " +:+ message))
             end
    end
  else mret (Ok None).

Definition COPILOT_DEFAULT_API_BASE : string := "https://api.githubcopilot.com".

(** A path without its [/v1]. *)
Definition without_v1 (path : string) : string := default path (strip_prefix "/v1" path).

Definition upstream_url (att : Attempt) (ctx : RequestContext) (session : option CopilotSession) : string :=
  let provider := at_provider att in
  let model := cx_upstream_model ctx in
  let streaming := cx_streaming ctx in
  match session with
  | Some session =>
      let base := if is_empty (cs_api_base session) then COPILOT_DEFAULT_API_BASE else cs_api_base session in
      trim_end_matches "/" base +:+ without_v1 (path (at_api att) model streaming)
  | None =>
      if is_some (pv_plugin provider) then ""
      else if bool_decide (at_api att = Responses) &&
              match head (account_ids provider) with Some id => starts_with "chatgpt-api:" id | None => false end
      then build_upstream_url OpenAIResponses (chatgpt_api_base provider) model streaming
      else if decide (at_api att = CodeAssist)
      then build_url CodeAssist (code_assist_base provider) model streaming
      else build_upstream_url_for_provider provider model streaming
  end.

Definition sign_in_headers (provider : ProviderConfig) (session : option CopilotSession)
  : Act W (result Response Headers) :=
  match session, pv_plugin provider, pv_account provider with
  | Some session, _, _ => mret (Ok (copilot_api_headers (cs_token session)))
  | None, Some _, _ => mret (Ok (hash_iter (pa_headers (pv_auth provider))))
  | None, None, Some account_id =>
      account ← outside (up_resolve account_id);
      mret match account with
           | Err err => Err (account_error account_id err)
           | Ok token => Ok (("Authorization", "Bearer " +:+ token) :: hash_iter (pa_headers (pv_auth provider)))
           end
  | None, None, None => mret (Ok (unwrap_or_r [] (auth_headers (for_provider provider))))
  end.

Definition convert_and_build_upstream (att : Attempt) (ctx : RequestContext) (headers : HeaderMap) (body : string)
  : Act W AccountStep :=
  converted ← convert_body att ctx body;
  match converted with
  | None => mret StepPanic
  | Some (Err response) => mret (StepFailed response)
  | Some (Ok converted_body) =>
      session ← copilot_session (at_provider att);
      match session with
      | Err response => mret (StepUnavailable response)
      | Ok session =>
          auth ← sign_in_headers (at_provider att) session;
          mret match auth with
               | Err response => StepUnavailable response
               | Ok auth =>
                   StepReady converted_body (upstream_url att ctx session)
                     (build_upstream_headers headers auth (ss_pass_through_headers (sc_server cfg)))
               end
      end
  end.

(** ** Transports *)

Definition request_to (url body : string) (headers : HeaderMap) (auth : Headers) : UpstreamRequest :=
  {| rq_url := url;
     rq_headers := ("content-type", "application/json") ::
                   build_upstream_headers headers auth (ss_pass_through_headers (sc_server cfg));
     rq_body := body |}.

(** [Response::bytes]. *)
Fixpoint read_body (chunks : list (result string string)) : result string string :=
  match chunks with
  | [] => Ok ""
  | chunk :: chunks => chunk ← chunk; rest ← read_body chunks; Ok (chunk +:+ rest)
  end.

Definition send (req : UpstreamRequest) : Act W (result string UpstreamReply) :=
  answer ← outside (up_send req);
  mret (map_err (fun e => "upstream request failed: " +:+ e) answer).

(** The envelope of the Code Assist transport is taken off. *)
Definition unwrapped (api : UpstreamApi) (bytes : string) : string :=
  if decide (api = CodeAssist) then unwrap_or_r bytes (unwrap_code_assist bytes) else bytes.

Definition forward_non_streaming (api : UpstreamApi) (req : UpstreamRequest)
  : Act W (result string (Z * string)) :=
  answer ← send req;
  mret (answer ← answer;
        bytes ← map_err (fun e => "failed to read upstream response: " +:+ e) (read_body (ur_chunks answer));
        Ok (ur_status answer, unwrapped api bytes)).

Definition build_non_streaming_response (att : Attempt) (ctx : RequestContext) (upstream_body : string) (status : Z)
  : Act W (result HandlerError Response) :=
  converted ← converting (convert_response upstream_body (to_format (at_api att)) (client_format (at_route_info att)));
  mret (converted ← map_err Conversion converted;
        Ok {| rs_status := status; rs_content_type := "application/json";
              rs_body := patch_response_namespaces converted (cx_ns_map ctx) |}).

(** What the logging of the server, the client and its clock make of the
    relay of an answer does not change what is sent. *)
Variables (log_ctx logger : bool) (max_capture_bytes : Z) (gone : nat -> bool) (elapsed : nat -> Z).

Definition relay_config (att : Attempt) (ctx : RequestContext) : SseRelay.Config :=
  {| rc_from := to_format (at_api att); rc_to := client_format (at_route_info att); rc_api := at_api att;
     rc_ns_map := cx_ns_map ctx; rc_log_ctx := log_ctx; rc_logger := logger;
     rc_max_capture_bytes := max_capture_bytes; rc_gone := gone; rc_elapsed := elapsed |}.

(** The response's body is what the client has received when the relay
    ends. *)
Definition forward_streaming (att : Attempt) (ctx : RequestContext) (req : UpstreamRequest)
  : Act W (result string (Response * Z)) :=
  answer ← send req;
  match answer with
  | Err e => mret (Err e)
  | Ok answer =>
      let status := ur_status answer in
      if is_success status then
        act (fun '(w, c) =>
          let t := relay_stream (relay_config att ctx) (ur_chunks answer) c in
          (Ok ({| rs_status := status; rs_content_type := "text/event-stream";
                  rs_body := concat_strings (tk_sent t) |}, status),
           (w, snd (tk_states t))))
      else
        mret (body ← map_err (fun e => "error body read failed: " +:+ e) (read_body (ur_chunks answer));
              Ok ({| rs_status := status;
                     rs_content_type := default "application/json" (ur_content_type answer);
                     rs_body := body |}, status))
  end.

(** [StatusCode::from_u16]. *)
Definition valid_status (status : Z) : bool := (100 <=? status) && (status <=? 999).

Definition forward_plugin_non_streaming (att : Attempt) (ctx : RequestContext) (reply : PluginReply)
  : Act W (result string (Response * Z)) :=
  if valid_status (pr_status reply) then
    let bytes := unwrapped (at_api att) (pr_body reply) in
    converted ← converting (convert_response bytes (to_format (at_api att)) (client_format (at_route_info att)));
    mret match converted with
         | Err err => Err ("response conversion failed: " +:+ display err)
         | Ok converted =>
             Ok ({| rs_status := pr_status reply; rs_content_type := "application/json";
                    rs_body := patch_response_namespaces converted (cx_ns_map ctx) |}, pr_status reply)
         end
  else mret (Err ("plugin returned invalid status " +:+ pretty (pr_status reply) +:+ ": invalid status code")).

Definition forward_plugin_streaming (att : Attempt) (ctx : RequestContext) (reply : PluginReply)
  : Act W (result string (Response * Z)) :=
  if valid_status (pr_status reply) then
    if is_success (pr_status reply) then
      act (fun '(w, c) =>
        let '(out, s) := relay_whole_run (relay_config att ctx) (pr_body reply) c in
        (Ok ({| rs_status := pr_status reply; rs_content_type := "text/event-stream"; rs_body := out |},
             pr_status reply), (w, snd s)))
    else
      mret (Ok ({| rs_status := pr_status reply;
                   rs_content_type := default "application/json" (pr_content_type reply);
                   rs_body := pr_body reply |}, pr_status reply))
  else mret (Err ("plugin returned invalid status " +:+ pretty (pr_status reply) +:+ ": invalid status code")).
End attempts.
