(* ===== verification/Failover.v ===== *)
(** * The failover loop

    handlers/chat: a request through a plugin (plugin.rs), what a refused
    sign-in means (failover.rs, [classify_401] of credentials/token.rs), the
    loop over the plan and the whole of one model request
    ([process_request] of chat/mod.rs). *)
From Stdlib Require Import ZArith Lia.
From stdpp Require Import gmap pretty.
From S2P Require Import Prelude.
From S2P Require Import RustStd.
From S2P Require Import Json.
From S2P Require Import Effects.
From S2P Require Import Format.
From S2P Require Import Hub.
From S2P Require Import Config.
From S2P Require Import Routing.
From S2P Require Import Utf8.
From S2P Require Import Auth.
From S2P Require Import Handler.

Local Open Scope Z_scope.

Inductive AuthErr401 : Type := Expired | Revoked | Unknown.
#[export] Instance AuthErr401_eq_dec : EqDecision AuthErr401.
Proof. solve_decision. Defined.

Definition classify_401 (body : string) : AuthErr401 :=
  let lower := to_ascii_lowercase body in
  if contains "token_revoked" lower || contains "invalid_grant" lower || contains "refresh_token_reused" lower
  then Revoked
  else if contains "token_expired" lower then Expired else Unknown.

Definition is_retryable_status (status : Z) : bool :=
  bool_decide (status ∈ [429; 500; 502; 503; 504; 529]).

(** ** The state of the loop *)

Record Failover := {
  fo_attempt : nat; fo_expired_retried : option nat; fo_last_error : option string; fo_plan_len : nat
}.

Definition Failover_new (plan_len : nat) : Failover :=
  {| fo_attempt := 0; fo_expired_retried := None; fo_last_error := None; fo_plan_len := plan_len |}.
Definition has_next (fo : Failover) : bool := (fo_attempt fo + 1 <? fo_plan_len fo)%nat.
Definition retried (fo : Failover) : bool := bool_decide (fo_expired_retried fo = Some (fo_attempt fo)).

Definition set_last_error (e : string) (fo : Failover) : Failover :=
  {| fo_attempt := fo_attempt fo; fo_expired_retried := fo_expired_retried fo; fo_last_error := Some e;
     fo_plan_len := fo_plan_len fo |}.
Definition next_attempt (fo : Failover) : Failover :=
  {| fo_attempt := fo_attempt fo + 1; fo_expired_retried := fo_expired_retried fo;
     fo_last_error := fo_last_error fo; fo_plan_len := fo_plan_len fo |}.
Definition mark_retried (fo : Failover) : Failover :=
  {| fo_attempt := fo_attempt fo; fo_expired_retried := Some (fo_attempt fo);
     fo_last_error := fo_last_error fo; fo_plan_len := fo_plan_len fo |}.

Inductive AuthStep : Type := RetrySame | Next | FallThrough.

Inductive PluginOutcome : Type :=
  | Answered (response : Response) (status : Z)
  | Failed (error : string).

(** One pass through the loop's body. *)
Inductive Round : Type :=
  | Return (response : Response)
  | Continue (fo : Failover)
  | Panicked.

Section loop.
Context `{SerdeJson} `{Env} `{RequestSerde} `{ResponseSerde} `{StreamSerde} `{HashOrder} {W : Type} `{Upstream W}.
Variable cfg : ServerConfig.
Variables (log_ctx logger : bool) (max_capture_bytes : Z) (gone : nat -> bool) (elapsed : nat -> Z).

Definition revoked_account_response (account_id : string) : Response :=
  api_error_response 502 "account_revoked"
    ("account " +:+ account_id +:+ " was revoked by the upstream provider — sign in again to continue (`any-converter accounts add`)").

(** ** A refused sign-in *)

Definition refusal (refresh : result string unit) : option string :=
  match refresh with Ok _ => None | Err why => Some why end.

Definition classify_account_auth (att : Attempt) (fo : Failover) (account_id text : string) (status : Z)
  : Act W (result Response AuthStep * Failover) :=
  let name := pv_name (at_provider att) in
  let forbidden := bool_decide (status = 403) in
  let body_says := classify_401 text in
  refresh ← (if negb (retried fo) && negb forbidden
             then r ← outside (up_force_refresh account_id); mret (Some r) else mret None);
  match refresh with
  | Some (Ok _) => mret (Ok RetrySame, mark_retried fo)
  | _ =>
      let refused := refresh ≫= refusal in
      match body_says with
      | Expired =>
          if retried fo then mret (Ok FallThrough, fo)
          else mret (Ok Next, set_last_error ("provider " +:+ name +:+ " account " +:+ account_id +:+
                                              ": refresh after token_expired failed") fo)
      | Revoked =>
          _ ← outside (fun w => (tt, up_mark_revoked account_id text w));
          let fo := set_last_error
            ("provider " +:+ name +:+ " account " +:+ account_id +:+ " revoked" +:+
             match refused with Some why => " (" +:+ why +:+ ")" | None => "" end) fo in
          mret (if has_next fo then Ok Next else Err (revoked_account_response account_id), fo)
      | Unknown =>
          let fo := if is_some refused
                    then set_last_error ("provider " +:+ name +:+ " account " +:+ account_id +:+
                                         ": refresh failed") fo
                    else fo in
          mret (Ok (if has_next fo then Next else FallThrough), fo)
      end
  end.

(** ** The plugin transport *)

Definition plugin_base (loader_base_url : string) (matched : option PluginModel) : string :=
  let base := trim_end_matches "/" loader_base_url in
  if is_empty base then default "" (trim_end_matches "/" ∘ pm_url <$> matched) else base.

Definition plugin_error (message : string) : PluginOutcome :=
  Answered (api_error_response 502 "plugin_error" message) 502.

Definition plugin_params (att : Attempt) (ctx : RequestContext) (upstream_headers : Headers)
    (converted_body provider_id : string) (matched : option PluginModel) (url : string) : PluginFetch :=
  {| pf_url := url; pf_method := "POST"; pf_headers := upstream_headers;
     pf_body := from_utf8_lossy converted_body;
     pf_provider := provider_id; pf_account := default "" (pv_account (at_provider att));
     pf_model := cx_upstream_model ctx; pf_npm := default "" (pm_npm <$> matched) |}.

Definition plugin_fetch (att : Attempt) (ctx : RequestContext) (plugin_ref : PluginRef) (params : PluginFetch)
  : Act W PluginOutcome :=
  reply ← outside (up_plugin_fetch plugin_ref params);
  match reply with
  | Err e => mret (Failed ("plugin fetch failed: " +:+ e))
  | Ok reply =>
      answer ← (if cx_streaming ctx
                then forward_plugin_streaming log_ctx logger max_capture_bytes gone elapsed att ctx reply
                else forward_plugin_non_streaming att ctx reply);
      mret match answer with
           | Ok (response, status) => Answered response status
           | Err error => Failed error
           end
  end.

Definition forward_via_plugin (att : Attempt) (ctx : RequestContext) (plugin_ref : PluginRef)
    (upstream_headers : Headers) (converted_body : string) : Act W PluginOutcome :=
  let name := pv_name (at_provider att) in
  let account := default "" (pv_account (at_provider att)) in
  host ← outside (up_plugin_start plugin_ref);
  match host with
  | Err err => mret (Failed ("plugin " +:+ name +:+ ": " +:+ err))
  | Ok provider_id =>
      loader ← outside (up_plugin_load plugin_ref provider_id account);
      match loader with
      | Err err => mret (Failed ("plugin " +:+ name +:+ " load: " +:+ err))
      | Ok base_url =>
          models ← outside (up_models plugin_ref account);
          match models with
          | Err err => mret (Failed ("plugin " +:+ name +:+ " models: " +:+ err))
          | Ok models =>
              let matched := List.find (serves_model (cx_upstream_model ctx)) models in
              let base := plugin_base base_url matched in
              if is_empty base then
                mret (plugin_error
                        ("plugin says nowhere to send its requests (provider " +:+ name +:+ ")"))
              else
                let url := base +:+ without_v1 (path (at_api att) (cx_upstream_model ctx) (cx_streaming ctx)) in
                if up_same_host base url then
                  plugin_fetch att ctx plugin_ref
                    (plugin_params att ctx upstream_headers converted_body provider_id matched url)
                else
                  mret (plugin_error "plugin tried to send a request to a different host than its base URL")
          end
      end
  end.

(** ** One pass *)

(** A retryable status moves on while another target is left; any other
    answer goes back. *)
Definition move_on (fo : Failover) (name : string) (status : Z) : option Failover :=
  if is_retryable_status status && has_next fo
  then Some (next_attempt (set_last_error ("provider " +:+ name +:+ " returned " +:+ up_status_text status) fo))
  else None.

Definition failed (fo : Failover) (e : string) : Round := Continue (next_attempt (set_last_error e fo)).

(** The end of both local transports: what to do with an answer, [respond]
    being the response it makes. *)
Definition after_answer (att : Attempt) (fo : Failover) (status : Z) (body : string) (respond : Act W Response)
  : Act W Round :=
  let name := pv_name (at_provider att) in
  let settle fo := match move_on fo name status with
                   | Some fo => mret (Continue fo)
                   | None => response ← respond; mret (Return response)
                   end in
  match pv_account (at_provider att) with
  | Some account_id =>
      if bool_decide (status = 401) || bool_decide (status = 403) then
        verdict ← classify_account_auth att fo account_id (from_utf8_lossy body) status;
        match verdict with
        | (Ok RetrySame, fo) => mret (Continue fo)
        | (Ok Next, fo) => mret (Continue (next_attempt fo))
        | (Ok FallThrough, fo) => settle fo
        | (Err response, _) => mret (Return response)
        end
      else settle fo
  | None => settle fo
  end.

Definition via_http (att : Attempt) (ctx : RequestContext) (fo : Failover) (req : UpstreamRequest) : Act W Round :=
  if cx_streaming ctx then
    answer ← forward_streaming log_ctx logger max_capture_bytes gone elapsed att ctx req;
    match answer with
    | Err e => mret (failed fo e)
    | Ok (response, status) => after_answer att fo status (rs_body response) (mret response)
    end
  else
    answer ← forward_non_streaming (at_api att) req;
    match answer with
    | Err e => mret (failed fo e)
    | Ok (status, body) =>
        after_answer att fo status body
          (response ← build_non_streaming_response att ctx body status;
           mret match response with Ok response => response | Err err => conversion_error_response err end)
    end.

Definition via_plugin (att : Attempt) (ctx : RequestContext) (fo : Failover) (plugin_ref : PluginRef)
    (upstream_headers : Headers) (converted_body : string) : Act W Round :=
  outcome ← forward_via_plugin att ctx plugin_ref upstream_headers converted_body;
  mret match outcome with
       | Answered response status =>
           match move_on fo (pv_name (at_provider att)) status with
           | Some fo => Continue fo
           | None => Return response
           end
       | Failed e => failed fo e
       end.

Definition round (ctx : RequestContext) (headers : HeaderMap) (body : string) (route_info : RouteInfo)
    (target : ProviderConfig * UpstreamApi) (fo : Failover) : Act W Round :=
  let '(provider, api) := target in
  let att := {| at_provider := provider; at_api := api; at_route_info := route_info |} in
  step ← convert_and_build_upstream cfg att ctx headers body;
  match step with
  | StepPanic => mret Panicked
  | StepFailed response => mret (Return response)
  | StepUnavailable response =>
      let fo := set_last_error ("provider " +:+ pv_name provider +:+ " account " +:+
                                default "" (pv_account provider) +:+ " unavailable") fo in
      mret (if has_next fo then Continue (next_attempt fo) else Return response)
  | StepReady converted_body url upstream_headers =>
      match pv_plugin provider with
      | Some plugin_ref => via_plugin att ctx fo plugin_ref upstream_headers converted_body
      | None => via_http att ctx fo (request_to cfg url converted_body headers upstream_headers)
      end
  end.

(** ** The loop

    [fuel] bounds the passes; [None] is fuel that ran out and [Some None] a
    panic. *)
Abbreviation Plan := (list (ProviderConfig * UpstreamApi)).

Fixpoint failover (fuel : nat) (ctx : RequestContext) (headers : HeaderMap) (body : string)
    (route_info : RouteInfo) (plan : Plan) (fo : Failover) : Act W (option (option Response)) :=
  match fuel with
  | O => mret None
  | S fuel =>
      match plan !! fo_attempt fo with
      | None => mret (Some (Some (upstream_error_response (default "all providers failed" (fo_last_error fo)))))
      | Some target =>
          r ← round ctx headers body route_info target fo;
          match r with
          | Return response => mret (Some (Some response))
          | Panicked => mret (Some None)
          | Continue fo => failover fuel ctx headers body route_info plan fo
          end
      end
  end.

(** Twice the plan is enough, see [FailoverProps]. *)
Definition run_plan (ctx : RequestContext) (headers : HeaderMap) (body : string) (route_info : RouteInfo)
    (plan : Plan) (plan_error : option string) : Act W (option (option Response)) :=
  let fo := Failover_new (length plan) in
  let fo := match plan_error with Some e => set_last_error e fo | None => fo end in
  failover (S (2 * length plan)) ctx headers body route_info plan fo.

(** ** The whole request

    [now] is the time of the key table; [counter] the process's round-robin
    counter. *)
Definition process_request (headers : HeaderMap) (body : string) (route_info : RouteInfo)
    (gemini_model : option string) (registry : AgentRegistry) (now counter : Z)
  : Act W (option (option Response) * AgentRegistry * Z) :=
  let '(auth, registry) :=
    authenticate registry (ss_api_key (sc_server cfg)) (header_str "authorization" headers) now in
  match auth with
  | Err err => mret (Some (Some (auth_error_response err)), registry, counter)
  | Ok _ =>
      match prepare_request cfg (key_snapshot registry) headers body route_info gemini_model with
      | Err response => mret (Some (Some response), registry, counter)
      | Ok (ctx, body) =>
          let '(names, counter) := order_provider_names (cx_provider_names ctx) (cx_strategy ctx) counter in
          plan ← build_plan cfg (cx_upstream_model ctx) names None;
          match plan with
          | Err response => mret (Some (Some response), registry, counter)
          | Ok (plan, plan_error) =>
              answer ← run_plan ctx headers body route_info plan plan_error;
              mret (answer, registry, counter)
          end
      end
  end.
End loop.
