(* ===== verification/FailoverProps.v ===== *)
(** * The failover loop, proofs

    The loop with its counters and flags is, for every plan, the same as
    trying the targets of the plan one after the other: each once, and once
    more when the first answer led to a refresh of its account's token. *)
From Stdlib Require Import ZArith Lia.
From stdpp Require Import gmap pretty.
From S2P Require Import Prelude.
From S2P Require Import RustStd.
From S2P Require Import Json.
From S2P Require Import Effects.
From S2P Require Import Format.
From S2P Require Import Hub.
From S2P Require Import Config.
From S2P Require Import Routing.
From S2P Require Import Utf8.
From S2P Require Import SseRelay.
From S2P Require Import Auth.
From S2P Require Import Handler.
From S2P Require Import Failover.

#[local] Arguments has_next : simpl never.
#[local] Arguments retried : simpl never.

(** ** Specification *)

(** What one attempt amounts to. [GiveUp]: the next target is tried; the
    reason, where there is one, is told if no target answers. *)
Inductive Verdict : Type :=
  | Answer (response : Response)
  | GiveUp (why : option string)
  | Refreshed
  | Broken.

Section spec.
Context `{SerdeJson} `{Env} `{RequestSerde} `{ResponseSerde} `{StreamSerde} `{HashOrder} {W : Type} `{Upstream W}.
Variable cfg : ServerConfig.
Variables (log_ctx logger : bool) (max_capture_bytes : Z) (gone : nat -> bool) (elapsed : nat -> Z).
Variables (ctx : RequestContext) (headers : HeaderMap) (body : string) (route_info : RouteInfo).

(** [more]: there is another target after this one. [fresh]: its token was
    not refreshed for this request yet. *)
Definition settle (more : bool) (name : string) (status : Z) (respond : Act W Response) : Act W Verdict :=
  if is_retryable_status status && more
  then mret (GiveUp (Some ("provider " +:+ name +:+ " returned " +:+ up_status_text status)))
  else response ← respond; mret (Answer response).

(** The verdict on a refused sign-in, [None] when the answer stands. *)
Definition judge (more fresh : bool) (name account text : string) (status : Z) : Act W (option Verdict) :=
  let seat rest := "provider " +:+ name +:+ " account " +:+ account +:+ rest in
  refresh ← (if fresh && negb (bool_decide (status = 403%Z))
             then r ← outside (up_force_refresh account); mret (Some r) else mret None);
  match refresh, classify_401 text with
  | Some (Ok _), _ => mret (Some Refreshed)
  | _, Expired => mret (if fresh then Some (GiveUp (Some (seat ": refresh after token_expired failed"))) else None)
  | _, Revoked =>
      _ ← outside (fun w => (tt, up_mark_revoked account text w));
      mret (Some (if more
                  then GiveUp (Some (seat (" revoked" +:+
                         match refresh with Some (Err why) => " (" +:+ why +:+ ")" | _ => "" end)))
                  else Answer (revoked_account_response account)))
  | Some _, Unknown => mret (if more then Some (GiveUp (Some (seat ": refresh failed"))) else None)
  | None, Unknown => mret (if more then Some (GiveUp None) else None)
  end.

Definition answered (more fresh : bool) (provider : ProviderConfig) (status : Z) (text : string)
    (respond : Act W Response) : Act W Verdict :=
  match pv_account provider with
  | Some account =>
      if bool_decide (status ∈ [401%Z; 403%Z]) then
        v ← judge more fresh (pv_name provider) account (from_utf8_lossy text) status;
        match v with
        | Some v => mret v
        | None => settle more (pv_name provider) status respond
        end
      else settle more (pv_name provider) status respond
  | None => settle more (pv_name provider) status respond
  end.

Definition attempt (more fresh : bool) (target : ProviderConfig * UpstreamApi) : Act W Verdict :=
  let '(provider, api) := target in
  let att := {| at_provider := provider; at_api := api; at_route_info := route_info |} in
  step ← convert_and_build_upstream cfg att ctx headers body;
  match step with
  | StepPanic => mret Broken
  | StepFailed response => mret (Answer response)
  | StepUnavailable response =>
      mret (if more
            then GiveUp (Some ("provider " +:+ pv_name provider +:+ " account " +:+
                               default "" (pv_account provider) +:+ " unavailable"))
            else Answer response)
  | StepReady converted url upstream_headers =>
      match pv_plugin provider with
      | Some plugin =>
          outcome ← forward_via_plugin log_ctx logger max_capture_bytes gone elapsed att ctx plugin upstream_headers converted;
          match outcome with
          | Failed e => mret (GiveUp (Some e))
          | Answered response status => settle more (pv_name provider) status (mret response)
          end
      | None =>
          let req := request_to cfg url converted headers upstream_headers in
          if cx_streaming ctx then
            r ← forward_streaming log_ctx logger max_capture_bytes gone elapsed att ctx req;
            match r with
            | Err e => mret (GiveUp (Some e))
            | Ok (response, status) => answered more fresh provider status (rs_body response) (mret response)
            end
          else
            r ← forward_non_streaming api req;
            match r with
            | Err e => mret (GiveUp (Some e))
            | Ok (status, text) =>
                answered more fresh provider status text
                  (response ← build_non_streaming_response att ctx text status;
                   mret match response with Ok response => response | Err err => conversion_error_response err end)
            end
      end
  end.

(** The targets in their order; [None] is a panic. *)
Fixpoint serve (targets : list (ProviderConfig * UpstreamApi)) (last_error : option string)
  : Act W (option Response) :=
  match targets with
  | [] => mret (Some (upstream_error_response (default "all providers failed" last_error)))
  | target :: rest =>
      let more := negb (bool_decide (rest = [])) in
      v ← attempt more true target;
      v ← match v with Refreshed => attempt more false target | v => mret v end;
      match v with
      | Answer response => mret (Some response)
      | GiveUp why => serve rest (opt_or why last_error)
      | Refreshed | Broken => mret None
      end
  end.

(** ** One pass of the loop is one attempt *)

(** What a pass makes of its verdict. *)
Definition round_of (fo : Failover) (v : Verdict) : Round :=
  match v with
  | Answer response => Return response
  | GiveUp why => Continue (next_attempt (match why with Some e => set_last_error e fo | None => fo end))
  | Refreshed => Continue (mark_retried fo)
  | Broken => Panicked
  end.

Definition on_fst {A B S} (f : A -> B) (p : A * S) : B * S := (f p.1, p.2).

Lemma act_bind_eq {A B} (m : Act W A) (f : A -> Act W B) s : (m ≫= f) s = let '(a, s') := m s in f a s'.
Proof. done. Qed.

Lemma has_next_error e fo : has_next (set_last_error e fo) = has_next fo.
Proof. done. Qed.

Lemma act_ret_bind {A B} (a : A) (f : A -> Act W B) s : (mret a ≫= f) s = f a s.
Proof. done. Qed.

Lemma settle_round fo name status respond s :
  (match move_on fo name status with
   | Some fo => mret (Continue fo)
   | None => response ← respond; mret (Return response)
   end : Act W Round) s = on_fst (round_of fo) (settle (has_next fo) name status respond s).
Proof.
  unfold move_on, settle. destruct (is_retryable_status status && has_next fo); [done|].
  rewrite !act_bind_eq. by destruct (respond s).
Qed.

Lemma after_answer_round fo att status text respond s :
  after_answer att fo status text respond s =
  on_fst (round_of fo) (answered (has_next fo) (negb (retried fo)) (at_provider att) status text respond s).
Proof.
  unfold after_answer, answered. destruct (pv_account (at_provider att)) as [account|]; [|apply settle_round].
  assert (bool_decide (status ∈ [401%Z; 403%Z]) = bool_decide (status = 401%Z) || bool_decide (status = 403%Z)) as ->.
  { rewrite <-bool_decide_or. apply bool_decide_ext. set_solver. }
  destruct (bool_decide (status = 401%Z) || bool_decide (status = 403%Z)) eqn:Es; [|apply settle_round].
  assert (is_retryable_status status = false) as Hr.
  { by apply orb_true_iff in Es as [Es|Es]; apply bool_decide_eq_true in Es; subst. }
  unfold classify_account_auth, judge, settle, move_on, outside. rewrite Hr. cbn [andb].
  unfold mbind, mret, act_bind, act_ret, on_fst. destruct s as [w c].
  destruct (negb (retried fo) && negb (bool_decide (status = 403%Z)));
    [destruct (up_force_refresh account w) as [[[]|why] w']; [done|]|];
    destruct (classify_401 (from_utf8_lossy text)), (retried fo), (has_next fo) eqn:En;
    cbn; rewrite ?has_next_error, ?En; cbn; try done;
    match goal with |- context [respond ?s] => by destruct (respond s) end.
Qed.

Lemma round_attempt target fo s :
  round cfg log_ctx logger max_capture_bytes gone elapsed ctx headers body route_info target fo s =
  on_fst (round_of fo) (attempt (has_next fo) (negb (retried fo)) target s).
Proof.
  unfold round, attempt. destruct target as [provider api]. set (att := Build_Attempt provider api route_info).
  rewrite !act_bind_eq.
  destruct (convert_and_build_upstream cfg att ctx headers body s) as [[converted url hs|r|r|] s'].
  - destruct (pv_plugin provider) as [plugin|].
    + unfold via_plugin. rewrite !act_bind_eq. destruct (forward_via_plugin _ _ _ _ _ _ _ _ _ _ s') as [[r status|e] s''];
        [|done].
      pose proof (settle_round fo (pv_name provider) status (mret r) s'') as Hs.
      unfold move_on in *. by destruct (is_retryable_status status && has_next fo).
    + unfold via_http. destruct (cx_streaming ctx); rewrite !act_bind_eq.
      * destruct (forward_streaming _ _ _ _ _ _ _ _ s') as [[[r status]|e] s'']; [apply after_answer_round|done].
      * destruct (forward_non_streaming _ _ s') as [[[status text]|e] s'']; [apply after_answer_round|done].
  - unfold on_fst, mret, act_ret. cbn. rewrite has_next_error. by destruct (has_next fo).
  - done.
  - done.
Qed.
(** ** The loop is the plan, target by target *)

Lemma settle_not_refreshed more name status respond s : (settle more name status respond s).1 <> Refreshed.
Proof.
  unfold settle. destruct (is_retryable_status status && more); [done|].
  rewrite act_bind_eq. by destruct (respond s).
Qed.

Lemma judge_stale more name account text status s : (judge more false name account text status s).1 <> Some Refreshed.
Proof. unfold judge. rewrite act_bind_eq. cbn. by destruct (classify_401 text), more, s. Qed.

Lemma attempt_stale more target s : (attempt more false target s).1 <> Refreshed.
Proof.
  assert (forall provider status text respond s,
    (answered more false provider status text respond s).1 <> Refreshed) as Ha.
  { intros. unfold answered. destruct (pv_account provider) as [account|]; [|apply settle_not_refreshed].
    destruct (bool_decide _); [|apply settle_not_refreshed]. rewrite act_bind_eq.
    pose proof (judge_stale more (pv_name provider) account (from_utf8_lossy text) status s0) as Hj.
    destruct (judge _ _ _ _ _ _ s0) as [[v|] s1]; [|apply settle_not_refreshed]. cbn in *. congruence. }
  unfold attempt. destruct target as [provider api]. rewrite act_bind_eq.
  destruct (convert_and_build_upstream _ _ _ _ _ s) as [[converted url hs|r|r|] s1]; [|by destruct more|done|done].
  destruct (pv_plugin provider) as [plugin|].
  - rewrite act_bind_eq. destruct (forward_via_plugin _ _ _ _ _ _ _ _ _ _ s1) as [[r status|e] s2];
      [apply settle_not_refreshed|done].
  - destruct (cx_streaming ctx); rewrite act_bind_eq.
    + by destruct (forward_streaming _ _ _ _ _ _ _ _ s1) as [[[r status]|e] s2].
    + by destruct (forward_non_streaming _ _ s1) as [[[status text]|e] s2].
Qed.

Lemma failover_step fuel plan fo target s :
  plan !! fo_attempt fo = Some target ->
  failover cfg log_ctx logger max_capture_bytes gone elapsed (S fuel) ctx headers body route_info plan fo s =
  (let '(v, s) := attempt (has_next fo) (negb (retried fo)) target s in
   match round_of fo v with
   | Return response => (Some (Some response), s)
   | Panicked => (Some None, s)
   | Continue fo =>
       failover cfg log_ctx logger max_capture_bytes gone elapsed fuel ctx headers body route_info plan fo s
   end).
Proof.
  intros Ht. cbn [failover]. rewrite Ht, act_bind_eq, round_attempt.
  destruct (attempt (has_next fo) (negb (retried fo)) target s) as [v s']. cbn [on_fst fst snd].
  by destruct (round_of fo v).
Qed.

(** The loop has reached [targets]: the targets before them are [done]. *)
Record at_target (plan pre targets : list (ProviderConfig * UpstreamApi)) (fo : Failover) : Prop := {
  at_plan : plan = pre ++ targets;
  at_attempt : fo_attempt fo = length pre;
  at_len : fo_plan_len fo = length plan;
  at_retried : forall i, fo_expired_retried fo = Some i -> (i < fo_attempt fo)%nat
}.

Lemma at_target_more plan pre target rest fo :
  at_target plan pre (target :: rest) fo -> has_next fo = negb (bool_decide (rest = [])).
Proof.
  intros [-> Ha Hl _]. unfold has_next. rewrite Ha, Hl, length_app. cbn.
  destruct rest; cbn; [by apply Nat.ltb_nlt; lia|apply Nat.ltb_lt; lia].
Qed.

Lemma at_target_next plan pre target rest fo why j :
  at_target plan pre (target :: rest) fo ->
  (forall i, j = Some i -> (i <= length pre)%nat) ->
  at_target plan (pre ++ [target]) rest
    {| fo_attempt := fo_attempt fo + 1; fo_expired_retried := j; fo_last_error := why; fo_plan_len := fo_plan_len fo |}.
Proof.
  intros [-> Ha Hl _] Hj. split; cbn; rewrite ?length_app; cbn.
  - by rewrite <-(assoc_L (++)).
  - lia.
  - rewrite Hl, !length_app. cbn. lia.
  - intros i Hi%Hj. lia.
Qed.

Lemma failover_serve plan targets : forall pre fo fuel s,
  at_target plan pre targets fo -> (2 * length targets < fuel)%nat ->
  failover cfg log_ctx logger max_capture_bytes gone elapsed fuel ctx headers body route_info plan fo s =
  on_fst Some (serve targets (fo_last_error fo) s).
Proof.
  induction targets as [|target rest IH]; intros pre fo fuel s Hat Hf; destruct fuel as [|fuel]; try (cbn in Hf; lia).
  - destruct Hat as [-> Ha _ _]. cbn [failover serve]. by rewrite Ha, app_nil_r, lookup_ge_None_2.
  - assert (plan !! fo_attempt fo = Some target) as Ht.
    { destruct Hat as [-> Ha _ _]. rewrite Ha. by apply list_lookup_middle. }
    assert (retried fo = false) as Hr.
    { apply bool_decide_eq_false. intros Hi%(at_retried _ _ _ _ Hat). lia. }
    pose proof (at_target_more _ _ _ _ _ Hat) as Hm. pose proof (at_attempt _ _ _ _ Hat) as Ha.
    rewrite (failover_step _ _ _ _ _ Ht), Hr, Hm. cbn [serve negb]. rewrite act_bind_eq.
    destruct (attempt _ true target s) as [[r|why| |] s1] eqn:E1; cbn [round_of]; rewrite ?act_ret_bind.
    + done.
    + rewrite (IH (pre ++ [target])); [by destruct why| |cbn in Hf; lia].
      destruct why; (apply (at_target_next plan pre target rest fo); [done|]; intros i Hi%(at_retried _ _ _ _ Hat); lia).
    + destruct fuel as [|fuel]; [cbn in Hf; lia|].
      assert (plan !! fo_attempt (mark_retried fo) = Some target) as Ht' by done.
      rewrite (failover_step _ _ _ _ _ Ht').
      assert (retried (mark_retried fo) = true) as -> by by apply bool_decide_eq_true.
      cbn [negb].
      change (has_next (mark_retried fo)) with (has_next fo). rewrite Hm, act_bind_eq.
      pose proof (attempt_stale (negb (bool_decide (rest = []))) target s1) as Hs.
      destruct (attempt _ _ target s1) as [[r|why| |] s2]; cbn [round_of fst] in *; try done.
      rewrite (IH (pre ++ [target])); [by destruct why| |cbn in Hf; lia].
      destruct why; (apply (at_target_next plan pre target rest fo); [done|]; cbn; intros i [= <-]; lia).
    + done.
Qed.

Lemma run_plan_serve plan plan_error s :
  run_plan cfg log_ctx logger max_capture_bytes gone elapsed ctx headers body route_info plan plan_error s =
  on_fst Some (serve plan plan_error s).
Proof.
  unfold run_plan.
  rewrite (failover_serve plan plan [] _ _ _); [by destruct plan_error| |lia].
  by destruct plan_error; split.
Qed.

(** C13: the failover loop of process_request is its specification. For every
    plan and every behaviour of the accounts, the plugins and the upstreams
    the loop ends, and what it returns, and the state it leaves, are those of
    trying the targets of the plan one after the other: every target once,
    once more after its account's token was refreshed, the next one after an
    attempt that gave up, the client's answer being that of the first target
    that does not give up. No fuel from twice the length of the plan on
    changes the answer. *)
Theorem failover_refines (plan : list (ProviderConfig * UpstreamApi)) (plan_error : option string)
  (fuel : nat) (s : W * World) :
  exists answer s', serve plan plan_error s = (answer, s') /\
  run_plan cfg log_ctx logger max_capture_bytes gone elapsed ctx headers body route_info plan plan_error s =
    (Some answer, s') /\
  failover cfg log_ctx logger max_capture_bytes gone elapsed (S (2 * length plan) + fuel) ctx headers body
    route_info plan
    {| fo_attempt := 0; fo_expired_retried := None; fo_last_error := plan_error; fo_plan_len := length plan |} s =
    (Some answer, s').
Proof.
  rewrite run_plan_serve, (failover_serve plan plan []); [|by split|lia].
  destruct (serve plan plan_error s) as [answer s'] eqn:E. exists answer, s'. cbn [fo_last_error]. by rewrite E.
Qed.

(** ** When a request is not answered

    A panic comes from writing the model's name into a body that is JSON but
    neither an object nor null. *)
Definition breaks (target : ProviderConfig * UpstreamApi) : Prop :=
  exists c bytes v,
    fst (convert_request body (client_format route_info) (to_format target.2) c) = Ok bytes /\
    value_from_str bytes = Ok v /\ index_set "model" (str (cx_upstream_model ctx)) v = None /\
    target.2 <> CodeAssist /\ to_format target.2 <> Gemini.

Lemma settle_not_broken more name status respond s : (settle more name status respond s).1 <> Broken.
Proof.
  unfold settle. destruct (is_retryable_status status && more); [done|].
  rewrite act_bind_eq. by destruct (respond s).
Qed.

Lemma judge_not_broken more fresh name account text status s :
  (judge more fresh name account text status s).1 <> Some Broken.
Proof.
  unfold judge. rewrite act_bind_eq. match goal with |- context [(if ?b then ?x else ?y) s] => destruct ((if b then x else y) s) as [r s1] end.
  by destruct r as [[[]|]|], (classify_401 text), more, fresh, s1.
Qed.

Lemma answered_not_broken more fresh provider status text respond s :
  (answered more fresh provider status text respond s).1 <> Broken.
Proof.
  unfold answered. destruct (pv_account provider) as [account|]; [|apply settle_not_broken].
  destruct (bool_decide _); [|apply settle_not_broken]. rewrite act_bind_eq.
  pose proof (judge_not_broken more fresh (pv_name provider) account (from_utf8_lossy text) status s) as Hj.
  destruct (judge _ _ _ _ _ _ s) as [[v|] s1]; [|apply settle_not_broken]. cbn in *. congruence.
Qed.

Lemma patch_model_panics text format model :
  patch_model_in_body text format model = None ->
  format <> Gemini /\ exists v, value_from_str text = Ok v /\ index_set "model" (str model) v = None.
Proof.
  unfold patch_model_in_body. destruct (value_from_str text) as [v|e]; [|done]. intros E.
  assert (forall w, (w ≫= fun value => Some match serde_to_string value with
             | Ok bytes => (@Ok string unit tt, bytes) | Err e => (Err e, text) end) = None -> w = None) as Hw
    by by intros [].
  destruct format; apply Hw in E; try (split; [done|by exists v]).
  destruct v; cbn in E; try done. by destruct (map_get "model" m).
Qed.

Lemma sign_in_no_panic provider api converted s :
  let att := {| at_provider := provider; at_api := api; at_route_info := route_info |} in
  ((session ← copilot_session (at_provider att);
    match session with
    | Err response => mret (StepUnavailable response)
    | Ok session =>
        auth ← sign_in_headers (at_provider att) session;
        mret match auth with
             | Err response => StepUnavailable response
             | Ok auth =>
                 StepReady converted (upstream_url att ctx session)
                   (build_upstream_headers headers auth (ss_pass_through_headers (sc_server cfg)))
             end
    end : Act W AccountStep) s).1 <> StepPanic.
Proof.
  cbn zeta. rewrite act_bind_eq. destruct (copilot_session _ s) as [[session|r] s1]; [|done].
  rewrite act_bind_eq. by destruct (sign_in_headers _ session s1) as [[] ?].
Qed.

Lemma convert_panics provider api s :
  (convert_and_build_upstream cfg {| at_provider := provider; at_api := api; at_route_info := route_info |}
     ctx headers body s).1 = StepPanic -> breaks (provider, api).
Proof.
  unfold convert_and_build_upstream. rewrite act_bind_eq. unfold convert_body. cbn [at_api at_route_info].
  rewrite act_bind_eq. destruct s as [w c]. unfold converting at 1.
  destruct (convert_request body (client_format route_info) (to_format api) c) as [[bytes|e] c'] eqn:Ec; [|done].
  destruct (decide (api = CodeAssist)) as [->|Hapi].
  - unfold mret at 1, act_ret at 1. destruct (map_err _ _) as [converted|r]; [|done].
    intros E. by destruct (sign_in_no_panic provider CodeAssist converted (w, c')).
  - unfold mret at 1, act_ret at 1. destruct (patch_model_in_body bytes (to_format api) (cx_upstream_model ctx)) eqn:Ep.
    + cbn [fmap option_fmap option_map compose]. intros E.
      by destruct (sign_in_no_panic provider api p.2 (w, c')).
    + intros _. apply patch_model_panics in Ep as (Hg & v & Ev & Ei). exists c, bytes, v. cbn [snd]. by rewrite Ec.
Qed.

Lemma attempt_broken more fresh target s :
  (attempt more fresh target s).1 = Broken -> breaks target.
Proof.
  unfold attempt. destruct target as [provider api]. rewrite act_bind_eq.
  pose proof (convert_panics provider api s) as Hc.
  destruct (convert_and_build_upstream _ _ _ _ _ s) as [[converted url hs|r|r|] s1]; [|by destruct more|done|intros _; by apply Hc].
  intros E. exfalso. revert E. destruct (pv_plugin provider) as [plugin|].
  - rewrite act_bind_eq. destruct (forward_via_plugin _ _ _ _ _ _ _ _ _ _ s1) as [[r status|e] s2];
      [apply settle_not_broken|done].
  - destruct (cx_streaming ctx); rewrite act_bind_eq.
    + destruct (forward_streaming _ _ _ _ _ _ _ _ s1) as [[[r status]|e] s2]; [apply answered_not_broken|done].
    + destruct (forward_non_streaming _ _ s1) as [[[status text]|e] s2]; [apply answered_not_broken|done].
Qed.

Lemma serve_unanswered targets : forall last_error s,
  (serve targets last_error s).1 = None -> exists target, target ∈ targets /\ breaks target.
Proof.
  induction targets as [|target rest IH]; intros last_error s; [done|]. cbn [serve]. rewrite act_bind_eq.
  set (more := negb _).
  pose proof (attempt_broken more true target s) as Hb1. destruct (attempt more true target s) as [v s1].
  rewrite act_bind_eq.
  assert (forall v s2, (v = Broken -> breaks target) -> v <> Refreshed ->
    (match v with
     | Answer response => mret (Some response)
     | GiveUp why => serve rest (opt_or why last_error)
     | Refreshed | Broken => mret None
     end s2).1 = None -> exists target', target' ∈ target :: rest /\ breaks target') as Hend.
  { intros [r|why| |] s2 Hb Hr; try done.
    - intros E%IH. destruct E as (t' & Hin & Ht'). exists t'. split; [by right|done].
    - intros _. exists target. split; [by left|by apply Hb]. }
  destruct v as [r|why| |];
    [by apply (Hend (Answer r) s1)|by apply (Hend (GiveUp why) s1)| |by apply (Hend Broken s1)].
  pose proof (attempt_broken more false target s1) as Hb2. pose proof (attempt_stale more target s1) as Hb3.
  destruct (attempt more false target s1) as [v2 s2]. by apply Hend.
Qed.

(** ** What a request may cost

    Prices for a measure of the state around the handler: how much a request
    sent upstream, a demanded refresh, the resolving of an account (which
    refreshes a stale token itself), a Copilot session, and each question to a
    plugin's process raise it at most. *)
Record Prices := {
  per_send : nat; per_refresh : nat; per_resolve : nat; per_session : nat;
  per_start : nat; per_load : nat; per_models : nat
}.

Record Costs (n : W -> nat) (prices : Prices) : Prop := {
  cost_send r w : (n (up_send r w).2 <= n w + per_send prices)%nat;
  cost_fetch p f w : (n (up_plugin_fetch p f w).2 <= n w + per_send prices)%nat;
  cost_refresh a w : (n (up_force_refresh a w).2 <= n w + per_refresh prices)%nat;
  cost_mark a t w : (n (up_mark_revoked a t w) <= n w)%nat;
  cost_resolve a w : (n (up_resolve a w).2 <= n w + per_resolve prices)%nat;
  cost_session t w : (n (up_session t w).2 <= n w + per_session prices)%nat;
  cost_start p w : (n (up_plugin_start p w).2 <= n w + per_start prices)%nat;
  cost_load p i a w : (n (up_plugin_load p i a w).2 <= n w + per_load prices)%nat;
  cost_models p a w : (n (up_models p a w).2 <= n w + per_models prices)%nat
}.

(** One try of a target: its sign-in, its plugin and its request. *)
Definition sign_in_price (prices : Prices) : nat := per_resolve prices + per_session prices.
Definition plugin_price (prices : Prices) : nat := per_start prices + per_load prices + per_models prices.
Definition try_price (prices : Prices) : nat :=
  sign_in_price prices + plugin_price prices + per_send prices.

Section costs.
Variables (n : W -> nat) (prices : Prices).
Hypothesis costs : Costs n prices.

Definition within {A} (k : nat) (m : Act W A) : Prop := forall s, (n (m s).2.1 <= n s.1 + k)%nat.

Lemma within_ret {A} k (a : A) : within k (mret a).
Proof. intros s. cbn. lia. Qed.

Lemma within_bind {A B} k1 k2 (m : Act W A) (f : A -> Act W B) :
  within k1 m -> (forall a, within k2 (f a)) -> within (k1 + k2) (m ≫= f).
Proof.
  intros Hm Hf s. rewrite act_bind_eq. specialize (Hm s). destruct (m s) as [a s1].
  specialize (Hf a s1). cbn in *. lia.
Qed.

Lemma within_mono {A} k1 k2 (m : Act W A) : within k1 m -> (k1 <= k2)%nat -> within k2 m.
Proof. intros Hm Hk s. specialize (Hm s). lia. Qed.

(** Sequencing when all of the cost is in one of the two. *)
Lemma within_then {A B} k (m : Act W A) (f : A -> Act W B) :
  within 0 m -> (forall a, within k (f a)) -> within k (m ≫= f).
Proof. apply (within_bind 0). Qed.
Lemma within_first {A B} k (m : Act W A) (f : A -> Act W B) :
  within k m -> (forall a, within 0 (f a)) -> within k (m ≫= f).
Proof. intros Hm Hf. eapply within_mono; [by apply within_bind|lia]. Qed.

Lemma within_outside {A} k (f : W -> A * W) : (forall w, (n (f w).2 <= n w + k)%nat) -> within k (outside f).
Proof. intros Hf [w c]. specialize (Hf w). unfold outside. by destruct (f w). Qed.

Lemma within_converting {A} k (m : Conv A) : within k (converting m).
Proof. intros [w c]. unfold converting. destruct (m c). cbn. lia. Qed.

(** The effects of the state around the handler, by the laws above. *)
Ltac price_outside :=
  apply within_outside; intros ?w; cbn [fst snd]; solve [destruct costs; auto with lia].

Lemma resolve_cost a : within (per_resolve prices) (outside (up_resolve a)).
Proof using costs. price_outside. Qed.
Lemma session_cost token : within (per_session prices) (outside (up_session token)).
Proof using costs. price_outside. Qed.
Lemma mark_free account text : within 0 (outside (fun w => (tt, up_mark_revoked account text w))).
Proof using costs. apply within_outside. intros w. rewrite Nat.add_0_r. by apply costs. Qed.

(** A chain of effects, all of them free. *)
Ltac free :=
  intros; repeat match goal with
    | |- within _ (mret _) => apply within_ret
    | |- within _ (converting _) => apply within_converting
    | |- within _ (outside (fun w => (tt, up_mark_revoked _ _ w))) => apply mark_free
    | |- within _ (mbind _ _) => apply within_then; [|intros ?a]
    | |- within _ (match ?x with _ => _ end) => destruct x
    end.

(** An account is resolved once: for its session, or for its header. *)
Lemma copilot_session_cost provider s :
  (n (copilot_session provider s).2.1 <=
   n s.1 + match (copilot_session provider s).1 with Ok None => 0 | _ => sign_in_price prices end)%nat.
Proof using costs.
  unfold copilot_session, sign_in_price. destruct (is_copilot_account provider); [|cbn; lia]. rewrite act_bind_eq.
  pose proof (resolve_cost (default "" (pv_account provider)) s) as Hr.
  destruct (outside _ s) as [[token|e] s1]; cbn [snd] in Hr; [|cbn; lia]. rewrite act_bind_eq.
  pose proof (session_cost token s1) as Hs.
  destruct (outside (up_session token) s1) as [[session|[]] s2]; cbn in *; lia.
Qed.

Lemma sign_in_headers_cost provider session :
  within (match session with Some _ => 0 | None => sign_in_price prices end) (sign_in_headers provider session).
Proof using costs.
  unfold sign_in_headers. destruct session; [free|]. destruct (pv_plugin provider); [free|].
  destruct (pv_account provider); [|free]. apply within_first; [|free].
  eapply within_mono; [apply resolve_cost|unfold sign_in_price; lia].
Qed.

Lemma convert_cost att : within (sign_in_price prices) (convert_and_build_upstream cfg att ctx headers body).
Proof using costs.
  unfold convert_and_build_upstream. apply within_then; [unfold convert_body; free|].
  intros [[converted|r]|]; [|free..]. intros s. rewrite act_bind_eq.
  pose proof (copilot_session_cost (at_provider att) s) as Hc.
  destruct (copilot_session (at_provider att) s) as [[session|r] s1]; cbn [fst snd] in Hc; [|cbn; lia].
  rewrite act_bind_eq. pose proof (sign_in_headers_cost (at_provider att) session s1) as Hh.
  destruct (sign_in_headers (at_provider att) session s1) as [auth s2]. cbn [snd] in Hh.
  destruct auth, session; cbn; lia.
Qed.

Lemma respond_free att text status : within 0 (build_non_streaming_response att ctx text status).
Proof. unfold build_non_streaming_response. free. Qed.

Lemma plugin_reply_free att reply :
  within 0 (forward_plugin_streaming log_ctx logger max_capture_bytes gone elapsed att ctx reply) /\
  within 0 (forward_plugin_non_streaming att ctx reply).
Proof.
  unfold forward_plugin_streaming, forward_plugin_non_streaming. split; free.
  intros [w c]. unfold act. destruct (relay_whole_run _ _ c) as [out [ss c']]. cbn. lia.
Qed.

Lemma send_cost req : within (per_send prices) (send req).
Proof using costs. unfold send. apply within_first; [|free]. price_outside. Qed.

Lemma transport_cost att api req :
  within (per_send prices) (forward_streaming log_ctx logger max_capture_bytes gone elapsed att ctx req) /\
  within (per_send prices) (forward_non_streaming api req).
Proof using costs.
  unfold forward_streaming, forward_non_streaming.
  split; (apply within_first; [apply send_cost|]); intros answer; free.
  intros [w c]. unfold act. cbn. lia.
Qed.

Lemma plugin_fetch_cost att plugin params :
  within (per_send prices) (plugin_fetch log_ctx logger max_capture_bytes gone elapsed att ctx plugin params).
Proof using costs.
  unfold plugin_fetch. apply within_first; [price_outside|].
  intros [reply|e]; [|free]. apply within_then; [|free]. destruct (cx_streaming ctx); apply plugin_reply_free.
Qed.

Lemma plugin_cost att plugin hs converted :
  within (plugin_price prices + per_send prices)
    (forward_via_plugin log_ctx logger max_capture_bytes gone elapsed att ctx plugin hs converted).
Proof using costs.
  unfold forward_via_plugin, plugin_price. rewrite <-!Nat.add_assoc.
  apply within_bind; [price_outside|]. intros [id|e]; [|apply within_ret].
  apply within_bind; [price_outside|]. intros [base|e]; [|apply within_ret].
  apply within_bind; [price_outside|]. intros [models|e]; [|apply within_ret]. cbv zeta.
  destruct (is_empty _); [apply within_ret|]. destruct (up_same_host _ _); [|apply within_ret].
  apply plugin_fetch_cost.
Qed.

Lemma settle_free more name status (respond : Act W Response) : within 0 respond -> within 0 (settle more name status respond).
Proof. intros Hr. unfold settle. free. apply Hr. Qed.

Lemma judge_cost more (fresh : bool) name account text status :
  within (if fresh then per_refresh prices else 0) (judge more fresh name account text status).
Proof using costs.
  unfold judge. apply within_first; [|intros r; free].
  destruct fresh; cbn [andb]; [|free]. destruct (negb _); [|free].
  apply within_first; [|free]. price_outside.
Qed.

Lemma answered_cost more (fresh : bool) provider status text (respond : Act W Response) :
  within 0 respond ->
  within (if fresh then per_refresh prices else 0) (answered more fresh provider status text respond).
Proof using costs.
  intros Hr. pose proof (settle_free more (pv_name provider) status respond Hr) as Hs.
  assert (within (if fresh then per_refresh prices else 0) (settle more (pv_name provider) status respond)) as Hs'.
  { eapply within_mono; [exact Hs|lia]. }
  unfold answered. destruct (pv_account provider) as [account|]; [|done].
  destruct (bool_decide _); [|done]. apply within_first; [apply judge_cost|].
  intros [v|]; [apply within_ret|done].
Qed.

Lemma attempt_cost more (fresh : bool) target :
  within (try_price prices + if fresh then per_refresh prices else 0) (attempt more fresh target).
Proof using costs.
  unfold attempt, try_price. destruct target as [provider api]. rewrite <-!Nat.add_assoc.
  apply within_bind; [apply convert_cost|].
  intros [converted url hs|r|r|]; [|free..].
  destruct (pv_plugin provider) as [plugin|].
  - rewrite Nat.add_assoc. apply within_bind; [apply plugin_cost|]. intros [r status|e]; [|free].
    eapply within_mono; [apply settle_free|]; [free|lia].
  - eapply within_mono; [|apply Nat.le_add_l].
    destruct (cx_streaming ctx); (apply within_bind; [by eapply transport_cost|]).
    + intros [[r status]|e]; [|free]. apply answered_cost. free.
    + intros [[status text]|e]; [|free]. apply answered_cost.
      apply within_then; [apply respond_free|free].
  Unshelve. all: done.
Qed.

Lemma serve_cost targets : forall last_error,
  within (length targets * (2 * try_price prices + per_refresh prices)) (serve targets last_error).
Proof using costs.
  induction targets as [|target rest IH]; intros last_error; [apply within_ret|].
  cbn [serve length]. eapply within_mono.
  - apply within_bind with
      (k2 := (try_price prices + length rest * (2 * try_price prices + per_refresh prices))%nat); [apply attempt_cost|].
    intros v. apply within_bind.
    + destruct v; try apply within_ret.
      eapply within_mono; [apply attempt_cost|cbn; lia].
    + intros [r|why| |]; [free| |free..]. apply IH.
  - cbn. lia.
Qed.
End costs.

(** C16: what one request costs. Each target of its plan is tried at most twice
    and its token refreshed by demand at most once; a try sends at most one
    request, and before it resolves at most one account (which may renew a
    stale token itself), opens at most one Copilot session, and asks a plugin's
    process at most to start, to load and for its models. So for every
    measure of the surroundings, whatever each of these raises it by at most,
    running the plan raises it by at most the price of two tries and one
    refresh for each target, whatever the accounts, the plugins and the
    upstreams answer; and the run ends. *)
Theorem run_plan_cost (n : W -> nat) (prices : Prices)
  (plan : list (ProviderConfig * UpstreamApi)) (plan_error : option string) (s : W * World) :
  Costs n prices ->
  exists answer s',
    run_plan cfg log_ctx logger max_capture_bytes gone elapsed ctx headers body route_info plan plan_error s =
      (Some answer, s') /\
    (n s'.1 <= n s.1 + length plan * (2 * try_price prices + per_refresh prices))%nat.
Proof.
  intros costs. pose proof (serve_cost n prices costs plan plan_error s) as Hc.
  rewrite run_plan_serve. destruct (serve plan plan_error s) as [answer s']. by exists answer, s'.
Qed.
End spec.
