(* ===== verification/RequestProps.v ===== *)
(** * Whole requests, proofs

    The plan of a request is the seats of its providers in their order; a
    request whose key is not accepted touches nothing; and the loop over the
    plan on a small world with two accounts. *)
From Stdlib Require Import ZArith Lia.
From stdpp Require Import gmap pretty.
From S2P Require Import Prelude.
From S2P Require Import RustStd.
From S2P Require Import Json.
From S2P Require Import Effects.
From S2P Require Import Format.
From S2P Require Import Concrete.
From S2P Require Import Hub.
From S2P Require Import HubProps.
From S2P Require Import Config.
From S2P Require Import Routing.
From S2P Require Import Namespace.
From S2P Require Import Auth.
From S2P Require Import Handler.
From S2P Require Import Failover.
From S2P Require Import FailoverProps.

(** ** The plan *)

Section plan.
Context `{SerdeJson} `{Env} `{RequestSerde} `{ResponseSerde} `{StreamSerde} `{HashOrder} {W : Type} `{Upstream W}.
Variable cfg : ServerConfig.

(** An account that may be tried; [None] is a provider's static key. *)
Definition usable (w : W) (account : option string) : Prop :=
  match account with Some id => up_is_revoked id w = false | None => True end.
#[local] Instance usable_dec w account : Decision (usable w account).
Proof. destruct account; cbn; apply _. Defined.

Definition seat (model : string) (p : ProviderConfig) (account : option string) : ProviderConfig * UpstreamApi :=
  let p := set_account p account in (p, api_for p model).

Definition seats_of (w : W) (model name : string) : list (ProviderConfig * UpstreamApi) :=
  match find_provider cfg name with
  | None => []
  | Some p => map (seat model p) (filter (usable w) (candidates p model w))
  end.

Definition note_missing (e : option string) (name : string) : option string :=
  match find_provider cfg name with None => Some ("provider not found: " +:+ name) | Some _ => e end.

Lemma plan_seats_filter model p accounts s :
  pv_plugin p = None ->
  plan_seats p model accounts s = (Ok (map (seat model p) (filter (usable s.1) accounts)), s).
Proof.
  intros Hp. induction accounts as [|account accounts IH]; [done|]. cbn [plan_seats].
  assert (match account with Some id => up_is_revoked id s.1 | None => false end =
          negb (bool_decide (usable s.1 account))) as ->.
  { destruct account as [id|]; cbn; [|done]. by destruct (up_is_revoked id s.1). }
  rewrite filter_cons. destruct (decide (usable s.1 account)) as [Hu|Hu].
  - rewrite bool_decide_eq_true_2 by done. cbn [negb]. unfold resolve_upstream_api. cbn [pv_plugin set_account].
    rewrite Hp. cbn [map]. unfold mbind, mret, act_bind, act_ret. by rewrite IH.
  - by rewrite bool_decide_eq_false_2.
Qed.

Lemma build_plan_concat model names : forall e s,
  Forall (fun name => forall p, find_provider cfg name = Some p -> pv_plugin p = None) names ->
  build_plan cfg model names e s = (Ok (flat_map (seats_of s.1 model) names, fold_left note_missing names e), s).
Proof.
  induction names as [|name names IH]; intros e s Hp; [done|].
  apply list.Forall_cons in Hp as [Hn Hp]. cbn [build_plan flat_map fold_left].
  unfold seats_of at 1, note_missing at 2. destruct (find_provider cfg name) as [p|] eqn:Ef; [|by apply IH].
  rewrite act_bind_eq, plan_seats_filter by by apply Hn. rewrite act_bind_eq, IH by done. done.
Qed.

(** The seats of a provider, whatever its quotas say: a permutation. *)
Lemma candidates_permutation p model w :
  (forall prefix saved, saved_order (up_orders w) prefix = Some saved -> NoDup saved) ->
  match account_ids p with
  | [] => candidates p model w = [None]
  | ids => Permutation (candidates p model w) (map Some ids)
  end.
Proof.
  intros Hs. unfold candidates. destruct (account_ids_spec p) as (Hd & _ & _).
  set (prefix := default "" (account_prefix p)). specialize (Hs prefix).
  assert (Permutation (apply_order (account_ids p) (saved_order (up_orders w) prefix)) (account_ids p)) as Hperm.
  { destruct (saved_order (up_orders w) prefix) as [saved|]; [|done].
    apply apply_order_permutation; [done|by apply Hs]. }
  destruct (account_ids p) as [|id ids].
  - symmetry in Hperm. apply Permutation_nil in Hperm. by rewrite Hperm.
  - destruct (apply_order (id :: ids) _) as [|x xs]; [by apply Permutation_nil_cons in Hperm|].
    apply Permutation_map. by rewrite order_accounts_partition, filter_bool_permutation.
Qed.

(** The plan of a request whose providers use no plugin is the seats of
    its providers, provider after provider, and building it changes nothing.
    A provider without accounts has one seat, its static key; of a provider
    with accounts every account that is not revoked has exactly one seat and
    no revoked account has one. Names that no provider has are passed over,
    the last of them being remembered. *)
Theorem build_plan_seats (model : string) (names : list string) (e : option string) (s : W * World) :
  Forall (fun name => forall p, find_provider cfg name = Some p -> pv_plugin p = None) names ->
  (forall prefix saved, saved_order (up_orders s.1) prefix = Some saved -> NoDup saved) ->
  build_plan cfg model names e s =
    (Ok (flat_map (seats_of s.1 model) names, fold_left note_missing names e), s) /\
  forall name p, find_provider cfg name = Some p ->
    let accounts := map (pv_account ∘ fst) (seats_of s.1 model name) in
    (account_ids p = [] -> accounts = [None]) /\
    (account_ids p <> [] ->
       NoDup accounts /\ (None ∉ accounts) /\
       forall id, Some id ∈ accounts <-> (id ∈ account_ids p) /\ up_is_revoked id s.1 = false).
Proof.
  intros Hp Ho. split; [by apply build_plan_concat|]. intros name p Ef.
  unfold seats_of. rewrite Ef, map_map, map_id. pose proof (candidates_permutation p model s.1 Ho) as Hc.
  destruct (account_ids_spec p) as (Hd & _ & _).
  destruct (account_ids p) as [|id0 ids0] eqn:Ea; [by rewrite Hc|]. rewrite <-Ea in *. split; [by rewrite Ea|intros _].
  assert (NoDup (candidates p model s.1)) as Hn.
  { rewrite Hc. apply NoDup_fmap_2; [by intros ?? [=]|done]. }
  split_and!; [by apply list.NoDup_filter| |].
  - intros Hin. apply list_elem_of_filter in Hin as [_ Hin]. rewrite Hc in Hin.
    by apply list_elem_of_fmap in Hin as (? & ? & _).
  - intros id. rewrite list_elem_of_filter, Hc. cbn. split; [intros [Hu Hin]|intros [Hin Hu]].
    + apply list_elem_of_fmap in Hin as (? & [= <-] & Hin). done.
    + split; [done|]. apply list_elem_of_fmap. by exists id.
Qed.
End plan.

(** ** The whole request *)

Lemma key_snapshot_authenticate registry global header now :
  key_snapshot (authenticate registry global header now).2 = key_snapshot registry.
Proof.
  unfold authenticate. destruct (validate_key _ _ _) as [[]|]; [|done]. destruct (bearer header) as [key|]; [|done].
  unfold note_request_key, key_snapshot.
  pose proof (proj1 (note_key_keys key now (ar_agent_keys registry))) as Hn.
  by destruct (note_key key now _) as [m keys].
Qed.

(** The key check of [prepare_request] agrees with the one before it. *)
Lemma authenticated_prepared registry api_key header now id registry' :
  authenticate registry api_key header now = (Ok id, registry') ->
  validate_client_keys api_key (key_snapshot registry') header = Ok tt.
Proof.
  intros Ha. pose proof (key_snapshot_authenticate registry api_key header now) as Hk. rewrite Ha in Hk.
  cbn [snd] in Hk. rewrite Hk. unfold authenticate in Ha.
  destruct (validate_key registry api_key header) as [[]|] eqn:Ev; [|done].
  unfold validate_key in Ev. destruct api_key as [key|]; [exact Ev|done].
Qed.

Section request.
Context `{SerdeJson} `{Env} `{RequestSerde} `{ResponseSerde} `{StreamSerde} `{HashOrder} {W : Type} `{Upstream W}.
Variable cfg : ServerConfig.
Variables (log_ctx logger : bool) (max_capture_bytes : Z) (gone : nat -> bool) (elapsed : nat -> Z).

(** What the model's name in the request stands for. *)
Definition asked_model (body : string) (gemini_model : option string) : string :=
  default "" (opt_or (extract_model_from_body body) gemini_model).

Definition context_of (body : string) (route_info : RouteInfo) (model : string) (route : ResolvedRoute) : RequestContext :=
  {| cx_client_model := model; cx_upstream_model := rt_upstream_model route;
     cx_ns_map := extract_namespace_map (strip_private_fields body) (client_format route_info);
     cx_streaming := is_streaming_request (strip_private_fields body) route_info;
     cx_provider_names := rt_provider_names route; cx_strategy := rt_strategy route |}.

End request.

(** ** A small world

    Upstreams whose answers are listed in their order, accounts that are all
    signed in, and a record of what was asked of them. *)
Inductive Event : Type :=
  | Resolved (account : string)
  | Sent (authorization : option string)
  | RefreshAsked (account : string)
  | MarkedRevoked (account : string).

Record Lab := { lb_answers : list (Z * string); lb_log : list Event }.

Definition note (e : Event) (w : Lab) : Lab := {| lb_answers := lb_answers w; lb_log := lb_log w ++ [e] |}.

Definition lab_send (r : UpstreamRequest) (w : Lab) : result string UpstreamReply * Lab :=
  let w := note (Sent (map_get "Authorization" (rq_headers r))) w in
  match lb_answers w with
  | [] => (Err "connection refused", w)
  | (status, body) :: answers =>
      (Ok {| ur_status := status; ur_content_type := None; ur_chunks := [Ok body] |},
       {| lb_answers := answers; lb_log := lb_log w |})
  end.

#[export] Instance lab : Upstream Lab :=
  {| up_now _ := 0%Z; up_orders _ := []; up_is_revoked _ _ := false; up_allowance _ _ := None;
     up_resolve account w := (Ok ("token of " +:+ account), note (Resolved account) w);
     up_force_refresh account w := (Ok tt, note (RefreshAsked account) w);
     up_mark_revoked account _ w := note (MarkedRevoked account) w;
     up_session token w := (Err (SessionRefused "none"), w);
     up_send := lab_send;
     up_models _ _ w := (Err "none", w);
     up_plugin_start _ w := (Err "none", w); up_plugin_load _ _ _ w := (Err "none", w);
     up_plugin_fetch _ _ w := (Err "none", w);
     up_status_text := pretty; up_same_host _ _ := true |}.

(** Calls to a vendor: a request, a refresh, and the resolving of an account,
    whose token may be stale. *)
Definition is_call (e : Event) : bool := match e with MarkedRevoked _ => false | _ => true end.
Definition calls (w : Lab) : nat := length (filter (fun e => is_call e = true) (lb_log w)).

Lemma calls_note e w : calls (note e w) = (calls w + if is_call e then 1 else 0)%nat.
Proof.
  unfold calls, note. cbn [lb_log]. rewrite list.filter_app, length_app, filter_cons. by destruct (is_call e).
Qed.

Lemma lab_send_cost r w : (calls (lab_send r w).2 <= calls w + 1)%nat.
Proof.
  unfold lab_send. set (w' := note _ w). assert (calls w' = calls w + 1)%nat as <- by apply calls_note.
  destruct (lb_answers w') as [|[status body] answers]; [done|]. unfold calls. cbn [snd lb_log]. lia.
Qed.

Definition lab_prices : Prices :=
  {| per_send := 1; per_refresh := 1; per_resolve := 1; per_session := 0; per_start := 0; per_load := 0;
     per_models := 0 |}.

Lemma lab_costs : Costs calls lab_prices.
Proof.
  split; intros; [apply lab_send_cost|..]; cbn [snd lab lab_prices up_plugin_fetch up_force_refresh up_mark_revoked
    up_resolve up_session up_models up_plugin_start up_plugin_load per_send per_refresh per_resolve per_session
    per_start per_load per_models]; rewrite ?calls_note; cbn [is_call]; lia.
Qed.

Definition lab_config : ServerConfig :=
  {| sc_server := sc_server sample_config;
     sc_providers := [sample_provider "team" ["team:a"; "team:b"] ∅];
     sc_model_routes := [sample_route "*" ["team"]] |}.

Definition lab_body : string := value_to_string (obj [("model", str "m")]).

(** The first account's token is refused, refreshed, and then out of quota;
    the second account answers. *)
Definition lab_world : Lab :=
  {| lb_answers := [(401%Z, "token_expired"); (429%Z, "later"); (200%Z, "hello")]; lb_log := [] |}.

Definition lab_plan : list (ProviderConfig * UpstreamApi) :=
  flat_map (seats_of lab_config lab_world "m") ["team"].

Lemma build_plan_seats_witness :
  build_plan lab_config "m" ["team"] None (lab_world, world0) =
    (Ok (lab_plan, None), (lab_world, world0)).
Proof.
  apply (build_plan_seats lab_config "m" ["team"] None (lab_world, world0)).
  - apply List.Forall_cons; [|apply List.Forall_nil]. intros p [= <-]. reflexivity.
  - intros prefix saved [=].
Defined.

#[local] Existing Instances sample_env plain_serde deaf_responses deaf_stream.

Abbreviation lab_context :=
  (context_of lab_body {| client_format := OpenAIChat; path_streaming := true |} "m"
     {| rt_provider_names := ["team"]; rt_upstream_model := "m"; rt_strategy := Priority |}).

Abbreviation lab_run :=
  (run_plan lab_config
     false false 0 (fun _ => false) (fun _ => 0%Z) lab_context [] lab_body
     {| client_format := OpenAIChat; path_streaming := true |} lab_plan None (lab_world, world0)).

Lemma run_plan_cost_witness :
  (calls (snd lab_run).1 <= 10)%nat.
Proof.
  destruct (run_plan_cost lab_config false false 0 (fun _ => false) (fun _ => 0%Z) lab_context [] lab_body
     {| client_format := OpenAIChat; path_streaming := true |} calls lab_prices lab_plan None (lab_world, world0) lab_costs)
    as (answer & s' & E & Hc).
  rewrite E. exact Hc.
Defined.

Example lab_run_log :
  lb_log (snd lab_run).1 =
    [Resolved "team:a"; Sent (Some "Bearer token of team:a"); RefreshAsked "team:a";
     Resolved "team:a"; Sent (Some "Bearer token of team:a");
     Resolved "team:b"; Sent (Some "Bearer token of team:b")] /\
  option_map (option_map rs_status) (fst lab_run) = Some (Some 200%Z).
Proof. vm_compute. done. Qed.

(** A finding: a JSON array between one format and itself is not answered. *)
Example array_body_panics :
  fst (process_request lab_config false false 0 (fun _ => false) (fun _ => 0%Z) []
    (value_to_string (VArray [])) {| client_format := OpenAIChat; path_streaming := true |} None
    {| ar_global_key := None; ar_agent_keys := [] |} 0 0 (lab_world, world0)) =
  (Some None, {| ar_global_key := None; ar_agent_keys := [] |}, 0%Z).
Proof. vm_compute. done. Qed.
