(* ===== verification/EnvEdit.v ===== *)
(** * The dotenv editor

    agent-wiring's edit/env.rs: variables of a dotenv text are read, written
    and removed, and everything else of the text stays as it is. The byte
    order mark and [KV] are edit/mod.rs. *)
From Stdlib Require Import ZArith Lia.
From S2P Require Import Prelude.
From S2P Require Import RustStd.
From S2P Require Import Json.

(** ** Text *)

Definition BOM : string := bytes3 "239" "187" "191".

Definition split_bom (src : string) : string * string :=
  match strip_prefix BOM src with Some body => (BOM, body) | None => ("", src) end.

Record KV := { kv_path : string; kv_value : Value }.

(** [split_inclusive('\n')]: the lines with their line feeds, no empty last
    line. *)
Fixpoint split_inclusive (s : string) : list string :=
  match s with
  | EmptyString => []
  | String c s' =>
      if decide (c = nl) then newline :: split_inclusive s'
      else match split_inclusive s' with
           | l :: ls => String c l :: ls
           | [] => [String c ""]
           end
  end.

Definition split_line_end (line : string) : string * string :=
  match strip_suffix newline line with
  | Some stripped =>
      match strip_suffix (String cr "") stripped with
      | Some content => (content, crlf)
      | None => (stripped, newline)
      end
  | None => (line, "")
  end.

(** The longest prefix of bytes that satisfy [p], and the rest. *)
Fixpoint span (p : ascii -> bool) (s : string) : string * string :=
  match s with
  | EmptyString => ("", "")
  | String c s' => if p c then let '(a, b) := span p s' in (String c a, b) else ("", s)
  end.

(** ** A line *)

Inductive Quote : Type := QuoteNone | Single | Double.

(** The value's span is kept as the pieces it cuts the line into. *)
Record Assignment := { as_key : string; as_before : string; as_raw : string; as_after : string; as_quote : Quote }.

Definition blank (c : ascii) : bool := bool_decide (c = " "%char) || bool_decide (c = "009"%char).
Definition key_byte (c : ascii) : bool :=
  negb (bool_decide (c = "="%char) || blank c || bool_decide (c = "#"%char) || bool_decide (c = cr)).

(** Behind an opening quote: up to the closing one, over escaped bytes. *)
Fixpoint double_end (s : string) : string * string :=
  match s with
  | EmptyString => ("", "")
  | String c s' =>
      if decide (c = "\"%char) then
        match s' with
        | EmptyString => (s, "")
        | String d s'' => let '(a, b) := double_end s'' in (String c (String d a), b)
        end
      else if decide (c = "034"%char) then (String c "", s')
      else let '(a, b) := double_end s' in (String c a, b)
  end.

(** Up to a comment, which begins a value or follows a blank. *)
Fixpoint unquoted (at_blank : bool) (s : string) : string * string :=
  match s with
  | EmptyString => ("", "")
  | String c s' =>
      if bool_decide (c = "#"%char) && at_blank then ("", s)
      else let '(a, b) := unquoted (blank c) s' in (String c a, b)
  end.

Fixpoint split_trailing (s : string) : string * string :=
  match s with
  | EmptyString => ("", "")
  | String c s' =>
      let '(a, b) := split_trailing s' in
      if is_empty a && blank c then ("", String c b) else (String c a, b)
  end.

Definition parse_value (s : string) : Quote * string * string :=
  let plain :=
    let '(scanned, rest) := unquoted true s in
    let '(raw, blanks) := split_trailing scanned in (QuoteNone, raw, blanks +:+ rest) in
  match s with
  | EmptyString => plain
  | String c s' =>
      if decide (c = "034"%char) then let '(raw, after) := double_end s' in (Double, String c raw, after)
      else if decide (c = "'"%char) then
        let '(inner, rest) := span (fun d => negb (bool_decide (d = "'"%char))) s' in
        match rest with
        | EmptyString => (Single, String c inner, "")
        | String d after => (Single, String c (inner +:+ String d ""), after)
        end
      else plain
  end.

(** An [export] in front of the key, with the blanks after it. *)
Definition parse_export (s : string) : string * string :=
  match strip_prefix "export" s with
  | Some (String c _ as rest) =>
      if blank c then let '(blanks, s') := span blank rest in ("export" +:+ blanks, s') else ("", s)
  | _ => ("", s)
  end.

(** A line up to its value: the key, what is in front of the value, and the
    rest. *)
Definition parse_head (content : string) : option (string * string * string) :=
  let '(indent, s) := span blank content in
  match s with
  | EmptyString => None
  | String c _ =>
      if decide (c = "#"%char) then None
      else
        let '(export, s) := parse_export s in
        let '(key, s) := span key_byte s in
        if is_empty key then None
        else
          let '(gap, s) := span blank s in
          match s with
          | EmptyString => None
          | String c s =>
              if decide (c = "="%char) then
                let '(gap2, s) := span blank s in
                Some (key, indent +:+ export +:+ key +:+ gap +:+ String c gap2, s)
              else None
          end
  end.

Definition parse_line (content : string) : option Assignment :=
  '(key, before, s) ← parse_head content;
  let '(quote, raw, after) := parse_value s in
  Some {| as_key := key; as_before := before; as_raw := raw; as_after := after; as_quote := quote |}.

(** ** Values *)

Fixpoint escape_double (raw : string) : string :=
  match raw with
  | EmptyString => ""
  | String c s =>
      (if decide (c = "\"%char) then "\\"
       else if decide (c = "034"%char) then String "\" dquote
       else if decide (c = nl) then "\n"
       else if decide (c = cr) then "\r"
       else if decide (c = "009"%char) then "\t"
       else String c "") +:+ escape_double s
  end.

Fixpoint unescape_double (raw : string) : string :=
  match raw with
  | EmptyString => ""
  | String c s =>
      if decide (c = "\"%char) then
        match s with
        | EmptyString => String c ""
        | String d s' =>
            (if decide (d = "n"%char) then newline
             else if decide (d = "r"%char) then String cr ""
             else if decide (d = "t"%char) then String "009" ""
             else if decide (d = "\"%char) then "\"
             else if decide (d = "034"%char) then dquote
             else if decide (d = "'"%char) then "'"
             else String c (String d "")) +:+ unescape_double s'
        end
      else String c (unescape_double s)
  end.

Definition unquote (q raw : string) : string :=
  default raw (inner ← strip_prefix q raw; strip_suffix q inner).

Definition value_from_assignment (a : Assignment) : string :=
  match as_quote a with
  | Double => unescape_double (unquote dquote (as_raw a))
  | Single => unquote "'" (as_raw a)
  | QuoteNone => as_raw a
  end.

Definition double_quoted (raw : string) : string := dquote +:+ escape_double raw +:+ dquote.

Definition needs_quotes (raw : string) : bool :=
  is_empty raw || any (fun w => contains w raw) white_space ||
  str_in "#" raw || str_in "034" raw || str_in "'" raw || str_in "\" raw.

Definition quote_env (raw : string) : string := if needs_quotes raw then double_quoted raw else raw.

Definition replace_value (a : Assignment) (raw : string) : string :=
  let value := match as_quote a with
               | Double => double_quoted raw
               | Single =>
                   if str_in "'" raw || str_in nl raw || str_in cr raw then double_quoted raw
                   else "'" +:+ raw +:+ "'"
               | QuoteNone => quote_env raw
               end in
  as_before a +:+ value +:+ as_after a.

(** ** The editor *)

Definition get (original key : string) : option string :=
  fold_left (fun result line =>
               match parse_line (fst (split_line_end line)) with
               | Some a => if decide (as_key a = key) then Some (value_from_assignment a) else result
               | None => result
               end) (split_inclusive (snd (split_bom original))) None.

(** The loop over the lines in reverse: the first line that assigns the key
    is rewritten. *)
Fixpoint replace_first (key raw : string) (ls : list string) : option (list string) :=
  match ls with
  | [] => None
  | line :: ls =>
      let '(content, ending) := split_line_end line in
      match parse_line content with
      | Some a =>
          if decide (as_key a = key) then Some ((replace_value a raw +:+ ending) :: ls)
          else cons line <$> replace_first key raw ls
      | None => cons line <$> replace_first key raw ls
      end
  end.

Fixpoint end_last_line (newline : string) (ls : list string) : list string :=
  match ls with
  | [] => []
  | [last] => [if ends_with RustStd.newline last then last else last +:+ newline]
  | line :: ls => line :: end_last_line newline ls
  end.

Section editor.
Context `{SerdeJson}.

Definition kv_raw_value (value : Value) : string :=
  match value with
  | VString text => text
  | VNull => ""
  | other => value_to_string other
  end.

Definition set_one (newline : string) (ls : list string) (kv : KV) : list string :=
  let raw := kv_raw_value (kv_value kv) in
  match replace_first (kv_path kv) raw (rev ls) with
  | Some ls => rev ls
  | None => end_last_line newline ls ++ [kv_path kv +:+ "=" +:+ quote_env raw +:+ newline]
  end.

Definition set (original : string) (kvs : list KV) : string :=
  let '(bom, body) := split_bom original in
  let newline := if contains crlf body then crlf else newline in
  bom +:+ concat_strings (fold_left (set_one newline) kvs (split_inclusive body)).
End editor.

Definition del (original : string) (keys : list string) : string :=
  let '(bom, body) := split_bom original in
  let kept line := match parse_line (fst (split_line_end line)) with
                   | Some a => negb (bool_decide (as_key a ∈ keys))
                   | None => true
                   end in
  bom +:+ concat_strings (List.filter kept (split_inclusive body)).

(** * The dotenv editor, proofs

    What is written is read back, what is removed is gone, and every other
    variable keeps its value. *)
From S2P Require Import Concrete.

(** ** Strings *)

Fixpoint str_all (p : ascii -> bool) (s : string) : bool :=
  match s with EmptyString => true | String c s => p c && str_all p s end.

Definition head_not (p : ascii -> bool) (s : string) : bool :=
  match s with EmptyString => true | String c _ => negb (p c) end.

Lemma str_all_app p a b : str_all p (a +:+ b) = str_all p a && str_all p b.
Proof. induction a as [|c a IH]; [done|]. rewrite app_cons_str. cbn. by rewrite IH, andb_assoc. Qed.

Lemma span_spec p s a b : span p s = (a, b) -> s = a +:+ b /\ str_all p a = true /\ head_not p b = true.
Proof.
  revert a b. induction s as [|c s IH]; cbn [span]; intros a b E; [by injection E as <- <-|].
  destruct (p c) eqn:Ep.
  - destruct (span p s) as [a' b'] eqn:Es. injection E as <- <-.
    destruct (IH a' b' eq_refl) as (-> & Ha & Hb). split_and!; [done| |done]. cbn. by rewrite Ep.
  - injection E as <- <-. cbn. by rewrite Ep.
Qed.

Lemma span_app p a b : str_all p a = true -> head_not p b = true -> span p (a +:+ b) = (a, b).
Proof.
  induction a as [|c a IH]; intros Ha Hb.
  - rewrite app_nil_l_str. destruct b as [|c b]; [done|]. cbn in *. by destruct (p c).
  - cbn in Ha. apply andb_prop in Ha as [Hc Ha]. rewrite app_cons_str. cbn [span]. by rewrite Hc, IH.
Qed.

(** A prefix that lacks a byte is matched in front of that byte. *)
Lemma strip_prefix_cut p a c x :
  str_in c p = false -> strip_prefix p (a +:+ String c x) = (fun r => r +:+ String c x) <$> strip_prefix p a.
Proof.
  revert a. induction p as [|d p IH]; intros a Hc; [by destruct a|].
  apply str_in_cons_false in Hc as [Hd Hc]. destruct a as [|e a].
  - rewrite app_nil_l_str. cbn. by rewrite decide_False by congruence.
  - rewrite app_cons_str. cbn [strip_prefix]. destruct (decide (d = e)); [by apply IH|done].
Qed.

(** ** The head of a line *)

Lemma blank_not_key c : blank c = true -> key_byte c = false.
Proof. unfold key_byte. intros ->. by rewrite orb_true_r. Qed.

Lemma key_byte_spec c : key_byte c = true -> blank c = false /\ c <> "#"%char /\ c <> "="%char /\ c <> cr.
Proof.
  unfold key_byte. intros H. apply negb_true_iff in H.
  repeat (apply orb_false_iff in H as [H ?]).
  repeat match goal with E : bool_decide _ = false |- _ => apply bool_decide_eq_false in E end. done.
Qed.

Lemma parse_export_plain h tail s' :
  parse_export (h +:+ String "=" tail) = ("", s') ->
  s' = h +:+ String "=" tail /\
  forall tail', parse_export (h +:+ String "=" tail') = ("", h +:+ String "=" tail').
Proof.
  intros E.
  assert (forall t, parse_export (h +:+ String "=" t) =
    match strip_prefix "export" h with
    | Some (String c _ as r) =>
        if blank c then let '(b, s') := span blank (r +:+ String "=" t) in ("export" +:+ b, s')
        else ("", h +:+ String "=" t)
    | _ => ("", h +:+ String "=" t)
    end) as Hp.
  { intros t. unfold parse_export. rewrite strip_prefix_cut by done.
    destruct (strip_prefix "export" h) as [[|c r]|]; [done| |done]. cbn [fmap option_fmap option_map]. by rewrite app_cons_str. }
  rewrite Hp in E. destruct (strip_prefix "export" h) as [[|c r]|].
  - injection E as <-. split; [done|]. exact Hp.
  - destruct (blank c) eqn:Eb.
    + destruct (span blank _) as [b s2]. by injection E.
    + injection E as <-. split; [done|]. exact Hp.
  - injection E as <-. split; [done|]. exact Hp.
Qed.

Lemma parse_export_blanks export s s' :
  parse_export s = (export, s') -> export <> "" ->
  s = export +:+ s' /\ head_not blank export = true /\ head_not (fun c => bool_decide (c = "#"%char)) export = true /\
  forall s'', head_not blank s'' = true -> parse_export (export +:+ s'') = (export, s'').
Proof.
  unfold parse_export. intros E Hne.
  destruct (strip_prefix "export" s) as [[|c r]|] eqn:Ep; [by injection E as <- _| |by injection E as <- _].
  destruct (blank c) eqn:Eb; [|by injection E as <- _].
  destruct (span blank (String c r)) as [b s2] eqn:Es. injection E as <- <-.
  apply strip_prefix_Some in Ep as ->. pose proof (span_spec _ _ _ _ Es) as (Er & Hb & _). rewrite Er.
  split_and!; [by rewrite app_assoc_str|done|done|].
  intros s'' Hs. destruct b as [|d b]; [|].
  - rewrite app_nil_l_str in Er. subst s2. exfalso. cbn [span] in Es. rewrite Eb in Es. by destruct (span blank r).
  - rewrite app_assoc_str. cbn [String.append]. rewrite strip_prefix_app, app_cons_str.
    assert (blank d = true) as -> by by apply andb_prop in Hb as [Hb _].
    rewrite <-app_cons_str. by rewrite span_app.
Qed.

(** The head of a line is read in the same way whatever value follows. *)
Lemma parse_head_spec content key before rest :
  parse_head content = Some (key, before, rest) ->
  content = before +:+ rest /\ head_not blank rest = true /\ key <> "" /\ str_all key_byte key = true /\
  (exists b0 b1, before = b0 +:+ String "=" b1) /\
  forall rest', head_not blank rest' = true -> parse_head (before +:+ rest') = Some (key, before, rest').
Proof.
  unfold parse_head. intros E. destruct (span blank content) as [indent s] eqn:Ei.
  apply span_spec in Ei as (-> & Hi & Hs). destruct s as [|c0 s0]; [done|].
  destruct (decide (c0 = "#"%char)) as [|Hc0]; [done|].
  destruct (parse_export (String c0 s0)) as [export s1] eqn:Ee. destruct (span key_byte s1) as [k s2] eqn:Ek.
  apply span_spec in Ek as (-> & Hk & Hs2). destruct (is_empty k) eqn:Ene; [done|].
  destruct (span blank s2) as [gap s3] eqn:Eg. apply span_spec in Eg as (-> & Hg & Hs3).
  destruct s3 as [|c s4]; [done|]. destruct (decide (c = "="%char)) as [->|]; [|done].
  destruct (span blank s4) as [gap2 r] eqn:Eg2. apply span_spec in Eg2 as (-> & Hg2 & Hr).
  injection E as <- <- <-.
  assert (k <> "") as Hne by (by intros ->).
  assert (head_not blank k = true /\ head_not (fun c => bool_decide (c = "#"%char)) k = true) as [Hkb Hkh].
  { destruct k as [|k0 k]; [done|]. cbn in Hk. apply andb_prop in Hk as [Hk0 _].
    apply key_byte_spec in Hk0 as (Hb & Hh & _). cbn. rewrite Hb. by rewrite bool_decide_eq_false_2. }
  (* the export in front of the key *)
  assert (String c0 s0 = export +:+ k +:+ gap +:+ String "=" (gap2 +:+ r) /\
    forall t, let s' := export +:+ k +:+ gap +:+ String "=" t in
      head_not blank s' = true /\ head_not (fun c => bool_decide (c = "#"%char)) s' = true /\ s' <> "" /\
      parse_export s' = (export, k +:+ gap +:+ String "=" t)) as [Hx Hexp].
  { destruct export as [|e0 e].
    - pose proof Ee as Ee'. unfold parse_export in Ee'.
      assert (String c0 s0 = k +:+ gap +:+ String "=" (gap2 +:+ r)) as Hx.
      { destruct (strip_prefix "export" (String c0 s0)) as [[|d q]|]; [by injection Ee'| |by injection Ee'].
        destruct (blank d); [destruct (span blank _); by injection Ee'|by injection Ee']. }
      split; [done|]. intros t. cbn zeta. rewrite app_nil_l_str.
      rewrite Hx, <-app_assoc_str in Ee. apply parse_export_plain in Ee as [_ Ee].
      split_and!; [by destruct k|by destruct k|by destruct k|]. rewrite <-app_assoc_str. by rewrite Ee.
    - apply parse_export_blanks in Ee as (Hx & Hb & Hh & Hp); [|done]. split; [done|].
      intros t. cbn zeta. split_and!; [done..|]. apply Hp. by destruct k. }
  rewrite Hx. split_and!; try done.
  - by rewrite !app_assoc_str.
  - exists (indent +:+ export +:+ k +:+ gap), gap2. by rewrite !app_assoc_str.
  - intros r' Hr'. rewrite !app_assoc_str, app_cons_str.
    destruct (Hexp (gap2 +:+ r')) as (Hsb & Hsh & Hsn & Hpe).
    rewrite span_app by done.
    set (s' := export +:+ k +:+ gap +:+ String "=" (gap2 +:+ r')) in *.
    destruct s' as [|d s']; [done|]. cbn in Hsh. apply negb_true_iff, bool_decide_eq_false in Hsh.
    rewrite decide_False, Hpe by done. rewrite span_app; [|done|].
    + rewrite Ene, span_app by done. cbn [decide]. by rewrite decide_True, span_app.
    + destruct gap as [|g gap]; [done|]. cbn in Hg. apply andb_prop in Hg as [Hg0 _].
      rewrite app_cons_str. cbn [head_not]. by rewrite blank_not_key.
Qed.

(** ** Values *)

Lemma double_end_escaped raw after :
  double_end (escape_double raw +:+ String "034" after) = (escape_double raw +:+ dquote, after).
Proof.
  unfold dquote. induction raw as [|c raw IH]; [done|]. cbn [escape_double]. unfold dquote.
  destruct (decide (c = "\"%char)) as [->|Hb]; [|destruct (decide (c = "034"%char)) as [->|Hq];
    [|destruct (decide (c = nl)); [|destruct (decide (c = cr)); [|destruct (decide (c = "009"%char))]]]].
  all: rewrite ?app_cons_str, ?app_nil_l_str; cbn [double_end]; rewrite ?decide_True by done; rewrite ?IH; try done.
  by rewrite !decide_False.
Qed.

Lemma unescape_escape raw : unescape_double (escape_double raw) = raw.
Proof.
  unfold dquote. induction raw as [|c raw IH]; [done|]. cbn [escape_double]. unfold dquote.
  destruct (decide (c = "\"%char)) as [->|Hb]; [|destruct (decide (c = "034"%char)) as [->|Hq];
    [|destruct (decide (c = nl)) as [->|]; [|destruct (decide (c = cr)) as [->|]; [|destruct (decide (c = "009"%char)) as [->|]]]]].
  all: rewrite ?app_cons_str, ?app_nil_l_str; cbn [unescape_double].
  all: rewrite ?decide_True by done; rewrite ?decide_False by done; by rewrite ?app_cons_str, ?app_nil_l_str, IH.
Qed.

Lemma unquote_quoted q x : unquote q (q +:+ x +:+ q) = x.
Proof. unfold unquote. rewrite strip_prefix_app. cbn. by rewrite strip_suffix_app. Qed.

(** A value in double quotes, and what it reads as. *)
Lemma parse_double raw after :
  parse_value (double_quoted raw +:+ after) = (Double, double_quoted raw, after).
Proof.
  unfold double_quoted, parse_value. change dquote with (String "034" "") at 1.
  rewrite !app_assoc_str, app_cons_str, app_nil_l_str. rewrite decide_True by done.
  change (dquote +:+ after) with (String "034" after). by rewrite double_end_escaped.
Qed.

Lemma span_not q raw after :
  str_in q raw = false ->
  span (fun d => negb (bool_decide (d = q))) (raw +:+ String q after) = (raw, String q after).
Proof.
  intros Hq. apply span_app.
  - induction raw as [|c raw IH]; [done|]. apply str_in_cons_false in Hq as [Hc Hq]. cbn.
    rewrite bool_decide_eq_false_2 by congruence. by apply IH.
  - cbn. by rewrite bool_decide_eq_true_2.
Qed.

Lemma parse_single raw after :
  str_in "'" raw = false ->
  parse_value ("'" +:+ raw +:+ "'" +:+ after) = (Single, "'" +:+ raw +:+ "'", after).
Proof.
  intros Hq. unfold parse_value. rewrite !app_cons_str, !app_nil_l_str. rewrite decide_False, decide_True by done.
  by rewrite (span_not "'" raw after Hq).
Qed.

(** What may follow an unquoted value: blanks, and a comment behind them. *)
Definition closes (after : string) : Prop :=
  exists blanks rest, after = blanks +:+ rest /\ str_all blank blanks = true /\
    (rest = "" \/ (blanks <> "" /\ exists r, rest = String "#" r)).

Definition plain_byte (c : ascii) : bool :=
  negb (blank c) && negb (bool_decide (c = "#"%char)) && negb (bool_decide (c = "034"%char)) &&
  negb (bool_decide (c = "'"%char)) && negb (bool_decide (c = nl)) && negb (bool_decide (c = cr)).

Lemma unquoted_plain raw x b :
  str_all plain_byte raw = true -> raw <> "" ->
  unquoted b (raw +:+ x) = (fun '(a, r) => (raw +:+ a, r)) (unquoted false x).
Proof.
  revert b. induction raw as [|c raw IH]; intros b Hp Hne; [done|]. cbn in Hp.
  apply andb_prop in Hp as [Hc Hp]. rewrite app_cons_str. cbn [unquoted].
  assert (blank c = false /\ c <> "#"%char) as [Hb Hh].
  { unfold plain_byte in Hc. repeat (apply andb_prop in Hc as [Hc ?]).
    split; [by apply negb_true_iff|]. intros ->. done. }
  rewrite bool_decide_eq_false_2 by done. cbn [andb]. rewrite Hb.
  destruct raw as [|d raw]; [rewrite app_nil_l_str; by destruct (unquoted false x)|].
  rewrite IH by done. by destruct (unquoted false x).
Qed.

Lemma unquoted_blanks blanks rest b :
  str_all blank blanks = true -> (rest = "" \/ ((blanks <> "" \/ b = true) /\ exists r, rest = String "#" r)) ->
  unquoted b (blanks +:+ rest) = (blanks, rest).
Proof.
  revert b. induction blanks as [|c blanks IH]; intros b Hb Hr.
  - rewrite app_nil_l_str. destruct Hr as [->|[[?| ->] [r ->]]]; done.
  - cbn in Hb. apply andb_prop in Hb as [Hc Hb]. rewrite app_cons_str. cbn [unquoted].
    rewrite bool_decide_eq_false_2 by (intros ->; done). cbn [andb]. rewrite IH; [done..|].
    destruct Hr as [->|[_ Hr]]; [by left|right]. split; [|done]. by right.
Qed.

Lemma split_trailing_spec s raw blanks :
  split_trailing s = (raw, blanks) -> s = raw +:+ blanks /\ str_all blank blanks = true.
Proof.
  revert raw blanks. induction s as [|c s IH]; cbn [split_trailing]; intros raw blanks E; [by injection E as <- <-|].
  destruct (split_trailing s) as [a b]. destruct (IH a b eq_refl) as [-> Hb].
  destruct (is_empty a && blank c) eqn:Ea; injection E as <- <-.
  - apply andb_prop in Ea as [Ea Hc]. destruct a; [|done]. split; [done|]. cbn. by rewrite Hc.
  - done.
Qed.

Lemma split_trailing_plain raw blanks :
  str_all plain_byte raw = true -> str_all blank blanks = true -> split_trailing (raw +:+ blanks) = (raw, blanks).
Proof.
  intros Hr Hb. induction raw as [|c raw IH].
  - rewrite app_nil_l_str. clear Hr. induction blanks as [|c blanks IH]; [done|]. cbn in Hb.
    apply andb_prop in Hb as [Hc Hb]. cbn [split_trailing]. rewrite IH by done. cbn. by rewrite Hc.
  - cbn in Hr. apply andb_prop in Hr as [Hc Hr]. rewrite app_cons_str. cbn [split_trailing]. rewrite IH by done.
    unfold plain_byte in Hc. repeat (apply andb_prop in Hc as [Hc ?]). apply negb_true_iff in Hc.
    by rewrite Hc, andb_false_r.
Qed.

Lemma parse_plain raw after :
  str_all plain_byte raw = true -> raw <> "" -> closes after ->
  parse_value (raw +:+ after) = (QuoteNone, raw, after).
Proof.
  intros Hp Hne (blanks & rest & -> & Hb & Hr). destruct raw as [|c raw]; [done|].
  assert (unquoted true (String c raw +:+ blanks +:+ rest) = (String c raw +:+ blanks, rest)) as Hu.
  { rewrite unquoted_plain by done. rewrite unquoted_blanks; [done..|].
    destruct Hr as [->|[Hbn Hr]]; [by left|right]. split; [by left|done]. }
  unfold parse_value. rewrite Hu, split_trailing_plain by done. rewrite app_cons_str.
  cbn in Hp. apply andb_prop in Hp as [Hc _]. unfold plain_byte in Hc. repeat (apply andb_prop in Hc as [Hc ?]).
  rewrite !decide_False; [done|by intros ->|by intros ->].
Qed.

(** An empty unquoted value with a comment right behind it: a value written
    there runs into the comment. *)
Definition commented (a : Assignment) : bool :=
  match as_quote a with
  | QuoteNone => is_empty (as_raw a) && starts_with "#" (as_after a)
  | _ => false
  end.

Lemma unquoted_spec b s scanned rest :
  unquoted b s = (scanned, rest) ->
  s = scanned +:+ rest /\
  (rest = "" \/ exists r, rest = String "#" r /\
     ((scanned = "" /\ b = true) \/ exists x c, scanned = x +:+ String c "" /\ blank c = true)).
Proof.
  revert b scanned rest. induction s as [|c s IH]; intros b scanned rest E; cbn [unquoted] in E.
  - injection E as <- <-. split; [done|by left].
  - destruct (bool_decide (c = "#"%char) && b) eqn:Eb.
    + injection E as <- <-. apply andb_prop in Eb as [Ec ->]. apply bool_decide_eq_true in Ec as ->.
      split; [done|right]. exists s. split; [done|by left].
    + destruct (unquoted (blank c) s) as [a r] eqn:Eu. injection E as <- <-.
      destruct (IH _ _ _ Eu) as [-> Hr]. split; [done|].
      destruct Hr as [->|(r' & -> & Hr)]; [by left|right]. exists r'. split; [done|right].
      destruct Hr as [[-> Hc]|(x & d & -> & Hd)]; [by exists "", c|by exists (String c x), d].
Qed.

Lemma split_trailing_blank x c : blank c = true -> snd (split_trailing (x +:+ String c "")) <> "".
Proof.
  intros Hc. induction x as [|d x IH]; [rewrite app_nil_l_str; cbn; by rewrite Hc|].
  rewrite app_cons_str. cbn [split_trailing]. destruct (split_trailing (x +:+ String c "")) as [a b].
  cbn in IH. by destruct (is_empty a && blank d).
Qed.

Lemma parse_value_spec s q raw after :
  parse_value s = (q, raw, after) ->
  s = raw +:+ after /\ (q = QuoteNone -> (raw = "" /\ exists r, after = String "#" r) \/ closes after).
Proof.
  set (plain := let '(scanned, rest) := unquoted true s in
                let '(raw, blanks) := split_trailing scanned in (QuoteNone, raw, blanks +:+ rest)).
  assert (plain = (q, raw, after) -> s = raw +:+ after /\
    (q = QuoteNone -> (raw = "" /\ exists r, after = String "#" r) \/ closes after)) as Hplain.
  { subst plain. destruct (unquoted true s) as [scanned rest] eqn:Eu.
    destruct (split_trailing scanned) as [w blanks] eqn:Et. intros [= <- <- <-].
    apply unquoted_spec in Eu as [-> Hr]. pose proof (split_trailing_spec _ _ _ Et) as [-> Hb].
    split; [by rewrite app_assoc_str|intros _].
    destruct Hr as [->|(r & -> & [[E0 _]|(x & c & E0 & Hc)])].
    - right. exists blanks, "". split_and!; [done..|by left].
    - left. destruct w; [|done]. destruct blanks; [|done]. split; [done|by exists r].
    - right. exists blanks, (String "#" r). split_and!; [done..|right]. split; [|by exists r].
      intros ->. apply (split_trailing_blank x c) in Hc. rewrite <-E0, Et in Hc. done. }
  unfold parse_value. destruct s as [|c s']; [exact Hplain|].
  destruct (decide (c = "034"%char)) as [->|].
  - destruct (double_end s') as [a b] eqn:Ed. intros [= <- <- <-]. split; [|done].
    assert (s' = a +:+ b) as ->; [|done]. clear -Ed. revert a b Ed.
    induction s' as [s' IH] using (induction_ltof1 _ String.length). intros a b Ed. unfold ltof in IH.
    destruct s' as [|d s']; cbn [double_end] in Ed; [by injection Ed as <- <-|].
    destruct (decide (d = "\"%char)); [|destruct (decide (d = "034"%char))].
    + destruct s' as [|d' s']; [by injection Ed as <- <-|]. destruct (double_end s') as [x y] eqn:E.
      injection Ed as <- <-. rewrite !app_cons_str. do 2 f_equal. by apply (IH s'); [cbn; lia|].
    + by injection Ed as <- <-.
    + destruct (double_end s') as [x y] eqn:E. injection Ed as <- <-. rewrite app_cons_str. f_equal.
      by apply (IH s'); [cbn; lia|].
  - destruct (decide (c = "'"%char)) as [->|]; [|exact Hplain].
    destruct (span _ s') as [inner rest] eqn:Es. apply span_spec in Es as (-> & _ & _).
    destruct rest as [|d rest]; intros [= <- <- <-]; (split; [|done]); rewrite ?app_cons_str; f_equal.
    by rewrite app_assoc_str, app_cons_str, app_nil_l_str.
Qed.

Lemma contains_byte c s : contains (String c "") s = str_in c s.
Proof.
  unfold contains. induction s as [|d s IH]; [done|]. cbn [split_once strip_prefix str_in].
  destruct (decide (c = d)) as [->|]; [done|]. rewrite <-IH. by destruct (split_once (String c "") s) as [[]|].
Qed.

Lemma quotes_not_needed raw :
  needs_quotes raw = false -> raw <> "" /\ str_all plain_byte raw = true.
Proof.
  unfold needs_quotes. intros H. repeat (apply orb_false_iff in H as [H ?]).
  split; [by intros ->|].
  assert (forall c, In (String c "") white_space -> str_in c raw = false) as Hw.
  { intros c Hin. rewrite <-contains_byte. apply not_true_is_false. intros Hc.
    assert (any (fun w => contains w raw) white_space = true); [|congruence].
    unfold any. apply existsb_exists. by exists (String c ""). }
  pose proof (Hw nl ltac:(cbn; tauto)) as Hnl. pose proof (Hw cr ltac:(cbn; tauto)) as Hcr.
  pose proof (Hw "009"%char ltac:(cbn; tauto)) as Htab. pose proof (Hw " "%char ltac:(cbn; tauto)) as Hsp.
  repeat match goal with E : any _ _ = false |- _ => clear E end. clear Hw H. induction raw as [|c raw IH]; [done|].
  repeat match goal with E : str_in _ (String _ _) = false |- _ => apply str_in_cons_false in E as [? E] end.
  cbn. rewrite IH by done. rewrite andb_true_r. unfold plain_byte, blank.
  by rewrite !bool_decide_eq_false_2 by congruence.
Qed.

Lemma str_in_all c s : str_in c s = false <-> str_all (fun d => negb (bool_decide (d = c))) s = true.
Proof.
  induction s as [|d s IH]; [done|]. rewrite str_in_cons_false. cbn. rewrite andb_true_iff, IH.
  rewrite negb_true_iff, bool_decide_eq_false. split; intros [? ?]; split; congruence.
Qed.

Lemma plain_no_byte c raw : plain_byte c = false -> str_all plain_byte raw = true -> str_in c raw = false.
Proof.
  intros Hc. induction raw as [|d raw IH]; [done|]. intros [Hd Hr]%andb_prop.
  apply str_in_cons_false. split; [congruence|by apply IH].
Qed.

Lemma escape_no_nl raw : str_in nl (escape_double raw) = false.
Proof.
  unfold dquote. induction raw as [|c raw IH]; [done|]. cbn [escape_double]. rewrite str_in_app, IH, orb_false_r.
  destruct (decide (c = "\"%char)); [done|]. destruct (decide (c = "034"%char)); [done|].
  destruct (decide (c = nl)); [done|]. destruct (decide (c = cr)); [done|].
  destruct (decide (c = "009"%char)); [done|]. by apply str_in_cons_false.
Qed.

Lemma double_quoted_no_nl raw : str_in nl (double_quoted raw) = false.
Proof. unfold double_quoted. by rewrite !str_in_app, escape_no_nl. Qed.

(** The last byte of a written value is no carriage return. *)
Definition cr_last (s : string) : bool := ends_with (String cr "") s.

Lemma ends_with_snoc c a d : ends_with (String c "") (a +:+ String d "") = bool_decide (d = c).
Proof.
  unfold ends_with, strip_suffix. rewrite rev_app_str. change (String.rev (String d "")) with (String d "").
  rewrite app_cons_str. cbn. destruct (decide (c = d)) as [->|].
  - by rewrite bool_decide_eq_true_2.
  - by rewrite bool_decide_eq_false_2 by congruence.
Qed.

Lemma ends_with_app_ne c a b : b <> "" -> ends_with (String c "") (a +:+ b) = ends_with (String c "") b.
Proof. intros Hb. destruct (string_snoc b) as [->|(b' & d & ->)]; [done|]. by rewrite <-app_assoc_str, !ends_with_snoc. Qed.

Lemma str_in_last c s : str_in c s = false -> ends_with (String c "") s = false.
Proof.
  destruct (string_snoc s) as [->|(a & d & ->)]; [done|]. rewrite str_in_app, ends_with_snoc. intros [_ H]%orb_false_iff.
  apply str_in_cons_false in H as [H _]. by apply bool_decide_eq_false_2.
Qed.

(** ** Writing a value *)

Lemma value_double raw k b after :
  value_from_assignment {| as_key := k; as_before := b; as_raw := double_quoted raw; as_after := after; as_quote := Double |} = raw.
Proof.
  change (unescape_double (unquote dquote (dquote +:+ escape_double raw +:+ dquote)) = raw).
  by rewrite unquote_quoted, unescape_escape.
Qed.

Lemma value_single raw k b after :
  value_from_assignment {| as_key := k; as_before := b; as_raw := "'" +:+ raw +:+ "'"; as_after := after; as_quote := Single |} = raw.
Proof. change (unquote "'" ("'" +:+ raw +:+ "'") = raw). apply unquote_quoted. Qed.

Lemma cr_last_quoted a b c : c <> cr -> cr_last (a +:+ b +:+ String c "") = false.
Proof. intros Hc. unfold cr_last. rewrite <-app_assoc_str, ends_with_snoc. by apply bool_decide_eq_false_2. Qed.

Lemma quote_env_spec raw :
  str_in nl (quote_env raw) = false /\ cr_last (quote_env raw) = false /\ quote_env raw <> "" /\
  head_not blank (quote_env raw) = true.
Proof.
  unfold quote_env. destruct (needs_quotes raw) eqn:E.
  - split_and!; [apply double_quoted_no_nl| |done|done].
    by apply cr_last_quoted.
  - apply quotes_not_needed in E as [Hne Hp]. split_and!; [by apply plain_no_byte| |done|].
    + apply str_in_last. by apply plain_no_byte.
    + destruct raw as [|c raw]; [done|]. cbn in Hp |- *. apply andb_prop in Hp as [Hc _].
      unfold plain_byte in Hc. by repeat (apply andb_prop in Hc as [Hc ?]).
Qed.

(** The value [replace_value] writes. *)
Definition written (a : Assignment) (raw : string) : string :=
  match as_quote a with
  | Double => double_quoted raw
  | Single => if str_in "'" raw || str_in nl raw || str_in cr raw then double_quoted raw else "'" +:+ raw +:+ "'"
  | QuoteNone => quote_env raw
  end.

Lemma replace_value_written a raw : replace_value a raw = as_before a +:+ written a raw +:+ as_after a.
Proof. done. Qed.

Lemma written_spec a raw :
  str_in nl (written a raw) = false /\ cr_last (written a raw) = false /\ written a raw <> "" /\
  head_not blank (written a raw) = true.
Proof.
  assert (str_in nl (double_quoted raw) = false /\ cr_last (double_quoted raw) = false /\ double_quoted raw <> "" /\
    head_not blank (double_quoted raw) = true) as Hd.
  { split_and!; [apply double_quoted_no_nl| |done|done].
    by apply cr_last_quoted. }
  unfold written. destruct (as_quote a); [apply quote_env_spec| |exact Hd].
  destruct (_ || _) eqn:E; [exact Hd|]. repeat (apply orb_false_iff in E as [E ?]). split_and!; [|..|done|done].
  - rewrite !str_in_app. by rewrite H0.
  - by apply cr_last_quoted.
Qed.

(** A written value is read back, with the quotes it was written with. *)
Lemma parse_quote_env raw after k b :
  closes after -> exists q, parse_value (quote_env raw +:+ after) = (q, quote_env raw, after) /\
    let a := {| as_key := k; as_before := b; as_raw := quote_env raw; as_after := after; as_quote := q |} in
    commented a = false /\ value_from_assignment a = raw.
Proof.
  intros Ha. unfold quote_env. destruct (needs_quotes raw) eqn:E.
  - exists Double. rewrite parse_double. split_and!; [done..|apply value_double].
  - apply quotes_not_needed in E as [Hne Hp]. exists QuoteNone. rewrite parse_plain by done.
    split_and!; [done| |done]. unfold commented; cbn. by destruct raw.
Qed.

Lemma parse_written a raw k b :
  (as_quote a = QuoteNone -> closes (as_after a)) ->
  exists q, parse_value (written a raw +:+ as_after a) = (q, written a raw, as_after a) /\
    let a' := {| as_key := k; as_before := b; as_raw := written a raw; as_after := as_after a; as_quote := q |} in
    commented a' = false /\ value_from_assignment a' = raw.
Proof.
  intros Ha. unfold written. destruct (as_quote a).
  - by apply parse_quote_env, Ha.
  - destruct (_ || _) eqn:E.
    + exists Double. rewrite parse_double. split_and!; [done..|apply value_double].
    + repeat (apply orb_false_iff in E as [E ?]). exists Single. rewrite !app_assoc_str, parse_single by done.
      split_and!; [done..|apply value_single].
  - exists Double. rewrite parse_double. split_and!; [done..|apply value_double].
Qed.

Lemma parse_line_spec content a :
  parse_line content = Some a ->
  content = as_before a +:+ as_raw a +:+ as_after a /\ as_key a <> "" /\
  (exists b0 b1, as_before a = b0 +:+ String "=" b1) /\
  (as_quote a = QuoteNone -> commented a = true \/ closes (as_after a)) /\
  forall rest, head_not blank rest = true -> parse_head (as_before a +:+ rest) = Some (as_key a, as_before a, rest).
Proof.
  unfold parse_line. destruct (parse_head content) as [[[key before] s]|] eqn:Eh; [|done]. cbn.
  destruct (parse_value s) as [[q raw] after] eqn:Ev. intros [= <-]. cbn.
  apply parse_head_spec in Eh as (-> & _ & Hk & _ & Hb & Hp). apply parse_value_spec in Ev as [-> Hv].
  split_and!; [done..| |done]. intros ->. destruct (Hv eq_refl) as [(-> & r & ->)|Hc]; [left|by right]. done.
Qed.

(** Writing over an assignment: it keeps its key, reads as the value written
    and can be written over again. *)
Lemma parse_replaced content a raw :
  parse_line content = Some a -> commented a = false ->
  exists a', parse_line (replace_value a raw) = Some a' /\ as_key a' = as_key a /\ commented a' = false /\
    value_from_assignment a' = raw.
Proof.
  intros Hp Hc. apply parse_line_spec in Hp as (_ & _ & _ & Hcl & Hh).
  destruct (parse_written a raw (as_key a) (as_before a)) as (q & Hv & Hcm & Hval).
  { intros Hq. destruct (Hcl Hq); [congruence|done]. }
  unfold parse_line. rewrite replace_value_written, Hh.
  - cbn. rewrite Hv. by eexists.
  - destruct (written_spec a raw) as (_ & _ & Hne & Hb). by destruct (written a raw).
Qed.

Lemma replaced_no_nl content a raw :
  parse_line content = Some a -> str_in nl content = false -> str_in nl (replace_value a raw) = false.
Proof.
  intros Hp Hc. apply parse_line_spec in Hp as (-> & _). rewrite !str_in_app in Hc.
  apply orb_false_iff in Hc as [Hb Hc]. apply orb_false_iff in Hc as [_ Hc].
  rewrite replace_value_written, !str_in_app. destruct (written_spec a raw) as (Hw & _). by rewrite Hb, Hw, Hc.
Qed.

Lemma replaced_cr_last content a raw :
  parse_line content = Some a -> cr_last content = false -> cr_last (replace_value a raw) = false.
Proof.
  intros Hp Hc. apply parse_line_spec in Hp as (-> & _). rewrite replace_value_written.
  destruct (written_spec a raw) as (_ & Hw & Hne & _). unfold cr_last in *.
  destruct (as_after a) as [|c after] eqn:Ea.
  - rewrite (app_nil_r_str (written a raw)). by rewrite ends_with_app_ne.
  - rewrite <-!app_assoc_str, ends_with_app_ne in Hc |- * by done. done.
Qed.

(** The byte order mark is in front of the line or not, whatever is written. *)
Lemma replaced_bom content a raw x y :
  parse_line content = Some a -> is_some (strip_prefix BOM (replace_value a raw +:+ x)) = is_some (strip_prefix BOM (content +:+ y)).
Proof.
  intros Hp. apply parse_line_spec in Hp as (-> & _ & (b0 & b1 & Hb) & _).
  rewrite replace_value_written, Hb, !app_assoc_str, !app_cons_str, !strip_prefix_cut by done.
  by destruct (strip_prefix BOM b0).
Qed.

(** ** Lines *)

(** The lines of a text: all but the last end with a line feed, which no line
    has inside. *)
Definition closed_line (l : string) : Prop := exists c, l = c +:+ newline /\ str_in nl c = false.

Fixpoint lines_ok (ls : list string) : Prop :=
  match ls with
  | [] => True
  | [l] => l <> "" /\ (closed_line l \/ str_in nl l = false)
  | l :: ls => closed_line l /\ lines_ok ls
  end.

Lemma closed_ne l : closed_line l -> l <> "".
Proof. intros (c & -> & _). by destruct c. Qed.

Lemma lines_ok_cons l ls : closed_line l -> lines_ok ls -> lines_ok (l :: ls).
Proof. intros Hl Hls. destruct ls; [split; [by apply closed_ne|by left]|done]. Qed.

Lemma lines_ok_tail l ls : lines_ok (l :: ls) -> lines_ok ls.
Proof. destruct ls; [done|]. by intros [_ H]. Qed.

Lemma split_inclusive_line c ls_text :
  str_in nl c = false -> split_inclusive (c +:+ newline +:+ ls_text) = (c +:+ newline) :: split_inclusive ls_text.
Proof.
  induction c as [|d c IH]; [done|]. intros [Hd Hc]%str_in_cons_false. rewrite !app_cons_str. cbn [split_inclusive].
  rewrite decide_False by congruence. by rewrite IH.
Qed.

Lemma split_inclusive_last l : str_in nl l = false -> l <> "" -> split_inclusive l = [l].
Proof.
  induction l as [|d l IH]; [done|]. intros [Hd Hl]%str_in_cons_false _. cbn [split_inclusive].
  rewrite decide_False by congruence. destruct l as [|e l]; [done|]. by rewrite IH.
Qed.

Lemma split_inclusive_concat ls : lines_ok ls -> split_inclusive (concat_strings ls) = ls.
Proof.
  induction ls as [|l ls IH]; [done|]. intros Hls. unfold concat_strings in *. cbn [foldr].
  assert (closed_line l -> split_inclusive (l +:+ foldr String.append "" ls) = l :: ls) as Hcl.
  { intros (c & -> & Hc). rewrite app_assoc_str, split_inclusive_line, IH by eauto using lines_ok_tail. done. }
  destruct ls as [|l' ls]; [|by apply Hcl; destruct Hls].
  destruct Hls as [Hne [Hl|Hl]]; [by apply Hcl|]. cbn. rewrite app_nil_r_str. by apply split_inclusive_last.
Qed.

Lemma split_inclusive_spec s : lines_ok (split_inclusive s) /\ concat_strings (split_inclusive s) = s.
Proof.
  unfold concat_strings. induction s as [|c s [IH1 IH2]]; [done|]. cbn [split_inclusive].
  destruct (decide (c = nl)) as [->|Hc].
  - split; [|cbn; by rewrite IH2]. apply lines_ok_cons; [by exists ""|done].
  - destruct (split_inclusive s) as [|l ls].
    + cbn in *. subst s. split; [|done]. split; [done|right]. by rewrite decide_False by congruence.
    + cbn in IH2 |- *. rewrite <-IH2. split; [|done].
      assert (closed_line l -> closed_line (String c l)) as Hcl.
      { intros (x & -> & Hx). exists (String c x). split; [done|]. apply str_in_cons_false. split; [congruence|done]. }
      destruct ls as [|l' ls]; [|destruct IH1; by split; [apply Hcl|]].
      destruct IH1 as [Hne [Hl|Hl]]; (split; [done|]); [left; by apply Hcl|right].
      apply str_in_cons_false. split; [congruence|done].
Qed.

(** A line's content and what ends it. *)
Definition line_parts (content ending : string) : Prop :=
  str_in nl content = false /\ (ending = newline /\ cr_last content = false \/ ending = crlf \/ ending = "").

Lemma split_line_end_app content ending :
  line_parts content ending -> split_line_end (content +:+ ending) = (content, ending).
Proof.
  intros [Hnl [[-> Hcr]|[->| ->]]]; unfold split_line_end.
  - rewrite strip_suffix_app. unfold cr_last, ends_with in Hcr. by destruct (strip_suffix _ content).
  - change crlf with (String cr "" +:+ newline). by rewrite <-app_assoc_str, !strip_suffix_app.
  - rewrite app_nil_r_str. apply str_in_last in Hnl. unfold ends_with, newline in *.
    by destruct (strip_suffix _ content).
Qed.

Lemma split_line_end_spec l :
  closed_line l \/ str_in nl l = false ->
  exists content ending, split_line_end l = (content, ending) /\ l = content +:+ ending /\
    line_parts content ending /\ (ending = "" -> str_in nl l = false).
Proof.
  intros [(c & -> & Hc)|Hl].
  - destruct (cr_last c) eqn:Hcr.
    + unfold cr_last, ends_with in Hcr. destruct (strip_suffix (String cr "") c) as [d|] eqn:E; [|done].
      apply strip_suffix_Some in E as ->. rewrite str_in_app in Hc. apply orb_false_iff in Hc as [Hc _].
      exists d, crlf. rewrite app_assoc_str. change (String cr "" +:+ newline) with crlf.
      assert (line_parts d crlf) as Hp by (split; [done|by right; left]).
      split_and!; [by apply split_line_end_app|done|done|done].
    + assert (line_parts c newline) as Hp by (split; [done|by left]).
      exists c, newline. split_and!; [by apply split_line_end_app|done|done|done].
  - assert (line_parts l "") as Hp by (split; [done|by right; right]).
    exists l, "". split_and!; [|by rewrite app_nil_r_str|done|done].
    rewrite <-(app_nil_r_str l) at 1. by apply split_line_end_app.
Qed.

(** ** Assignments of a list of lines *)

Definition assign (key line : string) : option Assignment :=
  a ← parse_line (fst (split_line_end line)); if decide (as_key a = key) then Some a else None.

Fixpoint last_assign (key : string) (ls : list string) : option Assignment :=
  match ls with
  | [] => None
  | l :: ls => match last_assign key ls with Some a => Some a | None => assign key l end
  end.

Lemma last_assign_app key xs ys :
  last_assign key (xs ++ ys) = match last_assign key ys with Some a => Some a | None => last_assign key xs end.
Proof. induction xs as [|x xs IH]; cbn; [by destruct (last_assign key ys)|]. rewrite IH. by destruct (last_assign key ys). Qed.

Lemma last_assign_none key ls : last_assign key ls = None <-> Forall (fun l => assign key l = None) ls.
Proof.
  induction ls as [|l ls IH]; [done|]. rewrite list.Forall_cons, <-IH. cbn. destruct (last_assign key ls); split; [done| |tauto|tauto].
  by intros [_ ?].
Qed.

(** What [get] returns: the value of the last assignment. *)
Lemma get_last_assign text key :
  get text key = value_from_assignment <$> last_assign key (split_inclusive (snd (split_bom text))).
Proof.
  unfold get. set (f := fun result line => _). generalize (split_inclusive (snd (split_bom text))). intros ls.
  assert (forall r, fold_left f ls r = match last_assign key ls with Some a => Some (value_from_assignment a) | None => r end) as ->.
  { induction ls as [|l ls IH]; [done|]. intros r. cbn. rewrite IH. destruct (last_assign key ls); [done|].
    unfold f, assign. destruct (parse_line _) as [a|]; [|done]. cbn. by destruct (decide _). }
  by destruct (last_assign key ls).
Qed.

(** [replace_first] rewrites the first line that assigns the key. *)
Lemma replace_first_spec key raw ls :
  match replace_first key raw ls with
  | Some ls' => exists pre l post a, ls = pre ++ l :: post /\ Forall (fun l => assign key l = None) pre /\
      assign key l = Some a /\ ls' = pre ++ (replace_value a raw +:+ snd (split_line_end l)) :: post
  | None => Forall (fun l => assign key l = None) ls
  end.
Proof.
  induction ls as [|l ls IH]; cbn; [done|]. destruct (split_line_end l) as [content ending] eqn:El.
  assert (assign key l = None -> match cons l <$> replace_first key raw ls with
    | Some ls' => exists pre l' post a, l :: ls = pre ++ l' :: post /\ Forall (fun l => assign key l = None) pre /\
        assign key l' = Some a /\ ls' = pre ++ (replace_value a raw +:+ snd (split_line_end l')) :: post
    | None => Forall (fun l => assign key l = None) (l :: ls) end) as Hskip.
  { intros Hl. destruct (replace_first key raw ls) as [ls'|]; cbn; [|by constructor].
    destruct IH as (pre & l' & post & a & -> & Hpre & Ha & ->). exists (l :: pre), l', post, a.
    split_and!; [done|by constructor|done|done]. }
  destruct (parse_line content) as [a|] eqn:Ep; [|apply Hskip; unfold assign; by rewrite El; cbn; rewrite Ep].
  destruct (decide (as_key a = key)) as [Ek|Ek].
  - exists [], l, ls, a. unfold assign. rewrite El. cbn. rewrite Ep. cbn. by rewrite decide_True.
  - apply Hskip. unfold assign. rewrite El. cbn. rewrite Ep. cbn. by rewrite decide_False.
Qed.

(** ** One variable written *)

Definition bom_led (ls : list string) : bool := is_some (strip_prefix BOM (concat_strings ls)).

Lemma bom_cut c a x : str_in c BOM = false -> is_some (strip_prefix BOM (a +:+ String c x)) = is_some (strip_prefix BOM a).
Proof. intros Hc. rewrite strip_prefix_cut by done. by destruct (strip_prefix BOM a). Qed.

Lemma bom_led_closed l xs ys : closed_line l -> bom_led (l :: xs) = bom_led (l :: ys).
Proof.
  intros (c & -> & _). unfold bom_led, concat_strings. cbn [foldr]. unfold newline.
  by rewrite !app_assoc_str, !app_cons_str, !bom_cut.
Qed.

Lemma lines_ok_elem l ls : lines_ok ls -> In l ls -> closed_line l \/ str_in nl l = false.
Proof.
  induction ls as [|l' ls IH]; [done|]. intros Hls [->|Hin]; [|by eauto using lines_ok_tail].
  destruct ls; [apply Hls|left; apply Hls].
Qed.

(** What a written line keeps of the line it replaces. *)
Definition stands_for (l' l : string) : Prop :=
  l' <> "" /\ (closed_line l -> closed_line l') /\ (str_in nl l = false -> str_in nl l' = false) /\
  (cr_last l = false -> cr_last l' = false) /\ forall ls, bom_led (l' :: ls) = bom_led (l :: ls).

Lemma stands_lines pre l l' post :
  stands_for l' l -> lines_ok (pre ++ l :: post) -> Forall (fun l => cr_last l = false) (pre ++ l :: post) ->
  lines_ok (pre ++ l' :: post) /\ Forall (fun l => cr_last l = false) (pre ++ l' :: post) /\
  bom_led (pre ++ l' :: post) = bom_led (pre ++ l :: post).
Proof.
  intros (Hne & Hcl & Hnl & Hcr & Hb) Hls Hall. split_and!.
  - clear Hall Hb. induction pre as [|x pre IH]; [|].
    + destruct post; cbn in *; [|naive_solver]. destruct Hls as [_ [?|?]]; split; auto.
    + pose proof (lines_ok_tail _ _ Hls) as Ht. cbn. apply lines_ok_cons; [|by apply IH].
      destruct pre; apply Hls.
  - rewrite list.Forall_app, list.Forall_cons in Hall |- *. naive_solver.
  - destruct pre as [|x pre]; [apply Hb|]. apply bom_led_closed. destruct pre; apply Hls.
Qed.

Lemma closed_crlf c : str_in nl c = false -> closed_line (c +:+ crlf).
Proof.
  intros Hc. exists (c +:+ String cr ""). change crlf with (String cr "" +:+ newline).
  split; [by rewrite app_assoc_str|]. by rewrite str_in_app, Hc.
Qed.

Lemma line_parts_closed content ending : line_parts content ending -> ending <> "" -> closed_line (content +:+ ending).
Proof. intros [Hnl [[-> _]|[->| ->]]] Hne; [by exists content|by apply closed_crlf|done]. Qed.

Lemma closed_not_cr l : closed_line l -> cr_last l = false.
Proof. intros (c & -> & _). unfold cr_last, newline. by rewrite ends_with_snoc. Qed.

(** A line written over. *)
Lemma replaced_line key raw l a :
  closed_line l \/ str_in nl l = false -> assign key l = Some a -> commented a = false ->
  let l' := replace_value a raw +:+ snd (split_line_end l) in
  stands_for l' l /\
  (exists a', assign key l' = Some a' /\ commented a' = false /\ value_from_assignment a' = raw) /\
  forall key', key' <> key -> assign key' l' = None /\ assign key' l = None.
Proof.
  intros Hl Ha Hc. destruct (split_line_end_spec l Hl) as (content & ending & El & -> & Hp & He).
  unfold assign in Ha |- *. rewrite El in Ha |- *. cbn in Ha |- *.
  destruct (parse_line content) as [a0|] eqn:Epl; [|done]. cbn in Ha.
  destruct (decide (as_key a0 = key)) as [<-|]; [|done]. injection Ha as ->.
  destruct (parse_replaced content a raw Epl Hc) as (a' & Ea' & Ek & Hc' & Hv).
  assert (line_parts (replace_value a raw) ending) as Hp'.
  { destruct Hp as [Hn Hor]. split; [by eapply replaced_no_nl|].
    destruct Hor as [[-> Hcr]|Hor]; [left|by right]. split; [done|by eapply replaced_cr_last]. }
  rewrite (split_line_end_app _ _ Hp'). cbn. rewrite Ea'. cbn. rewrite Ek, decide_True by done.
  assert (replace_value a raw <> "") as Hne.
  { rewrite replace_value_written. destruct (written_spec a raw) as (_ & _ & Hw & _).
    destruct (as_before a); [|done]. by destruct (written a raw). }
  split_and!.
  - split_and!.
    + by destruct (replace_value a raw).
    + intros Hcl. apply line_parts_closed; [done|]. intros E0. specialize (He E0). destruct Hcl as (c & E & _).
      by rewrite E, str_in_app, orb_true_r in He.
    + intros Hn. rewrite str_in_app in Hn |- *. apply orb_false_iff in Hn as [_ ->]. by rewrite (proj1 Hp').
    + intros Hcr. destruct (decide (ending = "")) as [->|Hee].
      * rewrite app_nil_r_str in Hcr |- *. by eapply replaced_cr_last.
      * by apply closed_not_cr, line_parts_closed.
    + intros ls. unfold bom_led, concat_strings. cbn [foldr]. rewrite !app_assoc_str. by apply replaced_bom.
  - by exists a'.
  - intros key' Hk. cbn. by rewrite !decide_False by congruence.
Qed.

(** A line added behind the last one. *)
Lemma end_last_line_spec nlx ls :
  nlx = newline \/ nlx = crlf -> lines_ok ls -> Forall (fun l => cr_last l = false) ls ->
  Forall closed_line (end_last_line nlx ls) /\
  (forall key, last_assign key (end_last_line nlx ls) = last_assign key ls) /\
  (forall l, ls <> [] -> bom_led (end_last_line nlx ls ++ [l]) = bom_led ls).
Proof.
  intros Hnlx. induction ls as [|l ls IH]; [by intros; split_and!|]. intros Hls [Hcr Hall]%list.Forall_cons.
  destruct ls as [|l2 ls].
  - clear IH. cbn [end_last_line]. destruct Hls as [Hne Hl]. unfold ends_with.
    destruct (strip_suffix RustStd.newline l) as [c|] eqn:Es.
    + cbn. assert (closed_line l) as Hcl.
      { destruct Hl as [Hl|Hl]; [done|]. apply strip_suffix_Some in Es as ->. by rewrite str_in_app, orb_true_r in Hl. }
      split_and!; [by constructor|done|]. intros l2 _. by apply (bom_led_closed l [l2] []).
    + cbn. assert (str_in nl l = false) as Hnl.
      { destruct Hl as [(c & -> & _)|Hl]; [by rewrite strip_suffix_app in Es|done]. }
      assert (line_parts l nlx) as Hp by (split; [done|destruct Hnlx as [-> | ->]; [by left|by right; left]]).
      assert (line_parts l "") as Hp0 by (split; [done|by right; right]).
      split_and!.
      * constructor; [|done]. apply line_parts_closed; [done|]. by destruct Hnlx as [-> | ->].
      * intros key. unfold assign. rewrite (split_line_end_app _ _ Hp).
        apply split_line_end_app in Hp0. rewrite app_nil_r_str in Hp0. by rewrite Hp0.
      * intros l2 _. unfold bom_led, concat_strings. cbn [foldr]. rewrite app_assoc_str, (app_nil_r_str l).
        destruct Hnlx as [-> | ->]; unfold newline, crlf; by rewrite app_cons_str, bom_cut.
  - destruct Hls as [Hl Hls]. destruct (IH Hls Hall) as (H1 & H2 & H3). cbn [end_last_line].
    split_and!; [by constructor| |].
    + intros key. cbn [last_assign]. by rewrite H2.
    + intros x _. by apply bom_led_closed.
Qed.

Definition valid_key (key : string) : Prop :=
  key <> "" /\ str_all key_byte key = true /\ str_in nl key = false /\ strip_prefix BOM key = None.

(** The line written for a new key. *)
Lemma new_line key raw nlx :
  valid_key key -> nlx = newline \/ nlx = crlf ->
  let l := key +:+ "=" +:+ quote_env raw +:+ nlx in
  closed_line l /\ strip_prefix BOM l = None /\
  (exists a, assign key l = Some a /\ commented a = false /\ value_from_assignment a = raw) /\
  forall key', key' <> key -> assign key' l = None.
Proof.
  intros (Hne & Hk & Hnl & Hb) Hnlx l. destruct (quote_env_spec raw) as (Hqn & Hqc & Hqe & Hqb).
  assert (line_parts (key +:+ "=" +:+ quote_env raw) nlx) as Hp.
  { split; [by rewrite !str_in_app, Hnl, Hqn|]. destruct Hnlx as [-> | ->]; [left|by right; left].
    split; [done|]. unfold cr_last in *. by rewrite <-app_assoc_str, ends_with_app_ne. }
  assert (l = (key +:+ "=" +:+ quote_env raw) +:+ nlx) as El by (subst l; by rewrite !app_assoc_str).
  assert (parse_head (key +:+ "=" +:+ quote_env raw) = Some (key, key +:+ "=", quote_env raw)) as Hh.
  { destruct key as [|c key]; [done|]. pose proof Hk as Hk'. cbn in Hk'. apply andb_prop in Hk' as [Hc _].
    apply key_byte_spec in Hc as (Hcb & Hch & _). unfold parse_head.
    assert (parse_export (String c key +:+ "=" +:+ quote_env raw) = ("", String c key +:+ "=" +:+ quote_env raw)) as Hpe.
    { unfold parse_export. change ("=" +:+ quote_env raw) with (String "=" (quote_env raw)).
      rewrite strip_prefix_cut by done. destruct (strip_prefix "export" (String c key)) as [r|] eqn:Er; [|done].
      cbn. destruct r as [|d r]; [done|]. apply strip_prefix_Some in Er. rewrite Er, str_all_app in Hk.
      apply andb_prop in Hk as [_ Hk]. cbn in Hk. apply andb_prop in Hk as [Hd _]. apply key_byte_spec in Hd as [Hd _].
      rewrite app_cons_str. by rewrite Hd. }
    rewrite app_cons_str in Hpe |- *. cbn [span]. rewrite Hcb, decide_False, Hpe by done.
    rewrite <-app_cons_str, span_app by done. cbn [is_empty].
    change ("=" +:+ quote_env raw) with (String "=" (quote_env raw)). cbn [span].
    rewrite (eq_refl : blank "=" = false), decide_True by done.
    rewrite <-(app_nil_l_str (quote_env raw)) at 1. by rewrite span_app. }
  destruct (parse_quote_env raw "" key (key +:+ "=")) as (q & Hv & Hcm & Hval).
  { exists "", "". split_and!; [done..|by left]. }
  rewrite app_nil_r_str in Hv.
  assert (forall k, assign k l = if decide (key = k) then Some {| as_key := key; as_before := key +:+ "="; as_raw := quote_env raw; as_after := ""; as_quote := q |} else None) as Ha.
  { intros k. unfold assign. rewrite El, split_line_end_app by done. cbn. unfold parse_line. rewrite Hh. cbn.
    by rewrite Hv. }
  split_and!.
  - rewrite El. apply line_parts_closed; [done|]. by destruct Hnlx as [-> | ->].
  - subst l. change ("=" +:+ quote_env raw +:+ nlx) with (String "=" (quote_env raw +:+ nlx)).
    by rewrite strip_prefix_cut, Hb.
  - rewrite Ha, decide_True by done. by eexists.
  - intros k' Hk'. by rewrite Ha, decide_False by congruence.
Qed.

Section editor.
Context `{SerdeJson}.

Definition doc_ok (ls : list string) : Prop := lines_ok ls /\ Forall (fun l => cr_last l = false) ls.

Definition settable (ls : list string) (key : string) : Prop :=
  forall a, last_assign key ls = Some a -> commented a = false.

Lemma set_one_spec nlx ls kv :
  nlx = newline \/ nlx = crlf -> doc_ok ls -> valid_key (kv_path kv) -> settable ls (kv_path kv) ->
  let ls' := set_one nlx ls kv in
  doc_ok ls' /\ (bom_led ls = false -> bom_led ls' = false) /\
  (exists a, last_assign (kv_path kv) ls' = Some a /\ commented a = false /\
     value_from_assignment a = kv_raw_value (kv_value kv)) /\
  forall key, key <> kv_path kv -> last_assign key ls' = last_assign key ls.
Proof.
  intros Hnlx [Hls Hcr] Hk Hset. unfold set_one. cbn zeta.
  pose proof (replace_first_spec (kv_path kv) (kv_raw_value (kv_value kv)) (rev ls)) as Hr.
  destruct (replace_first _ _ _) as [rls|].
  - destruct Hr as (pre & l & post & a & El & Hpre & Ha & ->).
    assert (ls = rev post ++ l :: rev pre) as ->.
    { rewrite <-(rev_involutive ls), El, rev_app_distr. cbn. by rewrite <-app_assoc. }
    rewrite rev_app_distr. cbn [rev]. rewrite <-app_assoc. cbn [app].
    assert (Forall (fun l => assign (kv_path kv) l = None) (rev pre)) as Hpre' by (by apply Forall_rev).
    apply last_assign_none in Hpre'.
    assert (closed_line l \/ str_in nl l = false) as Hl.
    { eapply lines_ok_elem; [exact Hls|]. apply in_or_app. by right; left. }
    assert (commented a = false) as Hc.
    { apply Hset. rewrite last_assign_app. cbn. by rewrite Hpre', Ha. }
    destruct (replaced_line _ (kv_raw_value (kv_value kv)) l a Hl Ha Hc) as (Hst & Hnew & Hoth).
    destruct (stands_lines _ _ _ _ Hst Hls Hcr) as (H1 & H2 & H3). split_and!.
    + by split.
    + by rewrite H3.
    + destruct Hnew as (a' & Ea' & ?). exists a'. rewrite last_assign_app. cbn. by rewrite Hpre', Ea'.
    + intros key Hne. rewrite !last_assign_app. cbn. destruct (Hoth key Hne) as [-> ->]. done.
  - assert (last_assign (kv_path kv) ls = None) as Hnone.
    { apply last_assign_none. rewrite <-(rev_involutive ls). by apply Forall_rev. }
    destruct (end_last_line_spec nlx ls Hnlx Hls Hcr) as (H1 & H2 & H3).
    destruct (new_line (kv_path kv) (kv_raw_value (kv_value kv)) nlx Hk Hnlx) as (Hcl & Hb & Hnew & Hoth).
    set (l := kv_path kv +:+ _) in *.
    assert (Forall closed_line (end_last_line nlx ls ++ [l])) as Hall.
    { apply list.Forall_app. split; [done|]. by constructor. }
    split_and!.
    + split; [|by eapply list.Forall_impl; [exact Hall|apply closed_not_cr]].
      clear -Hall. induction Hall; [done|by apply lines_ok_cons].
    + intros Hbl. destruct (decide (ls = [])) as [->|Hne]; [|by rewrite H3].
      unfold bom_led, concat_strings. cbn [app end_last_line foldr]. by rewrite app_nil_r_str, Hb.
    + destruct Hnew as (a & Ea & ?). exists a. rewrite last_assign_app. cbn. by rewrite Ea.
    + intros key Hne. rewrite last_assign_app. cbn. by rewrite (Hoth key Hne), H2.
Qed.

(** The last value written for a key. *)
Fixpoint last_written (key : string) (kvs : list KV) : option string :=
  match kvs with
  | [] => None
  | kv :: kvs =>
      match last_written key kvs with
      | Some raw => Some raw
      | None => if decide (kv_path kv = key) then Some (kv_raw_value (kv_value kv)) else None
      end
  end.

Lemma set_all_spec nlx kvs ls :
  nlx = newline \/ nlx = crlf -> doc_ok ls -> Forall (fun kv => valid_key (kv_path kv)) kvs ->
  Forall (fun kv => settable ls (kv_path kv)) kvs ->
  let ls' := fold_left (set_one nlx) kvs ls in
  doc_ok ls' /\ (bom_led ls = false -> bom_led ls' = false) /\
  forall key, value_from_assignment <$> last_assign key ls' =
    match last_written key kvs with Some raw => Some raw | None => value_from_assignment <$> last_assign key ls end.
Proof.
  intros Hnlx. revert ls. induction kvs as [|kv kvs IH]; intros ls Hok Hk Hset; [done|].
  apply list.Forall_cons in Hk as [Hk1 Hk]. apply list.Forall_cons in Hset as [Hs1 Hset].
  destruct (set_one_spec nlx ls kv Hnlx Hok Hk1 Hs1) as (Hok' & Hb & (a & Ea & Hca & Hva) & Hoth).
  destruct (IH (set_one nlx ls kv) Hok' Hk) as (Hok2 & Hb2 & Hget).
  { eapply list.Forall_impl; [exact Hset|]. intros kv2 Hs2 a2.
    destruct (decide (kv_path kv2 = kv_path kv)) as [->|Hne]; [rewrite Ea; by intros [= <-]|].
    rewrite Hoth by done. apply Hs2. }
  cbn. split_and!; [done|auto|]. intros key. rewrite Hget. destruct (last_written key kvs); [done|].
  destruct (decide (kv_path kv = key)) as [<-|Hne]; [by rewrite Ea; cbn; rewrite Hva|by rewrite Hoth by congruence].
Qed.

(** Where a byte order mark stands in front, it is split off again. *)
Lemma split_bom_again text ls :
  (bom_led (split_inclusive (snd (split_bom text))) = false -> bom_led ls = false) ->
  split_bom (fst (split_bom text) +:+ concat_strings ls) = (fst (split_bom text), concat_strings ls).
Proof.
  unfold split_bom. destruct (strip_prefix BOM text) as [body|] eqn:E; cbn [fst snd]; intros Hb.
  - by rewrite strip_prefix_app.
  - rewrite app_nil_l_str. unfold bom_led in Hb. rewrite (proj2 (split_inclusive_spec text)), E in Hb.
    specialize (Hb eq_refl). by destruct (strip_prefix BOM (concat_strings ls)).
Qed.

Lemma text_doc_ok text : cr_last text = false -> doc_ok (split_inclusive (snd (split_bom text))).
Proof.
  intros Hcr. assert (cr_last (snd (split_bom text)) = false) as Hb.
  { unfold split_bom. destruct (strip_prefix BOM text) as [body|] eqn:E; [|done]. apply strip_prefix_Some in E as ->.
    cbn. unfold cr_last in *. destruct body as [|c body]; [done|]. by rewrite ends_with_app_ne in Hcr. }
  destruct (split_inclusive_spec (snd (split_bom text))) as [Hok Hcat]. split; [done|]. rewrite <-Hcat in Hb.
  revert Hb. clear Hcat. generalize dependent (split_inclusive (snd (split_bom text))). intros ls.
  unfold concat_strings. induction ls as [|l ls IH]; intros Hok Hb; [done|]. constructor.
  - destruct ls; [|apply closed_not_cr, Hok]. cbn in Hb. by rewrite app_nil_r_str in Hb.
  - apply IH; [by eapply lines_ok_tail|]. destruct ls as [|l2 ls]; [done|].
    cbn [foldr] in Hb. unfold cr_last in Hb |- *. rewrite ends_with_app_ne in Hb; [done|].
    destruct l2; [|done]. destruct Hok as [_ Hok]. destruct ls; [by destruct Hok|]. by apply proj1, closed_ne in Hok.
Qed.

(** C38: What is written to a dotenv file is read back. After [set], every
    variable that was written reads as its last written value, whatever bytes
    the value has, and every other variable reads as before. The keys are
    names ([valid_key]), the text does not end in a lone carriage return, and
    no key's last assignment is an empty value with a comment right behind it
    (there the comment would run into the value). *)
Theorem env_get_set text kvs key :
  Forall (fun kv => valid_key (kv_path kv)) kvs ->
  Forall (fun kv => settable (split_inclusive (snd (split_bom text))) (kv_path kv)) kvs ->
  cr_last text = false ->
  get (set text kvs) key = match last_written key kvs with Some raw => Some raw | None => get text key end.
Proof.
  intros Hk Hs Hcr. rewrite !get_last_assign. unfold set.
  pose proof (split_bom_again text) as Hagain. pose proof (text_doc_ok text Hcr) as Hok.
  destruct (split_bom text) as [bom body] eqn:Eb. cbn [fst snd] in *.
  set (nlx := if contains crlf body then crlf else newline).
  assert (nlx = newline \/ nlx = crlf) as Hnlx by (subst nlx; destruct (contains crlf body); auto).
  destruct (set_all_spec nlx kvs _ Hnlx Hok Hk Hs) as ([Hok' _] & Hb & Hget).
  rewrite Hagain by done. cbn [snd]. by rewrite split_inclusive_concat.
Qed.
End editor.

Definition env_sample : string :=
  "# keys" +:+ newline +:+ "export A='x'" +:+ newline +:+ "B=1 # two" +:+ newline +:+ "A=old".
Definition env_writes : list KV :=
  [ {| kv_path := "A"; kv_value := VString "it's #1" |}; {| kv_path := "C"; kv_value := VString "a\b" |};
    {| kv_path := "B"; kv_value := VNull |} ].

Lemma env_get_set_witness :
  get (set env_sample env_writes) "A" = Some "it's #1" /\ get (set env_sample env_writes) "B" = Some "".
Proof.
  split.
  - rewrite (env_get_set env_sample env_writes "A"); [done| | |done].
    + repeat constructor; done.
    + repeat (apply list.Forall_cons; split); [..|done]; intros a; vm_compute; by intros [= <-].
  - rewrite (env_get_set env_sample env_writes "B"); [done| | |done].
    + repeat constructor; done.
    + repeat (apply list.Forall_cons; split); [..|done]; intros a; vm_compute; by intros [= <-].
Defined.

Example env_set_sample :
  set env_sample env_writes =
  "# keys" +:+ newline +:+ "export A='x'" +:+ newline +:+ "B=" +:+ dquote +:+ dquote +:+ " # two" +:+ newline +:+
  "A=" +:+ dquote +:+ "it's #1" +:+ dquote +:+ newline +:+ "C=" +:+ dquote +:+ "a\\b" +:+ dquote +:+ newline.
Proof. reflexivity. Qed.

(** An empty value with a comment right behind it: what is written runs into
    the comment. *)
Example env_set_commented :
  get (set "K= #none" [ {| kv_path := "K"; kv_value := VString "abc" |} ]) "K" = Some "abc#none".
Proof. reflexivity. Qed.

(** ** Variables removed *)

Lemma filter_lines_ok (p : string -> bool) ls : lines_ok ls -> lines_ok (List.filter p ls).
Proof.
  induction ls as [|l ls IH]; [done|]. intros Hls. cbn. specialize (IH (lines_ok_tail _ _ Hls)).
  destruct (p l); [|done]. destruct ls; [done|]. apply lines_ok_cons; [apply Hls|done].
Qed.

Lemma filter_last_assign (p : string -> bool) key ls :
  (forall l a, assign key l = Some a -> p l = true) -> last_assign key (List.filter p ls) = last_assign key ls.
Proof.
  intros Hp. induction ls as [|l ls IH]; [done|]. cbn. destruct (p l) eqn:E; cbn; rewrite IH; [done|].
  destruct (last_assign key ls); [done|]. destruct (assign key l) eqn:Ea; [|done]. by rewrite (Hp _ _ Ea) in E.
Qed.

Lemma bom_led_free ls : lines_ok ls -> Forall (fun l => strip_prefix BOM l = None) ls -> bom_led ls = false.
Proof.
  intros Hls Hb. destruct ls as [|l ls]; [done|]. apply list.Forall_cons in Hb as [Hb _].
  destruct ls as [|l2 ls].
  - unfold bom_led, concat_strings. cbn [foldr]. by rewrite app_nil_r_str, Hb.
  - destruct Hls as [Hl _]. rewrite (bom_led_closed l (l2 :: ls) []) by done.
    unfold bom_led, concat_strings. cbn [foldr]. by rewrite app_nil_r_str, Hb.
Qed.

(** What is removed from a dotenv file is gone, every assignment of it,
    and every other variable reads as before. The text has no byte order mark
    at the start of a line (a removed first line would bring it to the front
    of the text). *)
Theorem env_del text keys key :
  Forall (fun l => strip_prefix BOM l = None) (split_inclusive (snd (split_bom text))) ->
  get (del text keys) key = if decide (key ∈ keys) then None else get text key.
Proof.
  intros Hb. rewrite !get_last_assign. unfold del. pose proof (split_bom_again text) as Hagain.
  destruct (split_bom text) as [bom body] eqn:Eb. cbn [fst snd] in *.
  destruct (split_inclusive_spec body) as [Hok _]. set (kept := fun line => _).
  rewrite Hagain; cbn [snd].
  2: { intros _. apply bom_led_free; [by apply filter_lines_ok|]. rewrite List.Forall_forall in Hb |- *.
       intros l [Hin _]%filter_In. by apply Hb. }
  rewrite split_inclusive_concat by (by apply filter_lines_ok).
  destruct (decide (key ∈ keys)) as [Hin|Hin].
  - assert (last_assign key (List.filter kept (split_inclusive body)) = None) as ->; [|done].
    apply last_assign_none. apply List.Forall_forall. intros l [_ Hl]%filter_In. unfold kept, assign in *.
    destruct (parse_line _) as [a|]; [|done]. cbn. destruct (decide (as_key a = key)) as [<-|]; [|done].
    by rewrite bool_decide_eq_true_2 in Hl.
  - rewrite filter_last_assign; [done|]. intros l a Ha. unfold kept, assign in *.
    destruct (parse_line _) as [a'|]; [|done]. cbn in Ha. destruct (decide (as_key a' = key)) as [<-|]; [|done].
    by rewrite bool_decide_eq_false_2.
Qed.

Lemma env_del_witness : get (del env_sample ["A"]) "A" = None /\ get (del env_sample ["A"]) "B" = Some "1".
Proof.
  split.
  - rewrite (env_del env_sample ["A"] "A"); [by rewrite decide_True by left|by repeat constructor].
  - rewrite (env_del env_sample ["A"] "B"); [by vm_compute|by repeat constructor].
Defined.
