(* ===== verification/Jsonc.v ===== *)
(** * JSON with comments, as the agents' files have it

    The reading half of agent-wiring's edit/json.rs: comments and trailing
    commas are blanked out, so that what is left is JSON of the same length,
    and a value is looked up by its dotted path. *)
From Stdlib Require Import ZArith Lia.
From S2P Require Import Prelude.
From S2P Require Import RustStd.
From S2P Require Import Json.
From S2P Require Import Utf8.
From S2P Require Import EnvEdit.

Local Open Scope Z_scope.

(** ** Comments *)

(** Where the scan is; in a string, whether a backslash came before. *)
Inductive Mode : Type := Code | InString (escaped : bool) | LineComment | BlockComment.

Definition string_mode (escaped : bool) (c : ascii) : Mode :=
  if escaped then InString false
  else if decide (c = "\"%char) then InString true
  else if decide (c = "034"%char) then Code
  else InString false.

Definition blanked (keep_nl : bool) (c : ascii) : ascii :=
  if decide (c = cr) then cr else if keep_nl && bool_decide (c = nl) then nl else " "%char.

Fixpoint strip_comments (m : Mode) (s : string) : string :=
  match s with
  | EmptyString => ""
  | String c s' =>
      match m with
      | InString escaped => String c (strip_comments (string_mode escaped c) s')
      | Code =>
          if decide (c = "034"%char) then String c (strip_comments (InString false) s')
          else
            match s' with
            | String d s'' =>
                if decide (c = "/"%char) then
                  if decide (d = "/"%char) then "  " +:+ strip_comments LineComment s''
                  else if decide (d = "*"%char) then "  " +:+ strip_comments BlockComment s''
                  else String c (strip_comments Code s')
                else String c (strip_comments Code s')
            | EmptyString => String c ""
            end
      | LineComment =>
          if decide (c = nl) then String c (strip_comments Code s')
          else String (blanked false c) (strip_comments LineComment s')
      | BlockComment =>
          match s' with
          | String d s'' =>
              if decide (c = "*"%char) then
                if decide (d = "/"%char) then "  " +:+ strip_comments Code s''
                else String (blanked true c) (strip_comments BlockComment s')
              else String (blanked true c) (strip_comments BlockComment s')
          | EmptyString => String (blanked true c) ""
          end
      end
  end.

(** ** Trailing commas *)

Definition is_ascii_whitespace (c : ascii) : bool :=
  bool_decide (c ∈ [" "%char; "009"%char; nl; "012"%char; cr]).

(** The byte behind the white space, if any. *)
Fixpoint lookahead (s : string) : option ascii :=
  match s with
  | EmptyString => None
  | String c s => if is_ascii_whitespace c then lookahead s else Some c
  end.

Definition closing (o : option ascii) : bool :=
  match o with Some c => bool_decide (c = "}"%char) || bool_decide (c = "]"%char) | None => false end.

(** [inside] is the string the scan is in, if any. *)
Fixpoint blank_commas (inside : option bool) (s : string) : string :=
  match s with
  | EmptyString => ""
  | String c s' =>
      match inside with
      | Some escaped =>
          let inside := match string_mode escaped c with InString e => Some e | _ => None end in
          String c (blank_commas inside s')
      | None =>
          if decide (c = "034"%char) then String c (blank_commas (Some false) s')
          else if decide (c = ","%char) then
            String (if closing (lookahead s') then " "%char else c) (blank_commas None s')
          else String c (blank_commas None s')
      end
  end.

(** [None] where the rest is no UTF-8: the error is not looked at. *)
Definition strip_trailing_commas (bytes : string) : option string :=
  let output := blank_commas None bytes in if is_utf8 output then Some output else None.

Definition strip_jsonc (src : string) : option string := strip_trailing_commas (strip_comments Code src).

(** ** Lookup *)

(** [str::parse::<usize>] *)
Definition digit_of (c : ascii) : option Z :=
  let n := byte_val c - 48 in if (0 <=? n) && (n <=? 9) then Some n else None.

Fixpoint parse_digits (acc : Z) (s : string) : option Z :=
  match s with
  | EmptyString => Some acc
  | String c s =>
      d ← digit_of c;
      let acc := 10 * acc + d in
      if acc <=? u64_max then parse_digits acc s else None
  end.

Definition parse_usize (s : string) : option Z :=
  let digits := match s with String "+" rest => rest | _ => s end in
  if is_empty digits then None else parse_digits 0 digits.

Fixpoint descend (segments : list string) (current : Value) : option Value :=
  match segments with
  | [] => Some current
  | segment :: segments =>
      match current with
      | VObject map => map_get segment map ≫= descend segments
      | VArray items =>
          i ← parse_usize segment;
          items !! Z.to_nat i ≫= descend segments
      | _ => None
      end
  end.

Section reader.
Context `{SerdeJson}.

Definition parse_json (src : string) : option Value :=
  stripped ← strip_jsonc (snd (split_bom src));
  ok (value_from_str stripped).

Definition get (text key_path : string) : option string :=
  value ← parse_json text;
  current ← descend (List.filter (fun s => negb (is_empty s)) (split "." key_path)) value;
  match current with
  | VString text => Some text
  | other => ok (serde_to_string other)
  end.
End reader.

(** ** What stripping keeps *)

(** A byte stays or becomes a blank; line ends stay. *)
Definition blanks_out (c d : ascii) : Prop := d = c \/ (d = " "%char /\ c <> nl /\ c <> cr).

Fixpoint bytewise (R : ascii -> ascii -> Prop) (s t : string) : Prop :=
  match s, t with
  | EmptyString, EmptyString => True
  | String c s, String d t => R c d /\ bytewise R s t
  | _, _ => False
  end.

Lemma bytewise_length R s t : bytewise R s t -> String.length s = String.length t.
Proof. revert t. induction s as [|c s IH]; intros [|d t]; try done. intros [_ Hst]. cbn. f_equal. by apply IH. Qed.

Lemma blanks_out_trans c d e : blanks_out c d -> blanks_out d e -> blanks_out c e.
Proof. unfold blanks_out. intros [-> |(-> & ? & ?)] [-> |(-> & ? & ?)]; tauto. Qed.

Lemma bytewise_trans R s t u :
  (forall a b c, R a b -> R b c -> R a c) -> bytewise R s t -> bytewise R t u -> bytewise R s u.
Proof.
  intros HR. revert t u. induction s as [|c s IH]; intros [|d t] [|e u]; try done. cbn. intros [? ?] [? ?]. eauto.
Qed.

Lemma blanked_out b c : (b = false -> c <> nl) -> blanks_out c (blanked b c).
Proof.
  unfold blanked, blanks_out. intros Hb. destruct (decide (c = cr)); [by left|].
  destruct b; cbn; [|right; auto]. destruct (bool_decide_reflect (c = nl)); [by left|by right].
Qed.

Lemma strip_comments_blanks m s : bytewise blanks_out s (strip_comments m s).
Proof.
  revert m. induction s as [s IH] using (induction_ltof1 _ String.length). unfold ltof in IH.
  destruct s as [|c s']; [done|]. intros m.
  assert (forall m, bytewise blanks_out s' (strip_comments m s')) as IH1 by (intros; apply IH; cbn; lia).
  assert (forall d s'' m, s' = String d s'' -> bytewise blanks_out s'' (strip_comments m s'')) as IH2
    by (intros d s'' m' ->; apply IH; cbn; lia).
  destruct m; cbn [strip_comments].
  - destruct (decide (c = "034"%char)); [split; [by left|done]|]. destruct s' as [|d s'']; [split; [by left|done]|].
    destruct (decide (c = "/"%char)) as [->|]; [|split; [by left|done]].
    destruct (decide (d = "/"%char)) as [->|]; [|destruct (decide (d = "*"%char)) as [->|]]; [| |split; [by left|done]].
    all: rewrite !app_cons_str, app_nil_l_str; cbn [bytewise]; split_and!; [by right|by right|by eapply IH2].
  - split; [by left|done].
  - destruct (decide (c = nl)); [split; [by left|done]|]. split; [by apply blanked_out|done].
  - destruct s' as [|d s'']; [split; [by apply blanked_out|done]|].
    destruct (decide (c = "*"%char)) as [->|]; [|split; [by apply blanked_out|done]].
    destruct (decide (d = "/"%char)) as [->|]; [|split; [by apply blanked_out|done]].
    rewrite !app_cons_str, app_nil_l_str. cbn [bytewise]. split_and!; [by right|by right|by eapply IH2].
Qed.

Lemma blank_commas_blanks inside s : bytewise blanks_out s (blank_commas inside s).
Proof.
  revert inside. induction s as [|c s IH]; intros inside; [done|]. cbn [blank_commas].
  destruct inside; [split; [by left|apply IH]|]. destruct (decide (c = "034"%char)); [split; [by left|apply IH]|].
  destruct (decide (c = ","%char)) as [->|]; [|split; [by left|apply IH]].
  split; [|apply IH]. destruct (closing _); [by right|by left].
Qed.

(** ** Stripping keeps the text UTF-8 *)

Definition above_ascii (need : list (Z * Z)) : Prop := Forall (fun r => 128 <= fst r) need.

Lemma utf8_need_above b need : utf8_need b = Some need -> above_ascii need.
Proof.
  unfold utf8_need, above_ascii. intros E.
  repeat match type of E with context [if ?x then _ else _] => destruct x end; injection E as <- || done.
  all: repeat constructor; cbn; lia.
Qed.

(** One byte of UTF-8: what may come after it, and that it is free otherwise. *)
Lemma utf8_step need c s :
  above_ascii need -> utf8_after need (String c s) = true ->
  exists need', above_ascii need' /\ utf8_after need' s = true /\
    (forall t, utf8_after need' t = true -> utf8_after need (String c t) = true) /\
    (byte_val c < 128 -> need = [] /\ need' = []).
Proof.
  intros Ha E. destruct need as [|[lo hi] need]; cbn in E.
  - destruct (utf8_need (byte_val c)) as [need'|] eqn:En; [|done]. exists need'.
    split_and!; [by eapply utf8_need_above|done|intros t Ht; cbn; by rewrite En|].
    intros Hc. split; [done|]. unfold utf8_need in En. rewrite (proj2 (Z.leb_le _ _)) in En by lia. by injection En.
  - apply andb_prop in E as [Eb Es]. apply list.Forall_cons in Ha as [Hlo Ha]. exists need.
    split_and!; [done|done|intros t Ht; cbn; by rewrite Eb|].
    intros Hc. unfold between in Eb. cbn in Hlo. lia.
Qed.

Lemma utf8_blanked b c t : utf8_after [] (String (blanked b c) t) = utf8_after [] t.
Proof. unfold blanked. destruct (decide _); [done|]. by destruct (_ && _). Qed.

Definition in_comment (m : Mode) : bool := match m with LineComment | BlockComment => true | _ => false end.

Lemma strip_comments_utf8 m s need :
  above_ascii need -> utf8_after need s = true ->
  utf8_after (if in_comment m then [] else need) (strip_comments m s) = true.
Proof.
  revert m need. induction s as [s IH] using (induction_ltof1 _ String.length). unfold ltof in IH.
  intros m need Ha Hs. destruct s as [|c s']; [by destruct m; destruct need|].
  destruct (utf8_step need c s' Ha Hs) as (need1 & Ha1 & Hs1 & Hc1 & Hc0).
  assert (forall m, utf8_after (if in_comment m then [] else need1) (strip_comments m s') = true) as IH1
    by (intros; apply IH; [cbn; lia|done|done]).
  assert (forall d s'' m, s' = String d s'' -> byte_val c < 128 -> byte_val d < 128 ->
    utf8_after [] (strip_comments m s'') = true) as IH2.
  { intros d s'' m' -> Hc Hd. destruct (Hc0 Hc) as [_ ->].
    destruct (utf8_step [] d s'' Ha1 Hs1) as (need2 & Ha2 & Hs2 & _ & Hd0). destruct (Hd0 Hd) as [_ ->].
    specialize (IH s'' ltac:(cbn; lia) m' [] Ha2 Hs2). by destruct (in_comment m'). }
  pose proof (IH1 Code) as Hcode. pose proof (IH1 LineComment) as Hline. pose proof (IH1 BlockComment) as Hblock.
  cbn [in_comment] in Hcode, Hline, Hblock. clear IH.
  destruct m; cbn [strip_comments in_comment].
  - destruct (decide (c = "034"%char)); [by apply Hc1, (IH1 (InString false))|].
    destruct s' as [|d s'']; [done|].
    destruct (decide (c = "/"%char)) as [->|]; [|by apply Hc1].
    destruct (decide (d = "/"%char)) as [->|]; [|destruct (decide (d = "*"%char)) as [->|]]; [| |by apply Hc1].
    all: destruct (Hc0 ltac:(done)) as [-> _]; rewrite !app_cons_str, app_nil_l_str; by eapply IH2.
  - apply Hc1. unfold string_mode. destruct escaped; [by apply (IH1 (InString false))|].
    destruct (decide _); [by apply (IH1 (InString true))|]. destruct (decide _); [done|by apply (IH1 (InString false))].
  - destruct (decide (c = nl)) as [->|]; [|by rewrite utf8_blanked].
    destruct (Hc0 ltac:(done)) as [-> ->]. by apply Hc1.
  - destruct s' as [|d s'']; [by rewrite utf8_blanked|].
    destruct (decide (c = "*"%char)) as [->|]; [|by rewrite utf8_blanked].
    destruct (decide (d = "/"%char)) as [->|]; [|by rewrite utf8_blanked].
    rewrite !app_cons_str, app_nil_l_str. by eapply IH2.
Qed.

Lemma blank_commas_utf8 inside s need :
  above_ascii need -> utf8_after need s = true -> utf8_after need (blank_commas inside s) = true.
Proof.
  revert inside need. induction s as [|c s IH]; intros inside need Ha Hs; [done|].
  destruct (utf8_step need c s Ha Hs) as (need1 & Ha1 & Hs1 & Hc1 & Hc0). cbn [blank_commas].
  destruct inside; [by apply Hc1, IH|]. destruct (decide (c = "034"%char)); [by apply Hc1, IH|].
  destruct (decide (c = ","%char)) as [->|]; [|by apply Hc1, IH].
  destruct (closing _); [|by apply Hc1, IH]. destruct (Hc0 ltac:(done)) as [-> ->]. by apply IH.
Qed.

(** Comments are blanked out, not cut out. For a UTF-8 text, stripping
    never fails, and what it returns has a byte for each byte of the text: the
    same byte or a blank, a line end always the same; so a position in the
    stripped text, which is what is parsed, is that position in the text. *)
Theorem strip_jsonc_aligned src :
  is_utf8 src = true ->
  exists stripped, strip_jsonc src = Some stripped /\ is_utf8 stripped = true /\
    bytewise blanks_out src stripped /\ String.length stripped = String.length src.
Proof.
  intros Hu. unfold strip_jsonc, strip_trailing_commas.
  assert (is_utf8 (blank_commas None (strip_comments Code src)) = true) as Hv.
  { apply blank_commas_utf8; [constructor|]. by apply (strip_comments_utf8 Code src []); [constructor|]. }
  rewrite Hv. assert (bytewise blanks_out src (blank_commas None (strip_comments Code src))) as Hb.
  { eapply bytewise_trans; [exact blanks_out_trans|apply strip_comments_blanks|apply blank_commas_blanks]. }
  eexists. split_and!; [done|done|done|]. symmetry. by eapply bytewise_length.
Qed.

Definition jsonc_sample : string :=
  "{" +:+ dquote +:+ "a//b" +:+ dquote +:+ ": 1, // one" +:+ crlf +:+ "/* x */ }".

Lemma strip_jsonc_aligned_witness :
  exists stripped, strip_jsonc jsonc_sample = Some stripped /\
    stripped = "{" +:+ dquote +:+ "a//b" +:+ dquote +:+ ": 1        " +:+ crlf +:+ "        }".
Proof.
  destruct (strip_jsonc_aligned jsonc_sample eq_refl) as (s & E & _). exists s. split; [exact E|].
  vm_compute in E. by injection E as <-.
Defined.
