(* ===== verification/Atomic.v ===== *)
(** * Files written as a whole

    agent-wiring's atomic.rs over a file system whose operations can fail: a
    file is replaced through a temporary file and a rename. A path is its
    directory and its last component. *)
From Stdlib Require Import ZArith Lia.
From stdpp Require Import gmap pretty.
From S2P Require Import Prelude.
From S2P Require Import RustStd.

Local Open Scope Z_scope.

(** ** The file system *)

Inductive IoKind : Type := NotFound | AlreadyExists | InvalidData | Other.
Record IoError := { io_kind : IoKind; io_message : string }.

Definition Path : Type := string * string.
Record File := { fd_bytes : string; fd_mtime : Z }.

(** [d_ops] counts the operations asked of the system, [d_temps] is
    [TEMP_COUNTER]. *)
Record Disk := { d_files : gmap Path File; d_ops : nat; d_temps : Z }.

(** What the system does that the code does not choose, by the number of the
    operation: whether it fails, how much of a failed write is written, and
    the clock in nanoseconds. A crash is a system that fails for ever after.
    [host_blind]: the metadata of the path cannot be read after so many
    operations. *)
Class Host := {
  host_fails : nat -> bool;
  host_blind : nat -> Path -> bool;
  host_error : nat -> string;
  host_torn : nat -> nat;
  host_now : nat -> Z;
  host_pid : Z
}.

Definition set_files (f : gmap Path File -> gmap Path File) (d : Disk) : Disk :=
  {| d_files := f (d_files d); d_ops := d_ops d; d_temps := d_temps d |}.

Abbreviation Fs := (StM Disk IoError).

(** A step whose failure is a value. *)
Definition attempt {S E F A} (m : StM S E A) : StM S F (result E A) := fun s => let '(r, s) := m s in (Ok r, s).

Section host.
Context `{Host}.

Definition tick {E} : StM Disk E nat := fun d =>
  (Ok (d_ops d), {| d_files := d_files d; d_ops := S (d_ops d); d_temps := d_temps d |}).

Definition fault (n : nat) : IoError := {| io_kind := Other; io_message := host_error n |}.

(** An operation that changes no file. *)
Definition fallible : Fs unit :=
  n ← tick;
  if host_fails n then throw (fault n) else mret tt.

Definition not_found : IoError := {| io_kind := NotFound; io_message := "" |}.

(** [fs::read] *)
Definition fs_read (path : Path) : Fs string :=
  fallible;;
  d ← Prelude.get;
  match d_files d !! path with Some f => mret (fd_bytes f) | None => throw not_found end.

(** [fs::remove_file] *)
Definition remove_file (path : Path) : Fs unit :=
  fallible;;
  d ← Prelude.get;
  match d_files d !! path with
  | Some _ => modify (set_files (delete path))
  | None => throw not_found
  end.

(** [fs::rename] *)
Definition rename (a b : Path) : Fs unit :=
  fallible;;
  d ← Prelude.get;
  match d_files d !! a with
  | Some f => modify (set_files (fun m => <[b := f]> (delete a m)))
  | None => throw not_found
  end.

(** [Path::exists]: false as well when the system cannot tell. *)
Definition exists_ {E} (path : Path) : StM Disk E bool :=
  gets (fun d => negb (host_blind (d_ops d) path) && bool_decide (is_Some (d_files d !! path))).

Definition now {E} : StM Disk E Z := n ← tick; mret (host_now n).

(** [OpenOptions::create_new] *)
Definition create_new (path : Path) : Fs unit :=
  n ← tick;
  if host_fails n then throw (fault n)
  else
    d ← Prelude.get;
    match d_files d !! path with
    | Some _ => throw {| io_kind := AlreadyExists; io_message := "" |}
    | None => modify (set_files <[path := {| fd_bytes := ""; fd_mtime := host_now n |}]>)
    end.

(** [write_all]: some of it may be written when it fails. *)
Definition write_all (path : Path) (data : string) : Fs unit :=
  n ← tick;
  let put bytes := modify (set_files <[path := {| fd_bytes := bytes; fd_mtime := host_now n |}]>) in
  if host_fails n then put (String.substring 0 (host_torn n) data);; throw (fault n) else put data.

(** ** atomic.rs *)

Definition TEMP_SUFFIX : string := ".tmp".
Definition MAX_TEMP_AGE : Z := 10 * 60 * 1000000000.
Definition MAX_TEMP_ATTEMPTS : nat := 100.

Definition read (path : Path) : Fs (option string) :=
  r ← attempt (fs_read path);
  match r with
  | Ok bytes => mret (Some bytes)
  | Err e => match io_kind e with NotFound => mret None | _ => throw e end
  end.

Definition fetch_add_temps : Fs Z := fun d =>
  (Ok (d_temps d), {| d_files := d_files d; d_ops := d_ops d; d_temps := u64_add (d_temps d) 1 |}).

Definition temp_name (file_name : string) (nanos counter : Z) : string :=
  "." +:+ file_name +:+ "." +:+ pretty host_pid +:+ "." +:+ pretty nanos +:+ "." +:+ pretty counter +:+ TEMP_SUFFIX.

Fixpoint create_temp_attempts (attempts : nat) (parent file_name : string) : Fs Path :=
  match attempts with
  | O => throw {| io_kind := AlreadyExists; io_message := "could not create a temporary file for " +:+ parent |}
  | S attempts =>
      counter ← fetch_add_temps;
      nanos ← now;
      let candidate := (parent, temp_name file_name nanos counter) in
      r ← attempt (create_new candidate);
      match r with
      | Ok _ => mret candidate
      | Err e => match io_kind e with AlreadyExists => create_temp_attempts attempts parent file_name | _ => throw e end
      end
  end.

Definition create_temp : string -> string -> Fs Path := create_temp_attempts MAX_TEMP_ATTEMPTS.

(** One entry of the directory. *)
Definition remove_stale_temp (prefix : string) (entry : Path) : Fs unit :=
  let name := snd entry in
  if negb (starts_with prefix name) || negb (ends_with TEMP_SUFFIX name) then mret tt
  else
    metadata ← attempt (fallible;; d ← Prelude.get; mret (d_files d !! entry));
    match metadata with
    | Ok (Some f) =>
        t ← now;
        if bool_decide (0 <= t - fd_mtime f /\ MAX_TEMP_AGE < t - fd_mtime f)
        then attempt (remove_file entry);; mret tt
        else mret tt
    | _ => mret tt
    end.

Fixpoint each {S E A} (f : A -> StM S E unit) (l : list A) : StM S E unit :=
  match l with
  | [] => mret tt
  | a :: l => f a;; each f l
  end.

Definition remove_stale_temps (parent file_name : string) : Fs unit :=
  let prefix := "." +:+ file_name +:+ "." in
  listing ← attempt fallible;
  match listing with
  | Err _ => mret tt
  | Ok _ =>
      d ← Prelude.get;
      each (remove_stale_temp prefix) (List.filter (fun p => bool_decide (fst p = parent)) (map fst (map_to_list (d_files d))))
  end.

Definition write_temp (temp : Path) (data : string) (permissions : bool) : Fs unit :=
  write_all temp data;;
  (if permissions then fallible else mret tt);;
  fallible.

Definition write_atomic (path : Path) (data : string) : Fs unit :=
  current ← read path;
  if decide (current = Some data) then mret tt
  else
    fallible;;
    metadata ← attempt fallible;
    there ← exists_ path;
    let permissions := there && is_some (ok metadata) in
    temp ← create_temp (fst path) (snd path);
    written ← attempt (write_temp temp data permissions);
    match written with
    | Err e => attempt (remove_file temp);; throw e
    | Ok _ =>
        renamed ← attempt (rename temp path);
        match renamed with
        | Err e => attempt (remove_file temp);; throw e
        | Ok _ =>
            attempt fallible;;
            remove_stale_temps (fst path) (snd path)
        end
    end.
End host.

(** * Files written as a whole, proofs

    Whatever fails, and wherever the process dies, a file written by
    [write_atomic] has its old bytes or its new ones. *)

Local Open Scope Z_scope.

Definition content (d : Disk) (p : Path) : option string := fd_bytes <$> d_files d !! p.
Definition is_temp (p : Path) : bool := ends_with TEMP_SUFFIX (snd p).

(** ** Programs that keep a relation between the disk before and after *)

Definition Keeps {E A} (R : Disk -> Disk -> Prop) (m : StM Disk E A) : Prop := forall d, R d (snd (m d)).

Lemma keeps_run {E A} R (m : StM Disk E A) d r d' : Keeps R m -> m d = (r, d') -> R d d'.
Proof. intros Hm E0. specialize (Hm d). by rewrite E0 in Hm. Qed.

Create HintDb keeps.

Section rel.
Context (R : Disk -> Disk -> Prop) `{!PreOrder R}.

Lemma keeps_ret {E A} (a : A) : Keeps R (mret a : StM Disk E A).
Proof using Type*. intros d. change (R d d). reflexivity. Qed.

Lemma keeps_throw {E A} (e : E) : Keeps R (throw e : StM Disk E A).
Proof using Type*. intros d. change (R d d). reflexivity. Qed.

Lemma keeps_gets {E A} (f : Disk -> A) : Keeps R (gets f : StM Disk E A).
Proof using Type*. intros d. change (R d d). reflexivity. Qed.

Lemma keeps_get {E} : Keeps R (Prelude.get : StM Disk E Disk).
Proof using Type*. intros d. change (R d d). reflexivity. Qed.

Lemma keeps_bind {E A B} (m : StM Disk E A) (f : A -> StM Disk E B) :
  Keeps R m -> (forall a, Keeps R (f a)) -> Keeps R (mbind f m).
Proof using Type*.
  intros Hm Hf d. specialize (Hm d). unfold mbind, stm_bind. destruct (m d) as [[a|e] d']; cbn in *; [|done].
  etransitivity; [exact Hm|apply Hf].
Qed.

Lemma keeps_attempt {E F A} (m : StM Disk E A) : Keeps R m -> Keeps R (attempt m : StM Disk F _).
Proof using Type*. intros Hm d. specialize (Hm d). unfold attempt. by destruct (m d). Qed.

Lemma keeps_each {E A} (f : A -> StM Disk E unit) l : (forall a, In a l -> Keeps R (f a)) -> Keeps R (each f l).
Proof using Type*.
  induction l as [|a l IH]; intros Hf; cbn [each]; [apply keeps_ret|].
  apply keeps_bind; [apply Hf; by left|]. intros _. apply IH. intros b Hb. apply Hf. by right.
Qed.
End rel.

Ltac keeps_step :=
  lazymatch goal with
  | |- Keeps _ (mret _) => apply keeps_ret; apply _
  | |- Keeps _ (throw _) => apply keeps_throw; apply _
  | |- Keeps _ (gets _) => apply keeps_gets; apply _
  | |- Keeps _ Prelude.get => apply keeps_get; apply _
  | |- Keeps _ (mbind _ _) => apply keeps_bind; [apply _| |intros ?]
  | |- Keeps _ (attempt _) => apply keeps_attempt; [apply _|]
  | |- Keeps _ (match ?x with _ => _ end) => destruct x
  | _ => solve [eauto with keeps]
  end.
Ltac keeps := repeat keeps_step.

(** ** Nothing but temporary files *)

Definition same_files (d d' : Disk) : Prop := forall p, is_temp p = false -> content d' p = content d p.

#[export] Instance same_files_preorder : PreOrder same_files.
Proof. split; [by intros d p|]. intros d1 d2 d3 H12 H23 p Hp. by rewrite H23, H12. Qed.

(** No temporary file is left behind. *)
Definition clean (d : Disk) : Prop := forall p, is_temp p = true -> d_files d !! p = None.
Definition stays_clean (d d' : Disk) : Prop := clean d -> clean d'.

#[export] Instance stays_clean_preorder : PreOrder stays_clean.
Proof. split; [by intros d Hd|]. intros d1 d2 d3 H12 H23 H1. by apply H23, H12. Qed.

(** Operations that look at the disk only. *)
Definition same_disk (d d' : Disk) : Prop := d_files d' = d_files d.

#[export] Instance same_disk_preorder : PreOrder same_disk.
Proof. split; [by intros d|]. intros d1 d2 d3 H12 H23. unfold same_disk in *. congruence. Qed.

Lemma same_disk_content d d' p : same_disk d d' -> content d' p = content d p.
Proof. unfold same_disk, content. by intros ->. Qed.

Section host.
Context `{Host}.

Definition reliable : Prop := forall n, host_fails n = false.
Definition sees (path : Path) : Prop := forall n, host_blind n path = false.

Lemma exists_result {E} path d :
  (exists_ path : StM Disk E bool) d = (Ok (negb (host_blind (d_ops d) path) && bool_decide (is_Some (d_files d !! path))), d).
Proof. done. Qed.
Lemma exists_seen {E} path d : sees path ->
  (exists_ path : StM Disk E bool) d = (Ok (bool_decide (is_Some (d_files d !! path))), d).
Proof. intros Hs. by rewrite exists_result, Hs. Qed.

Lemma keeps_tick {E} : Keeps same_disk (tick : StM Disk E nat).
Proof. done. Qed.
Hint Resolve @keeps_tick : keeps.

Lemma keeps_fallible : Keeps same_disk fallible.
Proof. unfold fallible. keeps. Qed.
Hint Resolve keeps_fallible : keeps.

Lemma keeps_read path : Keeps same_disk (read path).
Proof. unfold read, fs_read. keeps. Qed.

Lemma keeps_now {E} : Keeps same_disk (now : StM Disk E Z).
Proof. done. Qed.

(** A relation on what the files hold. *)
Lemma same_disk_any R `{!PreOrder R} {E A} (m : StM Disk E A) :
  (forall d d', same_disk d d' -> R d d') -> Keeps same_disk m -> Keeps R m.
Proof. intros HR Hm d. by apply HR, Hm. Qed.

Lemma same_disk_files {E A} (m : StM Disk E A) : Keeps same_disk m -> Keeps same_files m.
Proof. apply same_disk_any; [apply _|]. intros d d' Hd p _. by apply same_disk_content. Qed.

Lemma same_disk_clean {E A} (m : StM Disk E A) : Keeps same_disk m -> Keeps stays_clean m.
Proof. apply same_disk_any; [apply _|]. intros d d' Hd Hc p Hp. rewrite Hd. by apply Hc. Qed.

Lemma keeps_modify (f : gmap Path File -> gmap Path File) {E} :
  (forall m p, is_temp p = false -> f m !! p = m !! p) -> Keeps same_files (modify (set_files f) : StM Disk E unit).
Proof. intros Hf d p Hp. unfold modify, content, set_files. cbn. by rewrite Hf. Qed.

Lemma temp_ne p q : is_temp p = true -> is_temp q = false -> p <> q.
Proof. congruence. Qed.

Hint Extern 1 (Keeps same_files _) => apply same_disk_files : keeps.
Hint Extern 1 (Keeps stays_clean _) => apply same_disk_clean : keeps.

Lemma keeps_put p f {E} : is_temp p = true -> Keeps same_files (modify (set_files <[p := f]>) : StM Disk E unit).
Proof. intros Hp. apply keeps_modify. intros m q Hq. by rewrite lookup_insert_ne by congruence. Qed.
Hint Resolve keeps_put : keeps.

Lemma keeps_create_new p : is_temp p = true -> Keeps same_files (create_new p).
Proof. intros Hp. unfold create_new. keeps. Qed.

Lemma keeps_write_all p data : is_temp p = true -> Keeps same_files (write_all p data).
Proof. intros Hp. unfold write_all. keeps. Qed.

Lemma keeps_remove_file p : is_temp p = true -> Keeps same_files (remove_file p).
Proof.
  intros Hp. unfold remove_file. keeps.
  apply keeps_modify. intros m q Hq. by rewrite lookup_delete_ne by congruence.
Qed.

Lemma clean_remove_file p : Keeps stays_clean (remove_file p).
Proof.
  unfold remove_file. keeps.
  intros d1 Hd q Hq. cbn. rewrite lookup_delete_None. right. by apply Hd.
Qed.

Lemma temp_name_temp parent name nanos counter : is_temp (parent, temp_name name nanos counter) = true.
Proof.
  unfold is_temp, temp_name, ends_with. cbn [snd]. rewrite <-!app_assoc_str. by rewrite strip_suffix_app.
Qed.
Hint Resolve keeps_create_new keeps_write_all keeps_remove_file clean_remove_file keeps_read keeps_now temp_name_temp : keeps.

Lemma keeps_fetch_add : Keeps same_disk fetch_add_temps.
Proof. done. Qed.
Hint Resolve keeps_fetch_add : keeps.

Lemma keeps_create_temp n parent name : Keeps same_files (create_temp_attempts n parent name).
Proof. induction n as [|n IH]; cbn [create_temp_attempts]; keeps. Qed.

Lemma create_temp_temp n parent name d p d' : create_temp_attempts n parent name d = (Ok p, d') -> is_temp p = true.
Proof.
  revert d. induction n as [|n IH]; intros d; cbn [create_temp_attempts]; [done|].
  unfold mbind, stm_bind. destruct (fetch_add_temps d) as [[counter|e] d1]; [|done].
  destruct (now d1) as [[nanos|e] d2]; [|done]. unfold attempt at 1.
  destruct (create_new _ d2) as [[[]|e] d3].
  - intros [= <- _]. apply temp_name_temp.
  - destruct (io_kind e); try done. apply IH.
Qed.

Lemma keeps_stale_temp prefix p : Keeps same_files (remove_stale_temp prefix p).
Proof.
  unfold remove_stale_temp. destruct (negb _ || negb _) eqn:E; [keeps|].
  apply orb_false_iff in E as [_ E]. apply negb_false_iff in E. assert (is_temp p = true) by done. keeps.
Qed.

Lemma clean_stale_temp prefix p : Keeps stays_clean (remove_stale_temp prefix p).
Proof. unfold remove_stale_temp. keeps. Qed.
Hint Resolve keeps_stale_temp clean_stale_temp : keeps.

Lemma keeps_stale_temps R `{!PreOrder R} parent name :
  (forall E A (m : StM Disk E A), Keeps same_disk m -> Keeps R m) ->
  (forall prefix p, Keeps R (remove_stale_temp prefix p)) -> Keeps R (remove_stale_temps parent name).
Proof.
  intros HR Hp. unfold remove_stale_temps. keeps.
  apply keeps_each; [apply _|]. intros p _. apply Hp.
Qed.

(** [remove_stale_temps] looks over every failure. *)
Lemma attempt_ok {S E F A} (m : StM S E A) s : exists r s', (attempt m : StM S F _) s = (Ok r, s').
Proof. unfold attempt. destruct (m s) as [r s']. by eexists _, _. Qed.

Definition Total {E A} (m : StM Disk E A) : Prop := forall d, exists a d', m d = (Ok a, d').

Lemma bind_eq {S E A B} (m : StM S E A) (f : A -> StM S E B) s :
  mbind f m s = match m s with (Ok a, s') => f a s' | (Err e, s') => (Err e, s') end.
Proof. done. Qed.

Lemma total_bind {E A B} (m : StM Disk E A) (f : A -> StM Disk E B) :
  Total m -> (forall a, Total (f a)) -> Total (mbind f m).
Proof. intros Hm Hf d. unfold mbind, stm_bind. destruct (Hm d) as (a & d' & ->). apply Hf. Qed.

Lemma total_ret {E A} (a : A) : Total (mret a : StM Disk E A).
Proof. intros d. by eexists _, _. Qed.

Lemma stale_temps_total parent name : Total (remove_stale_temps parent name).
Proof.
  assert (forall prefix p, Total (remove_stale_temp prefix p)) as Hp.
  { intros prefix p. unfold remove_stale_temp. case_match; [apply total_ret|].
    apply total_bind; [intros d; apply attempt_ok|]. intros [[f|]|]; [|apply total_ret..].
    apply total_bind; [intros d; by eexists _, _|]. intros t. case_match; [|apply total_ret].
    apply total_bind; [intros d; apply attempt_ok|]. intros _. apply total_ret. }
  unfold remove_stale_temps. apply total_bind; [intros d; apply attempt_ok|]. intros [_|]; [|apply total_ret].
  apply total_bind; [intros d; by eexists _, _|]. intros d. generalize (List.filter (fun p => bool_decide (fst p = parent)) (map fst (map_to_list (d_files d)))).
  intros l. induction l as [|p l IH]; cbn [each]; [apply total_ret|]. by apply total_bind.
Qed.

Lemma keeps_write_temp p data b : is_temp p = true -> Keeps same_files (write_temp p data b).
Proof. intros Hp. unfold write_temp. keeps. Qed.

(** What a written temporary file holds. *)
Lemma write_temp_content p data b d d' : write_temp p data b d = (Ok tt, d') -> content d' p = Some data.
Proof.
  unfold write_temp. intros E. rewrite bind_eq in E.
  destruct (write_all p data d) as [[u|e] d1] eqn:Ew; [|done].
  assert (content d1 p = Some data) as Hc.
  { unfold write_all in Ew. cbn in Ew. unfold tick, mbind, stm_bind in Ew. cbn in Ew.
    destruct (host_fails (d_ops d)); [done|]. injection Ew as _ <-. unfold content; cbn. by rewrite lookup_insert_eq. }
  rewrite <-Hc. apply same_disk_content. eapply keeps_run; [|exact E]. keeps.
Qed.

(** The rename puts the bytes in place at once. *)
Lemma rename_result a b d r d' :
  rename a b d = (r, d') ->
  match r with
  | Ok _ => (forall p, p <> a -> p <> b -> content d' p = content d p) /\ content d' b = content d a /\
            (a <> b -> d_files d' !! a = None)
  | Err _ => same_disk d d'
  end.
Proof.
  unfold rename. intros E. rewrite bind_eq in E. destruct (fallible d) as [r1 d1] eqn:Ef.
  pose proof (keeps_run _ _ _ _ _ keeps_fallible Ef) as Hd. destruct r1 as [u|e]; [|by injection E as <- <-].
  rewrite bind_eq in E. cbn in E. destruct (d_files d1 !! a) as [f|] eqn:Ea; [|by injection E as <- <-].
  injection E as <- <-. unfold same_disk in Hd. unfold content. cbn. rewrite <-Hd, Ea. split_and!.
  - intros p Hpa Hpb. by rewrite lookup_insert_ne, lookup_delete_ne by congruence.
  - by rewrite lookup_insert_eq.
  - intros Hab. by rewrite lookup_insert_ne, lookup_delete_eq by congruence.
Qed.
(** What a write of [data] to [path] leaves. *)
Definition wrote (path : Path) (data : string) (d : Disk) (out : result IoError unit * Disk) : Prop :=
  (forall q, is_temp q = false -> q <> path -> content (snd out) q = content d q) /\
  match fst out with
  | Ok _ => content (snd out) path = Some data
  | Err _ => content (snd out) path = content d path
  end.

Lemma wrote_from path data d d1 out :
  is_temp path = false -> same_files d d1 -> wrote path data d1 out -> wrote path data d out.
Proof.
  intros Hp Hd [H1 H2]. split; [intros q Hq Hne; by rewrite H1, Hd|].
  destruct (fst out); [done|]. by rewrite H2, Hd.
Qed.

Lemma wrote_err path data d e d' : is_temp path = false -> same_files d d' -> wrote path data d (Err e, d').
Proof. intros Hp Hd. split; [intros q Hq _|]; by apply Hd. Qed.

(** One step that touches temporary files only. *)
Lemma wrote_bind {A} path data (m : Fs A) f d :
  is_temp path = false -> Keeps same_files m ->
  (forall a d1, m d = (Ok a, d1) -> wrote path data d1 (f a d1)) -> wrote path data d (mbind f m d).
Proof.
  intros Hp Hm Hf. rewrite bind_eq. destruct (m d) as [[a|e] d1] eqn:E.
  - pose proof (keeps_run _ _ _ _ _ Hm E) as Hd. by eapply wrote_from, Hf.
  - apply wrote_err; [done|]. by eapply keeps_run.
Qed.

Lemma wrote_cleanup path data temp e d :
  is_temp path = false -> is_temp temp = true -> wrote path data d ((attempt (remove_file temp);; throw e) d).
Proof.
  intros Hp Ht. apply wrote_bind; [done|keeps|]. intros _ d1 _. by apply wrote_err.
Qed.

(** A file is replaced as a whole. Whatever operation of the file system
    fails, and however much of a failed write reaches the disk, [write_atomic]
    leaves every other file (temporary ones apart) as it is, and the file
    itself with the new bytes when it returns [Ok] and with the old ones when
    it returns an error. A process that dies is one whose remaining operations
    all fail: it leaves the old bytes or the new ones. *)
Theorem write_atomic_whole path data d :
  is_temp path = false -> wrote path data d (write_atomic path data d).
Proof.
  intros Hp. unfold write_atomic. apply wrote_bind; [done|keeps|]. intros current d1 Er.
  destruct (decide (current = Some data)) as [->|_].
  { split; [done|]. cbn. unfold read, fs_read in Er. rewrite bind_eq in Er. unfold attempt in Er. rewrite bind_eq in Er.
    destruct (fallible d) as [[u|e] d2]; cbn in Er; [|destruct (io_kind e); done].
    unfold mbind, stm_bind in Er. cbn in Er. destruct (d_files d2 !! path) as [f|] eqn:Ef; [|done].
    injection Er as Er <-. unfold content. by rewrite Ef, <-Er. }
  do 3 (apply wrote_bind; [done|keeps|]; intros ? ? _).
  apply wrote_bind; [done|apply keeps_create_temp|]. intros temp dt Et.
  pose proof (create_temp_temp _ _ _ _ _ _ Et) as Ht. clear Et.
  apply wrote_bind; [done|by apply keeps_attempt; [apply _|by apply keeps_write_temp]|]. intros [[]|e] dw Ew; [|by apply wrote_cleanup].
  assert (content dw temp = Some data) as Hdata.
  { unfold attempt in Ew. destruct (write_temp _ _ _ dt) as [r d4] eqn:E4. injection Ew as -> <-. by eapply write_temp_content. }
  rewrite bind_eq. unfold attempt at 1. destruct (rename temp path dw) as [r dr] eqn:Ern.
  apply rename_result in Ern. destruct r as [[]|e].
  - destruct Ern as (Hoth & Hpath & _). rewrite bind_eq. destruct (attempt_ok (F:=IoError) fallible dr) as (rf & df & Ef). rewrite Ef.
    assert (same_files dr df) as Hrf by (eapply keeps_run; [|exact Ef]; keeps).
    destruct (stale_temps_total (fst path) (snd path) df) as (u & ds & Es). rewrite Es.
    assert (same_files df ds) as Hfs.
    { eapply keeps_run; [|exact Es]. apply keeps_stale_temps; [apply _|intros; by apply same_disk_files|apply keeps_stale_temp]. }
    split; cbn [fst snd].
    + intros q Hq Hne. rewrite Hfs, Hrf by done. apply Hoth; [congruence|done].
    + rewrite Hfs, Hrf by done. by rewrite Hpath.
  - eapply wrote_from; [done| |by apply wrote_cleanup]. intros q _. by apply same_disk_content.
Qed.
(** ** When nothing fails *)

Lemma fallible_reliable d : reliable -> exists d', fallible d = (Ok tt, d') /\ same_disk d d'.
Proof.
  intros Hr. unfold fallible, tick, mbind, stm_bind. cbn. rewrite Hr. by eexists.
Qed.

Lemma attempt_eq {S E F A} (m : StM S E A) s r s' : m s = (r, s') -> (attempt m : StM S F _) s = (Ok r, s').
Proof. unfold attempt. by intros ->. Qed.

Lemma fs_read_reliable path d :
  reliable -> exists d', same_disk d d' /\
    fs_read path d = (match content d path with Some b => Ok b | None => Err not_found end, d').
Proof.
  intros Hr. destruct (fallible_reliable d Hr) as (d' & E & Hd). exists d'. split; [done|].
  unfold fs_read, content, mbind, stm_bind. rewrite E. cbn. rewrite Hd. by destruct (d_files d !! path).
Qed.

Lemma read_reliable path d : reliable -> exists d', read path d = (Ok (content d path), d') /\ same_disk d d'.
Proof.
  intros Hr. destruct (fs_read_reliable path d Hr) as (d' & Hd & E). exists d'. split; [|done].
  unfold read. rewrite bind_eq, (attempt_eq _ _ _ _ E). by destruct (content d path).
Qed.

Lemma create_temp_reliable parent name d :
  reliable -> clean d -> exists temp d', create_temp parent name d = (Ok temp, d') /\ is_temp temp = true /\
    (forall p, p <> temp -> d_files d' !! p = d_files d !! p).
Proof.
  intros Hr Hc. unfold create_temp, MAX_TEMP_ATTEMPTS.
  set (cand := (parent, temp_name name (host_now (d_ops d)) (d_temps d))).
  assert (is_temp cand = true) as Ht by apply temp_name_temp.
  cbn [create_temp_attempts]. unfold fetch_add_temps, now, tick, create_new, attempt, mbind, stm_bind. cbn -[temp_name].
  rewrite Hr. cbn -[temp_name]. fold cand. rewrite (Hc cand Ht). cbn -[temp_name]. fold cand.
  eexists _, _. split_and!; [done|done|]. intros p Hp. cbn. by rewrite lookup_insert_ne by congruence.
Qed.

Lemma write_temp_reliable p data b d :
  reliable -> exists d', write_temp p data b d = (Ok tt, d') /\
    (forall q, q <> p -> d_files d' !! q = d_files d !! q) /\ is_Some (d_files d' !! p).
Proof.
  intros Hr. unfold write_temp. rewrite bind_eq. unfold write_all, tick, mbind, stm_bind. cbn. rewrite Hr. cbn.
  set (d1 := set_files _ _).
  assert (forall q, q <> p -> d_files d1 !! q = d_files d !! q) as H1.
  { intros q Hq. cbn. by rewrite lookup_insert_ne by congruence. }
  assert (is_Some (d_files d1 !! p)) as H2 by (cbn; rewrite lookup_insert_eq; by eexists).
  destruct b; [destruct (fallible_reliable d1 Hr) as (d2 & E2 & Hd2); rewrite E2|cbn].
  - destruct (fallible_reliable d2 Hr) as (d3 & E3 & Hd3). rewrite E3. exists d3. unfold same_disk in *.
    rewrite Hd3, Hd2. done.
  - destruct (fallible_reliable d1 Hr) as (d3 & E3 & Hd3). rewrite E3. exists d3. unfold same_disk in *. by rewrite Hd3.
Qed.

Lemma rename_reliable a b d :
  reliable -> is_Some (d_files d !! a) -> exists d', rename a b d = (Ok tt, d').
Proof.
  intros Hr [f Hf]. unfold rename. rewrite bind_eq. destruct (fallible_reliable d Hr) as (d1 & E1 & Hd1). rewrite E1.
  unfold mbind, stm_bind. cbn. rewrite Hd1, Hf. by eexists.
Qed.

Lemma write_atomic_reliable path data d :
  reliable -> clean d -> is_temp path = false ->
  exists d', write_atomic path data d = (Ok tt, d') /\ clean d'.
Proof.
  intros Hr Hc Hp. unfold write_atomic. rewrite bind_eq.
  destruct (read_reliable path d Hr) as (d1 & E1 & H1). rewrite E1.
  assert (clean d1) as Hc1 by (intros q Hq; rewrite H1; by apply Hc).
  destruct (decide _); [by exists d1|]. rewrite bind_eq.
  destruct (fallible_reliable d1 Hr) as (d2 & E2 & H2). rewrite E2, bind_eq.
  destruct (fallible_reliable d2 Hr) as (d3 & E3 & H3). rewrite (attempt_eq _ _ _ _ E3), bind_eq. cbn [exists_ gets].
  rewrite bind_eq. assert (clean d3) as Hc3 by (intros q Hq; rewrite H3, H2; by apply Hc1).
  destruct (create_temp_reliable (fst path) (snd path) d3 Hr Hc3) as (temp & d4 & E4 & Ht & H4). rewrite E4, bind_eq.
  match goal with |- context [write_temp temp data ?b] => destruct (write_temp_reliable temp data b d4 Hr) as (d5 & E5 & H5 & H5t) end.
  rewrite (attempt_eq _ _ _ _ E5), bind_eq.
  destruct (rename_reliable temp path d5 Hr H5t) as (d6 & E6). rewrite (attempt_eq _ _ _ _ E6), bind_eq.
  assert (clean d6) as Hc6.
  { pose proof (rename_result _ _ _ _ _ E6) as (Hoth & _ & Hgone). intros q Hq.
    destruct (decide (q = temp)) as [->|Hne]; [apply Hgone; congruence|].
    specialize (Hoth q Hne ltac:(congruence)). unfold content in Hoth. rewrite H5, H4, (Hc3 q Hq) in Hoth by done.
    by destruct (d_files d6 !! q). }
  destruct (fallible_reliable d6 Hr) as (d7 & E7 & H7). rewrite (attempt_eq _ _ _ _ E7).
  assert (clean d7) as Hc7 by (intros q Hq; rewrite H7; by apply Hc6).
  destruct (stale_temps_total (fst path) (snd path) d7) as ([] & d8 & E8). rewrite E8. exists d8. split; [done|].
  eapply (keeps_run stays_clean); [|exact E8|done].
  apply keeps_stale_temps; [apply _|intros; by apply same_disk_clean|apply clean_stale_temp].
Qed.
End host.

#[export] Hint Resolve keeps_tick keeps_fallible keeps_read keeps_now : keeps.

(** A host whose operations fail from a number on, and a small disk. *)
Definition host_failing (from : nat) : Host :=
  {| host_fails := fun n => (from <=? n)%nat; host_error := fun _ => "io"; host_torn := fun _ => 2%nat;
     host_blind := fun _ _ => false; host_now := fun n => Z.of_nat n; host_pid := 7 |}.
Definition small_disk : Disk :=
  {| d_files := {[ ("etc", "a.json") := {| fd_bytes := "old"; fd_mtime := 0 |} ]}; d_ops := 0; d_temps := 0 |}.

Lemma write_atomic_whole_witness :
  (let '(_, d) := @write_atomic (host_failing 6) ("etc", "a.json") "new" small_disk in content d ("etc", "a.json") = Some "old") /\
  (let '(_, d) := @write_atomic (host_failing 9) ("etc", "a.json") "new" small_disk in content d ("etc", "a.json") = Some "new").
Proof.
  split.
  - pose proof (proj2 (@write_atomic_whole (host_failing 6) ("etc", "a.json") "new" small_disk eq_refl)) as Hw.
    destruct (@write_atomic (host_failing 6) _ _ _) as [r d] eqn:E. cbn [fst snd] in Hw.
    assert (exists e, r = Err e) as [e ->] by (vm_compute in E; injection E as <- _; by eexists). exact Hw.
  - pose proof (proj2 (@write_atomic_whole (host_failing 9) ("etc", "a.json") "new" small_disk eq_refl)) as Hw.
    destruct (@write_atomic (host_failing 9) _ _ _) as [r d] eqn:E. cbn [fst snd] in Hw.
    assert (r = Ok tt) as -> by (vm_compute in E; by injection E as <- _). exact Hw.
Defined.
