(* ===== verification/Backup.v ===== *)
(** * Recovery stores of the agent wiring

    agent-wiring's backup/: the byte backups of an agent's files
    (snapshot.rs), the values that were there before (stash.rs) and the
    values written last (applied.rs), as files beside what they protect. *)
From Stdlib Require Import ZArith Lia.
From stdpp Require Import gmap pretty.
From S2P Require Import Prelude.
From S2P Require Import RustStd.
From S2P Require Import Atomic.

Local Open Scope Z_scope.

Inductive BackupError : Type := BackupIo (e : IoError) | Corrupt (message : string) | Missing (message : string).

Definition backup_error_text (display : IoError -> string) (e : BackupError) : string :=
  match e with
  | BackupIo e => "io error: " +:+ display e
  | Corrupt message => "corrupt recovery data: " +:+ message
  | Missing message => "missing recovery data: " +:+ message
  end.

(** The [?] operator between two error types. *)
Definition raise {S E F A} (f : E -> F) (m : StM S E A) : StM S F A :=
  fun s => let '(r, s) := m s in (map_err f r, s).

(** An outcome that is not looked at. *)
Definition ignore {S E F A} (m : StM S E A) : StM S F unit := fun s => (Ok tt, snd (m s)).

(** ** Paths *)

Definition with_suffix (path : Path) (suffix : string) : Path := (fst path, snd path +:+ suffix).

(** ** What the two stores hold, per agent *)

Abbreviation Stash := (gmap string (gmap string string)).
Record Entry := { en_value : string; en_at : Z }.
Abbreviation Applied := (gmap string (gmap string Entry)).

Section host.
Context `{Host}.

Definition now_unix {E} : StM Disk E Z := t ← now; mret (t / 1000000000).

(** The first name that is free; the fuel is one more than the files there
    are ([bad_copy_free]: it is enough). *)
Fixpoint bad_copy_from {E} (fuel : nat) (base candidate : Path) (attempt : Z) : StM Disk E Path :=
  match fuel with
  | O => mret candidate
  | S fuel =>
      there ← exists_ candidate;
      if (there : bool) then bad_copy_from fuel base (with_suffix base ("-" +:+ pretty attempt)) (attempt + 1)
      else mret candidate
  end.

Definition bad_copy_path {E} (path : Path) : StM Disk E Path :=
  unix ← now_unix;
  let base := with_suffix path (".bad-" +:+ pretty unix) in
  d ← Prelude.get;
  bad_copy_from (S (size (d_files d))) base base 2.

Definition move_aside (path : Path) : Fs (option Path) :=
  there ← exists_ path;
  if (there : bool) then
    target ← bad_copy_path path;
    rename path target;;
    mret (Some target)
  else mret None.

(** ** Snapshot *)

Definition BACKUP_SUFFIX : string := ".before-any-converter".
Definition ABSENT_SUFFIX : string := ".absent".
Definition backup_path (file : Path) : Path := with_suffix file BACKUP_SUFFIX.
Definition marker_path (file : Path) : Path := with_suffix (backup_path file) ABSENT_SUFFIX.

Definition take_one (file : Path) : StM Disk BackupError unit :=
  backed ← exists_ (backup_path file);
  marked ← exists_ (marker_path file);
  if (backed : bool) || (marked : bool) then mret tt
  else
    r ← attempt (fs_read file);
    match r with
    | Ok bytes => raise BackupIo (write_atomic (backup_path file) bytes)
    | Err e =>
        match io_kind e with
        | NotFound => raise BackupIo (write_atomic (marker_path file) "")
        | _ => throw (BackupIo e)
        end
    end.

Definition take (files : list Path) : StM Disk BackupError unit := each take_one files.

(** The message names the file; it is not looked at. *)
Definition read_backup (file : Path) : StM Disk BackupError (option string) :=
  r ← attempt (fs_read (backup_path file));
  match r with
  | Ok bytes => mret (Some bytes)
  | Err e => match io_kind e with NotFound => mret None | _ => throw (Corrupt (io_message e)) end
  end.

Definition clear {E} (file : Path) : StM Disk E unit :=
  ignore (remove_file (backup_path file));;
  ignore (remove_file (marker_path file)).

Definition preserve_bad {E} (file : Path) : StM Disk E Path :=
  target ← bad_copy_path (backup_path file);
  ignore (rename (backup_path file) target);;
  mret target.

(** ** Stash *)

Definition old_values (s : Stash) (agent : string) : gmap string string := default ∅ (s !! agent).

Definition record_value (ns : gmap string string) (kv : string * string) : gmap string string :=
  let '(key, value) := kv in if is_empty value then delete key ns else <[key := value]> ns.

Definition stash_record (agent : string) (kvs : list (string * string)) (s : Stash) : Stash :=
  <[agent := fold_left record_value kvs (old_values s agent)]> s.

Definition take_namespace (agent : string) (s : Stash) : Stash := delete agent s.

(** ** Applied values *)

Definition record_entry (at_ : Z) (ns : gmap string Entry) (kv : string * string) : gmap string Entry :=
  let '(key, value) := kv in
  if is_empty value then delete key ns else <[key := {| en_value := value; en_at := at_ |}]> ns.

Definition applied_record {E} (agent : string) (kvs : list (string * string)) (a : Applied) : StM Disk E Applied :=
  t ← now_unix;
  mret (<[agent := fold_left (record_entry t) kvs (default ∅ (a !! agent))]> a).

Definition forget (agent : string) (a : Applied) : Applied := delete agent a.

Definition recorded (agent : string) (a : Applied) : gmap string string := en_value <$> default ∅ (a !! agent).

Definition drifted_keys (agent : string) (current : gmap string string) (a : Applied) : gset string :=
  dom (filter (fun '(key, entry) => current !! key <> Some (en_value entry)) (default ∅ (a !! agent))).

(** ** The files of the stash and of the applied values *)

(** The derived serializers and deserializers of the two files. *)
Class StoreJson (A : Type) := {
  to_vec_pretty : A -> result string string;
  from_slice : string -> option A
}.

Section store.
Context {A : Type} `{StoreJson A} (empty : A) (what : string).

Definition store_load {E} (path : Path) : StM Disk E A :=
  r ← attempt (fs_read path);
  mret (match r with Ok bytes => default empty (from_slice bytes) | Err _ => empty end).

Definition store_save (path : Path) (a : A) : StM Disk BackupError unit :=
  r ← attempt (fs_read path);
  (match r with
   | Ok bytes => match from_slice bytes with
                 | None => raise BackupIo (move_aside path);; mret tt
                 | Some _ => mret tt
                 end
   | Err _ => mret tt
   end);;
  bytes ← lift (map_err (fun e => Corrupt ("cannot serialize " +:+ what +:+ ": " +:+ e)) (to_vec_pretty a));
  raise BackupIo (write_atomic path (bytes +:+ newline)).
End store.

Context {stash_json : StoreJson Stash} {applied_json : StoreJson Applied}.

Definition stash_load {E} : Path -> StM Disk E Stash := store_load ∅.
Definition stash_save : Path -> Stash -> StM Disk BackupError unit := store_save "stash".
Definition applied_load {E} : Path -> StM Disk E Applied := store_load ∅.
Definition applied_save : Path -> Applied -> StM Disk BackupError unit := store_save "audit".
End host.

(** * Recovery stores of the agent wiring, proofs

    What each operation leaves alone, and that a copy put aside never lands on
    a file that is there. *)

Local Open Scope Z_scope.

(** ** Numbers in names *)

Lemma pretty_N_go_no_byte c x s :
  (forall y, pretty_N_char y <> c) -> str_in c s = false -> str_in c (pretty_N_go x s) = false.
Proof.
  intros Hc. revert s. induction (N.lt_wf_0 x) as [x _ IH]. intros s Hs.
  destruct (decide (x = 0%N)) as [->|Hx]; [done|]. rewrite pretty_N_go_step by lia.
  apply IH; [apply N.div_lt; lia|]. apply str_in_cons_false. split; [by intros ->; eapply Hc|done].
Qed.

Lemma pretty_no_p (z : Z) : str_in "p" (pretty z) = false.
Proof.
  assert (forall y, pretty_N_char y <> "p"%char) as Hc by (intros y; unfold pretty_N_char; by repeat case_match).
  assert (forall n : N, str_in "p" (pretty n) = false) as Hn.
  { intros n. unfold pretty, pretty_N. destruct (decide (n = 0%N)); [done|]. by apply pretty_N_go_no_byte. }
  unfold pretty, pretty_Z. destruct z; [done|apply Hn|].
  change (str_in "p" (String "-" (pretty (N.pos p))) = false). apply str_in_cons_false. split; [done|apply Hn].
Qed.

Lemma not_temp_suffix dir a b : str_in "p" b = false -> b <> "" -> is_temp (dir, a +:+ b) = false.
Proof.
  intros Hb Hne. destruct (string_snoc b) as [->|(b' & c & ->)]; [done|].
  rewrite str_in_app in Hb. apply orb_false_iff in Hb as [_ Hc]. apply str_in_cons_false in Hc as [Hc _].
  unfold is_temp, ends_with, strip_suffix. cbn [snd]. rewrite <-app_assoc_str, rev_app_str.
  change (String.rev (String c "")) with (String c ""). rewrite app_cons_str. cbn. by rewrite decide_False by congruence.
Qed.

(** ** Copies put aside *)

Definition bad (path : Path) (q : Path) : Prop := exists sfx, q = with_suffix path (".bad-" +:+ sfx).

Section host.
Context `{Host}.

Lemma app_cancel_l (a b c : string) : a +:+ b = a +:+ c -> b = c.
Proof. induction a as [|x a IH]; [by rewrite !app_nil_l_str|]. rewrite !app_cons_str. intros [= E]. by apply IH. Qed.

Definition candidate (base : Path) (k : nat) : Path :=
  match k with O => base | S k => with_suffix base ("-" +:+ pretty (Z.of_nat k + 2)) end.

Lemma candidate_inj base : Inj (=) (=) (candidate base).
Proof.
  assert (forall s, base <> with_suffix base ("-" +:+ s)) as Hne.
  { intros s E. apply (f_equal (fun p => String.length (snd p))) in E. unfold with_suffix in E. cbn in E.
    rewrite !length_app_str in E. change (String.length "-") with 1%nat in E. lia. }
  intros [|j] [|k] E; [done|by apply Hne in E|by symmetry in E; apply Hne in E|].
  unfold candidate, with_suffix in E. injection E as E. apply app_cancel_l in E. rewrite !app_cons_str, !app_nil_l_str in E.
  injection E as E. apply (inj pretty) in E. lia.
Qed.

(** Where the search stops: at a free name, or when it has looked at as many
    as its fuel. *)
Lemma bad_copy_from_spec {E} fuel base k d q d' :
  (bad_copy_from fuel base (candidate base k) (Z.of_nat k + 2) : StM Disk E Path) d = (Ok q, d') ->
  d' = d /\ exists j, q = candidate base j /\
    (sees q -> d_files d !! q = None \/ forall i, (k <= i < k + fuel)%nat -> is_Some (d_files d !! candidate base i)).
Proof.
  revert k. induction fuel as [|fuel IH]; intros k Eq; cbn [bad_copy_from] in Eq.
  - injection Eq as <- <-. split; [done|]. exists k. split; [done|]. right. lia.
  - rewrite bind_eq, exists_result in Eq. destruct (host_blind (d_ops d) (candidate base k)) eqn:Eb; cbn [negb andb] in Eq.
    { injection Eq as <- <-. split; [done|]. exists k. split; [done|]. intros Hb. by rewrite Hb in Eb. }
    destruct (bool_decide_reflect (is_Some (d_files d !! candidate base k))) as [Hs|Hs].
    + assert (with_suffix base ("-" +:+ pretty (Z.of_nat k + 2)) = candidate base (S k)) as Ec
        by done.
      rewrite Ec in Eq. replace (Z.of_nat k + 2 + 1) with (Z.of_nat (S k) + 2) in Eq by lia.
      destruct (IH (S k) Eq) as (-> & j & -> & Hor). split; [done|]. exists j. split; [done|].
      intros Hb. destruct (Hor Hb) as [?|Hall]; [by left|right]. intros i Hi.
      destruct (decide (i = k)) as [->|]; [done|]. apply Hall. lia.
    + injection Eq as <- <-. split; [done|]. exists k. split; [done|]. intros _. left. by destruct (d_files d !! _) eqn:?; [exfalso; apply Hs|].
Qed.
(** The name chosen is free, where the system can tell: one more candidate is
    looked at than there are files. *)
Lemma bad_copy_free {E} path d q d' :
  (bad_copy_path path : StM Disk E Path) d = (Ok q, d') ->
  same_disk d d' /\ (sees q -> d_files d !! q = None) /\ bad path q /\ is_temp q = false.
Proof.
  unfold bad_copy_path. rewrite bind_eq. unfold now_unix. rewrite bind_eq. cbn [now]. unfold now. rewrite bind_eq. cbn [tick].
  set (d1 := {| d_files := d_files d; d_ops := S (d_ops d); d_temps := d_temps d |}). cbn [mret stm_ret].
  rewrite bind_eq. cbn [Prelude.get]. set (base := with_suffix path _). intros Eq.
  apply (bad_copy_from_spec _ base 0) in Eq as (-> & j & -> & Hor). split; [done|]. split_and!.
  - intros Hb. destruct (Hor Hb) as [Hn|Hall]; [exact Hn|]. exfalso.
    set (n := S (size (d_files d1))) in *.
    assert (NoDup (candidate base <$> seq 0 n)) as Hnd.
    { apply NoDup_fmap_2; [apply candidate_inj|apply NoDup_seq]. }
    assert (list_to_set (candidate base <$> seq 0 n) ⊆ dom (d_files d1)) as Hsub.
    { intros q Hq. apply elem_of_list_to_set, list_elem_of_fmap in Hq as (i & -> & Hi%elem_of_seq).
      apply elem_of_dom, Hall. lia. }
    apply subseteq_size in Hsub. rewrite size_list_to_set, length_fmap, length_seq, size_dom in Hsub by done. lia.
  - destruct j as [|j]; unfold bad, candidate, base, with_suffix; cbn [fst snd].
    + by eexists.
    + eexists. f_equal. rewrite !app_assoc_str. done.
  - destruct j as [|j]; unfold candidate, base, with_suffix; cbn [fst snd].
    + apply not_temp_suffix; [|done]. by rewrite str_in_app, pretty_no_p.
    + apply not_temp_suffix; [|done]. by rewrite str_in_app, pretty_no_p.
Qed.

Lemma bad_copy_total {E} path : Total (bad_copy_path path : StM Disk E Path).
Proof.
  assert (forall fuel base cand n, Total (bad_copy_from fuel base cand n : StM Disk E Path)) as Hf.
  { induction fuel as [|fuel IH]; intros base cand n; cbn [bad_copy_from]; [apply total_ret|].
    apply total_bind; [intros d; by eexists _, _|]. intros [|]; [apply IH|apply total_ret]. }
  unfold bad_copy_path, now_unix. apply total_bind; [apply total_bind; [intros d; by eexists _, _|intros; apply total_ret]|].
  intros u. apply total_bind; [intros d; by eexists _, _|]. intros d. apply Hf.
Qed.

(** ** What stays as it is *)

(** The files of [Q] hold what they held. *)
Definition same_at (Q : Path -> Prop) (d d' : Disk) : Prop :=
  forall p, is_temp p = false -> Q p -> content d' p = content d p.

(** The files of [Q] that are there hold what they held. *)
Definition keep_at (Q : Path -> Prop) (d d' : Disk) : Prop :=
  forall p b, is_temp p = false -> Q p -> content d p = Some b -> content d' p = Some b.

#[export] Instance same_at_preorder Q : PreOrder (same_at Q).
Proof. split; [by intros d p|]. intros d1 d2 d3 H12 H23 p Hp Hq. by rewrite H23, H12. Qed.

#[export] Instance keep_at_preorder Q : PreOrder (keep_at Q).
Proof. split; [by intros d p b|]. intros d1 d2 d3 H12 H23 p b Hp Hq Hc. by apply H23, H12. Qed.

Lemma same_keep Q {E A} (m : StM Disk E A) : Keeps (same_at Q) m -> Keeps (keep_at Q) m.
Proof. intros Hm d p b Hp Hq Hc. by rewrite (Hm d p Hp Hq). Qed.

Lemma same_disk_at Q {E A} (m : StM Disk E A) : Keeps same_disk m -> Keeps (same_at Q) m.
Proof. apply same_disk_any; [apply _|]. intros d d' Hd p _ _. by apply same_disk_content. Qed.

Lemma keeps_raise R {E F A} (f : E -> F) (m : StM Disk E A) : Keeps R m -> Keeps R (raise f m).
Proof. intros Hm d. specialize (Hm d). unfold raise. by destruct (m d). Qed.

Lemma keeps_ignore R {E F A} (m : StM Disk E A) : Keeps R m -> Keeps R (ignore m : StM Disk F unit).
Proof. intros Hm d. apply Hm. Qed.

Lemma same_fs_read Q p : Keeps (same_at Q) (fs_read p).
Proof. apply same_disk_at. unfold fs_read. keeps. Qed.

Lemma same_read Q p : Keeps (same_at Q) (read p).
Proof. apply same_disk_at, keeps_read. Qed.

Lemma same_write_atomic (Q : Path -> Prop) p data :
  is_temp p = false -> ~ Q p -> Keeps (same_at Q) (write_atomic p data).
Proof.
  intros Hp Hq d q Hqt HQ. destruct (write_atomic_whole p data d Hp) as [Hoth _]. apply Hoth; [done|]. by intros ->.
Qed.

Lemma same_remove_file (Q : Path -> Prop) p : ~ Q p -> Keeps (same_at Q) (remove_file p).
Proof.
  intros Hq. unfold remove_file. keeps; [apply same_disk_at, keeps_fallible|].
  intros d q _ HQ. unfold content, modify, set_files. cbn. rewrite lookup_delete_ne; [done|]. by intros ->.
Qed.

Lemma same_clear (Q : Path -> Prop) {E} f :
  ~ Q (backup_path f) -> ~ Q (marker_path f) -> Keeps (same_at Q) (clear f : StM Disk E unit).
Proof. intros Hb Hm. unfold clear. keeps; by apply keeps_ignore, same_remove_file. Qed.

Lemma same_rename (Q : Path -> Prop) a b : ~ Q a -> ~ Q b -> Keeps (same_at Q) (rename a b).
Proof.
  intros Ha Hb d q _ HQ. destruct (rename a b d) as [r d'] eqn:Er. apply rename_result in Er. cbn.
  destruct r; [apply Er; congruence|]. by apply same_disk_content.
Qed.
(** A file moved to a name chosen by [bad_copy_path]. *)
Lemma moved_aside Q path q d d1 r d' :
  same_disk d d1 -> (sees q -> d_files d !! q = None) -> bad path q -> ~ Q path -> rename path q d1 = (r, d') ->
  (sees q -> keep_at Q d d') /\ ((forall q, bad path q -> ~ Q q) -> same_at Q d d').
Proof.
  intros Hd Hq Hb Hp Er. apply rename_result in Er. destruct r as [u|e].
  - destruct Er as (Hoth & _). split.
    + intros Hs p b Hpt HQ Hc. rewrite Hoth; [by rewrite (same_disk_content _ _ _ Hd)|congruence|].
      intros ->. unfold content in Hc. by rewrite Hq in Hc.
    + intros HQb p Hpt HQ. rewrite Hoth; [by apply same_disk_content|congruence|]. intros ->. by apply (HQb q).
  - assert (same_disk d d') as Hdd by (etransitivity; done). split.
    + intros _ p b _ _ Hc. by rewrite (same_disk_content _ _ _ Hdd).
    + intros _ p _ _. by apply same_disk_content.
Qed.

Lemma preserve_bad_at (Q : Path -> Prop) {E} f :
  ~ Q (backup_path f) ->
  ((forall q, bad (backup_path f) q -> sees q) -> Keeps (keep_at Q) (preserve_bad f : StM Disk E Path)) /\
  ((forall q, bad (backup_path f) q -> ~ Q q) -> Keeps (same_at Q) (preserve_bad f : StM Disk E Path)).
Proof.
  intros Hb. unfold preserve_bad. split; intros HQ d; rewrite bind_eq.
  all: destruct (bad_copy_total (E:=E) (backup_path f) d) as (q & d1 & Eq); rewrite Eq.
  all: apply bad_copy_free in Eq as (Hd & Hq & Hbad & _); rewrite bind_eq; unfold ignore; cbn.
  all: destruct (rename _ _ d1) as [r d'] eqn:Er; cbn.
  all: destruct (moved_aside Q _ _ _ _ _ _ Hd Hq Hbad Hb Er) as [Hk Hs]; first [by apply Hk, HQ|by apply Hs].
Qed.

(** The backup moved aside is in its new place. *)
Lemma preserve_bad_held {E} f d b :
  content d (backup_path f) = Some b ->
  let d' := snd ((preserve_bad f : StM Disk E Path) d) in
  exists q, is_temp q = false /\ content d' q = Some b /\ (q = backup_path f \/ bad (backup_path f) q).
Proof.
  intros Hc. unfold preserve_bad. rewrite bind_eq.
  destruct (bad_copy_total (E:=E) (backup_path f) d) as (q & d1 & Eq). rewrite Eq.
  apply bad_copy_free in Eq as (Hd & Hq & Hbad & Ht). rewrite bind_eq. unfold ignore. cbn.
  destruct (rename _ _ d1) as [[u|e] d'] eqn:Er; cbn; apply rename_result in Er.
  - exists q. destruct Er as (_ & Hcq & _). split_and!; [done| |by right].
    by rewrite Hcq, (same_disk_content _ _ _ Hd).
  - exists (backup_path f). split_and!; [|by rewrite (same_disk_content _ _ _ Er), (same_disk_content _ _ _ Hd)|by left].
    by apply not_temp_suffix.
Qed.

Lemma move_aside_at (Q : Path -> Prop) path :
  ~ Q path ->
  ((forall q, bad path q -> sees q) -> Keeps (keep_at Q) (move_aside path)) /\ ((forall q, bad path q -> ~ Q q) -> Keeps (same_at Q) (move_aside path)).
Proof.
  intros Hb. unfold move_aside, exists_.
  split; intros HQ; (apply keeps_bind; [apply _|keeps|]); intros [|]; [|keeps| |keeps]; intros d; rewrite bind_eq.
  all: destruct (bad_copy_total (E:=IoError) path d) as (q & d1 & Eq); rewrite Eq.
  all: apply bad_copy_free in Eq as (Hd & Hq & Hbad & _); rewrite bind_eq.
  all: destruct (rename _ _ d1) as [r d'] eqn:Er.
  all: destruct (moved_aside Q _ _ _ _ _ _ Hd Hq Hbad Hb Er) as [Hk Hs]; destruct r; cbn; auto.
Qed.

Section store.
Context {A : Type} {json : StoreJson A}.

Lemma keeps_store_load Q (empty : A) {E} path : Keeps (same_at Q) (store_load empty path : StM Disk E A).
Proof. unfold store_load. keeps. apply same_fs_read. Qed.

Lemma store_save_keep (Q : Path -> Prop) what path (a : A) :
  is_temp path = false -> ~ Q path -> (forall q, bad path q -> sees q) -> Keeps (keep_at Q) (store_save what path a).
Proof.
  intros Ht Hq Hs. unfold store_save. keeps.
  - apply same_keep, same_fs_read.
  - by apply keeps_raise, move_aside_at.
  - intros d. apply keep_at_preorder.
  - by apply keeps_raise, same_keep, same_write_atomic.
Qed.

Lemma store_save_same (Q : Path -> Prop) what path (a : A) :
  is_temp path = false -> ~ Q path -> (forall q, bad path q -> ~ Q q) -> Keeps (same_at Q) (store_save what path a).
Proof.
  intros Ht Hq Hb. unfold store_save. keeps.
  - apply same_fs_read.
  - by apply keeps_raise, move_aside_at.
  - intros d. apply same_at_preorder.
  - by apply keeps_raise, same_write_atomic.
Qed.
End store.
End host.
