(* ===== verification/Wiring.v ===== *)
(** * Connecting an agent to the gateway and back

    agent-wiring's wiring.rs: an agent is connected over a byte snapshot of
    its files and disconnected by taking the gateway's keys out, after which a
    file that means what it meant before gets its old bytes back. What the
    agent's files say is the agent's specification, an interface here. *)
From Stdlib Require Import ZArith Lia.
From stdpp Require Import gmap.
From S2P Require Import Prelude.
From S2P Require Import RustStd.
From S2P Require Import Json.
From S2P Require Import Utf8.
From S2P Require EnvEdit.
From S2P Require Jsonc.
From S2P Require Import Atomic.
From S2P Require Import Backup.

Local Open Scope Z_scope.

Inductive EditError : Type := EditParse (message : string) | EditNotFound (message : string).

Inductive WiringError : Type :=
  | AgentAbsent (agent : string)
  | WBackup (e : BackupError)
  | WEdit (e : EditError)
  | WIo (e : IoError)
  | StashMissing (agent : string)
  | ModelNotFound (model : string)
  | NoCatalog
  | Refused (reason : string).

Record ConnectReport := { cr_files_written : list Path }.
Record DisconnectReport := { dr_files_written : list Path; dr_kept_backup : list Path; dr_warnings : list string }.

(** [AgentSpec], for one home directory and one gateway. The two operations
    get the file of the stash, which [StashScope] sets around them. *)
Record AgentSpec := {
  sp_id : string;
  sp_config_files : list Path;
  sp_connect : Path -> StM Disk WiringError (list Path);
  sp_disconnect : Path -> StM Disk WiringError (list Path);
  sp_applied_values : Disk -> gmap string string * Disk
}.

Record Wiring := { w_stash_file : Path; w_applied_file : Path }.

(** ** What a document means *)

(** toml_edit: a text as a document, that is its printed form and whether its
    table is empty. *)
Class TomlEdit := toml_document : string -> option (string * bool).

(** [Path::extension]; a dot in front begins no extension. *)
Definition extension (path : Path) : string :=
  match rsplit_once "." (snd path) with
  | Some (stem, ext) => if is_empty stem then "" else ext
  | None => ""
  end.

Definition is_dotenv (path : Path) : bool := bool_decide (snd path = ".env").

Definition trim_start (s : string) : string := trim_start_of white_space s.

(** The key a line of a dotenv file assigns, as [normalize_env] sees it. *)
Definition env_line_key (line : string) : option string :=
  let line := trim_start line in
  if is_empty line || starts_with "#" line then None
  else
    let line := trim_start (default line (strip_prefix "export " line)) in
    '(key, _) ← split_once "=" line;
    let key := trim key in
    if is_empty key then None else Some key.

Definition normalize_env (text : string) : gmap string string :=
  foldr (fun key m => match EnvEdit.get text key with Some v => <[key := v]> m | None => m end)
    ∅ (omap env_line_key (lines text)).

Fixpoint empty_json_value (v : Value) : bool :=
  match v with
  | VNull => true
  | VObject map => (fix all m := match m with [] => true | (_, v) :: m => empty_json_value v && all m end) map
  | VArray items => match items with [] => true | _ => false end
  | _ => false
  end.

Section wiring.
Context `{Host} `{SerdeJson} `{TomlEdit} {stash_json : StoreJson Stash} {applied_json : StoreJson Applied}.

Definition normalize_json (text : string) : option string := Jsonc.get text "".

Definition normalize_toml (text : string) : option string :=
  '(printed, _) ← toml_document (trim_start_of [EnvEdit.BOM] text);
  Some (trim (replace crlf newline printed)).

Definition semantically_equal (path : Path) (left right : string) : bool :=
  if decide (left = right) then true
  else if is_utf8 left && is_utf8 right then
    if decide (extension path = "json") then bool_decide (normalize_json left = normalize_json right)
    else if decide (extension path = "toml") then bool_decide (normalize_toml left = normalize_toml right)
    else if is_dotenv path then bool_decide (normalize_env left = normalize_env right)
    else false
  else false.

Definition is_empty_json (text : string) : bool :=
  match normalize_json text with
  | None => false
  | Some normalized =>
      match value_from_str normalized with
      | Ok value => empty_json_value value
      | Err _ => false
      end
  end.

Definition is_empty_document (path : Path) (bytes : string) : bool :=
  if negb (is_utf8 bytes) then false
  else if decide (extension path = "json") then is_empty (trim bytes) || is_empty_json bytes
  else if decide (extension path = "toml") then
    is_empty (trim bytes) ||
    match toml_document (trim_start_of [EnvEdit.BOM] bytes) with Some (_, empty) => empty | None => false end
  else is_empty (trim bytes).

(** ** Connect *)

Definition has_absent_marker {E} (file : Path) : StM Disk E bool := exists_ (marker_path file).

Definition remove_if_exists (path : Path) : StM Disk WiringError unit :=
  r ← attempt (remove_file path);
  match r with
  | Ok _ => mret tt
  | Err e => match io_kind e with NotFound => mret tt | _ => throw (WIo e) end
  end.

Definition restore_one {E} (file : Path) : StM Disk E unit :=
  backup ← attempt (read_backup file);
  match backup with
  | Err _ => mret tt
  | Ok backup =>
      current ← attempt (read file);
      match current with
      | Err _ => mret tt
      | Ok current =>
          match backup, current with
          | Some backup_bytes, Some current_bytes =>
              if decide (backup_bytes <> current_bytes) then ignore (write_atomic file backup_bytes) else mret tt
          | Some backup_bytes, None => ignore (write_atomic file backup_bytes)
          | None, Some _ => ignore (remove_file file)
          | None, None => mret tt
          end
      end
  end.

Definition restore_after_failed_connect {E} (files : list Path) : StM Disk E unit := each restore_one files.

Definition connect (w : Wiring) (spec : AgentSpec) : StM Disk WiringError ConnectReport :=
  let files := sp_config_files spec in
  raise WBackup (take files);;
  r ← attempt (sp_connect spec (w_stash_file w));
  match r with
  | Ok files_written =>
      values ← (fun d => let '(a, d) := sp_applied_values spec d in (Ok a, d));
      applied ← applied_load (w_applied_file w);
      applied ← applied_record (sp_id spec) (map_to_list values) applied;
      raise WBackup (applied_save (w_applied_file w) applied);;
      mret {| cr_files_written := files_written |}
  | Err error =>
      restore_after_failed_connect files;;
      throw error
  end.

(** ** Disconnect *)

(** Warnings and kept backups so far. *)
Abbreviation Found := (list string * list Path)%type.

Definition keep_backup (file : Path) (found : Found) : Found := (fst found, snd found ++ [file]).

Definition settle_file (file : Path) (found : Found) : StM Disk WiringError Found :=
  backup ← attempt (read_backup file);
  match backup with
  | Err _ =>
      preserve_bad file;;
      mret (fst found ++ ["backup_corrupt"], snd found)
  | Ok backup =>
      current ← raise WIo (read file);
      match backup, current with
      | Some backup_bytes, Some current_bytes =>
          if decide (current_bytes = backup_bytes) then clear file;; mret found
          else if semantically_equal file current_bytes backup_bytes then
            raise WIo (write_atomic file backup_bytes);;
            clear file;;
            mret found
          else mret (keep_backup file found)
      | Some _, None => mret (keep_backup file found)
      | None, Some current_bytes =>
          marked ← has_absent_marker file;
          if negb marked then mret found
          else if is_empty_document file current_bytes then
            remove_if_exists file;;
            clear file;;
            mret found
          else mret (keep_backup file found)
      | None, None =>
          marked ← has_absent_marker file;
          (if (marked : bool) then clear file else mret tt);;
          mret found
      end
  end.

Fixpoint settle_files (files : list Path) (found : Found) : StM Disk WiringError Found :=
  match files with
  | [] => mret found
  | file :: files => found ← settle_file file found; settle_files files found
  end.

Definition disconnect (w : Wiring) (spec : AgentSpec) : StM Disk WiringError DisconnectReport :=
  let files := sp_config_files spec in
  stash ← stash_load (w_stash_file w);
  files_written ← sp_disconnect spec (w_stash_file w);
  let warnings := if decide (old_values stash (sp_id spec) = ∅) then ["stash_missing"] else [] in
  found ← settle_files files (warnings, []);
  let '(warnings, kept_backup) := found in
  let warnings := match kept_backup with [] => warnings | _ => warnings ++ ["kept_backup"] end in
  stash ← stash_load (w_stash_file w);
  raise WBackup (stash_save (w_stash_file w) (take_namespace (sp_id spec) stash));;
  applied ← applied_load (w_applied_file w);
  raise WBackup (applied_save (w_applied_file w) (forget (sp_id spec) applied));;
  mret {| dr_files_written := files_written; dr_kept_backup := kept_backup; dr_warnings := warnings |}.
End wiring.
