(* ===== verification/WiringProps.v ===== *)
(** * Connecting an agent and back, proofs

    The bytes an agent's file had before the gateway are never lost, and come
    back. *)
From Stdlib Require Import ZArith Lia.
From stdpp Require Import gmap.
From S2P Require Import Prelude.
From S2P Require Import RustStd.
From S2P Require Import Json.
From S2P Require Import Concrete.
From S2P Require EnvEdit.
From S2P Require Import Atomic.
From S2P Require Import Backup.
From S2P Require Import Wiring.

Local Open Scope Z_scope.

(** ** Paths apart *)

Lemma backup_inj f g : backup_path f = backup_path g -> f = g.
Proof.
  destruct f as [d f], g as [d' g]. unfold backup_path, with_suffix. cbn [fst snd]. intros [= -> E]. f_equal.
  apply (f_equal (strip_suffix BACKUP_SUFFIX)) in E. rewrite !strip_suffix_app in E. by injection E.
Qed.

Lemma marker_inj f g : marker_path f = marker_path g -> f = g.
Proof.
  destruct f as [d f], g as [d' g]. unfold marker_path, backup_path, with_suffix. cbn [fst snd].
  rewrite !app_assoc_str. intros [= -> E]. f_equal.
  apply (f_equal (strip_suffix (BACKUP_SUFFIX +:+ ABSENT_SUFFIX))) in E. rewrite !strip_suffix_app in E. by injection E.
Qed.

Lemma backup_marker f g : backup_path f <> marker_path g.
Proof.
  intros E. apply (f_equal (fun p => ends_with BACKUP_SUFFIX (snd p))) in E.
  unfold marker_path, backup_path, with_suffix, ends_with in E. cbn [snd] in E. rewrite strip_suffix_app in E.
  unfold strip_suffix in E. rewrite rev_app_str in E. cbn in E. done.
Qed.

Lemma backup_not_temp f : is_temp (backup_path f) = false.
Proof. apply not_temp_suffix; done. Qed.

Lemma marker_not_temp f : is_temp (marker_path f) = false.
Proof. apply (not_temp_suffix (fst f) (snd f +:+ BACKUP_SUFFIX)); done. Qed.

(** The three files of one file: itself, its backup and its marker. *)
Definition three (f p : Path) : Prop := p = f \/ p = backup_path f \/ p = marker_path f.

(** How an agent's files lie: none is a temporary file, none is another's
    backup or marker, and neither the stores nor the copies put aside fall on
    one of them. *)
Record laid_out (w : Wiring) (files : list Path) : Prop := {
  lo_nodup : NoDup files;
  lo_temp f : f ∈ files -> is_temp f = false;
  lo_apart f g : f ∈ files -> g ∈ files -> f <> backup_path g /\ f <> marker_path g;
  lo_store_temp : is_temp (w_stash_file w) = false /\ is_temp (w_applied_file w) = false;
  lo_store f p : f ∈ files -> three f p \/ bad (backup_path f) p ->
    p <> w_stash_file w /\ p <> w_applied_file w /\ ~ bad (w_stash_file w) p /\ ~ bad (w_applied_file w) p;
  lo_bad f g p : f ∈ files -> g ∈ files -> bad (backup_path f) p -> ~ three g p
}.

(** What an agent's specification touches: its files and the stash. *)
Definition elsewhere (w : Wiring) (files : list Path) (p : Path) : Prop :=
  (p ∉ files) /\ p <> w_stash_file w /\ ~ bad (w_stash_file w) p.

Record spec_laws (w : Wiring) (spec : AgentSpec) : Prop := {
  sl_connect : Keeps (same_at (elsewhere w (sp_config_files spec))) (sp_connect spec (w_stash_file w));
  sl_disconnect : Keeps (same_at (elsewhere w (sp_config_files spec))) (sp_disconnect spec (w_stash_file w));
  sl_applied d : same_files d (snd (sp_applied_values spec d))
}.

(** ** Running a sequence *)

Lemma bind_inv {S E A B} (m : StM S E A) (f : A -> StM S E B) s r s' :
  mbind f m s = (r, s') ->
  (exists e, m s = (Err e, s') /\ r = Err e) \/ exists a s1, m s = (Ok a, s1) /\ f a s1 = (r, s').
Proof. rewrite bind_eq. destruct (m s) as [[a|e] s1]; [by right; exists a, s1|]. intros [= <- <-]. left. by exists e. Qed.

Lemma attempt_inv {S E F A} (m : StM S E A) s (x : result F (result E A)) s' :
  attempt m s = (x, s') -> exists r, x = Ok r /\ m s = (r, s').
Proof. unfold attempt. destruct (m s) as [r s1]. intros [= <- <-]. by exists r. Qed.

Lemma raise_inv {S E F A} (f : E -> F) (m : StM S E A) s x s' :
  raise f m s = (x, s') -> exists r, m s = (r, s') /\ x = map_err f r.
Proof. unfold raise. destruct (m s) as [r s1]. intros [= <- <-]. by exists r. Qed.

Section host.
Context `{Host}.

(** What a read returns. *)
Lemma fs_read_result p d r d' :
  fs_read p d = (r, d') ->
  same_disk d d' /\ match r with
                    | Ok b => content d p = Some b
                    | Err e => io_kind e = Other \/ (io_kind e = NotFound /\ content d p = None)
                    end.
Proof.
  intros E. assert (same_disk d d') as Hd by (eapply keeps_run; [|exact E]; unfold fs_read; keeps).
  split; [done|]. unfold fs_read, fallible in E.
  apply bind_inv in E as [(e & E & ->)|([] & d1 & E1 & E)].
  - apply bind_inv in E as [(e' & E & [= ->])|(n & d2 & [= <- <-] & E)]; [done|].
    destruct (host_fails _); [|done]. injection E as <- _. by left.
  - unfold same_disk in Hd. unfold mbind, stm_bind in E. cbn in E. unfold content.
    destruct (d_files d1 !! p) as [f|] eqn:Ef; injection E as <- <-; rewrite <-Hd, Ef; [done|by right].
Qed.

Lemma read_result p d r d' :
  read p d = (r, d') -> same_disk d d' /\ match r with Ok b => content d p = b | Err _ => True end.
Proof.
  intros E. split; [by eapply keeps_run; [|exact E]; apply keeps_read|]. unfold read in E.
  apply bind_inv in E as [(e & E & ->)|(x & d1 & E1 & E)]; [done|].
  apply attempt_inv in E1 as (r1 & [= ->] & E1). apply fs_read_result in E1 as [_ Hr].
  destruct r1 as [b|e]; [by injection E as <- _|].
  destruct Hr as [Hk|[Hk Hc]]; rewrite Hk in E; injection E as <- _; done.
Qed.

Lemma read_backup_result f d r d' :
  read_backup f d = (r, d') ->
  same_disk d d' /\ match r with Ok b => content d (backup_path f) = b | Err _ => True end.
Proof.
  intros E. unfold read_backup in E. apply bind_inv in E as [(e & E & _)|(x & d1 & E1 & E)];
    [by apply attempt_inv in E as (r1 & ? & _)|].
  apply attempt_inv in E1 as (r1 & [= ->] & E1). apply fs_read_result in E1 as [Hd Hr].
  destruct r1 as [b|e]; [by injection E as <- <-|].
  destruct Hr as [Hk|[Hk Hc]]; rewrite Hk in E; injection E as <- <-; done.
Qed.

(** ** The snapshot *)

(** What [take] makes of one file. *)
Definition taken (f : Path) (d d' : Disk) : Prop :=
  content d' f = content d f /\
  if decide (content d (backup_path f) = None /\ content d (marker_path f) = None) then
    match content d f with
    | Some b => content d' (backup_path f) = Some b /\ content d' (marker_path f) = None
    | None => content d' (backup_path f) = None /\ content d' (marker_path f) = Some ""
    end
  else content d' (backup_path f) = content d (backup_path f) /\ content d' (marker_path f) = content d (marker_path f).

Lemma content_present p d : bool_decide (is_Some (d_files d !! p)) = false <-> content d p = None.
Proof. unfold content. rewrite bool_decide_eq_false, eq_None_not_Some, fmap_is_Some. done. Qed.

(** The looks whether a file's backup and marker are there succeed. *)
Definition seen (f : Path) : Prop := sees (backup_path f) /\ sees (marker_path f).

Lemma take_one_result f d r d' :
  seen f -> is_temp f = false -> f <> backup_path f -> f <> marker_path f -> take_one f d = (r, d') ->
  match r with Ok _ => taken f d d' | Err _ => same_files d d' end.
Proof.
  intros [Hsb Hsm] Ht Hfb Hfm E. unfold take_one in E. rewrite bind_eq, (exists_seen _ _ Hsb), bind_eq, (exists_seen _ _ Hsm) in E.
  destruct (_ || _) eqn:Eb.
  { injection E as <- <-. split; [done|]. rewrite decide_False; [done|]. intros [H1 H2].
    apply content_present in H1, H2. by rewrite H1, H2 in Eb. }
  apply orb_false_iff in Eb as [Hb%content_present Hm%content_present].
  apply bind_inv in E as [(e & E & _)|(x & d1 & E1 & E)]; [by apply attempt_inv in E as (r1 & ? & _)|].
  apply attempt_inv in E1 as (r1 & [= ->] & E1). apply fs_read_result in E1 as [Hd Hr].
  assert (forall p, content d1 p = content d p) as Hdc by (intros p; by apply same_disk_content).
  assert (forall p data out, is_temp p = false -> write_atomic p data d1 = out -> wrote p data d1 out) as Hw
    by (intros p data out Hp <-; by apply write_atomic_whole).
  assert (forall p data r, is_temp p = false -> raise BackupIo (write_atomic p data) d1 = (r, d') ->
    (forall q, is_temp q = false -> q <> p -> content d' q = content d q) /\
    match r with Ok _ => content d' p = Some data | Err _ => content d' p = content d p end) as Hput.
  { intros p data r0 Hp Er. apply raise_inv in Er as (r2 & Er & ->). destruct (Hw _ _ _ Hp Er) as [Hoth Hp']. cbn in Hoth, Hp'.
    split; [intros q Hq Hne; by rewrite Hoth, Hdc|]. destruct r2; [done|]. by cbn; rewrite Hp', Hdc. }
  pose proof (backup_not_temp f) as Hbt. pose proof (marker_not_temp f) as Hmt. pose proof (backup_marker f f) as Hbm.
  destruct r1 as [b|e].
  - destruct (Hput _ _ _ Hbt E) as [Hoth Hp]. destruct r as [[]|e].
    + split; [by apply Hoth|]. rewrite decide_True, Hr by done. split; [done|]. by rewrite Hoth by congruence.
    + intros q Hq. destruct (decide (q = backup_path f)) as [->|]; [done|by apply Hoth].
  - destruct Hr as [Hk|[Hk Hc]]; rewrite Hk in E.
    + injection E as <- <-. intros q _. apply Hdc.
    + destruct (Hput _ _ _ Hmt E) as [Hoth Hp]. destruct r as [[]|e'].
      * split; [by apply Hoth|]. rewrite decide_True, Hc by done. split; [by rewrite Hoth|done].
      * intros q Hq. destruct (decide (q = marker_path f)) as [->|]; [done|by apply Hoth].
Qed.

Lemma take_one_elsewhere (Q : Path -> Prop) f :
  ~ Q (backup_path f) -> ~ Q (marker_path f) -> Keeps (same_at Q) (take_one f).
Proof.
  intros Hb Hm. unfold take_one, exists_. keeps.
  - apply same_fs_read.
  - apply keeps_raise, same_write_atomic; [apply backup_not_temp|done].
  - apply keeps_raise, same_write_atomic; [apply marker_not_temp|done].
Qed.

Lemma three_not_temp w files f p : laid_out w files -> f ∈ files -> three f p -> is_temp p = false.
Proof. intros Hl Hf [->|[->| ->]]; [by eapply lo_temp|apply backup_not_temp|apply marker_not_temp]. Qed.

(** The three files of one are none of another's. *)
Lemma three_apart w files f g : laid_out w files -> f ∈ files -> g ∈ files -> f <> g -> forall p, three f p -> ~ three g p.
Proof.
  intros Hl Hf Hg Hne p Hp Hq.
  destruct (lo_apart _ _ Hl f g Hf Hg) as [H1 H2]. destruct (lo_apart _ _ Hl g f Hg Hf) as [H3 H4].
  pose proof (backup_marker f g). pose proof (backup_marker g f).
  pose proof (backup_inj f g). pose proof (marker_inj f g).
  destruct Hp as [->|[->| ->]], Hq as [?|[?|?]]; try congruence; auto.
Qed.

Lemma taken_same f d d1 d2 d' :
  (forall p, three f p -> content d1 p = content d p) -> (forall p, three f p -> content d' p = content d2 p) ->
  taken f d1 d2 -> taken f d d'.
Proof.
  intros H1 H2. unfold taken.
  rewrite <-(H1 f), <-(H1 (backup_path f)), <-(H1 (marker_path f)) by (unfold three; tauto).
  by rewrite (H2 f), (H2 (backup_path f)), (H2 (marker_path f)) by (unfold three; tauto).
Qed.

(** [take], file by file: a file is taken or as it was, and all are taken when
    it succeeds. *)
Lemma take_result w files f : laid_out w files -> f ∈ files -> seen f ->
  forall d r d', take files d = (r, d') ->
  taken f d d' \/ ((forall p, three f p -> content d' p = content d p) /\ r <> Ok tt).
Proof.
  intros Hl Hf Hseen. pose proof (lo_nodup _ _ Hl) as Hnd.
  assert (forall l, l ⊆ files -> NoDup l -> f ∈ l -> forall d r d', take l d = (r, d') ->
    taken f d d' \/ ((forall p, three f p -> content d' p = content d p) /\ r <> Ok tt)) as Hgen; [|by apply Hgen].
  clear Hnd. induction l as [|g l IH]; intros Hsub Hnd Hin d r d' E; [by apply not_elem_of_nil in Hin|].
  apply list.NoDup_cons in Hnd as [Hgl Hnd]. assert (g ∈ files) as Hg by (apply Hsub; by left).
  cbn [take each] in E. unfold take in E. cbn [each] in E.
  assert (forall x, x ∈ files -> f <> x -> Keeps (same_at (three f)) (take_one x)) as Hother.
  { intros x Hx Hne. apply take_one_elsewhere; intros Ht; eapply (three_apart _ _ f x Hl Hf Hx Hne); [exact Ht|unfold three; auto|exact Ht|unfold three; auto]. }
  apply bind_inv in E as [(e & E & ->)|([] & d1 & E1 & E)].
  - right. split; [|done]. intros p Hp. destruct (decide (f = g)) as [<-|Hne].
    + destruct (lo_apart _ _ Hl f f Hf Hf) as [Ha Hb].
      apply take_one_result in E; [|done|exact (lo_temp _ _ Hl f Hf)|done|done]. apply E. by apply (three_not_temp w files f p Hl Hf).
    + eapply (keeps_run (same_at (three f))); [by apply Hother|exact E|by apply (three_not_temp w files f p Hl Hf)|done].
  - destruct (decide (f = g)) as [<-|Hne].
    + destruct (lo_apart _ _ Hl f f Hf Hf) as [Ha Hb]. left.
      apply take_one_result in E1; [|done|exact (lo_temp _ _ Hl f Hf)|done|done]. eapply taken_same; [by intros p _| |exact E1].
      intros p Hp. eapply (keeps_run (same_at (three f))); [|exact E|by apply (three_not_temp w files f p Hl Hf)|done].
      apply keeps_each; [apply _|]. intros x Hx%list_elem_of_In. apply Hother; [apply Hsub; by right|]. by intros ->.
    + assert (forall p, three f p -> content d1 p = content d p) as H1.
      { intros p Hp. eapply (keeps_run (same_at (three f))); [by apply Hother|exact E1|by apply (three_not_temp w files f p Hl Hf)|done]. }
      apply list.elem_of_cons in Hin as [->|Hin]; [done|].
      destruct (IH ltac:(intros x Hx; apply Hsub; by right) Hnd Hin d1 r d' E) as [Ht|[Hs Hr]].
      * left. by eapply taken_same; [exact H1|by intros p _|].
      * right. split; [|done]. intros p Hp. by rewrite Hs, H1.
Qed.

Lemma restore_elsewhere (Q : Path -> Prop) f {E} :
  is_temp f = false -> ~ Q f -> Keeps (same_at Q) (restore_one f : StM Disk E unit).
Proof.
  intros Ht Hf. unfold restore_one, read_backup. keeps; first [apply same_fs_read|apply same_read|apply keeps_ignore].
  all: first [by apply same_write_atomic|by apply same_remove_file].
Qed.

Section wiring.
Context `{SerdeJson} `{TomlEdit} {stash_json : StoreJson Stash} {applied_json : StoreJson Applied}.
Context (w : Wiring) (files : list Path).
Hypothesis Hl : laid_out w files.

Lemma backup_elsewhere f p : f ∈ files -> p = backup_path f \/ p = marker_path f -> elsewhere w files p.
Proof using Hl.
  intros Hf Hp. destruct (lo_store _ _ Hl f p Hf) as (Hns & _ & Hnb & _); [unfold three; tauto|].
  split_and!; [|done|done]. intros Hin. destruct (lo_apart _ _ Hl p f Hin Hf). tauto.
Qed.

(** What comes behind the snapshot leaves backups and markers alone. *)
Lemma connect_rest spec (Q : Path -> Prop) :
  sp_config_files spec = files -> spec_laws w spec ->
  (forall p, Q p -> elsewhere w files p /\ p <> w_applied_file w /\ ~ bad (w_applied_file w) p) ->
  forall d d1 r d', take files d = (Ok tt, d1) -> connect w spec d = (r, d') -> same_at Q d1 d'.
Proof using Hl.
  intros Hfiles Hs HQ d d1 r d' Et Ec. unfold connect in Ec. rewrite Hfiles in Ec. rewrite bind_eq in Ec.
  unfold raise at 1 in Ec. rewrite Et in Ec. cbn [map_err] in Ec. revert Ec.
  match goal with |- ?m d1 = _ -> _ => assert (Keeps (same_at Q) m) as Hk; [|intros Ec; by eapply keeps_run] end.
  destruct (lo_store_temp _ _ Hl) as [Hst Hat].
  assert (forall m, Keeps (same_at (elsewhere w files)) m -> Keeps (same_at Q) (m : StM Disk WiringError (list Path))) as Hmono.
  { intros m Hm x p Hp Hq. by apply Hm, HQ. }
  apply keeps_bind; [apply _|apply keeps_attempt; [apply _|apply Hmono; rewrite <-Hfiles; apply Hs]|].
  intros [written|e].
  - apply keeps_bind; [apply _| |].
    { intros x p Hp _. pose proof (sl_applied _ _ Hs x p Hp) as Hx. by destruct (sp_applied_values spec x). }
    intros values. apply keeps_bind; [apply _|apply keeps_store_load|]. intros applied.
    apply keeps_bind; [apply _|by apply same_disk_at|]. intros applied'.
    apply keeps_bind; [apply _| |intros; apply keeps_ret, _].
    apply keeps_raise, store_save_same; [done| |]; intros; intros Hq; apply HQ in Hq as (_ & ? & ?); congruence || done.
  - apply keeps_bind; [apply _| |intros; apply keeps_throw, _].
    apply keeps_each; [apply _|]. intros f Hf%list_elem_of_In. apply restore_elsewhere; [by apply (lo_temp _ _ Hl)|].
    intros Hq. apply HQ in Hq as [[Hn _] _]. done.
Qed.

(** The bytes a file had before the gateway: in its backup, or, while it has
    neither backup nor marker, in the file. *)
Definition recoverable (f : Path) (b : string) (d : Disk) : Prop :=
  content d (backup_path f) = Some b \/
  content d (backup_path f) = None /\ content d (marker_path f) = None /\ content d f = Some b.

Lemma taken_recoverable f b d d' : taken f d d' -> recoverable f b d -> content d' (backup_path f) = Some b.
Proof.
  intros [_ Ht] [Hb|(Hb & Hm & Hf)].
  - rewrite decide_False in Ht; [by rewrite (proj1 Ht)|]. intros [? _]. congruence.
  - rewrite decide_True, Hf in Ht by done. apply Ht.
Qed.

(** C35: Connecting never loses what was there before. Let a covered file hold
    some bytes and have neither a backup nor a marker that it was absent (a
    disconnect that keeps a file leaves that marker), or have those bytes in its
    backup. However often an agent is then connected, whatever the gateway
    writes, and whatever read, write, rename or removal fails in whichever
    attempt (a crash included), as long as the looks whether the backup and the
    marker are there succeed, those bytes are in the backup, or still in the
    file itself while it has neither backup nor marker. *)
Theorem connect_recoverable specs f b d :
  Forall (fun spec => sp_config_files spec = files /\ spec_laws w spec) specs ->
  f ∈ files -> seen f -> recoverable f b d ->
  recoverable f b (fold_left (fun d spec => snd (connect w spec d)) specs d).
Proof using Hl.
  intros Hspecs Hf Hseen. revert d. induction Hspecs as [|spec specs [Hfiles Hs] _ IH]; intros d Hr; [done|].
  cbn [fold_left]. apply IH. destruct (connect w spec d) as [r d'] eqn:Ec. cbn [snd].
  destruct (take files d) as [rt d1] eqn:Et.
  pose proof (take_result w files f Hl Hf Hseen d rt d1 Et) as Hor. destruct rt as [[]|e].
  - destruct Hor as [Ht|[_ Hn]]; [|done]. left. rewrite <-(taken_recoverable f b d d1 Ht Hr).
    eapply (connect_rest spec (fun p => p = backup_path f)); try done; [|apply backup_not_temp].
    intros p ->. destruct (lo_store _ _ Hl f (backup_path f) Hf) as (_ & ? & _ & ?); [unfold three; tauto|].
    split_and!; [|done|done]. apply (backup_elsewhere f); auto.
  - unfold connect in Ec. rewrite Hfiles, bind_eq in Ec. unfold raise at 1 in Ec. rewrite Et in Ec. injection Ec as _ <-.
    destruct Hor as [Ht|[Hsame _]]; [left; by eapply taken_recoverable|].
    unfold recoverable. by rewrite !Hsame by (unfold three; tauto).
Qed.

(** ** Disconnecting *)

Lemma settle_keep (Q : Path -> Prop) g found :
  is_temp g = false -> (forall p, three g p -> ~ Q p) -> (forall p, bad (backup_path g) p -> sees p) ->
  Keeps (keep_at Q) (settle_file g found).
Proof.
  intros Ht HQ Hsees. assert (~ Q g /\ ~ Q (backup_path g) /\ ~ Q (marker_path g)) as (Hg & Hb & Hm)
    by (split_and!; apply HQ; unfold three; auto).
  assert (forall E, Keeps (keep_at Q) (clear g : StM Disk E unit)) as Hclear by (intros; by apply same_keep, same_clear).
  unfold settle_file, read_backup, has_absent_marker, exists_, remove_if_exists. keeps.
  all: first [apply Hclear|apply preserve_bad_at; done|idtac].
  all: first [apply same_keep, same_fs_read|apply keeps_raise, same_keep, same_read|idtac].
  all: first [by apply keeps_raise, same_keep, same_write_atomic|by apply same_keep, same_remove_file|idtac].
Qed.

Lemma settle_same (Q : Path -> Prop) g found :
  is_temp g = false -> (forall p, three g p -> ~ Q p) -> (forall p, bad (backup_path g) p -> ~ Q p) ->
  Keeps (same_at Q) (settle_file g found).
Proof.
  intros Ht HQ HB. assert (~ Q g /\ ~ Q (backup_path g) /\ ~ Q (marker_path g)) as (Hg & Hb & Hm)
    by (split_and!; apply HQ; unfold three; auto).
  assert (forall E, Keeps (same_at Q) (clear g : StM Disk E unit)) as Hclear by (intros; by apply same_clear).
  unfold settle_file, read_backup, has_absent_marker, exists_, remove_if_exists. keeps.
  all: first [apply Hclear|apply preserve_bad_at; done|idtac].
  all: first [apply same_fs_read|apply keeps_raise, same_read|idtac].
  all: first [by apply keeps_raise, same_write_atomic|by apply same_remove_file|idtac].
Qed.

(** Where the bytes of a file are once it was settled. *)
Definition held (f : Path) (b : string) (d : Disk) : Prop :=
  exists p, is_temp p = false /\ content d p = Some b /\ (p = f \/ p = backup_path f \/ bad (backup_path f) p).

Lemma held_backup f b d : content d (backup_path f) = Some b -> held f b d.
Proof. intros Hc. exists (backup_path f). split_and!; [apply backup_not_temp|done|tauto]. Qed.

Lemma settle_held f b found d :
  is_temp f = false -> f <> backup_path f -> f <> marker_path f ->
  content d (backup_path f) = Some b -> held f b (snd (settle_file f found d)).
Proof.
  intros Ht Hfb Hfm Hc. unfold settle_file. rewrite bind_eq. unfold attempt at 1.
  destruct (read_backup f d) as [rb d1] eqn:Eb. apply read_backup_result in Eb as [Hd1 Hb].
  assert (content d1 (backup_path f) = Some b) as Hc1 by (by rewrite (same_disk_content _ _ _ Hd1)).
  destruct rb as [backup|e].
  2: { rewrite bind_eq. pose proof (preserve_bad_held (E:=WiringError) f d1 b Hc1) as Hp.
       destruct (preserve_bad f d1) as [[q|e'] d2]; destruct Hp as (p & ? & ? & Hp); exists p; cbn in *; tauto. }
  rewrite Hb in Hc. subst backup. rewrite bind_eq. unfold raise at 1.
  destruct (read f d1) as [rc d2] eqn:Er. apply read_result in Er as [Hd2 Hcur].
  assert (content d2 (backup_path f) = Some b) as Hc2 by (by rewrite (same_disk_content _ _ _ Hd2)).
  destruct rc as [current|e]; cbn [map_err]; [|by apply held_backup].
  assert (forall E d, content d f = Some b -> held f b (snd ((clear f : StM Disk E unit) d))) as Hclear.
  { intros E0 x Hx. exists f. split_and!; [done| |by left]. rewrite <-Hx.
    apply (same_clear (fun p => p = f)); try done; congruence. }
  destruct current as [c|]; [|by apply held_backup].
  destruct (decide (c = b)) as [->|_].
  - rewrite bind_eq. specialize (Hclear WiringError d2). rewrite (same_disk_content _ _ _ Hd2) in Hclear.
    destruct (clear f d2) as [[]]; cbn in *; by apply Hclear.
  - destruct (semantically_equal f c b); [|by apply held_backup]. rewrite bind_eq. unfold raise at 1.
    destruct (write_atomic_whole f b d2 Ht) as [Hoth Hw]. destruct (write_atomic f b d2) as [[u|e] d3]; cbn in *.
    + specialize (Hclear WiringError d3 Hw). rewrite bind_eq. destruct (clear f d3) as [[]]; cbn in *; done.
    + apply held_backup. by rewrite Hoth; [|apply backup_not_temp|congruence].
Qed.

Lemma not_three_bad f g p : f ∈ files -> g ∈ files -> f <> g ->
  three g p -> ~ (p = f \/ p = backup_path f \/ bad (backup_path f) p).
Proof using Hl.
  intros Hf Hg Hne Hp [->|[->|Hb]].
  - by apply (three_apart w files f g Hl Hf Hg Hne f); [left|].
  - by apply (three_apart w files f g Hl Hf Hg Hne (backup_path f)); [right; left|].
  - by apply (lo_bad _ _ Hl f g p).
Qed.

Lemma settle_files_held f b l found d : (forall p, sees p) ->
  l ⊆ files -> NoDup l -> f ∈ files ->
  (f ∈ l -> content d (backup_path f) = Some b) -> (f ∉ l -> held f b d) ->
  held f b (snd (settle_files l found d)).
Proof using Hl.
  intros Hsees Hsub Hnd Hf. revert found d. induction l as [|g l IH]; intros found d Hin Hout;
    [by apply Hout, not_elem_of_nil|]. apply list.NoDup_cons in Hnd as [Hgl Hnd].
  assert (g ∈ files) as Hg by (apply Hsub; by left). assert (l ⊆ files) as Hsub' by (intros x Hx; apply Hsub; by right).
  cbn [settle_files]. rewrite bind_eq.
  pose proof (lo_temp _ _ Hl g Hg) as Ht. destruct (lo_apart _ _ Hl g g Hg Hg) as [Hgb Hgm].
  assert (match settle_file g found d with (_, d1) => (f ∈ l -> content d1 (backup_path f) = Some b) /\ (f ∉ l -> held f b d1) end) as Hstep.
  { destruct (decide (f = g)) as [<-|Hne].
    - pose proof (settle_held f b found d Ht Hgb Hgm (Hin ltac:(by left))) as Hh.
      destruct (settle_file f found d) as [r d1]. cbn in Hh. by split.
    - pose proof (settle_keep (fun p => p = f \/ p = backup_path f \/ bad (backup_path f) p) g found Ht
        (fun p Hp => not_three_bad f g p Hf Hg Hne Hp) ltac:(auto) d) as Hk.
      destruct (settle_file g found d) as [r d1]. cbn in Hk. split.
      + intros Hfl. apply Hk; [apply backup_not_temp|tauto|]. apply Hin. by right.
      + intros Hfl. destruct Hout as (p & Hpt & Hc & Hp); [by intros [?|?]%list.elem_of_cons|].
        exists p. split_and!; [done|by apply Hk|done]. }
  destruct (settle_file g found d) as [[found'|e] d1]; cbn [snd]; destruct Hstep as [H1' H2'].
  - by apply IH.
  - destruct (decide (f ∈ l)) as [Hfl|Hfl]; [by apply held_backup, H1'|by apply H2'].
Qed.

Lemma store_saves Q spec : (forall p, sees p) -> (forall p, Q p -> p <> w_stash_file w /\ p <> w_applied_file w) ->
  forall found, Keeps (keep_at Q) (
    stash ← stash_load (w_stash_file w);
    raise WBackup (stash_save (w_stash_file w) (take_namespace (sp_id spec) stash));;
    applied ← applied_load (w_applied_file w);
    raise WBackup (applied_save (w_applied_file w) (forget (sp_id spec) applied));;
    mret (found : DisconnectReport)).
Proof using Hl.
  intros Hsees HQ found. destruct (lo_store_temp _ _ Hl). keeps.
  - apply same_keep, keeps_store_load.
  - apply keeps_raise, store_save_keep; [done| |auto]. intros Hq. by apply HQ in Hq as [? _].
  - apply same_keep, keeps_store_load.
  - apply keeps_raise, store_save_keep; [done| |auto]. intros Hq. by apply HQ in Hq as [_ ?].
Qed.

(** Disconnecting never loses what was there before. Whatever read, write,
    rename or removal fails (a crash included), as long as the looks whether a
    path is there succeed, the bytes in a file's backup
    are, after [disconnect], in the file, still in the backup, or in the copy
    of the backup put aside beside it. *)
Theorem disconnect_recoverable spec f b d : (forall p, sees p) ->
  sp_config_files spec = files -> spec_laws w spec -> f ∈ files ->
  content d (backup_path f) = Some b -> held f b (snd (disconnect w spec d)).
Proof using Hl.
  intros Hsees Hfiles Hs Hf Hc. unfold disconnect. rewrite Hfiles, bind_eq.
  destruct (stash_load (w_stash_file w) d) as [[stash|e] d0] eqn:E0.
  all: assert (same_disk d d0) as Hd0 by (eapply keeps_run; [|exact E0]; unfold stash_load, store_load, fs_read; keeps).
  all: assert (content d0 (backup_path f) = Some b) as Hc0 by (by rewrite (same_disk_content _ _ _ Hd0)).
  2: { by apply held_backup. }
  rewrite bind_eq. destruct (sp_disconnect spec (w_stash_file w) d0) as [r1 d1] eqn:E1.
  assert (content d1 (backup_path f) = Some b) as Hc1.
  { rewrite <-Hc0. apply (keeps_run _ _ _ _ _ (sl_disconnect _ _ Hs) E1); [apply backup_not_temp|].
    rewrite Hfiles. apply (backup_elsewhere f); auto. }
  destruct r1 as [written|e]; [|by apply held_backup]. rewrite bind_eq.
  match goal with |- context [settle_files files ?fd d1] =>
    pose proof (settle_files_held f b files fd d1 Hsees ltac:(done) (lo_nodup _ _ Hl) Hf (fun _ => Hc1) ltac:(done)) as Hh;
    destruct (settle_files files fd d1) as [[[ws kept]|e] d2] end; cbn [snd] in Hh; [|done].
  destruct Hh as (p & Hpt & Hcp & Hp). exists p. split_and!; [done| |done].
  eapply (store_saves (fun p => p = f \/ p = backup_path f \/ bad (backup_path f) p)); [done| |done|done|done].
  intros q Hq. destruct (lo_store _ _ Hl f q Hf) as (? & ? & _); [unfold three; tauto|done].
Qed.

Lemma remove_if_exists_result f d d' : remove_if_exists f d = (Ok tt, d') -> content d' f = None.
Proof.
  unfold remove_if_exists. intros E. apply bind_inv in E as [(e' & _ & [=])|(x & d1 & E1 & E)].
  apply attempt_inv in E1 as (r & [= ->] & E1). assert (d' = d1) as ->.
  { destruct r as [u|e]; [by injection E|]. destruct (io_kind e); by injection E. }
  unfold remove_file in E1. apply bind_inv in E1 as [(e & Ef & ->)|(u & d2 & Ef & E1)].
  - exfalso. unfold fallible in Ef. apply bind_inv in Ef as [(e' & [=] & _)|(n & d3 & [= <- <-] & Ef)].
    destruct (host_fails _); [|done]. injection Ef as <- _. done.
  - unfold mbind, stm_bind in E1. cbn in E1. unfold content. destruct (d_files d2 !! f) eqn:El; injection E1 as <- <-.
    + cbn. by rewrite lookup_delete_eq.
    + by rewrite El.
Qed.

(** What is found is only added to. *)
Lemma settle_grows f found d found' d' :
  settle_file f found d = (Ok found', d') -> exists ws ks, found' = (fst found ++ ws, snd found ++ ks).
Proof.
  clear Hl files w. intros E.
  assert (found' = found \/ found' = keep_backup f found \/ found' = (fst found ++ ["backup_corrupt"], snd found)) as Hor.
  { revert E. unfold settle_file. intros E.
    repeat match goal with
    | E : mbind _ _ _ = (Ok _, _) |- _ => apply bind_inv in E as [(? & _ & [=])|(? & ? & _ & E)]
    | E : match ?x with _ => _ end _ = (Ok _, _) |- _ => destruct x
    | E : mret _ _ = (Ok _, _) |- _ => injection E as <- _
    end; auto. }
  destruct Hor as [->|[->| ->]].
  - exists [], []. destruct found. by rewrite !app_nil_r.
  - exists [], [f]. unfold keep_backup. by rewrite app_nil_r.
  - exists ["backup_corrupt"], []. by rewrite app_nil_r.
Qed.

Lemma settle_files_grows l found d found' d' :
  settle_files l found d = (Ok found', d') -> exists ws ks, found' = (fst found ++ ws, snd found ++ ks).
Proof.
  clear Hl files w. revert found d. induction l as [|f l IH]; intros found d E; cbn [settle_files] in E.
  - injection E as <- _. exists [], []. destruct found. by rewrite !app_nil_r.
  - apply bind_inv in E as [(e & _ & [=])|(found1 & d1 & E1 & E)].
    apply settle_grows in E1 as (ws & ks & ->). apply IH in E as (ws' & ks' & ->).
    exists (ws ++ ws'), (ks ++ ks'). cbn. by rewrite !app_assoc.
Qed.

(** What settling a file does when it ends well and the backup was readable. *)
Lemma settle_result f b found d found' d' :
  sees (marker_path f) -> is_temp f = false -> f <> backup_path f -> f <> marker_path f ->
  content d (backup_path f) = b -> (b = None -> content d (marker_path f) = Some "") ->
  settle_file f found d = (Ok found', d') -> 
  "backup_corrupt" ∈ fst found' \/
  f ∈ snd found' /\ content d' (backup_path f) = b \/ content d' f = b.
Proof.
  clear Hl files w. intros Hsm Ht Hfb Hfm Hc Hm. unfold settle_file, has_absent_marker. rewrite bind_eq. unfold attempt at 1.
  destruct (read_backup f d) as [rb d1] eqn:Eb. apply read_backup_result in Eb as [Hd1 Hb].
  assert (forall p, content d1 p = content d p) as Hc1 by (intros; by apply same_disk_content).
  destruct rb as [backup|e].
  2: { intros E. apply bind_inv in E as [(e' & _ & [=])|(q & d2 & _ & [= <- <-])].
       left. cbn. set_solver. }
  assert (backup = b) as -> by congruence. rewrite bind_eq. unfold raise at 1.
  destruct (read f d1) as [rc d2] eqn:Er. apply read_result in Er as [Hd2 Hcur].
  assert (forall p, content d2 p = content d p) as Hc2 by (intros; rewrite <-Hc1; by apply same_disk_content).
  destruct rc as [current|e]; cbn [map_err]; [|done].
  assert (forall E x r x', (clear f : StM Disk E unit) x = (r, x') -> content x' f = content x f) as Hclear.
  { intros E0 x r x' Ex. eapply (keeps_run (same_at (fun p => p = f))); [|exact Ex|done|done].
    apply same_clear; congruence. }
  assert (forall x, "backup_corrupt" ∈ fst (keep_backup f found) \/
    f ∈ snd (keep_backup f found) /\ content d2 (backup_path f) = b \/ content x f = b) as Hkeep.
  { intros x. right; left. split; [cbn; set_solver|by rewrite Hc2]. }
  destruct b as [b|], current as [c|]; cbn -[clear].
  - destruct (decide (c = b)) as [->|_].
    + intros E. apply bind_inv in E as [(e' & _ & [=])|(u & d3 & E & [= <- <-])].
      right; right. by rewrite (Hclear _ _ _ _ E), Hc2, <-Hc1.
    + destruct (semantically_equal f c b); [|intros [= <- <-]; apply Hkeep]. intros E.
      apply bind_inv in E as [(e' & _ & [=])|(u & d3 & E & E')]. apply raise_inv in E as (r3 & E & Er3).
      destruct r3; [|done]. apply bind_inv in E' as [(e' & _ & [=])|(u2 & d4 & E2 & [= <- <-])].
      right; right. rewrite (Hclear _ _ _ _ E2).
      pose proof (proj2 (write_atomic_whole f b d2 Ht)) as Hw. by rewrite E in Hw.
  - intros [= <- <-]. apply Hkeep.
  - intros E. rewrite bind_eq, (exists_seen _ _ Hsm) in E.
    assert (bool_decide (is_Some (d_files d2 !! marker_path f)) = true) as Hmk.
    { apply not_false_iff_true. rewrite content_present, Hc2, Hm; done. }
    rewrite Hmk in E. cbn [negb] in E. destruct (is_empty_document f c); [|injection E as <- <-; apply Hkeep].
    apply bind_inv in E as [(e' & _ & [=])|(u & d3 & Erm & E)].
    apply bind_inv in E as [(e' & _ & [=])|(u2 & d4 & E & [= <- <-])].
    right; right. rewrite (Hclear _ _ _ _ E). destruct u. by eapply remove_if_exists_result.
  - intros E. rewrite bind_eq, (exists_seen _ _ Hsm) in E.
    apply bind_inv in E as [(e' & _ & [=])|(u & d4 & E & [= <- <-])]. right; right.
    assert (content d2 f = None) as Hn by (by rewrite Hc2, <-Hc1).
    destruct (bool_decide _); [by rewrite (Hclear _ _ _ _ E)|by injection E as _ <-].
Qed.

(** Settling one file changes nothing of another's three. *)
Lemma settle_other f g found : f ∈ files -> g ∈ files -> f <> g -> Keeps (same_at (three f)) (settle_file g found).
Proof using Hl.
  intros Hf Hg Hne. apply settle_same; [by apply (lo_temp _ _ Hl)| |].
  - intros p Hp Hq. by eapply (three_apart w files f g Hl Hf Hg Hne).
  - intros p Hp. by apply (lo_bad _ _ Hl g f).
Qed.

Lemma settle_files_other f l found :
  f ∈ files -> (forall g, g ∈ l -> g ∈ files /\ f <> g) -> Keeps (same_at (three f)) (settle_files l found).
Proof using Hl.
  intros Hf. revert found. induction l as [|g l IH]; intros found Hg; cbn [settle_files]; [keeps|].
  apply keeps_bind; [apply _| |].
  - destruct (Hg g) as [Hgf Hne]; [by left|]. by apply settle_other.
  - intros found'. apply IH. intros x Hx. apply Hg. by right.
Qed.

(** What is to come back to a file: its backup's bytes, or nothing where a
    marker says there was none. *)
Definition pristine (f : Path) (b : option string) (d : Disk) : Prop :=
  content d (backup_path f) = b /\ (b = None -> content d (marker_path f) = Some "").

Lemma settle_files_result f b l found d found' d' : sees (marker_path f) ->
  l ⊆ files -> NoDup l -> f ∈ l -> pristine f b d -> settle_files l found d = (Ok found', d') ->
  "backup_corrupt" ∈ fst found' \/ f ∈ snd found' /\ content d' (backup_path f) = b \/ content d' f = b.
Proof using Hl.
  intros Hsm Hsub Hnd Hin. assert (f ∈ files) as Hf by (by apply Hsub). revert found d.
  induction l as [|g l IH]; intros found d Hp E; [by apply not_elem_of_nil in Hin|].
  apply list.NoDup_cons in Hnd as [Hgl Hnd]. assert (g ∈ files) as Hg by (apply Hsub; by left).
  cbn [settle_files] in E. apply bind_inv in E as [(e & _ & [=])|(found1 & d1 & E1 & E)].
  assert (forall p x y, three f p -> same_at (three f) x y -> content y p = content x p) as Hsame.
  { intros p x y Hp3 Hxy. apply Hxy; [by apply (three_not_temp w files f p Hl Hf)|done]. }
  destruct (decide (f = g)) as [<-|Hne].
  - destruct (lo_apart _ _ Hl f f Hf Hf) as [Hfb Hfm]. destruct Hp as [Hb Hm].
    pose proof (settle_result f b found d found1 d1 Hsm (lo_temp _ _ Hl f Hf) Hfb Hfm Hb Hm E1) as Hr.
    assert (same_at (three f) d1 d') as Hrest.
    { eapply keeps_run; [|exact E]. apply settle_files_other; [done|]. intros x Hx.
      split; [apply Hsub; by right|]. by intros ->. }
    rewrite (Hsame f d1 d'), (Hsame (backup_path f) d1 d') by (done || (unfold three; auto)).
    apply settle_files_grows in E as (ws & ks & ->). cbn. destruct Hr as [Hr|[[Hr1 Hr2]|Hr]]; [left|right; left|by right; right].
    + apply list.elem_of_app. by left.
    + split; [apply list.elem_of_app; by left|done].
  - apply list.elem_of_cons in Hin as [->|Hin]; [done|].
    apply (IH ltac:(intros x Hx; apply Hsub; by right) Hnd Hin found1 d1); [|done].
    assert (same_at (three f) d d1) as H01 by (eapply keeps_run; [|exact E1]; by apply settle_other).
    unfold pristine. by rewrite (Hsame (backup_path f) d d1), (Hsame (marker_path f) d d1) by (done || (unfold three; auto)).
Qed.

(** C34: What an agent's files were comes back. An agent is connected, with no
    backup or marker there before, and disconnected, and both succeed (some
    reads, writes, renames and removals may fail for all that, but not the
    looks whether the file's backup and marker are there): then, unless the
    report says a backup could not be read, every covered file either has
    exactly the bytes it had before [connect], absent if it was absent, or is
    reported as kept, with those bytes still in its backup. *)
Theorem wiring_roundtrip spec d r d1 report d2 f :
  sp_config_files spec = files -> spec_laws w spec ->
  (forall g, g ∈ files -> content d (backup_path g) = None /\ content d (marker_path g) = None) ->
  connect w spec d = (Ok r, d1) -> disconnect w spec d1 = (Ok report, d2) ->
  "backup_corrupt" ∉ dr_warnings report -> f ∈ files -> seen f ->
  content d2 f = content d f \/ (f ∈ dr_kept_backup report /\ content d2 (backup_path f) = content d f).
Proof using Hl.
  intros Hfiles Hs Hfresh Ec Ed Hnc Hf Hseen. destruct (Hfresh f Hf) as [Hb0 Hm0].
  (* the snapshot *)
  destruct (take files d) as [rt dt] eqn:Et.
  assert (rt = Ok tt) as ->.
  { unfold connect in Ec. rewrite Hfiles, bind_eq in Ec. unfold raise at 1 in Ec. rewrite Et in Ec. by destruct rt as [[]|]. }
  destruct (take_result w files f Hl Hf Hseen d _ dt Et) as [[_ Htk]|[_ ?]]; [|done]. rewrite decide_True in Htk by done.
  assert (forall p, p = backup_path f \/ p = marker_path f -> is_temp p = false) as Hpt
    by (intros p [->| ->]; [apply backup_not_temp|apply marker_not_temp]).
  assert (same_at (fun p => p = backup_path f \/ p = marker_path f) dt d1) as Hx1.
  { eapply (connect_rest spec); try done. intros p Hp.
    destruct (lo_store _ _ Hl f p Hf) as (_ & ? & _ & ?); [unfold three; tauto|].
    split_and!; [by apply (backup_elsewhere f)|done|done]. }
  assert (pristine f (content d f) d1) as Hp1.
  { unfold pristine. rewrite !Hx1 by auto. destruct (content d f) as [b|]; [by destruct Htk|].
    destruct Htk as [-> ->]. done. }
  (* extraction, settling, saving *)
  unfold disconnect in Ed. rewrite Hfiles in Ed.
  apply bind_inv in Ed as [(e & _ & [=])|(stash & d3 & E3 & Ed)].
  assert (same_disk d1 d3) as Hx3 by (eapply keeps_run; [|exact E3]; unfold stash_load, store_load, fs_read; keeps).
  apply bind_inv in Ed as [(e & _ & [=])|(written & d4 & E4 & Ed)].
  pose proof (keeps_run _ _ _ _ _ (sl_disconnect _ _ Hs) E4) as Hx4.
  assert (pristine f (content d f) d4) as Hp4.
  { unfold pristine in *. rewrite !Hx4 by (auto || (rewrite Hfiles; apply (backup_elsewhere f); auto)).
    by rewrite !(same_disk_content _ _ _ Hx3). }
  apply bind_inv in Ed as [(e & _ & [=])|([ws kept] & d5 & E5 & Ed)].
  apply (settle_files_result f (content d f)) in E5; [|apply Hseen|done|apply (lo_nodup _ _ Hl)|done|done]. cbn [fst snd] in E5.
  assert (dr_kept_backup report = kept /\ ("backup_corrupt" ∈ ws -> "backup_corrupt" ∈ dr_warnings report) /\
    same_at (fun p => p = f \/ p = backup_path f) d5 d2) as (Hk & Hw & Hx5).
  { destruct (lo_store_temp _ _ Hl) as [Hst Hat].
    assert (forall p, p = f \/ p = backup_path f -> p <> w_stash_file w /\ p <> w_applied_file w /\
      ~ bad (w_stash_file w) p /\ ~ bad (w_applied_file w) p) as Hp by (intros p Hp; apply (lo_store _ _ Hl f); unfold three; tauto).
    split_and!.
    - repeat (apply bind_inv in Ed as [(e & _ & [=])|(? & ? & _ & Ed)]). by injection Ed as <- _.
    - intros Hin. repeat (apply bind_inv in Ed as [(e & _ & [=])|(? & ? & _ & Ed)]). injection Ed as <- _. cbn.
      destruct kept; [done|]. apply list.elem_of_app. by left.
    - eapply keeps_run; [|exact Ed]. unfold stash_load, applied_load, stash_save, applied_save. keeps; try apply keeps_store_load.
      all: apply keeps_raise, store_save_same; [done|..]; intros; intros Hq; apply Hp in Hq as (? & ? & ? & ?); auto. }
  rewrite !Hx5 by (auto using backup_not_temp || apply (lo_temp _ _ Hl f Hf)). rewrite Hk.
  destruct E5 as [?|[?|?]]; [exfalso; auto|by right|by left].
Qed.

(** ** A failed connect on a system that works *)

Lemma clean_same_disk d d' : same_disk d d' -> clean d -> clean d'.
Proof. intros Hd Hc p Hp. rewrite Hd. by apply Hc. Qed.

Lemma write_raised {E} (g : IoError -> E) p b d : reliable -> clean d -> is_temp p = false ->
  exists d', raise g (write_atomic p b) d = (Ok tt, d') /\ clean d'.
Proof.
  intros Hr Hc Hp. destruct (write_atomic_reliable p b d Hr Hc Hp) as (d' & E' & Hc').
  exists d'. split; [|done]. unfold raise. by rewrite E'.
Qed.

Lemma take_reliable l d : reliable -> clean d -> exists d', take l d = (Ok tt, d') /\ clean d'.
Proof.
  intros Hr. revert d. induction l as [|f l IH]; intros d Hc; unfold take; cbn [each]; [by exists d|].
  assert (exists d1, take_one f d = (Ok tt, d1) /\ clean d1) as (d1 & E1 & Hc1).
  { unfold take_one. rewrite bind_eq, exists_result, bind_eq, exists_result.
    destruct (_ || _); [by exists d|]. rewrite bind_eq. destruct (fs_read_reliable f d Hr) as (d1 & Hd1 & E1).
    rewrite (attempt_eq _ _ _ _ E1). pose proof (clean_same_disk _ _ Hd1 Hc) as Hc1.
    destruct (content d f); cbn [io_kind not_found].
    - apply write_raised; [done|done|apply backup_not_temp].
    - apply write_raised; [done|done|apply marker_not_temp]. }
  rewrite bind_eq, E1. by apply IH.
Qed.

Lemma remove_reliable p d : reliable -> is_Some (content d p) ->
  exists d', remove_file p d = (Ok tt, d') /\ content d' p = None.
Proof.
  intros Hr Hs. unfold content in Hs. apply fmap_is_Some in Hs as [x Hx].
  unfold remove_file. rewrite bind_eq. destruct (fallible_reliable d Hr) as (d1 & E1 & Hd1). rewrite E1, bind_eq.
  cbn. rewrite Hd1, Hx. eexists. split; [done|]. unfold content. cbn. by rewrite lookup_delete_eq.
Qed.

Lemma restore_reliable f b d : reliable -> clean d -> is_temp f = false -> content d (backup_path f) = b ->
  exists d', (restore_one f : StM Disk WiringError unit) d = (Ok tt, d') /\ clean d' /\ content d' f = b.
Proof.
  intros Hr Hc Ht Hb. unfold restore_one. rewrite bind_eq.
  destruct (fs_read_reliable (backup_path f) d Hr) as (d1 & Hd1 & E1).
  assert (read_backup f d = (Ok b, d1)) as Eb.
  { unfold read_backup. rewrite bind_eq, (attempt_eq _ _ _ _ E1), Hb. by destruct b. }
  rewrite (attempt_eq _ _ _ _ Eb), bind_eq. destruct (read_reliable f d1 Hr) as (d2 & E2 & Hd2).
  rewrite (attempt_eq _ _ _ _ E2). pose proof (clean_same_disk _ _ Hd2 (clean_same_disk _ _ Hd1 Hc)) as Hc2.
  assert (content d1 f = content d2 f) as -> by (by rewrite (same_disk_content _ _ _ Hd2)).
  assert (forall b, exists d', (ignore (write_atomic f b) : StM Disk WiringError unit) d2 = (Ok tt, d') /\ clean d' /\ content d' f = Some b) as Hw.
  { intros x. destruct (write_atomic_reliable f x d2 Hr Hc2 Ht) as (d3 & E3 & Hc3). exists d3.
    unfold ignore. rewrite E3. split_and!; [done|done|]. pose proof (proj2 (write_atomic_whole f x d2 Ht)) as Hx.
    by rewrite E3 in Hx. }
  destruct b as [b|], (content d2 f) as [c|] eqn:Ec2.
  - destruct (decide (b <> c)) as [Hne|Heq]; [apply Hw|]. exists d2. split_and!; [done|done|].
    rewrite Ec2. f_equal. destruct (decide (b = c)); [done|exfalso; auto].
  - apply Hw.
  - destruct (remove_reliable f d2 Hr) as (d3 & E3 & Hd3); [by rewrite Ec2|]. exists d3. unfold ignore. rewrite E3.
    split_and!; [done| |done]. eapply (keeps_run stays_clean); [apply clean_remove_file|exact E3|done].
  - by exists d2.
Qed.

Lemma restore_all_reliable l d : reliable -> clean d -> l ⊆ files -> NoDup l ->
  exists d', (restore_after_failed_connect l : StM Disk WiringError unit) d = (Ok tt, d') /\ clean d' /\
    forall f, f ∈ l -> content d' f = content d (backup_path f).
Proof using Hl.
  intros Hr. revert d. induction l as [|g l IH]; intros d Hc Hsub Hnd.
  { exists d. split_and!; [done|done|]. by intros f ?%not_elem_of_nil. }
  apply list.NoDup_cons in Hnd as [Hgl Hnd]. assert (g ∈ files) as Hg by (apply Hsub; by left).
  pose proof (lo_temp _ _ Hl g Hg) as Ht.
  destruct (restore_reliable g _ d Hr Hc Ht eq_refl) as (d1 & E1 & Hc1 & Hg1).
  destruct (IH d1 Hc1 ltac:(intros x Hx; apply Hsub; by right) Hnd) as (d2 & E2 & Hc2 & Hrest).
  exists d2. unfold restore_after_failed_connect in *. cbn [each]. rewrite bind_eq, E1. split_and!; [done|done|].
  intros f [->|Hf]%list.elem_of_cons.
  - rewrite <-Hg1. eapply (keeps_run (same_at (fun p => p = g))); [|exact E2|done|done].
    apply keeps_each; [apply _|]. intros x Hx%list_elem_of_In. apply restore_elsewhere; [|by intros ->].
    apply (lo_temp _ _ Hl), Hsub. by right.
  - rewrite Hrest by done. eapply (keeps_run (same_at (fun p => p = backup_path f))); [|exact E1|apply backup_not_temp|done].
    apply restore_elsewhere; [done|]. intros ->. assert (f ∈ files) as Hff by (apply Hsub; by right).
    by destruct (lo_apart _ _ Hl (backup_path f) f Hg Hff).
Qed.

(** A connect that fails leaves no trace in the agent's files. On a system
    whose operations succeed, when the agent's own [connect] fails after
    having written what it likes, every covered file has, after the failed
    connect, exactly the bytes it had before it, absent if it was absent
    (there were no backups or markers before, and the system can tell). *)
Theorem failed_connect_restored spec d :
  reliable -> (forall p, sees p) -> clean d -> sp_config_files spec = files -> spec_laws w spec ->
  (forall g, g ∈ files -> content d (backup_path g) = None /\ content d (marker_path g) = None) ->
  (forall x, clean x -> exists e x', sp_connect spec (w_stash_file w) x = (Err e, x') /\ clean x') ->
  exists e d', connect w spec d = (Err e, d') /\ forall f, f ∈ files -> content d' f = content d f.
Proof using Hl.
  intros Hr Hsees Hc Hfiles Hs Hfresh Hfail. unfold connect. rewrite Hfiles, bind_eq. unfold raise at 1.
  destruct (take_reliable files d Hr Hc) as (d1 & Et & Hc1). rewrite Et. cbn [map_err]. rewrite bind_eq.
  destruct (Hfail d1 Hc1) as (e & d2 & E2 & Hc2). rewrite (attempt_eq _ _ _ _ E2), bind_eq.
  destruct (restore_all_reliable files d2 Hr Hc2 ltac:(done) (lo_nodup _ _ Hl)) as (d3 & E3 & _ & Hrest). rewrite E3.
  exists e, d3. split; [done|]. intros f Hf. rewrite Hrest by done. destruct (Hfresh f Hf) as [Hb Hm].
  pose proof (keeps_run _ _ _ _ _ (sl_connect _ _ Hs) E2) as H12. rewrite H12; [|apply backup_not_temp|
    rewrite Hfiles; apply (backup_elsewhere f); auto].
  destruct (take_result w files f Hl Hf (conj (Hsees _) (Hsees _)) d _ d1 Et) as [[_ Htk]|[_ ?]]; [|done]. rewrite decide_True in Htk by done.
  destruct (content d f); by destruct Htk.
Qed.
End wiring.
End host.

(** ** An agent with one dotenv file *)

Definition cli_env : Path := ("home/.cli", ".env").
Definition cli_wiring : Wiring :=
  {| w_stash_file := ("data", "agent_stash.json"); w_applied_file := ("data", "agent_applied.json") |}.

Definition gateway_kv (url : string) : EnvEdit.KV := {| EnvEdit.kv_path := "BASE_URL"; EnvEdit.kv_value := VString url |}.

Section cli.
Context `{Host}.

(** Writes the gateway's address; [refuse] fails after the write. *)
Definition cli_spec (url : string) (refuse : bool) : AgentSpec := {|
  sp_id := "cli";
  sp_config_files := [cli_env];
  sp_connect := fun _ =>
    text ← raise WIo (read cli_env);
    raise WIo (write_atomic cli_env (EnvEdit.set (default "" text) [gateway_kv url]));;
    (if refuse then throw (Refused "no") else mret [cli_env]);
  sp_disconnect := fun _ =>
    text ← raise WIo (read cli_env);
    match text with
    | Some text => raise WIo (write_atomic cli_env (EnvEdit.del text ["BASE_URL"]));; mret [cli_env]
    | None => mret []
    end;
  sp_applied_values := fun d => (∅, d)
|}.

Lemma cli_laws url refuse : spec_laws cli_wiring (cli_spec url refuse).
Proof.
  assert (forall text, Keeps (same_at (elsewhere cli_wiring [cli_env])) (raise WIo (write_atomic cli_env text))) as Hw.
  { intros text. apply keeps_raise, same_write_atomic; [done|]. intros [Hn _]. apply Hn. by left. }
  split; cbn [cli_spec sp_connect sp_disconnect sp_config_files].
  - apply keeps_bind; [apply _|apply keeps_raise, same_read|]. intros text.
    apply keeps_bind; [apply _|apply Hw|]. intros _. destruct refuse; keeps.
  - apply keeps_bind; [apply _|apply keeps_raise, same_read|]. intros [text|]; [|keeps].
    apply keeps_bind; [apply _|apply Hw|]. intros _. keeps.
  - by intros d p Hp.
Qed.
End cli.

Lemma cli_laid_out : laid_out cli_wiring [cli_env].
Proof.
  split.
  - repeat constructor. by intros ?%not_elem_of_nil.
  - by intros f ->%list_elem_of_singleton.
  - by intros f g ->%list_elem_of_singleton ->%list_elem_of_singleton.
  - done.
  - intros f p ->%list_elem_of_singleton Hp.
    assert (fst p = "home/.cli") as Hd by (by destruct Hp as [[->|[->| ->]]|[sfx ->]]).
    split_and!; [by intros ->|by intros ->|by intros [sfx ->]|by intros [sfx ->]].
  - intros f g p ->%list_elem_of_singleton ->%list_elem_of_singleton [sfx ->] [E|[E|E]];
      apply (f_equal snd) in E; done.
Qed.

#[local] Instance no_toml : TomlEdit := fun _ => None.
#[local] Instance lab_stash : StoreJson Stash := {| to_vec_pretty _ := Ok "{}"; from_slice _ := Some ∅ |}.
#[local] Instance lab_applied : StoreJson Applied := {| to_vec_pretty _ := Ok "{}"; from_slice _ := Some ∅ |}.

(** A system that works, and one whose operations fail from a number on. *)
Definition host_ok : Host :=
  {| host_fails := fun _ => false; host_error := fun _ => ""; host_torn := fun _ => 0%nat;
     host_blind := fun _ _ => false; host_now := fun n => Z.of_nat n; host_pid := 7 |}.

Definition env_text : string := "# mine" +:+ newline +:+ "A=1" +:+ newline.
Definition disk_with (text : string) : Disk :=
  {| d_files := {[ cli_env := {| fd_bytes := text; fd_mtime := 0 |} ]}; d_ops := 0; d_temps := 0 |}.
Definition disk_backed (text backup : string) : Disk :=
  {| d_files := {[ cli_env := {| fd_bytes := text; fd_mtime := 0 |}; backup_path cli_env := {| fd_bytes := backup; fd_mtime := 0 |} ]};
     d_ops := 0; d_temps := 0 |}.

Lemma connect_recoverable_witness :
  recoverable cli_env env_text
    (fold_left (fun d spec => snd (@connect (host_failing 15) lab_applied cli_wiring spec d))
      [@cli_spec (host_failing 15) "http://a" false; @cli_spec (host_failing 15) "http://b" true] (disk_with env_text)).
Proof.
  apply (@connect_recoverable (host_failing 15) lab_applied cli_wiring [cli_env] cli_laid_out).
  - repeat constructor; apply (@cli_laws (host_failing 15)).
  - by left.
  - split; intros n; reflexivity.
  - right. split_and!; reflexivity.
Defined.

Lemma disconnect_recoverable_witness :
  held cli_env env_text
    (snd (@disconnect (host_failing 12) binary_json no_toml lab_stash lab_applied cli_wiring (@cli_spec (host_failing 12) "http://a" false)
      (disk_backed "A=1" env_text))).
Proof.
  apply (@disconnect_recoverable (host_failing 12) binary_json no_toml lab_stash lab_applied cli_wiring [cli_env] cli_laid_out);
    [done|done|apply (@cli_laws (host_failing 12))|by left|reflexivity].
Defined.

Abbreviation lab_connect := (@connect host_ok lab_applied cli_wiring).
Abbreviation lab_disconnect := (@disconnect host_ok binary_json no_toml lab_stash lab_applied cli_wiring).

(** The file gets its comment back with the rest. *)
Lemma wiring_roundtrip_witness :
  let '(_, d1) := lab_connect (@cli_spec host_ok "http://a" false) (disk_with env_text) in
  let '(_, d2) := lab_disconnect (@cli_spec host_ok "http://a" false) d1 in
  content d1 cli_env = Some (env_text +:+ "BASE_URL=http://a" +:+ newline) /\ content d2 cli_env = Some env_text.
Proof.
  destruct (lab_connect (@cli_spec host_ok "http://a" false) (disk_with env_text)) as [r d1] eqn:E1.
  destruct (lab_disconnect (@cli_spec host_ok "http://a" false) d1) as [r2 d2] eqn:E2.
  assert (r = Ok {| cr_files_written := [cli_env] |}) as -> by (vm_compute in E1; by injection E1 as <- _).
  split; [vm_compute in E1; by injection E1 as <-|].
  assert (exists rep, r2 = Ok rep /\ dr_kept_backup rep = [] /\ dr_warnings rep = ["stash_missing"]) as (rep & -> & Hk & Hw).
  { vm_compute in E1. injection E1 as <-. vm_compute in E2. injection E2 as <- _. by eexists. }
  assert (cli_env ∉ dr_kept_backup rep) as Hn by (rewrite Hk; apply not_elem_of_nil).
  destruct (@wiring_roundtrip host_ok binary_json no_toml lab_stash lab_applied cli_wiring [cli_env] cli_laid_out
    (@cli_spec host_ok "http://a" false) (disk_with env_text) {| cr_files_written := [cli_env] |} d1 rep d2 cli_env) as [Hc|[Hc _]].
  - done.
  - apply (@cli_laws host_ok).
  - intros g ->%list_elem_of_singleton. split; vm_compute; reflexivity.
  - exact E1.
  - exact E2.
  - rewrite Hw. by intros ?%list_elem_of_singleton.
  - by left.
  - split; intros n; reflexivity.
  - exact Hc.
  - exact (False_ind _ (Hn Hc)).
Defined.

Lemma failed_connect_restored_witness :
  exists e d', lab_connect (@cli_spec host_ok "http://a" true) (disk_with env_text) = (Err e, d') /\ content d' cli_env = Some env_text.
Proof.
  destruct (@failed_connect_restored host_ok lab_applied cli_wiring [cli_env] cli_laid_out
    (@cli_spec host_ok "http://a" true) (disk_with env_text)) as (e & d' & E & Hc).
  - done.
  - intros p n. reflexivity.
  - intros p Hp. unfold disk_with. cbn [d_files]. apply lookup_singleton_None. intros <-. discriminate Hp.
  - done.
  - apply (@cli_laws host_ok).
  - intros g ->%list_elem_of_singleton. split; vm_compute; reflexivity.
  - intros x Hx. cbn [cli_spec sp_connect]. rewrite bind_eq. unfold raise at 1.
    destruct (@read_reliable host_ok cli_env x ltac:(done)) as (d1 & -> & Hd1). cbn [map_err]. rewrite bind_eq.
    match goal with |- context [raise WIo (write_atomic cli_env ?t) d1] =>
      destruct (@write_raised host_ok _ WIo cli_env t d1 ltac:(done) (clean_same_disk _ _ Hd1 Hx) eq_refl) as (d2 & -> & Hc2) end.
    by exists (Refused "no"), d2.
  - exists e, d'. split; [exact E|]. rewrite Hc by (by left). reflexivity.
Defined.

(** An agent whose connect fails before it writes anything. *)
Definition refusing : AgentSpec :=
  {| sp_id := "cli"; sp_config_files := [cli_env]; sp_connect := fun _ => throw NoCatalog;
     sp_disconnect := fun _ => mret []; sp_applied_values := fun d => (∅, d) |}.

(** A second connect that fails before it writes anything puts the bytes of
    before the first one back, over what was written since. *)
Example reconnect_loses_edits :
  let since := env_text +:+ "BASE_URL=http://a" +:+ newline +:+ "B=2" +:+ newline in
  content (snd (lab_connect refusing (disk_backed since env_text))) cli_env = Some env_text.
Proof. reflexivity. Qed.

(** A file the gateway made, that its owner then filled, is kept by
    [disconnect] with its marker. The next connect that fails removes it. *)
Example kept_then_removed :
  let '(_, d1) := lab_connect (@cli_spec host_ok "http://a" false) {| d_files := ∅; d_ops := 0; d_temps := 0 |} in
  let d2 := set_files <[cli_env := {| fd_bytes := "BASE_URL=http://a" +:+ newline +:+ "MINE=1"; fd_mtime := 0 |}]> d1 in
  let '(r, d3) := lab_disconnect (@cli_spec host_ok "http://a" false) d2 in
  let '(_, d4) := lab_connect refusing d3 in
  dr_kept_backup <$> ok r = Some [cli_env] /\ content d3 cli_env = Some "MINE=1" /\
  content d4 cli_env = None /\ content d4 (backup_path cli_env) = None.
Proof. vm_compute. by split_and!. Qed.

(** A system that cannot tell whether a backup is there: the second connect
    puts the gateway's bytes over the only copy of the first. *)
Definition host_dim : Host :=
  {| host_fails := fun _ => false; host_error := fun _ => ""; host_torn := fun _ => 0%nat;
     host_blind := fun _ _ => true; host_now := fun n => Z.of_nat n; host_pid := 7 |}.
Example blind_connect_loses :
  let since := "BASE_URL=http://a" in
  let '(r, d) := @connect host_dim lab_applied cli_wiring (@cli_spec host_dim "http://a" false) (disk_backed since env_text) in
  r = Ok {| cr_files_written := [cli_env] |} /\ content d (backup_path cli_env) = Some since.
Proof. vm_compute. by split. Qed.
