(* ===== verification/Sha256.v ===== *)
(** * SHA-256

    The program hashes with a SHA-256 of its own, written twice: [sha256] of
    credentials/gemini.rs makes the code challenges of the sign-ins, and
    [sha256_hex] of agent-wiring's sync/catalog.rs the digest of a catalog.
    The theorem says that it is the function of FIPS 180-4. *)
From Stdlib Require Import ZArith Lia.
From stdpp Require Import list.
From S2P Require Import Prelude.
From S2P Require Import RustStd.
From S2P Require Import Base64.

Local Open Scope Z_scope.

(** The rows of the table are those of the source. *)
Definition K : list Z := Eval cbv in concat [
  [0x428a2f98; 0x71374491; 0xb5c0fbcf; 0xe9b5dba5; 0x3956c25b; 0x59f111f1; 0x923f82a4];
  [0xab1c5ed5; 0xd807aa98; 0x12835b01; 0x243185be; 0x550c7dc3; 0x72be5d74; 0x80deb1fe];
  [0x9bdc06a7; 0xc19bf174; 0xe49b69c1; 0xefbe4786; 0x0fc19dc6; 0x240ca1cc; 0x2de92c6f];
  [0x4a7484aa; 0x5cb0a9dc; 0x76f988da; 0x983e5152; 0xa831c66d; 0xb00327c8; 0xbf597fc7];
  [0xc6e00bf3; 0xd5a79147; 0x06ca6351; 0x14292967; 0x27b70a85; 0x2e1b2138; 0x4d2c6dfc];
  [0x53380d13; 0x650a7354; 0x766a0abb; 0x81c2c92e; 0x92722c85; 0xa2bfe8a1; 0xa81a664b];
  [0xc24b8b70; 0xc76c51a3; 0xd192e819; 0xd6990624; 0xf40e3585; 0x106aa070; 0x19a4c116];
  [0x1e376c08; 0x2748774c; 0x34b0bcb5; 0x391c0cb3; 0x4ed8aa4a; 0x5b9cca4f; 0x682e6ff3];
  [0x748f82ee; 0x78a5636f; 0x84c87814; 0x8cc70208; 0x90befffa; 0xa4506ceb; 0xbef9a3f7];
  [0xc67178f2]].

Definition H0 : list Z := [
  0x6a09e667; 0xbb67ae85; 0x3c6ef372; 0xa54ff53a; 0x510e527f; 0x9b05688c; 0x1f83d9ab; 0x5be0cd19].

(** [u32::rotate_right] and [!x]. *)
Definition rotate_right (x k : Z) : Z := Z.lor (Z.shiftr x k) (as_u32 (Z.shiftl x (32 - k))).
Definition not32 (x : Z) : Z := u32_max - x.

(** [to_be_bytes] of a word of [n] bytes, and [u32::from_be_bytes]. *)
Fixpoint to_be_bytes (n : nat) (z : Z) : list Z :=
  match n with O => [] | S k => as_u8 (Z.shiftr z (8 * Z.of_nat k)) :: to_be_bytes k z end.
Definition from_be_bytes (l : list Z) : Z := fold_left (fun acc b => acc * 256 + b) l 0.

(** [while data.len() % 64 != 56 { data.push(0) }]: 64 turns are enough. *)
Fixpoint pad_zeros (fuel : nat) (data : list Z) : list Z :=
  match fuel with
  | O => data
  | S fuel => if (length data mod 64 =? 56)%nat then data else pad_zeros fuel (data ++ [0])
  end.

Definition padded (message : list Z) : list Z :=
  let bit_len := as_u64 (Z.of_nat (length message) * 8) in
  pad_zeros 64 (message ++ [128]) ++ to_be_bytes 8 bit_len.

(** [chunks_exact(64)]: a rest that is no whole chunk is left out. *)
Fixpoint chunks_exact (fuel : nat) (data : list Z) : list (list Z) :=
  match fuel with
  | O => []
  | S fuel =>
      if (64 <=? length data)%nat then take 64 data :: chunks_exact fuel (drop 64 data) else []
  end.

Definition load_word (block : list Z) (w : list Z) (i : nat) : list Z :=
  <[i := from_be_bytes [block !!! (4 * i)%nat; block !!! (4 * i + 1)%nat;
                        block !!! (4 * i + 2)%nat; block !!! (4 * i + 3)%nat]]> w.

Definition small_s0 (x : Z) : Z := Z.lxor (Z.lxor (rotate_right x 7) (rotate_right x 18)) (Z.shiftr x 3).
Definition small_s1 (x : Z) : Z := Z.lxor (Z.lxor (rotate_right x 17) (rotate_right x 19)) (Z.shiftr x 10).

Definition extend_word (w : list Z) (i : nat) : list Z :=
  let s0 := small_s0 (w !!! (i - 15)%nat) in
  let s1 := small_s1 (w !!! (i - 2)%nat) in
  <[i := u32_add (u32_add (u32_add (w !!! (i - 16)%nat) s0) (w !!! (i - 7)%nat)) s1]> w.

(** The array [w] is the one of the block before, written over. *)
Definition schedule_words (block : list Z) (w : list Z) : list Z :=
  foldl extend_word (foldl (load_word block) w (seq 0 16)) (seq 16 48).

Record Vars := { va : Z; vb : Z; vc : Z; vd : Z; ve : Z; vf : Z; vg : Z; vh : Z }.

Definition round (k w : Z) (v : Vars) : Vars :=
  let e := ve v in
  let a := va v in
  let s1 := Z.lxor (Z.lxor (rotate_right e 6) (rotate_right e 11)) (rotate_right e 25) in
  let ch := Z.lxor (Z.land e (vf v)) (Z.land (not32 e) (vg v)) in
  let temp1 := u32_add (u32_add (u32_add (u32_add (vh v) s1) ch) k) w in
  let s0 := Z.lxor (Z.lxor (rotate_right a 2) (rotate_right a 13)) (rotate_right a 22) in
  let maj := Z.lxor (Z.lxor (Z.land a (vb v)) (Z.land a (vc v))) (Z.land (vb v) (vc v)) in
  let temp2 := u32_add s0 maj in
  {| va := u32_add temp1 temp2; vb := a; vc := vb v; vd := vc v;
     ve := u32_add (vd v) temp1; vf := e; vg := vf v; vh := vg v |}.

Definition vars_of (h : list Z) : Vars :=
  {| va := h !!! 0%nat; vb := h !!! 1%nat; vc := h !!! 2%nat; vd := h !!! 3%nat;
     ve := h !!! 4%nat; vf := h !!! 5%nat; vg := h !!! 6%nat; vh := h !!! 7%nat |}.

Definition add_vars (h : list Z) (v : Vars) : list Z :=
  zip_with u32_add h [va v; vb v; vc v; vd v; ve v; vf v; vg v; vh v].

(** One turn of the loop over the blocks, on [(h, w)]. *)
Definition sha_block (hw : list Z * list Z) (block : list Z) : list Z * list Z :=
  let w := schedule_words block hw.2 in
  let v := foldl (fun v i => round (K !!! i) (w !!! i) v) (vars_of hw.1) (seq 0 64) in
  (add_vars hw.1 v, w).

Definition sha256 (message : list Z) : list Z :=
  let data := padded message in
  let '(h, _) := foldl sha_block (H0, repeat 0 64) (chunks_exact (length data) data) in
  flat_map (to_be_bytes 4) h.

(** [hex_encode] and [to_hex]. *)
Definition HEX : string := "0123456789abcdef".
Definition hex_digit (v : Z) : ascii := default "0"%char (String.get (Z.to_nat v) HEX).
Fixpoint hex_encode (bytes : list Z) : string :=
  match bytes with
  | [] => ""
  | b :: bytes => String (hex_digit (Z.shiftr b 4)) (String (hex_digit (Z.land b 15)) (hex_encode bytes))
  end.

Definition sha256_hex (message : list Z) : string := hex_encode (sha256 message).

(** The vectors of the standard. *)
Example sha256_empty :
  sha256_hex [] = "e3b0c44298fc1c149afbf4c8996fb92427ae41e4649b934ca495991b7852b855".
Proof. vm_compute. reflexivity. Qed.
Example sha256_abc :
  sha256_hex (bytes "abc") = "ba7816bf8f01cfea414140de5dae2223b00361a396177a9cb410ff61f20015ad".
Proof. vm_compute. reflexivity. Qed.
Example sha256_two_blocks :
  sha256_hex (bytes "abcdbcdecdefdefgefghfghighijhijkijkljklmklmnlmnomnopnopq")
  = "248d6a61d20638b8e5c026930c3e6039a33ce45964ff2167f6ecedd419db06c1".
Proof. vm_compute. reflexivity. Qed.

(** ** FIPS 180-4

    5.1.1: a message is followed by a one bit, the fewest zero bits that make
    it 448 modulo 512 bits long, and its length in 64 bits. *)
Definition fips_padding (message data : list Z) : Prop :=
  exists zeros : nat,
    data = message ++ 128 :: repeat 0 zeros ++ to_be_bytes 8 (8 * Z.of_nat (length message)) /\
    (length data mod 64 = 0)%nat /\ (zeros < 64)%nat.

(** 6.2.2, step 1: the message schedule. *)
Definition fips_schedule (block : list Z) (W : nat -> Z) : Prop :=
  (forall t, (t < 16)%nat -> W t = from_be_bytes (take 4 (drop (4 * t) block))) /\
  (forall t, (16 <= t < 64)%nat ->
     W t = (small_s1 (W (t - 2)%nat) + W (t - 7)%nat + small_s0 (W (t - 15)%nat) + W (t - 16)%nat) mod 2 ^ 32).

(** Steps 2 to 4: the working variables after [t] rounds, and the hash value
    after a block. *)
Fixpoint fips_rounds (W : nat -> Z) (v : Vars) (t : nat) : Vars :=
  match t with O => v | S t => round (K !!! t) (W t) (fips_rounds W v t) end.

Inductive fips_hash : list (list Z) -> list Z -> Prop :=
  | fips_first : fips_hash [] H0
  | fips_next blocks h block W :
      fips_hash blocks h -> length block = 64%nat -> fips_schedule block W ->
      fips_hash (blocks ++ [block]) (add_vars h (fips_rounds W (vars_of h) 64)).

Definition fips_digest (message digest : list Z) : Prop :=
  exists data blocks h,
    fips_padding message data /\ data = concat blocks /\ fips_hash blocks h /\
    digest = flat_map (to_be_bytes 4) h.

(** ** The code is that function *)

Lemma foldl_seq_ind {A} (P : nat -> A -> Prop) (f : A -> nat -> A) a n x :
  P a x -> (forall i y, (a <= i < a + n)%nat -> P i y -> P (S i) (f y i)) ->
  P (a + n)%nat (foldl f x (seq a n)).
Proof.
  revert a x. induction n as [|n IH]; intros a x Hx Hstep; [by rewrite Nat.add_0_r|].
  cbn [seq foldl]. replace (a + S n)%nat with (S a + n)%nat by lia. apply IH.
  - apply Hstep; [lia|done].
  - intros i y Hi. apply Hstep. lia.
Qed.

Lemma pad_zeros_spec n data :
  exists z, pad_zeros n data = data ++ repeat 0 z /\ (z <= n)%nat /\
    (((length data + z) mod 64 = 56)%nat \/ z = n) /\
    forall y, (y < z)%nat -> ((length data + y) mod 64 <> 56)%nat.
Proof.
  revert data. induction n as [|n IH]; intros data; cbn [pad_zeros].
  { exists 0%nat. rewrite app_nil_r. repeat split; auto with lia. }
  destruct (Nat.eqb_spec (length data mod 64) 56) as [E|E].
  { exists 0%nat. rewrite app_nil_r, Nat.add_0_r. repeat split; auto with lia. }
  destruct (IH (data ++ [0])) as (z & -> & Hz & Hend & Hmin). exists (S z).
  rewrite length_app in Hend, Hmin. cbn [length] in Hend, Hmin.
  repeat split; [by rewrite <-app_assoc|lia| |].
  - destruct Hend as [He| ->]; [left|by right].
    by replace (length data + S z)%nat with (length data + 1 + z)%nat by lia.
  - intros [|y] Hy; [by rewrite Nat.add_0_r|].
    replace (length data + S y)%nat with (length data + 1 + y)%nat by lia. apply Hmin. lia.
Qed.

Lemma length_to_be_bytes n z : length (to_be_bytes n z) = n.
Proof. induction n; cbn [to_be_bytes length]; congruence. Qed.

Lemma padded_fips message :
  8 * Z.of_nat (length message) <= u64_max -> fips_padding message (padded message).
Proof.
  intros Hlen. unfold padded. destruct (pad_zeros_spec 64 (message ++ [128])) as (z & -> & Hz & Hend & Hmin).
  rewrite length_app in Hend, Hmin. cbn [length] in Hend, Hmin.
  set (l := (length message + 1)%nat) in *.
  assert ((l + z) mod 64 = 56 /\ z < 64)%nat as [Hm Hz'].
  { pose proof (Nat.mod_upper_bound l 64 ltac:(lia)) as Hub.
    pose proof (Nat.div_mod l 64 ltac:(lia)) as Hdm.
    set (y := ((120 - l mod 64) mod 64)%nat).
    assert ((l + y) mod 64 = 56 /\ y < 64)%nat as [Hy Hy'].
    { split; [|apply Nat.mod_upper_bound; lia]. unfold y.
      rewrite Nat.Div0.add_mod_idemp_r.
      replace (l + (120 - l mod 64))%nat with (56 + (l / 64 + 1) * 64)%nat by lia.
      by rewrite Nat.Div0.mod_add. }
    destruct (Nat.lt_ge_cases y z) as [Hyz|Hyz]; [by destruct (Hmin y Hyz)|].
    destruct Hend as [He| ->]; [split; [done|lia]|lia]. }
  exists z. unfold as_u64. rewrite Z.mod_small by (unfold u64_max in Hlen; lia).
  rewrite (Z.mul_comm _ 8), <-!app_assoc. repeat split; [|done].
  rewrite length_app. cbn [app length]. rewrite length_app, length_to_be_bytes, repeat_length.
  replace (length message + S (z + 8))%nat with (l + z + 8)%nat by lia.
  by rewrite <-Nat.Div0.add_mod_idemp_l, Hm.
Qed.

Lemma chunks_exact_spec n data :
  (length data mod 64 = 0)%nat -> (length data <= n)%nat ->
  concat (chunks_exact n data) = data /\ Forall (fun c => length c = 64%nat) (chunks_exact n data).
Proof.
  revert data. induction n as [|n IH]; intros data Hm Hn; cbn [chunks_exact].
  { destruct data; [done|cbn in Hn; lia]. }
  destruct (Nat.leb_spec 64 (length data)) as [Hl|Hl].
  - destruct (IH (drop 64 data)) as [Hc Hf].
    + rewrite length_drop. pose proof (Nat.div_mod (length data) 64 ltac:(lia)) as Hdm.
      replace (length data - 64)%nat with ((length data / 64 - 1) * 64)%nat by lia.
      apply Nat.Div0.mod_mul.
    + rewrite length_drop. lia.
    + split; [cbn [concat]; by rewrite Hc, take_drop|]. constructor; [|done].
      rewrite length_take. lia.
  - rewrite Nat.mod_small in Hm by lia. by destruct data.
Qed.

Lemma four_of (block : list Z) k :
  (k + 4 <= length block)%nat ->
  [block !!! k; block !!! (k + 1)%nat; block !!! (k + 2)%nat; block !!! (k + 3)%nat] = take 4 (drop k block).
Proof.
  intros Hk. apply (list_eq_same_length _ _ 4); [by rewrite length_take, length_drop; lia|done|].
  intros i x y Hi Hx. rewrite lookup_take_lt, lookup_drop by done. intros Hy%list_lookup_total_correct.
  do 4 (destruct i as [|i]; [cbn in Hx; rewrite ?Nat.add_0_r in Hy; congruence|]). lia.
Qed.

Lemma loaded block w :
  length block = 64%nat -> length w = 64%nat ->
  let w' := foldl (load_word block) w (seq 0 16) in
  length w' = 64%nat /\ forall t, (t < 16)%nat -> w' !!! t = from_be_bytes (take 4 (drop (4 * t) block)).
Proof.
  intros Hb Hw w'. subst w'.
  apply (foldl_seq_ind (fun n w' => length w' = 64%nat /\
    forall t, (t < n)%nat -> w' !!! t = from_be_bytes (take 4 (drop (4 * t) block)))); [split; [done|lia]|].
  intros i y Hi [Hl Hy]. unfold load_word. rewrite four_of by lia. split; [by rewrite length_insert|].
  intros t Ht. destruct (decide (t = i)) as [->|].
  - by rewrite list_lookup_total_insert_eq by lia.
  - rewrite list_lookup_total_insert_ne by done. apply Hy. lia.
Qed.

Lemma u32_adds a b c d : u32_add (u32_add (u32_add a b) c) d = (a + b + c + d) mod 2 ^ 32.
Proof. unfold u32_add, as_u32. rewrite !Zplus_mod_idemp_l, <-(Z.add_assoc _ c d), Zplus_mod_idemp_l. f_equal. lia. Qed.

Lemma schedule_words_fips block w :
  length block = 64%nat -> length w = 64%nat ->
  length (schedule_words block w) = 64%nat /\
  fips_schedule block (fun t => schedule_words block w !!! t).
Proof.
  intros Hb Hw. destruct (loaded block w Hb Hw) as [Hl H16]. unfold schedule_words.
  set (w1 := foldl (load_word block) w (seq 0 16)) in *.
  cut (length (foldl extend_word w1 (seq 16 48)) = 64%nat /\
       (forall t, (t < 16)%nat -> foldl extend_word w1 (seq 16 48) !!! t = w1 !!! t) /\
       (forall t, (16 <= t < 64)%nat ->
          let W i := foldl extend_word w1 (seq 16 48) !!! i in
          W t = (small_s1 (W (t - 2)%nat) + W (t - 7)%nat + small_s0 (W (t - 15)%nat) + W (t - 16)%nat) mod 2 ^ 32)).
  { intros (H1 & H2 & H3). split_and!; [done|]. split; [|done]. intros t Ht. by rewrite H2, H16. }
  apply (foldl_seq_ind (fun n w' => length w' = 64%nat /\ (forall t, (t < 16)%nat -> w' !!! t = w1 !!! t) /\
    (forall t, (16 <= t < n)%nat ->
       w' !!! t = (small_s1 (w' !!! (t - 2)%nat) + w' !!! (t - 7)%nat + small_s0 (w' !!! (t - 15)%nat) +
                   w' !!! (t - 16)%nat) mod 2 ^ 32)) extend_word 16 48); [split_and!; [done..|lia]|].
  intros i y Hi (Hy & Hlow & Hmid). unfold extend_word.
  split_and!; [by rewrite length_insert| |].
  - intros t Ht. rewrite list_lookup_total_insert_ne by lia. by apply Hlow.
  - intros t Ht. rewrite !(list_lookup_total_insert_ne _ i (t - _)) by lia.
    destruct (decide (t = i)) as [->|].
    + rewrite list_lookup_total_insert_eq by lia. rewrite u32_adds. f_equal. lia.
    + rewrite list_lookup_total_insert_ne by done. apply Hmid. lia.
Qed.

Lemma rounds_fips (w : list Z) v n :
  foldl (fun v i => round (K !!! i) (w !!! i) v) v (seq 0 n) = fips_rounds (fun t => w !!! t) v n.
Proof.
  apply (foldl_seq_ind (fun n v' => v' = fips_rounds (fun t => w !!! t) v n) _ 0 n); [done|].
  intros i y _ ->. done.
Qed.

Lemma sha_blocks_fips blocks :
  Forall (fun c => length c = 64%nat) blocks ->
  let hw := foldl sha_block (H0, repeat 0 64) blocks in
  fips_hash blocks hw.1 /\ length hw.2 = 64%nat.
Proof.
  induction blocks as [|block blocks IH] using rev_ind; [by repeat constructor|].
  intros [Hbs Hb]%list.Forall_app. inversion Hb; subst. rewrite foldl_app. cbn [foldl].
  destruct (IH Hbs) as [Hh Hw]. set (hw := foldl sha_block _ blocks) in *.
  destruct (schedule_words_fips block hw.2) as [Hl Hs]; [done..|].
  unfold sha_block. cbv zeta. cbn [fst snd]. split; [|exact Hl]. rewrite rounds_fips. by constructor.
Qed.

(** [sha256], which the code challenges of the sign-ins and the digest of
    the catalog are made with, is the function of FIPS 180-4 on every message
    of less than 2^64 bits: the padding is the standard's, each block's
    schedule obeys its recurrence although the array of words is reused from
    block to block, and the digest is the hash value after the last block. *)
Theorem sha256_fips message :
  8 * Z.of_nat (length message) <= u64_max -> fips_digest message (sha256 message).
Proof.
  intros Hlen. pose proof (padded_fips message Hlen) as Hp. pose proof Hp as (z & _ & Hm & _).
  destruct (chunks_exact_spec (length (padded message)) (padded message) Hm (le_n _)) as [Hc Hf].
  destruct (sha_blocks_fips _ Hf) as [Hh _].
  unfold sha256. destruct (foldl sha_block _ _) as [h w]. exists (padded message), (chunks_exact (length (padded message)) (padded message)), h.
  by rewrite Hc.
Qed.

Lemma sha256_fips_witness :
  fips_digest (bytes "abc") (sha256 (bytes "abc")).
Proof. apply sha256_fips. vm_compute. discriminate. Defined.
