(* ===== verification/OAuth.v ===== *)
(** * Encodings of the sign-ins

    What the browser sign-ins of the server have in common: base64url,
    percent encoding, form bodies, the queries of pasted addresses, the pages
    a browser is sent to and what it comes back with (credentials/gemini.rs,
    codex_signin.rs and siwc_signin.rs). A byte string is a [string], or a
    list of bytes where the code computes with them. *)
From Stdlib Require Import ZArith Lia.
From stdpp Require Import gmap.
From S2P Require Import Prelude.
From S2P Require Import RustStd.
From S2P Require Import Utf8.
From S2P Require Import Config.
From S2P Require Import Base64.
From S2P Require Import Sha256.

Local Open Scope Z_scope.

(** ** base64url *)

Definition URL_ALPHABET : string := "ABCDEFGHIJKLMNOPQRSTUVWXYZabcdefghijklmnopqrstuvwxyz0123456789-_".
Definition url_char (v : Z) : ascii := default "A"%char (String.get (Z.to_nat v) URL_ALPHABET).

Definition base64url_chunk (chunk : list Z) : string :=
  let b i := default 0 (chunk !! i) in
  let n := Z.lor (Z.lor (Z.shiftl (b 0%nat) 16) (Z.shiftl (b 1%nat) 8)) (b 2%nat) in
  let c i := url_char (Z.land (Z.shiftr n i) 63) in
  String (c 18) (String (c 12)
    ((if (1 <? length chunk)%nat then String (c 6) "" else "") +:+
     (if (2 <? length chunk)%nat then String (c 0) "" else ""))).

Definition base64url (data : list Z) : string := concat_strings (map base64url_chunk (chunks3 data)).

Definition url_value (c : ascii) : option Z :=
  let n := byte_code c in
  if between 65 90 n then Some (n - 65) else
  if between 97 122 n then Some (n - 97 + 26) else
  if between 48 57 n then Some (n - 48 + 52) else
  if n =? 45 then Some 62 else
  if n =? 95 then Some 63 else
  None.

(** The loop from the values of [acc] and [bits]; what it pushes. A shift of
    a [u32] drops the bits that leave it. *)
Fixpoint url_decode_loop (s : string) (acc bits : Z) : option string :=
  match s with
  | EmptyString => Some ""
  | String c s =>
      value ← url_value c;
      let acc := Z.lor (as_u32 (Z.shiftl acc 6)) value in
      let bits := bits + 6 in
      if 8 <=? bits then
        let bits := bits - 8 in
        rest ← url_decode_loop s acc bits;
        Some (String (byte_of (as_u8 (Z.shiftr acc bits))) rest)
      else url_decode_loop s acc bits
  end.

Definition base64url_decode (input : string) : option string :=
  url_decode_loop (trim_end_matches "=" input) 0 0.

(** [random_bytes]: the bytes of as many fresh identifiers as are needed;
    [uuid_bytes] are the 16 bytes of the n-th. *)
Definition random_bytes (uuid_bytes : nat -> list Z) (count : nat) : list Z :=
  take count (flat_map uuid_bytes (seq 0 ((count + 15) / 16))).

(** ** Percent encoding *)

Definition unreserved (c : ascii) : bool :=
  let n := byte_code c in
  between 65 90 n || between 97 122 n || between 48 57 n ||
  (n =? 45) || (n =? 46) || (n =? 95) || (n =? 126).

Definition UPPER_HEX : string := "0123456789ABCDEF".
Definition upper_hex (v : Z) : ascii := default "0"%char (String.get (Z.to_nat v) UPPER_HEX).

Fixpoint percent_encode (input : string) : string :=
  match input with
  | EmptyString => ""
  | String c s =>
      if unreserved c then String c (percent_encode s)
      else String "%" (String (upper_hex (Z.shiftr (byte_code c) 4))
             (String (upper_hex (Z.land (byte_code c) 15)) (percent_encode s)))
  end.

Definition hex_value (c : ascii) : option Z :=
  let n := byte_code c in
  if between 48 57 n then Some (n - 48) else
  if between 97 102 n then Some (n - 97 + 10) else
  if between 65 70 n then Some (n - 65 + 10) else
  None.

Definition hex_pair (a b : ascii) : option ascii :=
  hi ← hex_value a; lo ← hex_value b; Some (byte_of (hi * 16 + lo)).

Fixpoint percent_bytes (s : string) : string :=
  match s with
  | EmptyString => ""
  | String c t =>
      if decide (c = "+"%char) then String " " (percent_bytes t)
      else if decide (c = "%"%char) then
        match t with
        | String a (String b r) =>
            match hex_pair a b with
            | Some byte => String byte (percent_bytes r)
            | None => String "%" (percent_bytes t)
            end
        | _ => String "%" (percent_bytes t)
        end
      else String c (percent_bytes t)
  end.

Definition percent_decode (input : string) : string := from_utf8_lossy (percent_bytes input).

Definition pair_text (k v : string) : string := k +:+ "=" +:+ v.

Definition form_urlencoded (pairs : list (string * string)) : string :=
  join "&" (map (fun '(k, v) => pair_text k (percent_encode v)) pairs).

Definition read_pair (pair : string) : string * string :=
  match split_once "=" pair with
  | Some (k, v) => (percent_decode k, percent_decode v)
  | None => (percent_decode pair, "")
  end.

Definition query_pairs (url : string) : list (string * string) :=
  let query := match split_once "?" url with Some (_, query) => query | None => url end in
  let query := match split_once "#" query with Some (query, _) => query | None => query end in
  map read_pair (List.filter (fun pair => negb (is_empty pair)) (split "&" query)).

(** ** What a browser comes back with *)

Inductive SignInError : Type :=
  | Http (text : string)
  | IoError (text : string)
  | Vendor (text : string)
  | Timeout
  | StateMismatch
  | NoEmail
  | BadUrl (text : string)
  | NotStarted
  | Proxy (text : string).

(** [Display], from the [thiserror] attributes. *)
Definition show_error (e : SignInError) : string :=
  match e with
  | Http text => "http error: " +:+ text
  | IoError text => "io error: " +:+ text
  | Vendor text => "vendor error: " +:+ text
  | Timeout => "timed out waiting for the browser callback"
  | StateMismatch => "oauth state mismatch"
  | NoEmail => "userinfo response contained no email"
  | BadUrl text => "invalid callback url: " +:+ text
  | NotStarted => "sign-in not started"
  | Proxy text => "proxy error: " +:+ text
  end.

Definition refused (err description : string) : SignInError :=
  Vendor ("authorization failed: " +:+ err +:+ " (" +:+ description +:+ ")").

(** What the callback server does with a request: hand the code on, answer
    an error page and keep waiting, or fail the sign-in. *)
Inductive CallbackOutcome : Type :=
  | Success (code : string)
  | Mismatch
  | Fatal (e : SignInError).

(** [classify_callback] of gemini.rs; the parameters are a [HashMap]. *)
Definition classify_callback (params : gmap string string) (expected_state : string) : CallbackOutcome :=
  match params !! "error" with
  | Some err => Fatal (refused err (default "" (params !! "error_description")))
  | None =>
      match params !! "state" with
      | Some state =>
          if decide (state = expected_state) then
            match params !! "code" with
            | Some code => if is_empty code then Mismatch else Success code
            | None => Mismatch
            end
          else Mismatch
      | None => Mismatch
      end
  end.

(** [classify_callback] of codex_signin.rs: a mismatch is an error there. *)
Definition codex_classify_callback (params : gmap string string) (expected_state : string)
  : result SignInError string :=
  match params !! "error" with
  | Some err => Err (refused err (default "" (params !! "error_description")))
  | None =>
      match params !! "state" with
      | Some state =>
          if decide (state = expected_state) then
            match params !! "code" with
            | Some code => if is_empty code then Err StateMismatch else Ok code
            | None => Err StateMismatch
            end
          else Err StateMismatch
      | None => Err StateMismatch
      end
  end.

(** The first value of a key in a pasted address. *)
Fixpoint find_pair (key : string) (pairs : list (string * string)) : option string :=
  match pairs with
  | [] => None
  | (k, v) :: pairs => if decide (k = key) then Some v else find_pair key pairs
  end.

(** [finish_pasted] up to its exchange; [no_code] is the error of an address
    without a code. *)
Definition pasted_code (no_code : SignInError) (callback_url expected_state : string) : result SignInError string :=
  let pairs := query_pairs callback_url in
  match find_pair "error" pairs with
  | Some err => Err (refused err (default "" (find_pair "error_description" pairs)))
  | None =>
      match find_pair "state" pairs with
      | Some state =>
          if decide (state = expected_state) then
            match find_pair "code" pairs with Some code => Ok code | None => Err no_code end
          else Err StateMismatch
      | None => Err StateMismatch
      end
  end.

Definition no_code : SignInError := BadUrl "callback url carries no authorization code".
Definition siwc_no_code : SignInError := Vendor "that address carries no code".

(** ** The pages a browser is sent to *)

Inductive GoogleApp : Type := Gemini | Antigravity.

Definition base (app : GoogleApp) : string :=
  match app with Gemini => GEMINI_CODE_ASSIST_BASE | Antigravity => ANTIGRAVITY_CODE_ASSIST_BASE end.
Definition load_base (_ : GoogleApp) : string := GEMINI_CODE_ASSIST_BASE.

Definition GEMINI_OAUTH_SCOPES : string :=
  "https://www.googleapis.com/auth/cloud-platform https://www.googleapis.com/auth/userinfo.email https://www.googleapis.com/auth/userinfo.profile".
Definition ANTIGRAVITY_OAUTH_SCOPES : string :=
  "https://www.googleapis.com/auth/cloud-platform https://www.googleapis.com/auth/userinfo.email https://www.googleapis.com/auth/userinfo.profile https://www.googleapis.com/auth/cclog https://www.googleapis.com/auth/experimentsandconfigs".

Record GeminiEndpoints := {
  ge_app : GoogleApp;
  ge_authorize_url : string;
  ge_token_url : string;
  ge_userinfo_url : string;
  ge_client_id : string;
  ge_client_secret : string;
  ge_scopes : string;
  ge_callback_path : string;
  ge_loopback_host : string;
  ge_base : string;
  ge_load_base : string
}.

Definition for_app (app : GoogleApp) : GeminiEndpoints :=
  let '(client_id, client_secret, scopes, callback_path, loopback_host) :=
    match app with
    | Gemini =>
        ("681255809395-oo8ft2oprdrnp9e3aqf6av3hmdib135j.apps.googleusercontent.com",
         "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", GEMINI_OAUTH_SCOPES, "/oauth2callback", "127.0.0.1")
    | Antigravity =>
        ("1071006060591-tmhssin2h21lcre235vtolojh4g403ep.apps.googleusercontent.com",
         "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", ANTIGRAVITY_OAUTH_SCOPES, "/oauth-callback", "localhost")
    end in
  {| ge_app := app;
     ge_authorize_url := "https://accounts.google.com/o/oauth2/v2/auth";
     ge_token_url := "https://oauth2.googleapis.com/token";
     ge_userinfo_url := "https://openidconnect.googleapis.com/v1/userinfo";
     ge_client_id := client_id; ge_client_secret := client_secret; ge_scopes := scopes;
     ge_callback_path := callback_path; ge_loopback_host := loopback_host;
     ge_base := base app; ge_load_base := load_base app |}.

(** The parameters are encoded one by one; the others are safe as they are. *)
Definition query_text (params : list (string * string)) : string :=
  join "&" (map (fun '(k, v) => pair_text k v) params).

Definition build_authorize_url (endpoints : GeminiEndpoints) (redirect_uri state challenge : string) : string :=
  ge_authorize_url endpoints +:+ "?" +:+ query_text [
    ("response_type", "code");
    ("client_id", percent_encode (ge_client_id endpoints));
    ("redirect_uri", percent_encode redirect_uri);
    ("scope", percent_encode (ge_scopes endpoints));
    ("access_type", "offline");
    ("prompt", "consent");
    ("state", percent_encode state);
    ("code_challenge", percent_encode challenge);
    ("code_challenge_method", "S256")].

Definition CODEX_OAUTH_SCOPES : string :=
  "openid profile email offline_access api.connectors.read api.connectors.invoke".
Definition CODEX_ORIGINATOR : string := "codex_cli_rs".

Record CodexEndpoints := {
  ce_authorize_url : string;
  ce_token_url : string;
  ce_client_id : string;
  ce_callback_addr : string
}.

Definition CodexEndpoints_default : CodexEndpoints :=
  {| ce_authorize_url := "https://auth.openai.com/oauth/authorize";
     ce_token_url := "https://auth.openai.com/oauth/token";
     ce_client_id := "app_EMoamEEZ73f0CkXaXp7hrann";
     ce_callback_addr := "http://localhost:1455/auth/callback" |}.

Definition codex_build_authorize_url (endpoints : CodexEndpoints) (state challenge : string) : string :=
  ce_authorize_url endpoints +:+ "?" +:+ query_text [
    ("response_type", "code");
    ("client_id", percent_encode (ce_client_id endpoints));
    ("redirect_uri", percent_encode (ce_callback_addr endpoints));
    ("scope", percent_encode CODEX_OAUTH_SCOPES);
    ("code_challenge", percent_encode challenge);
    ("code_challenge_method", "S256");
    ("id_token_add_organizations", "true");
    ("codex_cli_simplified_flow", "true");
    ("state", percent_encode state);
    ("originator", CODEX_ORIGINATOR)].

Definition SIWC_DYNAMIC_CLIENT : string := "dynamic_agent_client".
Definition SIWC_DIRECT_SCOPE : string := "chatgpt.tokens.use.direct".
Definition SIWC_SCOPES : string :=
  "openid profile email offline_access resource.invoke chatgpt.tokens.use.direct".

Record SiwcEndpoints := {
  se_issuer : string;
  se_authorize_url : string;
  se_token_url : string;
  se_api : string;
  se_agent_name : string
}.

Definition SiwcEndpoints_default : SiwcEndpoints :=
  {| se_issuer := "https://auth.openai.com";
     se_authorize_url := "https://auth.openai.com/api/accounts/authorize";
     se_token_url := "https://auth.openai.com/api/accounts/oauth/token";
     se_api := "https://api.openai.com/v1";
     se_agent_name := "any-converter" |}.

Definition siwc_url (endpoints : SiwcEndpoints) (host_id redirect state nonce challenge : string) : string :=
  se_authorize_url endpoints +:+ "?" +:+
  join "&" (map (fun '(k, v) => pair_text (percent_encode k) (percent_encode v)) [
    ("client_id", SIWC_DYNAMIC_CLIENT);
    ("agent_name_hint", se_agent_name endpoints);
    ("ext_agent_host_id", host_id);
    ("response_type", "code");
    ("redirect_uri", redirect);
    ("resource", se_api endpoints);
    ("scope", SIWC_SCOPES);
    ("state", state);
    ("nonce", nonce);
    ("code_challenge", challenge);
    ("code_challenge_method", "S256")]).

(** * What the encodings of the sign-ins promise

    Whatever is put into the query of an address or a form is read back: the
    vendor gets the parameters the code means, and a pasted address gives the
    code it carries, to the sign-in it belongs to only. *)

Local Open Scope Z_scope.

(** A fact of every byte, by trying them all. *)
Definition every_byte (p : ascii -> bool) : bool := forallb (fun n => p (ascii_of_nat n)) (seq 0 256).

Lemma every_byte_spec p c : every_byte p = true -> p c = true.
Proof.
  unfold every_byte. rewrite forallb_forall. intros H. rewrite <-(ascii_nat_embedding c). apply H.
  apply in_seq. pose proof (nat_ascii_bounded c). lia.
Qed.

Ltac by_bytes p c :=
  let H := fresh "H" in
  pose proof (every_byte_spec p c ltac:(vm_compute; reflexivity)) as H; cbv beta in H.

(** ** Percent encoding *)

Lemma unreserved_literal c : unreserved c = true -> c <> "+"%char /\ c <> "%"%char.
Proof. intros Hc. split; intros ->; discriminate. Qed.

Lemma hex_pair_upper c :
  hex_pair (upper_hex (Z.shiftr (byte_code c) 4)) (upper_hex (Z.land (byte_code c) 15)) = Some c.
Proof.
  by_bytes (fun c => bool_decide
    (hex_pair (upper_hex (Z.shiftr (byte_code c) 4)) (upper_hex (Z.land (byte_code c) 15)) = Some c)) c.
  by apply bool_decide_eq_true in H.
Qed.

Lemma upper_hex_unreserved c :
  unreserved (upper_hex (Z.shiftr (byte_code c) 4)) = true /\ unreserved (upper_hex (Z.land (byte_code c) 15)) = true.
Proof.
  by_bytes (fun c => unreserved (upper_hex (Z.shiftr (byte_code c) 4)) &&
                     unreserved (upper_hex (Z.land (byte_code c) 15))) c.
  by apply andb_true_iff in H.
Qed.

Lemma percent_bytes_encode s : percent_bytes (percent_encode s) = s.
Proof.
  induction s as [|c s IH]; [done|]. cbn [percent_encode]. destruct (unreserved c) eqn:Hc.
  - destruct (unreserved_literal c Hc). cbn [percent_bytes]. rewrite !decide_False by done. by rewrite IH.
  - cbn [percent_bytes]. rewrite decide_False, decide_True, hex_pair_upper by done. by rewrite IH.
Qed.

Lemma percent_decode_encode s : is_utf8 s = true -> percent_decode (percent_encode s) = s.
Proof. intros Hs. unfold percent_decode. rewrite percent_bytes_encode. by apply from_utf8_lossy_id. Qed.

Lemma percent_encode_clean d s :
  unreserved d = false -> d <> "%"%char -> str_in d (percent_encode s) = false.
Proof.
  intros Hd Hp. induction s as [|c s IH]; [done|]. cbn [percent_encode].
  assert (forall e, unreserved e = true -> d <> e) as Hne by (intros e He ->; congruence).
  destruct (unreserved c) eqn:Hc; rewrite !str_in_cons_false; [by auto|].
  destruct (upper_hex_unreserved c). by auto.
Qed.

(** A text that percent encoding leaves as it is. *)
Fixpoint plain (s : string) : bool :=
  match s with EmptyString => true | String c s => unreserved c && plain s end.

Lemma plain_encode s : plain s = true -> percent_encode s = s.
Proof.
  induction s as [|c s IH]; [done|]. cbn [plain percent_encode]. intros [-> Hs]%andb_true_iff.
  by rewrite IH.
Qed.

Lemma plain_utf8 s : plain s = true -> is_utf8 s = true.
Proof.
  unfold is_utf8. induction s as [|c s IH]; [done|]. cbn [plain utf8_after].
  intros [Hc Hs]%andb_true_iff.
  by_bytes (fun c => negb (unreserved c) || bool_decide (utf8_need (byte_val c) = Some [])) c.
  rewrite Hc in H. apply bool_decide_eq_true in H. rewrite H. by apply IH.
Qed.

Lemma plain_decode s : plain s = true -> percent_decode s = s.
Proof. intros Hs. rewrite <-(plain_encode s Hs) at 1. by apply percent_decode_encode, plain_utf8. Qed.

Lemma plain_clean d s : plain s = true -> unreserved d = false -> d <> "%"%char -> str_in d s = false.
Proof. intros Hs. rewrite <-(plain_encode s Hs). apply percent_encode_clean. Qed.

(** ** Queries *)

(** A pair of a query as it is written: its key is plain, its value percent
    encoded. *)
Record written (text k v : string) : Prop := {
  wr_text : text = pair_text k (percent_encode v);
  wr_key : plain k = true;
  wr_value : is_utf8 v = true
}.

Lemma written_encode k v : plain k = true -> is_utf8 v = true -> written (pair_text k (percent_encode v)) k v.
Proof. by split. Qed.

Lemma written_plain k v : plain k = true -> plain v = true -> written (pair_text k v) k v.
Proof. intros Hk Hv. split; [by rewrite plain_encode|done|by apply plain_utf8]. Qed.

Lemma written_both k v :
  plain k = true -> is_utf8 v = true -> written (pair_text (percent_encode k) (percent_encode v)) k v.
Proof. intros Hk Hv. split; [by rewrite (plain_encode k)|done|done]. Qed.

Lemma written_read text k v : written text k v -> read_pair text = (k, v).
Proof.
  intros [-> Hk Hv]. unfold read_pair, pair_text.
  rewrite split_once_first by (by apply plain_clean).
  by rewrite plain_decode, percent_decode_encode.
Qed.

Lemma written_clean d text k v :
  written text k v -> unreserved d = false -> d <> "%"%char -> d <> "="%char -> str_in d text = false.
Proof.
  intros [-> Hk Hv] Hd Hp He. unfold pair_text. rewrite !str_in_app, plain_clean, percent_encode_clean by done.
  cbn. by rewrite decide_False.
Qed.

Lemma written_nonempty text k v : written text k v -> is_empty text = false.
Proof. intros [-> _ _]. unfold pair_text. by destruct k. Qed.

Lemma join_clean c sep l :
  str_in c sep = false -> Forall (fun t => str_in c t = false) l -> str_in c (join sep l) = false.
Proof.
  intros Hs. induction 1 as [|t l Ht Hl IH]; [done|]. destruct l; [done|].
  change (str_in c (t +:+ sep +:+ join sep (s :: l)) = false). by rewrite !str_in_app, Ht, Hs, IH.
Qed.

Lemma read_query address texts pairs :
  str_in "?" address = false -> texts <> [] ->
  Forall2 (fun text '(k, v) => written text k v) texts pairs ->
  query_pairs (address +:+ "?" +:+ join "&" texts) = pairs.
Proof.
  intros Ha Hne Hw.
  assert (forall d, unreserved d = false -> d <> "%"%char -> d <> "="%char ->
    Forall (fun t => str_in d t = false) texts) as Hclean.
  { intros d Hd Hp He. clear -Hw Hd Hp He. induction Hw as [|t [k v] ts ps Ht _ IH]; constructor; [|done].
    by eapply written_clean. }
  unfold query_pairs. rewrite split_once_first by done.
  rewrite split_once_none by (by apply join_clean, Hclean).
  rewrite split_join by (done || by apply Hclean). clear Hne Hclean.
  induction Hw as [|t [k v] ts ps Ht _ IH]; [done|]. cbn [List.filter].
  rewrite (written_nonempty _ _ _ Ht). cbn [negb map]. by rewrite IH, (written_read _ _ _ Ht).
Qed.

Lemma find_pair_none key pairs : key ∉ pairs.*1 -> find_pair key pairs = None.
Proof.
  induction pairs as [|[k v] pairs IH]; [done|]. cbn [fmap list_fmap find_pair fst].
  intros [Hk Hn]%list.not_elem_of_cons. rewrite decide_False by done. by apply IH.
Qed.

(** ** base64url *)

(** The characters in which it differs from base64. *)
Definition to_url (c : ascii) : ascii :=
  if decide (c = "+"%char) then "-"%char else if decide (c = "/"%char) then "_"%char else c.
Fixpoint map_chars (f : ascii -> ascii) (s : string) : string :=
  match s with EmptyString => "" | String c s => String (f c) (map_chars f s) end.

Lemma map_chars_app f a b : map_chars f (a +:+ b) = map_chars f a +:+ map_chars f b.
Proof. induction a as [|c a IH]; [done|]. rewrite !app_cons_str. cbn [map_chars]. by rewrite IH, app_cons_str. Qed.

Lemma url_value_to_url c : base64_value c <> None -> url_value (to_url c) = base64_value c.
Proof.
  by_bytes (fun c => bool_decide (base64_value c = None) || bool_decide (url_value (to_url c) = base64_value c)) c.
  intros Hc. apply orb_true_iff in H as [H|H]; by apply bool_decide_eq_true in H.
Qed.

Lemma url_char_to_url v : 0 <= v < 64 -> url_char v = to_url (base64_char v).
Proof.
  intros Hv.
  assert (forallb (fun i => bool_decide (url_char (Z.of_nat i) = to_url (base64_char (Z.of_nat i)))) (seq 0 64) = true)
    as H by (vm_compute; reflexivity).
  rewrite forallb_forall in H. specialize (H (Z.to_nat v)). rewrite Z2Nat.id in H by lia.
  rewrite bool_decide_eq_true in H. apply H, in_seq. lia.
Qed.

Lemma url_decode_to_url s acc bits :
  decode_loop s acc bits <> None -> url_decode_loop (map_chars to_url s) acc bits = decode_loop s acc bits.
Proof.
  revert acc bits. induction s as [|c s IH]; intros acc bits; [done|].
  cbn [map_chars url_decode_loop decode_loop]. destruct (base64_value c) as [v|] eqn:Hv; [|done].
  rewrite url_value_to_url, Hv by (by rewrite Hv). cbn [mbind option_bind].
  destruct (8 <=? bits + 6).
  - intros Hd. rewrite IH; [done|]. by destruct (decode_loop s _ _).
  - apply IH.
Qed.

Lemma base64url_chunk_chars chunk :
  Forall is_byte chunk -> (0 < length chunk <= 3)%nat ->
  exists k, map_chars to_url (encode_chunk chunk) = base64url_chunk chunk +:+ pads k.
Proof.
  intros Hb Hl.
  assert (forall n i, url_char (Z.land (Z.shiftr n i) 63) = to_url (base64_char (Z.land (Z.shiftr n i) 63))) as Hc.
  { intros n i. apply url_char_to_url. rewrite land_63. by apply Z.mod_pos_bound. }
  destruct chunk as [|a [|b [|c [|]]]]; cbn in Hl; try lia;
    unfold base64url_chunk, encode_chunk; cbn -[url_char base64_char Z.land Z.shiftr Z.shiftl Z.lor to_url chunk_bits];
    rewrite !Hc; unfold chunk_bits; cbn -[base64_char Z.land Z.shiftr Z.shiftl Z.lor to_url];
    rewrite ?Z.lor_0_r, ?Z.shiftl_0_l, ?Z.lor_0_r, ?Z.shiftl_0_r.
  - exists 2%nat. done.
  - exists 1%nat. done.
  - exists 0%nat. done.
Qed.

Lemma map_pads k : map_chars to_url (pads k) = pads k.
Proof. induction k as [|k IH]; [done|]. rewrite !pads_S. cbn [map_chars]. by rewrite IH. Qed.

Lemma length_map_chars f s : String.length (map_chars f s) = String.length s.
Proof. induction s as [|c s IH]; [done|]. cbn [map_chars String.length]. by rewrite IH. Qed.

Lemma map_to_url_clean s : str_in "=" s = false -> str_in "=" (map_chars to_url s) = false.
Proof.
  induction s as [|c s IH]; [done|]. intros [Hc Hs]%str_in_cons_false. cbn [map_chars].
  apply str_in_cons_false. split; [|by apply IH]. unfold to_url. by repeat case_decide.
Qed.

Lemma bytes_are s : Forall is_byte (bytes s).
Proof. induction s as [|c s IH]; constructor; [apply byte_code_range|done]. Qed.

Lemma base64url_to_url m data :
  (length data <= m)%nat -> Forall is_byte data ->
  exists k, map_chars to_url (concat_strings (map encode_chunk (chunks3 data))) = base64url data +:+ pads k.
Proof.
  revert data. induction m as [|m IH]; intros data Hm Hb; (destruct data as [|a data]; [by exists 0%nat|]);
    cbn [length] in Hm; [lia|].
  unfold base64url.
  destruct data as [|b [|c data]]; cbn [chunks3 map concat_strings foldr]; rewrite map_chars_app.
  1,2: rewrite app_nil_r_str; cbn [map_chars]; rewrite app_nil_r_str; apply base64url_chunk_chars; [done|cbn; lia].
  apply (list.Forall_app _ [a; b; c] data) in Hb as [H3 Hd].
  destruct (base64url_chunk_chars [a; b; c] H3) as [k Hk]; [cbn; lia|]. cbn [length] in Hm.
  destruct (IH data) as [j Hj]; [lia|done|].
  fold (concat_strings (map encode_chunk (chunks3 data))). fold (base64url data). rewrite Hk, Hj.
  exists j. destruct k as [|k]; [by rewrite app_nil_r_str, app_assoc_str|].
  exfalso. apply (f_equal String.length) in Hk. revert Hk.
  rewrite length_map_chars, length_encode_chunk, length_app_str, length_pads.
  change (String.length (base64url_chunk [a; b; c])) with 4%nat. lia.
Qed.

Lemma base64url_clean data : Forall is_byte data -> str_in "=" (base64url data) = false.
Proof.
  intros Hb.
  assert (forall n i, url_char (Z.land (Z.shiftr n i) 63) <> "="%char) as Hc.
  { intros n i. rewrite url_char_to_url by (rewrite land_63; by apply Z.mod_pos_bound).
    set (v := Z.land _ 63). assert (0 <= v < 64) as Hv by (unfold v; rewrite land_63; by apply Z.mod_pos_bound).
    pose proof (base64_char_not_pad v Hv). unfold to_url. by repeat case_decide. }
  unfold base64url. rewrite str_in_concat. apply not_true_iff_false. intros Hx.
  apply existsb_exists in Hx as (t & Ht & Hin). apply in_map_iff in Ht as (chunk & <- & _).
  unfold base64url_chunk in Hin. revert Hin.
  destruct (1 <? length chunk)%nat, (2 <? length chunk)%nat;
    repeat first [rewrite app_nil_l_str | rewrite app_nil_r_str | rewrite app_cons_str]; cbn [str_in];
    repeat rewrite decide_False by (intros E; symmetry in E; exact (Hc _ _ E)); done.
Qed.

Lemma base64url_roundtrip s : base64url_decode (base64url (bytes s)) = Some s.
Proof.
  destruct (base64_encode_shape (String.length s) s (le_n _)) as (body & k & Henc & Hclean & Hdec).
  destruct (base64url_to_url (length (bytes s)) (bytes s) (le_n _) (bytes_are s)) as [j Hj].
  assert (base64url (bytes s) = map_chars to_url body) as ->.
  { change (concat_strings _) with (base64_encode s) in Hj. rewrite Henc, map_chars_app, map_pads in Hj.
    rewrite <-(trim_end_pads (map_chars to_url body) k (map_to_url_clean _ Hclean)), Hj. symmetry. apply trim_end_pads, base64url_clean, bytes_are. }
  unfold base64url_decode. rewrite <-(app_nil_r_str (map_chars to_url body)). change "" with (pads 0).
  rewrite trim_end_pads by (by apply map_to_url_clean). by rewrite url_decode_to_url; rewrite Hdec.
Qed.

(** Its characters need no percent encoding. *)
Lemma plain_app a b : plain (a +:+ b) = plain a && plain b.
Proof. induction a as [|c a IH]; [done|]. rewrite app_cons_str. cbn [plain]. by rewrite IH, andb_assoc. Qed.

Lemma base64url_plain data : plain (base64url data) = true.
Proof.
  assert (forall n i, unreserved (url_char (Z.land (Z.shiftr n i) 63)) = true) as Hc.
  { intros n i. set (v := Z.land _ 63).
    assert (0 <= v < 64) as Hv by (unfold v; rewrite land_63; by apply Z.mod_pos_bound).
    assert (forallb (fun i => unreserved (url_char (Z.of_nat i))) (seq 0 64) = true) as H by (vm_compute; reflexivity).
    rewrite forallb_forall in H. specialize (H (Z.to_nat v)). rewrite Z2Nat.id in H by lia. apply H, in_seq. lia. }
  unfold base64url. induction (chunks3 data) as [|chunk l IH]; [done|].
  cbn [map concat_strings foldr]. rewrite plain_app. apply andb_true_iff. split; [|exact IH].
  unfold base64url_chunk. destruct (1 <? length chunk)%nat, (2 <? length chunk)%nat;
    repeat first [rewrite app_nil_l_str | rewrite app_nil_r_str | rewrite app_cons_str]; cbn [plain];
    by rewrite !Hc.
Qed.

(** ** Theorems *)

(** The pairs of a form: keys the code writes itself, values of any text. *)
Definition formable (pairs : list (string * string)) : Prop :=
  Forall (fun p => plain p.1 = true /\ is_utf8 p.2 = true) pairs.

Lemma form_written pairs :
  formable pairs ->
  Forall2 (fun text '(k, v) => written text k v)
    (map (fun '(k, v) => pair_text k (percent_encode v)) pairs) pairs.
Proof. induction 1 as [|[k v] pairs [Hk Hv] _ IH]; constructor; [by apply written_encode|done]. Qed.

Lemma form_read address pairs :
  str_in "?" address = false -> pairs <> [] -> formable pairs ->
  query_pairs (address +:+ "?" +:+ form_urlencoded pairs) = pairs.
Proof.
  intros Ha Hne Hf. apply read_query; [done| |by apply form_written]. by destruct pairs as [|[]].
Qed.

(** [finish_pasted] takes from a pasted address exactly the code the
    vendor put into it: whatever text the code, the state and the other
    parameters are, the address of a callback with those parameters gives the
    code [c] if and only if it reports no error, its state is the one this
    sign-in sent out and [code] is [c]. *)
Theorem pasted_code_spec no_code address pairs expected c :
  str_in "?" address = false -> pairs <> [] -> formable pairs ->
  pasted_code no_code (address +:+ "?" +:+ form_urlencoded pairs) expected = Ok c <->
  find_pair "error" pairs = None /\ find_pair "state" pairs = Some expected /\ find_pair "code" pairs = Some c.
Proof.
  intros Ha Hne Hf. unfold pasted_code. rewrite form_read by done.
  destruct (find_pair "error" pairs); [by split; [|intros (? & _)]|].
  destruct (find_pair "state" pairs) as [state|]; [|by split; [|intros (_ & ? & _)]].
  case_decide as Hs; [subst state|split; [done|intros (_ & [= ->] & _); done]].
  destruct (find_pair "code" pairs) as [c'|]; [|by split; [|intros (_ & _ & ?)]].
  split; [by intros [= ->]|by intros (_ & _ & [= ->])].
Qed.

Lemma pasted_code_spec_witness :
  let pairs := [("iss", "https://accounts.google.com"); ("state", "s&=1"); ("code", "4/0A #b+c"); ("scope", "a b")] in
  pasted_code no_code ("http://127.0.0.1:4711/oauth2callback" +:+ "?" +:+ form_urlencoded pairs) "s&=1" = Ok "4/0A #b+c".
Proof.
  cbv zeta. apply pasted_code_spec; [reflexivity|discriminate| |split; [|split]; reflexivity].
  repeat constructor.
Defined.

(** What the vendor reads from the query of the authorize address of Google,
    of Codex and of a ChatGPT sign-in, whatever the redirect address, the
    state and the host are. *)
Lemma authorize_urls app redirect state nonce host verifier :
  is_utf8 redirect = true -> is_utf8 state = true -> is_utf8 nonce = true -> is_utf8 host = true ->
  let challenge := base64url (sha256 (bytes verifier)) in
  query_pairs (build_authorize_url (for_app app) redirect state challenge) =
    [("response_type", "code"); ("client_id", ge_client_id (for_app app)); ("redirect_uri", redirect);
     ("scope", ge_scopes (for_app app)); ("access_type", "offline"); ("prompt", "consent"); ("state", state);
     ("code_challenge", challenge); ("code_challenge_method", "S256")] /\
  query_pairs (codex_build_authorize_url CodexEndpoints_default state challenge) =
    [("response_type", "code"); ("client_id", "app_EMoamEEZ73f0CkXaXp7hrann");
     ("redirect_uri", "http://localhost:1455/auth/callback"); ("scope", CODEX_OAUTH_SCOPES);
     ("code_challenge", challenge); ("code_challenge_method", "S256"); ("id_token_add_organizations", "true");
     ("codex_cli_simplified_flow", "true"); ("state", state); ("originator", CODEX_ORIGINATOR)] /\
  query_pairs (siwc_url SiwcEndpoints_default host redirect state nonce challenge) =
    [("client_id", SIWC_DYNAMIC_CLIENT); ("agent_name_hint", "any-converter"); ("ext_agent_host_id", host);
     ("response_type", "code"); ("redirect_uri", redirect); ("resource", "https://api.openai.com/v1");
     ("scope", SIWC_SCOPES); ("state", state); ("nonce", nonce); ("code_challenge", challenge);
     ("code_challenge_method", "S256")].
Proof.
  intros Hr Hs Hn Hh challenge.
  assert (is_utf8 challenge = true) as Hc by apply plain_utf8, base64url_plain.
  assert (is_utf8 (ge_client_id (for_app app)) = true /\ is_utf8 (ge_scopes (for_app app)) = true) as [? ?]
    by (by destruct app).
  split; [|split]; (apply read_query; [by destruct app|discriminate|]); cbn [map].
  all: repeat (apply List.Forall2_cons;
         [first [by apply written_encode | by apply written_plain | by apply written_both]|]).
  all: done.
Qed.
