(* ===== verification/Float64.v ===== *)
(** * Double precision

    The [f64] of Rust: a [spec_float] of the Standard Library at 53 bits of
    precision and exponents below 1024, with the casts and operators the
    program uses. *)
From Stdlib Require Import ZArith Lia Floats.SpecFloat.
From S2P Require Import Prelude.
From S2P Require Import RustStd.

Local Open Scope Z_scope.

Definition f64 : Type := spec_float.
#[export] Instance f64_eq_dec : EqDecision f64.
Proof. unfold f64. solve_decision. Defined.

Definition prec : Z := 53.
Definition emax : Z := 1024.

Definition f64_zero : f64 := S754_zero false.
Definition f64_add : f64 -> f64 -> f64 := SFadd prec emax.
Definition f64_sub : f64 -> f64 -> f64 := SFsub prec emax.
Definition f64_mul : f64 -> f64 -> f64 := SFmul prec emax.
Definition f64_div : f64 -> f64 -> f64 := SFdiv prec emax.
Definition f64_le : f64 -> f64 -> bool := SFleb.

(** [n as f64]. *)
Definition f64_of_Z (n : Z) : f64 := binary_normalize prec emax n 0 false.

(** [f as i64]: towards zero, saturating, and 0 for a NaN. *)
Definition f64_as_i64 (f : f64) : Z :=
  let clamp z := Z.max (- 2 ^ 63) (Z.min (2 ^ 63 - 1) z) in
  match f with
  | S754_zero _ | S754_nan => 0
  | S754_infinity true => - 2 ^ 63
  | S754_infinity false => 2 ^ 63 - 1
  | S754_finite sign m e =>
      let magnitude := if 0 <=? e then Zpos m * 2 ^ e else Z.div (Zpos m) (2 ^ (- e)) in
      clamp (if sign then - magnitude else magnitude)
  end.

Example f64_casts : map (fun n => f64_as_i64 (f64_of_Z n)) [0; 3600; -7; 2 ^ 53; 2 ^ 70] = [0; 3600; -7; 2 ^ 53; 2 ^ 63 - 1].
Proof. vm_compute. reflexivity. Qed.
