(* ===== verification/VendorSignIn.v ===== *)
(** * What the vendors say of an account

    The parts of the sign-ins that read a vendor's answer: the identity in a
    ChatGPT ID token (credentials/codex_signin.rs, siwc_signin.rs), the
    refusals of a refresh (siwc_signin.rs), and GitHub's device flow and
    session tokens (credentials/copilot.rs). The accounts they end in are what
    SignIn.v stores. *)
From Stdlib Require Import ZArith Lia Floats.SpecFloat.
From stdpp Require Import gmap pretty.
From S2P Require Import Prelude.
From S2P Require Import RustStd.
From S2P Require Import Json.
From S2P Require Import Utf8.
From S2P Require Import Float64.
From S2P Require Import Base64.
From S2P Require Import Sha256.
From S2P Require Import OAuth.

Local Open Scope Z_scope.

(** Times are in nanoseconds. *)
Definition secs (n : Z) : Z := n * 1000000000.

(** ** The accounts *)

Record GeminiAccount := {
  ga_email : string; ga_access_token : string; ga_refresh_token : option string; ga_expires_at : option Z
}.
Record CodexAccount := {
  ca_user : string; ca_email : string; ca_plan : string; ca_account_id : string;
  ca_access_token : string; ca_refresh_token : string; ca_id_token : string; ca_expires_at_unix : option Z
}.
Record SiwcAccount := {
  wa_user : string; wa_plan : string; wa_access : string; wa_refresh : string; wa_id_token : string;
  wa_client_id : string; wa_host_id : string; wa_scopes : list string; wa_expires_at_unix : Z
}.
Record CopilotAccount := {
  pa_user : string; pa_plan : string; pa_user_code_hint : string; pa_access_token : string
}.
Record ClaudeAccount := {
  la_user : string; la_plan : string; la_org : string; la_access_token : string; la_refresh_token : string;
  la_expires_at_unix : option Z
}.

Definition codex_account_id (a : CodexAccount) : string := "codex:" +:+ ca_email a.
Definition siwc_account_id (a : SiwcAccount) : string := "chatgpt-api:" +:+ wa_user a.
Definition claude_account_id (a : ClaudeAccount) : string := "claude:" +:+ la_user a.
Definition copilot_account_id (a : CopilotAccount) : string :=
  "copilot:" +:+ (if is_empty (pa_user a) then pa_user_code_hint a else pa_user a).

(** ** The vendors, reached through reqwest *)

Record HttpReply := {
  hr_status : Z;
  (** What [{status}] shows. *)
  hr_shown : string;
  hr_body : string
}.
Class VendorHttp := {
  http_post : string -> list (string * string) -> string -> result SignInError HttpReply;
  http_get : string -> list (string * string) -> result SignInError HttpReply
}.
Definition FORM_TYPE : string * string := ("Content-Type", "application/x-www-form-urlencoded").

Definition is_success (reply : HttpReply) : bool := between 200 299 (hr_status reply).

(** [i64] addition, which wraps around in the release profile. *)
Definition i64_add (a b : Z) : Z := (a + b + 2 ^ 63) mod 2 ^ 64 - 2 ^ 63.

(** ** ID tokens *)

Section claims.
Context `{SerdeJson}.

(** [id_token_claims] and [jwt_claims]: the payload of a JWT, whose signature
    is not looked at. *)
Definition jwt_claims (token : string) : option Value :=
  payload ← split "." token !! 1%nat;
  bytes ← base64url_decode payload;
  match value_from_str bytes with Ok v => Some v | Err _ => None end.

Definition access_token_exp (access_token : string) : option Z :=
  claims ← jwt_claims access_token;
  get_key "exp" claims ≫= as_i64.

Fixpoint walk (path : list string) (claims : Value) : option Value :=
  match path with
  | [] => Some claims
  | key :: path => next ← get_key key claims; walk path next
  end.

Definition claim_str (claims : option Value) (path : list string) : string :=
  default "" (v ← claims; w ← walk path v; as_str w).

Definition AUTH_CLAIM : string := "https://api.openai.com/auth".
Definition chatgpt_plan (claims : option Value) : string := claim_str claims [AUTH_CLAIM; "chatgpt_plan_type"].

(** The first letter in upper case. *)
Definition plan_label (plan : string) : string :=
  match plan with
  | EmptyString => ""
  | String c rest => String (if between 97 122 (byte_val c) then ascii_of_nat (nat_of_ascii c - 32) else c) rest
  end.

Definition codex_user (email plan : string) : string :=
  if decide (plan ∈ ["team"; "business"; "enterprise"; "edu"]) then email +:+ " · " +:+ plan_label plan else email.

Definition account_from_claims (id_token access_token refresh_token : string) : result SignInError CodexAccount :=
  let claims := jwt_claims id_token in
  let email := trim (claim_str claims ["email"]) in
  if is_empty email then Err (Vendor "ChatGPT didn't say which account signed in")
  else
    let plan := chatgpt_plan claims in
    Ok {| ca_user := codex_user email plan; ca_email := email; ca_plan := plan;
          ca_account_id := claim_str claims [AUTH_CLAIM; "chatgpt_account_id"];
          ca_access_token := access_token; ca_refresh_token := refresh_token; ca_id_token := id_token;
          ca_expires_at_unix := access_token_exp access_token |}.

(** The answer of the token endpoint of Codex. *)
Record CodexTokens := { ct_id_token : option string; ct_access_token : option string; ct_refresh_token : option string }.

Record PkceSession := { ps_verifier : string; ps_state : string; ps_redirect_uri : string }.

(** [start] of codex_signin.rs: the page to open and whether it must be
    pasted, and the session; [port_taken] says that [take_port] gave up. *)
Record CodexStarted := { cd_url : string; cd_paste_callback : bool; cd_callback_blocked : string; cd_state : string }.

Definition codex_start (endpoints : CodexEndpoints) (uuids uuids_state : nat -> list Z) (port_taken : bool)
  : CodexStarted * PkceSession :=
  let verifier := hex_encode (random_bytes uuids 32) in
  let state := hex_encode (random_bytes uuids_state 24) in
  let challenge := base64url (sha256 (bytes verifier)) in
  let callback_blocked := if port_taken then "busy" else "" in
  ({| cd_url := codex_build_authorize_url endpoints state challenge;
      cd_paste_callback := bool_decide (callback_blocked = "busy");
      cd_callback_blocked := callback_blocked; cd_state := state |},
   {| ps_verifier := verifier; ps_state := state; ps_redirect_uri := ce_callback_addr endpoints |}).

(** [take_port]: the n-th try to bind. *)
Fixpoint take_port (tries : nat) (bind : nat -> bool) (n : nat) : bool :=
  match tries with
  | O => false
  | S tries => bind n || take_port tries bind (S n)
  end.

Definition codex_form (endpoints : CodexEndpoints) (code verifier : string) : list (string * string) := [
  ("grant_type", "authorization_code");
  ("code", code);
  ("redirect_uri", ce_callback_addr endpoints);
  ("client_id", ce_client_id endpoints);
  ("code_verifier", verifier)].

(** [complete] of codex_signin.rs up to the write to the store of Codex,
    whose failure it only logs. *)
Definition codex_complete `{VendorHttp} `{Deserialize CodexTokens} (user_agent : string) (endpoints : CodexEndpoints)
    (code verifier : string) : result SignInError CodexAccount :=
  match http_post (ce_token_url endpoints) [("originator", CODEX_ORIGINATOR); ("User-Agent", user_agent); FORM_TYPE]
          (form_urlencoded (codex_form endpoints code verifier)) with
  | Err e => Err e
  | Ok reply =>
      if negb (is_success reply) then
        Err (Vendor ("token endpoint returned " +:+ hr_shown reply +:+ ": " +:+ hr_body reply))
      else
        match from_json (hr_body reply) with
        | Err e => Err (Vendor ("token endpoint returned malformed payload: " +:+ e))
        | Ok tokens =>
            match ct_id_token tokens, ct_access_token tokens, ct_refresh_token tokens with
            | Some id_token, Some access_token, Some refresh_token =>
                account_from_claims id_token access_token refresh_token
            | _, _, _ =>
                Err (Vendor "ChatGPT token exchange came back without the tokens needed (id_token, access_token, refresh_token)")
            end
        end
  end.

(** ** Google *)

Record SignInStarted := { ss_url : string; ss_paste_callback : bool; ss_port : Z; ss_state : string }.

Definition google_start (endpoints : GeminiEndpoints) (uuids uuids_state : nat -> list Z) (port : Z)
  : SignInStarted * PkceSession :=
  let verifier := hex_encode (random_bytes uuids 32) in
  let state := hex_encode (random_bytes uuids_state 24) in
  let challenge := base64url (sha256 (bytes verifier)) in
  let redirect_uri :=
    "http://" +:+ ge_loopback_host endpoints +:+ ":" +:+ pretty port +:+ ge_callback_path endpoints in
  ({| ss_url := build_authorize_url endpoints redirect_uri state challenge; ss_paste_callback := true;
      ss_port := port; ss_state := state |},
   {| ps_verifier := verifier; ps_state := state; ps_redirect_uri := redirect_uri |}).

Record TokenExchangeRequest := {
  tx_token_url : string; tx_code : string; tx_redirect_uri : string; tx_client_id : string;
  tx_client_secret : string; tx_code_verifier : string
}.
Record TokenEndpointResponse := {
  tr_access_token : string; tr_refresh_token : option string; tr_expires_in : option Z
}.
Record Userinfo := { ui_email : option string }.

Definition exchange_form (request : TokenExchangeRequest) : list (string * string) := [
  ("grant_type", "authorization_code");
  ("code", tx_code request);
  ("redirect_uri", tx_redirect_uri request);
  ("client_id", tx_client_id request);
  ("client_secret", tx_client_secret request);
  ("code_verifier", tx_code_verifier request)].

Definition exchange_code `{VendorHttp} `{Deserialize TokenEndpointResponse} (request : TokenExchangeRequest)
  : result SignInError TokenEndpointResponse :=
  match http_post (tx_token_url request) [FORM_TYPE] (form_urlencoded (exchange_form request)) with
  | Err e => Err e
  | Ok reply =>
      if negb (is_success reply) then
        Err (Vendor ("token endpoint returned " +:+ hr_shown reply +:+ ": " +:+ hr_body reply))
      else map_err (fun e => Vendor ("token endpoint returned malformed payload: " +:+ e)) (from_json (hr_body reply))
  end.

Definition fetch_userinfo `{VendorHttp} `{Deserialize Userinfo} (userinfo_url access_token : string)
  : result SignInError (option string) :=
  match http_get userinfo_url [("Authorization", "Bearer " +:+ access_token)] with
  | Err e => Err e
  | Ok reply =>
      if negb (is_success reply) then
        Err (Vendor ("userinfo endpoint returned " +:+ hr_shown reply +:+ ": " +:+ hr_body reply))
      else
        match from_json (hr_body reply) with
        | Ok u => Ok (ui_email u)
        | Err e => Err (Vendor ("userinfo endpoint returned malformed payload: " +:+ e))
        end
  end.

(** [Instant::checked_add] of seconds: the seconds of an instant are an
    [i64]. Instants are in nanoseconds. *)
Definition instant_checked_add (now d : Z) : option Z :=
  if now / secs 1 + d <=? 2 ^ 63 - 1 then Some (now + secs d) else None.

(** [complete] of gemini.rs; [now] is the instant when the answers are in. *)
Definition google_complete `{VendorHttp} `{Deserialize TokenEndpointResponse} `{Deserialize Userinfo} (now : Z)
    (endpoints : GeminiEndpoints) (code : string) (session : PkceSession) : result SignInError GeminiAccount :=
  match exchange_code {| tx_token_url := ge_token_url endpoints; tx_code := code;
                         tx_redirect_uri := ps_redirect_uri session; tx_client_id := ge_client_id endpoints;
                         tx_client_secret := ge_client_secret endpoints; tx_code_verifier := ps_verifier session |} with
  | Err e => Err e
  | Ok response =>
      match fetch_userinfo (ge_userinfo_url endpoints) (tr_access_token response) with
      | Err e => Err e
      | Ok None => Err NoEmail
      | Ok (Some email) =>
          Ok {| ga_email := email; ga_access_token := tr_access_token response;
                ga_refresh_token := tr_refresh_token response;
                ga_expires_at := d ← tr_expires_in response; instant_checked_add now d |}
      end
  end.

(** ** Sign in with ChatGPT *)

Record SiwcTokens := {
  sk_access : string; sk_refresh : string; sk_id_token : string; sk_expires_in : Z; sk_scope : string
}.
(** The answer as it is parsed. *)
Record Reply := {
  sr_access_token : string; sr_refresh_token : string; sr_id_token : string; sr_expires_in : f64; sr_scope : string
}.

Definition parse_tokens `{Deserialize Reply} (body : string) : result SignInError SiwcTokens :=
  match from_json body with
  | Err e => Err (Vendor ("unreadable token answer: " +:+ e))
  | Ok reply =>
      if is_empty (sr_access_token reply) || is_empty (sr_refresh_token reply) then Err (Vendor "OpenAI sent no token")
      else if f64_le (sr_expires_in reply) f64_zero then Err (Vendor "OpenAI's token has no lifetime")
      else if negb (bool_decide (SIWC_DIRECT_SCOPE ∈ split_ascii_whitespace (sr_scope reply))) then
        Err (Vendor ("OpenAI didn't grant the use of the subscription through its API (" +:+ SIWC_DIRECT_SCOPE +:+
          "): this ChatGPT account may not be eligible"))
      else Ok {| sk_access := sr_access_token reply; sk_refresh := sr_refresh_token reply;
                 sk_id_token := sr_id_token reply; sk_expires_in := f64_as_i64 (sr_expires_in reply);
                 sk_scope := sr_scope reply |}
  end.

Definition claim_string (claims : Value) (key : string) : option string := value_str key claims.

Definition audience_ok (claims : Value) (client_id : string) : bool :=
  match get_key "aud" claims with
  | Some (VString one) => bool_decide (one = client_id)
  | Some (VArray all) => existsb (fun a => bool_decide (as_str a = Some client_id)) all
  | _ => false
  end.

(** [as_f64] of a number, cast to [i64]. *)
Definition as_f64_i64 (v : Value) : option Z :=
  match v with
  | VNumber (PosInt n) | VNumber (NegInt n) => Some (f64_as_i64 (f64_of_Z n))
  | VNumber (Float f) => Some (f64_as_i64 f)
  | _ => None
  end.

(** [debug] is how [{:?}] shows a text. *)
Definition check_id_token (debug : string -> string) (now : Z) (claims : Value) (client_id nonce expected : string)
  : result SignInError unit :=
  let issuer := default "" (claim_string claims "iss") in
  if negb (bool_decide (trim_end_matches "/" issuer = trim_end_matches "/" expected)) then
    Err (Vendor ("the ID token is from " +:+ debug issuer +:+ ", not OpenAI"))
  else if negb (audience_ok claims client_id) then Err (Vendor "the ID token is for another app")
  else if negb (bool_decide (default "" (claim_string claims "nonce") = nonce)) then
    Err (Vendor "the ID token isn't this sign-in's")
  else
    match get_key "exp" claims ≫= as_f64_i64 with
    | Some exp => if exp <? now - 60 then Err (Vendor "the ID token has expired") else Ok tt
    | None => Ok tt
    end.

Definition plan_of (id_claims : Value) (access : string) : string :=
  let plan := chatgpt_plan (Some id_claims) in
  if is_empty plan then chatgpt_plan (jwt_claims access) else plan.

Definition account_from (debug : string -> string) (now : Z) (tokens : SiwcTokens) (client_id nonce host_id issuer : string)
  : result SignInError SiwcAccount :=
  if is_empty (sk_id_token tokens) then Err (Vendor "ChatGPT sign-in: OpenAI sent no ID token")
  else
    match jwt_claims (sk_id_token tokens) with
    | None => Err (Vendor "OpenAI sent an unreadable ID token")
    | Some claims =>
        match check_id_token debug now claims client_id nonce issuer with
        | Err e => Err e
        | Ok tt =>
            let email := default "" (claim_string claims "email") in
            let user := if is_empty email then default "" (claim_string claims "sub") else email in
            if is_empty user then Err (Vendor "ChatGPT sign-in: OpenAI didn't say which account signed in")
            else Ok {| wa_user := user; wa_plan := plan_of claims (sk_access tokens); wa_access := sk_access tokens;
                       wa_refresh := sk_refresh tokens; wa_id_token := sk_id_token tokens; wa_client_id := client_id;
                       wa_host_id := host_id; wa_scopes := split_ascii_whitespace (sk_scope tokens);
                       wa_expires_at_unix := i64_add now (sk_expires_in tokens) |}
        end
    end.

(** ** Refusals of the token endpoint *)

Record SiwcTokenError := { te_status : Z; te_code : string; te_message : string }.

Definition show_token_error (e : SiwcTokenError) : string :=
  match is_empty (te_code e), is_empty (te_message e) with
  | false, false => te_code e +:+ ": " +:+ te_message e
  | false, true => te_code e
  | true, false => te_message e
  | true, true => "HTTP " +:+ pretty (te_status e)
  end.

Definition token_refusal (status : Z) (body : string) : SiwcTokenError :=
  let value := match value_from_str body with Ok v => v | Err _ => VNull end in
  let '(code, message) :=
    match get_key "error" value with
    | Some (VString text) => (text, "")
    | Some (VObject row) => (default "" (get_str "code" row), default "" (get_str "message" row))
    | _ => ("", "")
    end in
  let message :=
    match value_str "error_description" value with
    | Some desc => if is_empty message then desc else message
    | None => message
    end in
  let code :=
    match value_str "code" value with
    | Some c => if is_empty code then c else code
    | None => code
    end in
  let message := if is_empty code && is_empty message then "HTTP " +:+ pretty status else message in
  {| te_status := status; te_code := code; te_message := message |}.

Inductive SiwcError : Type :=
  | SignInExpired
  | ClientUnknown
  | OtherError (why : string).

Definition SIWC_DEAD : list string :=
  ["invalid_grant"; "invalid_refresh_token"; "token_expired"; "refresh_token_expired";
   "refresh_token_invalidated"; "refresh_token_reused"].

Definition classify_refresh (refusal : SiwcTokenError) : SiwcError :=
  if decide (te_code refusal ∈ SIWC_DEAD) then SignInExpired
  else if decide (te_code refusal = "invalid_client") then ClientUnknown
  else OtherError ("ChatGPT token refresh: " +:+ te_code refusal +:+
         (if is_empty (te_message refusal) then "" else ": " +:+ te_message refusal)).

(** ** The flow of Sign in with ChatGPT *)

Record SiwcStarted := {
  ws_url : string; ws_state : string; ws_nonce : string; ws_port : Z; ws_verifier : string; ws_paste_callback : bool
}.

Definition siwc_redirect (port : Z) : string := "http://127.0.0.1:" +:+ pretty port +:+ "/auth/callback".

(** [start], given what the random bytes are drawn from and the port that is
    free. *)
Definition siwc_start (endpoints : SiwcEndpoints) (host_id : string) (uuids uuids_state uuids_nonce : nat -> list Z)
    (port : Z) : SiwcStarted :=
  let verifier := base64url (random_bytes uuids 32) in
  let challenge := base64url (sha256 (bytes verifier)) in
  let state := base64url (random_bytes uuids_state 24) in
  let nonce := base64url (random_bytes uuids_nonce 24) in
  {| ws_url := siwc_url endpoints host_id (siwc_redirect port) state nonce challenge;
     ws_state := state; ws_nonce := nonce; ws_port := port; ws_verifier := verifier; ws_paste_callback := true |}.

Definition siwc_form (endpoints : SiwcEndpoints) (code client_id : string) (started : SiwcStarted)
  : list (string * string) := [
  ("grant_type", "authorization_code");
  ("client_id", client_id);
  ("code", code);
  ("code_verifier", ws_verifier started);
  ("redirect_uri", siwc_redirect (ws_port started));
  ("resource", se_api endpoints)].

Definition post_token `{VendorHttp} `{Deserialize Reply} (endpoints : SiwcEndpoints) (form : string)
  : result SignInError SiwcTokens :=
  match http_post (se_token_url endpoints) [FORM_TYPE; ("Accept", "application/json")] form with
  | Err e => Err e
  | Ok reply =>
      if negb (hr_status reply =? 200) then
        Err (Vendor (show_token_error (token_refusal (hr_status reply) (hr_body reply))))
      else parse_tokens (hr_body reply)
  end.

(** [host_id] is what is read from the file of the host id. *)
Definition account_of_tokens (debug : string -> string) (now : Z) (endpoints : SiwcEndpoints)
    (host_id : result SignInError string) (tokens : SiwcTokens) (client_id nonce : string) : result SignInError SiwcAccount :=
  match host_id with
  | Err e => Err e
  | Ok host_id => account_from debug now tokens client_id nonce host_id (se_issuer endpoints)
  end.

Definition finish `{VendorHttp} `{Deserialize Reply} (debug : string -> string) (now : Z) (endpoints : SiwcEndpoints)
    (host_id : result SignInError string) (code client_id : string) (started : SiwcStarted) : result SignInError SiwcAccount :=
  let client_id := trim client_id in
  if is_empty client_id then
    Err (Vendor ("OpenAI didn't finish registering " +:+ se_agent_name endpoints +:+
      " (no client id came back); start it again"))
  else
    match post_token endpoints (form_urlencoded (siwc_form endpoints code client_id started)) with
    | Err e => Err e
    | Ok tokens => account_of_tokens debug now endpoints host_id tokens client_id (ws_nonce started)
    end.

Definition siwc_finish_pasted `{VendorHttp} `{Deserialize Reply} (debug : string -> string) (now : Z)
    (endpoints : SiwcEndpoints) (host_id : result SignInError string) (url : string) (started : SiwcStarted)
  : result SignInError SiwcAccount :=
  match pasted_code siwc_no_code url (ws_state started) with
  | Err e => Err e
  | Ok code => finish debug now endpoints host_id code (default "" (find_pair "client_id" (query_pairs url))) started
  end.

(** ** Its renewal and its end *)

Definition SIWC_MARGIN : Z := 180.

Record SiwcRefreshRequest := {
  rq_client_id : string; rq_refresh_token : string; rq_access_token : string; rq_id_token : string;
  rq_scopes : list string; rq_expires_at_unix : Z; rq_force : bool
}.

Definition renew_form (endpoints : SiwcEndpoints) (req : SiwcRefreshRequest) : list (string * string) := [
  ("grant_type", "refresh_token");
  ("client_id", rq_client_id req);
  ("refresh_token", rq_refresh_token req);
  ("resource", se_api endpoints)].

Definition renew `{VendorHttp} `{Deserialize Reply} (now : Z) (endpoints : SiwcEndpoints) (req : SiwcRefreshRequest)
  : result SiwcError (option SiwcTokens) :=
  if negb (rq_force req) && (SIWC_MARGIN <? rq_expires_at_unix req - now) then
    Ok (Some {| sk_access := rq_access_token req; sk_refresh := rq_refresh_token req; sk_id_token := rq_id_token req;
                sk_expires_in := rq_expires_at_unix req - now; sk_scope := join " " (rq_scopes req) |})
  else
    match http_post (se_token_url endpoints) [FORM_TYPE; ("Accept", "application/json")]
            (form_urlencoded (renew_form endpoints req)) with
    | Err err =>
        if negb (rq_force req) && (now <? rq_expires_at_unix req) then Ok None
        else Err (OtherError ("ChatGPT token refresh: " +:+ show_error err))
    | Ok reply =>
        if negb (hr_status reply =? 200) then Err (classify_refresh (token_refusal (hr_status reply) (hr_body reply)))
        else
          match parse_tokens (hr_body reply) with
          | Ok tokens => Ok (Some tokens)
          | Err e => Err (OtherError (show_error e))
          end
    end.

(** [revoke]; [meta] is the client id of the entry of the account. *)
Definition revoke `{VendorHttp} (endpoints : SiwcEndpoints) (meta : option string) (account_id : string)
    (revoke_tokens : option string) : result SiwcError bool :=
  match meta, revoke_tokens with
  | None, _ => Err (OtherError ("no ChatGPT API metadata for " +:+ account_id))
  | _, None => Err (OtherError ("no sign-in for " +:+ account_id))
  | Some client_id, Some refresh =>
      match http_get (trim_end_matches "/" (se_issuer endpoints) +:+ "/.well-known/openid-configuration") [] with
      | Err e => Err (OtherError (show_error e))
      | Ok reply =>
          let endpoint :=
            match value_from_str (hr_body reply) with Ok v => value_str "revocation_endpoint" v | Err _ => None end in
          match endpoint with
          | None | Some EmptyString => Ok false
          | Some endpoint =>
              match http_post endpoint [FORM_TYPE]
                      (form_urlencoded [("token", refresh); ("token_type_hint", "refresh_token"); ("client_id", client_id)]) with
              | Err e => Err (OtherError (show_error e))
              | Ok reply =>
                  if negb (hr_status reply =? 200) then Err (OtherError ("ChatGPT sign-out: " +:+ pretty (hr_status reply)))
                  else Ok true
              end
          end
      end
  end.

Definition models `{VendorHttp} (endpoints : SiwcEndpoints) (access : string) : result SiwcError (list string) :=
  match http_get (trim_end_matches "/" (se_api endpoints) +:+ "/models") [("Authorization", "Bearer " +:+ access)] with
  | Err e => Err (OtherError (show_error e))
  | Ok reply =>
      if negb (hr_status reply =? 200) then Err (OtherError ("models: " +:+ pretty (hr_status reply)))
      else
        match value_from_str (hr_body reply) with
        | Err e => Err (OtherError e)
        | Ok value =>
            Ok match get_key "data" value with
               | Some (VArray rows) => omap (value_str "id") rows
               | _ => []
               end
        end
  end.
End claims.


(** ** GitHub's device flow

    Times are in nanoseconds; the clock is read before and after each poll. *)

Definition DEFAULT_SLOW_DOWN_INCREMENT : Z := secs 5.
Definition DEFAULT_POLL_INTERVAL : Z := secs 5.
Definition DEFAULT_POLL_FLOOR : Z := secs 1.

(** The answer to a poll. *)
Record TokenPollResponse := { tp_access_token : option string; tp_error : option string }.

Definition adjust_interval (current : Z) (error : string) (increment : Z) : Z :=
  if decide (error = "slow_down") then current + increment else current.

(** What a turn of [wait] does with an answer: the sign-in ends, or goes on
    with an interval. *)
Definition poll_turn (increment interval : Z) (response : TokenPollResponse) : result SignInError string + Z :=
  match tp_access_token response with
  | Some access_token => inl (Ok access_token)
  | None =>
      match tp_error response with
      | Some error =>
          if decide (error = "authorization_pending") then inr interval
          else if decide (error = "slow_down") then inr (adjust_interval interval "slow_down" increment)
          else if decide (error = "expired_token") then inl (Err (Vendor "the code expired; start again"))
          else if decide (error = "access_denied") then inl (Err (Vendor "the sign-in was declined"))
          else inl (Err (Vendor ("device flow error: " +:+ error)))
      | None => inl (Err (Vendor "token endpoint returned neither a token nor an error"))
      end
  end.

(** What the n-th poll takes and is answered, and how much longer than asked
    the sleep after it lasts. *)
Class Polls := {
  poll_takes : nat -> Z;
  poll_answer : nat -> result SignInError TokenPollResponse;
  poll_oversleeps : nat -> Z
}.

(** [wait] from the n-th poll on; [None] when the fuel runs out. The log lists
    the times of the polls. *)
Fixpoint wait `{Polls} (fuel n : nat) (floor increment deadline interval now : Z) (log : list Z)
  : option (result SignInError string * list Z) :=
  match fuel with
  | O => None
  | S fuel =>
      if deadline <=? now then Some (Err Timeout, log)
      else
        let log := log ++ [now] in
        let now := now + poll_takes n in
        match poll_answer n with
        | Err e => Some (Err e, log)
        | Ok response =>
            match poll_turn increment interval response with
            | inl r => Some (r, log)
            | inr interval =>
                let remaining := Z.max 0 (deadline - now) in
                if remaining =? 0 then Some (Err Timeout, log)
                else
                  let sleep_for := Z.min (Z.max interval floor) remaining in
                  wait fuel (S n) floor increment deadline interval (now + sleep_for + poll_oversleeps n) log
            end
        end
  end.

(** The masked user code; [to_lowercase] is the Unicode one of the standard
    library. *)
Definition user_code_hint (to_lowercase : string -> string) (user_code : string) : string :=
  let lower := to_lowercase user_code in
  if (4 <? length (chars lower))%nat then concat_strings (take 4 (chars lower)) +:+ "****" else lower.

(** ** Copilot's session tokens *)

Record CopilotSession := { cs_token : string; cs_expires_at : Z; cs_api_base : string }.
Inductive CopilotError : Type := CopilotRefused (why : string) | CopilotExchange (why : string).

Definition SESSION_MIN_REMAINING_SECS : Z := 120.

Definition cached (now : Z) (cache : gmap string CopilotSession) (github_token : string) : option CopilotSession :=
  session ← cache !! github_token;
  if SESSION_MIN_REMAINING_SECS <? cs_expires_at session - now then Some session else None.

(** [session]; [exchange] is the outcome of the exchange, when one is made. *)
Definition session (now : Z) (exchange : result CopilotError CopilotSession) (github_token : string)
    (cache : gmap string CopilotSession) : result CopilotError CopilotSession * gmap string CopilotSession :=
  match cached now cache github_token with
  | Some s => (Ok s, cache)
  | None =>
      match exchange with
      | Ok s => (Ok s, <[github_token := s]> cache)
      | Err e => (Err e, cache)
      end
  end.

(** The outcome from the status and the text of the answer. *)
Definition exchange_outcome `{Deserialize CopilotSession} (status : Z) (status_text text : string)
  : result CopilotError CopilotSession :=
  let returned := "token exchange returned " +:+ status_text +:+ ": " +:+ text in
  if (status =? 401) || (status =? 403) then Err (CopilotRefused returned)
  else if negb (between 200 299 status) then Err (CopilotExchange returned)
  else
    match from_json text with
    | Ok s => Ok s
    | Err e => Err (CopilotExchange ("token exchange returned malformed payload: " +:+ e))
    end.
