(* ===== verification/VendorSignInProps.v ===== *)
(** * What the vendors say of an account: theorems

    The browser flows against a token endpoint that checks what RFC 7636
    asks, the identity a ChatGPT sign-in ends in, the polls of GitHub's
    device flow, and the cache of Copilot's sessions. *)
From Stdlib Require Import ZArith Lia Sorting.Sorted.
From stdpp Require Import gmap pretty.
From S2P Require Import Prelude.
From S2P Require Import RustStd.
From S2P Require Import Json.
From S2P Require Import Utf8.
From S2P Require Import Base64.
From S2P Require Import Sha256.
From S2P Require Import Float64.
From S2P Require Import OAuth.
From S2P Require Import Concrete.
From S2P Require Import VendorSignIn.

Local Open Scope Z_scope.

(** ** Texts that need no encoding *)

Lemma hex_encode_plain l : plain (hex_encode l) = true.
Proof.
  assert (forall v, unreserved (hex_digit v) = true) as Hd.
  { intros v. unfold hex_digit. generalize (Z.to_nat v). intros n. by do 16 (destruct n as [|n]; [done|]). }
  induction l as [|b l IH]; [done|]. cbn [hex_encode plain]. by rewrite !Hd.
Qed.

Lemma pretty_N_go_plain x s : plain s = true -> plain (pretty_N_go x s) = true.
Proof.
  revert s. induction (N.lt_wf_0 x) as [x _ IH]. intros s Hs.
  destruct (decide (x = 0%N)) as [->|Hx]; [done|]. rewrite pretty_N_go_step by lia.
  apply IH; [apply N.div_lt; lia|]. cbn [plain]. apply andb_true_iff. split; [|done].
  unfold pretty_N_char. by repeat case_match.
Qed.

Lemma pretty_plain (z : Z) : plain (pretty z) = true.
Proof.
  assert (forall n : N, plain (pretty n) = true) as Hn.
  { intros n. unfold pretty, pretty_N. destruct (decide (n = 0%N)); [done|]. by apply pretty_N_go_plain. }
  unfold pretty, pretty_Z. destruct z; [done|apply Hn|].
  change (unreserved "-" && plain (pretty (N.pos p)) = true). by rewrite Hn.
Qed.

Lemma utf8_around a s b : is_utf8 a = true -> plain s = true -> is_utf8 b = true -> is_utf8 (a +:+ s +:+ b) = true.
Proof.
  intros Ha Hs Hb. replace (a +:+ s +:+ b) with (concat_strings [a; s; b]).
  - apply is_utf8_concat. repeat constructor; [done|by apply plain_utf8|done].
  - unfold concat_strings. cbn [foldr]. by rewrite app_nil_r_str.
Qed.
#[local] Hint Resolve plain_utf8 hex_encode_plain base64url_plain pretty_plain : core.

(** ** A token endpoint *)

(** An authorization server that was sent to the address [asked], gave out
    [code] to [client] and answers [answer] for it: as RFC 6749 and RFC 7636
    ask, the redirect address must be the one of the authorize request and
    the verifier the one of its challenge. *)
Definition token_server (asked code client answer info : string) : VendorHttp :=
  let asked := query_pairs asked in
  {| http_post := fun _ _ form =>
       let sent := query_pairs ("?" +:+ form) in
       if bool_decide (find_pair "grant_type" sent = Some "authorization_code") &&
          bool_decide (find_pair "code" sent = Some code) &&
          bool_decide (find_pair "client_id" sent = Some client) &&
          bool_decide (find_pair "redirect_uri" sent = find_pair "redirect_uri" asked) &&
          bool_decide (find_pair "code_challenge_method" asked = Some "S256") &&
          match find_pair "code_verifier" sent with
          | Some verifier => bool_decide (find_pair "code_challenge" asked = Some (base64url (sha256 (bytes verifier))))
          | None => false
          end
       then Ok {| hr_status := 200; hr_shown := "200 OK"; hr_body := answer |}
       else Ok {| hr_status := 400; hr_shown := "400 Bad Request"; hr_body := "invalid_grant" |};
     http_get := fun _ _ => Ok {| hr_status := 200; hr_shown := "200 OK"; hr_body := info |} |}.

Lemma form_reads pairs : pairs <> [] -> formable pairs -> query_pairs ("?" +:+ form_urlencoded pairs) = pairs.
Proof. intros Hne Hf. by apply (form_read ""). Qed.

(** What the server answers to a form. *)
Lemma token_server_accepts asked code client answer info url headers form verifier challenge :
  form <> [] -> formable form ->
  find_pair "grant_type" form = Some "authorization_code" ->
  find_pair "code" form = Some code ->
  find_pair "client_id" form = Some client ->
  find_pair "redirect_uri" form = find_pair "redirect_uri" (query_pairs asked) ->
  find_pair "code_verifier" form = Some verifier ->
  challenge = base64url (sha256 (bytes verifier)) ->
  find_pair "code_challenge" (query_pairs asked) = Some challenge ->
  find_pair "code_challenge_method" (query_pairs asked) = Some "S256" ->
  @http_post (token_server asked code client answer info) url headers (form_urlencoded form) =
    Ok {| hr_status := 200; hr_shown := "200 OK"; hr_body := answer |}.
Proof.
  intros Hne Hf Hg Hc Hi Hr Hv -> Ha Hm. cbn [token_server http_post]. rewrite form_reads by done.
  rewrite Hg, Hc, Hi, Hr, Hv, Ha, Hm. by rewrite !bool_decide_eq_true_2.
Qed.

(** The address a browser ends on, pasted. *)
Lemma pasted_back none redirect state code rest :
  str_in "?" redirect = false -> is_utf8 state = true -> is_utf8 code = true -> formable rest ->
  pasted_code none (redirect +:+ "?" +:+ form_urlencoded (("state", state) :: ("code", code) :: rest)) state =
    match find_pair "error" rest with
    | None => Ok code
    | Some err => Err (refused err (default "" (find_pair "error_description" rest)))
    end.
Proof.
  intros Hq Hs Hc Hr. unfold pasted_code. rewrite form_read; [|done|done|by repeat constructor].
  set (pairs := _ :: _). assert (find_pair "state" pairs = Some state) as -> by reflexivity.
  assert (find_pair "code" pairs = Some code) as -> by reflexivity.
  change (find_pair "error" pairs) with (find_pair "error" rest).
  change (find_pair "error_description" pairs) with (find_pair "error_description" rest).
  by rewrite decide_True.
Qed.

Section flows.
Context `{SerdeJson}.

(** ** The flows of Google and Codex *)

Lemma google_flow `{Deserialize TokenEndpointResponse} `{Deserialize Userinfo}
    app uuids uuids_state port code answer info now response email :
  is_utf8 code = true -> from_json answer = Ok response -> from_json info = Ok {| ui_email := Some email |} ->
  let ends := for_app app in
  let '(started, session) := google_start ends uuids uuids_state port in
  let back := ps_redirect_uri session +:+ "?" +:+ form_urlencoded [("state", ss_state started); ("code", code)] in
  pasted_code no_code back (ss_state started) = Ok code /\
  @google_complete (token_server (ss_url started) code (ge_client_id ends) answer info) _ _ now ends code session =
    Ok {| ga_email := email; ga_access_token := tr_access_token response;
          ga_refresh_token := tr_refresh_token response;
          ga_expires_at := d ← tr_expires_in response; instant_checked_add now d |}.
Proof.
  intros Hcode Hans Hinfo. unfold google_start.
  set (verifier := hex_encode (random_bytes uuids 32)). set (state := hex_encode (random_bytes uuids_state 24)).
  assert (is_utf8 state = true) as Hst by (subst state; auto).
  assert (is_utf8 verifier = true) as Hve by (subst verifier; auto).
  cbv zeta. set (redirect := "http://" +:+ _). cbn [ss_url ss_state ps_redirect_uri].
  assert (is_utf8 redirect = true) as Hre.
  { subst redirect.
    replace ("http://" +:+ _) with
      (("http://" +:+ ge_loopback_host (for_app app) +:+ ":") +:+ pretty port +:+ ge_callback_path (for_app app))
      by (by rewrite !app_assoc_str).
    apply utf8_around; [by destruct app|auto|by destruct app]. }
  assert (str_in "?" redirect = false) as Hq.
  { subst redirect. rewrite !str_in_app, (plain_clean "?" (pretty port)) by auto. by destruct app. }
  split; [apply (pasted_back no_code _ state code []); done || constructor|].
  destruct (authorize_urls app redirect state "" "" verifier Hre Hst eq_refl eq_refl) as (Hread & _ & _).
  unfold google_complete, exchange_code. cbn [tx_token_url tx_code tx_redirect_uri tx_client_id tx_client_secret
    tx_code_verifier ps_redirect_uri ps_verifier].
  erewrite token_server_accepts with (verifier := verifier); try (cbn; reflexivity);
    try (rewrite Hread; reflexivity); try done.
  - cbn. rewrite Hans. cbn. by rewrite Hinfo.
  - repeat constructor; cbn; try done; by destruct app.
Qed.

Lemma codex_flow `{Deserialize CodexTokens} uuids uuids_state port_taken code answer info agent id access refresh :
  is_utf8 code = true ->
  from_json answer = Ok {| ct_id_token := Some id; ct_access_token := Some access; ct_refresh_token := Some refresh |} ->
  let ends := CodexEndpoints_default in
  let '(started, session) := codex_start ends uuids uuids_state port_taken in
  let back := ps_redirect_uri session +:+ "?" +:+ form_urlencoded [("state", cd_state started); ("code", code)] in
  pasted_code no_code back (cd_state started) = Ok code /\
  @codex_complete _ (token_server (cd_url started) code (ce_client_id ends) answer info) _ agent ends code
    (ps_verifier session) = account_from_claims id access refresh.
Proof.
  intros Hcode Htok. unfold codex_start.
  set (verifier := hex_encode (random_bytes uuids 32)). set (state := hex_encode (random_bytes uuids_state 24)).
  assert (is_utf8 state = true) as Hst by (subst state; auto).
  assert (is_utf8 verifier = true) as Hve by (subst verifier; auto).
  cbv zeta. cbn [cd_url cd_state ps_redirect_uri ps_verifier].
  split; [apply (pasted_back no_code _ state code []); done || constructor|].
  destruct (authorize_urls Gemini "" state "" "" verifier eq_refl Hst eq_refl eq_refl) as (_ & Hread & _).
  unfold codex_complete. erewrite token_server_accepts with (verifier := verifier); try (cbn; reflexivity);
    try (rewrite Hread; reflexivity); try done.
  - cbn. by rewrite Htok.
  - repeat constructor; cbn; done.
Qed.

(** The pages Google and Codex send the browser to, and what is sent to
    their token endpoints, belong together: whatever random bytes are drawn
    and whatever port is free, a server that checks the redirect address and
    the S256 challenge of the address [start] gave gives its tokens to the
    exchange of [complete], the code is taken from the address the browser
    ends on, and the account is the one of these tokens. *)
Theorem pkce_flows `{Deserialize TokenEndpointResponse} `{Deserialize Userinfo} `{Deserialize CodexTokens}
    app uuids uuids_state port port_taken code answer info now agent response email id access refresh :
  is_utf8 code = true ->
  from_json answer = Ok response -> from_json info = Ok {| ui_email := Some email |} ->
  from_json answer = Ok {| ct_id_token := Some id; ct_access_token := Some access; ct_refresh_token := Some refresh |} ->
  (let ends := for_app app in
   let '(started, session) := google_start ends uuids uuids_state port in
   let back := ps_redirect_uri session +:+ "?" +:+ form_urlencoded [("state", ss_state started); ("code", code)] in
   pasted_code no_code back (ss_state started) = Ok code /\
   @google_complete (token_server (ss_url started) code (ge_client_id ends) answer info) _ _ now ends code session =
     Ok {| ga_email := email; ga_access_token := tr_access_token response;
           ga_refresh_token := tr_refresh_token response;
           ga_expires_at := d ← tr_expires_in response; instant_checked_add now d |}) /\
  (let ends := CodexEndpoints_default in
   let '(started, session) := codex_start ends uuids uuids_state port_taken in
   let back := ps_redirect_uri session +:+ "?" +:+ form_urlencoded [("state", cd_state started); ("code", code)] in
   pasted_code no_code back (cd_state started) = Ok code /\
   @codex_complete _ (token_server (cd_url started) code (ce_client_id ends) answer info) _ agent ends code
     (ps_verifier session) = account_from_claims id access refresh).
Proof. intros Hc Ha Hi Ht. split; [by apply google_flow|by apply codex_flow]. Qed.

(** ** Sign in with ChatGPT *)

(** What the ID token of a sign-in has to say. *)
Record id_token_valid (now : Z) (claims : Value) (client nonce issuer : string) : Prop := {
  iv_issuer : trim_end_matches "/" (default "" (value_str "iss" claims)) = trim_end_matches "/" issuer;
  iv_audience : get_key "aud" claims = Some (VString client) \/
    exists all, get_key "aud" claims = Some (VArray all) /\ VString client ∈ all;
  iv_nonce : default "" (value_str "nonce" claims) = nonce;
  iv_live : forall exp, get_key "exp" claims ≫= as_f64_i64 = Some exp -> now - 60 <= exp
}.

Lemma audience_ok_spec claims client :
  audience_ok claims client = true <->
  get_key "aud" claims = Some (VString client) \/
  exists all, get_key "aud" claims = Some (VArray all) /\ VString client ∈ all.
Proof.
  unfold audience_ok. destruct (get_key "aud" claims) as [v|]; [|naive_solver].
  destruct v as [| | |one|all|]; try naive_solver.
  - rewrite bool_decide_eq_true. naive_solver.
  - rewrite existsb_exists. split.
    + intros (v & Hv & Ha%bool_decide_eq_true). right. exists all. split; [done|]. apply list_elem_of_In.
      destruct v; try done. cbn in Ha. by simplify_eq.
    + intros [?|(? & [= <-] & Hin%list_elem_of_In)]; [done|]. exists (VString client). split; [done|].
      by apply bool_decide_eq_true.
Qed.

Lemma check_id_token_spec debug now claims client nonce issuer :
  check_id_token debug now claims client nonce issuer = Ok tt <-> id_token_valid now claims client nonce issuer.
Proof.
  unfold check_id_token, claim_string. split.
  - intros Hc. repeat (case_match; try done);
      repeat match goal with H : negb _ = false |- _ => apply negb_false_iff in H end;
      repeat match goal with H : bool_decide _ = true |- _ => apply bool_decide_eq_true in H end;
      (split; [done|by apply audience_ok_spec|done|intros exp Hexp; simplify_option_eq; lia]).
  - intros [Hi Ha Hn He]. rewrite !bool_decide_eq_true_2 by done. rewrite (proj2 (audience_ok_spec _ _) Ha). cbn [negb].
    destruct (_ ≫= _) as [exp|]; [|done]. specialize (He _ eq_refl). by rewrite (proj2 (Z.ltb_ge _ _)) by lia.
Qed.

(** What the token endpoint has to say. *)
Record reply_usable (reply : Reply) : Prop := {
  ru_access : sr_access_token reply <> "";
  ru_refresh : sr_refresh_token reply <> "";
  ru_lives : f64_le (sr_expires_in reply) f64_zero = false;
  ru_granted : SIWC_DIRECT_SCOPE ∈ split_ascii_whitespace (sr_scope reply)
}.

Lemma is_empty_false s : is_empty s = false <-> s <> "".
Proof. by destruct s. Qed.

Lemma parse_tokens_spec `{Deserialize Reply} body reply tokens :
  from_json body = Ok reply ->
  parse_tokens body = Ok tokens <->
  reply_usable reply /\
  tokens = {| sk_access := sr_access_token reply; sk_refresh := sr_refresh_token reply;
              sk_id_token := sr_id_token reply; sk_expires_in := f64_as_i64 (sr_expires_in reply);
              sk_scope := sr_scope reply |}.
Proof.
  intros Hb. unfold parse_tokens. rewrite Hb. split.
  - intros Ht. destruct (is_empty (sr_access_token reply)) eqn:Ha; [done|].
    destruct (is_empty (sr_refresh_token reply)) eqn:Hr; [done|]. cbn [orb] in Ht.
    destruct (f64_le _ _) eqn:Hl; [done|]. destruct (negb _) eqn:Hs; [done|].
    apply negb_false_iff, bool_decide_eq_true in Hs. split; [|congruence].
    split; [by apply is_empty_false..|done|done].
  - intros [[Ha Hr Hl Hs] ->]. apply is_empty_false in Ha, Hr. rewrite Ha, Hr, Hl. by rewrite bool_decide_eq_true_2.
Qed.

Definition siwc_user (claims : Value) : string :=
  let email := default "" (value_str "email" claims) in
  if is_empty email then default "" (value_str "sub" claims) else email.

Lemma account_from_spec debug now tokens client nonce host issuer a :
  account_from debug now tokens client nonce host issuer = Ok a <->
  exists claims, sk_id_token tokens <> "" /\ jwt_claims (sk_id_token tokens) = Some claims /\
    id_token_valid now claims client nonce issuer /\ siwc_user claims <> "" /\
    a = {| wa_user := siwc_user claims; wa_plan := plan_of claims (sk_access tokens); wa_access := sk_access tokens;
           wa_refresh := sk_refresh tokens; wa_id_token := sk_id_token tokens; wa_client_id := client;
           wa_host_id := host; wa_scopes := split_ascii_whitespace (sk_scope tokens);
           wa_expires_at_unix := i64_add now (sk_expires_in tokens) |}.
Proof.
  unfold account_from. split.
  - intros Ha. destruct (is_empty (sk_id_token tokens)) eqn:Hi; [done|].
    destruct (jwt_claims _) as [claims|] eqn:Hj; [|done]. exists claims.
    destruct (check_id_token _ _ _ _ _ _) as [[]|] eqn:Hc; [|done]. apply check_id_token_spec in Hc.
    cbv zeta in Ha. change (if is_empty (default "" (claim_string claims "email")) then _ else _) with (siwc_user claims) in Ha.
    destruct (is_empty (siwc_user claims)) eqn:Hu; [done|]. apply is_empty_false in Hi, Hu. by simplify_eq.
  - intros (claims & Hi & Hj & Hv & Hu & ->). apply is_empty_false in Hi, Hu.
    rewrite Hi, Hj, (proj2 (check_id_token_spec debug _ _ _ _ _) Hv). cbv zeta.
    change (if is_empty (default "" (claim_string claims "email")) then _ else _) with (siwc_user claims). by rewrite Hu.
Qed.

(** A ChatGPT sign-in ends in exactly the account OpenAI names: when the
    browser's last address, with the code and the client id OpenAI issued, is
    pasted, and its token endpoint checks the redirect address and the
    challenge of this sign-in's page, the sign-in gives the account [a] if and
    only if the answer holds tokens with a lifetime and the scope asked for,
    and its ID token is from OpenAI, for this client, with this sign-in's
    nonce, not expired and naming a user, and [a] is that user with these
    tokens. *)
Theorem siwc_signs_in `{Deserialize Reply} debug now host uuids uuids_state uuids_nonce port code client answer info reply a :
  is_utf8 code = true -> is_utf8 client = true -> is_utf8 host = true -> trim client = client -> client <> "" ->
  from_json answer = Ok reply ->
  let ends := SiwcEndpoints_default in
  let started := siwc_start ends host uuids uuids_state uuids_nonce port in
  let back := siwc_redirect port +:+ "?" +:+
    form_urlencoded [("state", ws_state started); ("code", code); ("client_id", client)] in
  @siwc_finish_pasted _ (token_server (ws_url started) code client answer info) _ debug now ends (Ok host) back started
    = Ok a <->
  reply_usable reply /\
  exists claims, sr_id_token reply <> "" /\ jwt_claims (sr_id_token reply) = Some claims /\
    id_token_valid now claims client (ws_nonce started) (se_issuer ends) /\ siwc_user claims <> "" /\
    a = {| wa_user := siwc_user claims; wa_plan := plan_of claims (sr_access_token reply);
           wa_access := sr_access_token reply; wa_refresh := sr_refresh_token reply;
           wa_id_token := sr_id_token reply; wa_client_id := client; wa_host_id := host;
           wa_scopes := split_ascii_whitespace (sr_scope reply);
           wa_expires_at_unix := i64_add now (f64_as_i64 (sr_expires_in reply)) |}.
Proof.
  intros Hcode Hcl Hh Htrim Hne Hans. unfold siwc_start.
  set (verifier := base64url (random_bytes uuids 32)). set (state := base64url (random_bytes uuids_state 24)).
  set (nonce := base64url (random_bytes uuids_nonce 24)).
  assert (is_utf8 state = true) as Hst by (subst state; auto).
  assert (is_utf8 nonce = true) as Hno by (subst nonce; auto).
  assert (is_utf8 verifier = true) as Hve by (subst verifier; auto).
  assert (is_utf8 (siwc_redirect port) = true) as Hre by (apply (utf8_around "http://127.0.0.1:"); auto).
  assert (str_in "?" (siwc_redirect port) = false) as Hq
    by (unfold siwc_redirect; rewrite !str_in_app, (plain_clean "?" (pretty port)) by auto; done).
  cbv zeta. cbn [ws_url ws_state ws_nonce]. unfold siwc_finish_pasted. cbn [ws_state].
  rewrite (pasted_back siwc_no_code _ state code [("client_id", client)]) by (done || by repeat constructor).
  change (find_pair "error" [("client_id", client)]) with (@None string). cbv iota.
  rewrite form_read by (done || by repeat constructor).
  set (found := find_pair "client_id" _). assert (found = Some client) as -> by reflexivity.
  change (default "" (Some client)) with client.
  destruct (authorize_urls Gemini (siwc_redirect port) state nonce host verifier Hre Hst Hno Hh) as (_ & _ & Hread).
  unfold finish. cbv zeta. rewrite Htrim, (proj2 (is_empty_false client) Hne). unfold post_token.
  erewrite token_server_accepts with (verifier := verifier); try (cbn; reflexivity);
    try (rewrite Hread; reflexivity); try done; [|by repeat constructor].
  cbn [hr_status hr_body]. change (negb (200 =? 200)) with false. cbv iota.
  destruct (parse_tokens answer) as [tokens|] eqn:Hp.
  - apply (parse_tokens_spec _ _ _ Hans) in Hp as [Hu ->]. unfold account_of_tokens. rewrite account_from_spec.
    cbn. naive_solver.
  - split; [done|]. intros [Hu _]. pose proof (proj2 (parse_tokens_spec _ _ _ Hans) (conj Hu eq_refl)). congruence.
Qed.
End flows.

(** ** At concrete inputs *)

Definition sample_claims (nonce : string) : Value := VObject [
  ("iss", VString "https://auth.openai.com/");
  ("aud", VArray [VString "app_other"; VString "client-1"]);
  ("nonce", VString nonce);
  ("exp", VNumber (PosInt 2000));
  ("email", VString "a@example.com");
  (AUTH_CLAIM, VObject [("chatgpt_plan_type", VString "team")])].
Definition sample_jwt (claims : Value) : string := "e30." +:+ base64url (bytes (value_to_string claims)) +:+ ".sig".
Definition sample_uuids (n : nat) : list Z := repeat (Z.of_nat n) 16.
Definition sample_nonce : string := base64url (random_bytes sample_uuids 24).
Definition sample_reply : Reply := {|
  sr_access_token := "at"; sr_refresh_token := "rt"; sr_id_token := sample_jwt (sample_claims sample_nonce);
  sr_expires_in := f64_of_Z 3600; sr_scope := "openid chatgpt.tokens.use.direct" |}.

Example codex_account_read :
  let token := sample_jwt (sample_claims "n") in
  account_from_claims token token "rt" =
    Ok {| ca_user := "a@example.com · Team"; ca_email := "a@example.com"; ca_plan := "team"; ca_account_id := "";
          ca_access_token := token; ca_refresh_token := "rt"; ca_id_token := token; ca_expires_at_unix := Some 2000 |}.
Proof. vm_compute. reflexivity. Qed.

Lemma siwc_signs_in_witness :
  let started := siwc_start SiwcEndpoints_default "host" sample_uuids sample_uuids sample_uuids 1455 in
  @siwc_finish_pasted _ (token_server (ws_url started) "c&1" "client-1" "{}" "") (fun _ => Ok sample_reply)
    id 1000 SiwcEndpoints_default (Ok "host")
    (siwc_redirect 1455 +:+ "?" +:+
      form_urlencoded [("state", ws_state started); ("code", "c&1"); ("client_id", "client-1")]) started =
  Ok {| wa_user := "a@example.com"; wa_plan := "team"; wa_access := "at"; wa_refresh := "rt";
        wa_id_token := sample_jwt (sample_claims sample_nonce); wa_client_id := "client-1"; wa_host_id := "host";
        wa_scopes := ["openid"; "chatgpt.tokens.use.direct"]; wa_expires_at_unix := 4600 |}.
Proof.
  cbv zeta.
  apply (@siwc_signs_in _ (fun _ => Ok sample_reply) id 1000 "host" sample_uuids sample_uuids sample_uuids 1455
    "c&1" "client-1" "{}" "" sample_reply); [reflexivity..|discriminate|reflexivity|].
  split.
  - split; [discriminate|discriminate|vm_compute; reflexivity|].
    apply (bool_decide_eq_true_1 _). vm_compute. reflexivity.
  - exists (sample_claims sample_nonce). split_and!.
    + discriminate.
    + vm_compute. reflexivity.
    + split.
      * vm_compute. reflexivity.
      * right. exists [VString "app_other"; VString "client-1"]. split; [reflexivity|].
        apply (bool_decide_eq_true_1 _). vm_compute. reflexivity.
      * reflexivity.
      * intros exp Hexp. assert (exp = 2000) as -> by (revert Hexp; vm_compute; by intros [= <-]). lia.
    + discriminate.
    + vm_compute. reflexivity.
Defined.

Lemma pkce_flows_witness :
  let ends := for_app Gemini in
  let '(started, session) := google_start ends sample_uuids sample_uuids 4711 in
  @google_complete (token_server (ss_url started) "4/0A" (ge_client_id ends) "a" "i")
    (fun _ => Ok {| tr_access_token := "at"; tr_refresh_token := Some "rt"; tr_expires_in := Some 3600 |})
    (fun _ => Ok {| ui_email := Some "a@example.com" |}) 0 ends "4/0A" session =
  Ok {| ga_email := "a@example.com"; ga_access_token := "at"; ga_refresh_token := Some "rt";
        ga_expires_at := Some (secs 3600) |}.
Proof.
  exact (proj2 (proj1 (@pkce_flows _ (fun _ => Ok {| tr_access_token := "at"; tr_refresh_token := Some "rt"; tr_expires_in := Some 3600 |})
    (fun _ => Ok {| ui_email := Some "a@example.com" |})
    (fun _ => Ok {| ct_id_token := Some "i"; ct_access_token := Some "a"; ct_refresh_token := Some "r" |})
    Gemini sample_uuids sample_uuids 4711 false "4/0A" "a" "i" 0 "agent"
    {| tr_access_token := "at"; tr_refresh_token := Some "rt"; tr_expires_in := Some 3600 |} "a@example.com" "i" "a" "r"
    eq_refl eq_refl eq_refl eq_refl))).
Defined.

(** ** GitHub's device flow *)

(** What an answer settles: nothing while the user has not decided. *)
Definition verdict (answer : result SignInError TokenPollResponse) : option (result SignInError string) :=
  match answer with
  | Err e => Some (Err e)
  | Ok response => match poll_turn 0 0 response with inl r => Some r | inr _ => None end
  end.

Lemma poll_turn_inl increment interval response r :
  poll_turn increment interval response = inl r -> verdict (Ok response) = Some r.
Proof. unfold verdict, poll_turn. repeat case_match; naive_solver. Qed.

(** The answers that ask for longer pauses, and how many of [k] from the n-th
    on do. *)
Definition slow_down (answer : result SignInError TokenPollResponse) : bool :=
  match answer with
  | Ok {| tp_access_token := None; tp_error := Some error |} => bool_decide (error = "slow_down")
  | _ => false
  end.
Definition slow_downs `{Polls} (n k : nat) : Z :=
  Z.of_nat (length (filter (fun i => slow_down (poll_answer i) = true) (seq n k))).

Lemma slow_downs_first `{Polls} n k :
  slow_downs n (S k) = (if slow_down (poll_answer n) then 1 else 0) + slow_downs (S n) k.
Proof.
  unfold slow_downs. cbn [seq]. rewrite filter_cons. destruct (slow_down (poll_answer n)); case_decide; try done.
  cbn [length]. lia.
Qed.

Lemma poll_turn_inr increment interval response interval' :
  poll_turn increment interval response = inr interval' ->
  verdict (Ok response) = None /\ interval' = interval + increment * (if slow_down (Ok response) then 1 else 0).
Proof.
  unfold verdict, poll_turn, adjust_interval, slow_down. destruct response as [[token|] [error|]]; cbn; try done.
  repeat case_decide; subst; cbn; try done; intros [= <-]; (split; [done|]).
  - lia.
  - lia.
Qed.

Section device.
Context `{Polls}.
Variables (floor increment deadline : Z).
Hypothesis floor_positive : 0 < floor.
Hypothesis increment_nonneg : 0 <= increment.
Hypothesis polls_take_time : forall n, 0 <= poll_takes n /\ 0 <= poll_oversleeps n.

(** What is known of the polls made from the n-th on. *)
Record polled (n : nat) (interval now : Z) (r : result SignInError string) (polls : list Z) : Prop := {
  po_times : Forall (fun t => now <= t < deadline) polls;
  po_spaced : forall i t t', polls !! i = Some t -> polls !! S i = Some t' ->
    t + poll_takes (n + i) + Z.max (interval + increment * slow_downs n (S i)) floor <= t';
  po_waited : forall i, (S i < length polls)%nat -> verdict (poll_answer (n + i)) = None;
  po_last : r = Err Timeout \/
    exists m, length polls = S m /\ verdict (poll_answer (n + m)) = Some r
}.

Lemma wait_polls fuel n interval now log :
  Z.max 0 (deadline - now) + floor <= Z.of_nat fuel * floor ->
  exists r polls, wait fuel n floor increment deadline interval now log = Some (r, log ++ polls) /\
    polled n interval now r polls.
Proof using Type*.
  revert n interval now log. induction fuel as [|fuel IH]; intros n interval now log Hf; [lia|].
  cbn [wait]. destruct (Z.leb_spec deadline now) as [Hd|Hd].
  { exists (Err Timeout), []. rewrite app_nil_r. split; [done|]. split; [constructor|done|cbn; lia|by left]. }
  destruct (polls_take_time n) as [Ht Ho]. cbv zeta.
  assert (forall r, verdict (poll_answer n) = Some r -> polled n interval now r [now]) as Hone.
  { intros r Hv. split; [by repeat constructor|by intros [|i]|cbn; lia|]. right. exists 0%nat. by rewrite Nat.add_0_r. }
  destruct (poll_answer n) as [response|e] eqn:Ha; [|eauto].
  destruct (poll_turn increment interval response) as [r|interval'] eqn:Hp; [apply poll_turn_inl in Hp; eauto|].
  apply poll_turn_inr in Hp as [Hv Hi].
  assert (interval <= interval') as Hgrow by (subst interval'; destruct (slow_down _); lia).
  destruct (Z.eqb_spec (Z.max 0 (deadline - (now + poll_takes n))) 0) as [Hz|Hz].
  { exists (Err Timeout), [now]. split; [done|]. split; [by repeat constructor|by intros [|i]|cbn; lia|by left]. }
  set (later := now + _ + _ + _).
  assert (later >= deadline \/ later >= now + Z.max interval floor) as Hlater by (subst later; lia).
  assert (Z.max 0 (deadline - later) + floor <= Z.of_nat fuel * floor) as Hfuel.
  { destruct fuel as [|fuel]; [lia|]. destruct Hlater; [|lia]. assert (0 <= Z.of_nat fuel * floor) by nia. lia. }
  destruct (IH (S n) interval' later (log ++ [now]) Hfuel) as (r & polls & -> & [Htimes Hsp Hwait Hlast]).
  exists r, (now :: polls). split; [by rewrite <-app_assoc|].
  split.
  - constructor; [lia|]. eapply Forall_impl; [|exact Htimes]. cbn. subst later. intros t. lia.
  - intros [|i] t t' Ht0 Ht'.
    + injection Ht0 as <-. cbn in Ht'. pose proof (Forall_lookup_1 _ _ _ _ Htimes Ht') as Hfirst. cbn in Hfirst.
      rewrite Nat.add_0_r, slow_downs_first, Ha. change (slow_downs (S n) 0) with 0. subst later. lia.
    + cbn in Ht0, Ht'. pose proof (Hsp i t t' Ht0 Ht') as Hnext. rewrite slow_downs_first, Ha.
      replace (n + S i)%nat with (S n + i)%nat by lia. subst interval'. lia.
  - intros [|i] Hl; [by rewrite Nat.add_0_r, Ha|]. cbn in Hl. replace (n + S i)%nat with (S n + i)%nat by lia.
    apply Hwait. lia.
  - destruct Hlast as [->|(m & Hm & Hr)]; [by left|]. right. exists (S m). cbn. rewrite Hm. split; [done|].
    by replace (n + S m)%nat with (S n + m)%nat by lia.
Qed.
End device.

(** C40: GitHub's device flow ends, and asks no more often than it may: however
    long the polls take, whatever they are answered and however late a sleep
    wakes up, [wait] returns within as many turns as the timeout has poll
    floors, and one; the token endpoint is asked only before the deadline;
    between the answer to a poll and the next poll there is at least the
    interval as it has grown by then, by the increment for every slow_down that
    was answered so far, and at least the floor; the flow goes on exactly while
    the answers leave it open, and ends in the first one that does not, or in a
    timeout. *)
Theorem device_flow `{Polls} floor increment timeout interval start :
  0 < floor -> 0 <= increment -> 0 <= timeout ->
  (forall n, 0 <= poll_takes n /\ 0 <= poll_oversleeps n) ->
  exists r polls,
    wait (Z.to_nat (timeout / floor + 2)) 0 floor increment (start + timeout) interval start [] = Some (r, polls) /\
    Forall (fun t => start <= t < start + timeout) polls /\
    (forall i t t', polls !! i = Some t -> polls !! S i = Some t' ->
       t + poll_takes i + Z.max (interval + increment * slow_downs 0 (S i)) floor <= t') /\
    (forall i, (S i < length polls)%nat -> verdict (poll_answer i) = None) /\
    (r = Err Timeout \/ exists m, length polls = S m /\ verdict (poll_answer m) = Some r).
Proof.
  intros Hf Hi Ht Hp. pose proof (Z.div_mod timeout floor). pose proof (Z.mod_pos_bound timeout floor Hf).
  pose proof (Z.div_pos timeout floor Ht Hf).
  destruct (wait_polls floor increment (start + timeout) Hf Hi Hp (Z.to_nat (timeout / floor + 2)) 0 interval start [])
    as (r & polls & Hw & []); [rewrite Z2Nat.id by lia; nia|].
  by exists r, polls.
Qed.

(** Pending twice, slowed down once, then a token. *)
Definition github_device : Polls := {|
  poll_takes := fun _ => secs 1;
  poll_answer := fun n => Ok match n with
    | 3%nat => {| tp_access_token := Some "gho_1"; tp_error := None |}
    | 1%nat => {| tp_access_token := None; tp_error := Some "slow_down" |}
    | _ => {| tp_access_token := None; tp_error := Some "authorization_pending" |}
    end;
  poll_oversleeps := fun _ => 0
|}.

Example github_device_run :
  @wait github_device 12 0 (secs 1) DEFAULT_SLOW_DOWN_INCREMENT (secs 600) DEFAULT_POLL_INTERVAL 0 [] =
    Some (Ok "gho_1", [0; secs 6; secs 17; secs 28]).
Proof. reflexivity. Qed.

Lemma device_flow_witness :
  exists r polls,
    @wait github_device (Z.to_nat (secs 600 / DEFAULT_POLL_FLOOR + 2)) 0 DEFAULT_POLL_FLOOR DEFAULT_SLOW_DOWN_INCREMENT
      (0 + secs 600) DEFAULT_POLL_INTERVAL 0 [] = Some (r, polls) /\
    Forall (fun t => 0 <= t < 0 + secs 600) polls /\
    (forall t t', polls !! 1%nat = Some t -> polls !! 2%nat = Some t' -> t + secs 11 <= t').
Proof.
  destruct (@device_flow github_device DEFAULT_POLL_FLOOR DEFAULT_SLOW_DOWN_INCREMENT (secs 600) DEFAULT_POLL_INTERVAL 0)
    as (r & polls & Hw & Hf & Hs & _); [done|done|done|done|]. exists r, polls. split; [exact Hw|]. split; [exact Hf|].
  intros t t' Ht Ht'. pose proof (Hs 1%nat t t' Ht Ht') as H. change (t + secs 1 + secs 10 <= t') in H.
  unfold secs in *. lia.
Defined.
