(* ===== verification/ClaudeSignIn.v ===== *)
(** * Signing in through Claude Code

    [ClaudeSignIn] of credentials/claude_signin.rs: `claude auth login` runs
    with this process as its browser, and what is modelled is what this side
    makes of it: the lines it prints, the link it hands out, the pastes that
    are given to it, and the account it leaves behind. The program, its exit
    and its files are inputs; addresses are parsed by the url crate. *)
From Stdlib Require Import ZArith Lia.
From stdpp Require Import list pretty.
From S2P Require Import Prelude.
From S2P Require Import RustStd.
From S2P Require Import Utf8.
From S2P Require Import OAuth.
From S2P Require Import VendorSignIn.

Local Open Scope Z_scope.

Definition CLAUDE_OPENED_URL_ENV : string := "ANY_CONVERTER_OPENED_URL".
Definition LINK_WAIT : Z := secs 30.
Definition LINK_GRACE : Z := secs 3.
Definition POLL : Z := secs 1 / 20.
Definition STRIPPED_ENV : list string := [
  "CLAUDE_CONFIG_DIR"; "CLAUDE_SECURESTORAGE_CONFIG_DIR"; "CLAUDECODE"; "CLAUDE_CODE_ENTRYPOINT"; "BROWSER";
  CLAUDE_OPENED_URL_ENV].

(** ** The lines the program prints *)

(** Where in an escape sequence a character is. *)
Inductive AnsiMode : Type :=
  | AnsiText
  | AnsiEscaped
  | AnsiCsi
  | AnsiOsc (previous : string).

Definition ESC : ascii := "027"%char.
Definition BEL : ascii := "007"%char.
Definition csi_final (ch : string) : bool :=
  match ch with String c EmptyString => between 64 126 (byte_val c) | _ => false end.

Fixpoint strip_chars (mode : AnsiMode) (l : list string) : string :=
  match l with
  | [] => ""
  | ch :: l =>
      match mode with
      | AnsiText => if decide (ch = String ESC "") then strip_chars AnsiEscaped l else ch +:+ strip_chars AnsiText l
      | AnsiEscaped =>
          if decide (ch = "[") then strip_chars AnsiCsi l
          else if decide (ch = "]") then strip_chars (AnsiOsc (String "000" "")) l
          else strip_chars AnsiText l
      | AnsiCsi => strip_chars (if csi_final ch then AnsiText else AnsiCsi) l
      | AnsiOsc previous =>
          if decide (ch = String BEL "" \/ (previous = String ESC "" /\ ch = "\"))
          then strip_chars AnsiText l else strip_chars (AnsiOsc ch) l
      end
  end.
Definition strip_ansi (line : string) : string := strip_chars AnsiText (chars line).

(** What [find] finds before the first white space. *)
Fixpoint until_white (l : list string) : string :=
  match l with
  | [] => ""
  | ch :: l => if decide (ch ∈ white_space) then "" else ch +:+ until_white l
  end.

Definition find_https_url (line : string) : option string :=
  match split_once "https://" line with
  | None => None
  | Some (_, rest) =>
      let rest := until_white (chars rest) in
      if is_empty rest then None else Some ("https://" +:+ rest)
  end.

(** What the program and its readers share; [sh_stdin] says that the standard
    input is there to be typed into. *)
Record Shared := {
  sh_stdin : bool;
  sh_port : option Z;
  sh_last_line : string;
  sh_printed : option string
}.

Definition observe (line : string) (shared : Shared) : Shared :=
  let line := strip_ansi line in
  let printed :=
    match find_https_url line, sh_printed shared with
    | Some url, None => Some url
    | _, printed => printed
    end in
  let line := trim line in
  let line := match strip_prefix "Paste code here if prompted >" line with Some rest => trim rest | None => line end in
  {| sh_stdin := sh_stdin shared; sh_port := sh_port shared;
     sh_last_line := if is_empty line then sh_last_line shared else line; sh_printed := printed |}.

(** ** Addresses *)

Record ParsedUrl := {
  u_scheme : string;
  u_host : option string;
  u_port : option Z;
  u_path : string;
  u_query : option string;
  u_pairs : list (string * string)
}.
Class UrlCrate := url_parse : string -> option ParsedUrl.

Definition is_loopback (host : string) : bool :=
  bool_decide (to_ascii_lowercase host ∈ ["localhost"; "127.0.0.1"; "::1"]).

Definition callback_port `{UrlCrate} (link : string) : option Z :=
  url ← url_parse link;
  redirect ← find_pair "redirect_uri" (u_pairs url);
  redirect ← url_parse redirect;
  if negb (is_loopback (default "" (u_host redirect))) then None else u_port redirect.

(** ** The flow *)

(** [running] holds the program while nothing has taken it. *)
Record ClaudeSignIn := {
  cl_running : option Shared;
  cl_terminal : option string
}.
Definition ClaudeSignIn_build : ClaudeSignIn := {| cl_running := None; cl_terminal := None |}.
Definition over : SignInError := Vendor "the sign-in is over; start it again".

Record ClaudeStarted := { cl_url : string; cl_paste_code : bool }.

(** What a turn of the loop of [start] sees: the bytes of the file the
    browser shim writes, the link printed, whether the program has ended, and
    the clock where it is read. *)
Record Look := {
  lk_opened : option string;
  lk_printed : option string;
  lk_exited : result SignInError bool;
  lk_now_printed : Z;
  lk_now_grace : Z;
  lk_now_end : Z
}.

Inductive StartEnd : Type :=
  | Opened (url : string)
  | Printed (url : string)
  | DeadStart
  | NoLink
  | StartFails (e : SignInError).

(** A turn: how the start ends, or when the grace of a printed link is over. *)
Definition start_turn (deadline : Z) (printed_deadline : option Z) (look : Look) : StartEnd + option Z :=
  match lk_opened look with
  | Some (String _ _ as bytes) => inl (Opened (trim (from_utf8_lossy bytes)))
  | _ =>
      let printed_deadline :=
        match lk_printed look, printed_deadline with
        | Some _, None => Some (lk_now_printed look + LINK_GRACE)
        | _, d => d
        end in
      match
        match printed_deadline, lk_printed look with
        | Some at_, Some url => if at_ <=? lk_now_grace look then Some url else None
        | _, _ => None
        end
      with
      | Some url => inl (Printed url)
      | None =>
          match lk_exited look with
          | Err e => inl (StartFails e)
          | Ok true => inl DeadStart
          | Ok false =>
              if (deadline <=? lk_now_end look) && negb (is_some printed_deadline) then inl NoLink
              else inr printed_deadline
          end
      end
  end.

(** The loop, with the number of the turn it ends in; [None] when the fuel
    runs out. *)
Fixpoint start_loop (fuel n : nat) (deadline : Z) (printed_deadline : option Z) (looks : nat -> Look)
  : option (StartEnd * nat) :=
  match fuel with
  | O => None
  | S fuel =>
      match start_turn deadline printed_deadline (looks n) with
      | inl e => Some (e, n)
      | inr printed_deadline => start_loop fuel (S n) deadline printed_deadline looks
      end
  end.

Definition dead_message (last : string) : string :=
  if is_empty last then "claude auth login didn't finish" else last.

Definition settle_dead_start (last : string) (c : ClaudeSignIn) : string * ClaudeSignIn :=
  match cl_running c with
  | None => ("the sign-in is over; start it again", c)
  | Some _ =>
      let message := dead_message last in
      (message, {| cl_running := None; cl_terminal := Some message |})
  end.

Definition settle_no_link (cli last : string) (c : ClaudeSignIn) : string * ClaudeSignIn :=
  match cl_running c with
  | None => ("the sign-in is over; start it again", c)
  | Some _ =>
      let message :=
        if is_empty last then
          "claude auth login gave no link to open: " +:+ cli +:+ " printed nothing in " +:+ pretty (LINK_WAIT / secs 1) +:+
          "s; run `" +:+ cli +:+ " auth login` in a terminal to see what it does"
        else "claude auth login gave no link to open: " +:+ last in
      (message, {| cl_running := None; cl_terminal := Some message |})
  end.

Definition set_port (port : option Z) (c : ClaudeSignIn) : ClaudeSignIn :=
  {| cl_running := (fun s => {| sh_stdin := sh_stdin s; sh_port := port; sh_last_line := sh_last_line s;
                                sh_printed := sh_printed s |}) <$> cl_running c;
     cl_terminal := cl_terminal c |}.

Definition Shared_new : Shared := {| sh_stdin := true; sh_port := None; sh_last_line := ""; sh_printed := None |}.

(** [start] once the program runs: [e] is how its loop ends, [last] the last
    line when the readers are drained. *)
Definition start_ends `{UrlCrate} (cli last : string) (e : StartEnd) (c : ClaudeSignIn)
  : result SignInError ClaudeStarted * ClaudeSignIn :=
  match e with
  | Opened url => (Ok {| cl_url := url; cl_paste_code := false |}, set_port (callback_port url) c)
  | Printed url => (Ok {| cl_url := url; cl_paste_code := true |}, c)
  | DeadStart => let '(message, c) := settle_dead_start last c in (Err (Vendor message), c)
  | NoLink => let '(message, c) := settle_no_link cli last c in (Err (Vendor message), c)
  | StartFails e => (Err e, c)
  end.

(** The program is spawned and put into the slot, which must be free. *)
Definition start_spawned (c : ClaudeSignIn) : result SignInError ClaudeSignIn :=
  match cl_running c with
  | Some _ => Err (Vendor "a Claude sign-in is already running")
  | None => Ok {| cl_running := Some Shared_new; cl_terminal := cl_terminal c |}
  end.

(** [wait_inner] up to its wait for the exit: it takes the program. *)
Definition wait_begins (c : ClaudeSignIn) : result SignInError Shared * ClaudeSignIn :=
  let c' := {| cl_running := None; cl_terminal := cl_terminal c |} in
  match cl_terminal c with
  | Some message => (Err (Vendor message), c')
  | None => match cl_running c with Some shared => (Ok shared, c') | None => (Err NotStarted, c) end
  end.

(** How the program ends, [last] as above. *)
Inductive Exit : Type :=
  | ExitTimeout
  | ExitFails (e : string)
  | Exited (success : bool).

Definition wait_ends (timeout : Z) (exit : Exit) (last : string) (account : result SignInError ClaudeAccount)
  : result SignInError ClaudeAccount :=
  match exit with
  | ExitTimeout => Err (Vendor ("Claude Code didn't finish signing in within " +:+ pretty (timeout / secs 1) +:+ "s"))
  | ExitFails e => Err (IoError e)
  | Exited false => Err (Vendor (dead_message last))
  | Exited true => account
  end.

(** ** Pastes *)

(** What a paste does outside: a line is typed into the program, or an
    address is fetched. *)
Inductive PasteEffect : Type :=
  | Types (text : string)
  | Fetches (target : string).

Definition not_from_here : SignInError :=
  Vendor "that address isn't from this sign-in: paste the one its browser tab ended on".

(** [fetched] is what comes of a fetch ([None]: no answer in time), [typed]
    whether the text could be written. *)
Definition submit `{UrlCrate} (fetched : option (result string unit)) (typed : bool) (input : string) (c : ClaudeSignIn)
  : result SignInError unit * list PasteEffect :=
  match cl_running c with
  | None => (Err over, [])
  | Some shared =>
      let raw := trim input in
      let code :=
        match split_once "#" raw with
        | Some (code, state) =>
            if negb (is_empty code) && negb (is_empty state) && negb (str_in " " raw || str_in nl raw) then
              if sh_stdin shared then (if typed then Ok tt else Err over, [Types (raw +:+ newline)])
              else (Err over, [])
            else (Err (Vendor "paste the code Claude's page shows, or the whole address the browser ended on"), [])
        | None => (Err (Vendor "paste the code Claude's page shows, or the whole address the browser ended on"), [])
        end in
      match url_parse raw with
      | None => code
      | Some url =>
          if bool_decide (u_scheme url = "http") || bool_decide (u_scheme url = "https") then
            match sh_port shared with
            | None => (Err not_from_here, [])
            | Some port =>
                let has_code := existsb (fun '(key, value) => bool_decide (key = "code") && negb (is_empty value)) (u_pairs url) in
                if negb (bool_decide (u_port url = Some port)) || negb (is_loopback (default "" (u_host url))) || negb has_code
                then (Err not_from_here, [])
                else
                  let request_uri :=
                    match u_query url with Some query => u_path url +:+ "?" +:+ query | None => u_path url end in
                  (match fetched with
                   | Some (Ok tt) => Ok tt
                   | Some (Err error) => Err (Vendor ("Claude Code didn't take that address: " +:+ error))
                   | None => Err (Vendor "Claude Code didn't take that address: the callback server did not answer in time")
                   end, [Fetches ("http://localhost:" +:+ pretty port +:+ request_uri)])
            end
          else code
      end
  end.

(** ** The environment of the program *)

Definition clean_claude_env (vars : list (string * string)) : list (string * string) :=
  List.filter (fun '(key, _) => negb (bool_decide (key ∈ STRIPPED_ENV))) vars.
Definition set_env (key value : string) (env : list (string * string)) : list (string * string) :=
  List.filter (fun '(existing, _) => negb (bool_decide (existing = key))) env ++ [(key, value)].

Definition login_env (vars extra : list (string * string)) (dir browser opened : string) : list (string * string) :=
  set_env CLAUDE_OPENED_URL_ENV opened (set_env "BROWSER" browser
    (set_env "CLAUDE_CONFIG_DIR" dir (clean_claude_env vars ++ extra))).

(** ** The account it leaves *)

Record ClaudeOAuth := {
  co_access_token : option string; co_refresh_token : option string; co_expires_at : option Z;
  co_subscription_type : option string
}.
Record ClaudeCredentials := { cc_claude_ai_oauth : option ClaudeOAuth }.
Record ClaudeStatus := { cu_email : string; cu_org_name : string; cu_subscription_type : string }.
Record ClaudeProfileAccount := { cp_email_address : option string; cp_organization_name : option string }.

Definition read_credentials (file : option ClaudeCredentials) : option ClaudeOAuth :=
  credentials ← file;
  oauth ← cc_claude_ai_oauth credentials;
  if is_empty (default "" (co_access_token oauth)) then None else Some oauth.

Definition claude_user (email plan org : string) : string :=
  if is_empty email || (negb (bool_decide (plan = "team")) && negb (bool_decide (plan = "enterprise"))) then email
  else
    let org := trim org in
    let label := if is_empty org || contains email org then plan_label plan else org in
    email +:+ " · " +:+ label.

(** [ms / 1000] of an [i64]: towards zero. *)
Definition collect_account (file : option ClaudeCredentials) (status : ClaudeStatus) (profile : ClaudeProfileAccount)
  : result SignInError ClaudeAccount :=
  match read_credentials file with
  | None => Err (Vendor "Claude Code signed in, but kept no sign-in any-converter can read")
  | Some credentials =>
      let email := default "" (cp_email_address profile) in
      let email := if is_empty (trim email) then cu_email status else email in
      let org := default "" (cp_organization_name profile) in
      let org := if is_empty (trim org) then cu_org_name status else org in
      let email := trim email in
      if is_empty email then Err (Vendor "Claude didn't say which account signed in")
      else
        let plan := match co_subscription_type credentials with
                    | Some (String _ _ as plan) => plan
                    | _ => cu_subscription_type status
                    end in
        Ok {| la_user := claude_user email plan org; la_plan := plan; la_org := trim org;
              la_access_token := default "" (co_access_token credentials);
              la_refresh_token := default "" (co_refresh_token credentials);
              la_expires_at_unix := (fun ms => Z.quot ms 1000) <$> co_expires_at credentials |}
  end.

(** * Signing in through Claude Code: theorems

    The start hands out a link or says why not in bounded time, escape
    sequences never cut a link in two, and a paste goes nowhere but to the
    running program. *)

Local Open Scope Z_scope.

(** ** The start *)

Definition no_page (look : Look) : Prop := lk_opened look = None \/ lk_opened look = Some "".

(** What a start that ends in a turn has seen in it. *)
Definition end_seen (deadline : Z) (e : StartEnd) (look : Look) : Prop :=
  match e with
  | Opened url => exists bytes, lk_opened look = Some bytes /\ bytes <> "" /\ url = trim (from_utf8_lossy bytes)
  | Printed url => no_page look /\ lk_printed look = Some url
  | DeadStart => no_page look /\ lk_exited look = Ok true
  | NoLink => no_page look /\ lk_exited look = Ok false /\ lk_printed look = None /\ deadline <= lk_now_end look
  | StartFails why => no_page look /\ lk_exited look = Err why
  end.

(** The clock goes on, the loop sleeps between two turns, and a link that is
    printed stays. *)
Record looks_go_on (looks : nat -> Look) : Prop := {
  lo_clock : forall n, lk_now_printed (looks n) <= lk_now_grace (looks n) <= lk_now_end (looks n);
  lo_sleeps : forall n, lk_now_end (looks n) + POLL <= lk_now_printed (looks (S n));
  lo_stays : forall n url, lk_printed (looks n) = Some url -> lk_printed (looks (S n)) = Some url
}.

Lemma start_turn_ends deadline d look e :
  (is_some d = true -> is_some (lk_printed look) = true) ->
  start_turn deadline d look = inl e -> end_seen deadline e look.
Proof.
  intros Hd. unfold start_turn, end_seen, no_page.
  destruct (lk_opened look) as [[|c s]|] eqn:Ho; [|intros [= <-]; by exists (String c s)|];
    (destruct (lk_printed look) as [url|] eqn:Hp, d as [at_|]; cbn in Hd; try (specialize (Hd eq_refl); done);
     repeat case_match; intros; simplify_eq; rewrite ?andb_true_iff in *; split_and?; naive_solver lia).
Qed.

Lemma start_turn_goes_on deadline d look d' :
  start_turn deadline d look = inr d' ->
  no_page look /\ lk_exited look = Ok false /\
  (d' = None -> lk_printed look = None /\ lk_now_end look < deadline) /\
  (forall at_, d' = Some at_ -> d = Some at_ \/ d = None /\ is_some (lk_printed look) = true /\ at_ = lk_now_printed look + LINK_GRACE) /\
  (forall at_, d' = Some at_ -> is_some (lk_printed look) = true -> lk_now_grace look < at_).
Proof.
  unfold start_turn, no_page.
  destruct (lk_opened look) as [[|c s]|] eqn:Ho; [|done|];
    (destruct (lk_printed look) as [url|] eqn:Hp, d as [at_|];
     repeat case_match; intros; simplify_eq; cbn in *; rewrite ?andb_false_iff, ?andb_true_r in *;
     split_and!; try naive_solver lia).
Qed.

(** How many turns are left, in polls. *)
Definition turns_left (deadline : Z) (d : option Z) (now : Z) : Z :=
  match d with
  | None => Z.max 0 (deadline - now) + LINK_GRACE + 2 * POLL
  | Some at_ => Z.max 0 (at_ - now) + POLL
  end.

Lemma start_loop_ends looks deadline fuel n d :
  looks_go_on looks -> (is_some d = true -> is_some (lk_printed (looks n)) = true) ->
  turns_left deadline d (lk_now_printed (looks n)) <= Z.of_nat fuel * POLL ->
  exists e m, start_loop fuel n deadline d looks = Some (e, m) /\ end_seen deadline e (looks m) /\
    (forall i, (n <= i < m)%nat -> no_page (looks i) /\ lk_exited (looks i) = Ok false).
Proof.
  intros Hl. revert n d. induction fuel as [|fuel IH]; intros n d Hd Hf.
  { exfalso. unfold turns_left, LINK_GRACE, POLL, secs in Hf. change (1 * 1000000000 / 20) with 50000000 in Hf.
    destruct d; lia. }
  cbn [start_loop]. destruct (start_turn deadline d (looks n)) as [e|d'] eqn:Ht.
  { exists e, n. split_and!; [done|by eapply start_turn_ends|lia]. }
  apply start_turn_goes_on in Ht as (Hno & Hex & Hnone & Hsome & Hgrace).
  pose proof (lo_clock _ Hl n). pose proof (lo_sleeps _ Hl n).
  assert (is_some d' = true -> is_some (lk_printed (looks n)) = true) as Hd'.
  { destruct d' as [at_|]; [|done]. destruct (Hsome _ eq_refl) as [->|(_ & ? & _)]; auto. }
  destruct (IH (S n) d') as (e & m & He & Hend & Hbefore).
  - intros Hs. specialize (Hd' Hs). destruct (lk_printed (looks n)) as [url|] eqn:Hp; [|done].
    by rewrite (lo_stays _ Hl _ _ Hp).
  - unfold turns_left, LINK_GRACE, POLL, secs in *. change (1 * 1000000000 / 20) with 50000000 in *.
    destruct d' as [at_|].
    + specialize (Hgrace _ eq_refl (Hd' eq_refl)). destruct (Hsome _ eq_refl) as [->|(-> & _ & ->)]; lia.
    + destruct (Hnone eq_refl) as [Hp Hlt]. destruct d; [|lia]. specialize (Hd eq_refl). by rewrite Hp in Hd.
  - exists e, m. split_and!; [done|done|]. intros i Hi. destruct (decide (i = n)) as [->|]; [done|]. apply Hbefore. lia.
Qed.

(** Starting a Claude sign-in ends: whatever Claude Code does and however
    slow the machine is, the loop is over after at most 662 turns (30 s for a
    link and 3 s for the browser, 50 ms each), in the first turn in which the
    browser was called, the program ended, or a printed link's grace or the
    whole wait was over; a link it hands out is the page the browser was given
    or, without one, what the program printed. *)
Theorem claude_start_ends looks start :
  looks_go_on looks -> start <= lk_now_printed (looks 0%nat) ->
  exists e m, start_loop 662 0 (start + LINK_WAIT) None looks = Some (e, m) /\
    end_seen (start + LINK_WAIT) e (looks m) /\
    (forall i, (i < m)%nat -> no_page (looks i) /\ lk_exited (looks i) = Ok false).
Proof.
  intros Hl Hs. destruct (start_loop_ends looks (start + LINK_WAIT) 662 0 None Hl) as (e & m & He & Hend & Hb); [done| |].
  - unfold turns_left, LINK_WAIT, LINK_GRACE, POLL, secs. change (1 * 1000000000 / 20) with 50000000. lia.
  - exists e, m. split_and!; [done|done|]. intros i Hi. apply Hb. lia.
Qed.

(** A link is printed in the second turn; the browser is never called. *)
Definition sample_looks (n : nat) : Look :=
  let t := Z.of_nat n * POLL in
  {| lk_opened := None; lk_printed := if (n =? 0)%nat then None else Some "https://claude.ai/oauth"; lk_exited := Ok false;
     lk_now_printed := t; lk_now_grace := t; lk_now_end := t |}.

Example sample_start : start_loop 662 0 (secs 0 + LINK_WAIT) None sample_looks = Some (Printed "https://claude.ai/oauth", 61%nat).
Proof. vm_compute. reflexivity. Qed.

Lemma claude_start_ends_witness :
  exists e m, start_loop 662 0 (0 + LINK_WAIT) None sample_looks = Some (e, m) /\
    end_seen (0 + LINK_WAIT) e (sample_looks m) /\
    (forall i, (i < m)%nat -> no_page (sample_looks i) /\ lk_exited (sample_looks i) = Ok false).
Proof.
  apply (claude_start_ends sample_looks 0); [|vm_compute; discriminate].
  split; intros n; cbn [sample_looks lk_now_printed lk_now_grace lk_now_end lk_printed].
  - lia.
  - rewrite Nat2Z.inj_succ. lia.
  - intros url. destruct n; [discriminate|]. exact id.
Defined.

(** ** Pastes *)

(** What is pasted stays on this machine and in this sign-in: a paste
    either changes nothing and is refused, or types one line into the running
    program, which is the trimmed paste and holds a code and a state, or
    fetches one address of the loopback port the sign-in's own link named,
    with the path and the query of a pasted loopback address of that port
    that carries a code; and once the background wait has taken the program,
    every paste is refused. *)
Theorem claude_paste `{UrlCrate} fetched typed input c :
  (let '(r, effects) := submit fetched typed input c in
   (effects = [] /\ exists e, r = Err e) \/
   (exists shared code state, cl_running c = Some shared /\ sh_stdin shared = true /\
      trim input = code +:+ "#" +:+ state /\ code <> "" /\ state <> "" /\
      str_in nl (trim input) = false /\ str_in " " (trim input) = false /\
      effects = [Types (trim input +:+ newline)] /\ (r = Ok tt <-> typed = true)) \/
   (exists shared port url, cl_running c = Some shared /\ sh_port shared = Some port /\
      url_parse (trim input) = Some url /\ u_port url = Some port /\
      (exists host, u_host url = Some host /\ to_ascii_lowercase host ∈ ["localhost"; "127.0.0.1"; "::1"]) /\
      (exists code, ("code", code) ∈ u_pairs url /\ code <> "") /\
      effects = [Fetches ("http://localhost:" +:+ pretty port +:+ u_path url +:+
                          match u_query url with Some query => "?" +:+ query | None => "" end)] /\
      (r = Ok tt <-> fetched = Some (Ok tt)))) /\
  submit fetched typed input (wait_begins c).2 = (Err over, []).
Proof.
  split.
  - unfold submit. destruct (cl_running c) as [shared|] eqn:Hr; [|left; eauto]. cbv zeta.
    set (code := match split_once _ _ with Some _ => _ | None => _ end).
    assert (let '(r, effects) := code in
      (effects = [] /\ exists e, r = Err e) \/
      (exists code state, sh_stdin shared = true /\ trim input = code +:+ "#" +:+ state /\ code <> "" /\ state <> "" /\
        str_in nl (trim input) = false /\ str_in " " (trim input) = false /\
        effects = [Types (trim input +:+ newline)] /\ (r = Ok tt <-> typed = true))) as Hcode.
    { subst code. destruct (split_once "#" (trim input)) as [[code state]|] eqn:Hs; [|left; eauto].
      apply split_once_Some in Hs. destruct (_ && _) eqn:Hc; [|left; eauto].
      rewrite !andb_true_iff, !negb_true_iff, orb_false_iff in Hc. destruct Hc as [[Hc Hst] [Hsp Hn]].
      destruct (sh_stdin shared) eqn:Hin; [|left; eauto]. right. exists code, state.
      split_and!; try done; [by intros ->|by intros ->|]. by destruct typed. }
    clearbody code. destruct code as [r effects].
    destruct (url_parse (trim input)) as [url|] eqn:Hu; [|destruct Hcode; naive_solver].
    destruct (_ || _); [|destruct Hcode; naive_solver].
    destruct (sh_port shared) as [port|] eqn:Hport; [|left; eauto].
    destruct (_ || _) eqn:Hb; [left; eauto|].
    rewrite !orb_false_iff, !negb_false_iff in Hb. destruct Hb as [[Hp Hl] Hc].
    right. right. exists shared, port, url. apply bool_decide_eq_true in Hp. split_and!; try done.
    + unfold is_loopback in Hl. apply bool_decide_eq_true in Hl. destruct (u_host url) as [host|]; [by exists host|].
      exfalso. revert Hl. cbn. rewrite !list.elem_of_cons, elem_of_nil. naive_solver.
    + apply existsb_exists in Hc as ([k v] & Hin & [Hk Hv]%andb_true_iff). apply bool_decide_eq_true in Hk as ->.
      exists v. split; [by apply list_elem_of_In|]. by destruct v.
    + destruct (u_query url); [done|]. by rewrite app_nil_r_str.
    + destruct fetched as [[[]|e]|]; naive_solver.
  - unfold submit, wait_begins. by destruct (cl_terminal c), (cl_running c) eqn:Hr; cbn; rewrite ?Hr.
Qed.

(** ** Printed lines *)

Example strip_ansi_run :
  strip_ansi ("Open " +:+ String ESC "[1;34mhttps://claude.ai/o" +:+ String ESC "[0mauth?x=1") = "Open https://claude.ai/oauth?x=1".
Proof. reflexivity. Qed.

(** A line as a terminal gets it: text, and control sequences between it. *)
Inductive Piece : Type :=
  | PieceText (text : string)
  | PieceCsi (params : string) (final : ascii).
Definition piece_text (p : Piece) : string :=
  match p with
  | PieceText text => text
  | PieceCsi params final => String ESC (String "[" (params +:+ String final ""))
  end.
Definition piece_shown (p : Piece) : string := match p with PieceText text => text | PieceCsi _ _ => "" end.
Fixpoint csi_params (s : string) : bool :=
  match s with EmptyString => true | String c s => between 32 63 (byte_val c) && csi_params s end.
Definition piece_ok (p : Piece) : bool :=
  match p with
  | PieceText text => is_utf8 text && negb (str_in ESC text)
  | PieceCsi params final =>
      csi_params params && between 64 126 (byte_val final)
  end.
Definition line_text (l : list Piece) : string := concat_strings (map piece_text l).
Definition line_shown (l : list Piece) : string := concat_strings (map piece_shown l).

(** No text begins in the middle of a character. *)
Definition at_boundary (s : string) : bool := match s with EmptyString => true | String c _ => negb (is_continuation c) end.

Lemma chars_head d s : exists t tail, chars (String d s) = String d t :: tail.
Proof. cbn [chars]. destruct (chars s) as [|[|e u] tail]; [eauto..|]. destruct (is_continuation e); eauto. Qed.

Lemma chars_cons c d s t tail :
  chars (String d s) = String d t :: tail ->
  chars (String c (String d s)) =
    if is_continuation d then String c (String d t) :: tail else String c "" :: String d t :: tail.
Proof. intros H. remember (String d s) as ds. cbn [chars]. by rewrite H. Qed.

Lemma chars_cons_boundary c s :
  at_boundary s = true -> chars (String c s) = String c "" :: chars s.
Proof.
  destruct s as [|d s]; [done|]. cbn [at_boundary]. intros Hd%negb_true_iff.
  destruct (chars_head d s) as (t & tail & Ht). by rewrite (chars_cons _ _ _ _ _ Ht), Ht, Hd.
Qed.

Lemma chars_app a b : at_boundary b = true -> chars (a +:+ b) = chars a ++ chars b.
Proof.
  intros Hb. induction a as [|c [|d a] IH]; [done|by apply chars_cons_boundary|].
  destruct (chars_head d a) as (t & tail & Ht). rewrite Ht in IH.
  rewrite !app_cons_str in *. cbn [app] in IH. rewrite (chars_cons _ _ _ _ _ Ht), (chars_cons _ _ _ _ _ IH).
  by destruct (is_continuation d).
Qed.

Lemma utf8_boundary s : is_utf8 s = true -> at_boundary s = true.
Proof.
  destruct s as [|c s]; [done|]. unfold is_utf8. cbn [utf8_after at_boundary].
  by_bytes (fun c => is_some (utf8_need (byte_val c)) || true) c. clear H.
  assert (is_continuation c = true -> utf8_need (byte_val c) = None) as Hc.
  { by_bytes (fun c => negb (is_continuation c) || bool_decide (utf8_need (byte_val c) = None)) c.
    intros Hc. rewrite Hc in H. by apply bool_decide_eq_true in H. }
  destruct (is_continuation c); [by rewrite Hc|done].
Qed.

Lemma piece_boundary p : piece_ok p = true -> at_boundary (piece_text p) = true.
Proof. destruct p; [|done]. cbn. intros [Hu _]%andb_true_iff. by apply utf8_boundary. Qed.

Lemma line_boundary l : forallb piece_ok l = true -> at_boundary (line_text l) = true.
Proof.
  induction l as [|p l IH]; [done|]. cbn [forallb]. intros [Hp Hl]%andb_true_iff.
  unfold line_text in *. cbn [map concat_strings foldr]. fold (concat_strings (map piece_text l)).
  pose proof (piece_boundary p Hp). destruct (piece_text p); [by apply IH|done].
Qed.

Lemma strip_text text rest :
  str_in ESC text = false -> strip_chars AnsiText (chars text ++ rest) = text +:+ strip_chars AnsiText rest.
Proof.
  intros Ht. assert (Forall (fun ch => ch <> String ESC "") (chars text)) as Hall.
  { apply List.Forall_forall. intros ch Hin ->. revert Ht. rewrite <-(chars_concat text).
    induction (chars text) as [|x l IH]; [done|]. unfold concat_strings. cbn [foldr]. rewrite str_in_app.
    destruct Hin as [->|Hin]; [done|]. intros [_ H]%orb_false_iff. by apply IH. }
  rewrite <-(chars_concat text) at 2. induction Hall as [|x l Hx _ IH]; [done|].
  cbn [app strip_chars]. rewrite decide_False by done. rewrite IH. unfold concat_strings. cbn [foldr].
  by rewrite app_assoc_str.
Qed.

Lemma csi_boundary params final :
  csi_params params = true -> between 64 126 (byte_val final) = true -> at_boundary (params +:+ String final "") = true.
Proof.
  destruct params as [|c params]; intros Hp Hf.
  - rewrite app_nil_l_str. cbn [at_boundary]. unfold is_continuation, between in *. lia.
  - cbn [csi_params] in Hp. rewrite app_cons_str. cbn [at_boundary]. unfold is_continuation, between in *. lia.
Qed.

Lemma strip_csi params final rest :
  csi_params params = true ->
  between 64 126 (byte_val final) = true ->
  strip_chars AnsiCsi (chars (params +:+ String final "") ++ rest) = strip_chars AnsiText rest.
Proof.
  intros Hp Hf. induction params as [|c params IH].
  - rewrite app_nil_l_str. cbn [chars app strip_chars csi_final]. by rewrite Hf.
  - cbn [csi_params] in Hp. apply andb_true_iff in Hp as [Hc Hp]. rewrite app_cons_str.
    rewrite chars_cons_boundary by (by apply csi_boundary). cbn [app strip_chars csi_final].
    assert (between 64 126 (byte_val c) = false) as -> by (unfold between in *; lia). by apply IH.
Qed.

Lemma strip_line l : forallb piece_ok l = true -> strip_ansi (line_text l) = line_shown l.
Proof.
  unfold strip_ansi. induction l as [|p l IH]; [done|]. cbn [forallb]. intros [Hp Hl]%andb_true_iff.
  unfold line_text, line_shown in *. unfold concat_strings in *. cbn [map foldr].
  rewrite chars_app by (by apply line_boundary). destruct p as [text|params final]; cbn [piece_text piece_shown piece_ok] in *.
  - apply andb_true_iff in Hp as [_ Hp%negb_true_iff]. rewrite strip_text by done. by rewrite IH.
  - apply andb_true_iff in Hp as [Hp Hf]. rewrite !chars_cons_boundary by (done || by apply csi_boundary).
    cbn [app strip_chars]. rewrite decide_True, decide_True by done. rewrite strip_csi by done. by rewrite IH.
Qed.

(** Colours never cut a link in two: however control sequences are spread
    over a printed line, the link that is remembered is the one in the text
    that is shown, the first one of the run, and the last line is the text
    shown, without blanks and the prompt. *)
Theorem printed_link l shared :
  forallb piece_ok l = true ->
  sh_printed (observe (line_text l) shared) =
    match sh_printed shared with Some url => Some url | None => find_https_url (line_shown l) end /\
  (forall rest, trim (line_shown l) = "Paste code here if prompted >" +:+ rest -> trim rest <> "" ->
    sh_last_line (observe (line_text l) shared) = trim rest) /\
  (starts_with "Paste code here if prompted >" (trim (line_shown l)) = false -> trim (line_shown l) <> "" ->
    sh_last_line (observe (line_text l) shared) = trim (line_shown l)).
Proof.
  intros Hl. unfold observe. rewrite (strip_line l Hl). cbv zeta. split_and!; cbn [sh_printed sh_last_line].
  - by destruct (find_https_url _), (sh_printed shared).
  - intros rest Hr Hne. rewrite Hr, strip_prefix_app. by destruct (trim rest).
  - unfold starts_with. destruct (strip_prefix _ _); [done|]. intros _ Hne. by destruct (trim (line_shown l)).
Qed.

Lemma printed_link_witness :
  sh_printed (observe (line_text [PieceText "visit: "; PieceCsi "1;34" "m"; PieceText "https://claude.ai/o";
    PieceCsi "0" "m"; PieceText "auth?x=1 now"]) Shared_new) = Some "https://claude.ai/oauth?x=1".
Proof.
  refine (eq_trans (proj1 (printed_link _ _ _)) _); vm_compute; reflexivity.
Defined.
