(* ===== verification/SignIn.v ===== *)
(** * Sign-in tasks

    [SignInTasks] of signin_task.rs: the registry of the sign-ins in flight,
    the API calls that start, look at, finish and cancel them, and the
    background task each browser flow waits in. Calls and background tasks
    run interleaved: each is a program whose steps are what it does between
    two waits or two accesses to the registry, whose mutex is never held
    across a wait. What the vendors, the browsers and the store answer are
    the events of a run.

    The n-th API call is the thread [Api n]; the background task it may spawn
    is [Bg n], and [uuid n] the identifier it draws. *)
From Stdlib Require Import ZArith Lia.
From stdpp Require Import functions gmap.
From S2P Require Import Prelude.
From S2P Require Import RustStd.
From S2P Require Import SecretStore.
From S2P Require Import OAuth.
From S2P Require Import VendorSignIn.

Local Open Scope Z_scope.

(** Times are in nanoseconds. *)
Definition DEFAULT_SIGN_IN_TIMEOUT : Z := secs 600.
Definition FINISHED_TTL : Z := secs 300.
Definition PLUGIN_SIGN_IN_RETRY : Z := secs 2.
Definition PLUGIN_SIGN_IN_RESTART_AFTER : Z := secs 60.

Definition STATE_WAITING : string := "waiting".
Definition STATE_DONE : string := "done".
Definition STATE_FAILED : string := "failed".
Definition STATE_CANCELED : string := "canceled".

Definition GEMINI_INSTRUCTIONS : string :=
  "Open the URL in your browser. If the browser cannot reach this host, paste the callback URL from the browser's address bar below.".
Definition COPILOT_INSTRUCTIONS : string := "Open the verification page and enter the code.".
Definition CODEX_INSTRUCTIONS : string :=
  "Open the URL in your browser. If the browser cannot reach this host or port 1455 is busy, paste the callback URL from the browser's address bar below.".
Definition CLAUDE_INSTRUCTIONS : string :=
  "paste the code Claude's page shows, or the whole address the browser ended on".
Definition SIWC_PROVIDER : string := "chatgpt-api".
Definition SIWC_INSTRUCTIONS : string :=
  "Paste the whole address the browser ended on — it carries the code and the client id".
Definition COPILOT_VERIFICATION_URI : string := "https://github.com/login/device".

Record SignInTask := {
  st_id : string;
  st_provider : string;
  st_state : string;
  st_url : string;
  st_code : string;
  st_instructions : string;
  st_paste_callback : bool;
  st_paste_code : bool;
  st_user : string;
  st_plan : string;
  st_error : string
}.

(** The vendor's objects inside a driver belong to the flow: those of the
    call that started it. *)
Inductive TaskDriver : Type :=
  | DriveGemini (flow : nat) (oauth_state provider : string)
  | DriveCodex (flow : nat) (oauth_state : string)
  | DriveSiwc (oauth_state : string)
  | DrivePlugin (session provider : string)
  | DriveClaude
  | DriveCopilot.

Record TaskHandle := {
  th_task : SignInTask;
  th_background : option nat;
  th_driver : TaskDriver;
  th_finished_at : option Z
}.

(** ** The end of a flow: what is kept, and what the task then says *)

(** A computation that may stop at [store_sign_in]. *)
Inductive Keeping (A : Type) : Type :=
  | Now (a : A)
  | StoreSignIn (account_id : string) (cred : Credential) (k : result string unit -> A).
Arguments Now {A} a.
Arguments StoreSignIn {A} account_id cred k.

Definition keep_map {A B} (f : A -> B) (m : Keeping A) : Keeping B :=
  match m with Now a => Now (f a) | StoreSignIn id cred k => StoreSignIn id cred (fun r => f (k r)) end.

Section settle.
(** The wall clock when the monotonic one reads 0, and what the latter reads
    now. *)
Variables (epoch now : Z).

Definition unix_now : Z := Z.max 0 ((epoch + now) / secs 1).

Definition settle_google (result : result SignInError GeminiAccount) (provider : string)
  : Keeping (string * string * string) :=
  match result with
  | Err err => Now (STATE_FAILED, "", show_error err)
  | Ok account =>
      let account_id := provider +:+ ":" +:+ ga_email account in
      let credential := CredOAuth provider (ga_email account) (ga_access_token account) (ga_refresh_token account)
        (match ga_expires_at account with
         | Some at_ => Some (unix_now + Z.max 0 (at_ - now) / secs 1)
         | None => None
         end) None in
      StoreSignIn account_id credential (fun stored =>
        match stored with
        | Ok tt => (STATE_DONE, account_id, "")
        | Err err => (STATE_FAILED, "", "storing the account failed: " +:+ err)
        end)
  end.

Definition settle_siwc (result : result SignInError SiwcAccount) : Keeping (string * string * string * string) :=
  match result with
  | Err err => Now (STATE_FAILED, "", "", show_error err)
  | Ok account =>
      let credential := CredOAuth SIWC_PROVIDER (wa_user account) (wa_access account) (Some (wa_refresh account))
        (Some (wa_expires_at_unix account))
        (Some {| sm_client_id := wa_client_id account; sm_host_id := wa_host_id account;
                 sm_id_token := wa_id_token account; sm_scopes := wa_scopes account |}) in
      StoreSignIn (siwc_account_id account) credential (fun stored =>
        match stored with
        | Ok tt => (STATE_DONE, wa_user account, wa_plan account, "")
        | Err err => (STATE_FAILED, "", "", err)
        end)
  end.

Definition settle_codex (result : result SignInError CodexAccount) : Keeping (string * string * string * string) :=
  match result with
  | Err err => Now (STATE_FAILED, "", "", show_error err)
  | Ok account =>
      let credential := CredOAuth "codex" (ca_email account) (ca_access_token account)
        (Some (ca_refresh_token account)) (ca_expires_at_unix account) None in
      StoreSignIn (codex_account_id account) credential (fun stored =>
        match stored with
        | Ok tt => (STATE_DONE, ca_user account, ca_plan account, "")
        | Err err => (STATE_FAILED, "", "", "storing the account failed: " +:+ err)
        end)
  end.

Definition settle_copilot (result : result SignInError CopilotAccount) : Keeping (string * string * string) :=
  match result with
  | Err err => Now (STATE_FAILED, "", show_error err)
  | Ok account =>
      let account_id := copilot_account_id account in
      let credential := CredOAuth "copilot" (default account_id (strip_prefix "copilot:" account_id))
        (pa_access_token account) None None None in
      StoreSignIn account_id credential (fun stored =>
        match stored with
        | Ok tt => (STATE_DONE, account_id, "")
        | Err err => (STATE_FAILED, "", "storing the account failed: " +:+ err)
        end)
  end.

Definition settle_claude (result : result SignInError ClaudeAccount) : Keeping (string * string * string * string) :=
  match result with
  | Err err => Now (STATE_FAILED, "", "", show_error err)
  | Ok account =>
      let credential := CredOAuth "claude" (la_user account) (la_access_token account)
        (if is_empty (la_refresh_token account) then None else Some (la_refresh_token account))
        (la_expires_at_unix account) None in
      StoreSignIn (claude_account_id account) credential (fun stored =>
        match stored with
        | Ok tt => (STATE_DONE, la_user account, la_plan account, "")
        | Err err => (STATE_FAILED, "", "", "storing the account failed: " +:+ err)
        end)
  end.
End settle.

(** What the closures given to [update_task] write. *)
Inductive Change : Type :=
  | Settle3 (v : string * string * string)
  | Settle4 (v : string * string * string * string)
  | SettleDone (user : string)
  | SettleFailed (error : string)
  | ShowCode (url code : string).

(** The state, user, plan and error a change leaves behind. *)
Definition change_fields (c : Change) (t : SignInTask) : string * string * string * string :=
  match c with
  | Settle3 (state, user, error) => (state, user, st_plan t, error)
  | Settle4 (state, user, plan, error) => (state, user, plan, error)
  | SettleDone user => (STATE_DONE, user, st_plan t, st_error t)
  | SettleFailed error => (STATE_FAILED, st_user t, st_plan t, error)
  | ShowCode _ _ => (st_state t, st_user t, st_plan t, st_error t)
  end.

Definition apply_change (c : Change) (t : SignInTask) : SignInTask :=
  let '(state, user, plan, error) := change_fields c t in
  {| st_id := st_id t; st_provider := st_provider t; st_state := state;
     st_url := match c with ShowCode url _ => url | _ => st_url t end;
     st_code := match c with ShowCode _ code => code | _ => st_code t end;
     st_instructions := st_instructions t; st_paste_callback := st_paste_callback t;
     st_paste_code := st_paste_code t; st_user := user; st_plan := plan; st_error := error |}.

(** A pasted Google sign-in has no plan to show. *)
Definition no_plan (v : string * string * string) : string * string * string * string :=
  let '(state, user, error) := v in (state, user, "", error).

(** ** The registry *)

Abbreviation Registry := (gmap string TaskHandle).

Definition still_read (now : Z) (handle : TaskHandle) : bool :=
  match th_finished_at handle with None => true | Some at_ => now - at_ <? FINISHED_TTL end.
Definition prune (now : Z) (tasks : Registry) : Registry :=
  filter (fun entry => still_read now entry.2 = true) tasks.

Definition with_task (t : SignInTask) (h : TaskHandle) : TaskHandle :=
  {| th_task := t; th_background := th_background h; th_driver := th_driver h; th_finished_at := th_finished_at h |}.
Definition with_background (b : option nat) (h : TaskHandle) : TaskHandle :=
  {| th_task := th_task h; th_background := b; th_driver := th_driver h; th_finished_at := th_finished_at h |}.
Definition with_finished (at_ : option Z) (h : TaskHandle) : TaskHandle :=
  {| th_task := th_task h; th_background := th_background h; th_driver := th_driver h; th_finished_at := at_ |}.

Definition update_task (id : string) (c : Change) (tasks : Registry) : Registry :=
  match tasks !! id with
  | Some h => <[id := with_task (apply_change c (th_task h)) h]> tasks
  | None => tasks
  end.

Definition mark_finished (now : Z) (id : string) (tasks : Registry) : Registry :=
  match tasks !! id with
  | Some h => <[id := with_finished (Some now) h]> tasks
  | None => tasks
  end.

(** ** Threads *)

Inductive Flow : Type :=
  | FlowGoogle (app : GoogleApp) (provider : string)
  | FlowCodex
  | FlowCopilot
  | FlowSiwc
  | FlowPlugin (provider_id : string)
  | FlowClaude.

(** A call of the API. *)
Inductive ApiCall : Type :=
  | CallStart (provider : string) (spec : option string)
  | CallStatus (id : string)
  | CallSubmit (id input : string)
  | CallCancel (id : string)
  | CallShutdown.

Inductive Return : Type :=
  | ReturnTask (r : result string SignInTask)
  | ReturnStatus (t : option SignInTask)
  | ReturnExisted (existed : bool)
  | ReturnUnit.

(** An exchange of a code: with whom, and whether the code was pasted. *)
Inductive Exchange : Type :=
  | ExchangeGoogle (provider : string) (pasted : bool)
  | ExchangeCodex
  | ExchangeSiwc.

(** What a thread does next. *)
Inductive Pc : Type :=
  | Idle
  | Begin
  (* calls *)
  | Starting (flow : Flow)
  | Inserting (id : string) (handle : TaskHandle)
  | IntoCli (id : string)
  | IntoPlugin (id session provider : string)
  | JoinFinish (id input : string) (driver : TaskDriver) (background : nat)
  | Finishing (id input : string) (driver : TaskDriver)
  | JoinCancel (background : nat)
  | Stopping (rest : list nat)
  | JoinStop (background : nat) (rest : list nat)
  | ReadStatus (id why : string)
  | Returned (r : Return)
  (* background tasks *)
  | WaitCallback (id : string) (driver : TaskDriver)
  | WaitCli (id : string)
  | CopilotStart (id : string)
  | CopilotWait (id : string)
  | PluginBegin (id session : string)
  | PluginAsk (id session : string) (deadline restarted : Z)
  | PluginPause (id session : string) (deadline restarted until : Z)
  | PluginRestart (id : string) (deadline restarted : Z)
  (* both *)
  | Exchanging (id : string) (exchange : Exchange) (next : Pc)
  | Settling (id : string) (k : Keeping Change) (next : Pc)
  | Changing (id : string) (c : Change) (next : Pc)
  | Marking (id : string) (next : Pc)
  | Ended.

Inductive Thread : Type := Api (n : nat) | Bg (n : nat).
#[export] Instance Thread_eq_dec : EqDecision Thread.
Proof. solve_decision. Defined.

(** What was kept, and by the flow of which task: a credential in the store,
    or one that a plugin says it keeps. *)
Inductive Kept : Type :=
  | KeptCredential (id account_id : string) (cred : Credential)
  | KeptByPlugin (id provider account : string).

Record Signs := {
  sg_tasks : Registry;
  sg_pc : Thread -> Pc;
  sg_sessions : gset nat;
  sg_aborted : gset nat;
  sg_now : Z;
  sg_kept : list Kept
}.

Definition signs0 (now : Z) : Signs :=
  {| sg_tasks := ∅; sg_pc := fun _ => Idle; sg_sessions := ∅; sg_aborted := ∅; sg_now := now; sg_kept := [] |}.

Definition go_to (w : Thread) (pc : Pc) (s : Signs) : Signs :=
  {| sg_tasks := sg_tasks s; sg_pc := <[w := pc]> (sg_pc s); sg_sessions := sg_sessions s;
     sg_aborted := sg_aborted s; sg_now := sg_now s; sg_kept := sg_kept s |}.
Definition on_tasks (f : Registry -> Registry) (s : Signs) : Signs :=
  {| sg_tasks := f (sg_tasks s); sg_pc := sg_pc s; sg_sessions := sg_sessions s;
     sg_aborted := sg_aborted s; sg_now := sg_now s; sg_kept := sg_kept s |}.
Definition on_sessions (f : gset nat -> gset nat) (s : Signs) : Signs :=
  {| sg_tasks := sg_tasks s; sg_pc := sg_pc s; sg_sessions := f (sg_sessions s);
     sg_aborted := sg_aborted s; sg_now := sg_now s; sg_kept := sg_kept s |}.
Definition abort (b : nat) (s : Signs) : Signs :=
  {| sg_tasks := sg_tasks s; sg_pc := sg_pc s; sg_sessions := sg_sessions s;
     sg_aborted := {[b]} ∪ sg_aborted s; sg_now := sg_now s; sg_kept := sg_kept s |}.
Definition keep (k : Kept) (s : Signs) : Signs :=
  {| sg_tasks := sg_tasks s; sg_pc := sg_pc s; sg_sessions := sg_sessions s;
     sg_aborted := sg_aborted s; sg_now := sg_now s; sg_kept := sg_kept s ++ [k] |}.
Definition tick_to (now : Z) (s : Signs) : Signs :=
  {| sg_tasks := sg_tasks s; sg_pc := sg_pc s; sg_sessions := sg_sessions s;
     sg_aborted := sg_aborted s; sg_now := now; sg_kept := sg_kept s |}.

(** ** Starting *)

(** [start_with_proxy_at]; [has_hosts] says whether plugin hosts are known. *)
Definition dispatch (has_hosts : bool) (provider : string) (spec : option string) : result string Flow :=
  let other := to_ascii_lowercase provider in
  if decide (other = "gemini") then Ok (FlowGoogle Gemini "gemini")
  else if decide (other = "antigravity") then Ok (FlowGoogle Antigravity "antigravity")
  else if decide (other = "codex") then Ok FlowCodex
  else if decide (other = "copilot") then Ok FlowCopilot
  else if decide (other = "chatgpt-api") then Ok FlowSiwc
  else
    match strip_prefix "plugin:" other with
    | Some provider_id =>
        if negb has_hosts then Err "plugin sign-in needs the server's plugin hosts"
        else if is_empty (default "" spec) then
          Err ("signing in to plugin provider " +:+ provider_id +:+ " needs its spec (`spec` in the request)")
        else Ok (FlowPlugin provider_id)
    | None =>
        if decide (other = "claude") then Ok FlowClaude
        else Err ("unknown provider: " +:+ other +:+ " (supported: gemini, antigravity, codex, copilot, claude)")
    end.

(** What starting the vendor's flow gives; an authorization of a plugin says
    its method. *)
Inductive Started : Type :=
  | StartedBrowser (url : string) (paste_callback : bool) (oauth_state : string)
  | StartedPlugin (url instructions : option string) (method session : string)
  | StartedCli (url : string) (paste_code : bool)
  | StartedPoller.

Definition new_task (id provider url instructions : string) (paste_callback paste_code : bool) : SignInTask :=
  {| st_id := id; st_provider := provider; st_state := STATE_WAITING; st_url := url; st_code := "";
     st_instructions := instructions; st_paste_callback := paste_callback; st_paste_code := paste_code;
     st_user := ""; st_plan := ""; st_error := "" |}.

(** What a start leaves: the task, the driver, what the spawned task does if
    there is one, and whether there is a session that is exchanged once. *)
Definition Launched : Type := SignInTask * TaskDriver * option Pc * bool.

Definition start_google (n : nat) (id provider : string) (started : Started) : option Launched :=
  match started with
  | StartedBrowser url paste_callback oauth_state =>
      let driver := DriveGemini n oauth_state provider in
      Some (new_task id provider url GEMINI_INSTRUCTIONS paste_callback false, driver,
            Some (WaitCallback id driver), true)
  | _ => None
  end.

Definition start_codex (n : nat) (id : string) (started : Started) : option Launched :=
  match started with
  | StartedBrowser url paste_callback oauth_state =>
      let driver := DriveCodex n oauth_state in
      Some (new_task id "codex" url CODEX_INSTRUCTIONS paste_callback false, driver,
            if paste_callback then None else Some (WaitCallback id driver), true)
  | _ => None
  end.

Definition start_siwc (id : string) (started : Started) : option Launched :=
  match started with
  | StartedBrowser url paste_callback oauth_state =>
      Some (new_task id SIWC_PROVIDER url SIWC_INSTRUCTIONS paste_callback false, DriveSiwc oauth_state, None, false)
  | _ => None
  end.

Definition start_plugin (id provider_id : string) (started : Started) : option Launched :=
  match started with
  | StartedPlugin url instructions method session =>
      let code := bool_decide (method = "code") in
      Some (new_task id ("plugin:" +:+ provider_id) (default "" url) (default "" instructions) false code,
            if code then DrivePlugin session provider_id else DriveCopilot,
            if code then None else Some (PluginBegin id session), false)
  | _ => None
  end.

Definition start_claude (id : string) (started : Started) : option Launched :=
  match started with
  | StartedCli url paste_code =>
      Some (new_task id "claude" url CLAUDE_INSTRUCTIONS (negb paste_code) paste_code, DriveClaude,
            Some (WaitCli id), false)
  | _ => None
  end.

Definition start_copilot (id : string) (started : Started) : option Launched :=
  match started with
  | StartedPoller =>
      Some (new_task id "copilot" COPILOT_VERIFICATION_URI COPILOT_INSTRUCTIONS false true, DriveCopilot,
            Some (CopilotStart id), false)
  | _ => None
  end.

Definition start_flow (n : nat) (id : string) (flow : Flow) (started : Started) : option Launched :=
  match flow with
  | FlowGoogle _ provider => start_google n id provider started
  | FlowCodex => start_codex n id started
  | FlowCopilot => start_copilot id started
  | FlowSiwc => start_siwc id started
  | FlowPlugin provider_id => start_plugin id provider_id started
  | FlowClaude => start_claude id started
  end.

Section registry.
(** The identifiers, the calls, whether there are plugin hosts, and the wall
    clock when the monotonic one reads 0. *)
Variables (uuid : nat -> string) (call : nat -> ApiCall) (has_hosts : bool) (epoch : Z).

Definition task_id (n : nat) : string := "signin-" +:+ uuid n.
Definition not_found (id : string) : string := "sign-in task " +:+ id +:+ " not found".
Definition vanished (id : string) : string := "sign-in task " +:+ id +:+ " vanished during submit".
Definition vanished_plugin (id provider : string) : string :=
  "sign-in task " +:+ id +:+ " for plugin " +:+ provider +:+ " vanished during submit".

Definition return_ (n : nat) (r : Return) (s : Signs) : Signs := go_to (Api n) (Returned r) s.

(** The vendor's flow is started: the background task is spawned, then the
    handle goes into the registry. *)
Definition sg_started (n : nat) (flow : Flow) (r : result string Started) (s : Signs) : option Signs :=
  match r with
  | Err e => Some (return_ n (ReturnTask (Err e)) s)
  | Ok started =>
      match start_flow n (task_id n) flow started with
      | None => None
      | Some (task, driver, background, session) =>
          let handle := {| th_task := task; th_background := if is_some background then Some n else None;
                           th_driver := driver; th_finished_at := None |} in
          let s := if session then on_sessions (union {[n]}) s else s in
          let s := match background with Some pc => go_to (Bg n) pc s | None => s end in
          Some (go_to (Api n) (Inserting (task_id n) handle) s)
      end
  end.

(** [submit] up to the release of the registry. *)
Definition sg_submit (n : nat) (id input : string) (s : Signs) : Signs :=
  match sg_tasks s !! id with
  | None => return_ n (ReturnTask (Err (not_found id))) s
  | Some handle =>
      if decide (st_state (th_task handle) <> STATE_WAITING) then return_ n (ReturnTask (Ok (th_task handle))) s
      else
        match th_driver handle with
        | DriveCopilot => return_ n (ReturnTask (Err "copilot has no pasted input")) s
        | DriveClaude => go_to (Api n) (IntoCli id) s
        | DrivePlugin session provider => go_to (Api n) (IntoPlugin id session provider) s
        | driver =>
            let s := on_tasks <[id := with_background None handle]> s in
            match th_background handle with
            | Some b => go_to (Api n) (JoinFinish id input driver b) (abort b s)
            | None => go_to (Api n) (Finishing id input driver) s
            end
        end
  end.

Definition paste_change (e : SignInError) : Change :=
  Settle4 (STATE_FAILED, "", "", show_error e).

(** The session of a flow is taken by the first exchange. *)
Definition take_session (w : Thread) (flow : nat) (id : string) (exchange : Exchange) (fail : SignInError -> Change)
    (next : Pc) (s : Signs) : Signs :=
  if decide (flow ∈ sg_sessions s)
  then go_to w (Exchanging id exchange next) (on_sessions (fun m => m ∖ {[flow]}) s)
  else go_to w (Changing id (fail NotStarted) next) s.

(** [finish_pasted] of the driver, up to the exchange of its code. *)
Definition sg_finish (n : nat) (id input : string) (driver : TaskDriver) (s : Signs) : Signs :=
  let next := ReadStatus id (vanished id) in
  let fail := paste_change in
  match driver with
  | DriveGemini flow oauth_state provider =>
      match pasted_code no_code input oauth_state with
      | Ok _ => take_session (Api n) flow id (ExchangeGoogle provider true) fail next s
      | Err e => go_to (Api n) (Changing id (fail e) next) s
      end
  | DriveCodex flow oauth_state =>
      match pasted_code no_code input oauth_state with
      | Ok _ => take_session (Api n) flow id ExchangeCodex fail next s
      | Err e => go_to (Api n) (Changing id (fail e) next) s
      end
  | DriveSiwc oauth_state =>
      match pasted_code siwc_no_code input oauth_state with
      | Ok _ =>
          if is_empty (trim (default "" (find_pair "client_id" (query_pairs input))))
          then go_to (Api n) (Changing id (fail (Vendor
            "OpenAI didn't finish registering any-converter (no client id came back); start it again")) next) s
          else go_to (Api n) (Exchanging id ExchangeSiwc next) s
      | Err e => go_to (Api n) (Changing id (fail e) next) s
      end
  | DriveCopilot | DriveClaude | DrivePlugin _ _ => s
  end.

(** The next operation of a thread; [None] when it has to wait. *)
Definition sg_go (w : Thread) (s : Signs) : option Signs :=
  match sg_pc s w, w with
  | Begin, Api n =>
      Some match call n with
           | CallStart provider spec =>
               match dispatch has_hosts provider spec with
               | Ok flow => go_to w (Starting flow) s
               | Err e => return_ n (ReturnTask (Err e)) s
               end
           | CallStatus id =>
               let s := on_tasks (prune (sg_now s)) s in
               return_ n (ReturnStatus (th_task <$> sg_tasks s !! id)) s
           | CallSubmit id input => sg_submit n id input s
           | CallCancel id =>
               match sg_tasks s !! id with
               | None => return_ n (ReturnExisted false) s
               | Some handle =>
                   let s := on_tasks (delete id) s in
                   match th_background handle with
                   | Some b => go_to w (JoinCancel b) (abort b s)
                   | None => return_ n (ReturnExisted true) s
                   end
               end
           | CallShutdown =>
               go_to w (Stopping (omap (fun entry => th_background entry.2) (map_to_list (sg_tasks s))))
                 (on_tasks (fun _ => ∅) s)
           end
  | Inserting id handle, Api n =>
      Some (return_ n (ReturnTask (Ok (th_task handle)))
              (on_tasks (fun m => <[id := handle]> (prune (sg_now s) m)) s))
  | JoinFinish id input driver b, Api n =>
      match sg_pc s (Bg b) with Ended => Some (go_to w (Finishing id input driver) s) | _ => None end
  | Finishing id input driver, Api n => Some (sg_finish n id input driver s)
  | JoinCancel b, Api n =>
      match sg_pc s (Bg b) with Ended => Some (return_ n (ReturnExisted true) s) | _ => None end
  | Stopping [], Api n => Some (return_ n ReturnUnit s)
  | Stopping (b :: rest), Api n => Some (go_to w (JoinStop b rest) (abort b s))
  | JoinStop b rest, Api n =>
      match sg_pc s (Bg b) with Ended => Some (go_to w (Stopping rest) s) | _ => None end
  | ReadStatus id why, Api n =>
      let s := on_tasks (prune (sg_now s)) s in
      Some (return_ n (ReturnTask match sg_tasks s !! id with
                                  | Some handle => Ok (th_task handle)
                                  | None => Err why
                                  end) s)
  | PluginBegin id session, Bg n =>
      Some (go_to w (PluginAsk id session (sg_now s + DEFAULT_SIGN_IN_TIMEOUT) (sg_now s)) s)
  | PluginPause id session deadline restarted until, Bg n =>
      if sg_now s <? until then None
      else if sg_now s - restarted <? PLUGIN_SIGN_IN_RESTART_AFTER
      then Some (go_to w (PluginAsk id session deadline restarted) s)
      else Some (go_to w (PluginRestart id deadline (sg_now s)) s)
  | Settling id (Now c) next, _ => Some (go_to w (Changing id c next) s)
  | Changing id c next, _ => Some (go_to w next (on_tasks (update_task id c) s))
  | Marking id next, _ => Some (go_to w next (on_tasks (mark_finished (sg_now s) id) s))
  | _, _ => None
  end.

(** ** What comes from outside *)

Inductive VendorReply : Type :=
  | Redirected (params : gmap string string)
  | WaitEnds (e : SignInError)
  | GoogleSays (r : result SignInError GeminiAccount)
  | CodexSays (r : result SignInError CodexAccount)
  | SiwcSays (r : result SignInError SiwcAccount)
  | ClaudeSays (r : result SignInError ClaudeAccount)
  | DeviceCode (r : result SignInError (string * string))
  | CopilotSays (r : result SignInError CopilotAccount)
  | PasteTaken (r : result SignInError unit)
  | PluginSaved (r : result string (string * string))
  | PluginAuthorized (r : result string string).

(** What a callback gives the thread that waits for it: the code, an error,
    or nothing, when the wait goes on. *)
Definition callback_result (driver : TaskDriver) (params : gmap string string) : option (result SignInError unit) :=
  match driver with
  | DriveGemini _ oauth_state _ =>
      match classify_callback params oauth_state with
      | Success _ => Some (Ok tt)
      | Fatal e => Some (Err e)
      | Mismatch => None
      end
  | DriveCodex _ oauth_state =>
      match codex_classify_callback params oauth_state with
      | Ok _ => Some (Ok tt)
      | Err StateMismatch => None
      | Err e => Some (Err e)
      end
  | _ => None
  end.

(** The background task of a browser flow has a result of its wait. *)
Definition sg_waited (n : nat) (id : string) (driver : TaskDriver) (r : result SignInError unit) (s : Signs) : Signs :=
  let next := Marking id Ended in
  match driver with
  | DriveGemini flow _ provider =>
      let fail e := Settle3 (STATE_FAILED, "", show_error e) in
      match r with
      | Ok tt => take_session (Bg n) flow id (ExchangeGoogle provider false) fail next s
      | Err e => go_to (Bg n) (Changing id (fail e) next) s
      end
  | DriveCodex flow _ =>
      let fail e := Settle4 (STATE_FAILED, "", "", show_error e) in
      match r with
      | Ok tt => take_session (Bg n) flow id ExchangeCodex fail next s
      | Err e => go_to (Bg n) (Changing id (fail e) next) s
      end
  | _ => s
  end.

Definition exchange_settles (now : Z) (exchange : Exchange) (reply : VendorReply) : option (Keeping Change) :=
  match exchange, reply with
  | ExchangeGoogle provider pasted, GoogleSays r =>
      let settled := settle_google epoch now r provider in
      Some (if pasted then keep_map (fun v => Settle4 (no_plan v)) settled else keep_map Settle3 settled)
  | ExchangeCodex, CodexSays r => Some (keep_map Settle4 (settle_codex r))
  | ExchangeSiwc, SiwcSays r => Some (keep_map Settle4 (settle_siwc r))
  | _, _ => None
  end.

Definition plugin_user (saved : string * string) : string := saved.1 +:+ ":" +:+ saved.2.

(** A reply reaches the thread that waits for it. *)
Definition sg_answer (w : Thread) (reply : VendorReply) (s : Signs) : option Signs :=
  match sg_pc s w, w, reply with
  | WaitCallback id driver, Bg n, Redirected params =>
      Some (match callback_result driver params with Some r => sg_waited n id driver r s | None => s end)
  | WaitCallback id driver, Bg n, WaitEnds e => Some (sg_waited n id driver (Err e) s)
  | Exchanging id exchange next, _, _ =>
      k ← exchange_settles (sg_now s) exchange reply; Some (go_to w (Settling id k next) s)
  | WaitCli id, Bg n, ClaudeSays r =>
      Some (go_to w (Settling id (keep_map Settle4 (settle_claude r)) (Marking id Ended)) s)
  | CopilotStart id, Bg n, DeviceCode (Ok (url, code)) =>
      Some (go_to w (Changing id (ShowCode url code) (CopilotWait id)) s)
  | CopilotStart id, Bg n, DeviceCode (Err e) =>
      Some (go_to w (Changing id (SettleFailed (show_error e)) Ended) s)
  | CopilotWait id, Bg n, CopilotSays r =>
      Some (go_to w (Settling id (keep_map Settle3 (settle_copilot r)) Ended) s)
  | IntoCli id, Api n, PasteTaken (Ok tt) => Some (go_to w (ReadStatus id (vanished id)) s)
  | IntoCli id, Api n, PasteTaken (Err e) =>
      Some (go_to w (Changing id (SettleFailed (show_error e)) (ReadStatus id (vanished id))) s)
  | IntoPlugin id session provider, Api n, PluginSaved r =>
      let next := Marking id (ReadStatus id (vanished_plugin id provider)) in
      Some (match r with
            | Ok saved =>
                go_to w (Changing id (Settle3 (STATE_DONE, plugin_user saved, "")) next)
                  (keep (KeptByPlugin id saved.1 saved.2) s)
            | Err e => go_to w (Changing id (Settle3 (STATE_FAILED, "", e)) next) s
            end)
  | PluginAsk id session deadline restarted, Bg n, PluginSaved r =>
      Some (match r with
            | Ok saved =>
                go_to w (Changing id (SettleDone (plugin_user saved)) (Marking id Ended))
                  (keep (KeptByPlugin id saved.1 saved.2) s)
            | Err e =>
                if deadline <=? sg_now s then
                  go_to w (Changing id (SettleFailed ("the sign-in did not complete in time (last: " +:+ e +:+ ")"))
                             (Marking id Ended)) s
                else go_to w (PluginPause id session deadline restarted (sg_now s + PLUGIN_SIGN_IN_RETRY)) s
            end)
  | PluginRestart id deadline restarted, Bg n, PluginAuthorized r =>
      Some (match r with
            | Ok session => go_to w (PluginAsk id session deadline restarted) s
            | Err e => go_to w (Changing id (SettleFailed e) (Marking id Ended)) s
            end)
  | _, _, _ => None
  end.

(** Where a future waits, and so can be dropped: a call when its client hangs
    up, a background task once it is aborted. The shutdown has no client. *)
Definition awaits (pc : Pc) : bool :=
  match pc with
  | Starting _ | IntoCli _ | IntoPlugin _ _ _ | JoinFinish _ _ _ _ | JoinCancel _
  | WaitCallback _ _ | WaitCli _ | CopilotStart _ | CopilotWait _
  | PluginAsk _ _ _ _ | PluginPause _ _ _ _ _ | PluginRestart _ _ _ | Exchanging _ _ _ => true
  | _ => false
  end.

(** The events. [Stores] is the return of [store_sign_in]: whether the
    credential was written, then whether the revoked marker was cleared. *)
Inductive SignEvent : Type :=
  | Arrives (n : nat)
  | Goes (w : Thread)
  | Starts (n : nat) (r : result string Started)
  | Answers (w : Thread) (reply : VendorReply)
  | Stores (w : Thread) (put clear : result string unit)
  | Drops (w : Thread)
  | Ticks (d : Z).

Definition sg_step (e : SignEvent) (s : Signs) : option Signs :=
  match e with
  | Arrives n => match sg_pc s (Api n) with Idle => Some (go_to (Api n) Begin s) | _ => None end
  | Goes w => sg_go w s
  | Starts n r => match sg_pc s (Api n) with Starting flow => sg_started n flow r s | _ => None end
  | Answers w reply => sg_answer w reply s
  | Stores w put clear =>
      match sg_pc s w with
      | Settling id (StoreSignIn account_id cred k) next =>
          Some (match put with
                | Ok tt => go_to w (Changing id (k clear) next) (keep (KeptCredential id account_id cred) s)
                | Err e => go_to w (Changing id (k (Err e)) next) s
                end)
      | _ => None
      end
  | Drops w =>
      if awaits (sg_pc s w) && match w with Api _ => true | Bg n => bool_decide (n ∈ sg_aborted s) end
      then Some (go_to w Ended s) else None
  | Ticks d => if 0 <=? d then Some (tick_to (sg_now s + d) s) else None
  end.

Fixpoint sg_run (es : list SignEvent) (s : Signs) : option Signs :=
  match es with
  | [] => Some s
  | e :: es => s ← sg_step e s; sg_run es s
  end.
End registry.
