(* ===== verification/SignInProps.v ===== *)
(** * What a sign-in task promises

    Whatever the calls, the background tasks, the vendors and the store do,
    and in whatever order: a task that says [done] has its credential kept
    and for the provider it was started for; a background task never outlives
    its registration unobserved; an identifier that has left the registry
    never comes back. *)
From Stdlib Require Import ZArith Lia.
From stdpp Require Import functions gmap.
From S2P Require Import Prelude.
From S2P Require Import RustStd.
From S2P Require Import Config.
From S2P Require Import SecretStore.
From S2P Require Import OAuth.
From S2P Require Import VendorSignIn.
From S2P Require Import SignIn.

Local Open Scope Z_scope.

Definition flow_provider (flow : Flow) : string :=
  match flow with
  | FlowGoogle _ provider => provider
  | FlowCodex => "codex"
  | FlowCopilot => "copilot"
  | FlowSiwc => SIWC_PROVIDER
  | FlowPlugin provider_id => "plugin:" +:+ provider_id
  | FlowClaude => "claude"
  end.

Definition task_state (t : SignInTask) : string := st_state t.

(** The state a change leaves a task in, when it settles it. *)
Definition change_state (c : Change) : option string :=
  match c with
  | Settle3 (state, _, _) | Settle4 (state, _, _, _) => Some state
  | SettleDone _ => Some STATE_DONE
  | SettleFailed _ => Some STATE_FAILED
  | ShowCode _ _ => None
  end.

Lemma apply_change_state c t : st_state (apply_change c t) = default (st_state t) (change_state c).
Proof. by destruct c as [[[]]|[[[]]]| | |]. Qed.

Lemma apply_change_provider c t : st_provider (apply_change c t) = st_provider t.
Proof. by destruct c as [[[]]|[[[]]]| | |]. Qed.

Lemma pc_go_eq w pc s : sg_pc (go_to w pc s) w = pc.
Proof. apply fn_lookup_insert. Qed.
Lemma pc_go_ne w w' pc s : w <> w' -> sg_pc (go_to w pc s) w' = sg_pc s w'.
Proof. apply fn_lookup_insert_ne. Qed.

Section props.
Context (uuid : nat -> string) (call : nat -> ApiCall) (has_hosts : bool) (epoch : Z).
Context `{Huuid : !Inj (=) (=) uuid}.

Abbreviation task_id := (task_id uuid).
Abbreviation step := (sg_step uuid call has_hosts epoch).
Abbreviation run := (sg_run uuid call has_hosts epoch).

Lemma task_id_inj n m : task_id n = task_id m -> n = m.
Proof using Huuid. unfold SignIn.task_id. intros H. apply (f_equal (strip_prefix "signin-")) in H.
  rewrite !strip_prefix_app in H. injection H as H. by apply Huuid. Qed.

(** The flow of the task that the n-th call starts. *)
Definition flow_of (n : nat) : option Flow :=
  match call n with
  | CallStart provider spec => match dispatch has_hosts provider spec with Ok flow => Some flow | Err _ => None end
  | _ => None
  end.

Definition runs (id : string) (flow : Flow) : Prop := exists n, id = task_id n /\ flow_of n = Some flow.

(** ** What each thread may be about to do *)

Definition right (k : Kept) : Prop :=
  match k with
  | KeptCredential id account_id cred =>
      exists flow account access refresh expires siwc,
        runs id flow /\ cred = CredOAuth (flow_provider flow) account access refresh expires siwc /\
        before_colon account_id = flow_provider flow
  | KeptByPlugin id _ _ => exists p, runs id (FlowPlugin p)
  end.

Definition kept_id (k : Kept) : string :=
  match k with KeptCredential id _ _ => id | KeptByPlugin id _ _ => id end.
Definition kept_for (id : string) (kept : list Kept) : Prop := Exists (fun k => kept_id k = id) kept.

Definition ends (state : string) : Prop := state = STATE_DONE \/ state = STATE_FAILED.

Definition change_ok (kept : list Kept) (id : string) (c : Change) : Prop :=
  match change_state c with
  | Some state => ends state /\ (state = STATE_DONE -> kept_for id kept)
  | None => True
  end.

(** Nothing of a flow is done before its credential is stored. *)
Definition keeping_ok (id : string) (k : Keeping Change) : Prop :=
  match k with
  | Now c => change_state c = Some STATE_FAILED
  | StoreSignIn account_id cred k =>
      right (KeptCredential id account_id cred) /\
      forall r, exists state, change_state (k r) = Some state /\ ends state /\ (state = STATE_DONE -> r = Ok tt)
  end.

Definition driver_fits (id : string) (driver : TaskDriver) : Prop :=
  match driver with
  | DriveGemini n _ provider => id = task_id n /\ exists app, flow_of n = Some (FlowGoogle app provider)
  | DriveCodex n _ => id = task_id n /\ flow_of n = Some FlowCodex
  | DriveSiwc _ => runs id FlowSiwc
  | DrivePlugin _ provider => runs id (FlowPlugin provider)
  | DriveClaude => runs id FlowClaude
  | DriveCopilot => runs id FlowCopilot \/ exists p, runs id (FlowPlugin p)
  end.

(** The flows that a paste finishes here. *)
Definition by_paste (driver : TaskDriver) : Prop :=
  match driver with DriveGemini _ _ _ | DriveCodex _ _ | DriveSiwc _ => True | _ => False end.

Definition exchange_fits (id : string) (exchange : Exchange) : Prop :=
  match exchange with
  | ExchangeGoogle provider _ => exists app, runs id (FlowGoogle app provider)
  | ExchangeCodex => runs id FlowCodex
  | ExchangeSiwc => runs id FlowSiwc
  end.

(** Only the user can finish the flow of a plugin's code. *)
Definition no_background (h : TaskHandle) : Prop :=
  match th_driver h with DrivePlugin _ _ => th_background h = None | _ => True end.

(** The task a call has taken the background task of, or that has none. *)
Fixpoint needs_quiet (pc : Pc) : option string :=
  match pc with
  | IntoPlugin id _ _ | JoinFinish id _ _ _ | Finishing id _ _ | Exchanging id _ _ | Settling id _ _ | Marking id _ =>
      Some id
  | Changing _ _ next => needs_quiet next
  | _ => None
  end.

Definition calm (id : string) (pc : Pc) : Prop :=
  pc <> Idle /\ (needs_quiet pc = None \/ needs_quiet pc = Some id).

(** A background task works on its own flow. *)
Definition own (w : Thread) (id : string) : Prop := match w with Api _ => True | Bg n => id = task_id n end.

Definition is_api (w : Thread) : Prop := match w with Api _ => True | Bg _ => False end.

(** A background task that marks its task finished ends with that. *)
Fixpoint pc_ok (kept : list Kept) (w : Thread) (pc : Pc) : Prop :=
  match pc with
  | WaitCallback id driver => own w id /\ driver_fits id driver
  | JoinFinish id _ driver _ | Finishing id _ driver => driver_fits id driver /\ by_paste driver /\ is_api w
  | WaitCli id => own w id /\ runs id FlowClaude
  | CopilotStart id | CopilotWait id => own w id /\ runs id FlowCopilot
  | PluginBegin id _ | PluginAsk id _ _ _ | PluginPause id _ _ _ _ | PluginRestart id _ _ =>
      own w id /\ exists p, runs id (FlowPlugin p)
  | IntoPlugin id _ _ => exists p, runs id (FlowPlugin p)
  | Exchanging id exchange next => own w id /\ exchange_fits id exchange /\ pc_ok kept w next /\ calm id next
  | Settling id k next => own w id /\ keeping_ok id k /\ pc_ok kept w next /\ calm id next
  | Changing id c next => own w id /\ change_ok kept id c /\ pc_ok kept w next /\ next <> Idle
  | Marking id next => own w id /\ pc_ok kept w next /\ calm id next /\ match w with Bg _ => next = Ended | Api _ => True end
  | Starting flow => match w with Api n => flow_of n = Some flow | Bg _ => False end
  | Inserting id handle =>
      match w with
      | Api n => id = task_id n /\ driver_fits id (th_driver handle) /\ st_state (th_task handle) = STATE_WAITING /\
          (exists flow, flow_of n = Some flow /\ st_provider (th_task handle) = flow_provider flow) /\
          th_finished_at handle = None /\ (th_background handle = None \/ th_background handle = Some n) /\
          no_background handle
      | Bg _ => False
      end
  | Begin | IntoCli _ | JoinCancel _ | Stopping _ | JoinStop _ _ | ReadStatus _ _ | Returned _ =>
      match w with Api _ => True | Bg _ => False end
  | Ended => True
  | Idle => True
  end.

Lemma kept_for_mono id kept ks : kept_for id kept -> kept_for id (kept ++ ks).
Proof. intros H. apply Exists_app. by left. Qed.

Lemma pc_ok_mono kept ks w pc : pc_ok kept w pc -> pc_ok (kept ++ ks) w pc.
Proof.
  induction pc; cbn; try tauto; intros H; destruct_and?; split_and!; auto.
  unfold change_ok in *. destruct (change_state c); [|done]. destruct_and!. split; [done|].
  intros. by apply kept_for_mono; auto.
Qed.

(** The call that started the task has returned. *)
Definition returned (s : Signs) (id : string) : Prop := exists n r, id = task_id n /\ sg_pc s (Api n) = Returned r.

Definition handle_ok (s : Signs) (id : string) (h : TaskHandle) : Prop :=
  exists n flow, id = task_id n /\ flow_of n = Some flow /\ driver_fits id (th_driver h) /\
    st_provider (th_task h) = flow_provider flow /\
    (st_state (th_task h) = STATE_WAITING \/ ends (st_state (th_task h))) /\
    (st_state (th_task h) = STATE_DONE -> kept_for id (sg_kept s)) /\
    (th_background h = None \/ th_background h = Some n) /\
    (th_finished_at h <> None -> th_background h = None \/ sg_pc s (Bg n) = Ended) /\
    no_background h.

(** No background task of the flow can still be told from the registry. *)
Definition quiet (s : Signs) (id : string) : Prop :=
  returned s id /\ forall h, sg_tasks s !! id = Some h -> th_background h = None.

Definition live (pc : Pc) : Prop := pc <> Idle /\ pc <> Ended.

(** Who would end a background task that is still running. *)
Definition stopping (pc : Pc) : list nat :=
  match pc with Stopping rest | JoinStop _ rest => rest | _ => [] end.
Definition owned (s : Signs) (n : nat) : Prop :=
  n ∈ sg_aborted s \/
  (exists h, sg_pc s (Api n) = Inserting (task_id n) h /\ th_background h = Some n) \/
  (exists h, sg_tasks s !! task_id n = Some h /\ th_background h = Some n) \/
  (exists w, n ∈ stopping (sg_pc s (Api w))).

Record sg_inv (s : Signs) : Prop := {
  inv_pc w : pc_ok (sg_kept s) w (sg_pc s w);
  inv_kept : Forall right (sg_kept s);
  inv_tasks id h : sg_tasks s !! id = Some h -> handle_ok s id h /\ returned s id;
  inv_quiet n id : needs_quiet (sg_pc s (Api n)) = Some id -> quiet s id;
  inv_spawned n : sg_pc s (Bg n) <> Idle -> (exists h, sg_pc s (Api n) = Inserting (task_id n) h) \/ returned s (task_id n);
  inv_owned n : live (sg_pc s (Bg n)) -> owned s n
}.

Lemma sg_inv0 now : sg_inv (signs0 now).
Proof.
  split; cbn; try done. by intros n [? _].
Qed.

(** ** The moves

    A step is one of these changes of the state. *)

(** What a thread may go on to without touching the registry. *)
Record goes_to (s : Signs) (w : Thread) (pc : Pc) (ks : list Kept) : Prop := {
  gt_from : match sg_pc s w with
            | Inserting _ _ | Returned _ | Ended => False
            | Idle => match w with Api _ => True | Bg _ => False end
            | _ => True
            end;
  gt_ok : pc_ok (sg_kept s ++ ks) w pc;
  gt_kept : Forall right ks;
  gt_quiet id : needs_quiet pc = Some id -> match w with Bg _ => True | Api _ => needs_quiet (sg_pc s w) = Some id end;
  gt_into : match pc with Inserting _ _ | Idle => False | _ => True end;
  gt_stop : forall n, n ∈ stopping (sg_pc s w) -> n ∈ sg_aborted s \/ n ∈ stopping pc
}.

Definition with_extra (f : gset nat -> gset nat) (ks : list Kept) (s : Signs) : Signs :=
  {| sg_tasks := sg_tasks s; sg_pc := sg_pc s; sg_sessions := f (sg_sessions s);
     sg_aborted := sg_aborted s; sg_now := sg_now s; sg_kept := sg_kept s ++ ks |}.

Definition aborting (b : option nat) (s : Signs) : Signs :=
  match b with Some b => abort b s | None => s end.

Inductive sg_move (s : Signs) : Signs -> Prop :=
  | MvThread w pc f ks : goes_to s w pc ks -> sg_move s (go_to w pc (with_extra f ks s))
  | MvTick now : sg_move s (tick_to now s)
  | MvStart n flow handle f :
      sg_pc s (Api n) = Starting flow -> th_background handle = None ->
      pc_ok (sg_kept s) (Api n) (Inserting (task_id n) handle) ->
      sg_move s (go_to (Api n) (Inserting (task_id n) handle) (with_extra f [] s))
  | MvSpawn n flow handle f pc :
      sg_pc s (Api n) = Starting flow -> th_background handle = Some n -> live pc ->
      pc_ok (sg_kept s) (Api n) (Inserting (task_id n) handle) -> pc_ok (sg_kept s) (Bg n) pc ->
      sg_move s (go_to (Api n) (Inserting (task_id n) handle) (go_to (Bg n) pc (with_extra f [] s)))
  | MvPrune n r :
      sg_pc s (Api n) = Begin \/ (exists id why, sg_pc s (Api n) = ReadStatus id why) ->
      sg_move s (go_to (Api n) (Returned r) (on_tasks (prune (sg_now s)) s))
  | MvInsert n id h r :
      sg_pc s (Api n) = Inserting id h ->
      sg_move s (go_to (Api n) (Returned r) (on_tasks (fun m => <[id := h]> (prune (sg_now s) m)) s))
  | MvUpdate w id c next :
      sg_pc s w = Changing id c next ->
      sg_move s (go_to w next (on_tasks (update_task id c) s))
  | MvMark w id next :
      sg_pc s w = Marking id next ->
      sg_move s (go_to w next (on_tasks (mark_finished (sg_now s) id) s))
  | MvTake n id input h :
      sg_pc s (Api n) = Begin -> sg_tasks s !! id = Some h ->
      by_paste (th_driver h) ->
      sg_move s
        (go_to (Api n)
           (match th_background h with
            | Some b => JoinFinish id input (th_driver h) b
            | None => Finishing id input (th_driver h)
            end)
           (aborting (th_background h) (on_tasks <[id := with_background None h]> s)))
  | MvPlugin n id session provider h :
      sg_pc s (Api n) = Begin -> sg_tasks s !! id = Some h -> th_driver h = DrivePlugin session provider ->
      sg_move s (go_to (Api n) (IntoPlugin id session provider) s)
  | MvCancel n id h :
      sg_pc s (Api n) = Begin -> sg_tasks s !! id = Some h ->
      sg_move s
        (go_to (Api n)
           (match th_background h with Some b => JoinCancel b | None => Returned (ReturnExisted true) end)
           (aborting (th_background h) (on_tasks (delete id) s)))
  | MvStop n :
      sg_pc s (Api n) = Begin ->
      sg_move s (go_to (Api n) (Stopping (omap (fun entry => th_background entry.2) (map_to_list (sg_tasks s))))
                   (on_tasks (fun _ => ∅) s))
  | MvAbort n b rest :
      sg_pc s (Api n) = Stopping (b :: rest) ->
      sg_move s (go_to (Api n) (JoinStop b rest) (abort b s)).

Lemma extra_id s : with_extra (fun m => m) [] s = s.
Proof. destruct s. unfold with_extra. cbn. by rewrite app_nil_r. Qed.
Lemma sessions_extra f s : on_sessions f s = with_extra f [] s.
Proof. destruct s. unfold with_extra, on_sessions. cbn. by rewrite app_nil_r. Qed.
Lemma keep_extra k s : keep k s = with_extra (fun m => m) [k] s.
Proof. by destruct s. Qed.

Lemma mv_local s w pc : goes_to s w pc [] -> sg_move s (go_to w pc s).
Proof. intros H. rewrite <-(extra_id s) at 2. by apply MvThread. Qed.

(** ** What the flows keep *)

Lemma flow_google n app provider :
  flow_of n = Some (FlowGoogle app provider) -> provider = "gemini" \/ provider = "antigravity".
Proof.
  unfold flow_of, dispatch. destruct (call n); try done. cbv zeta.
  repeat case_decide; repeat case_match; intros; simplify_eq; auto.
Qed.

Lemma keep_map_ok {A} (g : A -> Change) id m :
  keeping_ok id (keep_map g m) <->
  match m with
  | Now a => change_state (g a) = Some STATE_FAILED
  | StoreSignIn account_id cred k =>
      right (KeptCredential id account_id cred) /\
      forall r, exists state, change_state (g (k r)) = Some state /\ ends state /\ (state = STATE_DONE -> r = Ok tt)
  end.
Proof. by destruct m. Qed.

Ltac settle_ok :=
  apply keep_map_ok; cbn;
  split; [| intros [[]|e]; (eexists; split_and!; [reflexivity| |]); [by left|done|by right|done]].

Lemma google_ok now id app provider r g :
  runs id (FlowGoogle app provider) ->
  (forall v, change_state (g v) = Some v.1.1) ->
  keeping_ok id (keep_map g (settle_google epoch now r provider)).
Proof.
  intros Hr Hg. apply keep_map_ok. destruct r as [account|e]; cbn; [|by rewrite Hg].
  split.
  - exists (FlowGoogle app provider). cbn. do 5 eexists. split_and!; [done|reflexivity|].
    destruct Hr as (n & _ & Hf). by destruct (flow_google _ _ _ Hf) as [-> | ->].
  - intros [[]|e]; rewrite Hg; (eexists; split_and!; [reflexivity| |]); [by left|done|by right|done].
Qed.

Lemma codex_ok id r : runs id FlowCodex -> keeping_ok id (keep_map Settle4 (settle_codex r)).
Proof. intros Hr. destruct r as [account|e]; [|done]. settle_ok. exists FlowCodex. by do 5 eexists. Qed.

Lemma siwc_ok id r : runs id FlowSiwc -> keeping_ok id (keep_map Settle4 (settle_siwc r)).
Proof. intros Hr. destruct r as [account|e]; [|done]. settle_ok. exists FlowSiwc. by do 5 eexists. Qed.

Lemma copilot_ok id r : runs id FlowCopilot -> keeping_ok id (keep_map Settle3 (settle_copilot r)).
Proof. intros Hr. destruct r as [account|e]; [|done]. settle_ok. exists FlowCopilot. by do 5 eexists. Qed.

Lemma claude_ok id r : runs id FlowClaude -> keeping_ok id (keep_map Settle4 (settle_claude r)).
Proof. intros Hr. destruct r as [account|e]; [|done]. settle_ok. exists FlowClaude. by do 5 eexists. Qed.

Lemma exchange_ok now id exchange reply k :
  exchange_fits id exchange -> exchange_settles epoch now exchange reply = Some k -> keeping_ok id k.
Proof.
  destruct exchange as [provider pasted| |], reply; try done; cbn.
  - intros [app Hr] [= <-]. destruct pasted.
    + apply (google_ok now id app); [done|]. by intros [[]].
    + apply (google_ok now id app); [done|]. by intros [[]].
  - intros Hr [= <-]. by apply codex_ok.
  - intros Hr [= <-]. by apply siwc_ok.
Qed.

(** ** Every step is a move *)

Ltac local_move H := apply mv_local; split; cbn; rewrite ?H, ?app_nil_r; cbn; try done;
  try (by intros ? ?%elem_of_nil).

Lemma started_move n flow r s s' :
  sg_inv s -> sg_pc s (Api n) = Starting flow -> sg_started uuid n flow r s = Some s' -> sg_move s s'.
Proof.
  intros Hinv Hpc. pose proof (inv_pc s Hinv (Api n)) as Hok. rewrite Hpc in Hok. cbn in Hok.
  unfold sg_started. destruct r as [started|e].
  - destruct (start_flow n _ flow started) as [[[[task driver] bg] session]|] eqn:Hs; [|done].
    intros [= <-].
    assert (exists f, (if session then on_sessions (union {[n]}) s else s) = with_extra f [] s) as [f ->].
    { destruct session; eexists; [apply sessions_extra|symmetry; apply extra_id]. }
    assert (pc_ok (sg_kept s) (Api n) (Inserting (task_id n)
              {| th_task := task; th_background := if is_some bg then Some n else None;
                 th_driver := driver; th_finished_at := None |})) as Hh.
    { destruct flow, started; try done; cbn in Hs; simplify_eq; cbn; split_and!; try done; eauto;
        repeat case_bool_decide; repeat case_match; cbn; unfold runs; try done; eauto 10. }
    destruct bg as [pc|].
    + eapply MvSpawn; [done|done| |done|].
      * destruct flow, started; try done; cbn in Hs; repeat case_match; simplify_eq; by split.
      * destruct flow, started; try done; cbn in Hs; repeat case_match; simplify_eq; cbn; unfold runs; eauto.
    + by eapply MvStart.
  - intros [= <-]. local_move Hpc.
Qed.

Ltac is_calm := split; [done|first [by left | by right]].

Lemma submit_move n id input s :
  sg_inv s -> sg_pc s (Api n) = Begin -> sg_move s (sg_submit n id input s).
Proof.
  intros Hinv Hpc. unfold sg_submit. destruct (sg_tasks s !! id) as [h|] eqn:Hh; [|local_move Hpc].
  case_decide; [local_move Hpc|]. destruct (th_driver h) eqn:Hd.
  1-3: pose proof (MvTake s n id input h Hpc Hh) as Hm; rewrite Hd in Hm; specialize (Hm I);
    by destruct (th_background h).
  - by apply (MvPlugin s n id session provider h).
  - local_move Hpc.
  - local_move Hpc.
Qed.

(** The thread goes on to its exchange, or reports that there is none. *)
Lemma session_move w flow id exchange fail next s :
  sg_inv s ->
  match sg_pc s w with WaitCallback _ _ => True | Finishing _ _ _ => True | _ => False end ->
  match w with Bg _ => True | Api _ => needs_quiet (sg_pc s w) = Some id end ->
  own w id -> exchange_fits id exchange -> pc_ok (sg_kept s) w next ->
  change_state (fail NotStarted) = Some STATE_FAILED -> calm id next ->
  sg_move s (take_session w flow id exchange fail next s).
Proof.
  intros Hinv Hpc Hq Hown Hx Hnext Hfail Hn. unfold take_session. case_decide.
  - rewrite sessions_extra. apply MvThread. split; cbn; rewrite ?app_nil_r; try done.
    + by (destruct (sg_pc s w); try done; intros ? ?%elem_of_nil).
    + by intros ? [= <-].
    + by (destruct (sg_pc s w); try done; intros ? ?%elem_of_nil).
  - apply mv_local. split; cbn; rewrite ?app_nil_r; try done.
    + by (destruct (sg_pc s w); try done; intros ? ?%elem_of_nil).
    + split_and!; [done| |done|by destruct Hn]. unfold change_ok. rewrite Hfail. split; [by right|done].
    + intros id' Hid. destruct Hn as [_ [Hn|Hn]]; [congruence|]. rewrite Hn in Hid. by injection Hid as <-.
    + by (destruct (sg_pc s w); try done; intros ? ?%elem_of_nil).
Qed.

Lemma finish_move n id input driver s :
  sg_inv s -> sg_pc s (Api n) = Finishing id input driver -> sg_move s (sg_finish n id input driver s).
Proof.
  intros Hinv Hpc. pose proof (inv_pc s Hinv (Api n)) as Hok. rewrite Hpc in Hok. cbn in Hok. destruct Hok as (Hok & Hby & _).
  assert (forall e, sg_move s (go_to (Api n) (Changing id (paste_change e) (ReadStatus id (vanished id))) s)) as Hfail.
  { intros e. local_move Hpc. split_and!; try done. by right. }
  unfold sg_finish. cbv zeta. destruct driver; try done; (destruct (pasted_code _ _ _); [|apply Hfail]).
  - apply session_move; rewrite ?Hpc; try done; [|is_calm]. destruct Hok as (-> & app & Hf). exists app. by eexists.
  - apply session_move; rewrite ?Hpc; try done; [|is_calm]. destruct Hok as (-> & Hf). by eexists.
  - case_match; [apply Hfail|]. local_move Hpc. split_and!; try done; is_calm.
Qed.

(** A settled flow goes on to its change. *)
Lemma settled_move w id k next c ks s :
  sg_inv s -> sg_pc s w = Settling id k next -> change_ok (sg_kept s ++ ks) id c -> Forall right ks ->
  sg_move s (go_to w (Changing id c next) (with_extra (fun m => m) ks s)).
Proof.
  intros Hinv Hpc Hc Hks. pose proof (inv_pc s Hinv w) as Hok. rewrite Hpc in Hok. cbn in Hok.
  destruct Hok as (Ho & Hk & Hn & Hcalm). apply MvThread. split; cbn; rewrite ?Hpc; cbn; try done.
  - destruct Hcalm. split_and!; [done|done|by apply pc_ok_mono|done].
  - intros id' Hid. destruct w; [|done]. destruct Hcalm as [_ [?|?]]; congruence.
  - by intros ? ?%elem_of_nil.
Qed.

Lemma settled_now w id c next s :
  sg_inv s -> sg_pc s w = Settling id (Now c) next -> sg_move s (go_to w (Changing id c next) s).
Proof.
  intros Hinv Hpc. pose proof (inv_pc s Hinv w) as Hok. rewrite Hpc in Hok. destruct Hok as (_ & Hk & _).
  rewrite <-(extra_id s) at 2. eapply settled_move; [done|done| |done].
  unfold change_ok. rewrite Hk. split; [by right|done].
Qed.

Lemma go_move w s s' : sg_inv s -> sg_go call has_hosts w s = Some s' -> sg_move s s'.
Proof.
  intros Hinv. pose proof (inv_pc s Hinv w) as Hok. unfold sg_go.
  destruct (sg_pc s w) eqn:Hpc, w as [n|n]; try done; cbn in Hok.
  - intros [= <-]. destruct (call n) eqn:Hc.
    + destruct (dispatch _ _ _) eqn:Hd; local_move Hpc. unfold flow_of. by rewrite Hc, Hd.
    + apply MvPrune. by left.
    + by apply submit_move.
    + destruct (sg_tasks s !! id) as [h|] eqn:Hh; [|local_move Hpc]. pose proof (MvCancel s n id h Hpc Hh). by destruct (th_background h).
    + by apply MvStop.
  - intros [= <-]. by apply MvInsert.
  - case_match; try done. intros [= <-]. local_move Hpc.
  - intros [= <-]. by eapply finish_move.
  - case_match; try done. intros [= <-]. local_move Hpc.
  - destruct rest as [|b rest]; intros [= <-]; [local_move Hpc|by apply MvAbort].
  - case_match; try done. intros [= <-]. local_move Hpc. auto.
  - intros [= <-]. apply MvPrune. right. eauto.
  - intros [= <-]. local_move Hpc.
  - case_match; [done|]. case_match; intros [= <-]; local_move Hpc.
  - destruct k; [|done]. intros [= <-]. by eapply settled_now.
  - destruct k; [|done]. intros [= <-]. by eapply settled_now.
  - by intros [= <-]; apply MvUpdate.
  - by intros [= <-]; apply MvUpdate.
  - by intros [= <-]; apply MvMark.
  - by intros [= <-]; apply MvMark.
Qed.

Lemma stay_move s : sg_move s s.
Proof. replace s with (tick_to (sg_now s) s) at 2 by (by destruct s). apply MvTick. Qed.

Lemma mark_ok kept w id next :
  own w id -> (next = Ended \/ exists why n, next = ReadStatus id why /\ w = Api n) -> pc_ok kept w (Marking id next).
Proof. intros Ho [-> |(why & n & -> & ->)]; cbn; split_and!; try done; try is_calm; by destruct w. Qed.

Ltac mark_next := apply mark_ok; [done|first [by left | right; by eexists _, _]].

Lemma waited_move n id driver r s :
  sg_inv s -> sg_pc s (Bg n) = WaitCallback id driver -> sg_move s (sg_waited n id driver r s).
Proof.
  intros Hinv Hpc. pose proof (inv_pc s Hinv (Bg n)) as Hok. rewrite Hpc in Hok. cbn in Hok.
  destruct Hok as [Ho Hd].
  assert (forall c, change_state c = Some STATE_FAILED ->
            sg_move s (go_to (Bg n) (Changing id c (Marking id Ended)) s)) as Hfail.
  { intros c Hc. local_move Hpc. unfold change_ok. rewrite Hc. split_and!; try done; [by right|is_calm]. }
  unfold sg_waited. cbv zeta. destruct driver; try apply stay_move;
    (destruct r as [[]|e]; [|by apply Hfail]).
  - apply session_move; rewrite ?Hpc; try done; [|mark_next|is_calm]. destruct Hd as (-> & app & Hf). by exists app, flow.
  - apply session_move; rewrite ?Hpc; try done; [|mark_next|is_calm]. destruct Hd as (-> & Hf). by exists flow.
Qed.

(** A reply that settles the task at once. *)
Lemma changing_move w id c next ks s :
  sg_inv s ->
  match sg_pc s w with
  | IntoCli _ | IntoPlugin _ _ _ | CopilotStart _ | PluginAsk _ _ _ _ | PluginRestart _ _ _ => True
  | _ => False
  end ->
  own w id -> change_ok (sg_kept s ++ ks) id c -> pc_ok (sg_kept s) w next -> next <> Idle -> Forall right ks ->
  needs_quiet next = None \/ needs_quiet next = needs_quiet (sg_pc s w) \/ (exists n, w = Bg n) ->
  sg_move s (go_to w (Changing id c next) (with_extra (fun m => m) ks s)).
Proof.
  intros Hinv Hpc Ho Hc Hn Hni Hks Hq. apply MvThread. split; cbn; try done.
  - by destruct (sg_pc s w).
  - split_and!; [done|done|by apply pc_ok_mono|done].
  - intros id' Hid. destruct w as [n|n]; [|done]. destruct Hq as [Hq|[Hq|[m Hm]]]; congruence.
  - by (destruct (sg_pc s w); try done; intros ? ?%elem_of_nil).
Qed.

Lemma failing kept id c : change_state c = Some STATE_FAILED -> change_ok kept id c.
Proof. unfold change_ok. intros ->. split; [by right|done]. Qed.

Lemma kept_now k kept c :
  change_state c = Some STATE_DONE -> change_ok (kept ++ [k]) (kept_id k) c.
Proof. unfold change_ok. intros ->. split; [by left|]. intros _. apply Exists_app. right. by constructor. Qed.

Lemma failing_move w id c next s :
  sg_inv s ->
  match sg_pc s w with
  | IntoCli _ | IntoPlugin _ _ _ | CopilotStart _ | PluginAsk _ _ _ _ | PluginRestart _ _ _ => True
  | _ => False
  end ->
  own w id -> change_state c = Some STATE_FAILED -> pc_ok (sg_kept s) w next -> next <> Idle ->
  needs_quiet next = None \/ needs_quiet next = needs_quiet (sg_pc s w) \/ (exists n, w = Bg n) ->
  sg_move s (go_to w (Changing id c next) s).
Proof.
  intros Hinv Hpc Ho Hc Hn Hni Hq. rewrite <-(extra_id s) at 2.
  apply changing_move; try done. by apply failing.
Qed.

(** A reply that begins to settle the task. *)
Lemma settling_move w id k next s :
  sg_inv s ->
  match sg_pc s w with WaitCli _ | CopilotWait _ | Exchanging _ _ _ => True | _ => False end ->
  own w id -> keeping_ok id k -> pc_ok (sg_kept s) w next -> calm id next ->
  (exists n, w = Bg n) \/ needs_quiet (sg_pc s w) = Some id ->
  sg_move s (go_to w (Settling id k next) s).
Proof.
  intros Hinv Hpc Ho Hk Hn Hcalm Hq. apply mv_local. split; cbn; rewrite ?app_nil_r; try done.
  - by destruct (sg_pc s w).
  - intros id' [= <-]. by destruct w, Hq as [[? ?]|?].
  - by (destruct (sg_pc s w); try done; intros ? ?%elem_of_nil).
Qed.

Lemma exchanged_move w id exchange next reply s s' :
  sg_inv s -> sg_pc s w = Exchanging id exchange next ->
  (k ← exchange_settles epoch (sg_now s) exchange reply; Some (go_to w (Settling id k next) s)) = Some s' ->
  sg_move s s'.
Proof.
  intros Hinv Hpc. pose proof (inv_pc s Hinv w) as Hok. rewrite Hpc in Hok.
  destruct Hok as (Ho & Hx & Hn & Hcalm). destruct (exchange_settles _ _ _ _) as [k|] eqn:Hk; [|done].
  intros [= <-]. apply settling_move; rewrite ?Hpc; try done; [by eapply exchange_ok|].
  destruct w; [by right|eauto].
Qed.

Lemma answer_move w reply s s' : sg_inv s -> sg_answer epoch w reply s = Some s' -> sg_move s s'.
Proof.
  intros Hinv. pose proof (inv_pc s Hinv w) as Hok. unfold sg_answer.
  destruct (sg_pc s w) eqn:Hpc, w as [n|n]; try done; cbn in Hok;
    try (by eapply exchanged_move); try (destruct reply; try done).
  - destruct r as [[]|e]; intros [= <-]; [local_move Hpc|].
    apply failing_move; rewrite ?Hpc; try done; try mark_next. by left.
  - destruct r as [saved|e]; intros [= <-].
    + rewrite keep_extra. apply changing_move; rewrite ?Hpc; try done; try mark_next.
      * by apply (kept_now (KeptByPlugin id saved.1 saved.2)).
      * repeat constructor; done.
      * right. by left.
    + apply failing_move; rewrite ?Hpc; try done; try mark_next. right. by left.
  - intros [= <-]. case_match; [by apply waited_move|apply stay_move].
  - intros [= <-]. by apply waited_move.
  - intros [= <-]. destruct Hok. apply settling_move; rewrite ?Hpc; try done; try mark_next; [by apply claude_ok|is_calm|eauto].
  - destruct Hok. destruct r as [[url code]|e]; intros [= <-].
    + rewrite <-(extra_id s) at 2. apply changing_move; rewrite ?Hpc; try done; try mark_next. eauto.
    + apply failing_move; rewrite ?Hpc; try done; try mark_next. eauto.
  - intros [= <-]. destruct Hok. apply settling_move; rewrite ?Hpc; try done; try mark_next; [by apply copilot_ok|is_calm|eauto].
  - destruct Hok as [Ho Hp]. destruct r as [saved|e]; [|case_match]; intros [= <-].
    + rewrite keep_extra. apply changing_move; rewrite ?Hpc; try done; try mark_next; [|by repeat constructor|eauto].
      by apply (kept_now (KeptByPlugin id saved.1 saved.2)).
    + apply failing_move; rewrite ?Hpc; try done; try mark_next. eauto.
    + local_move Hpc.
  - destruct Hok as [Ho Hp]. destruct r as [session|e]; intros [= <-]; [local_move Hpc|].
    apply failing_move; rewrite ?Hpc; try done; try mark_next. eauto.
Qed.

Lemma step_move e s s' : sg_inv s -> step e s = Some s' -> sg_move s s'.
Proof.
  intros Hinv. destruct e as [n|w|n r|w reply|w put clear|w|d]; cbn [sg_step].
  - destruct (sg_pc s (Api n)) eqn:Hpc; try done. intros [= <-]. local_move Hpc.
  - by apply go_move.
  - destruct (sg_pc s (Api n)) eqn:Hpc; try done. by apply started_move.
  - by apply answer_move.
  - destruct (sg_pc s w) eqn:Hpc; try done. destruct k as [c|account_id cred k]; [done|]. intros [= <-].
    pose proof (inv_pc s Hinv w) as Hok. rewrite Hpc in Hok. destruct Hok as (_ & [Hr Hk] & _).
    destruct put as [[]|e].
    + rewrite keep_extra. eapply settled_move; [done|done| |by repeat constructor].
      destruct (Hk clear) as (state & Hc & He & Hd). unfold change_ok. rewrite Hc. split; [done|].
      intros _. apply Exists_app. right. by constructor.
    + rewrite <-(extra_id s) at 2. eapply settled_move; [done|done| |done].
      destruct (Hk (Err e)) as (state & Hc & He & Hd). unfold change_ok. rewrite Hc. split; [done|].
      intros Hs. by specialize (Hd Hs).
  - destruct (awaits _ && _) eqn:Ha; [|done]. intros [= <-]. apply andb_true_iff in Ha as [Ha _].
    apply mv_local. split; cbn; try done; [by destruct (sg_pc s w)|].
    by (destruct (sg_pc s w); try done; intros ? ?%elem_of_nil).
  - case_match; [|done]. intros [= <-]. apply MvTick.
Qed.

(** ** What a move leaves as it was *)

Lemma pc_abort b s w : sg_pc (aborting b s) w = sg_pc s w.
Proof. by destruct b. Qed.
Lemma tasks_abort b s : sg_tasks (aborting b s) = sg_tasks s.
Proof. by destruct b. Qed.
Lemma kept_abort b s : sg_kept (aborting b s) = sg_kept s.
Proof. by destruct b. Qed.

(** The cases of a thread of the state after a move. *)
Ltac thread w' :=
  match goal with
  | |- context [sg_pc (go_to ?w ?pc ?s) w'] =>
      destruct (decide (w = w')) as [?|?]; [simplify_eq; rewrite pc_go_eq|rewrite (pc_go_ne w w' pc s) by done]
  end.

Lemma ended_stays s s' w : sg_inv s -> sg_move s s' -> sg_pc s w = Ended -> sg_pc s' w = Ended.
Proof using Type*.
  intros Hinv Hm Hw. destruct Hm; rewrite ?pc_abort; try done; thread w; rewrite ?pc_abort; try done; try congruence.
  - pose proof (gt_from _ _ _ _ H) as Hf. by rewrite Hw in Hf.
  - thread w; [|done]. destruct (inv_spawned s Hinv n) as [[h Hh]|(m & r & Hm & Hr)]; [congruence|congruence|].
    apply task_id_inj in Hm as ->. congruence.
  - destruct H as [H|(id & why & H)]; congruence.
Qed.

Lemma returned_stays s s' id : sg_move s s' -> returned s id -> returned s' id.
Proof.
  intros Hm (n & r & -> & Hr). exists n, r. split; [done|]. destruct Hm; rewrite ?pc_abort; try done; thread (Api n);
    rewrite ?pc_abort; try done; try congruence.
  - pose proof (gt_from _ _ _ _ H) as Hf. by rewrite Hr in Hf.
  - destruct H as [H|(id & why & H)]; congruence.
Qed.

Lemma kept_grows s s' : sg_move s s' -> exists ks, sg_kept s' = sg_kept s ++ ks /\ Forall right ks.
Proof.
  intros Hm. destruct Hm; cbn; rewrite ?kept_abort; cbn; try (exists []; by rewrite ?app_nil_r).
  exists ks. by destruct H.
Qed.

Lemma update_lookup id c tasks id' h' :
  update_task id c tasks !! id' = Some h' ->
  tasks !! id' = Some h' \/
  exists h, id' = id /\ tasks !! id = Some h /\ h' = with_task (apply_change c (th_task h)) h.
Proof.
  unfold update_task. destruct (tasks !! id) as [h|] eqn:Hh; [|auto].
  destruct (decide (id' = id)) as [->|]; [rewrite lookup_insert_eq|rewrite lookup_insert_ne by done; auto].
  intros [= <-]. eauto.
Qed.

Lemma mark_lookup now id tasks id' h' :
  mark_finished now id tasks !! id' = Some h' ->
  tasks !! id' = Some h' \/
  exists h, id' = id /\ tasks !! id = Some h /\ h' = with_finished (Some now) h.
Proof.
  unfold mark_finished. destruct (tasks !! id) as [h|] eqn:Hh; [|auto].
  destruct (decide (id' = id)) as [->|]; [rewrite lookup_insert_eq|rewrite lookup_insert_ne by done; auto].
  intros [= <-]. eauto.
Qed.

Lemma prune_lookup now tasks id h : prune now tasks !! id = Some h <-> tasks !! id = Some h /\ still_read now h = true.
Proof. unfold prune. by rewrite map_lookup_filter_Some. Qed.

(** Where a registered task comes from. *)
Lemma tasks_from s s' id h' :
  sg_move s s' -> sg_tasks s' !! id = Some h' ->
  (exists h, sg_tasks s !! id = Some h /\ th_driver h' = th_driver h /\
     (th_background h' = th_background h \/ th_background h' = None)) \/
  (exists n r, sg_pc s (Api n) = Inserting id h' /\ sg_pc s' (Api n) = Returned r).
Proof.
  intros Hm. destruct Hm; cbn; rewrite ?tasks_abort; cbn; eauto 8.
  - intros [Ht _]%prune_lookup. eauto 8.
  - destruct (decide (id = id0)) as [->|]; [rewrite lookup_insert_eq|rewrite lookup_insert_ne by done].
    + intros [= ->]. right. exists n, r. split; [done|]. apply fn_lookup_insert.
    + intros [Ht _]%prune_lookup. eauto 8.
  - intros [Ht|(h & -> & Hh & ->)]%update_lookup; eauto 8.
  - intros [Ht|(h & -> & Hh & ->)]%mark_lookup; eauto 8.
  - destruct (decide (id = id0)) as [->|]; [rewrite lookup_insert_eq|rewrite lookup_insert_ne by done; eauto 8].
    intros [= <-]. eauto 8.
  - intros [Hne Ht]%lookup_delete_Some. eauto 8.
  - by rewrite lookup_empty.
Qed.

Lemma inserting_fresh s n h : sg_inv s -> sg_pc s (Api n) = Inserting (task_id n) h -> ~ returned s (task_id n).
Proof using Type*. intros Hinv Hpc (m & r & Hm%task_id_inj & Hr). subst m. congruence. Qed.

Lemma inserting_id s n id h : sg_inv s -> sg_pc s (Api n) = Inserting id h -> id = task_id n.
Proof. intros Hinv Hpc. pose proof (inv_pc s Hinv (Api n)) as Hok. rewrite Hpc in Hok. by destruct Hok. Qed.

(** An identifier that has left the registry does not come back. *)
Lemma gone_stays s s' id :
  sg_inv s -> sg_move s s' -> returned s id -> sg_tasks s !! id = None -> sg_tasks s' !! id = None.
Proof using Type*.
  intros Hinv Hm Hr Hn. destruct (sg_tasks s' !! id) as [h'|] eqn:Hh; [|done].
  destruct (tasks_from _ _ _ _ Hm Hh) as [(h & Hh' & _)|(n & r & Hi & _)]; [congruence|].
  pose proof (inserting_id _ _ _ _ Hinv Hi) as ->. by destruct (inserting_fresh _ _ _ Hinv Hi).
Qed.

(** ** The invariant is kept *)

Lemma move_pc s s' w : sg_inv s -> sg_move s s' -> pc_ok (sg_kept s') w (sg_pc s' w).
Proof using Type*.
  intros Hinv Hm. pose proof (inv_pc s Hinv w) as Hok. destruct (kept_grows _ _ Hm) as (ks & Hks & _).
  rewrite Hks. destruct Hm; rewrite ?pc_abort; try (thread w; [|rewrite ?pc_abort; by apply pc_ok_mono]); rewrite ?H in Hok.
  - pose proof (gt_ok _ _ _ _ H) as Hg. cbn in Hks. by apply app_inv_head in Hks as <-.
  - by apply pc_ok_mono.
  - by apply pc_ok_mono.
  - thread w; [by apply pc_ok_mono|]. thread w; by apply (pc_ok_mono (sg_kept s)).
  - done.
  - done.
  - destruct Hok as (_ & _ & Hok & _). by apply pc_ok_mono.
  - destruct Hok as (_ & Hok & _). by apply pc_ok_mono.
  - destruct (inv_tasks s Hinv _ _ H0) as [(m & flow & _ & _ & Hd & _) _]. by destruct (th_background h).
  - destruct (inv_tasks s Hinv _ _ H0) as [(m & flow & _ & _ & Hd & _) _]. rewrite H1 in Hd. by exists provider.
  - by destruct (th_background h).
  - done.
  - done.
Qed.

Lemma handle_frame s s' id h :
  sg_inv s -> sg_move s s' -> handle_ok s id h -> handle_ok s' id h.
Proof using Type*.
  intros Hinv Hm (n & flow & Hid & Hf & Hd & Hp & Hst & Hdone & Hb & Hfin & Hnb).
  destruct (kept_grows _ _ Hm) as (ks & Hks & _).
  exists n, flow. split_and!; try done.
  - intros Hs. rewrite Hks. by apply kept_for_mono, Hdone.
  - intros Hn. destruct (Hfin Hn) as [?|He]; [by left|right]. by eapply ended_stays.
Qed.

Lemma handle_changed s id c h :
  handle_ok s id h -> change_ok (sg_kept s) id c -> handle_ok s id (with_task (apply_change c (th_task h)) h).
Proof.
  intros (n & flow & Hid & Hf & Hd & Hp & Hst & Hdone & Hb & Hfin & Hnb) Hc.
  exists n, flow. cbn. rewrite apply_change_state, apply_change_provider. unfold change_ok in Hc.
  destruct (change_state c) as [state|]; [|by split_and!]. cbn. destruct Hc as [He Hk]. split_and!; auto.
Qed.

Lemma handle_taken s id h : handle_ok s id h -> handle_ok s id (with_background None h).
Proof.
  intros (n & flow & Hid & Hf & Hd & Hp & Hst & Hdone & Hb & Hfin & Hnb).
  exists n, flow. split_and!; try done; [by left|by left|]. unfold no_background in *. cbn. by destruct (th_driver h).
Qed.

Lemma move_task s s' id h' :
  sg_inv s -> sg_move s s' -> sg_tasks s' !! id = Some h' -> handle_ok s' id h' /\ returned s' id.
Proof using Type*.
  intros Hinv Hm Ht. pose proof (inv_tasks s Hinv) as Hin.
  assert (forall h, sg_tasks s !! id = Some h -> handle_ok s' id h /\ returned s' id) as Hsame.
  { intros h Hh. destruct (Hin _ _ Hh). split; [by eapply handle_frame|by eapply returned_stays]. }
  assert (forall h g, sg_tasks s !! id = Some h ->
    (handle_ok s id h -> handle_ok s id g) -> handle_ok s' id g /\ returned s' id) as Hch.
  { intros h g Hh Hg. destruct (Hin _ _ Hh) as [Ho Hr]. split; [|by eapply returned_stays].
    eapply handle_frame; [done|done|by apply Hg]. }
  pose proof Hm as Hm'. destruct Hm; cbn in Ht; rewrite ?tasks_abort in Ht; cbn in Ht; eauto.
  - apply prune_lookup in Ht as [Ht _]. eauto.
  - destruct (decide (id = id0)) as [->|]; [rewrite lookup_insert_eq in Ht|rewrite lookup_insert_ne in Ht by done].
    + injection Ht as ->. pose proof (inserting_id _ _ _ _ Hinv H) as ->.
      pose proof (inv_pc s Hinv (Api n)) as Hok. rewrite H in Hok.
      destruct Hok as (_ & Hd & Hw & (flow & Hf & Hp) & Hfin & Hb & Hnb).
      split; [|exists n, r; split; [done|apply fn_lookup_insert]].
      exists n, flow. split_and!; try done; first [by left | by rewrite Hw | by rewrite Hfin].
    + apply prune_lookup in Ht as [Ht _]. eauto.
  - apply update_lookup in Ht as [Ht|(h & -> & Hh & ->)]; [eauto|]. eapply Hch; [done|].
    intros Ho. apply handle_changed; [done|]. pose proof (inv_pc s Hinv w) as Hok. rewrite H in Hok. by destruct Hok as (_ & ? & _).
  - apply mark_lookup in Ht as [Ht|(h & -> & Hh & ->)]; [eauto|].
    destruct (Hsame _ Hh) as [(n & flow & Hid & Hf & Hd & Hp & Hst & Hdone & Hb & Hfin & Hnb) Hr].
    split; [|done]. exists n, flow. split_and!; try done. intros _. cbn.
    pose proof (inv_pc s Hinv w) as Hok. rewrite H in Hok. destruct Hok as (Ho & _ & _ & He). destruct w as [k|k].
    + left. apply (inv_quiet s Hinv k id0); [by rewrite H|done].
    + destruct Hb as [?|Hb]; [by left|]. right. cbn in Ho. rewrite Hid in Ho. apply task_id_inj in Ho as ->.
      rewrite He. apply fn_lookup_insert.
  - destruct (decide (id = id0)) as [->|]; [rewrite lookup_insert_eq in Ht|rewrite lookup_insert_ne in Ht by done; eauto].
    injection Ht as <-. eapply Hch; [done|apply handle_taken].
  - apply lookup_delete_Some in Ht as [_ Ht]. eauto.
  - by rewrite lookup_empty in Ht.
Qed.

Lemma quiet_stays s s' id : sg_inv s -> sg_move s s' -> quiet s id -> quiet s' id.
Proof using Type*.
  intros Hinv Hm [Hr Hq]. split; [by eapply returned_stays|]. intros h' Hh'.
  destruct (tasks_from _ _ _ _ Hm Hh') as [(h & Hh & _ & Hb)|(n & r & Hi & _)].
  - specialize (Hq h Hh). destruct Hb; congruence.
  - pose proof (inserting_id _ _ _ _ Hinv Hi) as ->. by destruct (inserting_fresh _ _ _ Hinv Hi).
Qed.

Lemma move_quiet s s' n id :
  sg_inv s -> sg_move s s' -> needs_quiet (sg_pc s' (Api n)) = Some id -> quiet s' id.
Proof using Type*.
  intros Hinv Hm. pose proof (inv_quiet s Hinv n id) as Hq.
  assert (forall w, w = Api n -> pc_ok (sg_kept s) w (sg_pc s w)) as Hok by (intros ? ->; apply (inv_pc s Hinv)).
  pose proof (fun H => quiet_stays s s' id Hinv Hm (Hq H)) as Hsame.
  pose proof Hm as Hm'. destruct Hm; rewrite ?pc_abort; try done;
    try (thread (Api n); [|rewrite ?pc_abort; exact Hsame]).
  - intros Hn. apply (gt_quiet _ _ _ _ H) in Hn. auto.
  - done.
  - done.
  - done.
  - done.
  - intros Hn. apply Hsame. by rewrite H.
  - intros Hn. apply Hsame. rewrite H. specialize (Hok _ eq_refl). rewrite H in Hok.
    destruct Hok as (_ & _ & [_ [Hc|Hc]] & _); cbn; congruence.
  - intros Hn. assert (id0 = id) as -> by (destruct (th_background h); cbn in Hn; congruence).
    split; [eapply returned_stays; [done|by apply (inv_tasks s Hinv _ h)]|].
    intros h' Hh'. cbn in Hh'. rewrite tasks_abort in Hh'. cbn in Hh'. rewrite lookup_insert_eq in Hh'. by injection Hh' as <-.
  - intros [= ->]. eapply quiet_stays; [done..|]. split; [by apply (inv_tasks s Hinv _ h)|].
    intros h' Hh'. assert (h' = h) as -> by congruence.
    destruct (inv_tasks s Hinv _ _ H0) as [(m & flow & _ & _ & _ & _ & _ & _ & _ & _ & Hnb) _].
    unfold no_background in Hnb. by rewrite H1 in Hnb.
  - by destruct (th_background h).
  - done.
  - done.
Qed.

Lemma move_spawned s s' n :
  sg_inv s -> sg_move s s' -> sg_pc s' (Bg n) <> Idle ->
  (exists h, sg_pc s' (Api n) = Inserting (task_id n) h) \/ returned s' (task_id n).
Proof using Type*.
  intros Hinv Hm Hn.
  assert (sg_pc s (Bg n) <> Idle -> (exists h, sg_pc s' (Api n) = Inserting (task_id n) h) \/ returned s' (task_id n)) as Hold.
  { intros Hb. destruct (inv_spawned s Hinv n Hb) as [[h Hh]|Hr]; [|right; by eapply returned_stays].
    pose proof Hm as Hm'. destruct Hm; rewrite ?pc_abort; try (by left; exists h);
      thread (Api n); rewrite ?pc_abort; try (by left; exists h); try congruence.
    - pose proof (gt_from _ _ _ _ H) as Hf. by rewrite Hh in Hf.
    - destruct H as [H|(? & ? & H)]; congruence.
    - right. exists n, r. split; [done|]. apply fn_lookup_insert. }
  pose proof Hm as Hm'. destruct Hm; rewrite ?pc_abort in Hn; try (by apply Hold); revert Hn;
    thread (Bg n); rewrite ?pc_abort; intros Hn; try (by apply Hold).
  - apply Hold. pose proof (gt_from _ _ _ _ H) as Hf. intros E. by rewrite E in Hf.
  - revert Hn. thread (Bg n); [|by intros; apply Hold]. intros _. left. exists handle. by rewrite pc_go_eq.
  - apply Hold. congruence.
  - apply Hold. congruence.
Qed.

(** A background task that runs after a move ran before it, or was just
    spawned. *)
Lemma live_before s s' n :
  sg_inv s -> sg_move s s' -> live (sg_pc s' (Bg n)) ->
  live (sg_pc s (Bg n)) \/ exists h, sg_pc s' (Api n) = Inserting (task_id n) h /\ th_background h = Some n.
Proof.
  intros Hinv Hm Hl. destruct Hm; rewrite ?pc_abort in Hl; auto; revert Hl; thread (Bg n); rewrite ?pc_abort; auto.
  - intros _. pose proof (gt_from _ _ _ _ H) as Hf. left. split; intros E; by rewrite E in Hf.
  - thread (Bg n); [|auto]. intros _. right. exists handle. by rewrite pc_go_eq.
  - intros _. left. split; congruence.
  - intros _. left. split; congruence.
Qed.

Lemma pruned_ended s id h n :
  sg_inv s -> sg_tasks s !! id = Some h -> th_background h = Some n -> still_read (sg_now s) h = false ->
  sg_pc s (Bg n) = Ended.
Proof.
  intros Hinv Hh Hb Hr. destruct (inv_tasks s Hinv _ _ Hh) as [(m & flow & _ & _ & _ & _ & _ & _ & Hbg & Hfin & _) _].
  unfold still_read in Hr. destruct (th_finished_at h); [|done].
  destruct Hfin as [?|He]; [done|congruence|]. destruct Hbg; congruence.
Qed.

(** The owner that a registered task is keeps being one, or hands over. *)
Lemma registered_owned s s' n h :
  sg_inv s -> sg_move s s' -> live (sg_pc s (Bg n)) ->
  sg_tasks s !! task_id n = Some h -> th_background h = Some n -> owned s' n.
Proof using Type*.
  intros Hinv Hm [_ Hl] Hh Hb.
  assert (still_read (sg_now s) h = true) as Hr.
  { destruct (still_read (sg_now s) h) eqn:Hr; [done|]. by rewrite (pruned_ended s (task_id n) h n) in Hl. }
  assert (forall m, sg_tasks s' = m -> m !! task_id n = Some h -> owned s' n) as Hstay.
  { intros m <- Hm'. right. right. left. eauto. }
  destruct Hm; try (by eapply Hstay).
  - eapply Hstay; [reflexivity|]. by apply prune_lookup.
  - eapply Hstay; [reflexivity|]. cbn. rewrite lookup_insert_ne; [by apply prune_lookup|]. intros ->. pose proof (inserting_id _ _ _ _ Hinv H) as ?.
    destruct (inv_tasks s Hinv _ _ Hh) as [_ Hret]. apply task_id_inj in H0 as ->. by destruct (inserting_fresh _ _ _ Hinv H).
  - right. right. left. cbn. unfold update_task. destruct (sg_tasks s !! id) as [g|] eqn:Hg; [|eauto].
    destruct (decide (task_id n = id)) as [<-|]; [rewrite lookup_insert_eq|rewrite lookup_insert_ne by done; eauto].
    eexists. split; [done|]. cbn. congruence.
  - right. right. left. cbn. unfold mark_finished. destruct (sg_tasks s !! id) as [g|] eqn:Hg; [|eauto].
    destruct (decide (task_id n = id)) as [<-|]; [rewrite lookup_insert_eq|rewrite lookup_insert_ne by done; eauto].
    eexists. split; [done|]. cbn. congruence.
  - destruct (decide (task_id n = id)) as [<-|].
    + left. assert (h0 = h) as -> by congruence. rewrite Hb. cbn. set_solver.
    + right. right. left. cbn. rewrite tasks_abort. cbn. rewrite lookup_insert_ne by done. eauto.
  - destruct (decide (task_id n = id)) as [<-|].
    + left. assert (h0 = h) as -> by congruence. rewrite Hb. cbn. set_solver.
    + right. right. left. cbn. rewrite tasks_abort. cbn. rewrite lookup_delete_ne by done. eauto.
  - right. right. right. exists n0. rewrite pc_go_eq. cbn. apply list_elem_of_omap.
    exists (task_id n, h). split; [by apply elem_of_map_to_list|done].
Qed.

Lemma inserting_step s s' n h :
  sg_move s s' -> sg_pc s (Api n) = Inserting (task_id n) h ->
  sg_pc s' (Api n) = Inserting (task_id n) h \/ sg_tasks s' !! task_id n = Some h.
Proof.
  intros Hm Hh. destruct Hm; rewrite ?pc_abort; try (by left);
    thread (Api n); rewrite ?pc_abort; try (by left); try congruence.
  - pose proof (gt_from _ _ _ _ H) as Hf. by rewrite Hh in Hf.
  - destruct H as [H|(? & ? & H)]; congruence.
  - right. cbn. rewrite Hh in H. injection H as <- <-. apply lookup_insert_eq.
Qed.

Lemma stopping_step s s' n w :
  sg_move s s' -> n ∈ stopping (sg_pc s (Api w)) ->
  n ∈ sg_aborted s' \/ exists w, n ∈ stopping (sg_pc s' (Api w)).
Proof using Type*.
  intros Hm Hn.
  assert (sg_pc s' (Api w) = sg_pc s (Api w) -> n ∈ sg_aborted s' \/ exists w, n ∈ stopping (sg_pc s' (Api w))) as Hsame.
  { intros E. right. exists w. by rewrite E. }
  assert (forall pc, sg_pc s (Api w) = pc -> stopping pc = [] -> False) as Hne.
  { intros pc <- E. rewrite E in Hn. by apply elem_of_nil in Hn. }
  pose proof Hm as Hm'. destruct Hm; rewrite ?pc_abort in Hsame; try (by apply Hsame);
    revert Hsame; thread (Api w); rewrite ?pc_abort; intros Hsame; try (by apply Hsame); try (by destruct (Hne _ H)).
  - destruct (gt_stop _ _ _ _ H n Hn) as [?|?]; [by left|right]. exists w. by rewrite pc_go_eq.
  - destruct H as [H|(? & ? & H)]; by destruct (Hne _ H).
  - rewrite H in Hn. cbn in Hn. apply list.elem_of_cons in Hn as [->|Hn]; [left; cbn; set_solver|].
    right. exists w. by rewrite pc_go_eq.
Qed.

Lemma move_owned s s' n : sg_inv s -> sg_move s s' -> live (sg_pc s' (Bg n)) -> owned s' n.
Proof using Type*.
  intros Hinv Hm Hl. destruct (live_before _ _ _ Hinv Hm Hl) as [Hlive|(h & Hi & Hb)]; [|by right; left; eauto].
  destruct (inv_owned s Hinv n Hlive) as [Ha|[(h & Hi & Hb)|[(h & Hh & Hb)|(w & Hw)]]].
  - left. destruct Hm; cbn; try done;
      try match goal with |- context [aborting ?b] => destruct b end; cbn; set_solver.
  - destruct (inserting_step _ _ _ _ Hm Hi) as [?|?]; [by right; left; eauto|by right; right; left; eauto].
  - by eapply registered_owned.
  - destruct (stopping_step _ _ _ _ Hm Hw) as [?|?]; [by left|by right; right; right].
Qed.

Lemma move_inv s s' : sg_inv s -> sg_move s s' -> sg_inv s'.
Proof using Type*.
  intros Hinv Hm. split.
  - intros w. by apply (move_pc s).
  - destruct (kept_grows _ _ Hm) as (ks & -> & Hks). apply list.Forall_app. split; [apply (inv_kept s Hinv)|done].
  - intros id h. by apply (move_task s).
  - intros n id. by apply (move_quiet s).
  - intros n. by apply (move_spawned s).
  - intros n. by apply (move_owned s).
Qed.

Lemma run_ind (P : Signs -> Prop) es s s' :
  (forall s s', sg_inv s -> sg_move s s' -> P s -> P s') ->
  sg_inv s -> P s -> run es s = Some s' -> sg_inv s' /\ P s'.
Proof using Type*.
  intros Hstep. revert s. induction es as [|e es IH]; intros s Hinv HP; [by intros [= <-]|].
  cbn [sg_run]. destruct (step e s) as [s1|] eqn:Hs; [|done]. cbn. pose proof (step_move _ _ _ Hinv Hs) as Hm.
  apply IH; [by eapply move_inv|by eapply Hstep].
Qed.

Definition reachable (s : Signs) : Prop := exists es now, run es (signs0 now) = Some s.

Lemma reachable_inv s : reachable s -> sg_inv s.
Proof using Type*.
  intros (es & now & Hr). by destruct (run_ind (fun _ => True) es _ s ltac:(done) (sg_inv0 now) I Hr).
Qed.

(** ** How a registered task evolves *)

Definition identity (h : TaskHandle) : TaskDriver * (string * string * string) * (bool * bool) :=
  (th_driver h, (st_id (th_task h), st_provider (th_task h), st_instructions (th_task h)),
   (st_paste_callback (th_task h), st_paste_code (th_task h))).
Definition evolves (h h' : TaskHandle) : Prop :=
  identity h' = identity h /\
  (st_state (th_task h') = st_state (th_task h) \/ ends (st_state (th_task h'))).

Lemma evolves_refl h : evolves h h.
Proof. split_and!; auto. Qed.

Lemma evolves_trans h1 h2 h3 : evolves h1 h2 -> evolves h2 h3 -> evolves h1 h3.
Proof.
  intros (Hd & Hs) (Hd' & Hs'). split; [congruence|].
  destruct Hs' as [->|?]; [done|by right].
Qed.

Lemma move_evolves s s' id h h' :
  sg_inv s -> sg_move s s' -> sg_tasks s !! id = Some h -> sg_tasks s' !! id = Some h' -> evolves h h'.
Proof using Type*.
  intros Hinv Hm Hh Ht.
  assert (h' = h -> evolves h h') as Hsame by (intros ->; apply evolves_refl).
  destruct Hm; cbn in Ht; rewrite ?tasks_abort in Ht; cbn in Ht; try (apply Hsame; congruence).
  - apply prune_lookup in Ht as [Ht _]. apply Hsame. congruence.
  - destruct (decide (id = id0)) as [->|]; [|rewrite lookup_insert_ne in Ht by done].
    + pose proof (inserting_id _ _ _ _ Hinv H) as ->. destruct (inv_tasks s Hinv _ _ Hh) as [_ Hr].
      by destruct (inserting_fresh _ _ _ Hinv H).
    + apply prune_lookup in Ht as [Ht _]. apply Hsame. congruence.
  - apply update_lookup in Ht as [Ht|(g & -> & Hg & ->)]; [apply Hsame; congruence|].
    assert (g = h) as -> by congruence. split; [by destruct c as [[[]]|[[[]]]| | |]|]. cbn.
    rewrite apply_change_state. pose proof (inv_pc s Hinv w) as Hok. rewrite H in Hok. destruct Hok as (_ & Hc & _).
    unfold change_ok in Hc. destruct (change_state c); [by right; destruct Hc|by left].
  - apply mark_lookup in Ht as [Ht|(g & -> & Hg & ->)]; [apply Hsame; congruence|].
    assert (g = h) as -> by congruence. split_and!; auto.
  - destruct (decide (id = id0)) as [->|]; [rewrite lookup_insert_eq in Ht|rewrite lookup_insert_ne in Ht by done; apply Hsame; congruence].
    injection Ht as <-. assert (h0 = h) as -> by congruence. split_and!; auto.
  - apply lookup_delete_Some in Ht as [_ Ht]. apply Hsame. congruence.
  - by rewrite lookup_empty in Ht.
Qed.

Definition gone (id : string) (s : Signs) : Prop := returned s id /\ sg_tasks s !! id = None.

Lemma gone_run es s s' id : sg_inv s -> gone id s -> run es s = Some s' -> sg_inv s' /\ gone id s'.
Proof using Type*.
  intros Hinv Hg Hr. refine (run_ind (gone id) es s s' _ Hinv Hg Hr).
  intros s1 s2 Hi Hm [Hret Hn]. split; [by eapply returned_stays|by eapply gone_stays].
Qed.

(** ** Who works on a task

    The threads that may still change what a task says. *)
Fixpoint works_on (id : string) (pc : Pc) : Prop :=
  match pc with
  | IntoCli i | IntoPlugin i _ _ | JoinFinish i _ _ _ | Finishing i _ _ | WaitCallback i _ | WaitCli i
  | CopilotStart i | CopilotWait i | PluginBegin i _ | PluginAsk i _ _ _ | PluginPause i _ _ _ _
  | PluginRestart i _ _ => i = id
  | Exchanging i _ next | Settling i _ next | Changing i _ next => i = id \/ works_on id next
  | Marking _ next => works_on id next
  | Idle | Begin | Starting _ | Inserting _ _ | JoinCancel _ | Stopping _ | JoinStop _ _ | ReadStatus _ _
  | Returned _ | Ended => False
  end.
Definition idle_on (id : string) (s : Signs) : Prop := forall w, ~ works_on id (sg_pc s w).

Lemma idle_go id w pc s : idle_on id s -> ~ works_on id pc -> idle_on id (go_to w pc s).
Proof using Type*. intros Hs Hp w'. by thread w'. Qed.
Lemma idle_same id s s' : sg_pc s' = sg_pc s -> idle_on id s -> idle_on id s'.
Proof using Type*. intros E Hs w. rewrite E. apply Hs. Qed.

(** A thread that went on from [pc0] works on nothing that it did not. *)
Lemma idle_from id w pc0 pc s : idle_on id s -> sg_pc s w = pc0 ->
  (works_on id pc -> works_on id pc0) -> idle_on id (go_to w pc s).
Proof using Type*. intros Hs E Hw. apply idle_go; [done|]. intros H. apply (Hs w). rewrite E. auto. Qed.

Lemma idle_session id w flow i exchange fail next s : idle_on id s -> i <> id -> ~ works_on id next ->
  idle_on id (take_session w flow i exchange fail next s).
Proof using All.
  intros Hs Hi Hn. unfold take_session. case_decide; (apply idle_go; [by apply (idle_same _ s)|]); cbn; tauto.
Qed.

Ltac idle_to s :=
  unfold return_; apply idle_go; [first [assumption|by apply (idle_same _ s)]|cbn; tauto].

Lemma idle_started n flow r s s' id :
  sg_inv s -> sg_pc s (Api n) = Starting flow -> returned s id ->
  sg_started uuid n flow r s = Some s' -> idle_on id s -> idle_on id s'.
Proof using All.
  intros Hinv Hpc (m & r' & -> & Hr) Hs Hid. unfold sg_started in Hs.
  destruct r as [started|e]; [|injection Hs as <-; idle_to s].
  destruct (start_flow n _ flow started) as [[[[task driver] bg] session]|] eqn:Ef; [|done]. injection Hs as <-.
  apply idle_go; [|by intros []].
  assert (idle_on (task_id m) (if session then on_sessions (union {[n]}) s else s)) as Hs1
    by (destruct session; by apply (idle_same _ s)).
  destruct bg as [pc|]; [|done]. apply idle_go; [done|]. intros Hw.
  assert (task_id n = task_id m) as E.
  { destruct flow, started; try done; cbn in Ef; repeat case_match; simplify_eq; done. }
  apply task_id_inj in E as ->. congruence.
Qed.

Lemma idle_submit n id i input s h :
  sg_tasks s !! id = Some h -> st_state (th_task h) <> STATE_WAITING -> idle_on id s -> idle_on id (sg_submit n i input s).
Proof using All.
  intros Hh Hst Hs. unfold sg_submit. destruct (sg_tasks s !! i) as [g|] eqn:Hg; [|idle_to s].
  case_decide as Hw; [idle_to s|].
  assert (i <> id) as Hi by (intros ->; congruence).
  destruct (th_driver g); try idle_to s; destruct (th_background g); idle_to s.
Qed.

Lemma idle_finish n id i input driver s :
  sg_pc s (Api n) = Finishing i input driver -> idle_on id s -> idle_on id (sg_finish n i input driver s).
Proof using All.
  intros Hpc Hs. assert (i <> id) as Hi by (intros ->; by apply (Hs (Api n)); rewrite Hpc).
  unfold sg_finish. destruct driver; repeat case_match; try done;
    first [apply idle_session; cbn; by try tauto|idle_to s].
Qed.

(** A task that is settled and that nobody works on stays that way. *)
Lemma idle_step e s s' id h :
  sg_inv s -> sg_tasks s !! id = Some h -> st_state (th_task h) <> STATE_WAITING ->
  step e s = Some s' -> idle_on id s -> idle_on id s'.
Proof using All.
  intros Hinv Hh Hst Hstep Hs. destruct (inv_tasks s Hinv _ _ Hh) as [_ Hret].
  assert (forall w, ~ works_on id (sg_pc s w)) as Hs' by exact Hs.
  destruct e as [n|w|n r|w reply|w put clear|w|d]; cbn [sg_step] in Hstep.
  - destruct (sg_pc s (Api n)); try done. injection Hstep as <-. idle_to s.
  - unfold sg_go in Hstep. specialize (Hs' w). destruct (sg_pc s w) eqn:Hpc, w as [n|n]; cbn in Hs'; try done.
    all: repeat (case_match; try done); simplify_eq/=; try idle_to s.
    + by eapply idle_submit.
    + by apply idle_finish.
  - destruct (sg_pc s (Api n)) eqn:Hpc; try done. by eapply idle_started.
  - specialize (Hs' w). unfold sg_answer in Hstep. destruct (sg_pc s w) eqn:Hpc; try done; cbn in Hs'.
    all: repeat (case_match; try done); simplify_eq/=; try done.
    all: try (destruct (exchange_settles _ _ _) eqn:?; simplify_eq/=).
    all: try idle_to s.
    all: unfold sg_waited; repeat case_match; try done.
    all: first [apply idle_session; cbn; tauto|idle_to s].
  - specialize (Hs' w). destruct (sg_pc s w) eqn:Hpc; try done. destruct k; [done|]. cbn in Hs'.
    injection Hstep as <-. destruct put as [[]|e]; idle_to s.
  - destruct (_ && _); [|done]. injection Hstep as <-. idle_to s.
  - destruct (0 <=? d); [|done]. injection Hstep as <-. by apply (idle_same _ s).
Qed.

Lemma idle_task s s' id h h' :
  sg_inv s -> sg_move s s' -> idle_on id s -> sg_tasks s !! id = Some h -> sg_tasks s' !! id = Some h' ->
  th_task h' = th_task h.
Proof using All.
  intros Hinv Hm Hs Hh Ht.
  assert (h' = h -> th_task h' = th_task h) as Hsame by (by intros ->).
  destruct Hm; cbn in Ht; rewrite ?tasks_abort in Ht; cbn in Ht; try (apply Hsame; congruence).
  - apply prune_lookup in Ht as [Ht _]. apply Hsame. congruence.
  - destruct (decide (id = id0)) as [->|]; [|rewrite lookup_insert_ne in Ht by done].
    + pose proof (inserting_id _ _ _ _ Hinv H) as ->. destruct (inv_tasks s Hinv _ _ Hh) as [_ Hr].
      by destruct (inserting_fresh _ _ _ Hinv H).
    + apply prune_lookup in Ht as [Ht _]. apply Hsame. congruence.
  - apply update_lookup in Ht as [Ht|(g & -> & Hg & ->)]; [apply Hsame; congruence|].
    destruct (Hs w). rewrite H. by left.
  - apply mark_lookup in Ht as [Ht|(g & -> & Hg & ->)]; [apply Hsame; congruence|]. cbn. congruence.
  - destruct (decide (id = id0)) as [->|]; [rewrite lookup_insert_eq in Ht|rewrite lookup_insert_ne in Ht by done; apply Hsame; congruence].
    injection Ht as <-. cbn. congruence.
  - apply lookup_delete_Some in Ht as [_ Ht]. apply Hsame. congruence.
  - by rewrite lookup_empty in Ht.
Qed.

Lemma settled_run es : forall s s' id h h',
  sg_inv s -> sg_tasks s !! id = Some h -> st_state (th_task h) <> STATE_WAITING -> idle_on id s ->
  run es s = Some s' -> sg_tasks s' !! id = Some h' -> th_task h' = th_task h /\ idle_on id s'.
Proof using All.
  induction es as [|e es IH]; intros s s' id h h' Hinv Hh Hst Hs Hr Hh'; cbn [sg_run] in Hr.
  { injection Hr as <-. split; [congruence|done]. }
  destruct (step e s) as [s1|] eqn:E; [cbn in Hr|done]. pose proof (step_move _ _ _ Hinv E) as Hm.
  pose proof (move_inv _ _ Hinv Hm) as Hinv1. pose proof (idle_step e s s1 id h Hinv Hh Hst E Hs) as Hs1.
  destruct (sg_tasks s1 !! id) as [h1|] eqn:H1.
  - pose proof (idle_task s s1 id h h1 Hinv Hm Hs Hh H1) as E1.
    destruct (IH s1 s' id h1 h' Hinv1 H1 ltac:(congruence) Hs1 Hr Hh') as [E2 Hs2]. split; [congruence|done].
  - exfalso. destruct (inv_tasks s Hinv _ _ Hh) as [_ Hret].
    assert (gone id s1) as Hg by (split; [by eapply returned_stays|done]).
    destruct (gone_run es s1 s' id Hinv1 Hg Hr) as [_ [_ Hn]]. congruence.
Qed.

(** Either gone for good, or still there and the same task. *)
Definition later (id : string) (h : TaskHandle) (s : Signs) : Prop :=
  returned s id /\ match sg_tasks s !! id with Some h' => evolves h h' | None => True end.

Lemma later_run es s s' id h :
  sg_inv s -> sg_tasks s !! id = Some h -> run es s = Some s' -> later id h s'.
Proof using Type*.
  intros Hinv Hh Hr. refine (proj2 (run_ind (later id h) es s s' _ Hinv _ Hr)).
  - intros s1 s2 Hi Hm [Hret Hl]. split; [by eapply returned_stays|].
    destruct (sg_tasks s1 !! id) as [h1|] eqn:H1.
    + destruct (sg_tasks s2 !! id) as [h2|] eqn:H2; [|done]. eapply evolves_trans; [done|by eapply move_evolves].
    + by rewrite (gone_stays s1 s2 id).
  - split; [by apply (inv_tasks s Hinv _ h)|]. rewrite Hh. apply evolves_refl.
Qed.

(** Whoever is to end it: nobody waits on it through the registry. *)
Lemma unregistered_aborted s n :
  sg_inv s -> quiet s (task_id n) -> live (sg_pc s (Bg n)) ->
  n ∈ sg_aborted s \/ exists w, n ∈ stopping (sg_pc s (Api w)).
Proof using Type*.
  intros Hinv [Hr Hq] Hl. destruct (inv_owned s Hinv n Hl) as [?|[(h & Hi & _)|[(h & Hh & Hb)|?]]]; auto.
  - by destruct (inserting_fresh _ _ _ Hinv Hi).
  - specialize (Hq _ Hh). congruence.
Qed.

(** ** Theorems *)

(** A task that says [done] is signed in. In every state the calls, the
    background tasks, the vendors, the plugins and the store can reach
    together, a registered task is waiting, done or failed, and if it is done
    then a credential was kept by its own flow: one the store accepted, of the
    provider the sign-in was started for and under an account of that
    provider, or one its plugin says it has kept. *)
Theorem signin_done_kept s id h :
  reachable s -> sg_tasks s !! id = Some h ->
  (st_state (th_task h) = STATE_WAITING \/ st_state (th_task h) = STATE_DONE \/ st_state (th_task h) = STATE_FAILED) /\
  (st_state (th_task h) = STATE_DONE ->
   Exists (fun k =>
     match k with
     | KeptCredential by_id account_id (CredOAuth provider _ _ _ _ _) =>
         by_id = id /\ provider = st_provider (th_task h) /\ before_colon account_id = st_provider (th_task h)
     | KeptByPlugin by_id _ _ => by_id = id /\ starts_with "plugin:" (st_provider (th_task h)) = true
     | _ => False
     end) (sg_kept s)).
Proof using Type*.
  intros Hre Hh. pose proof (reachable_inv s Hre) as Hinv.
  destruct (inv_tasks s Hinv _ _ Hh) as [(n & flow & Hid & Hf & _ & Hp & Hst & Hdone & _) _].
  split; [destruct Hst as [?|[?|?]]; auto|]. intros Hd. specialize (Hdone Hd). unfold kept_for in Hdone.
  pose proof (inv_kept s Hinv) as Hk. rewrite Hp. clear Hp Hst Hd.
  assert (forall flow', runs id flow' -> flow' = flow) as Hflow.
  { intros flow' (m & Hm & Hf'). rewrite Hid in Hm. apply task_id_inj in Hm as <-. congruence. }
  induction Hdone as [k ks Hkid|k ks Hks IH]; inversion Hk as [|? ? Hr Hrs]; subst; [left|right; by apply IH].
  destruct k as [by_id account_id cred|by_id p a]; cbn in *; subst.
  - destruct Hr as (flow' & account & access & refresh & expires & siwc & Hruns & -> & Hacc).
    by rewrite (Hflow _ Hruns) in *.
  - destruct Hr as [p' Hruns]. rewrite <-(Hflow _ Hruns). split; [done|]. apply starts_with_app.
Qed.

(** No background task is left behind. In every reachable state, a
    background task that is still running can be ended by someone: it has been
    aborted, or its call is about to register it, or the registered handle of
    its own task holds it, or a shutdown has it on its list; and while a call
    exchanges a paste for a task, the background task of that task, if it
    still runs, is one that is being ended. *)
Theorem background_owned s n :
  reachable s -> live (sg_pc s (Bg n)) ->
  (n ∈ sg_aborted s \/
   (exists h, sg_pc s (Api n) = Inserting (task_id n) h /\ th_background h = Some n) \/
   (exists h, sg_tasks s !! task_id n = Some h /\ th_background h = Some n) \/
   (exists w, n ∈ stopping (sg_pc s (Api w)))) /\
  (forall w exchange next, sg_pc s (Api w) = Exchanging (task_id n) exchange next ->
     n ∈ sg_aborted s \/ exists w', n ∈ stopping (sg_pc s (Api w'))).
Proof using Type*.
  intros Hre Hl. pose proof (reachable_inv s Hre) as Hinv. split; [by apply (inv_owned s Hinv)|].
  intros w exchange next Hw. apply unregistered_aborted; [done| |done].
  apply (inv_quiet s Hinv w). by rewrite Hw.
Qed.

(** A cancelled sign-in stays cancelled. Once the cancellation of a
    registered task has begun, in every state that can follow the task is not
    registered, its identifier is never given again, and a background task of
    it that still runs has been aborted. *)
Theorem cancel_final s n id h es s' :
  reachable s -> sg_pc s (Api n) = Begin -> call n = CallCancel id -> sg_tasks s !! id = Some h ->
  run (Goes (Api n) :: es) s = Some s' ->
  sg_tasks s' !! id = None /\
  forall m, id = task_id m -> live (sg_pc s' (Bg m)) ->
    m ∈ sg_aborted s' \/ exists w, m ∈ stopping (sg_pc s' (Api w)).
Proof using Type*.
  intros Hre Hpc Hc Hh. pose proof (reachable_inv s Hre) as Hinv. cbn [sg_run].
  destruct (step (Goes (Api n)) s) as [s1|] eqn:Hs; [|done]. cbn. intros Hrun.
  pose proof (step_move _ _ _ Hinv Hs) as Hm.
  assert (gone id s1) as Hg.
  { split; [eapply returned_stays; [done|]; by apply (inv_tasks s Hinv _ h)|].
    revert Hs. cbn [sg_step]. unfold sg_go. rewrite Hpc, Hc, Hh. intros [= <-].
    destruct (th_background h); cbn; apply lookup_delete_eq. }
  destruct (gone_run es s1 s' id (move_inv _ _ Hinv Hm) Hg Hrun) as [Hinv' [Hr Hn]].
  split; [done|]. intros m -> Hl. apply unregistered_aborted; [done| |done].
  split; [done|]. by rewrite Hn.
Qed.

(** C39: what becomes of a sign-in task. From any reachable state on, a
    registered task either leaves the registry, and then never comes back, or
    is still the sign-in of the same provider with the same driver, id,
    instructions and kind of paste, in the state it was in or a settled one: it
    never waits again. A settled task may be settled once more, done as failed
    too, but only by a paste or a background task that was at work on it
    already: one that is settled and that no thread works on says the same for
    as long as it is registered (state, user, plan, error, URL and code), and no
    thread ever works on it again. *)
Theorem task_lifecycle s es s' id h :
  reachable s -> sg_tasks s !! id = Some h -> run es s = Some s' ->
  match sg_tasks s' !! id with
  | Some h' =>
      identity h' = identity h /\
      (st_state (th_task h') = st_state (th_task h) \/
       st_state (th_task h') = STATE_DONE \/ st_state (th_task h') = STATE_FAILED) /\
      (st_state (th_task h) <> STATE_WAITING -> idle_on id s -> th_task h' = th_task h /\ idle_on id s')
  | None => forall es' s'', run es' s' = Some s'' -> sg_tasks s'' !! id = None
  end.
Proof using Type*.
  intros Hre Hh Hr. pose proof (reachable_inv s Hre) as Hinv.
  destruct (later_run es s s' id h Hinv Hh Hr) as [Hret Hl].
  destruct (sg_tasks s' !! id) as [h'|] eqn:Hh'.
  - destruct Hl as [Hi Hst]. split_and!; [done|exact Hst|]. intros. by eapply settled_run.
  - intros es' s'' Hr'. pose proof (proj1 (run_ind (fun _ => True) es s s' ltac:(done) Hinv I Hr)) as Hinv'.
    by apply (gone_run es' s' s'' id Hinv' (conj Hret Hh')).
Qed.

(** What an aborted background task still does by itself. *)
Fixpoint closing (n : nat) (pc : Pc) : list SignEvent :=
  match pc with
  | Ended => []
  | Marking _ next | Changing _ _ next => Goes (Bg n) :: closing n next
  | Settling _ (Now _) next => Goes (Bg n) :: Goes (Bg n) :: closing n next
  | Settling _ (StoreSignIn _ _ _) next => Stores (Bg n) (Ok tt) (Ok tt) :: Goes (Bg n) :: closing n next
  | PluginBegin _ _ => [Goes (Bg n); Drops (Bg n)]
  | _ => [Drops (Bg n)]
  end.

Lemma closing_runs n kept pc s :
  n ∈ sg_aborted s -> pc_ok kept (Bg n) pc -> pc <> Idle -> sg_pc s (Bg n) = pc ->
  exists s', run (closing n pc) s = Some s' /\ sg_pc s' (Bg n) = Ended.
Proof.
  assert (forall s, n ∈ sg_aborted s -> awaits (sg_pc s (Bg n)) = true ->
    exists s', run [Drops (Bg n)] s = Some s' /\ sg_pc s' (Bg n) = Ended) as Hdrop.
  { intros s1 Ha Hw. cbn. rewrite Hw, bool_decide_eq_true_2 by done. cbn. eexists. split; [done|]. apply pc_go_eq. }
  revert s. induction pc; intros s Ha Hok Hi Hpc; try done; try (by destruct Hok as (_ & _ & []));
    try (apply Hdrop; [done|by rewrite Hpc]).
  - cbn [closing sg_run sg_step]. unfold sg_go. rewrite Hpc. cbn [mbind option_bind].
    apply Hdrop; [done|by rewrite pc_go_eq].
  - destruct Hok as (_ & _ & Hok). destruct Hok as (Hok & Hne & _).
    destruct k as [c|account_id cred k]; cbn [closing sg_run sg_step]; unfold sg_go; rewrite Hpc; cbn [mbind option_bind];
      rewrite pc_go_eq; apply IHpc; (done || apply pc_go_eq).
  - destruct Hok as (_ & _ & Hok & Hne). cbn [closing sg_run sg_step]. unfold sg_go. rewrite Hpc. cbn [mbind option_bind].
    apply IHpc; [done|done|done|apply pc_go_eq].
  - destruct Hok as (_ & Hok & [Hne _] & _). cbn [closing sg_run sg_step]. unfold sg_go. rewrite Hpc. cbn [mbind option_bind].
    apply IHpc; [done|done|done|apply pc_go_eq].
  - by exists s.
Qed.

(** What is aborted ends. In every reachable state, a background task that
    has been aborted comes to its end by events of its own, whatever the other
    threads, the vendors and the browsers do not do: it is dropped where it
    waits, or runs on to there or to its end without waiting for anything. *)
Theorem aborted_ends s n :
  reachable s -> live (sg_pc s (Bg n)) -> n ∈ sg_aborted s ->
  exists s', run (closing n (sg_pc s (Bg n))) s = Some s' /\ sg_pc s' (Bg n) = Ended.
Proof using Type*.
  intros Hre [Hi He] Ha. eapply closing_runs; [done|apply (inv_pc s (reachable_inv s Hre))|done|done].
Qed.

End props.

(** ** Concrete runs *)

Fixpoint lab_uuid (n : nat) : string := match n with O => "x" | S n => String "x" (lab_uuid n) end.
Lemma lab_uuid_length n : String.length (lab_uuid n) = S n.
Proof. induction n as [|n IH]; [done|]. cbn [lab_uuid String.length]. by rewrite IH. Qed.
#[local] Instance lab_uuid_inj : Inj (=) (=) lab_uuid.
Proof. intros n m H. apply (f_equal String.length) in H. rewrite !lab_uuid_length in H. lia. Qed.

(** The address Google sends the browser back to. *)
Definition lab_query : string := "http://127.0.0.1:4711/oauth2callback?state=st&code=4/0A".

(** Call 0 signs in to Gemini; 1 and 2 paste its callback, 3 cancels it, 4
    looks at it. Call 5 signs in to Copilot. *)
Definition lab_call (n : nat) : ApiCall :=
  match n with
  | 0 => CallStart "Gemini" None
  | 1 | 2 => CallSubmit "signin-x" lab_query
  | 3 => CallCancel "signin-x"
  | 4 => CallStatus "signin-x"
  | _ => CallStart "copilot" None
  end%nat.

Definition lab_run (es : list SignEvent) : option Signs := sg_run lab_uuid lab_call false 0 es (signs0 0).
Definition lab_state (es : list SignEvent) : Signs := default (signs0 0) (lab_run es).

Lemma lab_reachable es : is_some (lab_run es) = true -> reachable lab_uuid lab_call false 0 (lab_state es).
Proof.
  intros H. exists es, 0. unfold lab_state. fold (lab_run es). by destruct (lab_run es).
Qed.

Definition lab_account : GeminiAccount :=
  {| ga_email := "me@example.com"; ga_access_token := "ya29"; ga_refresh_token := Some "1//r"; ga_expires_at := None |}.

Definition lab_start : list SignEvent :=
  [Arrives 0; Goes (Api 0); Starts 0 (Ok (StartedBrowser "https://accounts.google.com/" true "st")); Goes (Api 0)].

(** The browser comes back and the task is done. *)
Definition lab_done : list SignEvent :=
  lab_start ++
  [Answers (Bg 0) (Redirected (<["state" := "st"]> (<["code" := "4/0A"]> ∅)));
   Answers (Bg 0) (GoogleSays (Ok lab_account)); Stores (Bg 0) (Ok tt) (Ok tt); Goes (Bg 0); Goes (Bg 0)].

Example lab_done_state :
  (fun h => (st_state (th_task h), st_user (th_task h))) <$> sg_tasks (lab_state lab_done) !! "signin-x" =
  Some ("done", "gemini:me@example.com").
Proof. vm_compute. reflexivity. Qed.

(** A callback of another sign-in is answered with an error page: the wait
    goes on. *)
Example lab_mismatch :
  sg_pc (lab_state (lab_start ++ [Answers (Bg 0) (Redirected (<["state" := "other"]> ∅))])) (Bg 0) =
  WaitCallback "signin-x" (DriveGemini 0 "st" "gemini").
Proof. vm_compute. reflexivity. Qed.

(** Two pastes of the same callback: the second finds the session taken and
    overwrites [done] with its own failure, although the credential is kept. *)
Definition lab_twice : list SignEvent :=
  lab_start ++
  [Arrives 1; Goes (Api 1); Drops (Bg 0); Goes (Api 1); Goes (Api 1); Arrives 2; Goes (Api 2); Goes (Api 2);
   Answers (Api 1) (GoogleSays (Ok lab_account)); Stores (Api 1) (Ok tt) (Ok tt); Goes (Api 1); Goes (Api 2)].
Example lab_twice_failed :
  (fun h => (st_state (th_task h), st_error (th_task h))) <$> sg_tasks (lab_state lab_twice) !! "signin-x" =
    Some ("failed", "sign-in not started") /\
  length (sg_kept (lab_state lab_twice)) = 1%nat.
Proof. vm_compute. split; reflexivity. Qed.

(** A background task that ends before its handle is registered updates
    nothing: the task waits with nobody working on it. *)
Definition lab_early : list SignEvent :=
  [Arrives 5; Goes (Api 5); Starts 5 (Ok StartedPoller); Answers (Bg 5) (DeviceCode (Err (Http "refused")));
   Goes (Bg 5); Goes (Api 5)].
Example lab_early_waits :
  (fun h => st_state (th_task h)) <$> sg_tasks (lab_state lab_early) !! task_id lab_uuid 5 = Some "waiting" /\
  sg_pc (lab_state lab_early) (Bg 5) = Ended.
Proof. vm_compute. split; reflexivity. Qed.

(** A pasted sign-in is never marked finished: it is still there after a
    day. *)
Definition lab_kept_forever : list SignEvent :=
  lab_start ++
  [Arrives 1; Goes (Api 1); Drops (Bg 0); Goes (Api 1); Goes (Api 1);
   Answers (Api 1) (GoogleSays (Ok lab_account)); Stores (Api 1) (Ok tt) (Ok tt); Goes (Api 1); Goes (Api 1);
   Ticks (secs 86400); Arrives 4; Goes (Api 4)].
Example lab_never_pruned :
  (fun h => st_state (th_task h)) <$> sg_tasks (lab_state lab_kept_forever) !! "signin-x" = Some "done".
Proof. vm_compute. reflexivity. Qed.

Definition lab_handle (es : list SignEvent) : TaskHandle :=
  default {| th_task := new_task "" "" "" "" false false; th_background := None; th_driver := DriveCopilot;
             th_finished_at := None |} (sg_tasks (lab_state es) !! "signin-x").

Lemma signin_done_kept_witness :
  Exists (fun k =>
    match k with
    | KeptCredential by_id account_id (CredOAuth provider _ _ _ _ _) =>
        by_id = "signin-x" /\ provider = "gemini" /\ before_colon account_id = "gemini"
    | KeptByPlugin by_id _ _ => by_id = "signin-x" /\ starts_with "plugin:" "gemini" = true
    | _ => False
    end) (sg_kept (lab_state lab_done)).
Proof.
  apply (signin_done_kept lab_uuid lab_call false 0 (lab_state lab_done) "signin-x" (lab_handle lab_done)).
  - apply lab_reachable. vm_compute. reflexivity.
  - vm_compute. reflexivity.
  - vm_compute. reflexivity.
Defined.

Lemma background_owned_witness :
  let s := lab_state lab_start in
  0%nat ∈ sg_aborted s \/
  (exists h, sg_pc s (Api 0) = Inserting "signin-x" h /\ th_background h = Some 0%nat) \/
  (exists h, sg_tasks s !! "signin-x" = Some h /\ th_background h = Some 0%nat) \/
  (exists w, 0%nat ∈ stopping (sg_pc s (Api w))).
Proof.
  apply (background_owned lab_uuid lab_call false 0 (lab_state lab_start) 0).
  - apply lab_reachable. vm_compute. reflexivity.
  - split; vm_compute; discriminate.
Defined.

Lemma cancel_final_witness :
  let s := lab_state (lab_start ++ [Arrives 3]) in
  let s' := lab_state (lab_start ++ [Arrives 3; Goes (Api 3); Drops (Bg 0); Goes (Api 3)]) in
  sg_tasks s' !! "signin-x" = None.
Proof.
  cbv zeta.
  apply (cancel_final lab_uuid lab_call false 0 (lab_state (lab_start ++ [Arrives 3])) 3 "signin-x"
           (lab_handle (lab_start ++ [Arrives 3])) [Drops (Bg 0); Goes (Api 3)]).
  - apply lab_reachable. vm_compute. reflexivity.
  - vm_compute. reflexivity.
  - reflexivity.
  - vm_compute. reflexivity.
  - vm_compute. reflexivity.
Defined.

(** A day after the browser came back, and after another paste. *)
Definition lab_pasted_late : list SignEvent :=
  [Ticks (secs 86400); Arrives 1; Goes (Api 1)].

Lemma task_lifecycle_witness :
  match sg_tasks (lab_state lab_done) !! "signin-x" with
  | Some h' => identity h' = identity (lab_handle lab_start) /\ st_state (th_task h') = STATE_DONE
  | None => False
  end /\
  match sg_tasks (lab_state (lab_done ++ lab_pasted_late)) !! "signin-x" with
  | Some h' => th_task h' = th_task (lab_handle lab_done)
  | None => False
  end.
Proof.
  split.
  - pose proof (task_lifecycle lab_uuid lab_call false 0 (lab_state lab_start) (drop 4 lab_done) (lab_state lab_done)
      "signin-x" (lab_handle lab_start)
      ltac:(apply lab_reachable; vm_compute; reflexivity) ltac:(vm_compute; reflexivity) ltac:(vm_compute; reflexivity)) as H.
    assert ((fun h => st_state (th_task h)) <$> sg_tasks (lab_state lab_done) !! "signin-x" = Some STATE_DONE) as Hs
      by (vm_compute; reflexivity).
    destruct (sg_tasks (lab_state lab_done) !! "signin-x") as [h'|]; [|discriminate Hs].
    injection Hs as Hs. split; [exact (proj1 H)|exact Hs].
  - pose proof (task_lifecycle lab_uuid lab_call false 0 (lab_state lab_done) lab_pasted_late
      (lab_state (lab_done ++ lab_pasted_late)) "signin-x" (lab_handle lab_done)
      ltac:(apply lab_reachable; vm_compute; reflexivity) ltac:(vm_compute; reflexivity) ltac:(vm_compute; reflexivity)) as H.
    assert (is_some (sg_tasks (lab_state (lab_done ++ lab_pasted_late)) !! "signin-x") = true) as Hs by (vm_compute; reflexivity).
    destruct (sg_tasks (lab_state (lab_done ++ lab_pasted_late)) !! "signin-x") as [h'|]; [|discriminate Hs].
    apply H; [vm_compute; discriminate|]. intros [[|n]|[|n]]; vm_compute; tauto.
Defined.

Lemma aborted_ends_witness :
  let s := lab_state (lab_start ++ [Arrives 3; Goes (Api 3)]) in
  exists s', sg_run lab_uuid lab_call false 0 (closing 0 (sg_pc s (Bg 0))) s = Some s' /\ sg_pc s' (Bg 0) = Ended.
Proof.
  apply (aborted_ends lab_uuid lab_call false 0 (lab_state (lab_start ++ [Arrives 3; Goes (Api 3)])) 0).
  - apply lab_reachable. vm_compute. reflexivity.
  - split; vm_compute; discriminate.
  - apply (bool_decide_eq_true_1 _). vm_compute. reflexivity.
Defined.
