(* ===== verification/Storage.v ===== *)
(** * The request log database: what is written

    storage/write.rs and storage/maintenance.rs: the narrow row, the body and
    the hourly rollup a served request leaves behind, and the statements that
    delete or rebuild them. A table is a list of rows (the log, in the order
    of its ids) or a map from its primary key; an SQL statement is the function
    on the tables that its text says. A statement can fail by itself, which
    inside a transaction leaves the statements before it in force.

    A count the program stores is an integer of [Z], clamped by [to_i64] where
    the code clamps it. A column of the rollup that is added up past 2^63 turns
    into a float in SQLite; the theorems that add counts up say when the sums
    stay below. *)
From Stdlib Require Import ZArith Lia.
From stdpp Require Import gmap sorting.
From S2P Require Import Prelude.
From S2P Require Import RustStd.
From S2P Require Import Json.
From S2P Require Import Ir.
From S2P Require Import Utf8.
From S2P Require Import Redact.
From S2P Require Import Float64.

Local Open Scope Z_scope.

Definition i64_max : Z := 2 ^ 63 - 1.
(** [i64::try_from(value).unwrap_or(i64::MAX)]. *)
Definition to_i64 (value : Z) : Z := if value <=? i64_max then value else i64_max.
Definition bool_z (b : bool) : Z := if b then 1 else 0.

(** ** The record of a request *)

Inductive ResponseBodyKind : Type :=
  | RbJson (text : string)
  | RbSseLines (lines : list string).

(** [RequestLogRecord]. The trace is only ever written out, as part of the
    record's JSON: it stands here as its JSON text. *)
Record RequestLogRecord := {
  r_request_id : string;
  r_timestamp : string;
  r_client_format : string;
  r_client_id : option string;
  r_session_id : option string;
  r_provider_account : option string;
  r_served_model : option string;
  r_ttft_ms : Z;
  r_cache_unknown : bool;
  r_cost_usd : option f64;
  r_price_version : option string;
  r_decode_ms : Z;
  r_decode_out : Z;
  r_own_ms : Z;
  r_sent_ms : Z;
  r_retried_ms : Z;
  r_queued_ms : Z;
  r_masking_ms : Z;
  r_flow_ms : Z;
  r_attempt : Z;
  r_handed_on : bool;
  r_error : option string;
  r_err_type : option string;
  r_upstream : option string;
  r_effort : option string;
  r_tier_asked : option string;
  r_tier_sent : option string;
  r_tier_served : option string;
  r_subagent : option string;
  r_parent_agent : option string;
  r_kind : option string;
  r_provider : string;
  r_client_model : string;
  r_upstream_model : string;
  r_streaming : bool;
  r_method : string;
  r_path : string;
  r_request_body : option SanitizedBody;
  r_upstream_request_body : option SanitizedBody;
  r_response_status : Z;
  r_response_body : ResponseBodyKind;
  r_latency_ms : Z;
  r_usage : Usage;
  r_trace : option string;
  r_truncated : bool
}.

(** ** The tables *)

(** A row of [request_logs]. *)
Record LogRow := {
  l_id : Z;
  l_request_id : string;
  l_timestamp : string;
  l_client_format : string;
  l_provider : string;
  l_client_model : string;
  l_upstream_model : string;
  l_streaming : bool;
  l_method : string;
  l_path : string;
  l_response_status : Z;
  l_latency_ms : Z;
  l_input_tokens : Z;
  l_output_tokens : Z;
  l_total_tokens : Z;
  l_cache_read_tokens : option Z;
  l_cache_write_tokens : option Z;
  l_reasoning_tokens : option Z;
  l_truncated : bool;
  l_client_id : option string;
  l_session_id : option string;
  l_provider_account : option string;
  l_served_model : option string;
  l_ttft_ms : Z;
  l_cache_unknown : Z;
  l_cache_write_1h : Z;
  l_decode_ms : Z;
  l_decode_out : Z;
  l_cost_usd : option f64;
  l_price_version : option string;
  l_attempt : Z;
  l_handed_on : bool;
  l_error : option string;
  l_err_type : option string;
  l_own_ms : Z;
  l_sent_ms : Z;
  l_retried_ms : Z;
  l_queued_ms : Z;
  l_masking_ms : Z;
  l_flow_ms : Z;
  l_upstream : option string;
  l_effort : option string;
  l_tier_asked : option string;
  l_tier_sent : option string;
  l_tier_served : option string;
  l_subagent : option string;
  l_parent_agent : option string;
  l_kind : option string
}.

(** The values both branches of the insert bind: a row that exists keeps its
    id and takes every other column. *)
Definition log_row (id : Z) (r : RequestLogRecord) : LogRow :=
  {| l_id := id;
     l_request_id := r_request_id r;
     l_timestamp := r_timestamp r;
     l_client_format := r_client_format r;
     l_provider := r_provider r;
     l_client_model := r_client_model r;
     l_upstream_model := r_upstream_model r;
     l_streaming := r_streaming r;
     l_method := r_method r;
     l_path := r_path r;
     l_response_status := r_response_status r;
     l_latency_ms := to_i64 (r_latency_ms r);
     l_input_tokens := to_i64 (input_tokens (r_usage r));
     l_output_tokens := to_i64 (output_tokens (r_usage r));
     l_total_tokens := to_i64 (u64_add (input_tokens (r_usage r)) (output_tokens (r_usage r)));
     l_cache_read_tokens := to_i64 <$> cache_read_tokens (r_usage r);
     l_cache_write_tokens := to_i64 <$> cache_write_tokens (r_usage r);
     l_reasoning_tokens := to_i64 <$> reasoning_tokens (r_usage r);
     l_truncated := r_truncated r;
     l_client_id := r_client_id r;
     l_session_id := r_session_id r;
     l_provider_account := r_provider_account r;
     l_served_model := r_served_model r;
     l_ttft_ms := to_i64 (r_ttft_ms r);
     l_cache_unknown := bool_z (r_cache_unknown r);
     l_cache_write_1h := to_i64 (default 0 (cache_write_1h (r_usage r)));
     l_decode_ms := to_i64 (r_decode_ms r);
     l_decode_out := to_i64 (r_decode_out r);
     l_cost_usd := r_cost_usd r;
     l_price_version := r_price_version r;
     l_attempt := r_attempt r;
     l_handed_on := r_handed_on r;
     l_error := r_error r;
     l_err_type := r_err_type r;
     l_own_ms := to_i64 (r_own_ms r);
     l_sent_ms := to_i64 (r_sent_ms r);
     l_retried_ms := to_i64 (r_retried_ms r);
     l_queued_ms := to_i64 (r_queued_ms r);
     l_masking_ms := to_i64 (r_masking_ms r);
     l_flow_ms := to_i64 (r_flow_ms r);
     l_upstream := r_upstream r;
     l_effort := r_effort r;
     l_tier_asked := r_tier_asked r;
     l_tier_sent := r_tier_sent r;
     l_tier_served := r_tier_served r;
     l_subagent := r_subagent r;
     l_parent_agent := r_parent_agent r;
     l_kind := r_kind r |}.

(** A row of [request_bodies] under its request id. *)
Record BodyRow := { b_record_json : string; b_timestamp : option string }.

(** The counting columns of a row of [rollup_hourly]. *)
Record Counts := {
  c_calls : Z;
  c_errors : Z;
  c_input_tokens : Z;
  c_output_tokens : Z;
  c_cache_read_tokens : Z;
  c_cache_write_tokens : Z;
  c_cache_write_1h : Z;
  c_cache_unknown_tokens : Z;
  c_reasoning_tokens : Z;
  c_latency_sum_ms : Z;
  c_latency_max_ms : Z;
  c_ttft_sum_ms : Z;
  c_ttft_calls : Z;
  c_priced_calls : Z;
  c_retried_calls : Z;
  c_loops : Z;
  c_decode_ms : Z;
  c_decode_out : Z;
  c_decode_n : Z
}.
Definition Counts_default : Counts :=
  Build_Counts 0 0 0 0 0 0 0 0 0 0 0 0 0 0 0 0 0 0 0.

(** The [do update] of the rollup: every column accumulates, the latency
    high-water mark keeps the larger side. *)
Definition counts_add (a b : Counts) : Counts :=
  {| c_calls := c_calls a + c_calls b;
     c_errors := c_errors a + c_errors b;
     c_input_tokens := c_input_tokens a + c_input_tokens b;
     c_output_tokens := c_output_tokens a + c_output_tokens b;
     c_cache_read_tokens := c_cache_read_tokens a + c_cache_read_tokens b;
     c_cache_write_tokens := c_cache_write_tokens a + c_cache_write_tokens b;
     c_cache_write_1h := c_cache_write_1h a + c_cache_write_1h b;
     c_cache_unknown_tokens := c_cache_unknown_tokens a + c_cache_unknown_tokens b;
     c_reasoning_tokens := c_reasoning_tokens a + c_reasoning_tokens b;
     c_latency_sum_ms := c_latency_sum_ms a + c_latency_sum_ms b;
     c_latency_max_ms := Z.max (c_latency_max_ms a) (c_latency_max_ms b);
     c_ttft_sum_ms := c_ttft_sum_ms a + c_ttft_sum_ms b;
     c_ttft_calls := c_ttft_calls a + c_ttft_calls b;
     c_priced_calls := c_priced_calls a + c_priced_calls b;
     c_retried_calls := c_retried_calls a + c_retried_calls b;
     c_loops := c_loops a + c_loops b;
     c_decode_ms := c_decode_ms a + c_decode_ms b;
     c_decode_out := c_decode_out a + c_decode_out b;
     c_decode_n := c_decode_n a + c_decode_n b |}.

Record RollupRow := { ru_counts : Counts; ru_cost_usd : f64 }.
(** bucket, provider, client_model, agent. *)
Definition RollupKey : Type := string * string * string * string.
#[export] Instance RollupKey_eq_dec : EqDecision RollupKey.
Proof. unfold RollupKey. apply _. Defined.
#[export] Instance RollupKey_countable : Countable RollupKey.
Proof. unfold RollupKey. apply _. Defined.

Record Db := {
  request_logs : list LogRow;
  largest_id : Z;
  request_bodies : gmap string BodyRow;
  rollup_hourly : gmap RollupKey RollupRow
}.
Definition empty_db : Db :=
  {| request_logs := []; largest_id := 0; request_bodies := ∅; rollup_hourly := ∅ |}.

(** ** Errors and statements *)

Inductive SqliteError : Type :=
  | SqliteFailure (message : option string)
  | SqliteOther.
Inductive StorageError : Type :=
  | Sqlite (e : SqliteError)
  | StorageJson
  | StoragePool.
#[export] Instance SqliteError_eq_dec : EqDecision SqliteError.
Proof. solve_decision. Defined.
#[export] Instance StorageError_eq_dec : EqDecision StorageError.
Proof. solve_decision. Defined.

Definition is_missing_table (e : StorageError) : bool :=
  match e with
  | Sqlite (SqliteFailure (Some message)) => contains "no such table" message
  | _ => false
  end.

Definition Sql (A : Type) : Type := StM Db StorageError A.

(** One statement: it fails and changes nothing, or does what it says. *)
Definition execute (fault : option StorageError) (change : Db -> Db) : Sql unit :=
  fun db => match fault with Some e => (Err e, db) | None => (Ok tt, change db) end.
(** A transaction that a [?] leaves is rolled back. *)
Definition transaction {A} (body : Sql A) : Sql A :=
  fun db => match body db with (Ok a, db') => (Ok a, db') | (Err e, _) => (Err e, db) end.

(** The statements of [insert_request_log_row], in their order. *)
Inductive Statement : Type := Probe | WriteLog | WriteBody | WriteRollup.
Definition Faults : Type := Statement -> option StorageError.

(** ** The write path *)

(** [record.timestamp.get(..13)]: 13 bytes, unless they end inside a character. *)
Definition get_prefix (n : nat) (s : string) : option string :=
  if (n <=? String.length s)%nat && is_char_boundary s n then Some (String.substring 0 n s) else None.

Definition hour_floor (ts : string) : string :=
  match get_prefix 13 ts with Some prefix => prefix +:+ ":00:00Z" | None => ts end.

Definition rollup_key (r : RequestLogRecord) : RollupKey :=
  (hour_floor (r_timestamp r), r_provider r, r_client_model r, default "" (r_client_id r)).

(** The values [upsert_rollup] binds. *)
Definition rollup_values (r : RequestLogRecord) : Counts :=
  let u := r_usage r in
  let cache_read_tokens := default 0 (cache_read_tokens u) in
  let cache_write_tokens := default 0 (cache_write_tokens u) in
  let cache_unknown_tokens :=
    if r_cache_unknown r then u64_add (u64_add (input_tokens u) cache_read_tokens) cache_write_tokens
    else 0 in
  {| c_calls := 1;
     c_errors := bool_z (400 <=? r_response_status r);
     c_input_tokens := to_i64 (input_tokens u);
     c_output_tokens := to_i64 (output_tokens u);
     c_cache_read_tokens := to_i64 cache_read_tokens;
     c_cache_write_tokens := to_i64 cache_write_tokens;
     c_cache_write_1h := to_i64 (default 0 (cache_write_1h u));
     c_cache_unknown_tokens := to_i64 cache_unknown_tokens;
     c_reasoning_tokens := to_i64 (default 0 (reasoning_tokens u));
     c_latency_sum_ms := to_i64 (r_latency_ms r);
     c_latency_max_ms := to_i64 (r_latency_ms r);
     c_ttft_sum_ms := to_i64 (r_ttft_ms r);
     c_ttft_calls := bool_z (0 <? r_ttft_ms r);
     c_priced_calls := bool_z (is_some (r_cost_usd r));
     c_retried_calls := bool_z ((0 <? r_attempt r) && (r_response_status r <? 400));
     c_loops := bool_z (bool_decide (r_err_type r = Some "loop"));
     c_decode_ms := to_i64 (r_decode_ms r);
     c_decode_out := to_i64 (r_decode_out r);
     c_decode_n := bool_z ((0 <? r_decode_out r) && (0 <? r_decode_ms r)) |}.

Definition fold_rollup (r : RequestLogRecord) (old : option RollupRow) : RollupRow :=
  let cost := default f64_zero (r_cost_usd r) in
  match old with
  | None => {| ru_counts := rollup_values r; ru_cost_usd := cost |}
  | Some row => {| ru_counts := counts_add (ru_counts row) (rollup_values r);
                   ru_cost_usd := f64_add (ru_cost_usd row) cost |}
  end.

Definition set_logs (rows : list LogRow) (largest : Z) (db : Db) : Db :=
  {| request_logs := rows; largest_id := largest;
     request_bodies := request_bodies db; rollup_hourly := rollup_hourly db |}.
Definition set_bodies (bodies : gmap string BodyRow) (db : Db) : Db :=
  {| request_logs := request_logs db; largest_id := largest_id db;
     request_bodies := bodies; rollup_hourly := rollup_hourly db |}.
Definition set_rollup (rollup : gmap RollupKey RollupRow) (db : Db) : Db :=
  {| request_logs := request_logs db; largest_id := largest_id db;
     request_bodies := request_bodies db; rollup_hourly := rollup |}.

Definition upsert_rollup (fault : option StorageError) (r : RequestLogRecord) : Sql unit :=
  execute fault (fun db =>
    set_rollup (partial_alter (fun old => Some (fold_rollup r old)) (rollup_key r) (rollup_hourly db)) db).

Definition log_exists (id : string) (rows : list LogRow) : bool :=
  existsb (fun row => bool_decide (l_request_id row = id)) rows.

Section Writing.
(** [serde_json::to_string] of a record, derived by serde. *)
Variable to_json : RequestLogRecord -> string.
(** The id an [autoincrement] key gives after the largest it ever gave. *)
Variable new_id : Z -> Z.

Definition write_log (r : RequestLogRecord) (db : Db) : Db :=
  if log_exists (r_request_id r) (request_logs db)
  then set_logs (map (fun row => if decide (l_request_id row = r_request_id r)
                                 then log_row (l_id row) r else row) (request_logs db))
         (largest_id db) db
  else set_logs (request_logs db ++ [log_row (new_id (largest_id db)) r]) (new_id (largest_id db)) db.

Definition write_body (r : RequestLogRecord) (db : Db) : Db :=
  set_bodies (<[r_request_id r := {| b_record_json := to_json r; b_timestamp := Some (r_timestamp r) |}]>
                (request_bodies db)) db.

Definition probe (fault : option StorageError) (id : string) : Sql bool :=
  fun db => match fault with
            | Some e => (Err e, db)
            | None => (Ok (log_exists id (request_logs db)), db)
            end.

Definition insert_request_log_row (faults : Faults) (r : RequestLogRecord) : Sql unit :=
  existed ← probe (faults Probe) (r_request_id r);
  _ ← execute (faults WriteLog) (write_log r);
  _ ← execute (faults WriteBody) (write_body r);
  if existed : bool then mret tt else upsert_rollup (faults WriteRollup) r.

(** The loop of [insert_request_logs]: a record that fails is logged and
    skipped. *)
Definition insert_rows (records : list (RequestLogRecord * Faults)) (db : Db) : Db :=
  foldl (fun db '(r, faults) => snd (insert_request_log_row faults r db)) db records.

(** Taking a connection and beginning the transaction can fail, and so can the
    commit, which then keeps nothing. *)
Definition insert_request_logs (begin commit : option StorageError)
    (records : list (RequestLogRecord * Faults)) : Sql unit :=
  match records with
  | [] => mret tt
  | _ :: _ => fun db =>
      match begin, commit with
      | Some e, _ => (Err e, db)
      | None, Some e => (Err e, db)
      | None, None => (Ok tt, insert_rows records db)
      end
  end.
End Writing.

(** The newest records, from their bodies; [from_json] is what serde reads. *)
Definition newer_row (a b : LogRow) : Prop :=
  String.ltb (l_timestamp b) (l_timestamp a) = true \/
  (l_timestamp a = l_timestamp b /\ l_id b <= l_id a).
#[export] Instance newer_row_dec a b : Decision (newer_row a b).
Proof. unfold newer_row. apply _. Defined.

Definition recent_request_logs (from_json : string -> option RequestLogRecord) (limit : Z) (db : Db) :
    result StorageError (list RequestLogRecord) :=
  let bodies := omap (fun row => request_bodies db !! l_request_id row)
                  (merge_sort newer_row (request_logs db)) in
  ok_or StorageJson (mapM (fun b => from_json (b_record_json b)) (firstn (Z.to_nat (to_i64 limit)) bodies)).

(** ** Grouping

    [group by]: the rows under each key, in their order. *)
Section Grouping.
Context {K A : Type} `{Countable K}.

Definition add_to_group (x : A) (group : option (list A)) : option (list A) := Some (x :: default [] group).
Definition group_by (key : A -> K) (rows : list A) : gmap K (list A) :=
  foldr (fun x => partial_alter (add_to_group x) (key x)) ∅ rows.
End Grouping.

(** What the select lists of the readers and of [rebuild_rollup] add up for a
    row of the log. *)
Definition row_counts (row : LogRow) : Counts :=
  let read := default 0 (l_cache_read_tokens row) in
  let write := default 0 (l_cache_write_tokens row) in
  {| c_calls := 1;
     c_errors := if 400 <=? l_response_status row then 1 else 0;
     c_input_tokens := l_input_tokens row;
     c_output_tokens := l_output_tokens row;
     c_cache_read_tokens := read;
     c_cache_write_tokens := write;
     c_cache_write_1h := l_cache_write_1h row;
     c_cache_unknown_tokens := if l_cache_unknown row =? 1 then l_input_tokens row + read + write else 0;
     c_reasoning_tokens := default 0 (l_reasoning_tokens row);
     c_latency_sum_ms := l_latency_ms row;
     c_latency_max_ms := l_latency_ms row;
     c_ttft_sum_ms := l_ttft_ms row;
     c_ttft_calls := if 0 <? l_ttft_ms row then 1 else 0;
     c_priced_calls := bool_z (is_some (l_cost_usd row));
     c_retried_calls := if (0 <? l_attempt row) && (l_response_status row <? 400) then 1 else 0;
     c_loops := if decide (l_err_type row = Some "loop") then 1 else 0;
     c_decode_ms := l_decode_ms row;
     c_decode_out := l_decode_out row;
     c_decode_n := if (0 <? l_decode_out row) && (0 <? l_decode_ms row) then 1 else 0 |}.

Definition sum_counts (l : list Counts) : Counts := foldr counts_add Counts_default l.

(** ** Maintenance *)

(** [substr(s,1,n)] counts characters. *)
Definition substr (n : nat) (s : string) : string := concat_strings (firstn n (chars s)).

Definition row_key (row : LogRow) : RollupKey :=
  (substr 13 (l_timestamp row) +:+ ":00:00Z", l_provider row, l_client_model row, default "" (l_client_id row)).

(** [sum()] over integers fails once it leaves the 64-bit integers. *)
Definition within_i64 : list Z -> bool := forallb (fun n => n <=? i64_max).
(** The aggregates every reader shares, and the decode columns after them. *)
Definition fits_shared (c : Counts) : bool :=
  within_i64
    [c_calls c; c_errors c; c_input_tokens c; c_output_tokens c; c_cache_read_tokens c;
     c_cache_write_tokens c; c_cache_write_1h c; c_cache_unknown_tokens c; c_reasoning_tokens c;
     c_latency_sum_ms c; c_latency_max_ms c; c_ttft_sum_ms c; c_ttft_calls c; c_priced_calls c;
     c_retried_calls c; c_loops c].
Definition fits (c : Counts) : bool :=
  fits_shared c && within_i64 [c_decode_ms c; c_decode_out c; c_decode_n c].
Definition integer_overflow : StorageError := Sqlite (SqliteFailure (Some "integer overflow")).

Section Sums.
(** [sum()] over floats, which SQLite compensates for rounding. *)
Variable sum_real : list f64 -> f64.

Definition rollup_of_rows (rows : list LogRow) : RollupRow :=
  {| ru_counts := sum_counts (map row_counts rows);
     ru_cost_usd := sum_real (map (fun row => default f64_zero (l_cost_usd row)) rows) |}.

Definition rebuilt (db : Db) : gmap RollupKey RollupRow := rollup_of_rows <$> group_by row_key (request_logs db).
Definition all_fit (rows : gmap RollupKey RollupRow) : bool :=
  bool_decide (map_Forall (fun _ row => fits (ru_counts row) = true) rows).

Definition rebuild_rollup (delete insert commit : option StorageError) : Sql Z :=
  transaction (
    _ ← execute delete (set_rollup ∅);
    rows ← gets rebuilt;
    _ ← execute (if all_fit rows then insert else Some integer_overflow) (set_rollup rows);
    _ ← execute commit id;
    mret (Z.of_nat (size rows))).
End Sums.

(** The rows a delete of the log takes, and with them their bodies (foreign
    key cascade). *)
Definition expired_log (cutoff : string) (row : LogRow) : bool := String.ltb (l_timestamp row) cutoff.
Definition delete_logs (cutoff : string) (db : Db) : Db :=
  let gone := filter (fun row => expired_log cutoff row = true) (request_logs db) in
  set_bodies (filter (fun '(id, _) => log_exists id gone = false) (request_bodies db))
    (set_logs (filter (fun row => expired_log cutoff row = false) (request_logs db)) (largest_id db) db).
Definition count_logs (cutoff : string) (db : Db) : Z :=
  Z.of_nat (length (filter (fun row => expired_log cutoff row = true) (request_logs db))).

Definition prune_before (fault : option StorageError) (cutoff : string) : Sql Z :=
  n ← gets (count_logs cutoff); _ ← execute fault (delete_logs cutoff); mret n.

Definition expired_body (cutoff : string) (body : BodyRow) : bool :=
  match b_timestamp body with Some ts => String.ltb ts cutoff | None => false end.
Definition delete_bodies (cutoff : string) (db : Db) : Db :=
  set_bodies (filter (fun '(_, body) => expired_body cutoff body = false) (request_bodies db)) db.
Definition count_bodies (cutoff : string) (db : Db) : Z :=
  Z.of_nat (size (filter (fun '(_, body) => expired_body cutoff body = true) (request_bodies db))).

Definition delete_rollup (cutoff : string) (db : Db) : Db :=
  set_rollup (filter (fun '(key, _) => String.ltb key.1.1.1 cutoff = false) (rollup_hourly db)) db.
Definition count_rollup (cutoff : string) (db : Db) : Z :=
  Z.of_nat (size (filter (fun '(key, _) => String.ltb key.1.1.1 cutoff = true) (rollup_hourly db))).

Record RetentionPolicy := { rollup_days : Z; log_days : Z; body_days : Z }.
Definition RetentionPolicy_default : RetentionPolicy := {| rollup_days := 0; log_days := 30; body_days := 7 |}.
Record RetentionStats := { bodies_deleted : Z; logs_deleted : Z; rollup_deleted : Z }.

Section Retention.
(** chrono's [to_rfc3339_opts(Secs, true)] and [%Y-%m-%dT%H:00:00Z] of an
    instant, in seconds. *)
Variables rfc3339_secs rfc3339_hour : Z -> string.

Definition age_cutoff (now days : Z) : string := rfc3339_secs (now - days * 86400).
Definition hour_floor_cutoff (now days : Z) : string := rfc3339_hour (now - days * 86400).

Definition prune_older_than (fault : option StorageError) (retention_days now : Z) : Sql Z :=
  if retention_days =? 0 then mret 0 else prune_before fault (age_cutoff now retention_days).

(** A layer whose day count is not 0 loses its expired rows. *)
Definition expire (days : Z) (fault : option StorageError) (cutoff : string)
    (count : string -> Db -> Z) (delete : string -> Db -> Db) : Sql Z :=
  if days =? 0 then mret 0
  else (n ← gets (count cutoff); _ ← execute fault (delete cutoff); mret n).

Definition apply_retention (bodies logs rollup commit : option StorageError) (policy : RetentionPolicy) (now : Z) :
    Sql RetentionStats :=
  transaction (
    b ← expire (body_days policy) bodies (age_cutoff now (body_days policy)) count_bodies delete_bodies;
    l ← expire (log_days policy) logs (age_cutoff now (log_days policy)) count_logs delete_logs;
    r ← expire (rollup_days policy) rollup (hour_floor_cutoff now (rollup_days policy)) count_rollup delete_rollup;
    _ ← execute commit id;
    mret {| bodies_deleted := b; logs_deleted := l; rollup_deleted := r |}).
End Retention.

(** * What the tables hold

    The log keeps one row per request id, the rollup the counts of the records
    as they first came in. *)

(** ** Counts add up *)

#[export] Instance counts_add_assoc : Assoc (=) counts_add.
Proof. intros [] [] []. unfold counts_add. cbn. f_equal; lia. Qed.
#[export] Instance counts_add_comm : Comm (=) counts_add.
Proof. intros [] []. unfold counts_add. cbn. f_equal; lia. Qed.

(** The high-water mark starts at 0, so 0 is neutral for counts whose mark is
    not below it. *)
Definition marked (c : Counts) : Prop := 0 <= c_latency_max_ms c.
Lemma counts_add_default c : marked c -> counts_add c Counts_default = c.
Proof. destruct c. unfold marked, counts_add. cbn. intros. f_equal; lia. Qed.

Lemma marked_sum l : Forall marked l -> marked (sum_counts l).
Proof. induction 1 as [|c l Hc _ IH]; unfold marked in *; cbn in *; lia. Qed.

Lemma sum_counts_app l1 l2 : Forall marked l2 -> sum_counts (l1 ++ l2) = counts_add (sum_counts l1) (sum_counts l2).
Proof.
  intros H2. induction l1 as [|c l1 IH]; cbn.
  - rewrite (comm_L counts_add). by rewrite counts_add_default by (by apply marked_sum).
  - unfold sum_counts in IH. rewrite IH. by rewrite (assoc_L counts_add).
Qed.

#[export] Instance sum_counts_perm : Proper ((≡ₚ) ==> (=)) sum_counts.
Proof.
  intros l1 l2 Hl. unfold sum_counts. apply (foldr_permutation (=) counts_add Counts_default); [|done].
  intros _ a _ b c _ _ _. by rewrite !(assoc_L counts_add), (comm_L counts_add a).
Qed.

Lemma sum_counts_concat (ls : list (list Counts)) :
  Forall (Forall marked) ls -> sum_counts (concat ls) = sum_counts (map sum_counts ls).
Proof.
  induction 1 as [|l ls Hl Hls IH]; [done|]. cbn. rewrite sum_counts_app, IH; [done|].
  clear -Hls. induction Hls; cbn; [constructor|by apply list.Forall_app].
Qed.

(** ** Groups *)

Section GroupProps.
Context {K A : Type} `{Countable K}.
Implicit Types (key : A -> K) (rows : list A).

Definition no_empty {B} (l : list B) : option (list B) := match l with [] => None | _ :: _ => Some l end.

Lemma lookup_group_by key rows k :
  group_by key rows !! k = no_empty (filter (fun x => key x = k) rows).
Proof.
  induction rows as [|x rows IH]; [apply lookup_empty|]. cbn [group_by foldr].
  change (foldr (fun x => partial_alter (add_to_group x) (key x)) ∅ rows) with (group_by key rows).
  rewrite filter_cons. destruct (decide (key x = k)) as [<-|Hne].
  - rewrite lookup_partial_alter_eq, IH. unfold add_to_group. by destruct (filter _ rows).
  - by rewrite lookup_partial_alter_ne by done.
Qed.

Lemma group_by_cons key x rows : group_by key (x :: rows) = partial_alter (add_to_group x) (key x) (group_by key rows).
Proof. done. Qed.

(** The groups a condition on the key keeps hold the rows it keeps. *)
Lemma filter_lookup_key {B} (P : K -> Prop) `{!forall k, Decision (P k)} (m : gmap K B) k :
  filter (fun '(k, _) => P k) m !! k = if decide (P k) then m !! k else None.
Proof.
  destruct (decide (P k)) as [HP|HP].
  - destruct (m !! k) as [b|] eqn:E; [by apply map_lookup_filter_Some|by apply map_lookup_filter_None; left].
  - apply map_lookup_filter_None. by right.
Qed.

Lemma add_to_group_rows (x : A) k (m : gmap K (list A)) :
  concat (map snd (map_to_list (partial_alter (add_to_group x) k m))) ≡ₚ x :: concat (map snd (map_to_list m)).
Proof.
  destruct (m !! k) as [g|] eqn:E.
  - assert (partial_alter (add_to_group x) k m = <[k := x :: g]> (delete k m)) as ->.
    { apply map_eq. intros i. destruct (decide (k = i)) as [<-|Hne].
      - by rewrite lookup_partial_alter_eq, lookup_insert_eq, E.
      - by rewrite lookup_partial_alter_ne, lookup_insert_ne, lookup_delete_ne. }
    rewrite <-(insert_delete_id m k g E) at 2.
    rewrite !map_to_list_insert by apply lookup_delete_eq. done.
  - assert (partial_alter (add_to_group x) k m = <[k := [x]]> m) as ->.
    { apply map_eq. intros i. destruct (decide (k = i)) as [<-|Hne].
      - by rewrite lookup_partial_alter_eq, lookup_insert_eq, E.
      - by rewrite lookup_partial_alter_ne, lookup_insert_ne. }
    by rewrite map_to_list_insert by done.
Qed.

Lemma group_by_rows (P : K -> Prop) `{!forall k, Decision (P k)} key rows :
  concat (map snd (map_to_list (filter (fun '(k, _) => P k) (group_by key rows)))) ≡ₚ filter (fun x => P (key x)) rows.
Proof.
  induction rows as [|x rows IH].
  { change (group_by key []) with (∅ : gmap K (list A)). by rewrite map_filter_empty, map_to_list_empty. }
  rewrite group_by_cons, filter_cons. destruct (decide (P (key x))) as [HP|HP]; rewrite <-IH.
  - rewrite <-add_to_group_rows with (k := key x). do 3 f_equiv. apply map_eq. intros k.
    rewrite filter_lookup_key. destruct (decide (key x = k)) as [<-|Hne].
    + by rewrite !lookup_partial_alter_eq, filter_lookup_key, !decide_True.
    + by rewrite !lookup_partial_alter_ne, filter_lookup_key.
  - do 3 f_equiv. apply map_eq. intros k. rewrite !filter_lookup_key.
    destruct (decide (key x = k)) as [<-|Hne]; [by rewrite !decide_False|by rewrite lookup_partial_alter_ne].
Qed.
End GroupProps.

(** ** One request, one bucket *)

Fixpoint ascii_text (s : string) : bool :=
  match s with EmptyString => true | String c s => (byte_val c <? 128) && ascii_text s end.

Lemma ascii_chars s : ascii_text s = true -> chars s = map (fun c => String c "") (String.list_ascii_of_string s).
Proof.
  induction s as [|c s IH]; [done|]. cbn. intros [_ Hs]%andb_true_iff. rewrite (IH Hs).
  destruct s as [|d s]; [done|]. cbn in *. apply andb_true_iff in Hs as [Hd _].
  assert (is_continuation d = false) as ->; [|done].
  unfold is_continuation, between. lia.
Qed.

Lemma ascii_substr n s : ascii_text s = true -> substr n s = String.substring 0 n s.
Proof.
  intros Hs. unfold substr. rewrite (ascii_chars s Hs). clear Hs. revert n.
  induction s as [|c s IH]; intros [|n]; [done..|]. cbn in *. unfold concat_strings in IH. by rewrite IH.
Qed.

Lemma ascii_boundary n s : ascii_text s = true -> (n <= String.length s)%nat -> is_char_boundary s n = true.
Proof.
  intros Hs Hn. destruct n as [|n]; [done|]. unfold is_char_boundary.
  destruct (String.get (S n) s) as [c|] eqn:E.
  - enough ((byte_val c <? 128) = true) by (unfold between; lia).
    clear Hn. revert E Hs. generalize (S n) as i. induction s as [|d s IH]; intros [|i]; [done..|cbn|cbn];
      rewrite andb_true_iff; intros E [Hd Hs]; [by injection E as ->|by eapply IH].
  - apply Nat.eqb_eq. enough (String.length s <= S n)%nat by lia. clear Hn Hs. revert E.
    generalize (S n) as i. induction s as [|d s IH]; intros [|i] E; cbn in *; [lia..|done|]. specialize (IH i E). lia.
Qed.

(** A timestamp the program writes: ASCII, with at least a date and an hour. *)
Definition stamped (ts : string) : bool := ascii_text ts && (13 <=? String.length ts)%nat.

Lemma hour_floor_stamped ts : stamped ts = true -> hour_floor ts = substr 13 ts +:+ ":00:00Z".
Proof.
  intros [Ha Hl]%andb_true_iff. apply Nat.leb_le in Hl. unfold hour_floor, get_prefix.
  rewrite (ascii_substr 13 ts Ha), (ascii_boundary 13 ts Ha Hl).
  by destruct (Nat.leb_spec 13 (String.length ts)); [|lia].
Qed.

(** A record the gateway can have written: counts are not negative, and the
    parts of a prompt add up within 64 bits. *)
Record metered (r : RequestLogRecord) : Prop := {
  m_input : 0 <= input_tokens (r_usage r);
  m_output : 0 <= output_tokens (r_usage r);
  m_read : 0 <= default 0 (cache_read_tokens (r_usage r));
  m_write : 0 <= default 0 (cache_write_tokens (r_usage r));
  m_prompt : input_tokens (r_usage r) + default 0 (cache_read_tokens (r_usage r)) +
             default 0 (cache_write_tokens (r_usage r)) <= i64_max;
  m_write_1h : 0 <= default 0 (cache_write_1h (r_usage r));
  m_reasoning : 0 <= default 0 (reasoning_tokens (r_usage r));
  m_latency : 0 <= r_latency_ms r;
  m_ttft : 0 <= r_ttft_ms r;
  m_decode_ms : 0 <= r_decode_ms r;
  m_decode_out : 0 <= r_decode_out r;
  m_stamp : stamped (r_timestamp r) = true
}.

Lemma to_i64_id n : n <= i64_max -> to_i64 n = n.
Proof. unfold to_i64. intros. destruct (Z.leb_spec n i64_max); lia. Qed.
Lemma to_i64_positive n : (0 <? to_i64 n) = (0 <? n).
Proof. unfold to_i64, i64_max. destruct (Z.leb_spec n (2 ^ 63 - 1)); lia. Qed.
Lemma to_i64_nonneg n : 0 <= n -> 0 <= to_i64 n.
Proof. unfold to_i64, i64_max. destruct (Z.leb_spec n (2 ^ 63 - 1)); lia. Qed.
Lemma default_to_i64 o : default 0 (to_i64 <$> o) = to_i64 (default 0 o).
Proof. by destruct o. Qed.

(** The counts read from a stored row are those the write path adds. *)
Lemma row_counts_written id r : metered r -> row_counts (log_row id r) = rollup_values r.
Proof.
  intros []. unfold row_counts, rollup_values, log_row. cbn. rewrite !default_to_i64, !to_i64_positive.
  rewrite (to_i64_id (input_tokens _)), (to_i64_id (default 0 (cache_read_tokens _))),
    (to_i64_id (default 0 (cache_write_tokens _))) by lia.
  f_equal; try (by destruct (_ <=? _)); try (by destruct (_ <? _)); try (by destruct (_ && _)).
  - destruct (r_cache_unknown r); cbn; [|done].
    rewrite !u64_add_exact by (rewrite ?u64_add_exact; unfold u64_max, i64_max in *; lia). by rewrite to_i64_id.
  - unfold bool_z. by case_decide; case_bool_decide.
Qed.

Lemma row_key_written id r : metered r -> row_key (log_row id r) = rollup_key r.
Proof. intros Hm. unfold row_key, rollup_key. cbn. by rewrite hour_floor_stamped by apply m_stamp, Hm. Qed.

Lemma rollup_values_marked r : metered r -> marked (rollup_values r).
Proof. intros []. unfold marked. cbn. by apply to_i64_nonneg. Qed.

(** ** What a sequence of records leaves *)

Definition has_id (id : string) (rs : list RequestLogRecord) : bool :=
  existsb (fun r => bool_decide (r_request_id r = id)) rs.

(** The records by request id: as they first came, and as they last came. *)
Definition keep_first (seen : list RequestLogRecord) (r : RequestLogRecord) : list RequestLogRecord :=
  if has_id (r_request_id r) seen then seen else seen ++ [r].
Definition keep_last (seen : list RequestLogRecord) (r : RequestLogRecord) : list RequestLogRecord :=
  if has_id (r_request_id r) seen
  then map (fun s => if decide (r_request_id s = r_request_id r) then r else s) seen else seen ++ [r].
Definition first_records : list RequestLogRecord -> list RequestLogRecord := foldl keep_first [].
Definition last_records : list RequestLogRecord -> list RequestLogRecord := foldl keep_last [].

(** The rollup of a list of records: per hour, provider, model and agent, what
    they count. *)
Definition rollup_spec (rs : list RequestLogRecord) : gmap RollupKey Counts :=
  (fun group => sum_counts (map rollup_values group)) <$> group_by rollup_key rs.
Definition rollup_counts (db : Db) : gmap RollupKey Counts := ru_counts <$> rollup_hourly db.

Definition no_fault : Faults := fun _ => None.
Definition all_well (records : list RequestLogRecord) : list (RequestLogRecord * Faults) :=
  map (fun r => (r, no_fault)) records.

Lemma lookup_rollup_spec rs k :
  rollup_spec rs !! k = (fun g => sum_counts (map rollup_values g)) <$> no_empty (filter (fun r => rollup_key r = k) rs).
Proof. unfold rollup_spec. by rewrite lookup_fmap, lookup_group_by. Qed.

Lemma marked_values rs : Forall metered rs -> Forall marked (map rollup_values rs).
Proof. induction 1; cbn; constructor; [by apply rollup_values_marked|done]. Qed.

Lemma rollup_spec_snoc rs r k :
  metered r ->
  rollup_spec (rs ++ [r]) !! k =
  if decide (rollup_key r = k)
  then Some (match rollup_spec rs !! k with Some c => counts_add c (rollup_values r) | None => rollup_values r end)
  else rollup_spec rs !! k.
Proof.
  intros Hm. pose proof (rollup_values_marked r Hm) as Hmk.
  rewrite !lookup_rollup_spec, list.filter_app, filter_cons, filter_nil. destruct (decide (rollup_key r = k)) as [Hk|Hk].
  - destruct (filter _ rs) as [|x g]; cbn [app no_empty fmap option_fmap option_map].
    + cbn [map]. unfold sum_counts. cbn [foldr]. by rewrite counts_add_default.
    + change (map rollup_values (x :: g ++ [r])) with (map rollup_values ((x :: g) ++ [r])).
      rewrite map_app, sum_counts_app by (by repeat constructor). cbn [map]. unfold sum_counts at 2. cbn [foldr].
      by rewrite counts_add_default.
  - by rewrite app_nil_r.
Qed.

Lemma log_exists_rows id ids rs :
  length ids = length rs -> log_exists id (zip_with log_row ids rs) = has_id id rs.
Proof.
  revert ids. induction rs as [|r rs IH]; intros [|i ids]; [done..|]. cbn. intros Hl. f_equal. apply IH. lia.
Qed.

Lemma has_id_app id rs r : has_id id (rs ++ [r]) = has_id id rs || bool_decide (r_request_id r = id).
Proof. unfold has_id. by rewrite existsb_app; cbn; rewrite orb_false_r. Qed.

Lemma has_id_keep_last id rs r :
  has_id id (keep_last rs r) = has_id id rs || bool_decide (r_request_id r = id).
Proof.
  unfold keep_last. destruct (has_id (r_request_id r) rs) eqn:E; [|apply has_id_app].
  unfold has_id in *. destruct (decide (r_request_id r = id)) as [<-|Hne].
  - rewrite (bool_decide_eq_true_2 _ eq_refl), orb_true_r. clear -E. induction rs as [|s rs IH]; [done|].
    cbn in *. case_decide as Hd; cbn; [by rewrite (bool_decide_eq_true_2 _ eq_refl)|].
    rewrite (bool_decide_eq_false_2 _ Hd) in *. cbn in *. by apply IH.
  - rewrite (bool_decide_eq_false_2 _ Hne), orb_false_r. clear E. induction rs as [|s rs IH]; [done|].
    cbn. rewrite IH. f_equal. case_decide as Hd; [|done]. by rewrite Hd.
Qed.

Lemma has_id_keep_first id rs r :
  has_id id (keep_first rs r) = has_id id rs || bool_decide (r_request_id r = id).
Proof.
  unfold keep_first. destruct (has_id (r_request_id r) rs) eqn:E; [|apply has_id_app].
  destruct (decide (r_request_id r = id)) as [<-|Hne]; [by rewrite E|].
  by rewrite (bool_decide_eq_false_2 _ Hne), orb_false_r.
Qed.

Lemma has_id_first_last id rs : has_id id (first_records rs) = has_id id (last_records rs).
Proof.
  unfold first_records, last_records. induction rs as [|r rs IH] using rev_ind; [done|].
  rewrite !foldl_app; cbn [foldl]; by rewrite has_id_keep_first, has_id_keep_last, IH.
Qed.

Definition find_id (id : string) (rs : list RequestLogRecord) : option RequestLogRecord :=
  find (fun r => bool_decide (r_request_id r = id)) rs.

Lemma find_id_cons id r rs : find_id id (r :: rs) = if decide (r_request_id r = id) then Some r else find_id id rs.
Proof. unfold find_id. cbn. by case_bool_decide; case_decide. Qed.

Lemma find_keep_last id rs r :
  find_id id (keep_last rs r) = if decide (r_request_id r = id) then Some r else find_id id rs.
Proof.
  unfold keep_last. destruct (has_id (r_request_id r) rs) eqn:E; unfold has_id in E.
  - destruct (decide (r_request_id r = id)) as [<-|Hne].
    + induction rs as [|s rs IH]; [done|]. cbn [map existsb] in *. rewrite find_id_cons.
      destruct (decide (r_request_id s = r_request_id r)) as [Hs|Hs]; [by rewrite decide_True|].
      rewrite decide_False by done. apply IH. by rewrite (bool_decide_eq_false_2 _ Hs) in E.
    + clear E. induction rs as [|s rs IH]; [done|]. cbn [map]. rewrite !find_id_cons, IH.
      destruct (decide (r_request_id s = r_request_id r)) as [Hs|Hs]; [|done]. by rewrite !decide_False by congruence.
  - induction rs as [|s rs IH]; cbn [app existsb] in *; rewrite !find_id_cons; [done|].
    apply orb_false_iff in E as [Hs%bool_decide_eq_false Hrs]. rewrite (IH Hrs).
    destruct (decide (r_request_id s = id)) as [<-|Hne]; [by rewrite decide_False by congruence|done].
Qed.

Section Writes.
Context (to_json : RequestLogRecord -> string) (new_id : Z -> Z).
Hypothesis new_id_above : forall largest, largest < new_id largest.

Definition body_row (r : RequestLogRecord) : BodyRow :=
  {| b_record_json := to_json r; b_timestamp := Some (r_timestamp r) |}.

(** The tables after the records [rs]. *)
Record Holds (db : Db) (rs : list RequestLogRecord) : Prop := {
  h_logs : exists ids, StronglySorted Z.lt ids /\ Forall (fun id => id <= largest_id db) ids /\
             length ids = length (last_records rs) /\
             request_logs db = zip_with log_row ids (last_records rs);
  h_bodies : forall id, request_bodies db !! id = body_row <$> find_id id (last_records rs);
  h_rollup : rollup_counts db = rollup_spec (first_records rs)
}.

Lemma sorted_snoc (ids : list Z) n :
  StronglySorted Z.lt ids -> Forall (fun id => id < n) ids -> StronglySorted Z.lt (ids ++ [n]).
Proof.
  induction 1 as [|i ids Hs IH Hi]; intros Hn; cbn; [by repeat constructor|]. inversion_clear Hn.
  constructor; [by apply IH|]. apply list.Forall_app. split; [done|by repeat constructor].
Qed.

Lemma updated_rows ids rs r :
  length ids = length rs ->
  map (fun row => if decide (l_request_id row = r_request_id r) then log_row (l_id row) r else row)
    (zip_with log_row ids rs) =
  zip_with log_row ids (map (fun s => if decide (r_request_id s = r_request_id r) then r else s) rs).
Proof.
  revert ids. induction rs as [|s rs IH]; intros [|i ids]; [done..|]. cbn. intros Hl.
  rewrite IH by lia. f_equal. by case_decide.
Qed.

Lemma insert_no_fault db r :
  insert_request_log_row to_json new_id no_fault r db =
  (Ok tt, let db' := write_body to_json r (write_log new_id r db) in
          if log_exists (r_request_id r) (request_logs db) then db'
          else set_rollup (partial_alter (fun old => Some (fold_rollup r old)) (rollup_key r) (rollup_hourly db')) db').
Proof.
  unfold insert_request_log_row, mbind, stm_bind, probe, execute, no_fault.
  by destruct (log_exists (r_request_id r) (request_logs db)).
Qed.

Lemma inserted_logs db r :
  request_logs (snd (insert_request_log_row to_json new_id no_fault r db)) = request_logs (write_log new_id r db) /\
  largest_id (snd (insert_request_log_row to_json new_id no_fault r db)) = largest_id (write_log new_id r db).
Proof. rewrite insert_no_fault. cbn. by destruct (log_exists (r_request_id r) (request_logs db)). Qed.

Lemma write_log_keeps db r :
  request_bodies (write_log new_id r db) = request_bodies db /\ rollup_hourly (write_log new_id r db) = rollup_hourly db.
Proof. unfold write_log. by destruct (log_exists (r_request_id r) (request_logs db)). Qed.

Lemma inserted_bodies db r :
  request_bodies (snd (insert_request_log_row to_json new_id no_fault r db)) =
  <[r_request_id r := body_row r]> (request_bodies db).
Proof.
  destruct (write_log_keeps db r) as [Hb _].
  rewrite insert_no_fault. cbn. destruct (log_exists (r_request_id r) (request_logs db)); cbn; by rewrite Hb.
Qed.

Lemma inserted_rollup db r :
  rollup_hourly (snd (insert_request_log_row to_json new_id no_fault r db)) =
  if log_exists (r_request_id r) (request_logs db) then rollup_hourly db
  else partial_alter (fun old => Some (fold_rollup r old)) (rollup_key r) (rollup_hourly db).
Proof.
  destruct (write_log_keeps db r) as [_ Hr].
  rewrite insert_no_fault. cbn. destruct (log_exists (r_request_id r) (request_logs db)); cbn; by rewrite Hr.
Qed.

Lemma holds_insert db rs r :
  metered r -> Forall metered rs -> Holds db rs ->
  Holds (snd (insert_request_log_row to_json new_id no_fault r db)) (rs ++ [r]).
Proof using new_id_above.
  intros Hm Hms [(ids & Hs & Hle & Hlen & Hlogs) Hbodies Hrollup].
  assert (log_exists (r_request_id r) (request_logs db) = has_id (r_request_id r) (last_records rs)) as Hex
    by (rewrite Hlogs; by apply log_exists_rows).
  assert (last_records (rs ++ [r]) = keep_last (last_records rs) r) as Hlast by (unfold last_records; by rewrite foldl_app).
  assert (first_records (rs ++ [r]) = keep_first (first_records rs) r) as Hfirst by (unfold first_records; by rewrite foldl_app).
  split.
  - destruct (inserted_logs db r) as [-> ->]. rewrite Hlast. unfold write_log, keep_last. rewrite Hex, Hlogs.
    destruct (has_id (r_request_id r) (last_records rs)); cbn.
    + exists ids. rewrite length_map. split_and!; [done..|]. by apply updated_rows.
    + exists (ids ++ [new_id (largest_id db)]). pose proof (new_id_above (largest_id db)). split_and!.
      * apply sorted_snoc; [done|]. eapply Forall_impl; [|exact Hle]. cbn. lia.
      * apply list.Forall_app. split; [|by repeat constructor]. eapply Forall_impl; [|exact Hle]. cbn. lia.
      * rewrite !length_app. cbn. lia.
      * rewrite zip_with_app by done. done.
  - intros id. rewrite inserted_bodies, Hlast, find_keep_last. destruct (decide (r_request_id r = id)) as [<-|Hne].
    + by rewrite lookup_insert_eq.
    + by rewrite lookup_insert_ne by done.
  - unfold rollup_counts in *. rewrite inserted_rollup, Hex, Hfirst. unfold keep_first.
    rewrite has_id_first_last. destruct (has_id (r_request_id r) (last_records rs)); [done|]. apply map_eq. intros k.
    rewrite rollup_spec_snoc by done. rewrite <-Hrollup, !lookup_fmap.
    destruct (decide (rollup_key r = k)) as [<-|Hne].
    + rewrite lookup_partial_alter_eq. by destruct (rollup_hourly db !! rollup_key r).
    + by rewrite lookup_partial_alter_ne.
Qed.

Lemma holds_rows rs : Forall metered rs -> Holds (insert_rows to_json new_id (all_well rs) empty_db) rs.
Proof using new_id_above.
  induction rs as [|r rs IH] using rev_ind; intros Hm.
  - split; [exists []; by repeat constructor|done|done].
  - apply list.Forall_app in Hm as [Hms Hm%List.Forall_inv]. unfold all_well, insert_rows in *.
    rewrite map_app, foldl_app. cbn. apply holds_insert; [done..|by apply IH].
Qed.
End Writes.

(** ** The theorems *)

Definition batch (to_json : RequestLogRecord -> string) (new_id : Z -> Z) (rs : list RequestLogRecord) (db : Db) : Db :=
  snd (insert_request_logs to_json new_id None None (all_well rs) db).

Lemma batches_rows to_json new_id batches : forall db,
  foldl (fun db rs => batch to_json new_id rs db) db batches = insert_rows to_json new_id (all_well (concat batches)) db.
Proof.
  induction batches as [|b bs IH]; intros db; [done|]. cbn [foldl concat]. rewrite IH.
  unfold all_well, insert_rows. rewrite map_app, foldl_app. f_equal. unfold batch, insert_request_logs. by destruct b.
Qed.

(** C17: whatever the batches, the log has one row per request id, in the order
    the ids first came, with the values of the record that came last; the body
    is that of the record that came last; and the rollup counts each request
    once, by the record that came first: per hour, provider, model and agent it
    holds exactly what a reference grouping of those records adds up to. *)
Theorem tables_hold (to_json : RequestLogRecord -> string) (new_id : Z -> Z) (batches : list (list RequestLogRecord)) :
  (forall largest, largest < new_id largest) ->
  Forall (Forall metered) batches ->
  let db := foldl (fun db rs => batch to_json new_id rs db) empty_db batches in
  let rs := concat batches in
  (exists ids, StronglySorted Z.lt ids /\ length ids = length (last_records rs) /\
     request_logs db = zip_with log_row ids (last_records rs)) /\
  (forall id, request_bodies db !! id = body_row to_json <$> find_id id (last_records rs)) /\
  rollup_counts db = rollup_spec (first_records rs).
Proof.
  intros Hid Hm db rs.
  subst db. rewrite batches_rows.
  assert (Forall metered rs) as Hrs.
  { subst rs. clear -Hm. induction Hm; cbn; [constructor|by apply list.Forall_app]. }
  destruct (holds_rows to_json new_id Hid rs Hrs) as [(ids & Hs & _ & Hl & Heq) Hb Hr]. eauto 6.
Qed.

Lemma rebuilt_counts ids rs :
  Forall metered rs -> length ids = length rs ->
  (fun rows => sum_counts (map row_counts rows)) <$> group_by row_key (zip_with log_row ids rs) = rollup_spec rs.
Proof.
  intros Hm Hl. apply map_eq. intros k. rewrite lookup_rollup_spec, lookup_fmap, lookup_group_by.
  assert (forall k, map row_counts (filter (fun row => row_key row = k) (zip_with log_row ids rs)) =
            map rollup_values (filter (fun r => rollup_key r = k) rs)) as Heq.
  { clear k. intros k. revert ids Hl. induction Hm as [|r rs Hr _ IH]; intros [|i ids] Hl; [done..|].
    cbn [zip_with]. rewrite !filter_cons, (row_key_written i r Hr). injection Hl as Hl.
    destruct (decide (rollup_key r = k)); cbn [map]; [|by apply IH]. by rewrite row_counts_written, IH. }
  specialize (Heq k). destruct (filter _ (zip_with _ _ _)) as [|row rows], (filter _ rs) as [|r' rs']; cbn [map] in Heq;
    [done|done|done|]. cbn [no_empty fmap option_fmap option_map]. cbn [map]. by rewrite Heq.
Qed.

Lemma last_records_metered rs : Forall metered rs -> Forall metered (last_records rs).
Proof.
  unfold last_records. induction rs as [|r rs IH] using rev_ind; [done|]. intros [Hrs Hr%List.Forall_inv]%list.Forall_app.
  rewrite foldl_app. cbn [foldl]. specialize (IH Hrs). revert IH. generalize (foldl keep_last [] rs) as seen.
  intros seen IH. unfold keep_last. destruct (has_id (r_request_id r) seen).
  - induction IH as [|x seen Hx _ IH]; cbn [map]; [done|]. apply List.Forall_cons; [by case_decide|done].
  - apply list.Forall_app. split; [done|]. by apply List.Forall_cons.
Qed.

Lemma distinct_records rs :
  NoDup (map r_request_id rs) -> first_records rs = rs /\ last_records rs = rs.
Proof.
  unfold first_records, last_records. induction rs as [|r rs IH] using rev_ind; [done|].
  rewrite map_app. intros (Hrs & Hr & _)%list.NoDup_app. destruct (IH Hrs) as [Hf Hl].
  rewrite !foldl_app, Hf, Hl. cbn [foldl]. unfold keep_first, keep_last.
  assert (has_id (r_request_id r) rs = false) as ->; [|done].
  unfold has_id. apply not_true_iff_false. rewrite existsb_exists. intros (s & Hs & Heq%bool_decide_eq_true).
  apply (Hr (r_request_id s)); [by apply list_elem_of_fmap_2, list_elem_of_In|rewrite Heq; by left].
Qed.

(** C30: [rebuild_rollup] turns the rollup into the counts of the log as it now
    is (the records as they came last), and when no request id came twice it
    leaves every count as the write path had it. *)
Theorem rebuild_reconciles (to_json : RequestLogRecord -> string) (new_id : Z -> Z) (sum_real : list f64 -> f64)
    (rs : list RequestLogRecord) :
  (forall largest, largest < new_id largest) ->
  Forall metered rs ->
  map_Forall (fun _ c => fits c = true) (rollup_spec (last_records rs)) ->
  let db := batch to_json new_id rs empty_db in
  exists db', rebuild_rollup sum_real None None None db = (Ok (Z.of_nat (size (rollup_spec (last_records rs)))), db') /\
    request_logs db' = request_logs db /\
    rollup_counts db' = rollup_spec (last_records rs) /\
    (NoDup (map r_request_id rs) -> rollup_counts db' = rollup_counts db).
Proof.
  intros Hid Hm Hfit db.
  assert (Holds to_json db rs) as [(ids & _ & _ & Hl & Hlogs) _ Hru].
  { subst db. pose proof (holds_rows to_json new_id Hid rs Hm) as Hh.
    unfold batch, insert_request_logs. by destruct rs. }
  assert (ru_counts <$> rebuilt sum_real db = rollup_spec (last_records rs)) as Hre.
  { unfold rebuilt. rewrite <-map_fmap_compose, Hlogs.
    apply (rebuilt_counts ids (last_records rs)); [by apply last_records_metered|done]. }
  assert (all_fit (rebuilt sum_real db) = true) as Hall.
  { unfold all_fit. apply bool_decide_eq_true. rewrite <-Hre in Hfit. by apply map_Forall_fmap in Hfit. }
  exists (set_rollup (rebuilt sum_real db) db). split_and!; [|done|done|].
  - unfold rebuild_rollup, transaction, mbind, stm_bind, execute, gets, mret, stm_ret.
    assert (rebuilt sum_real (set_rollup ∅ db) = rebuilt sum_real db) as -> by done.
    rewrite Hall, <-Hre, map_size_fmap. done.
  - intros Hnd. destruct (distinct_records rs Hnd) as [Hf Hla]. rewrite Hf in Hru. rewrite Hla in Hre. unfold rollup_counts in *. by rewrite Hru.
Qed.

(** ** Whatever fails

    One operation on the database, with any statement failing. *)
Section Reach.
Context (to_json : RequestLogRecord -> string) (new_id : Z -> Z) (sum_real : list f64 -> f64).
Context (rfc3339_secs rfc3339_hour : Z -> string).

Inductive Step (db : Db) : Db -> Prop :=
  | Step_insert begin commit records :
      Step db (snd (insert_request_logs to_json new_id begin commit records db))
  | Step_prune fault days now : Step db (snd (prune_older_than rfc3339_secs fault days now db))
  | Step_retain bodies logs rollup commit policy now :
      Step db (snd (apply_retention rfc3339_secs rfc3339_hour bodies logs rollup commit policy now db))
  | Step_rebuild delete insert commit : Step db (snd (rebuild_rollup sum_real delete insert commit db)).

Record Sound (db : Db) : Prop := {
  s_ids : StronglySorted Z.lt (map l_id (request_logs db));
  s_largest : Forall (fun row => l_id row <= largest_id db) (request_logs db);
  s_requests : NoDup (map l_request_id (request_logs db));
  s_bodies : forall id, is_Some (request_bodies db !! id) -> log_exists id (request_logs db) = true
}.

Hypothesis new_id_above : forall largest, largest < new_id largest.

Lemma log_exists_spec id rows : log_exists id rows = true <-> id ∈ map l_request_id rows.
Proof.
  unfold log_exists. rewrite existsb_exists. setoid_rewrite bool_decide_eq_true. split.
  - intros (row & Hrow & <-). by apply list_elem_of_fmap_2, list_elem_of_In.
  - intros (row & -> & Hrow)%list_elem_of_fmap. exists row. by rewrite <-list_elem_of_In.
Qed.

Lemma sound_write_log r db : Sound db -> Sound (write_log new_id r db).
Proof using new_id_above.
  intros [Hs Hl Hr Hb]. unfold write_log. pose proof (new_id_above (largest_id db)).
  destruct (log_exists (r_request_id r) (request_logs db)) eqn:E.
  - set (f := fun row => if decide (l_request_id row = r_request_id r) then log_row (l_id row) r else row).
    assert (forall rows, map l_id (map f rows) = map l_id rows /\ map l_request_id (map f rows) = map l_request_id rows) as Hf.
    { induction rows as [|row rows [IH1 IH2]]; [done|]. cbn [map]. rewrite IH1, IH2. unfold f.
      case_decide as Hd; cbn; [by rewrite Hd|done]. }
    destruct (Hf (request_logs db)) as [H1 H2]. split; cbn; [by rewrite H1| |by rewrite H2|].
    + apply Forall_map. eapply Forall_impl; [|exact Hl]. cbn. intros row. unfold f. by case_decide.
    + intros id Hid. apply log_exists_spec. rewrite H2. by apply log_exists_spec, Hb.
  - split; cbn.
    + rewrite map_app. cbn. apply sorted_snoc; [done|]. apply Forall_map. eapply Forall_impl; [|exact Hl]. cbn. lia.
    + apply list.Forall_app. split; [eapply Forall_impl; [|exact Hl]; cbn; lia|]. apply List.Forall_cons; [cbn; lia|done].
    + rewrite map_app. apply list.NoDup_app. split_and!; [done| |by apply NoDup_singleton].
      intros id Hid ->%list_elem_of_singleton. apply log_exists_spec in Hid. cbn in Hid. by rewrite E in Hid.
    + intros id Hid%Hb. apply log_exists_spec. rewrite map_app. apply elem_of_app. left. by apply log_exists_spec.
Qed.

Lemma write_log_exists r db : log_exists (r_request_id r) (request_logs (write_log new_id r db)) = true.
Proof.
  unfold write_log. destruct (log_exists (r_request_id r) (request_logs db)) eqn:E; apply log_exists_spec; cbn.
  - apply log_exists_spec in E. apply list_elem_of_fmap in E as (row & Hrow & Hin).
    apply list_elem_of_fmap. exists (log_row (l_id row) r). split; [done|].
    apply list_elem_of_fmap. exists row. by rewrite decide_True by done.
  - rewrite map_app. apply elem_of_app. right. by left.
Qed.

Lemma sound_same db db' :
  request_logs db' = request_logs db -> largest_id db' = largest_id db -> request_bodies db' = request_bodies db ->
  Sound db -> Sound db'.
Proof. intros H1 H2 H3 []. by split; rewrite ?H1, ?H2, ?H3. Qed.

Lemma sound_write_body r db :
  log_exists (r_request_id r) (request_logs db) = true -> Sound db -> Sound (write_body to_json r db).
Proof.
  intros Hr [Hs Hl Hd Hb]. split; [done..|]. intros id. cbn. destruct (decide (r_request_id r = id)) as [<-|Hne]; [done|].
  rewrite lookup_insert_ne by done. apply Hb.
Qed.

Lemma sound_insert_row faults r db : Sound db -> Sound (snd (insert_request_log_row to_json new_id faults r db)).
Proof using new_id_above.
  intros Hs. unfold insert_request_log_row, mbind, stm_bind, probe, execute.
  destruct (faults Probe); [done|]. destruct (faults WriteLog); [done|].
  pose proof (sound_write_log r db Hs) as Hl. destruct (faults WriteBody); [done|].
  pose proof (sound_write_body r _ (write_log_exists r db) Hl) as Hb.
  destruct (log_exists (r_request_id r) (request_logs db)); [done|].
  unfold upsert_rollup, execute. destruct (faults WriteRollup); [done|].
  by apply (sound_same (write_body to_json r (write_log new_id r db))).
Qed.

Lemma log_exists_filter (p : LogRow -> bool) id rows :
  log_exists id (filter (fun row => p row = true) rows) = false -> log_exists id rows = true ->
  log_exists id (filter (fun row => p row = false) rows) = true.
Proof.
  intros Hgone Hid. apply log_exists_spec in Hid. apply list_elem_of_fmap in Hid as (row & -> & Hrow).
  apply log_exists_spec, list_elem_of_fmap. exists row. split; [done|]. apply list_elem_of_filter. split; [|done].
  destruct (p row) eqn:E; [|done]. exfalso. apply not_true_iff_false in Hgone. apply Hgone, log_exists_spec, list_elem_of_fmap.
  exists row. split; [done|]. by apply list_elem_of_filter.
Qed.

Lemma sorted_filter (p : LogRow -> bool) rows :
  StronglySorted Z.lt (map l_id rows) -> StronglySorted Z.lt (map l_id (filter (fun row => p row = true) rows)).
Proof.
  induction rows as [|row rows IH]; [done|]. rewrite filter_cons. cbn [map]. inversion_clear 1 as [|? ? Hs Hrow].
  destruct (decide (p row = true)); [|by apply IH]. cbn [map]. constructor; [by apply IH|].
  rewrite List.Forall_forall in *. intros id (r & <- & Hin%list_elem_of_In)%in_map_iff.
  apply list_elem_of_filter in Hin as [_ Hin%list_elem_of_In]. apply Hrow. by apply in_map.
Qed.

Lemma nodup_filter (p : LogRow -> bool) rows :
  NoDup (map l_request_id rows) -> NoDup (map l_request_id (filter (fun row => p row = true) rows)).
Proof.
  induction rows as [|row rows IH]; [done|]. rewrite filter_cons. cbn [map]. inversion_clear 1 as [|? ? Hrow Hs].
  destruct (decide (p row = true)); [|by apply IH]. cbn [map]. constructor; [|by apply IH].
  intros Hin. apply Hrow. apply list_elem_of_fmap in Hin as (r & -> & [_ Hin]%list_elem_of_filter).
  by apply list_elem_of_fmap_2.
Qed.

Lemma filter_false {A} (p : A -> bool) (l : list A) :
  filter (fun x => p x = false) l = filter (fun x => negb (p x) = true) l.
Proof. apply list_filter_iff. intros x. by destruct (p x). Qed.

Lemma sound_delete_logs cutoff db : Sound db -> Sound (delete_logs cutoff db).
Proof.
  intros [Hs Hl Hd Hb]. split; cbn.
  - rewrite filter_false. by apply (sorted_filter (fun row => negb (expired_log cutoff row))).
  - rewrite List.Forall_forall in *. intros row Hrow%list_elem_of_In. apply list_elem_of_filter in Hrow as [_ Hrow%list_elem_of_In].
    by apply Hl.
  - rewrite filter_false. by apply (nodup_filter (fun row => negb (expired_log cutoff row))).
  - intros id [body [Hbody Hgone]%map_lookup_filter_Some]. apply log_exists_filter; [done|]. by apply Hb.
Qed.

Lemma sound_fewer_bodies db bodies : bodies ⊆ request_bodies db -> Sound db -> Sound (set_bodies bodies db).
Proof.
  intros Hsub [Hs Hl Hd Hb]. split; [done..|]. intros id [b Hid]. cbn in Hid. apply Hb. exists b.
  by eapply lookup_weaken.
Qed.

Lemma sound_expire days fault cutoff count delete db :
  (forall db, Sound db -> Sound (delete cutoff db)) -> Sound db ->
  Sound (snd (expire days fault cutoff count delete db)).
Proof.
  intros Hdel Hs. unfold expire, mbind, stm_bind, gets, execute. destruct (days =? 0); [done|]. destruct fault; [done|].
  by apply Hdel.
Qed.

Lemma sound_bind {A B} (m : Sql A) (f : A -> Sql B) db :
  Sound (snd (m db)) -> (forall a db, Sound db -> Sound (snd (f a db))) -> Sound (snd ((m ≫= f) db)).
Proof.
  unfold mbind, stm_bind. destruct (m db) as [[a|e] db']; cbn; [|done]. intros H Hf. by apply Hf.
Qed.

Lemma sound_transaction {A} (body : Sql A) db :
  Sound db -> Sound (snd (body db)) -> Sound (snd (transaction body db)).
Proof. unfold transaction. by destruct (body db) as [[a|e] db']. Qed.

Lemma sound_execute fault change db : Sound db -> Sound (change db) -> Sound (snd (execute fault change db)).
Proof. unfold execute. by destruct fault. Qed.

Lemma sound_step db db' : Sound db -> Step db db' -> Sound db'.
Proof using new_id_above.
  intros Hs. destruct 1 as [begin commit records|fault days now|bodies logs rollup commit policy now|delete insert commit].
  - unfold insert_request_logs. destruct records as [|x records]; [done|]. destruct begin; [done|]. destruct commit; [done|].
    cbn [snd]. generalize (x :: records). clear x records. intros records. unfold insert_rows. revert db Hs.
    induction records as [|[r faults] records IH]; intros db Hs; [done|]. cbn [foldl]. by apply IH, sound_insert_row.
  - unfold prune_older_than. destruct (days =? 0); [done|]. unfold prune_before, mbind, stm_bind, gets, execute.
    destruct fault; [done|]. by apply sound_delete_logs.
  - unfold apply_retention. apply sound_transaction; [done|].
    apply sound_bind; [apply sound_expire; [|done]|intros b db1 H1; apply sound_bind; [apply sound_expire; [|done]|intros l db2 H2; apply sound_bind; [apply sound_expire; [|done]|intros r db3 H3; apply sound_bind; [by apply sound_execute|done]]]].
    + intros d. apply sound_fewer_bodies, map_filter_subseteq.
    + intros d. apply sound_delete_logs.
    + intros d. by apply sound_same.
  - unfold rebuild_rollup. apply sound_transaction; [done|].
    apply sound_bind; [by apply sound_execute, (sound_same db)|].
    intros [] db1 H1. apply sound_bind; [done|]. intros rows db2 H2. apply sound_bind; [by apply sound_execute, (sound_same db2)|].
    intros [] db3 H3. by apply sound_bind; [apply sound_execute|].
Qed.

(** C24: whatever statements fail, and however writing, pruning, retention and
    rebuilding are interleaved, the ids of the log ascend, below the largest id
    ever given; no request id is logged twice; and no body is left without its
    row in the log. *)
Theorem db_sound db : rtc Step empty_db db -> Sound db.
Proof using new_id_above.
  intros Hr. assert (Sound empty_db) as Hs.
  { split; cbn; try constructor. intros id [b Hb]. by rewrite lookup_empty in Hb. }
  revert Hs. induction Hr as [|x y z Hstep _ IH]; [done|]. intros Hs. by apply IH, (sound_step x).
Qed.
End Reach.

(** ** Retention *)

Section RetentionProps.
Context (rfc3339_secs rfc3339_hour : Z -> string).

(** A layer the policy keeps forever, or an entry the cutoff spares. *)
Definition spared (days : Z) (expired : bool) : bool := (days =? 0) || negb expired.

Lemma expire_ok days fault cutoff count delete db n db' :
  expire days fault cutoff count delete db = (Ok n, db') ->
  (n = if days =? 0 then 0 else count cutoff db) /\ (db' = if days =? 0 then db else delete cutoff db).
Proof.
  unfold expire, mbind, stm_bind, gets, execute. destruct (days =? 0); [by intros [= <- <-]|].
  destruct fault; [done|]. by intros [= <- <-].
Qed.

Lemma filter_spared {A} days (p : A -> bool) (l : list A) :
  filter (fun x => spared days (p x) = true) l = if days =? 0 then l else filter (fun x => p x = false) l.
Proof.
  unfold spared. destruct (days =? 0); cbn [orb]; [|by rewrite filter_false].
  induction l as [|x l IH]; [done|]. by rewrite filter_cons, decide_True, IH.
Qed.

Lemma bind_ok {A B} (m : Sql A) (f : A -> Sql B) db b db' :
  (m ≫= f) db = (Ok b, db') -> exists a db1, m db = (Ok a, db1) /\ f a db1 = (Ok b, db').
Proof. unfold mbind, stm_bind. destruct (m db) as [[a|e] db1]; [eauto|done]. Qed.

Lemma transaction_inv {A} (body : Sql A) db res db' :
  transaction body db = (res, db') -> match res with Ok a => body db = (Ok a, db') | Err _ => db' = db end.
Proof. unfold transaction. destruct (body db) as [[a|e] d]; by intros [= <- <-]. Qed.

(** A retention pass is all or nothing. When it succeeds, the log keeps
    exactly the rows its cutoff spares, in their order; a body stays exactly
    when its own cutoff spares it and its row was not deleted; a rollup row
    when the hour-floored cutoff spares its bucket; and the number of log rows
    it reports is the number it deleted. When it fails, nothing changed. *)
Theorem retention_exact bodies logs rollup commit policy now db db' res :
  apply_retention rfc3339_secs rfc3339_hour bodies logs rollup commit policy now db = (res, db') ->
  let cut days := age_cutoff rfc3339_secs now days in
  let old_log row := expired_log (cut (log_days policy)) row in
  match res with
  | Err _ => db' = db
  | Ok stats =>
      request_logs db' = filter (fun row => spared (log_days policy) (old_log row) = true) (request_logs db) /\
      (forall id body, request_bodies db' !! id = Some body <->
         request_bodies db !! id = Some body /\
         spared (body_days policy) (expired_body (cut (body_days policy)) body) = true /\
         (log_days policy = 0 \/ forall row, row ∈ request_logs db -> l_request_id row = id -> old_log row = false)) /\
      (forall key row, rollup_hourly db' !! key = Some row <->
         rollup_hourly db !! key = Some row /\
         spared (rollup_days policy) (String.ltb key.1.1.1 (hour_floor_cutoff rfc3339_hour now (rollup_days policy))) = true) /\
      logs_deleted stats = Z.of_nat (length (request_logs db)) - Z.of_nat (length (request_logs db'))
  end.
Proof.
  intros E%transaction_inv. destruct res as [stats|e]; [|done]. set (cut := age_cutoff rfc3339_secs now) in *. cbn zeta.
  apply bind_ok in E as (b & d1 & [_ E1]%expire_ok & E). apply bind_ok in E as (l & d2 & [El E2]%expire_ok & E).
  apply bind_ok in E as (r & d3 & [_ E3]%expire_ok & E). apply bind_ok in E as ([] & d4 & E4 & E).
  unfold execute in E4. destruct commit; [done|]. injection E4 as <-. injection E as <- <-.
  assert (request_logs d1 = request_logs db /\ rollup_hourly d1 = rollup_hourly db) as [L1 R1] by (subst d1; by destruct (body_days policy =? 0)).
  assert (request_logs d3 = request_logs d2 /\ request_bodies d3 = request_bodies d2) as [L3 B3] by (subst d3; by destruct (rollup_days policy =? 0)).
  assert (rollup_hourly d2 = rollup_hourly db) as R2 by (subst d2; by destruct (log_days policy =? 0)).
  assert (request_logs d2 = filter (fun row => spared (log_days policy) (expired_log (cut (log_days policy)) row) = true) (request_logs db)) as L2.
  { rewrite filter_spared, <-L1. subst d2. by destruct (log_days policy =? 0). }
  split_and!.
  - by rewrite L3.
  - intros id body. rewrite B3.
    assert (request_bodies d1 !! id = Some body <-> request_bodies db !! id = Some body /\
              spared (body_days policy) (expired_body (cut (body_days policy)) body) = true) as Hb1.
    { subst d1. unfold spared. destruct (body_days policy =? 0); cbn; [naive_solver|].
      rewrite map_lookup_filter_Some. by rewrite negb_true_iff. }
    subst d2. destruct (Z.eqb_spec (log_days policy) 0) as [H0|H0]; [naive_solver|].
    cbn. rewrite map_lookup_filter_Some, Hb1, L1. split.
    + intros [[Hb Hs] Hid]. split_and!; [done..|]. right. intros row Hrow <-.
      destruct (expired_log (cut (log_days policy)) row) eqn:Ex; [|done]. exfalso. apply not_true_iff_false in Hid.
      apply Hid, log_exists_spec, list_elem_of_fmap. exists row. split; [done|]. by apply list_elem_of_filter.
    + intros (Hb & Hs & [Hz|Hrow]); [done|]. split; [done|]. apply not_true_iff_false. intros Hid%log_exists_spec.
      apply list_elem_of_fmap in Hid as (row & -> & [Hex Hin]%list_elem_of_filter). by rewrite (Hrow row Hin eq_refl) in Hex.
  - intros key row. rewrite <-R2. subst d3. unfold spared. destruct (rollup_days policy =? 0); cbn; [naive_solver|].
    rewrite map_lookup_filter_Some. by rewrite negb_true_iff.
  - cbn [logs_deleted]. rewrite L3, L2, El, filter_spared. destruct (log_days policy =? 0); [lia|]. unfold count_logs. rewrite L1.
    pose proof (filter_app_complement (fun row => expired_log (cut (log_days policy)) row = true) (request_logs db)) as Hc%Permutation_length.
    rewrite length_app in Hc. rewrite <-Hc.
    assert (filter (fun row => ~ expired_log (cut (log_days policy)) row = true) (request_logs db) =
            filter (fun row => expired_log (cut (log_days policy)) row = false) (request_logs db)) as ->; [|lia].
    apply list_filter_iff. intros x. by rewrite not_true_iff_false.
Qed.
End RetentionProps.

(** ** On examples *)

Definition sample (id ts model : string) (tokens : Z) : RequestLogRecord :=
  {| r_request_id := id; r_timestamp := ts; r_client_format := "claude"; r_client_id := Some "claude-code";
     r_session_id := Some "s1"; r_provider_account := None; r_served_model := None; r_ttft_ms := 5;
     r_cache_unknown := true; r_cost_usd := None; r_price_version := None; r_decode_ms := 0; r_decode_out := 0;
     r_own_ms := 0; r_sent_ms := 0; r_retried_ms := 0; r_queued_ms := 0; r_masking_ms := 0; r_flow_ms := 0;
     r_attempt := 0; r_handed_on := false; r_error := None; r_err_type := None; r_upstream := None;
     r_effort := None; r_tier_asked := None; r_tier_sent := None; r_tier_served := None; r_subagent := None;
     r_parent_agent := None; r_kind := None; r_provider := "kimi"; r_client_model := model;
     r_upstream_model := model; r_streaming := false; r_method := "POST"; r_path := "/v1/messages";
     r_request_body := None; r_upstream_request_body := None; r_response_status := 200;
     r_response_body := RbJson "{}"; r_latency_ms := 12;
     r_usage := {| input_tokens := tokens; output_tokens := 3; cache_read_tokens := Some 4; cache_write_tokens := None;
                   cache_write_1h := None; reasoning_tokens := None |};
     r_trace := None; r_truncated := false |}.

Definition sample_rows : list RequestLogRecord :=
  [sample "a" "2026-03-02T10:15:00.5+00:00" "k2" 10; sample "b" "2026-03-02T10:59:59.9+00:00" "k2" 20;
   sample "a" "2026-03-02T11:00:00.1+00:00" "k2" 70].

Lemma sample_metered id ts model tokens :
  (0 <=? tokens) && (tokens + 4 <=? i64_max) && stamped ts = true -> metered (sample id ts model tokens).
Proof.
  intros [[H1 H2]%andb_true_iff H3]%andb_true_iff. split; cbn; [lia..|done].
Qed.

Lemma succ_above largest : largest < Z.succ largest.
Proof. lia. Qed.

Lemma sample_rows_metered : Forall metered sample_rows.
Proof. unfold sample_rows. repeat (apply List.Forall_cons; [by apply sample_metered|]). done. Qed.

(** Two records in one hour, and a replay of the first in the next. *)
Lemma tables_hold_witness :
  let db := batch r_path Z.succ sample_rows empty_db in
  rollup_counts db = rollup_spec (first_records sample_rows) /\
  map (fun r => input_tokens (r_usage r)) (first_records sample_rows) = [10; 20] /\
  map (fun row => (l_id row, l_input_tokens row)) (request_logs db) = [(1, 70); (2, 20)].
Proof.
  assert (Forall (Forall metered) [sample_rows]) as Hm.
  { apply List.Forall_cons; [by apply sample_rows_metered|done]. }
  destruct (tables_hold r_path Z.succ [sample_rows] succ_above Hm) as (_ & _ & Hr).
  split; [exact Hr|]. split; reflexivity.
Defined.

Lemma rebuild_reconciles_witness :
  exists db', rebuild_rollup (fun _ => f64_zero) None None None (batch r_path Z.succ sample_rows empty_db) = (Ok 2, db') /\
    rollup_counts db' = rollup_spec (last_records sample_rows).
Proof.
  assert (map_Forall (fun _ c => fits c = true) (rollup_spec (last_records sample_rows))) as Hfit
    by (apply (bool_decide_eq_true_1 _); by vm_compute).
  destruct (rebuild_reconciles r_path Z.succ (fun _ => f64_zero) sample_rows succ_above sample_rows_metered Hfit) as (db' & Hok & _ & Hr & _).
  exists db'. split; [exact Hok|exact Hr].
Defined.

Definition write_rollup_fails : Faults := fun s => match s with WriteRollup => Some (Sqlite SqliteOther) | _ => None end.

(** A record whose last statement fails is in the log and not in the rollup,
    and stays out of it when it is written again. *)
Lemma rollup_lost :
  let r := sample "a" "2026-03-02T10:15:00Z" "k2" 10 in
  let db := snd (insert_request_logs r_path Z.succ None None [(r, write_rollup_fails); (r, no_fault)] empty_db) in
  map l_id (request_logs db) = [1] /\ rollup_hourly db = ∅.
Proof. by vm_compute. Qed.

Lemma db_sound_witness :
  Sound (snd (insert_request_logs r_path Z.succ None None (all_well sample_rows) empty_db)).
Proof.
  apply (db_sound r_path Z.succ (fun _ => f64_zero) (fun _ => "") (fun _ => "") succ_above).
  apply rtc_once. by constructor.
Defined.

(** The row of 11:00:00.1 goes too, a tenth of a second after the cutoff: as
    text, [.] comes before the [Z] of the cutoff. *)
Lemma retention_exact_witness :
  let db := batch r_path Z.succ sample_rows empty_db in
  let text n := if n <? 0 then "" else "2026-03-02T11:00:00Z" in
  exists stats db', apply_retention text text None None None None RetentionPolicy_default 3000000 db = (Ok stats, db') /\
    (request_logs db' = filter (fun row => spared 30 (expired_log "2026-03-02T11:00:00Z" row) = true) (request_logs db)) /\
    logs_deleted stats = 2.
Proof.
  set (db := batch r_path Z.succ sample_rows empty_db). set (text := fun n => if n <? 0 then "" else "2026-03-02T11:00:00Z").
  destruct (apply_retention text text None None None None RetentionPolicy_default 3000000 db) as [res db'] eqn:E.
  pose proof (retention_exact text text None None None None RetentionPolicy_default 3000000 db db' res E) as H.
  assert (res = Ok {| bodies_deleted := 2; logs_deleted := 2; rollup_deleted := 0 |}) as ->
    by (change res with (fst (res, db')); rewrite <-E; vm_compute; reflexivity).
  eexists _, db'. split; [done|]. split; [apply H|reflexivity].
Defined.
