(* ===== verification/Summary.v ===== *)
(** * Usage statistics

    storage.rs ([usage_summary], [series_split], [heatmap] and their groups),
    storage/query.rs and handlers/usage.rs: what the usage views read from the
    rollup and, where an account is asked for, from the log. A grouped select
    is [group_by] over the rows its [where] keeps, in an order SQLite leaves
    open; the reader folds its rows into maps, so the order does not show. *)
From Stdlib Require Import ZArith Lia.
From stdpp Require Import gmap sorting.
From S2P Require Import Prelude.
From S2P Require Import RustStd.
From S2P Require Import Json.
From S2P Require Import Ir.
From S2P Require Import Float64.
From S2P Require Import Auth.
From S2P Require Import Storage.

Local Open Scope Z_scope.

(** ** Queries *)

Inductive Granularity : Type := Hour | Day | Week | Month.
#[export] Instance Granularity_eq_dec : EqDecision Granularity.
Proof. solve_decision. Defined.

Inductive SplitDim : Type := SplitProvider | SplitAgent | SplitModel | SplitAccount.

Record UsageQuery := {
  q_from : string;
  q_to : string;
  q_granularity : Granularity;
  q_provider : option string;
  q_model : option string;
  q_agent : option string;
  q_account : option string;
  q_split_by : option SplitDim
}.

Definition rollup_column (dim : SplitDim) : option string :=
  match dim with
  | SplitProvider => Some "provider"
  | SplitAgent => Some "agent"
  | SplitModel => Some "client_model"
  | SplitAccount => None
  end.

(** SQLite's [date(column,'weekday 1','-7 days')], NULL for a text that is no
    date. *)
Definition WeekOf : Type := string -> option string.

Definition bucket_expr (week_of : WeekOf) (g : Granularity) (column : string) : option string :=
  match g with
  | Hour => Some (substr 13 column +:+ ":00:00Z")
  | Day => Some (substr 10 column)
  | Week => week_of column
  | Month => Some (substr 7 column)
  end.

(** ** Totals *)

Record Totals := {
  t_calls : Z;
  t_errors : Z;
  t_input_tokens : Z;
  t_output_tokens : Z;
  t_cache_read_tokens : Z;
  t_cache_write_tokens : Z;
  t_cache_write_1h : Z;
  t_cache_unknown_tokens : Z;
  t_reasoning_tokens : Z;
  t_latency_sum_ms : Z;
  t_latency_max_ms : Z;
  t_ttft_sum_ms : Z;
  t_ttft_calls : Z;
  t_cost_usd : f64;
  t_unpriced : Z;
  t_retried : Z;
  t_loops : Z;
  t_decode_ms : Z;
  t_decode_out : Z;
  t_decode_n : Z
}.
Definition Totals_default : Totals :=
  Build_Totals 0 0 0 0 0 0 0 0 0 0 0 0 0 f64_zero 0 0 0 0 0 0.

Definition u64_sub (a b : Z) : Z := RustStd.as_u64 (a - b).

Definition hit_rate (t : Totals) : option f64 :=
  let prompt := u64_sub (u64_add (u64_add (t_input_tokens t) (t_cache_read_tokens t)) (t_cache_write_tokens t))
                  (t_cache_unknown_tokens t) in
  then_some (0 <? prompt) (f64_div (f64_of_Z (t_cache_read_tokens t)) (f64_of_Z prompt)).

Definition mean_latency_ms (t : Totals) : option Z :=
  then_some (0 <? t_calls t) (t_latency_sum_ms t / t_calls t).
Definition mean_ttft_ms (t : Totals) : option Z :=
  then_some (0 <? t_ttft_calls t) (t_ttft_sum_ms t / t_ttft_calls t).

Definition speed (t : Totals) : option f64 :=
  if (t_decode_n t =? 0) || (t_decode_ms t =? 0) || (t_decode_out t =? 0) then None
  else Some (f64_div (f64_of_Z (t_decode_out t)) (f64_div (f64_of_Z (t_decode_ms t)) (f64_of_Z 1000))).

Definition add_totals (into from : Totals) : Totals :=
  {| t_calls := u64_add (t_calls into) (t_calls from);
     t_errors := u64_add (t_errors into) (t_errors from);
     t_input_tokens := u64_add (t_input_tokens into) (t_input_tokens from);
     t_output_tokens := u64_add (t_output_tokens into) (t_output_tokens from);
     t_cache_read_tokens := u64_add (t_cache_read_tokens into) (t_cache_read_tokens from);
     t_cache_write_tokens := u64_add (t_cache_write_tokens into) (t_cache_write_tokens from);
     t_cache_write_1h := u64_add (t_cache_write_1h into) (t_cache_write_1h from);
     t_cache_unknown_tokens := u64_add (t_cache_unknown_tokens into) (t_cache_unknown_tokens from);
     t_reasoning_tokens := u64_add (t_reasoning_tokens into) (t_reasoning_tokens from);
     t_latency_sum_ms := u64_add (t_latency_sum_ms into) (t_latency_sum_ms from);
     t_latency_max_ms := Z.max (t_latency_max_ms into) (t_latency_max_ms from);
     t_ttft_sum_ms := u64_add (t_ttft_sum_ms into) (t_ttft_sum_ms from);
     t_ttft_calls := u64_add (t_ttft_calls into) (t_ttft_calls from);
     t_cost_usd := f64_add (t_cost_usd into) (t_cost_usd from);
     t_unpriced := u64_add (t_unpriced into) (t_unpriced from);
     t_retried := u64_add (t_retried into) (t_retried from);
     t_loops := u64_add (t_loops into) (t_loops from);
     t_decode_ms := u64_add (t_decode_ms into) (t_decode_ms from);
     t_decode_out := u64_add (t_decode_out into) (t_decode_out from);
     t_decode_n := u64_add (t_decode_n into) (t_decode_n from) |}.

(** [row.get::<Option<i64>>()?.unwrap_or(0).max(0) as u64]. *)
Definition u64_column (n : Z) : Z := Z.max n 0.

(** [totals_at]: the group's aggregates with its row count; the decode columns
    are left at their default. *)
Definition totals_at (row : RollupRow) : Totals :=
  let c := ru_counts row in
  {| t_calls := c_calls c;
     t_errors := u64_column (c_errors c);
     t_input_tokens := u64_column (c_input_tokens c);
     t_output_tokens := u64_column (c_output_tokens c);
     t_cache_read_tokens := u64_column (c_cache_read_tokens c);
     t_cache_write_tokens := u64_column (c_cache_write_tokens c);
     t_cache_write_1h := u64_column (c_cache_write_1h c);
     t_cache_unknown_tokens := u64_column (c_cache_unknown_tokens c);
     t_reasoning_tokens := u64_column (c_reasoning_tokens c);
     t_latency_sum_ms := u64_column (c_latency_sum_ms c);
     t_latency_max_ms := u64_column (c_latency_max_ms c);
     t_ttft_sum_ms := u64_column (c_ttft_sum_ms c);
     t_ttft_calls := u64_column (c_ttft_calls c);
     t_cost_usd := ru_cost_usd row;
     t_unpriced := saturating_sub (c_calls c) (u64_column (c_priced_calls c));
     t_retried := u64_column (c_retried_calls c);
     t_loops := u64_column (c_loops c);
     t_decode_ms := 0;
     t_decode_out := 0;
     t_decode_n := 0 |}.

(** ... and read from the three columns appended to them. *)
Definition with_decode (row : RollupRow) (t : Totals) : Totals :=
  let c := ru_counts row in
  {| t_calls := t_calls t; t_errors := t_errors t; t_input_tokens := t_input_tokens t;
     t_output_tokens := t_output_tokens t; t_cache_read_tokens := t_cache_read_tokens t;
     t_cache_write_tokens := t_cache_write_tokens t; t_cache_write_1h := t_cache_write_1h t;
     t_cache_unknown_tokens := t_cache_unknown_tokens t; t_reasoning_tokens := t_reasoning_tokens t;
     t_latency_sum_ms := t_latency_sum_ms t; t_latency_max_ms := t_latency_max_ms t;
     t_ttft_sum_ms := t_ttft_sum_ms t; t_ttft_calls := t_ttft_calls t; t_cost_usd := t_cost_usd t;
     t_unpriced := t_unpriced t; t_retried := t_retried t; t_loops := t_loops t;
     t_decode_ms := u64_column (c_decode_ms c);
     t_decode_out := u64_column (c_decode_out c);
     t_decode_n := u64_column (c_decode_n c) |}.

(** ** The rows a summary reads *)

(** A row of the rollup, or one of the log, as the selects see it. *)
Record Item := {
  i_time : string;
  i_provider : string;
  i_model : string;
  i_agent : string;
  i_account : option string;
  i_session : option string;
  i_row : RollupRow
}.

Definition rollup_items (db : Db) : list Item :=
  map (fun '(key, row) =>
         {| i_time := key.1.1.1; i_provider := key.1.1.2; i_model := key.1.2; i_agent := key.2;
            i_account := None; i_session := None; i_row := row |}) (map_to_list (rollup_hourly db)).

Definition log_item (row : LogRow) : Item :=
  {| i_time := l_timestamp row; i_provider := l_provider row; i_model := l_client_model row;
     i_agent := default "" (l_client_id row); i_account := l_provider_account row; i_session := l_session_id row;
     i_row := {| ru_counts := row_counts row; ru_cost_usd := default f64_zero (l_cost_usd row) |} |}.
Definition log_items (db : Db) : list Item := map log_item (request_logs db).

(** [column >= ?1 and column < ?2]; [?n is null or column = ?n]. *)
Definition between_times (from to time : string) : bool := negb (String.ltb time from) && String.ltb time to.
Definition asked (want : option string) (value : string) : bool :=
  match want with None => true | Some w => bool_decide (value = w) end.

Definition selected (from : string) (q : UsageQuery) (i : Item) : bool :=
  between_times from (q_to q) (i_time i) && asked (q_provider q) (i_provider i) &&
  asked (q_model q) (i_model i) && asked (q_agent q) (i_agent i).

Definition has_account (account : string) (i : Item) : bool := bool_decide (i_account i = Some account).

(** The rows of the main select, and of the split: the rollup from the floored
    hour on, or the log when an account is asked for. *)
Definition source_items (q : UsageQuery) (db : Db) : list Item :=
  match q_account q with
  | Some account => filter (fun i => selected (q_from q) q i && has_account account i = true) (log_items db)
  | None => filter (fun i => selected (hour_floor (q_from q)) q i = true) (rollup_items db)
  end.

Section Reading.
(** [sum()] over floats. *)
Variable sum_real : list f64 -> f64.
Variable week_of : WeekOf.

(** One row of a grouped select; a sum it takes that overflows ([in_range])
    fails the statement. *)
Definition aggregate (in_range : Counts -> bool) (rows : list RollupRow) : result StorageError RollupRow :=
  let c := sum_counts (map ru_counts rows) in
  if in_range c then Ok {| ru_counts := c; ru_cost_usd := sum_real (map ru_cost_usd rows) |}
  else Err integer_overflow.

Definition select_grouped {K} `{Countable K} (in_range : Counts -> bool) (key : Item -> K) (items : list Item) :
    result StorageError (list (K * RollupRow)) :=
  mapM (fun '(k, group) => row ← aggregate in_range (map i_row group); mret (k, row)) (map_to_list (group_by key items)).

(** ** Folding the rows *)

Record GroupTotals := { g_provider : option string; g_model : option string; g_totals : Totals }.
Definition GroupTotals_default : GroupTotals := {| g_provider := None; g_model := None; g_totals := Totals_default |}.

Record Sums := {
  s_totals : Totals;
  s_series : gmap string Totals;
  s_by_provider : gmap string GroupTotals;
  s_by_model : gmap string GroupTotals;
  s_by_agent : gmap string GroupTotals
}.
Definition no_sums : Sums := Build_Sums Totals_default ∅ ∅ ∅ ∅.

Definition add_to (t : Totals) (g : GroupTotals) : GroupTotals :=
  {| g_provider := g_provider g; g_model := g_model g; g_totals := add_totals (g_totals g) t |}.

Definition add_model (provider model : string) (t : Totals) (old : option GroupTotals) : GroupTotals :=
  match old with
  | None => add_to t {| g_provider := Some provider; g_model := Some model; g_totals := Totals_default |}
  | Some g =>
      add_to t {| g_provider := if decide (g_provider g = Some provider) then g_provider g else None;
                  g_model := g_model g; g_totals := g_totals g |}
  end.

Definition SummaryKey : Type := option string * string * string * string.
#[export] Instance SummaryKey_eq_dec : EqDecision SummaryKey.
Proof. unfold SummaryKey. apply _. Defined.
#[export] Instance SummaryKey_countable : Countable SummaryKey.
Proof. unfold SummaryKey. apply _. Defined.

(** [row.get(0)?] fails on a bucket that is NULL. *)
Definition null_bucket : StorageError := Sqlite SqliteOther.

Definition fold_summary_row (sums : Sums) (row : SummaryKey * RollupRow) : result StorageError Sums :=
  let '((bucket, provider, model, agent), aggregates) := row in
  bucket ← ok_or null_bucket bucket;
  let t := with_decode aggregates (totals_at aggregates) in
  Ok {| s_totals := add_totals (s_totals sums) t;
        s_series := partial_alter (fun o => Some (add_totals (default Totals_default o) t)) bucket (s_series sums);
        s_by_provider :=
          partial_alter (fun o => Some (add_to t (default {| g_provider := Some provider; g_model := None;
                                                             g_totals := Totals_default |} o)))
            provider (s_by_provider sums);
        s_by_model := partial_alter (fun o => Some (add_model provider model t o)) model (s_by_model sums);
        s_by_agent := partial_alter (fun o => Some (add_to t (default GroupTotals_default o))) agent (s_by_agent sums) |}.

Definition fold_summary (rows : list (SummaryKey * RollupRow)) : result StorageError Sums :=
  foldl (fun sums row => sums ← sums; fold_summary_row sums row) (Ok no_sums) rows.

Definition summary_key (g : Granularity) (i : Item) : SummaryKey :=
  (bucket_expr week_of g (i_time i), i_provider i, i_model i, i_agent i).

(** ** The split of the series *)

Definition SERIES_KEEP : nat := 24.

(** The columns a split can name in a select from each table: [request_logs]
    has no column [agent]. *)
Definition no_such_column (column : string) : StorageError :=
  Sqlite (SqliteFailure (Some ("no such column: " +:+ column))).
Definition split_column (from_logs : bool) (column : string) : result StorageError (Item -> string) :=
  if decide (column = "provider") then Ok i_provider
  else if decide (column = "client_model") then Ok i_model
  else if decide (column = "agent") then if from_logs then Err (no_such_column column) else Ok i_agent
  else Err (no_such_column column).

Definition Split : Type := gmap string (gmap string Totals).

Definition fold_split_row (acc : Split * gmap string Z) (row : (string * option string) * RollupRow) :
    result StorageError (Split * gmap string Z) :=
  let '((value, bucket), aggregates) := row in
  let '(split, weight) := acc in
  if is_empty value then Ok acc
  else
    bucket ← ok_or null_bucket bucket;
    let t := totals_at aggregates in
    Ok (partial_alter (fun o => Some (partial_alter (fun o => Some (add_totals (default Totals_default o) t)) value
                                        (default ∅ o))) bucket split,
        partial_alter (fun o => Some (u64_add (default 0 o) (u64_add (t_input_tokens t) (t_output_tokens t)))) value
          weight).

Definition heavier (a b : string * Z) : Prop := b.2 < a.2 \/ (a.2 = b.2 /\ String.leb a.1 b.1 = true).
#[export] Instance heavier_dec a b : Decision (heavier a b).
Proof. unfold heavier. apply _. Defined.

Definition series_split (q : UsageQuery) (dim : SplitDim) (db : Db) : result StorageError (option Split) :=
  match rollup_column dim with
  | None => Ok None
  | Some column =>
      value ← split_column (is_some (q_account q)) column;
      rows ← select_grouped fits_shared (fun i => (value i, bucket_expr week_of (q_granularity q) (i_time i))) (source_items q db);
      acc ← foldl (fun acc row => acc ← acc; fold_split_row acc row) (Ok (∅, ∅)) rows;
      let '(split, weight) := acc : Split * gmap string Z in
      let ranked := firstn SERIES_KEEP (merge_sort heavier (map_to_list weight)) in
      let kept : gset string := list_to_set (map fst ranked) in
      if decide (kept = ∅) then Ok None
      else
        let values (m : gmap string Totals) := filter (fun '(value, _) => value ∈ kept) m in
        Ok (Some (filter (fun '(_, m) => m <> ∅) (values <$> split)))
  end.

(** ** The summary *)

Record Bucket := { bu_label : string; bu_timestamp : string; bu_totals : Totals; bu_by : option (gmap string Totals) }.
Record Group := { gr_id : string; gr_provider : option string; gr_model : option string; gr_totals : Totals }.
Record UsageSummary := {
  su_from : string;
  su_to : string;
  su_granularity : Granularity;
  su_totals : Totals;
  su_series : list Bucket;
  su_by_provider : list Group;
  su_by_model : list Group;
  su_by_agent : list Group;
  su_by_account : list Group;
  su_by_session : list Group
}.

Definition busier (a b : Group) : Prop :=
  t_calls (gr_totals b) < t_calls (gr_totals a) \/
  (t_calls (gr_totals a) = t_calls (gr_totals b) /\ String.leb (gr_id a) (gr_id b) = true).
#[export] Instance busier_dec a b : Decision (busier a b).
Proof. unfold busier. apply _. Defined.

Definition sorted_groups (groups : gmap string GroupTotals) : list Group :=
  merge_sort busier
    (map (fun '(id, g) => {| gr_id := id; gr_provider := g_provider g; gr_model := g_model g; gr_totals := g_totals g |})
       (map_to_list groups)).

(** [order by sum(input_tokens + output_tokens) desc, 1 asc, 2 asc]. *)
Definition MAX_DIMENSION_ROWS : nat := 50.
Definition spent (row : RollupRow) : Z := c_input_tokens (ru_counts row) + c_output_tokens (ru_counts row).
Definition larger (a b : (string * string) * RollupRow) : Prop :=
  spent b.2 < spent a.2 \/
  (spent a.2 = spent b.2 /\
   (String.ltb a.1.1 b.1.1 = true \/ (a.1.1 = b.1.1 /\ String.leb a.1.2 b.1.2 = true))).
#[export] Instance larger_dec a b : Decision (larger a b).
Proof. unfold larger. apply _. Defined.

Definition named (o : option string) : bool := match o with Some s => negb (is_empty s) | None => false end.

(** The rows are read from the log. *)
Definition ranked_groups (key : Item -> string * string) (items : list Item) :
    result StorageError (list ((string * string) * RollupRow)) :=
  rows ← select_grouped (fun c => fits_shared c && within_i64 [c_input_tokens c + c_output_tokens c]) key items;
  Ok (firstn MAX_DIMENSION_ROWS (merge_sort larger rows)).

Definition account_groups (q : UsageQuery) (db : Db) : result StorageError (list Group) :=
  rows ← ranked_groups (fun i => (default "" (i_account i), i_provider i))
           (filter (fun i => selected (q_from q) q i && named (i_account i) &&
                             match q_account q with Some a => has_account a i | None => true end = true) (log_items db));
  Ok (map (fun '((id, provider), row) =>
             {| gr_id := id; gr_provider := Some provider; gr_model := None; gr_totals := totals_at row |}) rows).

Definition session_groups (q : UsageQuery) (db : Db) : result StorageError (list Group) :=
  rows ← ranked_groups (fun i => (default "" (i_session i), i_agent i))
           (filter (fun i => selected (q_from q) q i && named (i_session i) = true) (log_items db));
  Ok (map (fun '((id, agent), row) =>
             {| gr_id := id; gr_provider := None; gr_model := Some agent; gr_totals := totals_at row |}) rows).

Definition earlier (a b : string * Totals) : Prop := String.leb a.1 b.1 = true.
#[export] Instance earlier_dec a b : Decision (earlier a b).
Proof. unfold earlier. apply _. Defined.

Definition usage_summary (q : UsageQuery) (db : Db) : result StorageError UsageSummary :=
  rows ← select_grouped fits (summary_key (q_granularity q)) (source_items q db);
  sums ← fold_summary rows;
  split ← match q_split_by q with Some dim => series_split q dim db | None => Ok None end;
  by_account ← account_groups q db;
  by_session ← session_groups q db;
  Ok {| su_from := q_from q; su_to := q_to q; su_granularity := q_granularity q;
        su_totals := s_totals sums;
        su_series :=
          map (fun '(ts, t) =>
                 {| bu_label := ts; bu_timestamp := ts; bu_totals := t;
                    bu_by := (fun split : Split => default ∅ (split !! ts)) <$> split |})
            (merge_sort earlier (map_to_list (s_series sums)));
        su_by_provider := sorted_groups (s_by_provider sums);
        su_by_model := sorted_groups (s_by_model sums);
        su_by_agent := sorted_groups (s_by_agent sums);
        su_by_account := by_account;
        su_by_session := by_session |}.

(** ** The heatmap *)

Definition HEATMAP_WEEKS : Z := 53.
Record HeatDay := { hd_date : string; hd_calls : Z; hd_tokens : Z; hd_cost_usd : f64; hd_unpriced : Z }.
Record Heatmap := { hm_from : string; hm_to : string; hm_weeks : Z; hm_days : list HeatDay }.

(** A day counts from 1970-01-01, a Thursday, so day -3 is a Monday. *)
Definition num_days_from_monday (d : Z) : Z := (d + 3) mod 7.
Definition monday_of (d : Z) : Z := d - num_days_from_monday d.
Definition heatmap_from (today : Z) : Z := monday_of today - 7 * (HEATMAP_WEEKS - 1).

Definition day_before (a b : HeatDay) : Prop := String.leb (hd_date a) (hd_date b) = true.
#[export] Instance day_before_dec a b : Decision (day_before a b).
Proof. unfold day_before. apply _. Defined.

Definition heat_tokens (c : Counts) : Z :=
  c_input_tokens c + c_output_tokens c + c_cache_read_tokens c + c_cache_write_tokens c.

(** [until] is the instant of [today] written with seconds, and [date] a day
    as chrono writes it. *)
Definition heatmap (date : Z -> string) (today : Z) (until : string) (q : UsageQuery) (db : Db) :
    result StorageError Heatmap :=
  let from := date (heatmap_from today) in
  rows ← select_grouped (fun c => within_i64 [c_calls c; heat_tokens c; c_calls c - c_priced_calls c])
           (fun i => substr 10 (i_time i))
           (filter (fun i => negb (String.ltb (i_time i) from) && negb (String.ltb until (i_time i)) &&
                             asked (q_provider q) (i_provider i) && asked (q_model q) (i_model i) &&
                             asked (q_agent q) (i_agent i) = true) (rollup_items db));
  let day '((d, row) : string * RollupRow) :=
    let c := ru_counts row in
    {| hd_date := d; hd_calls := u64_column (c_calls c);
       hd_tokens := u64_column (heat_tokens c);
       hd_cost_usd := ru_cost_usd row; hd_unpriced := u64_column (c_calls c - c_priced_calls c) |} in
  Ok {| hm_from := from; hm_to := date today; hm_weeks := HEATMAP_WEEKS;
        hm_days := merge_sort day_before (map day (filter (fun row => 0 < c_calls (ru_counts row.2)) rows)) |}.

(** ** The endpoint *)

Definition granularity_from (value : option string) : Granularity :=
  if decide (value = Some "hour") then Hour
  else if decide (value = Some "week") then Week
  else if decide (value = Some "month") then Month
  else Day.

Definition split_dim_from (value : option string) : option SplitDim :=
  if decide (value = Some "provider") then Some SplitProvider
  else if decide (value = Some "agent") then Some SplitAgent
  else if decide (value = Some "model") then Some SplitModel
  else if decide (value = Some "account") then Some SplitAccount
  else None.

Definition empty_usage_summary (q : UsageQuery) : UsageSummary :=
  {| su_from := q_from q; su_to := q_to q; su_granularity := q_granularity q; su_totals := Totals_default;
     su_series := []; su_by_provider := []; su_by_model := []; su_by_agent := []; su_by_account := [];
     su_by_session := [] |}.

(** [open]: the database file when it exists, opened or not. *)
Definition usage_summary_from_log_dir (open : option (result StorageError Db)) (q : UsageQuery) :
    result StorageError UsageSummary :=
  match open with
  | None => Ok (empty_usage_summary q)
  | Some opened =>
      match db ← opened; usage_summary q db with
      | Ok summary => Ok summary
      | Err err => if is_missing_table err then Ok (empty_usage_summary q) else Err err
      end
  end.

Inductive UsageReply : Type :=
  | Unauthorized
  | BadRequest
  | NotConfigured
  | Summary (s : UsageSummary)
  | StorageFailed (e : StorageError).

(** [resolve]: the bounds of a period now (period.rs); [param] a parameter of
    the request's query; [open] the log directory's database. *)
Definition handle_usage_api (resolve : string -> option (string * string)) (api_key header : option string)
    (param : string -> option string) (dir : option (option (result StorageError Db))) : UsageReply :=
  match validate_client_key api_key header with
  | Err _ => Unauthorized
  | Ok _ =>
      match resolve (default "7d" (param "preset")) with
      | None => BadRequest
      | Some (from, to) =>
          match dir with
          | None => NotConfigured
          | Some open =>
              let q := {| q_from := from; q_to := to; q_granularity := granularity_from (param "granularity");
                          q_provider := param "provider"; q_model := param "model"; q_agent := param "agent";
                          q_account := param "account"; q_split_by := split_dim_from (param "split_by") |} in
              match usage_summary_from_log_dir open q with
              | Ok s => Summary s
              | Err e => StorageFailed e
              end
          end
      end
  end.
End Reading.

(** * What a summary adds up

    The selects regroup rows; regrouping keeps the counts under every
    condition on the key. *)

(** ** Regrouping *)

Section Weighing.
Context {K : Type}.
Implicit Types (l : list (K * Counts)) (p : K -> bool).

(** What the rows under a condition count, if there is one. *)
Definition weigh p l : option Counts :=
  sum_counts <$> no_empty (map snd (filter (fun x => p x.1 = true) l)).

Definition regroups l l' : Prop := forall p, weigh p l = weigh p l'.

Definition all_marked l : Prop := Forall (fun x => marked x.2) l.

Lemma no_empty_sum (l l' : list Counts) : sum_counts l = sum_counts l' -> (l = [] <-> l' = []) ->
  sum_counts <$> no_empty l = sum_counts <$> no_empty l'.
Proof. intros Hs He. destruct l, l'; [done| | |]; cbn [no_empty fmap option_fmap option_map]; [naive_solver..|by rewrite Hs]. Qed.

Lemma weigh_perm p l l' : l ≡ₚ l' -> weigh p l = weigh p l'.
Proof.
  intros Hl. unfold weigh. apply no_empty_sum; [by rewrite Hl|].
  split; intros Hn; apply Permutation_nil_r; [rewrite <-Hl|rewrite Hl]; by rewrite Hn.
Qed.

Lemma weigh_snoc p l x : marked x.2 ->
  weigh p (l ++ [x]) =
  if p x.1 then Some (match weigh p l with Some c => counts_add c x.2 | None => x.2 end) else weigh p l.
Proof.
  intros Hx. unfold weigh. rewrite list.filter_app, filter_cons, filter_nil. destruct (p x.1); cbn [decide].
  - rewrite decide_True by done. rewrite map_app. cbn [map].
    destruct (map snd _) as [|c cs]; cbn [no_empty app fmap option_fmap option_map].
    + unfold sum_counts. cbn [foldr]. by rewrite counts_add_default.
    + change (c :: cs ++ [x.2]) with ((c :: cs) ++ [x.2]). rewrite sum_counts_app by (by apply List.Forall_cons).
      unfold sum_counts at 2. cbn [foldr]. by rewrite counts_add_default.
  - rewrite decide_False by done. by rewrite app_nil_r.
Qed.
End Weighing.

Lemma filter_map_key {A B} (f : A -> B) (p : B -> bool) (l : list A) :
  filter (fun x => p x = true) (map f l) = map f (filter (fun x => p (f x) = true) l).
Proof.
  induction l as [|x l IH]; [done|]. cbn [map]. rewrite !filter_cons, IH. by destruct (p (f x)).
Qed.

Lemma filter_twice {A} (p q : A -> bool) (l : list A) :
  filter (fun x => p x = true) (filter (fun x => q x = true) l) = filter (fun x => q x && p x = true) l.
Proof.
  induction l as [|x l IH]; [done|]. rewrite !filter_cons. destruct (q x); cbn [andb].
  - rewrite decide_True by done. by rewrite filter_cons, IH.
  - by rewrite decide_False by done.
Qed.

Lemma regroups_map {K J} (f : K -> J) (l l' : list (K * Counts)) :
  regroups l l' -> regroups (map (fun x => (f x.1, x.2)) l) (map (fun x => (f x.1, x.2)) l').
Proof.
  intros H p. specialize (H (fun k => p (f k))). unfold weigh in *.
  rewrite !(filter_map_key (fun x => (f x.1, x.2)) (fun y => p y.1)), !map_map. cbn. exact H.
Qed.

Lemma regroups_filter {K} (q : K -> bool) (l l' : list (K * Counts)) :
  regroups l l' -> regroups (filter (fun x => q x.1 = true) l) (filter (fun x => q x.1 = true) l').
Proof.
  intros H p. specialize (H (fun k => q k && p k)). unfold weigh in *.
  rewrite !(filter_twice (fun x => p x.1) (fun x => q x.1)). exact H.
Qed.

(** A grouping of rows weighs what the rows weigh. *)
Lemma regroups_group {K A} `{Countable K} (key : A -> K) (count : A -> Counts) (rows : list A) :
  Forall (fun x => marked (count x)) rows ->
  regroups (map_to_list ((fun g => sum_counts (map count g)) <$> group_by key rows))
           (map (fun x => (key x, count x)) rows).
Proof.
  intros Hm p. unfold weigh.
  rewrite (filter_map_key (fun x => (key x, count x)) (fun y => p y.1)), map_map. cbn [snd].
  match goal with |- _ = _ <$> no_empty ?l => change l with (map count (filter (fun x => p (key x) = true) rows)) end.
  pose proof (group_by_rows (fun k => p k = true) key rows) as Hg.
  cbv beta in Hg.
  set (kept := map_to_list (filter (fun '(k, _) => p k = true) (group_by key rows))) in *.
  assert (filter (fun x => p x.1 = true) (map_to_list ((fun g => sum_counts (map count g)) <$> group_by key rows)) ≡ₚ
          map (fun x => (x.1, sum_counts (map count x.2))) kept) as Hk.
  { subst kept. rewrite map_to_list_fmap.
    rewrite (filter_map_key (prod_map id (fun g => sum_counts (map count g))) (fun y => p y.1)).
    apply Permutation_map. apply NoDup_Permutation; [apply list.NoDup_filter, NoDup_map_to_list|apply NoDup_map_to_list|].
    intros [k g]. rewrite list_elem_of_filter, !elem_of_map_to_list, map_lookup_filter_Some. cbn. naive_solver. }
  assert (Forall (Forall marked) (map (map count) (map snd kept))) as Hmk.
  { apply List.Forall_map, List.Forall_map, List.Forall_forall. intros [k g] Hin%list_elem_of_In. cbn.
    apply List.Forall_map, List.Forall_forall. intros x Hx. rewrite List.Forall_forall in Hm. apply Hm.
    assert (x ∈ filter (fun x => p (key x) = true) rows) as Hr.
    { rewrite <-Hg. apply list_elem_of_In, in_concat. exists g. split; [|done].
      apply in_map_iff. exists (k, g). split; [done|by apply list_elem_of_In]. }
    apply list_elem_of_filter in Hr as [_ Hr]. by apply list_elem_of_In. }
  apply no_empty_sum.
  - rewrite Hk, map_map. cbn [snd]. rewrite <-Hg, concat_map.
    rewrite sum_counts_concat by done. by rewrite !map_map.
  - assert (forall g, g ∈ map snd kept -> g <> []) as Hne.
    { intros g ([k g'] & -> & Hin)%list_elem_of_fmap. apply elem_of_map_to_list in Hin.
      apply map_lookup_filter_Some in Hin as [Hin _]. rewrite lookup_group_by in Hin. cbn.
      unfold no_empty in Hin. case_match; by simplify_eq. }
    split; intros Hn.
    + apply map_eq_nil in Hn. rewrite Hn in Hk. apply Permutation_nil, map_eq_nil in Hk. rewrite Hk in Hg.
      apply Permutation_nil in Hg. by rewrite Hg.
    + apply map_eq_nil in Hn. rewrite Hn in Hg. symmetry in Hg. apply Permutation_nil in Hg. destruct kept as [|[k g] kept].
      * symmetry in Hk. apply Permutation_nil in Hk. by rewrite Hk.
      * exfalso. cbn in Hg. apply app_nil in Hg as [-> _]. by apply (Hne []); [left|].
Qed.

(** ** Totals of counts *)

(** Counts of calls: none negative, no more priced calls than calls, and no
    more uncounted prompt than prompt. *)
Record sane (c : Counts) : Prop := {
  sn_calls : 0 <= c_calls c;
  sn_errors : 0 <= c_errors c;
  sn_input : 0 <= c_input_tokens c;
  sn_output : 0 <= c_output_tokens c;
  sn_read : 0 <= c_cache_read_tokens c;
  sn_write : 0 <= c_cache_write_tokens c;
  sn_write_1h : 0 <= c_cache_write_1h c;
  sn_unknown : 0 <= c_cache_unknown_tokens c;
  sn_reasoning : 0 <= c_reasoning_tokens c;
  sn_latency : 0 <= c_latency_sum_ms c;
  sn_latency_max : 0 <= c_latency_max_ms c;
  sn_ttft : 0 <= c_ttft_sum_ms c;
  sn_ttft_calls : 0 <= c_ttft_calls c;
  sn_priced : 0 <= c_priced_calls c;
  sn_retried : 0 <= c_retried_calls c;
  sn_loops : 0 <= c_loops c;
  sn_decode_ms : 0 <= c_decode_ms c;
  sn_decode_out : 0 <= c_decode_out c;
  sn_decode_n : 0 <= c_decode_n c;
  sn_some_priced : c_priced_calls c <= c_calls c;
  sn_some_unknown : c_cache_unknown_tokens c <= c_input_tokens c + c_cache_read_tokens c + c_cache_write_tokens c
}.

Lemma sane_add a b : sane a -> sane b -> sane (counts_add a b).
Proof. intros [] []. split; cbn; lia. Qed.
Lemma sane_default : sane Counts_default.
Proof. by split. Qed.
Lemma sane_sum l : Forall sane l -> sane (sum_counts l).
Proof. induction 1; [apply sane_default|by apply sane_add]. Qed.
Lemma sane_marked c : sane c -> marked c.
Proof. by intros []. Qed.

Lemma bool_z_range b : 0 <= bool_z b <= 1.
Proof. by destruct b. Qed.

Lemma prompt_exact a b c : 0 <= a -> 0 <= b -> 0 <= c -> a + b + c <= i64_max -> u64_add (u64_add a b) c = a + b + c.
Proof. unfold i64_max. intros. rewrite !u64_add_exact; rewrite ?u64_add_exact; unfold u64_max; lia. Qed.

Lemma rollup_values_sane r : metered r -> sane (rollup_values r).
Proof.
  intros []. assert (forall b, 0 <= bool_z b) as Hb by (intros b; apply bool_z_range).
  assert (0 <= (if r_cache_unknown r
                then u64_add (u64_add (input_tokens (r_usage r)) (default 0 (cache_read_tokens (r_usage r))))
                       (default 0 (cache_write_tokens (r_usage r)))
                else 0) <=
          input_tokens (r_usage r) + default 0 (cache_read_tokens (r_usage r)) + default 0 (cache_write_tokens (r_usage r)))
    as [Hu0 Hu1] by (destruct (r_cache_unknown r); [rewrite prompt_exact by lia|]; lia).
  unfold rollup_values. split; cbn [c_calls c_errors c_input_tokens c_output_tokens c_cache_read_tokens c_cache_write_tokens c_cache_write_1h
    c_cache_unknown_tokens c_reasoning_tokens c_latency_sum_ms c_latency_max_ms c_ttft_sum_ms c_ttft_calls
    c_priced_calls c_retried_calls c_loops c_decode_ms c_decode_out c_decode_n];
    try first [apply Hb | by apply to_i64_nonneg | lia].
  - pose proof (bool_z_range (is_some (r_cost_usd r))). lia.
  - rewrite !to_i64_id by lia. lia.
Qed.

(** The totals of some counts, all but the cost. *)
Definition totals_of (c : Counts) : Totals :=
  {| t_calls := RustStd.as_u64 (c_calls c);
     t_errors := RustStd.as_u64 (c_errors c);
     t_input_tokens := RustStd.as_u64 (c_input_tokens c);
     t_output_tokens := RustStd.as_u64 (c_output_tokens c);
     t_cache_read_tokens := RustStd.as_u64 (c_cache_read_tokens c);
     t_cache_write_tokens := RustStd.as_u64 (c_cache_write_tokens c);
     t_cache_write_1h := RustStd.as_u64 (c_cache_write_1h c);
     t_cache_unknown_tokens := RustStd.as_u64 (c_cache_unknown_tokens c);
     t_reasoning_tokens := RustStd.as_u64 (c_reasoning_tokens c);
     t_latency_sum_ms := RustStd.as_u64 (c_latency_sum_ms c);
     t_latency_max_ms := c_latency_max_ms c;
     t_ttft_sum_ms := RustStd.as_u64 (c_ttft_sum_ms c);
     t_ttft_calls := RustStd.as_u64 (c_ttft_calls c);
     t_cost_usd := f64_zero;
     t_unpriced := RustStd.as_u64 (c_calls c - c_priced_calls c);
     t_retried := RustStd.as_u64 (c_retried_calls c);
     t_loops := RustStd.as_u64 (c_loops c);
     t_decode_ms := RustStd.as_u64 (c_decode_ms c);
     t_decode_out := RustStd.as_u64 (c_decode_out c);
     t_decode_n := RustStd.as_u64 (c_decode_n c) |}.

Definition no_cost (t : Totals) : Totals :=
  {| t_calls := t_calls t; t_errors := t_errors t; t_input_tokens := t_input_tokens t;
     t_output_tokens := t_output_tokens t; t_cache_read_tokens := t_cache_read_tokens t;
     t_cache_write_tokens := t_cache_write_tokens t; t_cache_write_1h := t_cache_write_1h t;
     t_cache_unknown_tokens := t_cache_unknown_tokens t; t_reasoning_tokens := t_reasoning_tokens t;
     t_latency_sum_ms := t_latency_sum_ms t; t_latency_max_ms := t_latency_max_ms t;
     t_ttft_sum_ms := t_ttft_sum_ms t; t_ttft_calls := t_ttft_calls t; t_cost_usd := f64_zero;
     t_unpriced := t_unpriced t; t_retried := t_retried t; t_loops := t_loops t;
     t_decode_ms := t_decode_ms t; t_decode_out := t_decode_out t; t_decode_n := t_decode_n t |}.

Lemma u64_add_mod a b : u64_add (RustStd.as_u64 a) (RustStd.as_u64 b) = RustStd.as_u64 (a + b).
Proof. unfold u64_add, RustStd.as_u64. by rewrite <-Z.add_mod. Qed.

Lemma add_totals_of t u a b :
  no_cost t = totals_of a -> no_cost u = totals_of b -> no_cost (add_totals t u) = totals_of (counts_add a b).
Proof.
  intros Ht Hu. unfold no_cost, totals_of, add_totals, counts_add in *. cbn.
  injection Ht as -> -> -> -> -> -> -> -> -> -> -> -> -> -> -> -> -> -> ->.
  injection Hu as -> -> -> -> -> -> -> -> -> -> -> -> -> -> -> -> -> -> ->.
  rewrite !u64_add_mod. f_equal. f_equal. lia.
Qed.

Lemma default_totals : no_cost Totals_default = totals_of Counts_default.
Proof. done. Qed.

Lemma as_u64_id n : 0 <= n <= i64_max -> RustStd.as_u64 n = n.
Proof. unfold RustStd.as_u64, i64_max. intros. apply Z.mod_small. lia. Qed.

Lemma totals_read (row : RollupRow) :
  sane (ru_counts row) -> fits (ru_counts row) = true -> no_cost (with_decode row (totals_at row)) = totals_of (ru_counts row).
Proof.
  intros [] Hf. unfold fits, fits_shared, within_i64 in Hf. cbn [forallb] in Hf. rewrite !andb_true_iff, !Z.leb_le in Hf.
  unfold no_cost, with_decode, totals_at, totals_of, u64_column, saturating_sub. destruct row as [c cost]. cbn in *.
  rewrite !as_u64_id by lia. f_equal; lia.
Qed.

(** A part fits where the whole does. *)
Lemma fits_part a b : sane a -> sane b -> fits (counts_add a b) = true -> fits a = true.
Proof.
  intros [] [] Hf. unfold fits, fits_shared, within_i64 in *. cbn [forallb] in *. rewrite !andb_true_iff, !Z.leb_le in *.
  cbn in Hf. split_and!; lia.
Qed.

(** ** The select and the fold *)

Lemma mapM_ok {E A B} (f : A -> result E B) (h : A -> B) l :
  (forall x, x ∈ l -> f x = Ok (h x)) -> mapM f l = Ok (map h l).
Proof.
  induction l as [|x l IH]; intros Hf; [done|]. cbn. rewrite (Hf x) by left. cbn. rewrite IH; [done|].
  intros y Hy. apply Hf. by right.
Qed.

(** A range check that holds of a whole holds of its parts. *)
Definition part_closed (in_range : Counts -> bool) : Prop :=
  forall a b, sane a -> sane b -> in_range (counts_add a b) = true -> in_range a = true.

Lemma fits_closed : part_closed fits.
Proof. intros a b Ha Hb. by apply fits_part. Qed.
Lemma fits_shared_closed : part_closed fits_shared.
Proof.
  intros [] [] [] [] Hf. unfold fits_shared, within_i64 in *. cbn [forallb] in *. rewrite !andb_true_iff, !Z.leb_le in *.
  cbn in *. split_and!; lia.
Qed.
Lemma spent_closed : part_closed (fun c => fits_shared c && within_i64 [c_input_tokens c + c_output_tokens c]).
Proof.
  intros a b Ha Hb [Hf Hs]%andb_true_iff. apply andb_true_iff. split; [by apply (fits_shared_closed a b)|].
  destruct Ha, Hb. unfold within_i64 in *. cbn [forallb] in *. rewrite !andb_true_iff, !Z.leb_le in *. cbn in *. lia.
Qed.

Section Selects.
Context (sum_real : list f64 -> f64) (week_of : WeekOf).

Definition item_counts (i : Item) : Counts := ru_counts (i_row i).
Definition grouped_row (g : list Item) : RollupRow :=
  {| ru_counts := sum_counts (map item_counts g); ru_cost_usd := sum_real (map (fun i => ru_cost_usd (i_row i)) g) |}.
Definition counted {K} (rows : list (K * RollupRow)) : list (K * Counts) := map (fun x => (x.1, ru_counts x.2)) rows.

Lemma forall_filter {A} (P : A -> Prop) (Q : A -> Prop) `{!forall x, Decision (Q x)} (l : list A) :
  Forall P l -> Forall P (filter Q l).
Proof.
  rewrite !List.Forall_forall. intros Hl x Hx%list_elem_of_In. apply Hl, list_elem_of_In.
  by apply list_elem_of_filter in Hx as [_ ?].
Qed.

Lemma group_total {K} `{Countable K} (key : Item -> K) items k g :
  group_by key items !! k = Some g -> Forall (fun i => sane (item_counts i)) items ->
  exists rest, sane rest /\ sane (sum_counts (map item_counts g)) /\
    sum_counts (map item_counts items) = counts_add (sum_counts (map item_counts g)) rest.
Proof.
  rewrite lookup_group_by. intros Hg Hs.
  assert (g = filter (fun i => key i = k) items) as -> by (unfold no_empty in Hg; case_match; by simplify_eq).
  assert (forall (P : Item -> Prop) `{!forall x, Decision (P x)}, Forall sane (map item_counts (filter P items))) as Hf
    by (intros; apply List.Forall_map; by apply forall_filter).
  exists (sum_counts (map item_counts (filter (fun i => ~ key i = k) items))).
  split_and!; [by apply sane_sum, Hf..|]. rewrite <-sum_counts_app.
  - rewrite <-map_app. apply sum_counts_perm, Permutation_map. symmetry. apply filter_app_complement.
  - eapply Forall_impl; [|apply Hf]. apply sane_marked.
Qed.

Lemma select_ok {K} `{Countable K} in_range (key : Item -> K) items :
  part_closed in_range -> Forall (fun i => sane (item_counts i)) items ->
  in_range (sum_counts (map item_counts items)) = true ->
  exists rows, select_grouped sum_real in_range key items = Ok rows /\
    rows = map (fun '(k, g) => (k, grouped_row g)) (map_to_list (group_by key items)) /\
    Forall (fun row => sane (ru_counts row.2) /\ in_range (ru_counts row.2) = true) rows /\
    regroups (counted rows) (map (fun i => (key i, item_counts i)) items).
Proof.
  intros Hc Hs Hok. eexists. split; [|split; [reflexivity|split]].
  - unfold select_grouped. apply mapM_ok. intros [k g] Hin%elem_of_map_to_list.
    destruct (group_total key items k g Hin Hs) as (rest & Hr & Hg & Ht). unfold aggregate.
    rewrite map_map. change (fun x => ru_counts (i_row x)) with item_counts.
    rewrite Ht in Hok. rewrite (Hc _ _ Hg Hr Hok). cbn. unfold grouped_row. by rewrite map_map.
  - apply List.Forall_map, List.Forall_forall. intros [k g] Hin%list_elem_of_In%elem_of_map_to_list.
    destruct (group_total key items k g Hin Hs) as (rest & Hr & Hg & Ht). cbn. split; [done|].
    rewrite Ht in Hok. by apply (Hc _ _ Hg Hr Hok).
  - unfold counted. rewrite map_map.
    assert (map (fun x => ((let '(k, g) := x in (k, grouped_row g)).1, ru_counts (let '(k, g) := x in (k, grouped_row g)).2))
              (map_to_list (group_by key items)) =
            map_to_list ((fun g => sum_counts (map item_counts g)) <$> group_by key items)) as ->.
    { rewrite map_to_list_fmap. apply map_ext. by intros [k g]. }
    apply regroups_group. eapply Forall_impl; [|exact Hs]. intros i. apply sane_marked.
Qed.

(** What the maps hold after the rows [l]. *)
Definition agrees (o : option Totals) (w : option Counts) : Prop := no_cost <$> o = totals_of <$> w.
Definition at_bucket (k : string) (key : SummaryKey) : bool := bool_decide (key.1.1.1 = Some k).
Definition at_provider (k : string) (key : SummaryKey) : bool := bool_decide (key.1.1.2 = k).
Definition at_model (k : string) (key : SummaryKey) : bool := bool_decide (key.1.2 = k).
Definition at_agent (k : string) (key : SummaryKey) : bool := bool_decide (key.2 = k).

Record Folded (l : list (SummaryKey * Counts)) (sums : Sums) : Prop := {
  fd_totals : no_cost (s_totals sums) = totals_of (default Counts_default (weigh (fun _ => true) l));
  fd_series : forall k, agrees (s_series sums !! k) (weigh (at_bucket k) l);
  fd_provider : forall k, agrees (g_totals <$> s_by_provider sums !! k) (weigh (at_provider k) l);
  fd_model : forall k, agrees (g_totals <$> s_by_model sums !! k) (weigh (at_model k) l);
  fd_agent : forall k, agrees (g_totals <$> s_by_agent sums !! k) (weigh (at_agent k) l);
  fd_named : forall k g, s_by_model sums !! k = Some g -> forall p,
    g_provider g = Some p <-> Forall (fun x => at_model k x.1 = true -> x.1.1.1.2 = p) l
}.

Lemma agrees_add o w t x :
  agrees o w -> no_cost t = totals_of x -> marked x ->
  no_cost (add_totals (default Totals_default o) t) =
  totals_of (match w with Some c => counts_add c x | None => x end).
Proof.
  unfold agrees. intros Ho Ht Hx. destruct o as [u|], w as [c|]; cbn [fmap option_fmap option_map default] in *; try done.
  - apply (inj Some) in Ho. by apply add_totals_of.
  - rewrite (add_totals_of _ _ Counts_default x) by done. by rewrite (comm_L counts_add), counts_add_default.
Qed.

Lemma agrees_alter {B} (f : B -> Totals) (add : option B -> B) (m : gmap string B) (key k : string) w w' t x :
  (forall o, f (add o) = add_totals (default Totals_default (f <$> o)) t) ->
  agrees (f <$> m !! k) w -> no_cost t = totals_of x -> marked x ->
  w' = (if bool_decide (key = k) then Some (match w with Some c => counts_add c x | None => x end) else w) ->
  agrees (f <$> partial_alter (fun o => Some (add o)) key m !! k) w'.
Proof.
  intros Hadd Hk Ht Hx ->. case_bool_decide as Hd.
  - subst key. rewrite lookup_partial_alter_eq. unfold agrees. cbn. rewrite Hadd. f_equal.
    by apply (agrees_add (f <$> m !! k)).
  - by rewrite lookup_partial_alter_ne.
Qed.

Lemma folded_snoc l sums bucket provider model agent row sums' :
  sane (ru_counts row) -> fits (ru_counts row) = true -> Folded l sums ->
  fold_summary_row sums ((Some bucket, provider, model, agent), row) = Ok sums' ->
  Folded (l ++ [((Some bucket, provider, model, agent), ru_counts row)]) sums'.
Proof.
  intros Hs Hf [Ht Hse Hp Hm Ha Hn]. unfold fold_summary_row. cbn.
  pose proof (totals_read row Hs Hf) as Hr. pose proof (sane_marked _ Hs) as Hmk.
  set (t := with_decode row (totals_at row)) in *. intros [= <-].
  set (x := ((Some bucket, provider, model, agent), ru_counts row)).
  assert (forall p : SummaryKey -> bool, weigh p (l ++ [x]) = if p x.1 then Some (match weigh p l with Some c => counts_add c (ru_counts row) | None => ru_counts row end) else weigh p l)
    as Hw by (intros p; by apply weigh_snoc).
  split; cbn [s_totals s_series s_by_provider s_by_model s_by_agent].
  - rewrite Hw. cbn. destruct (weigh (fun _ => true) l) as [c|]; cbn in *; [by apply add_totals_of|].
    rewrite (add_totals_of _ _ Counts_default (ru_counts row)) by done. by rewrite (comm_L counts_add), counts_add_default.
  - intros k. pose proof (agrees_alter id (fun o => add_totals (default Totals_default o) t) (s_series sums) bucket k) as Hal.
    rewrite !option_fmap_id in Hal. apply (Hal (weigh (at_bucket k) l) _ t (ru_counts row)); [by intros []|done..|].
    rewrite Hw. unfold at_bucket. cbn. by do 2 case_bool_decide; simplify_eq.
  - intros k. apply (agrees_alter g_totals _ _ _ k (weigh (at_provider k) l) _ t (ru_counts row)); [by intros []|done..|apply Hw].
  - intros k. apply (agrees_alter g_totals _ _ _ k (weigh (at_model k) l) _ t (ru_counts row)); [by intros []|done..|apply Hw].
  - intros k. apply (agrees_alter g_totals _ _ _ k (weigh (at_agent k) l) _ t (ru_counts row)); [by intros []|done..|apply Hw].
  - intros k g Hg p. rewrite list.Forall_app. destruct (decide (model = k)) as [<-|Hne].
    + rewrite lookup_partial_alter_eq in Hg. injection Hg as <-.
      assert (Forall (fun y => at_model model y.1 = true -> y.1.1.1.2 = p) [x] <-> provider = p) as ->.
      { unfold at_model. rewrite List.Forall_cons_iff. cbn. rewrite bool_decide_eq_true_2 by done. naive_solver. }
      destruct (s_by_model sums !! model) as [g|] eqn:Eg; cbn.
      * pose proof (Hn model g Eg) as Hn'. case_decide as Hd; [rewrite (Hn' p)|].
        -- rewrite Hd in Hn'. split; [|naive_solver]. intros Hall. split; [done|]. pose proof (proj2 (Hn' p) Hall). congruence.
        -- split; [done|]. intros [Hall <-]. by apply Hn' in Hall.
      * split; [intros [= <-]; split; [|done]|naive_solver].
        specialize (Hm model). rewrite Eg in Hm. unfold agrees in Hm. cbn in Hm.
        apply List.Forall_forall. intros y Hy Hym. exfalso.
        unfold weigh in Hm. destruct (filter (fun x => at_model model x.1 = true) l) as [|z zs] eqn:E; [|done].
        assert (y ∈ filter (fun x => at_model model x.1 = true) l) as Hin by (apply list_elem_of_filter; split; [done|by apply list_elem_of_In]).
        rewrite E in Hin. by apply elem_of_nil in Hin.
    + rewrite lookup_partial_alter_ne in Hg by done. rewrite (Hn k g Hg p).
      split; [|naive_solver]. intros Hall. split; [done|]. apply List.Forall_cons; [|done]. unfold at_model. cbn.
      intros Hb%bool_decide_eq_true. done.
Qed.

Lemma fold_summary_ok rows :
  Forall (fun row => sane (ru_counts row.2) /\ fits (ru_counts row.2) = true) rows ->
  Forall (fun row => is_Some row.1.1.1.1) rows ->
  exists sums, fold_summary rows = Ok sums /\ Folded (counted rows) sums.
Proof.
  unfold fold_summary, counted. induction rows as [|[[[[b p] m] a] row] rows IH] using rev_ind; intros H1 H2.
  - exists no_sums. split; [done|]. by split.
  - apply list.Forall_app in H1 as [H1 [Hs Hf]%List.Forall_inv]. apply list.Forall_app in H2 as [H2 [bucket Hb]%List.Forall_inv].
    cbn in Hb. subst b. destruct (IH H1 H2) as (sums & Hok & Hfd). rewrite foldl_app, Hok. cbn [foldl].
    eexists. split; [reflexivity|]. rewrite map_app. by apply (folded_snoc _ sums).
Qed.
End Selects.

(** ** The summary of the rollup *)

Section Exact.
Context (sum_real : list f64 -> f64) (week_of : WeekOf).

Definition item_key (i : Item) : RollupKey := (i_time i, i_provider i, i_model i, i_agent i).

(** What the [where] clause keeps, and the bucket a key falls in. *)
Definition chosen (q : UsageQuery) (key : RollupKey) : bool :=
  between_times (hour_floor (q_from q)) (q_to q) key.1.1.1 && asked (q_provider q) key.1.1.2 &&
  asked (q_model q) key.1.2 && asked (q_agent q) key.2.
Definition bucket_of (q : UsageQuery) (key : RollupKey) : option string :=
  bucket_expr week_of (q_granularity q) key.1.1.1.
Definition records_for (q : UsageQuery) (rs : list RequestLogRecord) : list RequestLogRecord :=
  filter (fun r => chosen q (rollup_key r) = true) rs.

Definition count_records (rs : list RequestLogRecord) : Counts := sum_counts (map rollup_values rs).
(** The totals of the records under each key. *)
Definition per {K} `{Countable K} (key : RequestLogRecord -> K) (rs : list RequestLogRecord) : gmap K Totals :=
  (fun g => totals_of (count_records g)) <$> group_by key rs.

Definition keyed (rs : list RequestLogRecord) : list (RollupKey * Counts) :=
  map (fun r => (rollup_key r, rollup_values r)) rs.

Lemma items_regroup rs db :
  Forall metered rs -> rollup_counts db = rollup_spec rs ->
  regroups (map (fun i => (item_key i, item_counts i)) (rollup_items db)) (keyed rs).
Proof.
  intros Hm Hr. unfold rollup_items. rewrite map_map.
  assert (map (fun x => (item_key (let '(key, row) := x in
             {| i_time := key.1.1.1; i_provider := key.1.1.2; i_model := key.1.2; i_agent := key.2;
                i_account := None; i_session := None; i_row := row |}),
           item_counts (let '(key, row) := x in
             {| i_time := key.1.1.1; i_provider := key.1.1.2; i_model := key.1.2; i_agent := key.2;
                i_account := None; i_session := None; i_row := row |}))) (map_to_list (rollup_hourly db)) =
          map_to_list (rollup_spec rs)) as ->.
  { rewrite <-Hr. unfold rollup_counts. rewrite map_to_list_fmap. apply map_ext. by intros [[[[? ?] ?] ?] row]. }
  apply regroups_group. eapply Forall_impl; [|exact Hm]. apply rollup_values_marked.
Qed.

Lemma source_regroups rs q db :
  Forall metered rs -> rollup_counts db = rollup_spec rs -> q_account q = None ->
  regroups (map (fun i => (item_key i, item_counts i)) (source_items q db)) (keyed (records_for q rs)).
Proof.
  intros Hm Hr Hq. unfold source_items. rewrite Hq.
  pose proof (regroups_filter (chosen q) _ _ (items_regroup rs db Hm Hr)) as H. unfold keyed in *.
  rewrite !(filter_map_key _ (fun x => chosen q x.1)) in H. exact H.
Qed.

Lemma metered_records q rs : Forall metered rs -> Forall metered (records_for q rs).
Proof. apply forall_filter. Qed.

Lemma weigh_all {K} (l : list (K * Counts)) : default Counts_default (weigh (fun _ => true) l) = sum_counts (map snd l).
Proof.
  unfold weigh. assert (filter (fun _ => true = true) l = l) as ->
    by (induction l as [|x l IH]; [done|]; by rewrite filter_cons, decide_True, IH).
  by destruct (map snd l).
Qed.

Lemma source_counts rs q db :
  Forall metered rs -> rollup_counts db = rollup_spec rs -> q_account q = None ->
  sum_counts (map item_counts (source_items q db)) = count_records (records_for q rs).
Proof.
  intros Hm Hr Hq. pose proof (source_regroups rs q db Hm Hr Hq (fun _ => true)) as H.
  apply (f_equal (default Counts_default)) in H. rewrite !weigh_all in H. unfold keyed in H. rewrite !map_map in H. exact H.
Qed.

Lemma rollup_rows_sane rs db :
  Forall metered rs -> rollup_counts db = rollup_spec rs ->
  Forall (fun i => sane (item_counts i)) (rollup_items db).
Proof.
  intros Hm Hr. unfold rollup_items. apply List.Forall_map, List.Forall_forall.
  intros [key row] Hin%list_elem_of_In%elem_of_map_to_list. unfold item_counts. cbn.
  assert (rollup_counts db !! key = Some (ru_counts row)) as Hk by (unfold rollup_counts; by rewrite lookup_fmap, Hin).
  rewrite Hr, lookup_rollup_spec in Hk. destruct (no_empty _) as [g|] eqn:E; [|done]. injection Hk as <-.
  assert (g = filter (fun r => rollup_key r = key) rs) as -> by (unfold no_empty in E; case_match; by simplify_eq).
  apply sane_sum, List.Forall_map. eapply Forall_impl; [|apply forall_filter, Hm]. apply rollup_values_sane.
Qed.

Lemma source_sane rs q db :
  Forall metered rs -> rollup_counts db = rollup_spec rs -> q_account q = None ->
  Forall (fun i => sane (item_counts i)) (source_items q db).
Proof. intros Hm Hr Hq. unfold source_items. rewrite Hq. by apply forall_filter, (rollup_rows_sane rs). Qed.

Lemma source_buckets rs q db :
  Forall metered rs -> rollup_counts db = rollup_spec rs -> q_account q = None ->
  Forall (fun r => is_Some (bucket_of q (rollup_key r))) (records_for q rs) ->
  Forall (fun i => is_Some (bucket_expr week_of (q_granularity q) (i_time i))) (source_items q db).
Proof.
  intros Hm Hr Hq Hb. pose proof (source_regroups rs q db Hm Hr Hq) as H. apply List.Forall_forall.
  intros i Hi. destruct (bucket_expr week_of (q_granularity q) (i_time i)) as [b|] eqn:E; [done|exfalso].
  specialize (H (fun key => bool_decide (bucket_of q key = None))). unfold weigh in H.
  assert (filter (fun x => bool_decide (bucket_of q x.1 = None) = true) (keyed (records_for q rs)) = []) as Hn.
  { clear -Hb. induction Hb as [|r l [b Hb] _ IH]; [done|]. unfold keyed in *. cbn [map]. rewrite filter_cons. cbn [fst].
    by rewrite Hb. }
  rewrite Hn in H.
  assert ((item_key i, item_counts i) ∈ filter (fun x => bool_decide (bucket_of q x.1 = None) = true)
            (map (fun i => (item_key i, item_counts i)) (source_items q db))) as Hin.
  { apply list_elem_of_filter. split; [by apply bool_decide_eq_true|]. apply list_elem_of_In, in_map_iff. by exists i. }
  destruct (filter _ (map _ _)) as [|x xs]; [by apply elem_of_nil in Hin|done].
Qed.

Lemma agrees_per {K} `{Countable K} (m : gmap K Totals) (at_key : K -> SummaryKey -> bool)
    (skey : RequestLogRecord -> SummaryKey) (key : RequestLogRecord -> K) l rs :
  regroups l (map (fun r => (skey r, rollup_values r)) rs) ->
  (forall k r, at_key k (skey r) = bool_decide (key r = k)) ->
  (forall k, agrees (m !! k) (weigh (at_key k) l)) -> no_cost <$> m = per key rs.
Proof.
  intros Hl Hat Hm. apply map_eq. intros k. rewrite lookup_fmap. unfold agrees in Hm. rewrite Hm, Hl.
  unfold per. rewrite lookup_fmap, lookup_group_by. unfold weigh, count_records.
  rewrite (filter_map_key (fun r => (skey r, rollup_values r)) (fun x => at_key k x.1)), map_map. cbn [fst snd].
  assert (filter (fun r => at_key k (skey r) = true) rs = filter (fun r => key r = k) rs) as Hf
    by (apply list_filter_iff; intros r; rewrite Hat; apply bool_decide_eq_true).
  change (filter _ rs) with (filter (fun r => at_key k (skey r) = true) rs) at 1. rewrite Hf.
  by destruct (filter (fun r => key r = k) rs).
Qed.

Lemma sorted_groups_perm (m : gmap string GroupTotals) :
  map (fun g => (gr_id g, no_cost (gr_totals g))) (sorted_groups m) ≡ₚ map_to_list (no_cost <$> (g_totals <$> m)).
Proof.
  unfold sorted_groups. rewrite merge_sort_Permutation, map_map, <-map_fmap_compose, map_to_list_fmap.
  apply reflexive_eq, map_ext. by intros [k g].
Qed.

Lemma leb_total a b : String.leb a b = true \/ String.leb b a = true.
Proof. unfold String.leb. rewrite (String.compare_antisym a b). by destruct (String.compare b a); auto. Qed.

#[local] Instance busier_total : Total busier.
Proof.
  intros a b. unfold busier. destruct (Z.lt_total (t_calls (gr_totals a)) (t_calls (gr_totals b))) as [?|[?|?]]; [by auto| |by auto].
  destruct (leb_total (gr_id a) (gr_id b)); auto.
Qed.
#[local] Instance earlier_total : Total earlier.
Proof. intros a b. apply leb_total. Qed.

Lemma sorted_map {A B} (R : relation A) (S : relation B) (f : A -> B) l :
  (forall a b, R a b -> S (f a) (f b)) -> Sorted R l -> Sorted S (map f l).
Proof.
  intros Hf. induction 1 as [|a l _ IH Hd]; cbn; constructor; [done|]. destruct Hd; cbn; constructor. by apply Hf.
Qed.

Lemma sorted_groups_sorted m : Sorted busier (sorted_groups m).
Proof. apply Sorted_merge_sort, _. Qed.

(** The rankings of the log read no decode columns. *)
Definition no_decode (t : Totals) : Totals :=
  {| t_calls := t_calls t; t_errors := t_errors t; t_input_tokens := t_input_tokens t;
     t_output_tokens := t_output_tokens t; t_cache_read_tokens := t_cache_read_tokens t;
     t_cache_write_tokens := t_cache_write_tokens t; t_cache_write_1h := t_cache_write_1h t;
     t_cache_unknown_tokens := t_cache_unknown_tokens t; t_reasoning_tokens := t_reasoning_tokens t;
     t_latency_sum_ms := t_latency_sum_ms t; t_latency_max_ms := t_latency_max_ms t;
     t_ttft_sum_ms := t_ttft_sum_ms t; t_ttft_calls := t_ttft_calls t; t_cost_usd := t_cost_usd t;
     t_unpriced := t_unpriced t; t_retried := t_retried t; t_loops := t_loops t;
     t_decode_ms := 0; t_decode_out := 0; t_decode_n := 0 |}.

Lemma totals_read_shared (row : RollupRow) :
  sane (ru_counts row) -> fits_shared (ru_counts row) = true ->
  no_cost (totals_at row) = no_decode (totals_of (ru_counts row)).
Proof.
  intros [] Hf. unfold fits_shared, within_i64 in Hf. cbn [forallb] in Hf. rewrite !andb_true_iff, !Z.leb_le in Hf.
  unfold no_cost, no_decode, totals_at, totals_of, u64_column, saturating_sub. destruct row as [c cost]. cbn in *.
  rewrite !as_u64_id by lia. f_equal; lia.
Qed.

(** What a ranking of the log is to show of some of its rows: the groups under
    their keys, the largest prompt and reply first and equal ones by key, and
    of these the first fifty. *)
Definition tokens (c : Counts) : Z := c_input_tokens c + c_output_tokens c.
Definition ahead (a b : (string * string) * Counts) : Prop :=
  tokens b.2 < tokens a.2 \/
  (tokens a.2 = tokens b.2 /\
   (String.ltb a.1.1 b.1.1 = true \/ (a.1.1 = b.1.1 /\ String.leb a.1.2 b.1.2 = true))).
Definition ranking (key : Item -> string * string) (items : list Item) (groups : list ((string * string) * Totals)) : Prop :=
  exists all : list ((string * string) * Counts),
    all ≡ₚ map_to_list ((fun g => sum_counts (map item_counts g)) <$> group_by key items) /\
    Sorted ahead all /\
    groups = map (fun x => (x.1, no_decode (totals_of x.2))) (firstn MAX_DIMENSION_ROWS all).

#[local] Instance larger_total : Total larger.
Proof.
  intros a b. unfold larger. destruct (Z.lt_total (spent a.2) (spent b.2)) as [?|[?|?]]; [by auto| |by auto].
  assert (String.ltb a.1.1 b.1.1 = true \/ a.1.1 = b.1.1 \/ String.ltb b.1.1 a.1.1 = true) as [?|[?|?]].
  { unfold String.ltb. rewrite (String.compare_antisym a.1.1 b.1.1).
    destruct (String.compare b.1.1 a.1.1) eqn:E; cbn; auto. right. left. by apply String.compare_eq_iff in E. }
  - auto.
  - destruct (leb_total a.1.2 b.1.2); auto 6.
  - auto.
Qed.

Lemma ranked_ok (key : Item -> string * string) (items : list Item) :
  Forall (fun i => sane (item_counts i)) items ->
  fits_shared (sum_counts (map item_counts items)) &&
    within_i64 [c_input_tokens (sum_counts (map item_counts items)) + c_output_tokens (sum_counts (map item_counts items))] = true ->
  exists rows, ranked_groups sum_real key items = Ok rows /\
    ranking key items (map (fun row => (row.1, no_cost (totals_at row.2))) rows).
Proof.
  intros Hs Hf. unfold ranked_groups.
  destruct (select_ok sum_real _ key items spent_closed Hs Hf) as (rows & -> & Heq & Hok & _). eexists. split; [reflexivity|].
  exists (counted (merge_sort larger rows)). split_and!.
  - unfold counted. rewrite merge_sort_Permutation, Heq, map_map, map_to_list_fmap.
    apply reflexive_eq, map_ext. by intros [k g].
  - apply (sorted_map larger); [by intros [? []] [? []]|]. apply Sorted_merge_sort, _.
  - unfold counted. rewrite firstn_map, map_map. apply map_ext_in. intros row Hin. cbn.
    assert (row ∈ merge_sort larger rows) as Hrow.
    { apply list_elem_of_In in Hin. rewrite <-(take_drop MAX_DIMENSION_ROWS (merge_sort larger rows)).
      apply elem_of_app. by left. }
    rewrite merge_sort_Permutation in Hrow. rewrite List.Forall_forall in Hok.
    destruct (Hok row ltac:(by apply list_elem_of_In)) as [Hsr [Hfr _]%andb_true_iff]. by rewrite totals_read_shared.
Qed.

(** Sums a 64-bit column holds, and with them the sum of prompts and replies. *)
Definition light (c : Counts) : bool := fits c && within_i64 [c_input_tokens c + c_output_tokens c].
Definition log_counts (db : Db) : list Counts := map row_counts (request_logs db).

Lemma log_part (P : Item -> bool) db :
  Forall sane (log_counts db) -> light (sum_counts (log_counts db)) = true ->
  let items := filter (fun i => P i = true) (log_items db) in
  Forall (fun i => sane (item_counts i)) items /\
  fits_shared (sum_counts (map item_counts items)) &&
    within_i64 [c_input_tokens (sum_counts (map item_counts items)) + c_output_tokens (sum_counts (map item_counts items))] = true.
Proof.
  intros Hs Hl items. assert (Forall (fun i => sane (item_counts i)) (log_items db)) as Hi.
  { unfold log_items, log_counts in *. rewrite List.Forall_map in *. exact Hs. }
  split; [by apply forall_filter|].
  apply (spent_closed _ (sum_counts (map item_counts (filter (fun i => ~ P i = true) (log_items db))))).
  - by apply sane_sum, List.Forall_map, forall_filter.
  - by apply sane_sum, List.Forall_map, forall_filter.
  - rewrite <-sum_counts_app by (apply List.Forall_map, forall_filter; eapply Forall_impl; [|exact Hi]; intros i; apply sane_marked).
    rewrite <-map_app. subst items.
    rewrite (sum_counts_perm _ (map item_counts (log_items db))) by (apply Permutation_map, filter_app_complement).
    assert (map item_counts (log_items db) = log_counts db) as -> by (unfold log_items, log_counts; by rewrite map_map).
    unfold light, fits in Hl. rewrite !andb_true_iff in *. naive_solver.
Qed.

Lemma split_ok q dim db rs :
  Forall metered rs -> rollup_counts db = rollup_spec rs -> q_account q = None ->
  Forall (fun r => is_Some (bucket_of q (rollup_key r))) (records_for q rs) ->
  fits (count_records (records_for q rs)) = true ->
  exists split, series_split sum_real week_of q dim db = Ok split.
Proof.
  intros Hm Hr Hq Hb Hf. unfold series_split. destruct (rollup_column dim) as [column|] eqn:Ec; [|eauto].
  assert (exists value, split_column (is_some (q_account q)) column = Ok value) as [value ->]
    by (rewrite Hq; destruct dim; cbn in Ec; simplify_eq; unfold split_column; cbn; eauto).
  change (Ok value ≫= ?f) with (f value). cbv beta.
  set (key := fun i => (value i, bucket_expr week_of (q_granularity q) (i_time i))).
  assert (fits_shared (sum_counts (map item_counts (source_items q db))) = true) as Hfs.
  { rewrite (source_counts rs) by done. unfold fits in Hf. by apply andb_true_iff in Hf as [? _]. }
  destruct (select_ok sum_real fits_shared key (source_items q db) fits_shared_closed (source_sane rs q db Hm Hr Hq) Hfs)
    as (rows & -> & Hrows & _ & _).
  change (Ok rows ≫= ?f) with (f rows). cbv beta.
  assert (Forall (fun row : (string * option string) * RollupRow => is_Some row.1.2) rows) as Hbk.
  { subst rows. apply List.Forall_map, List.Forall_forall. intros [k g] Hin%list_elem_of_In%elem_of_map_to_list. cbn.
    rewrite lookup_group_by in Hin. destruct (filter (fun i => key i = k) (source_items q db)) as [|i items] eqn:E; [done|].
    assert (i ∈ filter (fun i => key i = k) (source_items q db)) as [<- Hi]%list_elem_of_filter by (rewrite E; by left).
    pose proof (source_buckets rs q db Hm Hr Hq Hb) as Hsb. rewrite List.Forall_forall in Hsb.
    by apply Hsb, list_elem_of_In. }
  assert (forall acc, exists acc', foldl (fun acc row => acc ← acc; fold_split_row acc row) (Ok acc) rows = Ok acc') as Hfold.
  { clear -Hbk. induction Hbk as [|[[v b] row] rows [bk Hbk] _ IH]; intros acc; [by exists acc|]. cbn in Hbk. subst b.
    cbn [foldl]. change (Ok acc ≫= ?f) with (f acc). cbv beta. unfold fold_split_row at 2. destruct acc as [split weight].
    destruct (is_empty v); cbn; apply IH. }
  destruct (Hfold (∅, ∅)) as [[split weight] ->]. change (Ok ?x ≫= ?f) with (f x). cbv beta iota zeta.
  case_decide; eauto.
Qed.

Lemma series_per (m : gmap string Totals) skey key l rs :
  regroups l (map (fun r => (skey r, rollup_values r)) rs) ->
  (forall r, (skey r).1.1.1 = key r) -> Forall (fun r => is_Some (key r)) rs ->
  (forall k, agrees (m !! k) (weigh (at_bucket k) l)) ->
  kmap Some (no_cost <$> m) = per key rs.
Proof.
  intros Hl Hk Hb Hm. apply map_eq. intros [k|].
  - rewrite (lookup_kmap Some). rewrite lookup_fmap. unfold agrees in Hm. rewrite Hm, Hl.
    unfold per, weigh, count_records. rewrite lookup_fmap, lookup_group_by.
    rewrite (filter_map_key (fun r => (skey r, rollup_values r)) (fun x => at_bucket k x.1)), map_map. cbn [fst snd].
    assert (filter (fun r => at_bucket k (skey r) = true) rs = filter (fun r => key r = Some k) rs) as Hf
      by (apply list_filter_iff; intros r; unfold at_bucket; rewrite Hk; apply bool_decide_eq_true).
    change (filter _ rs) with (filter (fun r => at_bucket k (skey r) = true) rs) at 1. rewrite Hf.
    by destruct (filter (fun r => key r = Some k) rs).
  - assert (kmap Some (no_cost <$> m) !! None = None) as -> by (apply lookup_kmap_None; [apply _|]; done).
    unfold per. rewrite lookup_fmap, lookup_group_by.
    match goal with |- context [no_empty ?l] => assert (l = []) as ->; [|done] end.
    clear -Hb. induction Hb as [|r l [b Hb] _ IH]; [done|]. by rewrite filter_cons, Hb.
Qed.

(** The records' side of the summary's rows: their keys, as the select groups
    them, and their counts. *)
Definition as_rows (q : UsageQuery) (rs : list RequestLogRecord) : list (SummaryKey * Counts) :=
  map (fun r => (((bucket_of q (rollup_key r), (rollup_key r).1.1.2, (rollup_key r).1.2, (rollup_key r).2) : SummaryKey),
                 rollup_values r)) rs.

Lemma rollup_folded rs db q :
  Forall metered rs -> rollup_counts db = rollup_spec rs -> q_account q = None ->
  fits (count_records (records_for q rs)) = true ->
  Forall (fun r => is_Some (bucket_of q (rollup_key r))) (records_for q rs) ->
  exists rows sums,
    select_grouped sum_real fits (summary_key week_of (q_granularity q)) (source_items q db) = Ok rows /\
    fold_summary rows = Ok sums /\ Folded (counted rows) sums /\
    regroups (K := SummaryKey) (counted rows) (as_rows q (records_for q rs)).
Proof.
  intros Hm Hr Hq Hf Hb. rewrite <-(source_counts rs q db Hm Hr Hq) in Hf.
  destruct (select_ok sum_real fits (summary_key week_of (q_granularity q)) (source_items q db) fits_closed
              (source_sane rs q db Hm Hr Hq) Hf) as (rows & Hrows & Heq & Hok & Hrg).
  assert (Forall (fun row : SummaryKey * RollupRow => is_Some row.1.1.1.1) rows) as Hbs.
  { subst rows. apply List.Forall_map, List.Forall_forall. intros [k g] Hin%list_elem_of_In%elem_of_map_to_list. cbn.
    rewrite lookup_group_by in Hin.
    destruct (filter (fun i => summary_key week_of (q_granularity q) i = k) (source_items q db)) as [|i items] eqn:E; [done|].
    assert (i ∈ filter (fun i => summary_key week_of (q_granularity q) i = k) (source_items q db))
      as [<- Hi]%list_elem_of_filter by (rewrite E; by left).
    pose proof (source_buckets rs q db Hm Hr Hq Hb) as Hsb. rewrite List.Forall_forall in Hsb. by apply Hsb, list_elem_of_In. }
  destruct (fold_summary_ok rows Hok Hbs) as (sums & Hfold & Hfd). exists rows, sums. split_and!; [done..|].
  intros p. rewrite (Hrg p).
  pose proof (regroups_map (fun key : RollupKey => (bucket_of q key, key.1.1.2, key.1.2, key.2)) _ _
                (source_regroups rs q db Hm Hr Hq) p) as H.
  unfold keyed in H. rewrite !map_map in H. exact H.
Qed.

(** The rows of the log a ranking is about: those of the range and the filters
    that name their account, or their session. *)
Definition account_items (q : UsageQuery) (db : Db) : list Item :=
  filter (fun i => selected (q_from q) q i && named (i_account i) = true) (log_items db).
Definition session_items (q : UsageQuery) (db : Db) : list Item :=
  filter (fun i => selected (q_from q) q i && named (i_session i) = true) (log_items db).

Lemma log_groups_ok q db :
  q_account q = None -> Forall sane (log_counts db) -> light (sum_counts (log_counts db)) = true ->
  exists accounts sessions,
    account_groups sum_real q db = Ok accounts /\ session_groups sum_real q db = Ok sessions /\
    ranking (fun i => (default "" (i_account i), i_provider i)) (account_items q db)
      (map (fun g => ((gr_id g, default "" (gr_provider g)), no_cost (gr_totals g))) accounts) /\
    ranking (fun i => (default "" (i_session i), i_agent i)) (session_items q db)
      (map (fun g => ((gr_id g, default "" (gr_model g)), no_cost (gr_totals g))) sessions).
Proof.
  intros Hq Hs Hl. unfold account_groups, session_groups. rewrite Hq.
  assert (filter (fun i => selected (q_from q) q i && named (i_account i) && true = true) (log_items db) = account_items q db)
    as -> by (apply list_filter_iff; intros i; by rewrite andb_true_r).
  destruct (log_part (fun i => selected (q_from q) q i && named (i_account i)) db Hs Hl) as [Ha1 Ha2].
  destruct (log_part (fun i => selected (q_from q) q i && named (i_session i)) db Hs Hl) as [Hs1 Hs2].
  destruct (ranked_ok (fun i => (default "" (i_account i), i_provider i)) _ Ha1 Ha2) as (accounts & Ea & Hra).
  destruct (ranked_ok (fun i => (default "" (i_session i), i_agent i)) _ Hs1 Hs2) as (sessions & Es & Hrs).
  unfold account_items, session_items. rewrite Ea, Es.
  do 2 eexists. split; [reflexivity|]. split; [reflexivity|]. rewrite !map_map.
  split; [erewrite map_ext; [exact Hra|]|erewrite map_ext; [exact Hrs|]]; by intros [[? ?] ?].
Qed.

(** C18: a summary without an account filter is what a reference reading of the
    requests gives. When the rollup holds the records' counts (as it does after
    any batches, and after a rebuild), the totals are those of exactly the
    records whose hour lies between the floored start and the end and whose
    provider, model and agent match; the series has one point per bucket with
    the totals of that bucket's records, in ascending order; the rankings of
    providers, models and agents have one group per value with that value's
    records, the most calls first. The rankings of accounts and sessions come
    from the rows of the log from the exact start on that name one: a group per
    account and provider, or session and agent, with its rows' totals, the
    most prompt and reply tokens first, cut after fifty. Totals are all their
    counts but the cost, a sum of floats, which is left out, and for accounts
    and sessions the decode times, which are zero there. It is asked that the
    counts are not negative and their sums fit 64 bits, and that every
    record's time falls into a bucket. *)
Theorem usage_summary_exact rs db q :
  Forall metered rs -> rollup_counts db = rollup_spec rs -> q_account q = None ->
  fits (count_records (records_for q rs)) = true ->
  Forall (fun r => is_Some (bucket_of q (rollup_key r))) (records_for q rs) ->
  Forall sane (log_counts db) -> light (sum_counts (log_counts db)) = true ->
  exists s, usage_summary sum_real week_of q db = Ok s /\
    no_cost (su_totals s) = totals_of (count_records (records_for q rs)) /\
    map (fun b => (Some (bu_timestamp b), no_cost (bu_totals b))) (su_series s) ≡ₚ
      map_to_list (per (fun r => bucket_of q (rollup_key r)) (records_for q rs)) /\
    Sorted (fun a b => String.leb (bu_timestamp a) (bu_timestamp b) = true) (su_series s) /\
    map (fun g => (gr_id g, no_cost (gr_totals g))) (su_by_provider s) ≡ₚ map_to_list (per r_provider (records_for q rs)) /\
    map (fun g => (gr_id g, no_cost (gr_totals g))) (su_by_model s) ≡ₚ map_to_list (per r_client_model (records_for q rs)) /\
    map (fun g => (gr_id g, no_cost (gr_totals g))) (su_by_agent s) ≡ₚ
      map_to_list (per (fun r => default "" (r_client_id r)) (records_for q rs)) /\
    Sorted busier (su_by_provider s) /\ Sorted busier (su_by_model s) /\ Sorted busier (su_by_agent s) /\
    ranking (fun i => (default "" (i_account i), i_provider i)) (account_items q db)
      (map (fun g => ((gr_id g, default "" (gr_provider g)), no_cost (gr_totals g))) (su_by_account s)) /\
    ranking (fun i => (default "" (i_session i), i_agent i)) (session_items q db)
      (map (fun g => ((gr_id g, default "" (gr_model g)), no_cost (gr_totals g))) (su_by_session s)).
Proof.
  intros Hm Hr Hq Hf Hb Hls Hll.
  destruct (rollup_folded rs db q Hm Hr Hq Hf Hb) as (rows & sums & Hrows & Hfold & [Ht Hse Hp Hmo Ha _] & Hrs).
  destruct (log_groups_ok q db Hq Hls Hll) as (accounts & sessions & Hacc & Hses & Hra & Hrse).
  assert (exists split, match q_split_by q with Some dim => series_split sum_real week_of q dim db | None => Ok None end = Ok split)
    as [split Hsp] by (destruct (q_split_by q); [by apply (split_ok _ _ _ rs)|by eexists]).
  unfold usage_summary. rewrite Hrows. change (Ok rows ≫= ?f) with (f rows). cbv beta. rewrite Hfold.
  change (Ok sums ≫= ?f) with (f sums). cbv beta. rewrite Hsp.
  change (Ok split ≫= ?f) with (f split). cbv beta. rewrite Hacc, Hses.
  eexists. split; [reflexivity|]. cbn [su_totals su_series su_by_provider su_by_model su_by_agent su_by_account su_by_session]. split_and!.
  - rewrite Ht. etransitivity; [apply f_equal, f_equal, (Hrs (fun _ => true))|]. unfold as_rows. by rewrite weigh_all, map_map.
  - rewrite map_map. etransitivity; [apply Permutation_map, merge_sort_Permutation|].
    rewrite <-(series_per (s_series sums) _ (fun r => bucket_of q (rollup_key r)) _ _ Hrs); [|done|done|exact Hse].
    rewrite (map_to_list_kmap Some), map_to_list_fmap, <-list_fmap_compose. apply reflexive_eq, map_ext. by intros [k t].
  - apply (sorted_map earlier); [by intros [k t] [k' t']|]. apply Sorted_merge_sort, _.
  - rewrite sorted_groups_perm, (agrees_per _ at_provider _ r_provider _ _ Hrs); [done|done|].
    intros k. rewrite lookup_fmap. apply Hp.
  - rewrite sorted_groups_perm, (agrees_per _ at_model _ r_client_model _ _ Hrs); [done|done|].
    intros k. rewrite lookup_fmap. apply Hmo.
  - rewrite sorted_groups_perm, (agrees_per _ at_agent _ (fun r => default "" (r_client_id r)) _ _ Hrs); [done|done|].
    intros k. rewrite lookup_fmap. apply Ha.
  - apply sorted_groups_sorted.
  - apply sorted_groups_sorted.
  - apply sorted_groups_sorted.
  - exact Hra.
  - exact Hrse.
Qed.

(** A summary that is asked for an account and a split by agent always
    fails: the split then selects the column [agent] of the log, which the log
    does not have. *)
Theorem account_split_fails q db s :
  is_some (q_account q) = true -> q_split_by q = Some SplitAgent -> usage_summary sum_real week_of q db <> Ok s.
Proof.
  intros Hq Hd. unfold usage_summary. rewrite Hd.
  destruct (select_grouped sum_real fits _ _) as [rows|e]; [|done]. change (Ok rows ≫= ?f) with (f rows). cbv beta.
  destruct (fold_summary rows) as [sums|e]; [|done]. change (Ok sums ≫= ?f) with (f sums). cbv beta.
  assert (series_split sum_real week_of q SplitAgent db = Err (no_such_column "agent")) as ->
    by (unfold series_split; cbn; by rewrite Hq).
  done.
Qed.
End Exact.

(** The heatmap's first day is a Monday, and today is in its last column. *)
Lemma heatmap_window today :
  num_days_from_monday (heatmap_from today) = 0 /\
  heatmap_from today + 7 * (HEATMAP_WEEKS - 1) <= today < heatmap_from today + 7 * HEATMAP_WEEKS.
Proof.
  unfold heatmap_from, monday_of, num_days_from_monday, HEATMAP_WEEKS.
  pose proof (Z.div_mod (today + 3) 7 ltac:(lia)). pose proof (Z.mod_pos_bound (today + 3) 7 ltac:(lia)). split; [|lia].
  set (d := (today + 3) / 7) in *. set (m := (today + 3) mod 7) in *.
  replace (today - m - 7 * (53 - 1) + 3) with ((d - 52) * 7) by lia. by rewrite Z.mod_mul.
Qed.

(** The share of the prompt read from the cache divides by what the vendors
    counted: the subtraction never wraps. *)
Lemma hit_rate_exact c :
  sane c -> fits c = true -> c_input_tokens c + c_cache_read_tokens c + c_cache_write_tokens c <= u64_max ->
  let prompt := c_input_tokens c + c_cache_read_tokens c + c_cache_write_tokens c - c_cache_unknown_tokens c in
  0 <= prompt /\
  hit_rate (totals_of c) = then_some (0 <? prompt) (f64_div (f64_of_Z (c_cache_read_tokens c)) (f64_of_Z prompt)).
Proof.
  intros [] Hf Hp prompt. split; [lia|]. unfold fits, fits_shared, within_i64 in Hf. cbn [forallb] in Hf.
  rewrite !andb_true_iff, !Z.leb_le in Hf. unfold hit_rate, totals_of, u64_sub. cbn.
  rewrite (as_u64_id (c_input_tokens c)), (as_u64_id (c_cache_read_tokens c)), (as_u64_id (c_cache_write_tokens c)),
    (as_u64_id (c_cache_unknown_tokens c)) by lia. rewrite (u64_add_exact (c_input_tokens c)), u64_add_exact by lia. fold prompt.
  assert (RustStd.as_u64 prompt = prompt) as -> by (unfold RustStd.as_u64, u64_max in *; apply Z.mod_small; lia). done.
Qed.

(** ** On examples *)

Definition day_query : UsageQuery :=
  {| q_from := "2026-03-02T10:30:00Z"; q_to := "2026-03-03T00:00:00Z"; q_granularity := Day; q_provider := Some "kimi";
     q_model := None; q_agent := None; q_account := None; q_split_by := Some SplitModel |}.

Definition lab_db : Db := batch r_path Z.succ sample_rows empty_db.

(** The start lies inside an hour: the whole hour counts, so the record of
    10:15 does, before the start. *)
Lemma usage_summary_exact_witness :
  exists s, usage_summary (fun _ => f64_zero) (fun _ => None) day_query lab_db = Ok s /\
    no_cost (su_totals s) = totals_of (count_records (firstn 2 sample_rows)).
Proof.
  assert (Forall metered (firstn 2 sample_rows)) as Hm
    by (repeat (apply List.Forall_cons; [by apply sample_metered|]); done).
  assert (rollup_counts lab_db = rollup_spec (firstn 2 sample_rows)) as Hr.
  { destruct (holds_rows r_path Z.succ succ_above sample_rows sample_rows_metered) as [_ _ Hr]. exact Hr. }
  assert (Forall sane (log_counts lab_db)) as Hs.
  { assert (log_counts lab_db = map rollup_values [sample "a" "2026-03-02T11:00:00.1+00:00" "k2" 70; sample "b" "2026-03-02T10:59:59.9+00:00" "k2" 20]) as -> by reflexivity.
    repeat (apply List.Forall_cons; [apply rollup_values_sane; by apply sample_metered|]). done. }
  destruct (usage_summary_exact (fun _ => f64_zero) (fun _ => None) (firstn 2 sample_rows) lab_db day_query Hm Hr eq_refl
    ltac:(vm_compute; reflexivity) ltac:(repeat (apply List.Forall_cons; [by eexists|]); done) Hs ltac:(vm_compute; reflexivity))
    as (s & Hok & Ht & _).
  exists s. split; [exact Hok|]. rewrite Ht. vm_compute. reflexivity.
Defined.

Lemma account_split_fails_witness s :
  usage_summary (fun _ => f64_zero) (fun _ => None)
    {| q_from := ""; q_to := ""; q_granularity := Day; q_provider := None; q_model := None; q_agent := None;
       q_account := Some "a"; q_split_by := Some SplitAgent |} empty_db <> Ok s.
Proof. by apply account_split_fails. Defined.
