(* ===== verification/Ledger.v ===== *)
(** * The ledger: which call was that

    storage/ledger.rs: the rows of the request log under a filter, a page at a
    time, the rankings of their dimensions, and the rows as CSV. *)
From Stdlib Require Import ZArith Lia.
From stdpp Require Import gmap sorting pretty.
From S2P Require Import Prelude.
From S2P Require Import RustStd.
From S2P Require Import Json.
From S2P Require Import Utf8.
From S2P Require Import Float64.
From S2P Require Import Storage.
From S2P Require Import Summary.

Local Open Scope Z_scope.

Record LedgerFilter := {
  f_from : string;
  f_to : string;
  f_day : option string;
  f_provider : option string;
  f_model : option string;
  f_agent : option string;
  f_account : option string;
  f_failed : bool;
  f_retried : bool;
  f_query : option string
}.

Record LedgerRow := {
  lr_request_id : string;
  lr_timestamp : string;
  lr_provider : string;
  lr_client_model : string;
  lr_upstream_model : string;
  lr_served_model : option string;
  lr_agent : option string;
  lr_account : option string;
  lr_session_id : option string;
  lr_status : Z;
  lr_attempt : Z;
  lr_streaming : bool;
  lr_latency_ms : Z;
  lr_ttft_ms : Z;
  lr_input_tokens : Z;
  lr_output_tokens : Z;
  lr_cache_read_tokens : Z;
  lr_cache_write_tokens : Z;
  lr_reasoning_tokens : Z;
  lr_cost_usd : option f64
}.

(** ** The predicate *)

(** SQLite's [like]: [%] stands for any characters, [_] for one, and a letter
    of ASCII matches in both cases. The texts are taken character by character. *)
Definition same_char (a b : string) : bool := bool_decide (to_ascii_lowercase a = to_ascii_lowercase b).
Fixpoint like_chars (pat : list string) : list string -> bool :=
  match pat with
  | [] => fun text => match text with [] => true | _ :: _ => false end
  | p :: pat =>
      if decide (p = "%") then
        (fix any text := like_chars pat text || match text with [] => false | _ :: text => any text end)
      else fun text =>
        match text with
        | [] => false
        | c :: text => (bool_decide (p = "_") || same_char p c) && like_chars pat text
        end
  end.
Definition like (pat text : string) : bool := like_chars (chars pat) (chars text).

(** [column = ?]: never true of a NULL. *)
Definition column_is (want : option string) (column : option string) : bool :=
  match want with None => true | Some w => bool_decide (column = Some w) end.

(** [str::to_lowercase], by Unicode; SQLite's [lower] folds ASCII only. *)
Definition where_clause (to_lowercase : string -> string) (f : LedgerFilter) (row : LogRow) : bool :=
  between_times (f_from f) (f_to f) (l_timestamp row) &&
  match f_day f with None => true | Some day => bool_decide (substr 10 (l_timestamp row) = day) end &&
  column_is (f_provider f) (Some (l_provider row)) &&
  column_is (f_model f) (Some (l_client_model row)) &&
  column_is (f_agent f) (l_client_id row) &&
  column_is (f_account f) (l_provider_account row) &&
  (if f_failed f then 400 <=? l_response_status row else true) &&
  (if f_retried f then 0 <? l_attempt row else true) &&
  match f_query f with
  | None => true
  | Some query =>
      let needle := "%" +:+ to_lowercase query +:+ "%" in
      like needle (to_ascii_lowercase (l_client_model row)) ||
      like needle (to_ascii_lowercase (l_provider row)) ||
      like needle (to_ascii_lowercase (default "" (l_served_model row))) ||
      like needle (to_ascii_lowercase (default "" (l_session_id row)))
  end.

(** ** A page *)

Definition DEFAULT_LIMIT : Z := 100.
Definition MAX_LIMIT : Z := 500.
Definition MAX_SHARES : nat := 50.

Record LedgerPage := {
  lp_rows : list LedgerRow;
  lp_total : Z;
  lp_next_cursor : option Z;
  lp_totals : Totals
}.

Definition opt_column (o : option Z) : Z := u64_column (default 0 o).

Definition ledger_row (row : LogRow) : LedgerRow :=
  {| lr_request_id := l_request_id row; lr_timestamp := l_timestamp row; lr_provider := l_provider row;
     lr_client_model := l_client_model row; lr_upstream_model := l_upstream_model row;
     lr_served_model := l_served_model row; lr_agent := l_client_id row; lr_account := l_provider_account row;
     lr_session_id := l_session_id row; lr_status := l_response_status row;
     lr_attempt := as_u32 (u64_column (l_attempt row)); lr_streaming := l_streaming row;
     lr_latency_ms := u64_column (l_latency_ms row); lr_ttft_ms := u64_column (l_ttft_ms row);
     lr_input_tokens := u64_column (l_input_tokens row); lr_output_tokens := u64_column (l_output_tokens row);
     lr_cache_read_tokens := opt_column (l_cache_read_tokens row);
     lr_cache_write_tokens := opt_column (l_cache_write_tokens row);
     lr_reasoning_tokens := opt_column (l_reasoning_tokens row); lr_cost_usd := l_cost_usd row |}.

Definition page_limit (limit : Z) : Z := if limit =? 0 then DEFAULT_LIMIT else Z.min limit MAX_LIMIT.

Definition later_id (a b : LogRow) : Prop := l_id b <= l_id a.
#[export] Instance later_id_dec a b : Decision (later_id a b).
Proof. unfold later_id. apply _. Defined.

(** [? is null or id < ?] and [order by id desc limit ?]. *)
Definition before_cursor (cursor : option Z) (row : LogRow) : bool :=
  match cursor with None => true | Some id => l_id row <? id end.
Definition page_rows (keep : LogRow -> bool) (cursor : option Z) (limit : Z) (db : Db) : list LogRow :=
  firstn (Z.to_nat (to_i64 limit))
    (merge_sort later_id (filter (fun row => keep row && before_cursor cursor row = true) (request_logs db))).

(** The loop keeps the id of the row it read last. *)
Definition last_id (rows : list LogRow) : option Z := foldl (fun _ row => Some (l_id row)) None rows.

(** The select without a group: one row, even of no rows; [u64_column] reads
    its NULLs as 0. *)
Definition one_row (sum_real : list f64 -> f64) (rows : list LogRow) : result StorageError RollupRow :=
  aggregate sum_real fits_shared (map i_row (map log_item rows)).

Definition set_calls (calls : Z) (t : Totals) : Totals :=
  {| t_calls := calls; t_errors := t_errors t; t_input_tokens := t_input_tokens t;
     t_output_tokens := t_output_tokens t; t_cache_read_tokens := t_cache_read_tokens t;
     t_cache_write_tokens := t_cache_write_tokens t; t_cache_write_1h := t_cache_write_1h t;
     t_cache_unknown_tokens := t_cache_unknown_tokens t; t_reasoning_tokens := t_reasoning_tokens t;
     t_latency_sum_ms := t_latency_sum_ms t; t_latency_max_ms := t_latency_max_ms t;
     t_ttft_sum_ms := t_ttft_sum_ms t; t_ttft_calls := t_ttft_calls t; t_cost_usd := t_cost_usd t;
     t_unpriced := t_unpriced t; t_retried := t_retried t; t_loops := t_loops t;
     t_decode_ms := t_decode_ms t; t_decode_out := t_decode_out t; t_decode_n := t_decode_n t |}.

Section Pages.
Variable sum_real : list f64 -> f64.
Variable to_lowercase : string -> string.

Definition ledger_page (f : LedgerFilter) (cursor : option Z) (limit : Z) (db : Db) : result StorageError LedgerPage :=
  let limit := page_limit limit in
  let keep := where_clause to_lowercase f in
  let rows := page_rows keep cursor limit db in
  let kept := filter (fun row => keep row = true) (request_logs db) in
  let total := Z.of_nat (length kept) in
  match one_row sum_real kept with
  | Err e => Err e
  | Ok aggregates =>
      Ok {| lp_rows := map ledger_row rows; lp_total := total;
            lp_next_cursor := if Z.of_nat (length rows) =? limit then last_id rows else None;
            lp_totals := set_calls total (totals_at aggregates) |}
  end.

(** ** The rankings *)

Record Share := { sh_id : string; sh_provider : option string; sh_label : string; sh_totals : Totals }.
Record LedgerBy := { lb_provider : list Share; lb_agent : list Share; lb_model : list Share }.

Definition without_provider (f : LedgerFilter) : LedgerFilter :=
  {| f_from := f_from f; f_to := f_to f; f_day := f_day f; f_provider := None; f_model := f_model f;
     f_agent := f_agent f; f_account := f_account f; f_failed := f_failed f; f_retried := f_retried f;
     f_query := f_query f |}.
Definition without_agent (f : LedgerFilter) : LedgerFilter :=
  {| f_from := f_from f; f_to := f_to f; f_day := f_day f; f_provider := f_provider f; f_model := f_model f;
     f_agent := None; f_account := f_account f; f_failed := f_failed f; f_retried := f_retried f;
     f_query := f_query f |}.
Definition without_model (f : LedgerFilter) : LedgerFilter :=
  {| f_from := f_from f; f_to := f_to f; f_day := f_day f; f_provider := f_provider f; f_model := None;
     f_agent := f_agent f; f_account := f_account f; f_failed := f_failed f; f_retried := f_retried f;
     f_query := f_query f |}.

(** [order by calls desc, key asc]. *)
Definition more_calls {K} (before : K -> K -> bool) (a b : K * RollupRow) : Prop :=
  let calls (x : K * RollupRow) := c_calls (ru_counts x.2) in
  calls b < calls a \/ (calls a = calls b /\ before a.1 b.1 = true).
#[export] Instance more_calls_dec {K} before (a b : K * RollupRow) : Decision (more_calls before a b).
Proof. unfold more_calls. apply _. Defined.
Definition pair_leb (a b : string * string) : bool :=
  String.ltb a.1 b.1 || (bool_decide (a.1 = b.1) && String.leb a.2 b.2).

Definition shares {K} `{Countable K} (before : K -> K -> bool) (key : Item -> K) (f : LedgerFilter) (db : Db) :
    result StorageError (list (K * RollupRow)) :=
  rows ← select_grouped sum_real fits_shared key
           (map log_item (filter (fun row => where_clause to_lowercase f row = true) (request_logs db)));
  Ok (firstn MAX_SHARES (merge_sort (more_calls before) rows)).

Definition ledger_by (f : LedgerFilter) (db : Db) : result StorageError LedgerBy :=
  providers ← shares String.leb i_provider (without_provider f) db;
  agents ← shares String.leb i_agent (without_agent f) db;
  models ← shares pair_leb (fun i => (i_model i, i_provider i)) (without_model f) db;
  Ok {| lb_provider :=
          map (fun '(id, row) => {| sh_id := id; sh_provider := None; sh_label := id; sh_totals := totals_at row |}) providers;
        lb_agent :=
          map (fun '(id, row) => {| sh_id := id; sh_provider := None; sh_label := id; sh_totals := totals_at row |})
            (filter (fun x => is_empty x.1 = false) agents);
        lb_model :=
          map (fun '((id, provider), row) =>
                 {| sh_id := id; sh_provider := Some provider; sh_label := id +:+ " · " +:+ provider;
                    sh_totals := totals_at row |}) models |}.
End Pages.

(** ** CSV *)

Definition comma : ascii := ",".
Definition needs_quotes (field : string) : bool :=
  str_in comma field || str_in "034"%char field || str_in nl field || str_in cr field.

Fixpoint double_quotes (s : string) : string :=
  match s with
  | EmptyString => EmptyString
  | String c s => if decide (c = "034"%char) then String c (String c (double_quotes s)) else String c (double_quotes s)
  end.

Definition push_csv_field (out field : string) : string :=
  if needs_quotes field then out +:+ dquote +:+ double_quotes field +:+ dquote else out +:+ field.

Definition push_csv_record (out : string) (fields : list string) : string :=
  snd (foldl (fun '(index, out) field =>
                (S index, push_csv_field (if (0 <? index)%nat then out +:+ "," else out) field)) (0%nat, out) fields).

Definition csv_header : string :=
  "timestamp,provider,client_model,upstream_model,served_model,agent,account," +:+
  "session_id,status,streaming,latency_ms,ttft_ms,input_tokens,output_tokens," +:+
  "cache_read_tokens,cache_write_tokens,reasoning_tokens,cost_usd".

(** [format_cost] is [{value:.6}]. *)
Definition csv_fields (format_cost : f64 -> string) (row : LedgerRow) : list string :=
  [lr_timestamp row; lr_provider row; lr_client_model row; lr_upstream_model row;
   default "" (lr_served_model row); default "" (lr_agent row); default "" (lr_account row);
   default "" (lr_session_id row); pretty (lr_status row);
   if lr_streaming row then "true" else "false";
   pretty (lr_latency_ms row); pretty (lr_ttft_ms row); pretty (lr_input_tokens row); pretty (lr_output_tokens row);
   pretty (lr_cache_read_tokens row); pretty (lr_cache_write_tokens row); pretty (lr_reasoning_tokens row);
   match lr_cost_usd row with Some cost => format_cost cost | None => "" end].

Definition ledger_csv (format_cost : f64 -> string) (rows : list LedgerRow) : string :=
  foldl (fun out row => push_csv_record (out +:+ newline) (csv_fields format_cost row)) csv_header rows.

(** * What the pages show, and what a spreadsheet reads

    Paging walks the rows the filter keeps once each, whatever is logged
    meanwhile; the CSV reads back as the fields that were written. *)

(** ** Paging *)

Lemma ids_desc rows : StronglySorted Z.lt (map l_id rows) -> StronglySorted later_id (rev rows).
Proof.
  induction rows as [|row rows IH]; [constructor|]. cbn [map rev]. inversion_clear 1 as [|? ? Hs Hrow].
  specialize (IH Hs). rewrite List.Forall_map in Hrow.
  assert (Forall (fun r => later_id r row) (rev rows)) as Hr.
  { apply Forall_rev. eapply Forall_impl; [|exact Hrow]. unfold later_id. cbn. lia. }
  clear Hs Hrow. induction IH as [|r l Hl IH Hd]; cbn; [by repeat constructor|]. inversion_clear Hr.
  constructor; [by apply IH|]. apply list.Forall_app. split; [done|by apply List.Forall_cons].
Qed.

Lemma same_id (rows : list LogRow) a b :
  StronglySorted Z.lt (map l_id rows) -> a ∈ rows -> b ∈ rows -> l_id a = l_id b -> a = b.
Proof.
  induction rows as [|row rows IH]; [by intros _ Ha%elem_of_nil|]. cbn [map]. inversion_clear 1 as [|? ? Hs Hrow].
  rewrite List.Forall_map, List.Forall_forall in Hrow.
  intros [->|Ha]%list.elem_of_cons [->|Hb]%list.elem_of_cons Hid; [done| | |by apply IH].
  - apply list_elem_of_In, Hrow in Hb. lia.
  - apply list_elem_of_In, Hrow in Ha. lia.
Qed.

#[local] Instance later_id_total : Total later_id.
Proof. intros a b. unfold later_id. lia. Qed.
#[local] Instance later_id_trans : Transitive later_id.
Proof. intros a b c. unfold later_id. lia. Qed.

Lemma newest_first rows : StronglySorted Z.lt (map l_id rows) -> merge_sort later_id rows = rev rows.
Proof.
  intros Hs. apply (StronglySorted_unique_strong later_id).
  - intros a b Ha Hb H1 H2. rewrite merge_sort_Permutation in Ha. rewrite <-Permutation_rev in Hb.
    apply (same_id rows); [done..|]. unfold later_id in *. lia.
  - apply StronglySorted_merge_sort; apply _.
  - by apply ids_desc.
  - by rewrite merge_sort_Permutation, <-Permutation_rev.
Qed.

Definition kept_rows (keep : LogRow -> bool) (db : Db) : list LogRow :=
  rev (filter (fun row => keep row = true) (request_logs db)).

Lemma filter_before rows r a b :
  StronglySorted Z.lt (map l_id rows) -> rev rows = a ++ r :: b ->
  filter (fun row => (l_id row <? l_id r) = true) rows = rev b.
Proof.
  intros Hs Hr. assert (rows = rev b ++ r :: rev a) as ->.
  { rewrite <-(rev_involutive rows), Hr, rev_app_distr. cbn. by rewrite <-app_assoc. }
  clear Hr. induction (rev b) as [|x l IH]; cbn [app map] in *.
  - inversion_clear Hs as [|? ? _ Hr]. rewrite filter_cons, decide_False by (rewrite Z.ltb_irrefl; done).
    induction (rev a) as [|y m IH]; [done|]. cbn [map] in Hr. inversion_clear Hr.
    rewrite filter_cons, decide_False by (destruct (Z.ltb_spec (l_id y) (l_id r)); [lia|done]). by apply IH.
  - inversion_clear Hs as [|? ? Hs' Hx]. rewrite List.Forall_map, list.Forall_app in Hx. destruct Hx as [_ Hx%List.Forall_inv].
    rewrite filter_cons, decide_True by lia. f_equal. by apply IH.
Qed.

(** The log grows: rows with higher ids come after those that are there. *)
Definition grows (db db' : Db) : Prop :=
  exists new, request_logs db' = request_logs db ++ new /\
    Forall (fun row => Forall (fun old => l_id old < l_id row) (request_logs db)) new /\
    StronglySorted Z.lt (map l_id (request_logs db')).

Lemma page_rows_none keep limit db :
  StronglySorted Z.lt (map l_id (request_logs db)) -> limit <= i64_max ->
  page_rows keep None limit db = firstn (Z.to_nat limit) (kept_rows keep db).
Proof.
  intros Hs Hl. unfold page_rows, kept_rows. rewrite to_i64_id by done. f_equal.
  assert (filter (fun row => keep row && before_cursor None row = true) (request_logs db) =
          filter (fun row => keep row = true) (request_logs db)) as -> by (apply list_filter_iff; intros x; cbn; by rewrite andb_true_r).
  by apply newest_first, sorted_filter.
Qed.

Lemma page_rows_cursor keep limit db0 db a r b :
  StronglySorted Z.lt (map l_id (request_logs db0)) -> grows db0 db -> limit <= i64_max ->
  kept_rows keep db0 = a ++ r :: b ->
  page_rows keep (Some (l_id r)) limit db = firstn (Z.to_nat limit) b.
Proof.
  intros Hs (new & Hlogs & Hnew & Hs') Hl Hk. unfold page_rows. rewrite to_i64_id by done. f_equal.
  rewrite newest_first by (by apply (sorted_filter (fun row => keep row && before_cursor (Some (l_id r)) row))).
  rewrite Hlogs, list.filter_app.
  assert (r ∈ request_logs db0) as Hr.
  { assert (r ∈ kept_rows keep db0) as Hin by (rewrite Hk; apply elem_of_app; right; by left).
    unfold kept_rows in Hin. rewrite <-Permutation_rev in Hin. by apply list_elem_of_filter in Hin as [_ ?]. }
  assert (filter (fun row => keep row && before_cursor (Some (l_id r)) row = true) new = []) as ->.
  { clear -Hnew Hr. induction Hnew as [|x new Hx _ IH]; [done|]. rewrite filter_cons, IH. rewrite List.Forall_forall in Hx.
    apply list_elem_of_In, Hx in Hr. rewrite decide_False; [done|]. cbn. destruct (Z.ltb_spec (l_id x) (l_id r)); [lia|by rewrite andb_false_r]. }
  rewrite app_nil_r.
  rewrite <-(filter_twice (before_cursor (Some (l_id r))) keep).
  change (fun x => before_cursor (Some (l_id r)) x = true) with (fun x => (l_id x <? l_id r) = true).
  rewrite (filter_before _ r a b); [by rewrite rev_involutive|by apply sorted_filter|exact Hk].
Qed.

Section Walk.
Context (sum_real : list f64 -> f64) (to_lowercase : string -> string) (f : LedgerFilter) (limit : Z).

(** A client that follows the cursor until there is none: the [i]th page is
    read from the database as it is by then. *)
Fixpoint walk (fuel : nat) (dbs : nat -> Db) (i : nat) (cursor : option Z) : option (list LedgerRow) :=
  match fuel with
  | O => None
  | S fuel =>
      match ledger_page sum_real to_lowercase f cursor limit (dbs i) with
      | Err _ => None
      | Ok page =>
          match lp_next_cursor page with
          | None => Some (lp_rows page)
          | Some id => app (lp_rows page) <$> walk fuel dbs (S i) (Some id)
          end
      end
  end.

Lemma part_of (ok : Counts -> bool) (P : LogRow -> bool) rows :
  part_closed ok -> Forall sane (map row_counts rows) -> ok (sum_counts (map row_counts rows)) = true ->
  ok (sum_counts (map row_counts (filter (fun row => P row = true) rows))) = true.
Proof.
  intros Hc Hs Hok. rewrite List.Forall_map in Hs.
  apply (Hc _ (sum_counts (map row_counts (filter (fun row => ~ P row = true) rows)))).
  - by apply sane_sum, List.Forall_map, forall_filter.
  - by apply sane_sum, List.Forall_map, forall_filter.
  - rewrite <-sum_counts_app by (apply List.Forall_map, forall_filter; eapply Forall_impl; [|exact Hs]; intros i; apply sane_marked).
    rewrite <-map_app. by rewrite (sum_counts_perm _ (map row_counts rows)) by (apply Permutation_map, filter_app_complement).
Qed.

Lemma page_ok cursor db :
  Forall sane (log_counts db) -> fits_shared (sum_counts (log_counts db)) = true ->
  exists page, ledger_page sum_real to_lowercase f cursor limit db = Ok page /\
    let rows := page_rows (where_clause to_lowercase f) cursor (page_limit limit) db in
    lp_rows page = map ledger_row rows /\
    lp_next_cursor page = if Z.of_nat (length rows) =? page_limit limit then last_id rows else None.
Proof.
  intros Hs Hf. unfold ledger_page, one_row, aggregate.
  assert (map ru_counts (map i_row (map log_item (filter (fun row => where_clause to_lowercase f row = true) (request_logs db)))) =
          map row_counts (filter (fun row => where_clause to_lowercase f row = true) (request_logs db))) as -> by (by rewrite !map_map).
  rewrite (part_of fits_shared _ _ fits_shared_closed Hs Hf). eauto.
Qed.

Lemma last_id_snoc rows row : last_id (rows ++ [row]) = Some (l_id row).
Proof. unfold last_id. by rewrite foldl_app. Qed.

Lemma page_limit_range : 0 <= limit -> 1 <= page_limit limit <= i64_max.
Proof. unfold page_limit, DEFAULT_LIMIT, MAX_LIMIT, i64_max. intros. destruct (Z.eqb_spec limit 0); lia. Qed.

Lemma walk_rest fuel dbs i cursor b :
  0 <= limit ->
  (forall i, grows (dbs 0%nat) (dbs i)) ->
  (forall i, Forall sane (log_counts (dbs i)) /\ fits_shared (sum_counts (log_counts (dbs i))) = true) ->
  page_rows (where_clause to_lowercase f) cursor (page_limit limit) (dbs i) = firstn (Z.to_nat (page_limit limit)) b ->
  (exists a, kept_rows (where_clause to_lowercase f) (dbs 0%nat) = a ++ b) ->
  (length b < fuel)%nat ->
  walk fuel dbs i cursor = Some (map ledger_row b).
Proof.
  intros Hlim Hgrow Hfit. pose proof (page_limit_range Hlim) as [Hl1 Hl2].
  revert i cursor b. induction fuel as [|fuel IH]; intros i cursor b Hpage Hk Hlen; [lia|]. cbn [walk].
  destruct (Hfit i) as [Hs Hf]. destruct (page_ok cursor (dbs i) Hs Hf) as (page & -> & Hrows & Hnext).
  rewrite Hnext, Hrows, Hpage.
  set (n := Z.to_nat (page_limit limit)) in *.
  destruct (Z.eqb_spec (Z.of_nat (length (firstn n b))) (page_limit limit)) as [Hfull|Hshort].
  - rewrite length_firstn in Hfull. assert (n <= length b)%nat as Hn by lia.
    rewrite <-(firstn_skipn n b) in Hk. destruct (firstn n b) as [|x l _] eqn:E using rev_ind.
    { assert (length (firstn n b) = 0%nat) as H0 by (by rewrite E). rewrite length_firstn in H0. lia. }
    rewrite last_id_snoc. destruct Hk as [a Hk].
    rewrite (IH (S i) (Some (l_id x)) (skipn n b)).
    + cbn. rewrite <-map_app, <-E. by rewrite firstn_skipn.
    + pose proof (Hgrow 0%nat) as (_ & _ & _ & Hsort).
      apply (page_rows_cursor _ _ (dbs 0%nat) _ (a ++ l)); [done|apply Hgrow|done|].
      rewrite Hk, <-!app_assoc. done.
    + exists (a ++ (l ++ [x])). by rewrite Hk, !app_assoc.
    + rewrite length_skipn. lia.
  - rewrite length_firstn in Hshort. by rewrite firstn_all2 by lia.
Qed.

(** C23: a client that follows the cursor, whatever is logged between its
    pages, gets every row the filter kept when it began exactly once, newest
    first, and nothing else; and it is done after at most one page more than
    there are rows. *)
Theorem ledger_walk (dbs : nat -> Db) (fuel : nat) :
  0 <= limit ->
  (forall i, grows (dbs 0%nat) (dbs i)) ->
  (forall i, Forall sane (log_counts (dbs i)) /\ fits_shared (sum_counts (log_counts (dbs i))) = true) ->
  (length (kept_rows (where_clause to_lowercase f) (dbs 0%nat)) < fuel)%nat ->
  walk fuel dbs 0 None = Some (map ledger_row (kept_rows (where_clause to_lowercase f) (dbs 0%nat))).
Proof.
  intros Hlim Hgrow Hfit Hlen. apply walk_rest; [done..| |by exists []|done].
  pose proof (Hgrow 0%nat) as (_ & _ & _ & Hsort). apply page_rows_none; [done|]. by apply page_limit_range.
Qed.
End Walk.

(** ** The log grows *)

Lemma grows_refl db : StronglySorted Z.lt (map l_id (request_logs db)) -> grows db db.
Proof. intros Hs. exists []. by rewrite app_nil_r. Qed.

Lemma grows_trans a b c : grows a b -> grows b c -> grows a c.
Proof.
  intros (n1 & H1 & F1 & _) (n2 & H2 & F2 & S2). exists (n1 ++ n2). split_and!; [by rewrite H2, H1, app_assoc| |done].
  apply list.Forall_app. split; [done|]. eapply Forall_impl; [|exact F2]. intros row Hr. rewrite H1 in Hr.
  by apply list.Forall_app in Hr as [? _].
Qed.

(** Logging a request the log does not have lets it grow, whatever fails. *)
Lemma insert_grows (to_json : RequestLogRecord -> string) (new_id : Z -> Z) faults r db :
  (forall n, n < new_id n) -> Sound db -> log_exists (r_request_id r) (request_logs db) = false ->
  grows db (snd (insert_request_log_row to_json new_id faults r db)).
Proof.
  intros Hid Hs Hex. pose proof (sound_insert_row to_json new_id Hid faults r db Hs) as Hs'.
  assert (request_logs (snd (insert_request_log_row to_json new_id faults r db)) = request_logs db \/
          request_logs (snd (insert_request_log_row to_json new_id faults r db)) =
            request_logs db ++ [log_row (new_id (largest_id db)) r]) as [Heq|Heq].
  { assert (write_log new_id r db = set_logs (request_logs db ++ [log_row (new_id (largest_id db)) r]) (new_id (largest_id db)) db) as Hw
      by (unfold write_log; by rewrite Hex).
    unfold insert_request_log_row, mbind, stm_bind, probe, execute, upsert_rollup.
    destruct (faults Probe); [by left|]. destruct (faults WriteLog); [by left|]. right. rewrite Hw, Hex.
    destruct (faults WriteBody); [done|]. by destruct (faults WriteRollup). }
  - exists []. rewrite app_nil_r. split_and!; [done..|]. apply Hs'.
  - exists [log_row (new_id (largest_id db)) r]. split_and!; [done| |apply Hs'].
    apply List.Forall_cons; [|done]. eapply Forall_impl; [|apply (s_largest db Hs)]. cbn. pose proof (Hid (largest_id db)). lia.
Qed.

(** ** Reading CSV back

    RFC 4180: a field is either free of commas, quotes and line ends, or quoted
    with its quotes doubled; records end with LF or CRLF, the last one with the
    text. The reader answers nothing for a text that is neither. *)
Inductive CsvState : Type := AtField | Plain | Quoted | QuoteSeen.

Fixpoint csv_read (st : CsvState) (field : string) (record : list string) (records : list (list string)) (s : string) :
    option (list (list string)) :=
  match s with
  | EmptyString =>
      match st with Quoted => None | _ => Some (records ++ [record ++ [field]]) end
  | String c s =>
      match st with
      | Quoted =>
          if decide (c = "034"%char) then csv_read QuoteSeen field record records s
          else csv_read Quoted (field +:+ String c "") record records s
      | _ =>
          if decide (c = comma) then csv_read AtField "" (record ++ [field]) records s
          else if decide (c = nl) then csv_read AtField "" [] (records ++ [record ++ [field]]) s
          else if decide (c = "034"%char) then
            match st with
            | AtField => csv_read Quoted "" record records s
            | QuoteSeen => csv_read Quoted (field +:+ String c "") record records s
            | _ => None
            end
          else if decide (c = cr) then
            match s with
            | String d s => if decide (d = nl) then csv_read AtField "" [] (records ++ [record ++ [field]]) s else None
            | EmptyString => None
            end
          else
            match st with
            | QuoteSeen => None
            | _ => csv_read Plain (field +:+ String c "") record records s
            end
      end
  end.
Definition csv_parse (s : string) : option (list (list string)) := csv_read AtField "" [] [] s.

(** What a reader does once a field is complete. *)
Definition csv_close (field : string) (record : list string) (records : list (list string)) (s : string) :
    option (list (list string)) :=
  match s with
  | EmptyString => Some (records ++ [record ++ [field]])
  | String c s =>
      if decide (c = comma) then csv_read AtField "" (record ++ [field]) records s
      else if decide (c = nl) then csv_read AtField "" [] (records ++ [record ++ [field]]) s
      else None
  end.

Definition ends_field (s : string) : Prop := s = "" \/ (exists t, s = String comma t) \/ (exists t, s = String nl t).

Definition written_field (field : string) : string :=
  if needs_quotes field then dquote +:+ double_quotes field +:+ dquote else field.

Lemma read_plain st a s record records rest :
  st = AtField \/ st = Plain -> (st = AtField -> a = "") -> needs_quotes s = false -> ends_field rest ->
  csv_read st a record records (s +:+ rest) = csv_close (a +:+ s) record records rest.
Proof.
  revert st a. induction s as [|c s IH]; intros st a Hst Ha Hn Hr.
  - rewrite app_nil_l_str, app_nil_r_str. destruct Hr as [->|[[t ->]|[t ->]]]; by destruct Hst as [->| ->].
  - rewrite app_cons_str. unfold needs_quotes in Hn. cbn [str_in] in Hn.
    destruct (decide (comma = c)); [done|]. destruct (decide ("034"%char = c)); [by rewrite orb_true_r in Hn|].
    destruct (decide (nl = c)); [by rewrite orb_true_r in Hn|]. destruct (decide (cr = c)); [by rewrite !orb_true_r in Hn|].
    cbn [csv_read].
    assert (csv_read Plain (a +:+ String c "") record records (s +:+ rest) =
            csv_close (a +:+ String c s) record records rest) as Hgo.
    { rewrite (IH Plain); [|by right|done|done|done]. by rewrite app_assoc_str, app_cons_str, app_nil_l_str. }
    rewrite !decide_False by congruence. by destruct Hst as [->| ->].
Qed.

Lemma read_quoted a s record records rest :
  ends_field rest ->
  csv_read Quoted a record records (double_quotes s +:+ dquote +:+ rest) = csv_close (a +:+ s) record records rest.
Proof.
  intros Hr. revert a. induction s as [|c s IH]; intros a.
  - rewrite app_nil_r_str. cbn [double_quotes]. rewrite app_nil_l_str. unfold dquote. rewrite app_cons_str, app_nil_l_str.
    cbn [csv_read]. rewrite decide_True by done. by destruct Hr as [->|[[t ->]|[t ->]]].
  - cbn [double_quotes]. destruct (decide (c = "034"%char)) as [->|Hc]; rewrite !app_cons_str; cbn [csv_read].
    + rewrite !decide_True by done. rewrite !decide_False by done. rewrite decide_True by done.
      rewrite IH. by rewrite app_assoc_str, app_cons_str, app_nil_l_str.
    + rewrite decide_False by done. rewrite IH. by rewrite app_assoc_str, app_cons_str, app_nil_l_str.
Qed.

Lemma read_field s record records rest :
  ends_field rest -> csv_read AtField "" record records (written_field s +:+ rest) = csv_close s record records rest.
Proof.
  intros Hr. unfold written_field. destruct (needs_quotes s) eqn:E.
  - unfold dquote at 1. rewrite !app_cons_str, app_nil_l_str. cbn [csv_read]. rewrite !decide_False by done.
    rewrite decide_True by done. rewrite app_assoc_str. by rewrite read_quoted by done.
  - apply read_plain; auto.
Qed.

Lemma read_record fields record records rest :
  fields <> [] -> rest = "" \/ (exists t, rest = String nl t) ->
  csv_read AtField "" record records (join "," (map written_field fields) +:+ rest) =
  match rest with
  | EmptyString => Some (records ++ [record ++ fields])
  | String _ t => csv_read AtField "" [] (records ++ [record ++ fields]) t
  end.
Proof.
  intros Hne Hr. revert record. induction fields as [|s fields IH]; intros record; [done|].
  destruct fields as [|s' fields]; cbn [map join].
  - rewrite read_field by (destruct Hr as [->|[t ->]]; unfold ends_field; eauto). by destruct Hr as [->|[t ->]].
  - rewrite !app_assoc_str. change ("," +:+ ?x) with (String comma x).
    rewrite read_field by (right; left; eauto). cbn [csv_close]. rewrite decide_True by done.
    etransitivity; [apply (IH ltac:(done) (record ++ [s]))|]. by rewrite <-!app_assoc.
Qed.

Definition csv_line (fields : list string) : string := join "," (map written_field fields).
Definition csv_lines (records : list (list string)) : string :=
  concat_strings (map (fun fields => newline +:+ csv_line fields) records).

Lemma read_lines fields rest records :
  Forall (fun fs => fs <> []) (fields :: rest) ->
  csv_read AtField "" [] records (csv_line fields +:+ csv_lines rest) = Some (records ++ fields :: rest).
Proof.
  revert fields records. induction rest as [|next rest IH]; intros fields records Hne; inversion_clear Hne.
  - unfold csv_lines, csv_line. cbn [map concat_strings foldr]. rewrite read_record; [done|done|by left].
  - unfold csv_lines, csv_line in *. cbn [map]. unfold concat_strings in *. cbn [foldr]. rewrite read_record; [|done|right].
    + unfold newline. rewrite !app_cons_str, app_nil_l_str. rewrite IH by done. by rewrite <-app_assoc.
    + eexists. unfold newline. by rewrite !app_cons_str, app_nil_l_str.
Qed.

Lemma push_field out field : push_csv_field out field = out +:+ written_field field.
Proof. unfold push_csv_field, written_field. by destruct (needs_quotes field). Qed.

Lemma push_later n out fields :
  snd (foldl (fun '(index, out) field => (S index, push_csv_field (if (0 <? index)%nat then out +:+ "," else out) field)) (S n, out) fields) =
  out +:+ concat_strings (map (fun field => "," +:+ written_field field) fields).
Proof.
  revert n out. induction fields as [|s fields IH]; intros n out; [by rewrite app_nil_r_str|].
  cbn [foldl]. rewrite IH, push_field. cbn [map]. unfold concat_strings. cbn [foldr Nat.ltb Nat.leb]. by rewrite !app_assoc_str.
Qed.

Lemma push_record out fields : push_csv_record out fields = out +:+ csv_line fields.
Proof.
  unfold push_csv_record, csv_line. destruct fields as [|s fields]; [by rewrite app_nil_r_str|]. cbn [foldl].
  rewrite push_later, push_field. cbn [Nat.ltb Nat.leb]. rewrite app_assoc_str. f_equal.
  revert s. induction fields as [|s' fields IH]; intros s; [by rewrite app_nil_r_str|].
  change (join "," (map written_field (s :: s' :: fields)))
    with (written_field s +:+ "," +:+ join "," (map written_field (s' :: fields))).
  cbn [map] in *. rewrite <-IH. unfold concat_strings. cbn [foldr]. by rewrite !app_assoc_str.
Qed.

Definition csv_columns : list string :=
  ["timestamp"; "provider"; "client_model"; "upstream_model"; "served_model"; "agent"; "account"; "session_id"; "status";
   "streaming"; "latency_ms"; "ttft_ms"; "input_tokens"; "output_tokens"; "cache_read_tokens"; "cache_write_tokens";
   "reasoning_tokens"; "cost_usd"].

(** The CSV of any rows, whatever commas, quotes and line ends their texts
    hold, reads back by RFC 4180 as the 18 columns of the header and then each
    row's 18 fields, in order. *)
Theorem csv_roundtrip (format_cost : f64 -> string) (rows : list LedgerRow) :
  csv_parse (ledger_csv format_cost rows) = Some (csv_columns :: map (csv_fields format_cost) rows).
Proof.
  assert (ledger_csv format_cost rows = csv_line csv_columns +:+ csv_lines (map (csv_fields format_cost) rows)) as ->.
  { unfold ledger_csv. change csv_header with (csv_line csv_columns). generalize (csv_line csv_columns) as out.
    induction rows as [|row rows IH]; intros out; [by rewrite app_nil_r_str|].
    cbn [foldl]. rewrite IH, push_record. unfold csv_lines. cbn [map]. unfold concat_strings. cbn [foldr]. by rewrite !app_assoc_str. }
  unfold csv_parse. rewrite read_lines; [done|]. apply List.Forall_cons; [done|]. apply List.Forall_map. by apply List.Forall_forall.
Qed.

(** ** On examples *)

Definition all_rows : LedgerFilter :=
  {| f_from := ""; f_to := "9"; f_day := None; f_provider := None; f_model := None; f_agent := None; f_account := None;
     f_failed := false; f_retried := false; f_query := None |}.

(** Pages of one row, with a third request logged after the first page. *)
Definition paging_dbs (i : nat) : Db :=
  match i with
  | O => batch r_path Z.succ (firstn 2 sample_rows) empty_db
  | _ => batch r_path Z.succ (firstn 2 sample_rows ++ [sample "c" "2026-03-02T12:00:00Z" "k2" 5]) empty_db
  end.

Lemma ledger_walk_witness :
  walk (fun _ => f64_zero) id all_rows 1 3 paging_dbs 0 None =
    Some (map ledger_row (kept_rows (where_clause id all_rows) (paging_dbs 0))) /\
  map l_request_id (kept_rows (where_clause id all_rows) (paging_dbs 0)) = ["b"; "a"] /\
  map l_request_id (request_logs (paging_dbs 1)) = ["a"; "b"; "c"].
Proof.
  assert (forall i, request_logs (paging_dbs i) =
            [log_row 1 (sample "a" "2026-03-02T10:15:00.5+00:00" "k2" 10); log_row 2 (sample "b" "2026-03-02T10:59:59.9+00:00" "k2" 20)] ++
            match i with O => [] | _ => [log_row 3 (sample "c" "2026-03-02T12:00:00Z" "k2" 5)] end) as Hlogs by (by intros []).
  split; [|split; [vm_compute; reflexivity|reflexivity]]. apply ledger_walk; [lia| | |vm_compute; lia].
  - intros i. exists match i with O => [] | _ => [log_row 3 (sample "c" "2026-03-02T12:00:00Z" "k2" 5)] end.
    rewrite !Hlogs. split_and!; [by rewrite app_nil_r|destruct i; cbn; repeat constructor|destruct i; cbn; repeat constructor].
  - intros i. split; [|by destruct i; vm_compute].
    assert (log_counts (paging_dbs i) = map rollup_values (firstn 2 sample_rows ++ match i with O => [] | _ => [sample "c" "2026-03-02T12:00:00Z" "k2" 5] end)) as ->
      by (by destruct i).
    apply List.Forall_map, list.Forall_app. split;
      [repeat (apply List.Forall_cons; [apply rollup_values_sane; by apply sample_metered|]); done|].
    destruct i; repeat (apply List.Forall_cons; [apply rollup_values_sane; by apply sample_metered|]); done.
Defined.
