(* ===== verification/Usage.v ===== *)
(** * What a reply says it cost

    request_log/usage.rs, usage.rs and pricing.rs: the token counts and labels
    read from a body or from the events of a stream, and the price of a call. *)
From Stdlib Require Import ZArith Lia Sorting.Sorted.
From stdpp Require Import sets.
From S2P Require Import Prelude.
From S2P Require Import RustStd.
From S2P Require Import Json.
From S2P Require Import Format.
From S2P Require Import Ir.
From S2P Require Import Utf8.
From S2P Require Import Float64.

Local Open Scope Z_scope.

(** [value.get(a)], then [.get(b)], ... *)
Definition get_path (path : list string) (v : Value) : option Value :=
  foldl (fun v k => v ≫= get_key k) (Some v) path.
Definition u64_at (path : list string) (v : Value) : option Z := get_path path v ≫= Json.as_u64.
Definition str_at (path : list string) (v : Value) : option string := get_path path v ≫= Json.as_str.
(** [a.or_else(|| b).and_then(Value::as_u64).unwrap_or(0)]: a first key that is
    there decides, whatever it holds. *)
Definition u64_either (a b : string) (v : Value) : Z :=
  default 0 (opt_or (get_key a v) (get_key b v) ≫= Json.as_u64).

Definition usage_of (input output : Z) (cache_read cache_write write_1h reasoning : option Z) : Usage :=
  {| input_tokens := input; output_tokens := output; cache_read_tokens := cache_read;
     cache_write_tokens := cache_write; cache_write_1h := write_1h; reasoning_tokens := reasoning |}.

Definition extract_openai_usage (value : Value) : Usage :=
  match get_key "usage" value with
  | None => Usage_default
  | Some usage =>
      usage_of (u64_either "prompt_tokens" "input_tokens" usage) (u64_either "completion_tokens" "output_tokens" usage)
        (u64_at ["prompt_tokens_details"; "cached_tokens"] usage) None None
        (u64_at ["completion_tokens_details"; "reasoning_tokens"] usage)
  end.

Definition extract_claude_usage (value : Value) : Usage :=
  match get_key "usage" value with
  | None => Usage_default
  | Some usage =>
      usage_of (default 0 (u64_at ["input_tokens"] usage)) (default 0 (u64_at ["output_tokens"] usage))
        (u64_at ["cache_read_input_tokens"] usage) (u64_at ["cache_creation_input_tokens"] usage)
        (u64_at ["cache_creation"; "ephemeral_1h_input_tokens"] usage) None
  end.

Definition extract_gemini_usage (value : Value) : Usage :=
  match get_key "usageMetadata" value with
  | None => Usage_default
  | Some meta =>
      usage_of (default 0 (u64_at ["promptTokenCount"] meta)) (default 0 (u64_at ["candidatesTokenCount"] meta))
        None None None None
  end.

Definition effort_of_budget (tokens : Z) : string :=
  if tokens <? 2048 then "low" else if tokens <? 8192 then "medium" else "high".

Definition effort_of (value : Value) : option string :=
  match str_at ["reasoning_effort"] value with
  | Some effort => Some effort
  | None =>
      match str_at ["reasoning"; "effort"] value with
      | Some effort => Some effort
      | None =>
          match u64_at ["thinking"; "budget_tokens"] value with
          | Some budget => Some (effort_of_budget budget)
          | None =>
              let thinking := get_path ["generationConfig"; "thinkingConfig"] value in
              match thinking ≫= u64_at ["thinkingBudget"] with
              | Some budget => Some (effort_of_budget budget)
              | None =>
                  match thinking ≫= get_key "includeThoughts" with
                  | Some (VBool false) => Some "none"
                  | _ => None
                  end
              end
          end
      end
  end.

Definition tier_of (value : Value) : option string :=
  match str_at ["service_tier"] value with
  | Some tier => Some tier
  | None => if decide (str_at ["speed"] value = Some "fast") then Some "fast" else None
  end.

(** [Iterator::find_map]. *)
Definition find_map {A B} (f : A -> option B) (l : list A) : option B := head (filter_map f l).

Definition DONE : string := "[DONE]".
(** The payload of a [data:] line, when it has one. *)
Definition data_payload (line : string) : option string :=
  data ← strip_prefix "data:" line;
  let data := trim data in
  if is_empty data || bool_decide (data = DONE) then None else Some data.

Section Reading.
Context `{SerdeJson}.

Definition extract_usage (body : string) (format : Format) : Usage :=
  match value_from_str body with
  | Err _ => Usage_default
  | Ok value =>
      match format with
      | Claude => extract_claude_usage value
      | Gemini => extract_gemini_usage value
      | OpenAIChat | OpenAIResponses => extract_openai_usage value
      end
  end.

(** The last model a [data:] line names, on top or under [message]. *)
Definition line_model (line : string) : option string :=
  data ← data_payload (trim line);
  value ← ok (value_from_str data);
  opt_or (get_key "model" value) (get_path ["message"; "model"] value) ≫= Json.as_str.

Definition extract_served_model (body : string) (format : Format) : option string :=
  match (value ← ok (value_from_str body); object ← as_object value; get_str "model" object) with
  | Some model => Some model
  | None => foldl (fun served line => opt_or (line_model line) served) None (lines (from_utf8_lossy body))
  end.

Definition reply_values (body : string) : list Value :=
  match value_from_str body with
  | Ok value => [value]
  | Err _ =>
      filter_map (fun line => data ← data_payload (trim line); ok (value_from_str data)) (lines (from_utf8_lossy body))
  end.

Definition extract_effort (body : string) : option string := find_map effort_of (reply_values body).
Definition extract_tier (body : string) : option string := find_map tier_of (rev (reply_values body)).
Definition extract_upstream_provider (body : string) : option string :=
  find_map (str_at ["provider"]) (rev (reply_values body)).

Definition AUXILIARY_MAX_BYTES : nat := 4 * 1024.
Definition extract_kind (body : string) (agent : option string) : option string :=
  if (AUXILIARY_MAX_BYTES <=? String.length body)%nat then None
  else
    match (value ← ok (value_from_str body); as_object value) with
    | None => None
    | Some object => if map_contains "tools" object || map_contains "system" object then None else Some "auxiliary"
    end.

(** ** Streams *)

Definition counts_something (u : Usage) : bool :=
  (0 <? input_tokens u) || (0 <? output_tokens u) || is_some (cache_read_tokens u) ||
  is_some (cache_write_tokens u) || is_some (reasoning_tokens u).
(** [UsageExt::or_else]. *)
Definition usage_or (u fallback : Usage) : Usage := if counts_something u then u else fallback.

Definition under_usage (usage : Value) : Value := obj [("usage", usage)].

Definition event_usage (format : Format) (value : Value) : Usage :=
  match format with
  | OpenAIResponses =>
      default Usage_default ((fun u => extract_openai_usage (under_usage u)) <$> get_path ["response"; "usage"] value)
  | OpenAIChat => extract_openai_usage value
  | Claude =>
      usage_or (extract_claude_usage value)
        (default Usage_default ((fun u => extract_claude_usage (under_usage u)) <$> get_path ["message"; "usage"] value))
  | Gemini => extract_gemini_usage value
  end.

Definition extract_sse_data_payloads (block : string) : list string :=
  filter (fun data => is_empty data = false) (map trim (filter_map (strip_prefix "data:") (lines block))).

Definition fold_usage (format : Format) (latest : Usage) (data : string) : Usage :=
  if decide (data = DONE) then latest
  else
    match value_from_str data with
    | Err _ => latest
    | Ok value => let u := event_usage format value in if counts_something u then u else latest
    end.

Definition extract_stream_usage_from_sse_lines (blocks : list string) (format : Format) : Usage :=
  foldl (fun latest block => foldl (fold_usage format) latest (extract_sse_data_payloads block)) Usage_default blocks.

(** ** The usage file beside the request log (usage.rs) *)

Definition extract_usage_from_response (body : string) : Z * Z :=
  match value_from_str body with
  | Err _ => (0, 0)
  | Ok v =>
      match get_key "usage" v with
      | Some usage => (u64_either "prompt_tokens" "input_tokens" usage, u64_either "completion_tokens" "output_tokens" usage)
      | None =>
          match get_key "usageMetadata" v with
          | Some meta => (default 0 (u64_at ["promptTokenCount"] meta), default 0 (u64_at ["candidatesTokenCount"] meta))
          | None => (0, 0)
          end
      end
  end.
End Reading.

(** ** Prices *)

Record Price := { p_input : f64; p_output : f64; p_cache_read : f64; p_cache_write : f64; p_cache_write_1h : f64 }.

Definition per_million (tokens : Z) (usd_per_million : f64) : f64 :=
  f64_mul (f64_div (f64_of_Z tokens) (f64_of_Z 1000000)) usd_per_million.

(** [f == 0.0]: either zero. *)
Definition is_zero (f : f64) : bool := match f with SpecFloat.S754_zero _ => true | _ => false end.

Definition cost_split (price : Price) (usage : Usage) : f64 :=
  let cost := f64_add (per_million (input_tokens usage) (p_input price)) (per_million (output_tokens usage) (p_output price)) in
  let cost := match cache_read_tokens usage with
              | Some tokens => f64_add cost (per_million tokens (p_cache_read price))
              | None => cost
              end in
  match cache_write_tokens usage with
  | None => cost
  | Some tokens =>
      let one_hour := Z.min (default 0 (cache_write_1h usage)) tokens in
      let rest := tokens - one_hour in
      let one_hour_rate := if is_zero (p_cache_write_1h price) then p_cache_write price else p_cache_write_1h price in
      f64_add cost (f64_add (per_million one_hour one_hour_rate) (per_million rest (p_cache_write price)))
  end.

(** A [BTreeMap]: its entries in the order of their keys. *)
Definition PriceTable : Type := list (string * Price).

Definition bare_prefix (pattern : string) : string := default pattern (strip_suffix "*" pattern).

(** [max_by_key] on the length of the key: of equal ones the last. *)
Definition longer_key (best : option (string * Price)) (entry : string * Price) : option (string * Price) :=
  match best with
  | Some b => if (String.length b.1 <=? String.length entry.1)%nat then Some entry else Some b
  | None => Some entry
  end.

Definition resolve (prices : PriceTable) (model : string) : option Price :=
  snd <$> foldl longer_key None (filter (fun entry => starts_with (bare_prefix entry.1) model = true) prices).

Definition OFFSET_BASIS : Z := 0xcbf29ce484222325.
Definition PRIME : Z := 0x100000001b3.
Definition fnv_byte (hash : Z) (byte : ascii) : Z := RustStd.as_u64 (Z.lxor hash (byte_val byte) * PRIME).

Fixpoint hex_digits (n : nat) (z : Z) : string :=
  match n with
  | O => ""
  | S n => hex_digits n (z / 16) +:+ String (default "0"%char (String.get (Z.to_nat (z mod 16)) "0123456789abcdef")) ""
  end.

(** [display] is [f64]'s [Display]. *)
Definition version (display : f64 -> string) (prices : PriceTable) : string :=
  let line (entry : string * Price) :=
    let '(pattern, p) := entry in
    pattern +:+ "=" +:+ display (p_input p) +:+ "," +:+ display (p_output p) +:+ "," +:+ display (p_cache_read p) +:+
    "," +:+ display (p_cache_write p) +:+ "," +:+ display (p_cache_write_1h p) +:+ newline in
  hex_digits 16 (foldl (fun hash entry => foldl fnv_byte hash (String.list_ascii_of_string (line entry))) OFFSET_BASIS prices).

(** * The longest prefix wins *)

(** A key the table is meant to hold: a prefix, with at most a [*] after it,
    and no byte of it before [*] in ASCII (a blank, a quote, a bracket). *)
Fixpoint after_star (s : string) : bool :=
  match s with EmptyString => true | String c s => (42 <? byte_val c) && after_star s end.
Definition priced_key (pattern : string) : bool := after_star (bare_prefix pattern).

Lemma bare_prefix_cases pattern :
  bare_prefix pattern = pattern \/ pattern = bare_prefix pattern +:+ "*".
Proof.
  unfold bare_prefix. destruct (strip_suffix "*" pattern) as [p|] eqn:E; cbn; [right|by left].
  by apply strip_suffix_Some in E.
Qed.

Definition key_lt (a b : string * Price) : Prop := String.compare a.1 b.1 = Lt.
(** [e] is kept when [x] came before it. *)
Definition beats (e x : string * Price) : Prop :=
  x = e \/ (String.length x.1 < String.length e.1)%nat \/ String.length x.1 = String.length e.1 /\ key_lt x e.

Lemma beats_trans e x y : beats e x -> beats x y -> beats e y.
Proof.
  unfold beats. intros [->|[Hx|[Hx Kx]]] [->|[Hy|[Hy Ky]]]; auto; try (right; left; lia).
  right; right. split; [lia|]. by eapply compare_lt_trans.
Qed.

Lemma keys_sorted_strong (l : PriceTable) : keys_sorted l = true -> StronglySorted key_lt l.
Proof.
  induction l as [|[k v] l IH]; [constructor|]. intros [Hl Hk]%keys_sorted_head. constructor; [by apply IH|].
  eapply Forall_impl; [|exact Hk]. by intros [].
Qed.

Lemma strong_filter (P : string * Price -> Prop) `{!forall x, Decision (P x)} l :
  StronglySorted key_lt l -> StronglySorted key_lt (filter P l).
Proof.
  induction 1 as [|x l _ IH Hx]; [constructor|]. rewrite filter_cons. case_decide; [|done].
  constructor; [done|]. apply List.Forall_forall. intros y [_ Hy%list_elem_of_In]%list_elem_of_In%list_elem_of_filter.
  by eapply List.Forall_forall in Hx.
Qed.

Lemma longest_from b l :
  StronglySorted key_lt (b :: l) ->
  exists e, foldl longer_key (Some b) l = Some e /\ e ∈ b :: l /\ forall x, x ∈ b :: l -> beats e x.
Proof.
  revert b. induction l as [|x l IH]; intros b Hs; cbn [foldl longer_key].
  { exists b. split_and!; [done|set_solver|]. intros x ->%list_elem_of_singleton. by left. }
  inversion_clear Hs as [|?? Hs' Hb]. inversion_clear Hs' as [|?? Hl Hx].
  apply List.Forall_cons_iff in Hb as [Hbx Hbl]. destruct (Nat.leb_spec (String.length b.1) (String.length x.1)) as [L|L].
  - destruct (IH x) as (e & He & Hin & Hbest); [by constructor|]. exists e.
    split_and!; [done|set_solver|]. intros y [->|Hy]%list.elem_of_cons; [|by apply Hbest].
    apply (beats_trans e x); [apply Hbest; set_solver|]. right.
    destruct (decide (String.length b.1 = String.length x.1)); [by right|left; lia].
  - destruct (IH b) as (e & He & Hin & Hbest); [by constructor|]. exists e.
    split_and!; [done|set_solver|]. intros y [->|[->|Hy]%list.elem_of_cons]%list.elem_of_cons.
    + apply Hbest; set_solver.
    + apply (beats_trans e b); [apply Hbest; set_solver|]. right; left. lia.
    + apply Hbest; set_solver.
Qed.

Lemma compare_app_str p a b : String.compare (p +:+ a) (p +:+ b) = String.compare a b.
Proof.
  induction p as [|c p IH]; [done|]. rewrite !app_cons_str. cbn. unfold Ascii.compare. by rewrite N.compare_refl.
Qed.

Lemma prefix_by_length p q rp rq :
  p +:+ rp = q +:+ rq -> (String.length q <= String.length p)%nat -> exists m, p = q +:+ m.
Proof.
  revert p. induction q as [|c q IH]; intros p E L; [by exists p|].
  destruct p as [|d p]; [cbn in L; lia|]. rewrite !app_cons_str in E. injection E as -> E.
  destruct (IH p E) as [m ->]; [cbn in L; lia|]. exists m. by rewrite app_cons_str.
Qed.

Lemma after_star_app p s : after_star (p +:+ s) = after_star p && after_star s.
Proof.
  induction p as [|c p IH]; [done|]. rewrite app_cons_str. cbn [after_star]. by rewrite IH, andb_assoc.
Qed.

(** Of two matching keys, the one that is kept has the longer prefix. *)
Lemma beats_prefix e x model :
  priced_key x.1 = true -> beats e x ->
  starts_with (bare_prefix e.1) model = true -> starts_with (bare_prefix x.1) model = true ->
  (String.length (bare_prefix x.1) <= String.length (bare_prefix e.1))%nat.
Proof.
  unfold beats, key_lt, priced_key. intros Hp Hb [re ->]%starts_with_Some [rx Hx]%starts_with_Some.
  destruct Hb as [->|Hb]; [done|].
  destruct (decide (String.length (bare_prefix x.1) <= String.length (bare_prefix e.1))%nat) as [|L]; [done|]. exfalso.
  destruct (prefix_by_length (bare_prefix x.1) (bare_prefix e.1) rx re) as [m Hm]; [done|lia|].
  rewrite Hm in Hp, L. rewrite after_star_app in Hp. apply andb_prop in Hp as [_ Hp]. rewrite length_app_str in L.
  destruct m as [|c m]; [cbn in L; lia|]. cbn [after_star] in Hp. apply andb_prop in Hp as [Hc%Z.ltb_lt Hp].
  pose proof (bare_prefix_cases e.1) as He. pose proof (bare_prefix_cases x.1) as Hx'. rewrite Hm in Hx'.
  assert (Hle : (String.length (bare_prefix e.1) + S (String.length m) <= String.length x.1)%nat).
  { destruct Hx' as [<- | ->]; rewrite !length_app_str; cbn; lia. }
  assert (Hee : (String.length e.1 <= String.length (bare_prefix e.1) + 1)%nat).
  { destruct He as [He|He]; [rewrite He; lia|]. rewrite He at 1. rewrite length_app_str. cbn. lia. }
  destruct Hb as [Hb|[Hb Hlt]]; [lia|].
  assert (He' : e.1 = bare_prefix e.1 +:+ "*").
  { destruct He as [He|He]; [|done]. rewrite He in Hle. lia. }
  assert (exists s, x.1 = bare_prefix e.1 +:+ String c s) as [s Hs].
  { destruct Hx' as [<- | ->]; eexists; [done|]. by rewrite app_assoc_str, app_cons_str. }
  rewrite He', Hs, compare_app_str in Hlt. cbn in Hlt. unfold Ascii.compare in Hlt.
  unfold byte_val, nat_of_ascii in Hc. change (N_of_ascii "*") with 42%N in Hlt.
  destruct (N.compare_spec (N_of_ascii c) 42); try done; lia.
Qed.

(** The price of a model is the price of its longest prefix. In a table
    whose keys are prefixes of any bytes after [*], with or without a [*] at
    their end, [resolve] finds nothing exactly when no key's prefix starts the
    model's name, and otherwise the price of a key that does, no other
    matching key having a longer prefix. *)
Theorem price_longest prices model :
  keys_sorted prices = true -> Forall (fun entry => priced_key entry.1 = true) prices ->
  match resolve prices model with
  | None => Forall (fun entry => starts_with (bare_prefix entry.1) model = false) prices
  | Some price =>
      exists key, (key, price) ∈ prices /\ starts_with (bare_prefix key) model = true /\
        Forall (fun entry => starts_with (bare_prefix entry.1) model = true ->
                  (String.length (bare_prefix entry.1) <= String.length (bare_prefix key))%nat) prices
  end.
Proof.
  intros Hs Hk. unfold resolve.
  match goal with |- context [foldl longer_key None ?l] => set (hits := l) end.
  assert (Hh : forall x, x ∈ hits <-> starts_with (bare_prefix x.1) model = true /\ x ∈ prices).
  { intros x. unfold hits. by rewrite list_elem_of_filter. }
  assert (Hsort : StronglySorted key_lt hits) by (by apply strong_filter, keys_sorted_strong).
  destruct hits as [|b l] eqn:E; cbn [foldl longer_key].
  { cbn. apply list.Forall_forall. intros x Hx. destruct (starts_with _ _) eqn:M; [|done].
    destruct (proj1 (list_elem_of_In _ _) (proj2 (Hh x) (conj M Hx))). }
  destruct (longest_from b l Hsort) as (e & -> & Hin & Hbest). cbn.
  pose proof (proj1 (Hh _) Hin) as [Hm Hp]. exists e.1. destruct e as [key price]. cbn in *.
  split_and!; [done|done|]. apply list.Forall_forall. intros x Hx Mx.
  apply (beats_prefix (key, price) x model); [|by apply Hbest, Hh|done..].
  by apply (proj1 (list.Forall_forall _ _) Hk).
Qed.

Definition at_price (input output : Z) : Price :=
  {| p_input := f64_of_Z input; p_output := f64_of_Z output; p_cache_read := f64_of_Z 0;
     p_cache_write := f64_of_Z 0; p_cache_write_1h := f64_of_Z 0 |}.
Definition some_prices : PriceTable := [("claude-*", at_price 3 15); ("claude-opus-4*", at_price 15 75); ("gpt-5", at_price 1 10)].

Lemma price_longest_witness :
  resolve some_prices "claude-opus-4-8" = Some (at_price 15 75) /\ resolve some_prices "claude-haiku" = Some (at_price 3 15) /\
  match resolve some_prices "o3" with
  | None => Forall (fun entry => starts_with (bare_prefix entry.1) "o3" = false) some_prices
  | Some _ => False
  end.
Proof.
  split_and!; [by vm_compute|by vm_compute|]. apply (price_longest some_prices "o3"); [by vm_compute|].
  by repeat constructor.
Defined.

(** The length of a key counts its [*], so a key with a blank in it loses
    against a shorter prefix with a star of the same length. *)
Example starred_key_wins :
  resolve [("a !", at_price 1 1); ("a *", at_price 2 2)] "a !x" = Some (at_price 2 2).
Proof. by vm_compute. Qed.
