(* ===== verification/Trace.v ===== *)
(** * What the request log shows of a conversation

    observability.rs: the messages, tools, tool calls and tool results read
    from the bodies of a request and from the events of a stream, each cut to
    a preview. A [summary] that the code fills in place is passed along. *)
From Stdlib Require Import ZArith Lia.
From S2P Require Import Prelude.
From S2P Require Import RustStd.
From S2P Require Import Json.
From S2P Require Import Format.
From S2P Require Import Utf8.
From S2P Require Import Redact.

Record TraceMessage := { tm_role : string; tm_content_preview : string }.
Record TraceToolDefinition := { td_name : string; td_namespace : option string }.
Record TraceToolCall := {
  tc_id : option string;
  tc_name : string;
  tc_namespace : option string;
  tc_arguments_preview : string
}.
Record TraceToolResult := { tr_id : option string; tr_content_preview : string }.

Record TraceBodySummary := {
  ts_messages : list TraceMessage;
  ts_tool_definitions : list TraceToolDefinition;
  ts_tool_calls : list TraceToolCall;
  ts_tool_results : list TraceToolResult
}.
Definition TraceBodySummary_default : TraceBodySummary :=
  {| ts_messages := []; ts_tool_definitions := []; ts_tool_calls := []; ts_tool_results := [] |}.

Record RequestTraceSummary := {
  rt_client : TraceBodySummary;
  rt_upstream : TraceBodySummary;
  rt_response : TraceBodySummary
}.

(** [Vec::push] on each list. *)
Definition push_message (m : TraceMessage) (s : TraceBodySummary) : TraceBodySummary :=
  {| ts_messages := ts_messages s ++ [m]; ts_tool_definitions := ts_tool_definitions s;
     ts_tool_calls := ts_tool_calls s; ts_tool_results := ts_tool_results s |}.
Definition push_definitions (l : list TraceToolDefinition) (s : TraceBodySummary) : TraceBodySummary :=
  {| ts_messages := ts_messages s; ts_tool_definitions := ts_tool_definitions s ++ l;
     ts_tool_calls := ts_tool_calls s; ts_tool_results := ts_tool_results s |}.
Definition push_call (c : TraceToolCall) (s : TraceBodySummary) : TraceBodySummary :=
  {| ts_messages := ts_messages s; ts_tool_definitions := ts_tool_definitions s;
     ts_tool_calls := ts_tool_calls s ++ [c]; ts_tool_results := ts_tool_results s |}.
Definition push_result (r : TraceToolResult) (s : TraceBodySummary) : TraceBodySummary :=
  {| ts_messages := ts_messages s; ts_tool_definitions := ts_tool_definitions s;
     ts_tool_calls := ts_tool_calls s; ts_tool_results := ts_tool_results s ++ [r] |}.

Definition merge_summary (target source : TraceBodySummary) : TraceBodySummary :=
  {| ts_messages := ts_messages target ++ ts_messages source;
     ts_tool_definitions := ts_tool_definitions target ++ ts_tool_definitions source;
     ts_tool_calls := ts_tool_calls target ++ ts_tool_calls source;
     ts_tool_results := ts_tool_results target ++ ts_tool_results source |}.

(** A loop over the elements of an array that may not be there. *)
Definition each (v : option Value) (step : TraceBodySummary -> Value -> TraceBodySummary) (s : TraceBodySummary)
  : TraceBodySummary :=
  match v ≫= as_array with Some l => foldl step s l | None => s end.

(** A definition with a name, when [tool] has one. *)
Definition named_tool (tool : Value) (namespace : option string) : list TraceToolDefinition :=
  match value_str "name" tool with
  | Some name => [{| td_name := name; td_namespace := namespace |}]
  | None => []
  end.

(** The tool and, in a namespace, the tools in it, however deep. *)
Fixpoint responses_tool (tool : Value) (namespace : option string) : list TraceToolDefinition :=
  if decide (value_str "type" tool = Some "namespace") then
    match tool with
    | VObject m =>
        (fix inner (m : Map) : list TraceToolDefinition :=
           match m with
           | [] => []
           | (key, val) :: m =>
               if decide ("tools" = key) then
                 match val with
                 | VArray tools => List.flat_map (fun t => responses_tool t (value_str "name" tool)) tools
                 | _ => []
                 end
               else inner m
           end) m
    | _ => []
    end
  else named_tool tool (opt_or namespace (value_str "namespace" tool)).

Definition collect_responses_tools (tools : list Value) (namespace : option string) (s : TraceBodySummary)
  : TraceBodySummary :=
  push_definitions (List.flat_map (fun tool => responses_tool tool namespace) tools) s.

Section summaries.
Context `{SerdeJson}.
Variable max_preview_bytes : nat.

Definition preview_value (value : Value) : string :=
  match value with
  | VString s => preview_str s max_preview_bytes
  | VNull => ""
  | other => preview_str (unwrap_or_r "" (serde_to_string other)) max_preview_bytes
  end.

Definition role_of (message : Value) : string := default "unknown" (value_str "role" message).

Definition collect_claude_block (s : TraceBodySummary) (block : Value) : TraceBodySummary :=
  match value_str "type" block with
  | Some "tool_use" =>
      match value_str "name" block with
      | Some name =>
          push_call {| tc_id := value_str "id" block; tc_name := name; tc_namespace := None;
                       tc_arguments_preview := preview_value (default VNull (get_key "input" block)) |} s
      | None => s
      end
  | Some "tool_result" =>
      push_result {| tr_id := value_str "tool_use_id" block;
                     tr_content_preview := preview_value (default VNull (get_key "content" block)) |} s
  | _ => s
  end.

Definition collect_claude_content (content : Value) (s : TraceBodySummary) : TraceBodySummary :=
  each (Some content) collect_claude_block s.

Definition claude_message (s : TraceBodySummary) (message : Value) : TraceBodySummary :=
  let content := default VNull (get_key "content" message) in
  collect_claude_content content
    (push_message {| tm_role := role_of message; tm_content_preview := preview_value content |} s).

Definition summarize_claude (value : Value) : TraceBodySummary :=
  let s := each (get_key "tools" value) (fun s tool => push_definitions (named_tool tool None) s)
             TraceBodySummary_default in
  let s := each (get_key "messages" value) claude_message s in
  match get_key "content" value with Some content => collect_claude_content content s | None => s end.

(** [item.get("call_id").or_else(|| item.get("id"))] as a string. *)
Definition call_id (item : Value) : option string :=
  opt_or (get_key "call_id" item) (get_key "id" item) ≫= Json.as_str.

Definition collect_responses_item (s : TraceBodySummary) (item : Value) : TraceBodySummary :=
  match value_str "type" item with
  | Some "function_call" =>
      match value_str "name" item with
      | Some name =>
          push_call {| tc_id := call_id item; tc_name := name; tc_namespace := value_str "namespace" item;
                       tc_arguments_preview := preview_value (default VNull (get_key "arguments" item)) |} s
      | None => s
      end
  | Some "function_call_output" =>
      push_result {| tr_id := call_id item;
                     tr_content_preview := preview_value (default VNull (get_key "output" item)) |} s
  | _ =>
      match value_str "role" item with
      | Some role =>
          push_message {| tm_role := role; tm_content_preview := preview_value (default item (get_key "content" item)) |} s
      | None => s
      end
  end.

Definition collect_responses_items (items : Value) (s : TraceBodySummary) : TraceBodySummary :=
  match items with
  | VString text => push_message {| tm_role := "user"; tm_content_preview := preview_str text max_preview_bytes |} s
  | VArray items => foldl collect_responses_item s items
  | VObject _ => collect_responses_item s items
  | _ => s
  end.

Definition collect_if (items : option Value) (s : TraceBodySummary) : TraceBodySummary :=
  match items with Some items => collect_responses_items items s | None => s end.

Definition summarize_responses (value : Value) : TraceBodySummary :=
  let s := match get_key "tools" value ≫= as_array with
           | Some tools => collect_responses_tools tools None TraceBodySummary_default
           | None => TraceBodySummary_default
           end in
  let s := collect_if (get_key "input" value) s in
  let s := collect_if (get_key "output" value) s in
  collect_if (get_key "response" value ≫= get_key "output") s.

Definition chat_call (s : TraceBodySummary) (call : Value) : TraceBodySummary :=
  let function := default call (get_key "function" call) in
  match value_str "name" function with
  | Some name =>
      push_call {| tc_id := value_str "id" call; tc_name := name; tc_namespace := None;
                   tc_arguments_preview := preview_value (default VNull (get_key "arguments" function)) |} s
  | None => s
  end.

Definition chat_message (s : TraceBodySummary) (message : Value) : TraceBodySummary :=
  let preview := preview_value (default VNull (get_key "content" message)) in
  let s := push_message {| tm_role := role_of message; tm_content_preview := preview |} s in
  let s := each (get_key "tool_calls" message) chat_call s in
  if decide (value_str "role" message = Some "tool") then
    push_result {| tr_id := value_str "tool_call_id" message; tr_content_preview := preview |} s
  else s.

Definition chat_tool (s : TraceBodySummary) (tool : Value) : TraceBodySummary :=
  push_definitions (named_tool (default tool (get_key "function" tool)) None) s.

(** The message of a choice is summarized as a body that holds it alone,
    whose own choices there are none of. *)
Fixpoint summarize_chat (fuel : nat) (value : Value) : TraceBodySummary :=
  match fuel with
  | O => TraceBodySummary_default
  | S fuel =>
      let s := each (get_key "tools" value) chat_tool TraceBodySummary_default in
      let s := each (get_key "messages" value) chat_message s in
      each (get_key "choices" value)
        (fun s choice =>
           match get_key "message" choice with
           | Some message =>
               let nested := summarize_chat fuel (obj [("messages", VArray [message])]) in
               {| ts_messages := ts_messages s ++ ts_messages nested;
                  ts_tool_definitions := ts_tool_definitions s;
                  ts_tool_calls := ts_tool_calls s ++ ts_tool_calls nested;
                  ts_tool_results := ts_tool_results s ++ ts_tool_results nested |}
           | None => s
           end) s
  end.
Definition summarize_openai_chat (value : Value) : TraceBodySummary := summarize_chat 2 value.

Definition gemini_tool (s : TraceBodySummary) (tool : Value) : TraceBodySummary :=
  each (get_key "functionDeclarations" tool) (fun s function => push_definitions (named_tool function None) s) s.
Definition gemini_content (s : TraceBodySummary) (content : Value) : TraceBodySummary :=
  push_message {| tm_role := role_of content;
                  tm_content_preview := preview_value (default content (get_key "parts" content)) |} s.
Definition summarize_gemini (value : Value) : TraceBodySummary :=
  each (get_key "contents" value) gemini_content
    (each (get_key "tools" value) gemini_tool TraceBodySummary_default).

Definition summarize_json_body (body : string) (format : Format) : TraceBodySummary :=
  match value_from_str body with
  | Err _ => TraceBodySummary_default
  | Ok value =>
      match format with
      | Claude => summarize_claude value
      | OpenAIResponses => summarize_responses value
      | OpenAIChat => summarize_openai_chat value
      | Gemini => summarize_gemini value
      end
  end.

(** ** Streams *)

Definition collect_responses_stream_event (value : Value) (s : TraceBodySummary) : TraceBodySummary :=
  let type := value_str "type" value in
  let s := if decide (type = Some "response.output_item.done" \/ type = Some "response.output_item.added") then
             match get_key "item" value with Some item => collect_responses_item s item | None => s end
           else s in
  if decide (type = Some "response.completed") then merge_summary s (summarize_responses value) else s.

Definition parse_sse_json_values (line : string) : list Value :=
  filter_map (fun raw =>
      data ← strip_prefix "data: " raw;
      let data := trim data in
      if is_empty data || bool_decide (data = "[DONE]") then None else ok (value_from_str data))
    (lines line).

Definition collect_stream_value (format : Format) (s : TraceBodySummary) (value : Value) : TraceBodySummary :=
  match format with
  | OpenAIResponses => collect_responses_stream_event value s
  | OpenAIChat => merge_summary s (summarize_openai_chat value)
  | Claude => merge_summary s (summarize_claude value)
  | Gemini => merge_summary s (summarize_gemini value)
  end.

Definition summarize_sse_lines (sse_lines : list string) (format : Format) : TraceBodySummary :=
  foldl (fun s line => foldl (collect_stream_value format) s (parse_sse_json_values line))
    TraceBodySummary_default sse_lines.

Definition summarize_request_trace (client_body : string) (client_format : Format) (upstream_body : string)
    (upstream_format : Format) (response_body : string) (response_format : Format) : RequestTraceSummary :=
  {| rt_client := summarize_json_body client_body client_format;
     rt_upstream := summarize_json_body upstream_body upstream_format;
     rt_response := summarize_json_body response_body response_format |}.

Definition summarize_stream_trace (client_body : string) (client_format : Format) (upstream_body : string)
    (upstream_format : Format) (sse_lines : list string) (response_format : Format) : RequestTraceSummary :=
  {| rt_client := summarize_json_body client_body client_format;
     rt_upstream := summarize_json_body upstream_body upstream_format;
     rt_response := summarize_sse_lines sse_lines response_format |}.
End summaries.

(** * How long a trace is, and what it misses

    No preview of a trace is longer than the limit and its mark; the fuel of
    the nested summary is enough; the events of most streams leave no trace. *)
From S2P Require Import Concrete.

(** ** Previews are short *)

Definition short (max : nat) (preview : string) : Prop := (String.length preview <= max + 14)%nat.
(** Every preview of a summary. *)
Record all_short (max : nat) (s : TraceBodySummary) : Prop := {
  short_messages : Forall (fun m => short max (tm_content_preview m)) (ts_messages s);
  short_calls : Forall (fun c => short max (tc_arguments_preview c)) (ts_tool_calls s);
  short_results : Forall (fun r => short max (tr_content_preview r)) (ts_tool_results s)
}.

Create HintDb trace.

Lemma char_end_le text i : (char_end text i <= i)%nat.
Proof. induction i as [|i IH]; cbn [char_end]; [lia|]. destruct (is_char_boundary text (S i)); lia. Qed.

Lemma substring_length_le n s : (String.length (String.substring 0 n s) <= n)%nat.
Proof. revert s. induction n as [|n IH]; intros [|c s]; cbn; try lia. specialize (IH s). lia. Qed.

Lemma preview_str_short text max : short max (preview_str text max).
Proof.
  unfold short, preview_str. destruct (Nat.leb_spec (String.length text) max); [lia|].
  rewrite length_app_str. unfold utf8_prefix. destruct (Nat.leb_spec (String.length text) max); [lia|].
  pose proof (substring_length_le (char_end text (Nat.min max (String.length text))) text).
  pose proof (char_end_le text (Nat.min max (String.length text))).
  change (String.length "...<truncated>") with 14%nat. lia.
Qed.

Lemma preview_value_short `{SerdeJson} max v : short max (preview_value max v).
Proof. destruct v; cbn; try apply preview_str_short. unfold short. cbn. lia. Qed.
#[export] Hint Resolve preview_str_short preview_value_short : trace.

Lemma default_short max : all_short max TraceBodySummary_default.
Proof. by split. Qed.

Lemma push_message_short max role p s :
  short max p -> all_short max s -> all_short max (push_message {| tm_role := role; tm_content_preview := p |} s).
Proof. intros Hm [? ? ?]. split; cbn; [|done..]. apply list.Forall_app. by split; [|constructor]. Qed.
Lemma push_definitions_short max l s : all_short max s -> all_short max (push_definitions l s).
Proof. by intros [? ? ?]. Qed.
Lemma push_call_short max id name ns p s :
  short max p -> all_short max s ->
  all_short max (push_call {| tc_id := id; tc_name := name; tc_namespace := ns; tc_arguments_preview := p |} s).
Proof. intros Hm [? ? ?]. split; cbn; [done| |done]. apply list.Forall_app. by split; [|constructor]. Qed.
Lemma push_result_short max id p s :
  short max p -> all_short max s -> all_short max (push_result {| tr_id := id; tr_content_preview := p |} s).
Proof. intros Hm [? ? ?]. split; cbn; [done..|]. apply list.Forall_app. by split; [|constructor]. Qed.

Lemma merge_short max s t : all_short max s -> all_short max t -> all_short max (merge_summary s t).
Proof. intros [? ? ?] [? ? ?]. split; cbn; by apply list.Forall_app. Qed.

Lemma foldl_short {A} max (step : TraceBodySummary -> A -> TraceBodySummary) l :
  (forall s a, all_short max s -> all_short max (step s a)) ->
  forall s, all_short max s -> all_short max (foldl step s l).
Proof. intros Hstep. induction l as [|a l IH]; intros s Hs; cbn; [done|]. by apply IH, Hstep. Qed.

Lemma each_short max v step s :
  (forall s a, all_short max s -> all_short max (step s a)) -> all_short max s -> all_short max (each v step s).
Proof. intros Hstep Hs. unfold each. destruct (v ≫= as_array); [|done]. by apply foldl_short. Qed.
#[export] Hint Resolve default_short push_message_short push_definitions_short push_call_short push_result_short
  merge_short foldl_short each_short : trace.

(** Goes through the branches of a collector. *)
Ltac branches :=
  repeat match goal with
         | |- all_short _ (match ?x with _ => _ end) => destruct x
         | |- all_short _ (if ?x then _ else _) => destruct x
         end; auto with trace.

Section previews.
Context `{SerdeJson}.
Variable max : nat.

Lemma collect_claude_content_short content s :
  all_short max s -> all_short max (collect_claude_content max content s).
Proof. intros Hs. apply each_short; [|done]. intros. unfold collect_claude_block. branches. Qed.
Hint Resolve collect_claude_content_short : trace.

Lemma summarize_claude_short value : all_short max (summarize_claude max value).
Proof.
  unfold summarize_claude. cut (all_short max (each (get_key "messages" value) (claude_message max)
    (each (get_key "tools" value) (fun s tool => push_definitions (named_tool tool None) s) TraceBodySummary_default))).
  { intros Hs. branches. }
  apply each_short; [unfold claude_message|]; auto with trace.
Qed.

Lemma collect_responses_item_short s item :
  all_short max s -> all_short max (collect_responses_item max s item).
Proof. intros Hs. unfold collect_responses_item. branches. Qed.
Hint Resolve collect_responses_item_short : trace.

Lemma collect_if_short items s : all_short max s -> all_short max (collect_if max items s).
Proof. intros Hs. unfold collect_if, collect_responses_items. branches. Qed.

Lemma summarize_responses_short value : all_short max (summarize_responses max value).
Proof.
  unfold summarize_responses. do 3 apply collect_if_short. unfold collect_responses_tools. branches.
Qed.

Lemma chat_message_short s message : all_short max s -> all_short max (chat_message max s message).
Proof.
  intros Hs. unfold chat_message. cut (all_short max (each (get_key "tool_calls" message) (chat_call max)
    (push_message {| tm_role := role_of message;
                     tm_content_preview := preview_value max (default VNull (get_key "content" message)) |} s))).
  { intros. branches. }
  apply each_short; [|auto with trace]. intros. unfold chat_call. branches.
Qed.
Hint Resolve chat_message_short : trace.

Lemma summarize_chat_short fuel value : all_short max (summarize_chat max fuel value).
Proof.
  revert value. induction fuel as [|fuel IH]; intros value; cbn [summarize_chat]; [auto with trace|].
  apply each_short.
  - intros s choice Hs. destruct (get_key "message" choice) as [message|]; [|done].
    destruct (IH (obj [("messages", VArray [message])])), Hs. split; cbn; by apply list.Forall_app.
  - apply each_short; [auto with trace|]. apply each_short; [|auto with trace]. intros. by apply push_definitions_short.
Qed.

Lemma summarize_gemini_short value : all_short max (summarize_gemini max value).
Proof.
  apply each_short; [intros; unfold gemini_content; auto with trace|]. apply each_short; [|auto with trace].
  intros. unfold gemini_tool. apply each_short; auto with trace.
Qed.
Hint Resolve summarize_claude_short summarize_responses_short summarize_chat_short summarize_gemini_short : trace.

Lemma summarize_json_body_short body format : all_short max (summarize_json_body max body format).
Proof. unfold summarize_json_body, summarize_openai_chat. branches. Qed.

Lemma collect_stream_value_short format s value :
  all_short max s -> all_short max (collect_stream_value max format s value).
Proof.
  intros Hs. destruct format; cbn [collect_stream_value]; unfold summarize_openai_chat; auto with trace.
  unfold collect_responses_stream_event.
  match goal with |- context [merge_summary ?t _] => assert (all_short max t) by branches end. branches.
Qed.

Lemma summarize_sse_lines_short sse_lines format : all_short max (summarize_sse_lines max sse_lines format).
Proof.
  apply foldl_short; [|auto with trace]. intros. apply foldl_short; [|done]. intros. by apply collect_stream_value_short.
Qed.

(** A trace keeps previews only. In the trace of a request, whatever its
    bodies, their formats and its events, every preview of a message, of the
    arguments of a call and of a result is at most [trace_max_preview_bytes]
    and the 14 bytes of its mark long. *)
Theorem trace_previews_short client client_format upstream upstream_format response sse_lines :
  let whole := summarize_request_trace max client client_format upstream upstream_format response client_format in
  let stream := summarize_stream_trace max client client_format upstream upstream_format sse_lines client_format in
  all_short max (rt_client whole) /\ all_short max (rt_upstream whole) /\ all_short max (rt_response whole) /\
  all_short max (rt_client stream) /\ all_short max (rt_upstream stream) /\ all_short max (rt_response stream).
Proof. cbv zeta. split_and!; first [apply summarize_json_body_short|apply summarize_sse_lines_short]. Qed.

(** ** The fuel of a chat summary *)

Lemma choices_wrapper message : get_key "choices" (obj [("messages", VArray [message])]) = None.
Proof. done. Qed.

Lemma each_ext v f g s : (forall s a, f s a = g s a) -> each v f s = each v g s.
Proof.
  intros E. unfold each. destruct (v ≫= as_array) as [l|]; [|done]. revert s.
  induction l as [|a l IH]; intros s; cbn; [done|]. by rewrite E, IH.
Qed.

(** More fuel than two changes nothing. *)
Lemma summarize_chat_enough fuel value : summarize_chat max (2 + fuel) value = summarize_openai_chat max value.
Proof.
  unfold summarize_openai_chat. change (2 + fuel)%nat with (S (S fuel)). cbn [summarize_chat].
  apply each_ext. intros s choice. destruct (get_key "message" choice) as [message|]; [|done].
  by rewrite choices_wrapper.
Qed.

(** ** Streams that leave no trace *)

(** What the chunks of OpenAI Chat, the events of Claude and the replies of
    Gemini look like: the fields that a summary reads are those of requests
    and of whole replies. *)
Definition chunk_shape (format : Format) (value : Value) : Prop :=
  get_key "tools" value = None /\
  match format with
  | OpenAIChat =>
      get_key "messages" value = None /\
      Forall (fun choice => get_key "message" choice = None) (default [] (get_key "choices" value ≫= as_array))
  | Claude => get_key "messages" value = None /\ get_key "content" value = None
  | Gemini => get_key "contents" value = None
  | OpenAIResponses => False
  end.

Lemma merge_default s : merge_summary s TraceBodySummary_default = s.
Proof. destruct s. unfold merge_summary. cbn. by rewrite !app_nil_r. Qed.

Lemma chunk_untraced format s value : chunk_shape format value -> collect_stream_value max format s value = s.
Proof.
  intros [Ht Hv]. destruct format; cbn [collect_stream_value]; [| |done|].
  - destruct Hv as [Hm Hc]. unfold summarize_openai_chat. cbn [summarize_chat]. rewrite Ht, Hm. cbn [each mbind option_bind].
    unfold each. destruct (get_key "choices" value ≫= as_array) as [l|]; [|apply merge_default].
    change (Forall (fun choice => get_key "message" choice = None) l) in Hc. replace (foldl _ _ l) with TraceBodySummary_default; [apply merge_default|].
    clear -Hc. induction Hc as [|c cs Hcm _ IH]; [done|]. cbn [foldl]. by rewrite Hcm.
  - unfold summarize_claude. destruct Hv as [Hm Hc]. rewrite Ht, Hm, Hc. apply merge_default.
  - unfold summarize_gemini. rewrite Ht, Hv. apply merge_default.
Qed.

(** A stream of such events leaves an empty trace, whatever it says. *)
Lemma stream_untraced sse_lines format :
  Forall (fun line => Forall (chunk_shape format) (parse_sse_json_values line)) sse_lines ->
  summarize_sse_lines max sse_lines format = TraceBodySummary_default.
Proof.
  unfold summarize_sse_lines. induction 1 as [|line l Hl _ IH]; [done|]. cbn [foldl].
  replace (foldl _ _ (parse_sse_json_values line)) with TraceBodySummary_default; [done|].
  induction Hl as [|v vs Hv _ IHv]; [done|]. cbn [foldl]. by rewrite chunk_untraced.
Qed.
End previews.

(** ** On a body *)

Definition shell_call : Value :=
  obj [("type", str "function_call"); ("call_id", str "c1"); ("name", str "shell");
       ("arguments", obj [("api_key", str "sk-1"); ("cmd", str "ls")])].
Definition shell_body : Value := obj [("input", VArray [shell_call])].

(** The sanitized body hides a key that the trace of the same body shows. *)
Example trace_keeps_secrets :
  sanitize_json_value shell_body =
    obj [("input", VArray [obj [("type", str "function_call"); ("call_id", str "c1"); ("name", str "shell");
           ("arguments", obj [("api_key", str "[REDACTED]"); ("cmd", str "ls")])]])] /\
  map tc_arguments_preview (ts_tool_calls (summarize_json_body 4096 (value_to_string shell_body) OpenAIResponses)) =
    [value_to_string (obj [("api_key", str "sk-1"); ("cmd", str "ls")])].
Proof. split; by vm_compute. Qed.

Definition stream_line (v : Value) : string := "data: " +:+ value_to_string v +:+ newline +:+ newline.

(** The three events of a Responses stream that carry a call list it three
    times. *)
Example call_listed_thrice :
  let event type key v := stream_line (obj [("type", str type); (key, v)]) in
  map tc_id (ts_tool_calls (summarize_sse_lines 4096
    [event "response.output_item.added" "item" shell_call; event "response.output_item.done" "item" shell_call;
     event "response.completed" "response" (obj [("output", VArray [shell_call])])] OpenAIResponses)) =
  [Some "c1"; Some "c1"; Some "c1"].
Proof. by vm_compute. Qed.

(** A chat stream that calls a tool leaves no trace of it. *)
Example chat_stream_untraced :
  summarize_sse_lines 4096
    [stream_line (obj [("choices", VArray [obj [("delta", obj [("role", str "assistant"); ("tool_calls",
       VArray [obj [("id", str "c1"); ("function", obj [("name", str "shell"); ("arguments", str "{}")])]])])]])])]
    OpenAIChat = TraceBodySummary_default.
Proof.
  apply stream_untraced. constructor; [|done].
  vm_compute. by repeat constructor.
Qed.
