(* ===== verification/RequestLog.v ===== *)
(** * The request log: records, the writer, its files and their quota

    agent_id.rs, the log context of handlers/chat/plan.rs and forward.rs,
    request_log.rs, the writers of usage.rs and disk_quota.rs. A clock reading
    and its text are arguments. A directory is a map from the names of its
    files to their contents; what the file system and the database refuse is an
    argument. *)
From Stdlib Require Import ZArith Lia Sorting.Sorted.
From stdpp Require Import gmap strings pretty.
From S2P Require Import Prelude.
From S2P Require Import RustStd.
From S2P Require Import Json.
From S2P Require Import Effects.
From S2P Require Import Format.
From S2P Require Import Ir.
From S2P Require Import Utf8.
From S2P Require Import Routing.
From S2P Require Import Hub.
From S2P Require Import Auth.
From S2P Require Import SseRelay.
From S2P Require Import Redact.
From S2P Require Import Float64.
From S2P Require Import Storage.
From S2P Require Import Usage.
From S2P Require Import Trace.

Local Open Scope Z_scope.

(** ** The agent behind a request *)

Definition KNOWN_AGENTS : list (string * list string) :=
  [("claude-code", ["claude-cli/"; "claude-code/"]);
   ("codex", ["codex"; "acp-extension-codex"]);
   ("gemini-cli", ["gemini-cli/"; "google-genai-sdk/"]);
   ("opencode", ["opencode"]);
   ("cursor", ["cursor"]);
   ("cline", ["cline/"; "cline"]);
   ("roo-code", ["roo-"; "roocoder"]);
   ("aider", ["aider"]);
   ("pi", ["pi/"])].

(** A header's text is ASCII, so folding and splitting on ASCII is enough. *)
Definition agent_of (user_agent : string) : string :=
  let trimmed := trim user_agent in
  let lowered := to_ascii_lowercase trimmed in
  match List.find (fun a => existsb (fun p => starts_with p lowered) a.2) KNOWN_AGENTS with
  | Some (id, _) => id
  | None =>
      let product := head (split_ascii_whitespace trimmed) ≫= (fun token => head (split "/" token)) in
      match product with
      | Some product => if is_empty product then "other" else product
      | None => "other"
      end
  end.

Definition extract_client_id (headers : HeaderMap) : option string :=
  match header_str "user-agent" headers with
  | Some agent => Some (agent_of agent)
  | None =>
      match header_str "x-requested-with" headers with
      | Some client => Some client
      | None => fst <$> List.find (fun h => starts_with "x-stainless-" h.1) headers
      end
  end.

Definition extract_session_id (headers : HeaderMap) : option string :=
  match header_str "x-session-id" headers with
  | Some id => Some id
  | None => header_str "x-conversation-id" headers
  end.

(** ** The context of a request

    Its clock reading is in [elapsed] below; its id is a text. *)
Record RequestLogContext := {
  lc_req_id : string;
  lc_client_format : Format;
  lc_client_id : option string;
  lc_session_id : option string;
  lc_client_model : string;
  lc_upstream_model : string;
  lc_streaming : bool;
  lc_method : string;
  lc_path : string;
  lc_request_body : string;
  lc_provider_name : string;
  lc_provider_account : option string;
  lc_price : option Price;
  lc_price_version : option string;
  lc_attempt : Z;
  lc_error : option string;
  lc_err_type : option string;
  lc_own_ms : Z;
  lc_sent_ms : Z;
  lc_retried_ms : Z;
  lc_queued_ms : Z;
  lc_masking_ms : Z;
  lc_flow_ms : Z;
  lc_upstream_url : string;
  lc_upstream_request_body : string;
  lc_upstream : option string;
  lc_effort : option string;
  lc_tier_asked : option string;
  lc_tier_sent : option string;
  lc_tier_served : option string;
  lc_subagent : option string;
  lc_parent_agent : option string;
  lc_kind : option string
}.

Record RequestLogConfig := {
  lg_enabled : bool;
  lg_max_capture_bytes : nat;
  lg_trace_enabled : bool;
  lg_trace_max_preview_bytes : nat
}.

Section Records.
Context `{SerdeJson}.

(** As [prepare_request] makes it. *)
Definition log_context (req_id : string) (headers : HeaderMap) (body : string) (route_info : RouteInfo)
    (gemini_model : option string) (client_model upstream_model : string) (streaming : bool) : RequestLogContext :=
  {| lc_req_id := req_id; lc_client_format := client_format route_info;
     lc_client_id := extract_client_id headers; lc_session_id := extract_session_id headers;
     lc_client_model := client_model; lc_upstream_model := upstream_model; lc_streaming := streaming;
     lc_method := "POST"; lc_path := path_for_route route_info (default client_model gemini_model);
     lc_request_body := body; lc_provider_name := ""; lc_provider_account := None;
     lc_price := None; lc_price_version := None; lc_attempt := 0; lc_error := None; lc_err_type := None;
     lc_own_ms := 0; lc_sent_ms := 0; lc_retried_ms := 0; lc_queued_ms := 0; lc_masking_ms := 0; lc_flow_ms := 0;
     lc_upstream_url := ""; lc_upstream_request_body := ""; lc_upstream := None;
     lc_effort := extract_effort body; lc_tier_asked := extract_tier body; lc_tier_sent := None;
     lc_tier_served := None;
     lc_subagent := header_str "x-claude-code-agent-id" headers;
     lc_parent_agent := header_str "x-claude-code-parent-agent-id" headers;
     lc_kind := extract_kind body (extract_client_id headers) |}.

(** The only updates of a context: the provider that is about to be asked
    (convert_and_build_upstream), and the URL of a plugin's request. *)
Definition with_url (url : string) (ctx : RequestLogContext) : RequestLogContext :=
  {| lc_req_id := lc_req_id ctx; lc_client_format := lc_client_format ctx; lc_client_id := lc_client_id ctx;
     lc_session_id := lc_session_id ctx; lc_client_model := lc_client_model ctx;
     lc_upstream_model := lc_upstream_model ctx; lc_streaming := lc_streaming ctx; lc_method := lc_method ctx;
     lc_path := lc_path ctx; lc_request_body := lc_request_body ctx; lc_provider_name := lc_provider_name ctx;
     lc_provider_account := lc_provider_account ctx; lc_price := lc_price ctx;
     lc_price_version := lc_price_version ctx; lc_attempt := lc_attempt ctx; lc_error := lc_error ctx;
     lc_err_type := lc_err_type ctx; lc_own_ms := lc_own_ms ctx; lc_sent_ms := lc_sent_ms ctx;
     lc_retried_ms := lc_retried_ms ctx; lc_queued_ms := lc_queued_ms ctx; lc_masking_ms := lc_masking_ms ctx;
     lc_flow_ms := lc_flow_ms ctx; lc_upstream_url := url;
     lc_upstream_request_body := lc_upstream_request_body ctx; lc_upstream := lc_upstream ctx;
     lc_effort := lc_effort ctx; lc_tier_asked := lc_tier_asked ctx; lc_tier_sent := lc_tier_sent ctx;
     lc_tier_served := lc_tier_served ctx; lc_subagent := lc_subagent ctx; lc_parent_agent := lc_parent_agent ctx;
     lc_kind := lc_kind ctx |}.

Definition with_upstream (provider url body : string) (ctx : RequestLogContext) : RequestLogContext :=
  {| lc_req_id := lc_req_id ctx; lc_client_format := lc_client_format ctx; lc_client_id := lc_client_id ctx;
     lc_session_id := lc_session_id ctx; lc_client_model := lc_client_model ctx;
     lc_upstream_model := lc_upstream_model ctx; lc_streaming := lc_streaming ctx; lc_method := lc_method ctx;
     lc_path := lc_path ctx; lc_request_body := lc_request_body ctx; lc_provider_name := provider;
     lc_provider_account := lc_provider_account ctx; lc_price := lc_price ctx;
     lc_price_version := lc_price_version ctx; lc_attempt := lc_attempt ctx; lc_error := lc_error ctx;
     lc_err_type := lc_err_type ctx; lc_own_ms := lc_own_ms ctx; lc_sent_ms := lc_sent_ms ctx;
     lc_retried_ms := lc_retried_ms ctx; lc_queued_ms := lc_queued_ms ctx; lc_masking_ms := lc_masking_ms ctx;
     lc_flow_ms := lc_flow_ms ctx; lc_upstream_url := url;
     lc_upstream_request_body := body; lc_upstream := lc_upstream ctx;
     lc_effort := lc_effort ctx; lc_tier_asked := lc_tier_asked ctx; lc_tier_sent := lc_tier_sent ctx;
     lc_tier_served := lc_tier_served ctx; lc_subagent := lc_subagent ctx; lc_parent_agent := lc_parent_agent ctx;
     lc_kind := lc_kind ctx |}.

(** ** The record of an answer *)

(** [serde_json::to_string] of a trace, derived by serde. *)
Variable trace_text : RequestTraceSummary -> string.

Definition cost_of (ctx : RequestLogContext) (usage : Usage) : option f64 :=
  (fun price => cost_split price usage) <$> lc_price ctx.
Definition priced_version (ctx : RequestLogContext) : option string :=
  if is_some (lc_price ctx) then lc_price_version ctx else None.

(** [timestamp] is [Utc::now().to_rfc3339()], [elapsed_ms] the time since the
    request began. *)
Definition log_non_streaming (ctx : RequestLogContext) (upstream_body response_body : string) (status : Z)
    (provider_format : Format) (cfg : RequestLogConfig) (timestamp : string) (elapsed_ms : Z) : RequestLogRecord :=
  let max := lg_max_capture_bytes cfg in
  let request_body := sanitize_body (lc_request_body ctx) max in
  let upstream_request_body := sanitize_body (lc_upstream_request_body ctx) max in
  let response_sanitized := sanitize_body response_body max in
  let trace :=
    if lg_trace_enabled cfg then
      Some (trace_text (summarize_request_trace (lg_trace_max_preview_bytes cfg) (lc_request_body ctx)
              (lc_client_format ctx) (lc_upstream_request_body ctx) provider_format response_body (lc_client_format ctx)))
    else None in
  let usage := extract_usage upstream_body provider_format in
  {| r_request_id := lc_req_id ctx; r_timestamp := timestamp; r_client_format := Format.as_str (lc_client_format ctx);
     r_client_id := lc_client_id ctx; r_session_id := lc_session_id ctx;
     r_provider_account := lc_provider_account ctx;
     r_served_model := extract_served_model upstream_body provider_format;
     r_ttft_ms := 0; r_cache_unknown := false; r_cost_usd := cost_of ctx usage; r_price_version := priced_version ctx;
     r_decode_ms := 0; r_decode_out := 0; r_own_ms := lc_own_ms ctx; r_sent_ms := lc_sent_ms ctx;
     r_retried_ms := lc_retried_ms ctx; r_queued_ms := lc_queued_ms ctx; r_masking_ms := lc_masking_ms ctx;
     r_flow_ms := 0; r_attempt := lc_attempt ctx; r_handed_on := false; r_error := lc_error ctx;
     r_err_type := lc_err_type ctx; r_upstream := lc_upstream ctx; r_effort := lc_effort ctx;
     r_tier_asked := lc_tier_asked ctx; r_tier_sent := lc_tier_sent ctx; r_tier_served := lc_tier_served ctx;
     r_subagent := lc_subagent ctx; r_parent_agent := lc_parent_agent ctx; r_kind := lc_kind ctx;
     r_provider := lc_provider_name ctx; r_client_model := lc_client_model ctx;
     r_upstream_model := lc_upstream_model ctx; r_streaming := false; r_method := lc_method ctx;
     r_path := lc_path ctx; r_request_body := Some request_body; r_upstream_request_body := Some upstream_request_body;
     r_response_status := status; r_response_body := RbJson (sb_text response_sanitized);
     r_latency_ms := elapsed_ms; r_usage := usage; r_trace := trace;
     r_truncated := sb_truncated request_body || sb_truncated upstream_request_body || sb_truncated response_sanitized |}.

Definition log_streaming (ctx : RequestLogContext) (sse_lines : list string) (status : Z) (provider_format : Format)
    (time_to_first_byte_ms decode_ms decode_out flow_ms : Z) (usage : Usage) (response_truncated : bool)
    (cfg : RequestLogConfig) (timestamp : string) : RequestLogRecord :=
  let max := lg_max_capture_bytes cfg in
  let request_body := sanitize_body (lc_request_body ctx) max in
  let upstream_request_body := sanitize_body (lc_upstream_request_body ctx) max in
  let trace :=
    if lg_trace_enabled cfg then
      Some (trace_text (summarize_stream_trace (lg_trace_max_preview_bytes cfg) (lc_request_body ctx)
              (lc_client_format ctx) (lc_upstream_request_body ctx) provider_format sse_lines (lc_client_format ctx)))
    else None in
  let reply := join newline sse_lines in
  let stream_usage := extract_stream_usage_from_sse_lines sse_lines (lc_client_format ctx) in
  let usage := usage_or stream_usage usage in
  {| r_request_id := lc_req_id ctx; r_timestamp := timestamp; r_client_format := Format.as_str (lc_client_format ctx);
     r_client_id := lc_client_id ctx; r_session_id := lc_session_id ctx;
     r_provider_account := lc_provider_account ctx;
     r_served_model := extract_served_model reply provider_format;
     r_ttft_ms := time_to_first_byte_ms; r_cache_unknown := false; r_cost_usd := cost_of ctx usage;
     r_price_version := priced_version ctx;
     r_decode_ms := decode_ms; r_decode_out := decode_out; r_own_ms := lc_own_ms ctx; r_sent_ms := lc_sent_ms ctx;
     r_retried_ms := lc_retried_ms ctx; r_queued_ms := lc_queued_ms ctx; r_masking_ms := lc_masking_ms ctx;
     r_flow_ms := flow_ms; r_attempt := lc_attempt ctx; r_handed_on := false; r_error := lc_error ctx;
     r_err_type := lc_err_type ctx; r_upstream := extract_upstream_provider reply; r_effort := lc_effort ctx;
     r_tier_asked := lc_tier_asked ctx; r_tier_sent := opt_or (lc_tier_sent ctx) (lc_tier_asked ctx);
     r_tier_served := extract_tier reply;
     r_subagent := lc_subagent ctx; r_parent_agent := lc_parent_agent ctx; r_kind := lc_kind ctx;
     r_provider := lc_provider_name ctx; r_client_model := lc_client_model ctx;
     r_upstream_model := lc_upstream_model ctx; r_streaming := true; r_method := lc_method ctx;
     r_path := lc_path ctx; r_request_body := Some request_body; r_upstream_request_body := Some upstream_request_body;
     r_response_status := status; r_response_body := RbSseLines sse_lines;
     r_latency_ms := time_to_first_byte_ms; r_usage := usage; r_trace := trace;
     r_truncated := sb_truncated request_body || sb_truncated upstream_request_body || response_truncated |}.

(** What the relay's task logs when it comes to its end. *)
Definition log_relay (ctx : RequestLogContext) (status : Z) (from_format : Format) (cfg : RequestLogConfig)
    (timestamp : string) (t : Task) : RequestLogRecord :=
  let out_usage := default Usage_default (accumulated_usage (snd (fst (tk_states t)))) in
  log_streaming ctx (tk_sse_lines t) status from_format (default 0 (tk_first_byte_ms t)) (SseRelay.decode_ms t)
    (output_tokens out_usage) (SseRelay.decode_ms t) (final_usage t) (tk_response_truncated t) cfg timestamp.
End Records.

(** Nothing is logged of a stream whose client has left before its end. *)
Definition relay_record `{SerdeJson} `{Env} `{Hub.StreamSerde} (trace_text : RequestTraceSummary -> string) (ctx : RequestLogContext)
    (status : Z) (cfg : RequestLogConfig) (timestamp : string) (c : SseRelay.Config) (chunks : list (result string string))
    (w : World) : option RequestLogRecord :=
  match relay_chunks c chunks (task0 w) with
  | (true, t) => Some (log_relay trace_text ctx status (rc_from c) cfg timestamp (flush c t))
  | (false, _) => None
  end.

(** ** The files

    A directory's files by name. What the file system refuses is data: the
    making of the directory, the look at a path, the opening of it, and a write,
    of which some bytes may have got through. *)
Abbreviation LogDir := (gmap string string).
Definition MAX_REQUEST_LOG_FILE_BYTES : Z := 10 * 1024 * 1024.

Record FileFaults := {
  ff_mkdir : option string;
  ff_stat : string -> option string;
  ff_open : string -> option string;
  ff_write : string -> option (nat * string)
}.

(** [{index:03}]. *)
Definition index03 (index : nat) : string :=
  let digits := pretty index in
  concat_strings (repeat "0" (3 - String.length digits)) +:+ digits.
Definition segment_name (date : string) (index : nat) : string :=
  "requests." +:+ date +:+ "." +:+ index03 index +:+ ".jsonl".

Definition metadata (faults : FileFaults) (path : string) (dir : LogDir) : result string (option Z) :=
  match ff_stat faults path with
  | Some e => Err e
  | None => Ok ((fun text => Z.of_nat (String.length text)) <$> dir !! path)
  end.

Fixpoint scan_segments (faults : FileFaults) (fuel : nat) (date : string) (next_line_bytes : Z)
    (index : nat) (latest : option (string * Z)) (dir : LogDir) : option (result string string) :=
  match fuel with
  | O => None
  | S fuel =>
      let path := segment_name date index in
      match metadata faults path dir with
      | Err e => Some (Err e)
      | Ok (Some size) => scan_segments faults fuel date next_line_bytes (S index) (Some (path, size)) dir
      | Ok None =>
          Some (Ok match latest with
                   | Some (last, size) => if size + next_line_bytes <=? MAX_REQUEST_LOG_FILE_BYTES then last else path
                   | None => path
                   end)
      end
  end.

Definition request_log_path (faults : FileFaults) (date : string) (next_line_bytes : Z) (dir : LogDir)
  : option (result string string) :=
  scan_segments faults (S (size dir)) date next_line_bytes 0 None dir.

(** [writeln!] to a file opened for appending, made when it is not there. *)
Definition append_line (faults : FileFaults) (path line : string) (dir : LogDir) : result string unit * LogDir :=
  match ff_open faults path with
  | Some e => (Err e, dir)
  | None =>
      let append text := <[path := default "" (dir !! path) +:+ text]> dir in
      match ff_write faults path with
      | Some (n, e) => (Err e, append (String.substring 0 n (line +:+ newline)))
      | None => (Ok tt, append (line +:+ newline))
      end
  end.

(** [None] is the panic of a timestamp shorter than its date, or of a search
    that does not end. *)
Definition write_record (faults : FileFaults) (timestamp line : string) (dir : LogDir)
  : option (result string unit * LogDir) :=
  match ff_mkdir faults with
  | Some e => Some (Err e, dir)
  | None =>
      date ← get_prefix 10 timestamp;
      path ← request_log_path faults date (Z.of_nat (String.length line) + 1) dir;
      Some match path with
           | Err e => (Err e, dir)
           | Ok path => append_line faults path line dir
           end
  end.

(** usage.rs: one file a day. *)
Definition write_usage_record (faults : FileFaults) (timestamp line : string) (dir : LogDir)
  : option (result string unit * LogDir) :=
  match ff_mkdir faults with
  | Some e => Some (Err e, dir)
  | None =>
      date ← get_prefix 10 timestamp;
      Some (append_line faults ("usage." +:+ date +:+ ".jsonl") line dir)
  end.

(** ** The writer

    The channel, the task that empties it, the lines it appends and the
    batches it hands to the database, either of which may fail: a failure is
    logged and passed over. [wr_lines] and [wr_batches] are what the task has
    tried so far. *)
Definition CHANNEL : nat := 256.
Definition BATCH_MAX : nat := 256.

(** What fails while a batch is written: the connection or the transaction's
    begin, its commit, and the statements of each of its records. *)
Record BatchFaults := {
  bf_begin : option StorageError;
  bf_commit : option StorageError;
  bf_rows : nat -> Faults
}.

Record Writer := {
  wr_queue : list RequestLogRecord;
  wr_open : bool;
  wr_running : bool;
  wr_batch : list RequestLogRecord;
  wr_dir : LogDir;
  wr_db : option Db;
  wr_lines : list (RequestLogRecord * FileFaults);
  wr_batches : list (list RequestLogRecord * BatchFaults)
}.
Definition writer0 (dir : LogDir) (sqlite : option Db) : Writer :=
  {| wr_queue := []; wr_open := true; wr_running := true; wr_batch := []; wr_dir := dir; wr_db := sqlite;
     wr_lines := []; wr_batches := [] |}.

Definition with_faults (batch : list RequestLogRecord) (b : BatchFaults) : list (RequestLogRecord * Faults) :=
  imap (fun i r => (r, bf_rows b i)) batch.

(** A record logged, one taken off the queue, 200 ms without one, the last
    handle dropped, and the end of the task. *)
Inductive WriterEvent : Type :=
  | Log (record : RequestLogRecord)
  | Recv (line : FileFaults) (batch : BatchFaults)
  | Quiet (batch : BatchFaults)
  | Close
  | Closed (batch : BatchFaults).

Definition no_records (l : list RequestLogRecord) : bool := match l with [] => true | _ => false end.
Definition accepts (w : Writer) : bool := wr_running w && (length (wr_queue w) <? CHANNEL)%nat.

(** The records that found a place in the channel. *)
Definition taken_in (w : Writer) (e : WriterEvent) : list RequestLogRecord :=
  match e with Log record => if accepts w then [record] else [] | _ => [] end.

Section Writer.
Variable to_json : RequestLogRecord -> string.
Variable new_id : Z -> Z.

Definition flush_sqlite (b : BatchFaults) (w : Writer) : Writer :=
  match wr_batch w with
  | [] => w
  | batch =>
      {| wr_queue := wr_queue w; wr_open := wr_open w; wr_running := wr_running w; wr_batch := [];
         wr_dir := wr_dir w;
         wr_db := (fun db => snd (insert_request_logs to_json new_id (bf_begin b) (bf_commit b) (with_faults batch b) db))
                    <$> wr_db w;
         wr_lines := wr_lines w; wr_batches := wr_batches w ++ [(batch, b)] |}
  end.

(** The task has ended; what it had not written is gone with it. *)
Definition ended (w : Writer) : Writer :=
  {| wr_queue := []; wr_open := wr_open w; wr_running := false; wr_batch := []; wr_dir := wr_dir w; wr_db := wr_db w;
     wr_lines := wr_lines w; wr_batches := wr_batches w |}.

(** [None]: the event cannot happen. A panic ends the task. *)
Definition writer_step (w : Writer) (e : WriterEvent) : option Writer :=
  match e with
  | Log record =>
      if negb (wr_open w) then None
      else if accepts w then
        Some {| wr_queue := wr_queue w ++ [record]; wr_open := true; wr_running := wr_running w;
                wr_batch := wr_batch w; wr_dir := wr_dir w; wr_db := wr_db w;
                wr_lines := wr_lines w; wr_batches := wr_batches w |}
      else Some w
  | Recv f b =>
      match wr_queue w with
      | record :: queue =>
          if wr_running w then
            match write_record f (r_timestamp record) (to_json record) (wr_dir w) with
            | None => Some (ended w)
            | Some (_, dir) =>
                let w := {| wr_queue := queue; wr_open := wr_open w; wr_running := true;
                            wr_batch := wr_batch w ++ [record]; wr_dir := dir; wr_db := wr_db w;
                            wr_lines := wr_lines w ++ [(record, f)]; wr_batches := wr_batches w |} in
                Some (if (BATCH_MAX <=? length (wr_batch w))%nat then flush_sqlite b w else w)
            end
          else None
      | [] => None
      end
  | Quiet b => if wr_running w && wr_open w && no_records (wr_queue w) then Some (flush_sqlite b w) else None
  | Close =>
      Some {| wr_queue := wr_queue w; wr_open := false; wr_running := wr_running w; wr_batch := wr_batch w;
              wr_dir := wr_dir w; wr_db := wr_db w; wr_lines := wr_lines w; wr_batches := wr_batches w |}
  | Closed b =>
      if wr_running w && negb (wr_open w) && no_records (wr_queue w) then Some (ended (flush_sqlite b w)) else None
  end.

Fixpoint writer_run (w : Writer) (events : list WriterEvent) : option (list RequestLogRecord * Writer) :=
  match events with
  | [] => Some ([], w)
  | e :: events =>
      w' ← writer_step w e;
      '(accepted, w'') ← writer_run w' events;
      Some (taken_in w e ++ accepted, w'')
  end.
End Writer.

(** ** The quota of the log directory *)

Record DirEntry := {
  de_path : string;
  de_file_name : option string;
  de_is_file : bool;
  de_size : Z;
  de_modified : option Z
}.
Record LogFileEntry := { lf_path : string; lf_size : Z; lf_modified : Z }.

(** An entry whose metadata cannot be read is an [Err]. *)
Definition log_file (entry : result string DirEntry) : option LogFileEntry :=
  match entry with
  | Err _ => None
  | Ok e =>
      if negb (de_is_file e) then None
      else if match de_file_name e with Some name => starts_with "any-converter.sqlite3" name | None => false end then None
      else Some {| lf_path := de_path e; lf_size := de_size e; lf_modified := default 0 (de_modified e) |}
  end.
(** A directory that is not there ([Ok None]) holds no files. *)
Definition collect_log_files (listing : result string (option (list (result string DirEntry))))
  : result string (list LogFileEntry) :=
  match listing with
  | Err e => Err e
  | Ok None => Ok []
  | Ok (Some entries) => Ok (filter_map log_file entries)
  end.

(** [sort_by_key], which is stable. *)
Fixpoint insert_older (e : LogFileEntry) (l : list LogFileEntry) : list LogFileEntry :=
  match l with
  | [] => [e]
  | x :: l' => if lf_modified e <=? lf_modified x then e :: l else x :: insert_older e l'
  end.
Definition oldest_first (l : list LogFileEntry) : list LogFileEntry := foldr insert_older [] l.

Definition total_size (l : list LogFileEntry) : Z := foldr (fun e n => lf_size e + n) 0 l.

(** The files that are removed; [remove] tells which can be. *)
Fixpoint remove_until (remove : string -> bool) (overshoot freed : Z) (l : list LogFileEntry) : list LogFileEntry :=
  match l with
  | [] => []
  | e :: l =>
      if overshoot <=? freed then []
      else if remove (lf_path e) then e :: remove_until remove overshoot (freed + lf_size e) l
      else remove_until remove overshoot freed l
  end.

Definition enforce_quota (remove : string -> bool) (max_bytes : Z)
    (listing : result string (option (list (result string DirEntry)))) : result string (list LogFileEntry) :=
  if max_bytes =? 0 then Ok []
  else
    entries ← collect_log_files listing;
    let total := total_size entries in
    if total <=? max_bytes then Ok []
    else Ok (remove_until remove (total - max_bytes) 0 (oldest_first entries)).

(** One pass of the maintenance task: the files, then the database, of which
    [retention] is what [apply_retention] does on the hourly tick. A failure of
    either is logged only. *)
Definition OPTIMIZE_EVERY_TICKS : Z := 12.
Definition hourly (ticks : Z) : bool := ticks mod OPTIMIZE_EVERY_TICKS =? 0.
Definition sweep (remove : string -> bool) (max_bytes : Z)
    (listing : result string (option (list (result string DirEntry)))) (ticks : Z)
    (retention : Db -> Db) (db : option Db) : list LogFileEntry * option Db :=
  (match enforce_quota remove max_bytes listing with Ok removed => removed | Err _ => [] end,
   (fun db => if hourly ticks then retention db else db) <$> db).

(** * What the log keeps

    No record is priced; the writer hands every record it took to the
    database, in order; the files of a day hold its lines in order and roll at
    their limit; the quota removes the oldest files until the rest fits. *)
From S2P Require Import Concrete.

(** ** The records the gateway logs *)

Inductive Reached (ctx0 : RequestLogContext) : RequestLogContext -> Prop :=
  | Reached_start : Reached ctx0 ctx0
  | Reached_url url ctx : Reached ctx0 ctx -> Reached ctx0 (with_url url ctx)
  | Reached_upstream provider url body ctx : Reached ctx0 ctx -> Reached ctx0 (with_upstream provider url body ctx).

Section logged.
Context `{SerdeJson} (trace_text : RequestTraceSummary -> string).

(** A record of a request, whatever it was and however it was answered. *)
Inductive Logged : RequestLogRecord -> Prop :=
  | Logged_whole req_id headers body route gemini_model client_model upstream_model streaming ctx upstream_body response
      status format cfg timestamp elapsed :
      Reached (log_context req_id headers body route gemini_model client_model upstream_model streaming) ctx ->
      Logged (log_non_streaming trace_text ctx upstream_body response status format cfg timestamp elapsed)
  | Logged_stream req_id headers body route gemini_model client_model upstream_model streaming ctx status format cfg
      timestamp t :
      Reached (log_context req_id headers body route gemini_model client_model upstream_model streaming) ctx ->
      Logged (log_relay trace_text ctx status format cfg timestamp t).

(** What the updates of a context never touch. *)
Record unset (ctx : RequestLogContext) : Prop := {
  unset_price : lc_price ctx = None;
  unset_account : lc_provider_account ctx = None;
  unset_attempt : lc_attempt ctx = 0;
  unset_error : lc_error ctx = None;
  unset_err_type : lc_err_type ctx = None;
  unset_own : lc_own_ms ctx = 0;
  unset_sent : lc_sent_ms ctx = 0;
  unset_retried : lc_retried_ms ctx = 0
}.

Lemma reached_unset ctx0 ctx : unset ctx0 -> Reached ctx0 ctx -> unset ctx.
Proof. intros H0. induction 1; [done|..]; destruct IHReached; by split. Qed.

(** No request is ever priced, retried or tied to an account in the log.
    Of every record the gateway logs, whatever the providers and accounts it
    tried, the cost, the price's version, the account and the error are not
    set and the attempt and magpie's times are 0, so that what the record adds
    to the rollup counts no priced call, no retried call and no loop. *)
Theorem never_priced r :
  Logged r ->
  r_cost_usd r = None /\ r_price_version r = None /\ r_provider_account r = None /\ r_attempt r = 0 /\
  r_error r = None /\ r_err_type r = None /\ r_own_ms r = 0 /\ r_sent_ms r = 0 /\ r_retried_ms r = 0 /\
  c_priced_calls (rollup_values r) = 0 /\ c_retried_calls (rollup_values r) = 0 /\ c_loops (rollup_values r) = 0.
Proof.
  destruct 1; match goal with Hr : Reached _ _ |- _ => apply reached_unset in Hr as [P A T E ET O Se R]; [|by split] end.
  all: unfold rollup_values, log_relay, log_streaming, log_non_streaming, cost_of, priced_version; cbn.
  all: rewrite ?P, ?A, ?T, ?E, ?ET, ?O, ?Se, ?R; by split_and!.
Qed.
End logged.

Definition some_config : RequestLogConfig :=
  {| lg_enabled := true; lg_max_capture_bytes := 100; lg_trace_enabled := false; lg_trace_max_preview_bytes := 0 |}.
Definition some_context : RequestLogContext :=
  with_upstream "claude" "https://api/v1/messages" "{}"
    (log_context "r1" [("user-agent", Some "Claude-CLI/2.1 (mac)")] "{}" {| client_format := Claude; path_streaming := false |}
       None "sonnet" "claude-sonnet" false).
Definition some_record : RequestLogRecord :=
  log_non_streaming (fun _ => "") some_context "{}" "{}" 200 Claude some_config "2026-07-22T10:00:00+00:00" 12.

Lemma never_priced_witness :
  r_client_id some_record = Some "claude-code" /\ r_cost_usd some_record = None /\
  c_retried_calls (rollup_values some_record) = 0.
Proof.
  split; [by vm_compute|].
  destruct (never_priced (fun _ => "") some_record) as (Hc & _ & _ & _ & _ & _ & _ & _ & _ & _ & Hr & _); [|done].
  unfold some_record, some_context. eapply Logged_whole, Reached_upstream, Reached_start.
Defined.

(** ** The files of a day *)

Lemma pretty_go_length n s : (String.length s <= String.length (pretty_N_go n s))%nat.
Proof.
  revert s. induction (N.lt_wf_0 n) as [n _ IH]; intros s.
  destruct (N.eq_0_gt_0_cases n) as [->|Hn]; [by rewrite pretty_N_go_0|].
  rewrite pretty_N_go_step by done. etrans; [|apply IH, N.div_lt; lia]. cbn. lia.
Qed.

Lemma pretty_long (n : nat) : (1000 <= n)%nat -> (4 <= String.length (pretty n))%nat.
Proof.
  intros Hn. unfold pretty, pretty_nat, pretty, pretty_N. rewrite decide_False by lia.
  assert (forall k : N, (0 < k)%N -> (0 < N.of_nat n `div` k)%N \/ (N.of_nat n < k)%N) as Hd.
  { intros k Hk. destruct (N.lt_ge_cases (N.of_nat n) k); [by right|left]. by apply N.div_str_pos. }
  rewrite pretty_N_go_step by lia.
  rewrite pretty_N_go_step by (destruct (Hd 10%N); lia).
  rewrite N.Div0.div_div. rewrite pretty_N_go_step by (destruct (Hd (10 * 10)%N); lia).
  rewrite N.Div0.div_div. rewrite pretty_N_go_step by (destruct (Hd (10 * 10 * 10)%N); lia).
  etrans; [|apply pretty_go_length]. done.
Qed.

Lemma index03_long n : (1000 <= n)%nat -> index03 n = pretty n.
Proof.
  intros Hn%pretty_long. unfold index03. by replace (3 - String.length (pretty n))%nat with 0%nat by lia.
Qed.

Definition small_names : list string := map index03 (seq 0 1000).
Lemma small_names_checked : forallb (fun s => String.length s =? 3)%nat small_names = true /\ NoDup small_names.
Proof. split; [by vm_compute|]. by apply (bool_decide_eq_true_1 _); vm_compute. Qed.

Lemma small_name n : (n < 1000)%nat -> small_names !! n = Some (index03 n).
Proof. intros Hn. unfold small_names. rewrite list_lookup_fmap, lookup_seq_lt by done. done. Qed.

#[export] Instance index03_inj : Inj (=) (=) index03.
Proof.
  destruct small_names_checked as [Hl Hd].
  assert (forall n, (n < 1000)%nat -> String.length (index03 n) = 3%nat) as Hs.
  { intros n Hn%small_name%list_elem_of_lookup_2. apply Nat.eqb_eq. rewrite List.forallb_forall in Hl.
    by apply Hl, list_elem_of_In. }
  intros a b E. destruct (decide (a < 1000)%nat) as [Ha|Ha], (decide (b < 1000)%nat) as [Hb|Hb].
  - eapply (NoDup_lookup small_names); [done|by apply small_name|]. rewrite E. by apply small_name.
  - exfalso. pose proof (Hs a Ha) as L. rewrite E, index03_long in L by lia. pose proof (pretty_long b). lia.
  - exfalso. pose proof (Hs b Hb) as L. rewrite <-E, index03_long in L by lia. pose proof (pretty_long a). lia.
  - rewrite !index03_long in E by lia. by apply (inj pretty) in E.
Qed.

#[export] Instance app_str_inj p : Inj (=) (=) (String.append p).
Proof. intros a b. induction p as [|c p IH]; [done|]. cbn. intros [= E]. by apply IH. Qed.

#[export] Instance segment_name_inj date : Inj (=) (=) (segment_name date).
Proof.
  intros a b E. unfold segment_name in E. do 3 apply (inj _) in E. apply (inj index03).
  assert (forall x y r, x +:+ r = y +:+ r -> x = y) as Hc; [|by eapply Hc].
  clear. intros x y r E. apply (f_equal String.rev) in E. rewrite !rev_app_str in E.
  apply (inj _), (f_equal String.rev) in E. by rewrite !rev_involutive_str in E.
Qed.

(** The segments of a day, without a gap. *)
Definition Day (dir : LogDir) (date : string) (segs : list string) : Prop :=
  forall i, dir !! segment_name date i = segs !! i.

(** What an append does to them: [bytes] is the length of the line, [piece] the
    text that got through. *)
Definition roll (segs : list string) (bytes : Z) (piece : string) : list string :=
  match list.last segs with
  | Some text =>
      if Z.of_nat (String.length text) + bytes <=? MAX_REQUEST_LOG_FILE_BYTES
      then removelast segs ++ [text +:+ piece]
      else segs ++ [piece]
  | None => [piece]
  end.

Definition piece_of (whole piece : string) : Prop := exists n, piece = String.substring 0 n whole.

(** A segment is within the limit, or is of a single line. *)
Definition rolled (text : string) : Prop :=
  Z.of_nat (String.length text) <= MAX_REQUEST_LOG_FILE_BYTES \/ exists line, piece_of (line +:+ newline) text.

Lemma day_size dir date segs : Day dir date segs -> (length segs <= size dir)%nat.
Proof.
  intros Hd. rewrite <-(size_dom (D := gset string) dir).
  transitivity (size (list_to_set (map (segment_name date) (seq 0 (length segs))) : gset string)).
  - rewrite size_list_to_set by (apply NoDup_fmap_2; [apply _|apply NoDup_seq]). by rewrite length_map, length_seq.
  - apply subseteq_size. intros path Hp. apply elem_of_list_to_set, list_elem_of_In, in_map_iff in Hp as (i & <- & Hi).
    apply in_seq in Hi. apply elem_of_dom. rewrite Hd. apply lookup_lt_is_Some. lia.
Qed.

Definition no_file_fault : FileFaults :=
  {| ff_mkdir := None; ff_stat := fun _ => None; ff_open := fun _ => None; ff_write := fun _ => None |}.
Definition fault_free (f : FileFaults) : Prop :=
  ff_mkdir f = None /\ forall path, ff_stat f path = None /\ ff_open f path = None /\ ff_write f path = None.

(** The search for the last segment. *)
Lemma scan_day dir date segs bytes : Day dir date segs -> forall rest i latest fuel,
  drop i segs = rest -> (i <= length segs)%nat -> (length rest < fuel)%nat ->
  latest = match i with O => None | S j => (fun text => (segment_name date j, Z.of_nat (String.length text))) <$> segs !! j end ->
  scan_segments no_file_fault fuel date bytes i latest dir =
  Some (Ok match list.last segs with
           | Some text =>
               if Z.of_nat (String.length text) + bytes <=? MAX_REQUEST_LOG_FILE_BYTES
               then segment_name date (length segs - 1) else segment_name date (length segs)
           | None => segment_name date 0
           end).
Proof.
  intros Hd. induction rest as [|text rest IH]; intros i latest fuel Hr Hi Hf Hl; (destruct fuel as [|fuel]; [cbn in Hf; lia|]);
    cbn [scan_segments metadata no_file_fault ff_stat]; rewrite (Hd i).
  - apply (f_equal length) in Hr as Hlen. rewrite length_drop in Hlen. cbn in Hlen.
    assert (i = length segs) as -> by lia. rewrite lookup_ge_None_2 by lia. cbn. rewrite last_lookup.
    destruct (length segs) as [|j] eqn:E; [by subst latest; apply nil_length_inv in E as ->|].
    cbn [pred]. subst latest. destruct (segs !! j) as [t|] eqn:Ht.
    + cbn. by replace (j - 0)%nat with j by lia.
    + apply lookup_ge_None in Ht. lia.
  - assert (segs !! i = Some text) as Ht.
    { rewrite <-(Nat.add_0_r i), <-lookup_drop, Hr. done. }
    rewrite Ht. cbn [fmap option_fmap option_map]. apply IH; [|apply lookup_lt_Some in Ht; lia|cbn in Hf; lia|].
    + rewrite (drop_S _ _ _ Ht) in Hr. by injection Hr.
    + by rewrite Ht.
Qed.

(** A look that fails ends the search; otherwise it finds what it would. *)
Lemma scan_faults faults date bytes dir fuel : forall index latest out,
  scan_segments no_file_fault fuel date bytes index latest dir = Some out ->
  exists out', scan_segments faults fuel date bytes index latest dir = Some out' /\
    ((exists e, out' = Err e) \/ out' = out) /\ ((forall path, ff_stat faults path = None) -> out' = out).
Proof.
  induction fuel as [|fuel IH]; intros index latest out Hs; [done|]. cbn [scan_segments] in *. unfold metadata in *.
  cbn [ff_stat no_file_fault] in Hs. destruct (ff_stat faults (segment_name date index)) as [e|] eqn:F.
  { eexists. split_and!; [done|left; by exists e|]. intros Hf. by rewrite Hf in F. }
  destruct (dir !! segment_name date index) as [text|]; cbn [fmap option_fmap option_map] in *; [by apply IH|].
  eexists. split_and!; [done|by right|]. intros _. congruence.
Qed.

Lemma last_segment (segs : list string) text : list.last segs = Some text -> segs = removelast segs ++ [text] /\ length segs = S (length (removelast segs)).
Proof.
  intros H. assert (segs = removelast segs ++ [text]) as E.
  { destruct (exists_last (l := segs)) as (l & x & ->); [by intros ->|].
    rewrite removelast_last. rewrite last_snoc in H. by injection H as ->. }
  split; [done|]. rewrite E at 1. rewrite length_app. cbn. lia.
Qed.

(** Writing at a segment of the day. *)
Lemma day_insert dir date segs segs' j text : Day dir date segs ->
  segs' !! j = Some text -> (forall i, i <> j -> segs' !! i = segs !! i) ->
  Day (<[segment_name date j := text]> dir) date segs'.
Proof.
  intros Hd Hj Ho i. destruct (decide (i = j)) as [->|Hn]; [by rewrite lookup_insert_eq|].
  rewrite lookup_insert_ne by (by intros E%(inj _)). by rewrite Hd, Ho.
Qed.

Lemma day_roll dir date segs bytes piece : Day dir date segs ->
  let path := match list.last segs with
              | Some text =>
                  if Z.of_nat (String.length text) + bytes <=? MAX_REQUEST_LOG_FILE_BYTES
                  then segment_name date (length segs - 1) else segment_name date (length segs)
              | None => segment_name date 0
              end in
  Day (<[path := default "" (dir !! path) +:+ piece]> dir) date (roll segs bytes piece).
Proof.
  intros Hd. unfold roll.
  destruct (list.last segs) as [text|] eqn:L; [destruct (last_segment segs text L) as [E Hlen]; case_match|]; cbv zeta.
  - apply (day_insert _ _ segs); [done|..].
    + rewrite last_lookup in L. rewrite (Hd (length segs - 1)%nat).
      replace (length segs - 1)%nat with (pred (length segs)) by lia. rewrite L, Hlen. cbn [pred].
      by rewrite list_lookup_middle.
    + intros i Hi. rewrite E at 2. destruct (decide (i < length (removelast segs))%nat).
      { by rewrite !lookup_app_l. }
      rewrite !lookup_ge_None_2; [done|rewrite length_app; cbn; lia..].
  - apply (day_insert _ _ segs); [done|..].
    + rewrite list_lookup_middle by done. by rewrite (Hd (length segs)), lookup_ge_None_2.
    + intros i Hi. destruct (decide (i < length segs)%nat); [by rewrite lookup_app_l|].
      rewrite !lookup_ge_None_2; [done|lia|rewrite length_app; cbn; lia].
  - apply last_None in L as ->. apply (day_insert _ _ []); [done|by rewrite (Hd 0%nat)|].
    intros [|i] Hi; [done|]. by rewrite !lookup_nil.
Qed.

Lemma substring_whole s : String.substring 0 (String.length s) s = s.
Proof. induction s as [|c s IH]; cbn; [done|by rewrite IH]. Qed.
Lemma piece_whole s : piece_of s s.
Proof. exists (String.length s). by rewrite substring_whole. Qed.
Lemma piece_none s : piece_of s "".
Proof. exists 0%nat. by destruct s. Qed.
Lemma piece_length s piece : piece_of s piece -> (String.length piece <= String.length s)%nat.
Proof. intros [n ->]. revert n. induction s as [|c s IH]; intros [|n]; cbn; try lia. specialize (IH n). lia. Qed.

Lemma roll_text segs bytes piece : concat_strings (roll segs bytes piece) = concat_strings segs +:+ piece.
Proof.
  unfold roll. destruct (list.last segs) as [text|] eqn:L.
  - case_match; rewrite concat_strings_app; cbn; rewrite app_nil_r_str; [|done].
    destruct (last_segment segs text L) as [E _]. rewrite E at 2. rewrite concat_strings_app. cbn.
    by rewrite app_nil_r_str, app_assoc_str.
  - apply last_None in L as ->. cbn. by rewrite app_nil_r_str.
Qed.

Lemma roll_rolled segs line piece : piece_of (line +:+ newline) piece -> Forall rolled segs ->
  Forall rolled (roll segs (Z.of_nat (String.length line) + 1) piece).
Proof.
  intros Hp H. unfold roll. assert (rolled piece) as Hl by (right; by exists line).
  apply piece_length in Hp. rewrite length_app_str in Hp. change (String.length newline) with 1%nat in Hp.
  destruct (list.last segs) as [text|] eqn:L; [|by constructor].
  destruct (Z.leb_spec (Z.of_nat (String.length text) + (Z.of_nat (String.length line) + 1)) MAX_REQUEST_LOG_FILE_BYTES) as [Hle|Hgt].
  - destruct (last_segment segs text L) as [E _]. rewrite E in H. apply list.Forall_app in H as [Hi _].
    apply list.Forall_app. split; [done|]. constructor; [|done]. left. rewrite length_app_str. lia.
  - apply list.Forall_app. split; [done|]. by constructor.
Qed.

(** What the attempt at a line leaves of it: the whole line when nothing fails,
    and never more than a first piece of it. *)
Definition line_left (faults : FileFaults) (line piece : string) : Prop :=
  piece_of (line +:+ newline) piece /\ (fault_free faults -> piece = line +:+ newline).

(** The segments of a day and what was appended to them since they were
    [segs0]. *)
Definition Grown (segs0 : list string) (dir : LogDir) (date : string) (pieces : list string) : Prop :=
  exists segs, Day dir date segs /\ concat_strings segs = concat_strings segs0 +:+ concat_strings pieces /\
    (Forall rolled segs0 -> Forall rolled segs).

Lemma write_record_rolls faults segs0 dir date pieces timestamp line :
  get_prefix 10 timestamp = Some date -> Grown segs0 dir date pieces ->
  exists r dir' piece, write_record faults timestamp line dir = Some (r, dir') /\ line_left faults line piece /\
    Grown segs0 dir' date (pieces ++ [piece]) /\
    forall path, (forall i, path <> segment_name date i) -> dir' !! path = dir !! path.
Proof.
  intros Hp (segs & Hd & Ht & Hr).
  assert (forall e : string, ~ fault_free faults -> exists (r : result string unit) dir' piece, Some (Err e, dir) = Some (r, dir') /\ line_left faults line piece /\
    Grown segs0 dir' date (pieces ++ [piece]) /\
    forall path, (forall i, path <> segment_name date i) -> dir' !! path = dir !! path) as Hnone.
  { intros e Hf. exists (Err e : result string unit), dir, "". split_and!; [done|split; [apply piece_none|done]| |done].
    exists segs. rewrite concat_strings_app. cbn. by rewrite !app_nil_r_str. }
  unfold write_record, request_log_path. destruct (ff_mkdir faults) as [e|] eqn:Fm.
  { apply Hnone. intros [Hf _]. congruence. }
  rewrite Hp. cbn [mbind option_bind].
  destruct (scan_faults faults date (Z.of_nat (String.length line) + 1) dir (S (size dir)) 0 None _
    (scan_day dir date segs _ Hd segs 0 None (S (size dir)) eq_refl ltac:(lia) ltac:(pose proof (day_size _ _ _ Hd); lia) eq_refl))
    as (out & -> & Hout & Hfree). cbn [mbind option_bind].
  destruct Hout as [[e ->]| ->].
  { apply Hnone. intros [_ Hf]. by discriminate (Hfree (fun path => proj1 (Hf path))). }
  set (path := match list.last segs with Some _ => _ | None => _ end). unfold append_line.
  destruct (ff_open faults path) as [e|] eqn:Fo.
  { apply Hnone. intros [_ Hf]. destruct (Hf path) as (_ & Hf' & _). congruence. }
  assert (forall (r : result string unit) piece, line_left faults line piece ->
    exists (r' : result string unit) dir' piece', Some (r, <[path := default "" (dir !! path) +:+ piece]> dir) = Some (r', dir') /\
      line_left faults line piece' /\ Grown segs0 dir' date (pieces ++ [piece']) /\
      forall path, (forall i, path <> segment_name date i) -> dir' !! path = dir !! path) as Happ.
  { intros r piece Hl. exists r, (<[path := default "" (dir !! path) +:+ piece]> dir), piece. split_and!; [done|done|..].
    - exists (roll segs (Z.of_nat (String.length line) + 1) piece). split_and!; [by apply day_roll|..].
      + rewrite roll_text, Ht, concat_strings_app. cbn. by rewrite app_nil_r_str, app_assoc_str.
      + intros H0. apply roll_rolled; [apply Hl|by apply Hr].
    - intros other Ho. apply lookup_insert_ne. subst path. repeat case_match; by apply not_eq_sym. }
  destruct (ff_write faults path) as [[n e]|] eqn:Fw; apply Happ.
  - split; [by exists n|]. intros [_ Hf]. destruct (Hf path) as (_ & _ & Hf'). congruence.
  - split; [apply piece_whole|done].
Qed.

(** Where the quota has removed the first segment of a day, the next line goes
    before lines that are older: the segments are no longer in order. *)
Example gap_reorders :
  (fun '(_, dir) => (dir !! segment_name "2026-07-22" 0, dir !! segment_name "2026-07-22" 1)) <$>
    write_record no_file_fault "2026-07-22T10:00:00+00:00" "new" {[segment_name "2026-07-22" 1 := "old" +:+ newline]} =
  Some (Some ("new" +:+ newline), Some ("old" +:+ newline)).
Proof. by vm_compute. Qed.

(** ** The writer keeps what it took *)

(** A batch reaches the tables unless its transaction fails; of its records,
    those whose probe or first write fails are passed over. [torn]: the row of
    the log is written and its body or its count is not. *)
Definition lost (f : Faults) : bool := is_some (f Probe) || is_some (f WriteLog).
Definition torn (f : Faults) : bool := negb (lost f) && (is_some (f WriteBody) || is_some (f WriteRollup)).
Definition kept (b : list RequestLogRecord * BatchFaults) : list RequestLogRecord :=
  if is_some (bf_begin b.2) || is_some (bf_commit b.2) then []
  else map fst (filter (fun row => lost row.2 = false) (with_faults b.1 b.2)).
Definition not_torn (b : list RequestLogRecord * BatchFaults) : Prop := forall i, torn (bf_rows b.2 i) = false.
Definition batch_free (b : BatchFaults) : Prop :=
  bf_begin b = None /\ bf_commit b = None /\ forall i statement, bf_rows b i statement = None.

Lemma insert_row_kept to_json new_id f r db : torn f = false ->
  snd (insert_request_log_row to_json new_id f r db) =
  insert_rows to_json new_id (all_well (if lost f then [] else [r])) db.
Proof.
  unfold torn, lost. intros Ht. unfold insert_rows, all_well. unfold insert_request_log_row, probe, execute.
  unfold mbind, stm_bind. destruct (f Probe); [done|]. destruct (f WriteLog); [done|]. cbn in Ht.
  destruct (f WriteBody); [done|]. cbn in Ht. cbn. case_match; [done|]. unfold upsert_rollup, execute.
  by destruct (f WriteRollup).
Qed.

Lemma insert_rows_app to_json new_id rs rs' db :
  insert_rows to_json new_id (rs ++ rs') db = insert_rows to_json new_id rs' (insert_rows to_json new_id rs db).
Proof. apply foldl_app. Qed.
Lemma all_well_app rs rs' : all_well (rs ++ rs') = all_well rs ++ all_well rs'.
Proof. apply map_app. Qed.

Lemma insert_batch_kept to_json new_id b batch db : not_torn (batch, b) ->
  snd (insert_request_logs to_json new_id (bf_begin b) (bf_commit b) (with_faults batch b) db) =
  insert_rows to_json new_id (all_well (kept (batch, b))) db.
Proof.
  intros Ht. unfold kept. cbn [fst snd]. unfold insert_request_logs.
  assert (Forall (fun row => torn row.2 = false) (with_faults batch b)) as Hrows.
  { unfold with_faults. apply Forall_lookup_2. intros i [r f] Hi. rewrite list_lookup_imap in Hi.
    apply fmap_Some in Hi as (r' & _ & [= _ ->]). apply Ht. }
  revert Hrows. generalize (with_faults batch b) as rows. intros rows Hrows. destruct rows as [|row rows]; [by case_match|].
  destruct (bf_begin b), (bf_commit b); cbn [is_some orb]; [done..|]. cbn [snd]. revert db.
  induction Hrows as [|[r f] rows' Hr _ IH]; intros db; [done|]. cbn [snd] in Hr.
  change (insert_rows to_json new_id ((r, f) :: rows') db)
    with (insert_rows to_json new_id rows' (snd (insert_request_log_row to_json new_id f r db))).
  rewrite IH, (insert_row_kept _ _ _ _ _ Hr). rewrite filter_cons. cbn [snd]. by destruct (lost f); case_decide.
Qed.

(** Two days never share a segment. *)
Lemma segment_dates d d' i j : String.length d = String.length d' -> segment_name d i = segment_name d' j -> d = d'.
Proof.
  unfold segment_name. intros Hl E. apply (inj _) in E. revert d' Hl E.
  induction d as [|c d IH]; intros [|c' d'] Hl E; [done..|]. cbn in *. injection E as -> E. injection Hl as Hl.
  f_equal. by apply IH.
Qed.
Lemma grown_other segs0 dir dir' d d' pieces : String.length d = String.length d' -> d <> d' ->
  (forall path, (forall i, path <> segment_name d' i) -> dir' !! path = dir !! path) ->
  Grown segs0 dir d pieces -> Grown segs0 dir' d pieces.
Proof.
  intros Hl Hn Hsame (segs & Hd & Ht & Hr). exists segs. split_and!; [|done|done]. intros i. rewrite Hsame; [by apply Hd|].
  intros j E. by apply Hn, (segment_dates d d' i j).
Qed.
Lemma prefix_length n s d : get_prefix n s = Some d -> String.length d = n.
Proof.
  unfold get_prefix. destruct (Nat.leb_spec n (String.length s)) as [H|H]; [|done]. destruct (is_char_boundary s n); [|done].
  intros [= <-]. revert n H. induction s as [|c s IH]; intros [|n] H; cbn in *; try done; [lia|]. f_equal. apply IH. lia.
Qed.

Definition dated (r : RequestLogRecord) : Prop := is_Some (get_prefix 10 (r_timestamp r)).

Section delivery.
Context (to_json : RequestLogRecord -> string) (new_id : Z -> Z).
Context (segs0 : string -> list string) (earlier : list RequestLogRecord).

(** What the lines of a day left of themselves. *)
Definition left_of (l : RequestLogRecord * FileFaults) (piece : string) : Prop := line_left l.2 (to_json l.1) piece.
Definition day_lines (d : string) (lines : list (RequestLogRecord * FileFaults)) : list (RequestLogRecord * FileFaults) :=
  filter (fun l => get_prefix 10 (r_timestamp l.1) = Some d) lines.
Definition day_kept (dir : LogDir) (lines : list (RequestLogRecord * FileFaults)) : Prop :=
  forall d, String.length d = 10%nat ->
    exists pieces, Forall2 left_of (day_lines d lines) pieces /\ Grown (segs0 d) dir d pieces.

Lemma day_write faults r dir lines : dated r -> day_kept dir lines ->
  exists res dir', write_record faults (r_timestamp r) (to_json r) dir = Some (res, dir') /\
    day_kept dir' (lines ++ [(r, faults)]).
Proof.
  intros [date Hp] Hk. pose proof (prefix_length _ _ _ Hp) as Hlen.
  destruct (Hk date Hlen) as (pieces & Hl & Hg).
  destruct (write_record_rolls faults _ _ _ _ _ (to_json r) Hp Hg) as (res & dir' & piece & E & Hleft & Hg' & Hsame).
  exists res, dir'. split; [done|]. intros d Hd. unfold day_lines. rewrite list.filter_app, filter_cons. cbn [fst].
  destruct (decide (d = date)) as [->|Hn].
  - rewrite decide_True by done. exists (pieces ++ [piece]). split; [|done].
    rewrite filter_nil. apply Forall2_app; [done|]. constructor; [done|constructor].
  - rewrite decide_False by congruence. rewrite app_nil_r. destruct (Hk d Hd) as (pieces' & Hl' & Hg2).
    exists pieces'. split; [done|]. by apply (grown_other _ dir dir' d date); [congruence|..].
Qed.

#[local] Opaque CHANNEL BATCH_MAX.
Lemma limits_positive : (0 < CHANNEL)%nat /\ (0 < BATCH_MAX)%nat.
Proof. #[local] Transparent CHANNEL BATCH_MAX. unfold CHANNEL, BATCH_MAX. lia. Qed.
#[local] Opaque CHANNEL BATCH_MAX.

(** What holds after the records [accepted] were taken in. *)
Record delivers (accepted : list RequestLogRecord) (w : Writer) : Prop := {
  delivers_lines : map fst (wr_lines w) ++ wr_queue w = accepted;
  delivers_batches : concat (map fst (wr_batches w)) ++ wr_batch w = map fst (wr_lines w);
  delivers_sizes : Forall (fun b => (1 <= length b.1 <= BATCH_MAX)%nat) (wr_batches w);
  delivers_batch : (length (wr_batch w) < BATCH_MAX)%nat;
  delivers_queue : (length (wr_queue w) <= CHANNEL)%nat;
  delivers_end : wr_running w = false -> wr_batch w = [] /\ wr_queue w = [] /\ wr_open w = false;
  delivers_days : day_kept (wr_dir w) (wr_lines w);
  delivers_tables : Forall not_torn (wr_batches w) ->
    wr_db w = Some (insert_rows to_json new_id (all_well (earlier ++ concat (map kept (wr_batches w)))) empty_db)
}.

(** What [flush_sqlite] needs and keeps: a batch that may be full. *)
Lemma flush_delivers accepted b w :
  map fst (wr_lines w) ++ wr_queue w = accepted ->
  concat (map fst (wr_batches w)) ++ wr_batch w = map fst (wr_lines w) ->
  Forall (fun b => (1 <= length b.1 <= BATCH_MAX)%nat) (wr_batches w) -> (length (wr_batch w) <= BATCH_MAX)%nat ->
  (length (wr_queue w) <= CHANNEL)%nat ->
  (wr_running w = false -> wr_batch w = [] /\ wr_queue w = [] /\ wr_open w = false) ->
  day_kept (wr_dir w) (wr_lines w) ->
  (Forall not_torn (wr_batches w) ->
    wr_db w = Some (insert_rows to_json new_id (all_well (earlier ++ concat (map kept (wr_batches w)))) empty_db)) ->
  delivers accepted (flush_sqlite to_json new_id b w).
Proof.
  intros Hl Hb Hs Hn Hq Hr Hd Ht. pose proof limits_positive as [_ Hm]. unfold flush_sqlite.
  destruct (wr_batch w) as [|r batch] eqn:E; split; rewrite ?E; cbn -[length insert_request_logs with_faults]; try done.
  - by rewrite map_app, concat_app, app_nil_r; cbn; rewrite app_nil_r.
  - apply list.Forall_app. split; [done|]. constructor; [|done]. cbn in *. lia.
  - intros R. by destruct (Hr R).
  - intros [Hold Hnew%List.Forall_inv]%list.Forall_app. rewrite (Ht Hold). cbn [fmap option_fmap option_map].
    rewrite (insert_batch_kept _ _ _ _ _ Hnew), map_app, concat_app, app_assoc, (all_well_app (_ ++ _)), insert_rows_app.
    cbn [map concat]. by rewrite app_nil_r.
Qed.

Lemma flush_same b w :
  wr_queue (flush_sqlite to_json new_id b w) = wr_queue w /\ wr_open (flush_sqlite to_json new_id b w) = wr_open w /\
  wr_running (flush_sqlite to_json new_id b w) = wr_running w /\ wr_batch (flush_sqlite to_json new_id b w) = [].
Proof. unfold flush_sqlite. by destruct (wr_batch w) eqn:E. Qed.

Lemma writer_step_delivers accepted w e w' : Forall dated accepted ->
  delivers accepted w -> writer_step to_json new_id w e = Some w' -> delivers (accepted ++ taken_in w e) w'.
Proof.
  intros Hdated Hw. pose proof Hw as [Hl Hb Hs Hn Hq Hr Hd Ht]. intros Hstep. pose proof limits_positive as [Hc Hm].
  destruct e as [r|f b|b| |b]; cbn [writer_step taken_in] in *; rewrite ?app_nil_r.
  - destruct (wr_open w) eqn:O; cbn [negb] in Hstep; [|done]. unfold accepts in *.
    destruct (wr_running w) eqn:R; cbn [andb] in *.
    + destruct (Nat.ltb_spec (length (wr_queue w)) CHANNEL); injection Hstep as <-; rewrite ?app_nil_r; [|done].
      split; cbn; try done; [by rewrite app_assoc, Hl|rewrite length_app; cbn; lia].
    + injection Hstep as <-. by rewrite app_nil_r.
  - destruct (wr_queue w) as [|r queue] eqn:Q; [done|]. destruct (wr_running w) eqn:R; [|done].
    assert (dated r) as Hdr.
    { rewrite <-Hl in Hdated. apply list.Forall_app in Hdated as [_ Hdated]. by apply List.Forall_inv in Hdated. }
    destruct (day_write f r (wr_dir w) (wr_lines w) Hdr Hd) as (res & dir' & E & Hd'). rewrite E in Hstep.
    injection Hstep as <-. cbn [length wr_batch] in *.
    assert (map fst (wr_lines w ++ [(r, f)]) ++ queue = accepted) as Hl' by (by rewrite map_app, <-app_assoc).
    assert (concat (map fst (wr_batches w)) ++ wr_batch w ++ [r] = map fst (wr_lines w ++ [(r, f)])) as Hb'
      by (by rewrite map_app, app_assoc, Hb).
    assert (length (wr_batch w ++ [r]) = S (length (wr_batch w))) as Hlen by (rewrite length_app; cbn; lia).
    case_match eqn:Hfull; [apply flush_delivers|split]; cbn; try done; try lia.
    apply Nat.leb_gt in Hfull. cbn in Hfull. lia.
  - destruct (wr_running w) eqn:R; [|done]. destruct (wr_open w); [|done]. cbn in Hstep.
    destruct (wr_queue w) eqn:Q; [|done]. injection Hstep as <-. apply flush_delivers; rewrite ?Q, ?R; try done. lia.
  - injection Hstep as <-. split; cbn; try done. intros R. naive_solver.
  - destruct (wr_running w) eqn:R; [|done]. destruct (wr_open w) eqn:O; [done|]. cbn in Hstep.
    destruct (wr_queue w) eqn:Q; [|done]. injection Hstep as <-.
    destruct (flush_delivers accepted b w) as [Hl' Hb' Hs' Hn' Hq' Hr' Hd' Ht']; rewrite ?Q, ?R; try done; [lia|].
    destruct (flush_same b w) as (H1 & H2 & H3 & H4). rewrite H1, Q in Hl'. rewrite H4 in Hb'.
    split; cbn; try done; try lia. by rewrite H2.
Qed.

Lemma writer_run_delivers events : forall accepted w new w', Forall dated (accepted ++ new) ->
  delivers accepted w -> writer_run to_json new_id w events = Some (new, w') -> delivers (accepted ++ new) w'.
Proof.
  induction events as [|e events IH]; intros accepted w new w' Hdated Hd Hrun; cbn in Hrun.
  { injection Hrun as <- <-. by rewrite app_nil_r. }
  destruct (writer_step to_json new_id w e) as [w1|] eqn:E; [cbn in Hrun|done].
  destruct (writer_run to_json new_id w1 events) as [[new' w2]|] eqn:R; [cbn in Hrun|done]. injection Hrun as <- <-.
  rewrite app_assoc in *. eapply IH; [done| |done]. eapply writer_step_delivers; [|done..].
  apply list.Forall_app in Hdated as [Hdated _]. by apply list.Forall_app in Hdated as [Hdated _].
Qed.

Lemma writer0_delivers dir : (forall d, String.length d = 10%nat -> Day dir d (segs0 d)) ->
  delivers [] (writer0 dir (Some (batch to_json new_id earlier empty_db))).
Proof.
  intros Hdir. pose proof limits_positive. split; cbn; try done; try lia.
  - intros d Hd. exists []. split; [constructor|]. exists (segs0 d). split_and!; [by apply Hdir| |done].
    cbn. by rewrite app_nil_r_str.
  - intros _. rewrite app_nil_r. unfold batch, insert_request_logs, all_well. by destruct earlier.
Qed.

(** Once the handles are gone, the task takes what waits and ends. *)
Lemma drains queue : forall w, wr_queue w = queue -> wr_running w = true -> wr_open w = false ->
  exists rest w', writer_run to_json new_id w rest = Some ([], w') /\ wr_running w' = false.
Proof.
  induction queue as [|r queue IH]; intros w Q R O.
  { pose (b := {| bf_begin := None; bf_commit := None; bf_rows := fun _ => no_fault |}).
    exists [Closed b], (ended (flush_sqlite to_json new_id b w)). cbn. by rewrite R, O, Q. }
  pose (b := {| bf_begin := None; bf_commit := None; bf_rows := fun _ => no_fault |}).
  assert (exists w1, writer_step to_json new_id w (Recv no_file_fault b) = Some w1 /\
      (wr_running w1 = false \/ wr_queue w1 = queue /\ wr_running w1 = true /\ wr_open w1 = false)) as (w1 & E & Hw1).
  { cbn. rewrite Q, R. case_match; [case_match|by eexists; split; [|left]]. eexists. split; [done|]. right.
    case_match; [|done]. match goal with |- context [flush_sqlite _ _ _ ?w] => destruct (flush_same b w) as (Fq & Fo & Fr & _) end.
    by rewrite Fq, Fo, Fr. }
  destruct Hw1 as [Hw1|(Q1 & R1 & O1)].
  { exists [Recv no_file_fault b], w1. cbn -[writer_step]. by rewrite E. }
  destruct (IH w1 Q1 R1 O1) as (rest & w' & E' & R'). exists (Recv no_file_fault b :: rest), w'. split; [|done].
  cbn [writer_run]. rewrite E. cbn. by rewrite E'.
Qed.
Lemma free_kept b : batch_free b.2 -> kept b = b.1 /\ not_torn b.
Proof.
  intros (Hb & Hc & Hr). split; [|intros i; unfold torn, lost; by rewrite !Hr]. unfold kept. rewrite Hb, Hc. cbn [is_some orb].
  assert (Forall (fun row => lost row.2 = false) (with_faults b.1 b.2)) as Hrows.
  { apply Forall_lookup_2. intros i row Hi. unfold with_faults in Hi. rewrite list_lookup_imap in Hi.
    apply fmap_Some in Hi as (r & _ & ->). unfold lost. cbn. by rewrite !Hr. }
  transitivity (map fst (with_faults b.1 b.2)).
  - f_equal. induction Hrows as [|row rows Hrow _ IH]; [done|]. rewrite filter_cons, decide_True by done. by f_equal.
  - unfold with_faults. clear. generalize (bf_rows b.2) as rows. generalize (b.1) as batch. intros batch. induction batch as [|r batch IH]; intros rows; [done|].
    cbn. f_equal. apply (IH (rows ∘ S)).
Qed.

Lemma kept_sublist b : kept b `sublist_of` b.1.
Proof.
  unfold kept. destruct (_ || _); [apply sublist_nil_l|].
  transitivity (map fst (with_faults b.1 b.2)); [apply fmap_sublist, sublist_filter|].
  unfold with_faults. generalize (bf_rows b.2) as rows. generalize (b.1) as l. intros l.
  induction l as [|r l IH]; intros rows; [done|]. cbn. apply sublist_skip, (IH (rows ∘ S)).
Qed.
Lemma sublist_forall {A} (P : A -> Prop) l k : l `sublist_of` k -> Forall P k -> Forall P l.
Proof. induction 1; inversion_clear 1; auto. Qed.
Lemma kept_metered bs : Forall metered (concat (map fst bs)) -> Forall metered (concat (map kept bs)).
Proof.
  induction bs as [|b bs IH]; cbn; [done|]. intros [Hb Hbs]%list.Forall_app. apply list.Forall_app.
  split; [|by apply IH]. eapply sublist_forall; [apply kept_sublist|done].
Qed.
End delivery.

(** C25: every record the logger takes is written, up to what fails. Calls and
    task interleave as they will, over a directory whose days have the segments
    [segs0] and a database that holds the records [earlier], which nothing else
    writes to; the records have a dated timestamp, as the gateway's have.
    A record is taken unless 256 wait or the task has ended; the lines tried
    and the records still waiting are the ones taken, in order. On every day
    the segments, in the order of their numbers, are the old text and what the
    tried lines left of themselves, in order: the whole line when no operation
    on the files failed for it, and a first piece of it, maybe nothing, when
    one did; and no segment outgrows 10 MiB unless it is of one line. A batch
    has between 1 and 256 records. A running task can always come to its end,
    and then every record taken was tried as a line and is in one batch, in
    order. When the records are metered and no row was torn (its log row
    written and its body or count refused), the tables then hold exactly the
    records of the batches whose transaction did not fail, without those whose
    probe or first statement did: the body of the last of every request, the
    count of its first. Those are all the records taken when nothing failed. *)
Theorem writer_delivers (to_json : RequestLogRecord -> string) (new_id : Z -> Z) (segs0 : string -> list string)
    (earlier : list RequestLogRecord) dir events accepted w :
  (forall largest, largest < new_id largest) ->
  (forall d, String.length d = 10%nat -> Day dir d (segs0 d)) ->
  Forall dated accepted ->
  writer_run to_json new_id (writer0 dir (Some (batch to_json new_id earlier empty_db))) events = Some (accepted, w) ->
  map fst (wr_lines w) ++ wr_queue w = accepted /\
  (forall record, taken_in w (Log record) = [] -> wr_running w = false \/ length (wr_queue w) = CHANNEL) /\
  (forall d, String.length d = 10%nat -> exists pieces segs,
     Forall2 (left_of to_json) (day_lines d (wr_lines w)) pieces /\ Day (wr_dir w) d segs /\
     concat_strings segs = concat_strings (segs0 d) +:+ concat_strings pieces /\
     (Forall rolled (segs0 d) -> Forall rolled segs)) /\
  Forall (fun b => (1 <= length b.1 <= BATCH_MAX)%nat) (wr_batches w) /\
  (wr_running w = true -> exists rest w', writer_run to_json new_id w rest = Some ([], w') /\ wr_running w' = false) /\
  (wr_running w = false ->
     map fst (wr_lines w) = accepted /\ concat (map fst (wr_batches w)) = accepted /\
     (Forall metered (earlier ++ accepted) -> Forall not_torn (wr_batches w) ->
        let rs := earlier ++ concat (map kept (wr_batches w)) in
        exists db, wr_db w = Some db /\
          (forall id, request_bodies db !! id = body_row to_json <$> find_id id (last_records rs)) /\
          rollup_counts db = rollup_spec (first_records rs)) /\
     (Forall (fun b => batch_free b.2) (wr_batches w) -> concat (map kept (wr_batches w)) = accepted)).
Proof.
  intros Hid Hdir Hdated Hrun.
  pose proof (writer_run_delivers to_json new_id segs0 earlier events [] _ accepted w Hdated
    (writer0_delivers to_json new_id segs0 earlier dir Hdir) Hrun) as [Hl Hb Hs Hn Hq Hend Hdays Ht].
  cbn [app] in *. split_and!; [done|..].
  - intros r. unfold taken_in, accepts. destruct (wr_running w); [right|by left].
    destruct (Nat.ltb_spec (length (wr_queue w)) CHANNEL); [done|lia].
  - intros d Hd. destruct (Hdays d Hd) as (pieces & Hp & segs & Hg). exists pieces, segs. by split.
  - done.
  - intros R. pose (w1 := {| wr_queue := wr_queue w; wr_open := false; wr_running := wr_running w; wr_batch := wr_batch w;
      wr_dir := wr_dir w; wr_db := wr_db w; wr_lines := wr_lines w; wr_batches := wr_batches w |}).
    destruct (drains to_json new_id (wr_queue w) w1) as (rest & w' & E & R'); [done..|].
    exists (Close :: rest), w'. split; [|done]. cbn [writer_run writer_step]. fold w1. cbn. by rewrite E.
  - intros R. destruct (Hend R) as (B & Q & _). rewrite B, app_nil_r in Hb. rewrite Q, app_nil_r in Hl.
    rewrite Hb, Hl. split_and!; [done..| |].
    + intros Hm Htorn. cbv zeta. eexists. split; [by apply Ht|].
      apply list.Forall_app in Hm as [He Ha]. rewrite <-Hl, <-Hb in Ha. apply kept_metered in Ha.
      assert (Forall metered (earlier ++ concat (map kept (wr_batches w)))) as Hm' by (by apply list.Forall_app).
      by destruct (holds_rows to_json new_id Hid _ Hm') as [_ ? ?].
    + intros Hfree. rewrite <-Hl, <-Hb. f_equal. clear -Hfree. induction Hfree as [|b bs Hb _ IH]; [done|]. cbn.
      by rewrite (proj1 (free_kept b Hb)), IH.
Qed.

Definition no_batch_fault : BatchFaults := {| bf_begin := None; bf_commit := None; bf_rows := fun _ => no_fault |}.
Definition busy_batch : BatchFaults := {| bf_begin := Some StoragePool; bf_commit := None; bf_rows := fun _ => no_fault |}.
(** A disk that takes two bytes of a line. *)
Definition full_disk : FileFaults :=
  {| ff_mkdir := None; ff_stat := fun _ => None; ff_open := fun _ => None; ff_write := fun _ => Some (2%nat, "no space left") |}.

Definition some_events : list WriterEvent :=
  [Log some_record; Recv no_file_fault no_batch_fault; Quiet busy_batch; Log some_record; Close;
   Recv full_disk no_batch_fault; Closed no_batch_fault].
Definition some_run : option (list RequestLogRecord * Writer) :=
  writer_run (fun _ => "line") Z.succ (writer0 ∅ (Some (batch (fun _ => "line") Z.succ [] empty_db))) some_events.

Lemma some_run_end : exists w, some_run = Some ([some_record; some_record], w) /\ wr_running w = false /\
  concat (map kept (wr_batches w)) = [some_record] /\
  wr_dir w !! segment_name "2026-07-22" 0 = Some ("line" +:+ newline +:+ "li").
Proof.
  assert ((fun '(accepted, w) => (accepted, wr_running w, concat (map kept (wr_batches w)),
             wr_dir w !! segment_name "2026-07-22" 0)) <$> some_run =
          Some ([some_record; some_record], false, [some_record], Some ("line" +:+ newline +:+ "li"))) as H
    by (vm_compute; reflexivity).
  destruct some_run as [[accepted w]|]; [|done]. injection H as -> R K D. by exists w.
Qed.

Lemma writer_delivers_witness :
  exists w, some_run = Some ([some_record; some_record], w) /\
    concat (map fst (wr_batches w)) = [some_record; some_record] /\
    concat (map kept (wr_batches w)) = [some_record] /\
    wr_dir w !! segment_name "2026-07-22" 0 = Some ("line" +:+ newline +:+ "li").
Proof.
  destruct some_run_end as (w & E & R & K & D). exists w. split; [done|].
  destruct (writer_delivers (fun _ => "line") Z.succ (fun _ => []) [] ∅ some_events [some_record; some_record] w Z.lt_succ_diag_r
    ltac:(intros d _ i; by rewrite lookup_empty, lookup_nil) ltac:(repeat constructor; vm_compute; by eexists) E)
    as (_ & _ & _ & _ & _ & Hend).
  split; [by apply Hend|]. by split.
Defined.

(** ** The quota *)

Definition older (a b : LogFileEntry) : Prop := lf_modified a <= lf_modified b.

Lemma insert_older_perm e l : insert_older e l ≡ₚ e :: l.
Proof.
  induction l as [|x l IH]; cbn; [done|]. case_match; [done|]. rewrite IH. apply Permutation_swap.
Qed.
Lemma oldest_first_perm l : oldest_first l ≡ₚ l.
Proof. induction l as [|e l IH]; cbn; [done|]. by rewrite insert_older_perm, IH. Qed.

Lemma insert_older_sorted e l : StronglySorted older l -> StronglySorted older (insert_older e l).
Proof.
  induction 1 as [|x l Hs IH Hx]; cbn; [by repeat constructor|]. destruct (Z.leb_spec (lf_modified e) (lf_modified x)) as [L|L].
  - constructor; [by constructor|]. constructor; [done|]. eapply List.Forall_impl; [|exact Hx]. unfold older. lia.
  - constructor; [done|]. rewrite insert_older_perm. constructor; [unfold older; lia|done].
Qed.
Lemma oldest_first_sorted l : StronglySorted older (oldest_first l).
Proof. induction l as [|e l IH]; [constructor|]. by apply insert_older_sorted. Qed.

Lemma total_size_app l1 l2 : total_size (l1 ++ l2) = total_size l1 + total_size l2.
Proof.
  induction l1 as [|e l1 IH]; [done|].
  change (lf_size e + total_size (l1 ++ l2) = lf_size e + total_size l1 + total_size l2). lia.
Qed.
Lemma total_size_cons e l : total_size (e :: l) = lf_size e + total_size l.
Proof. done. Qed.
Lemma total_size_perm l1 l2 : l1 ≡ₚ l2 -> total_size l1 = total_size l2.
Proof. induction 1; rewrite ?total_size_cons; lia. Qed.

(** The files are gone through from the front, until enough is freed; those
    that cannot be removed are passed over. *)
Lemma remove_until_spec remove overshoot l : forall freed,
  exists tried rest, l = tried ++ rest /\
    remove_until remove overshoot freed l = filter (fun e => remove (lf_path e) = true) tried /\
    (rest = [] \/ overshoot <= freed + total_size (filter (fun e => remove (lf_path e) = true) tried)) /\
    (forall a e, tried = a ++ [e] ->
       freed + total_size (filter (fun e => remove (lf_path e) = true) a) < overshoot).
Proof.
  induction l as [|e l IH]; intros freed; cbn [remove_until].
  { exists [], []. split_and!; [done|done|by left|]. by intros [] ?. }
  destruct (Z.leb_spec overshoot freed) as [L|L].
  { exists [], (e :: l). split_and!; [done|done|right; cbn; lia|]. by intros [] ?. }
  destruct (remove (lf_path e)) eqn:R.
  - destruct (IH (freed + lf_size e)) as (tried & rest & -> & -> & Hrest & Hmin). exists (e :: tried), rest.
    rewrite filter_cons_True by done. split_and!; [done|done|..].
    + destruct Hrest as [->|Hrest]; [by left|right]. rewrite total_size_cons. lia.
    + intros [|x a] y [= <- E]; [cbn; lia|]. rewrite filter_cons_True by done. specialize (Hmin a y E).
      rewrite total_size_cons. lia.
  - destruct (IH freed) as (tried & rest & -> & -> & Hrest & Hmin). exists (e :: tried), rest.
    rewrite filter_cons_False by congruence. split_and!; [done|done|done|].
    intros [|x a] y [= <- E]; [cbn; lia|]. rewrite filter_cons_False by congruence. by apply (Hmin a y).
Qed.

(** The quota removes the oldest log files, and no more than it must. What
    is removed are the removable ones of the oldest files, taken in the order
    of their times; no file newer than a kept one; none of them the database's.
    Either what is left fits [max_bytes], or every log file that is left could
    not be removed; and before the last one was removed it did not fit. *)
Theorem quota_exact remove max_bytes listing removed :
  enforce_quota remove max_bytes listing = Ok removed -> max_bytes <> 0 ->
  exists files, collect_log_files listing = Ok files /\
    let kept := oldest_first files in
    exists tried rest, kept = tried ++ rest /\
      removed = filter (fun e => remove (lf_path e) = true) tried /\
      Forall (fun e => Forall (older e) rest) tried /\
      (total_size files - total_size removed <= max_bytes \/
       Forall (fun e => remove (lf_path e) = true -> e ∈ removed) files) /\
      (forall e, list.last tried = Some e -> remove (lf_path e) = true ->
         max_bytes < total_size files - (total_size removed - lf_size e)).
Proof.
  intros E Hmax. unfold enforce_quota in E. rewrite (proj2 (Z.eqb_neq _ _) Hmax) in E.
  destruct (collect_log_files listing) as [files|e] eqn:C; [cbn in E|done]. exists files. split; [done|]. cbv zeta.
  destruct (Z.leb_spec (total_size files) max_bytes) as [L|L]; injection E as <-.
  { exists [], (oldest_first files). split_and!; try done. left. cbn. lia. }
  destruct (remove_until_spec remove (total_size files - max_bytes) (oldest_first files) 0)
    as (tried & rest & Hsplit & -> & Hrest & Hmin).
  exists tried, rest. split_and!; [done|done|..].
  - pose proof (oldest_first_sorted files) as Hs. rewrite Hsplit in Hs.
    clear -Hs. induction tried as [|e tried IH]; [constructor|]. inversion_clear Hs as [|?? Hs' He].
    constructor; [by apply list.Forall_app in He as [_ He]|by apply IH].
  - destruct Hrest as [->|Hrest]; [right|left; lia]. rewrite app_nil_r in Hsplit. rewrite <-Hsplit.
    apply list.Forall_forall. intros e He Hr. apply list_elem_of_filter. split; [done|]. by rewrite oldest_first_perm.
  - intros e He Hr. apply last_Some in He as [a ->]. specialize (Hmin a e eq_refl).
    rewrite list.filter_app, total_size_app, filter_cons_True, total_size_cons by done. cbn [filter list_filter total_size foldr]. lia.
Qed.

(** A log file is a regular file whose name is not the database's. *)
Lemma log_files_safe listing files e :
  collect_log_files (Ok (Some listing)) = Ok files -> e ∈ files ->
  exists entry, Ok entry ∈ listing /\ de_path entry = lf_path e /\ de_is_file entry = true /\
    forall name, de_file_name entry = Some name -> starts_with "any-converter.sqlite3" name = false.
Proof.
  intros [= <-] He. apply elem_of_filter_map in He as ([entry|] & Hin & Hf); [|done]. exists entry. cbn in Hf.
  destruct (de_is_file entry) eqn:F; [cbn in Hf|done]. destruct (de_file_name entry) as [name|] eqn:N.
  - destruct (starts_with _ name) eqn:S; [done|]. injection Hf as <-. split_and!; try done. by intros ? [= <-].
  - injection Hf as <-. by split_and!.
Qed.

Definition on_disk (name : string) (size modified : Z) : result string DirEntry :=
  Ok {| de_path := "/logs/" +:+ name; de_file_name := Some name; de_is_file := true; de_size := size;
        de_modified := Some modified |}.
Definition some_listing : list (result string DirEntry) :=
  [on_disk "app.log" 100 3; on_disk "any-converter.sqlite3" 500 0; on_disk "requests.2026-07-22.000.jsonl" 100 1;
   on_disk "requests.2026-07-22.001.jsonl" 100 2].

Lemma quota_exact_witness :
  exists removed, enforce_quota (fun _ => true) 250 (Ok (Some some_listing)) = Ok removed /\
    map lf_path removed = ["/logs/requests.2026-07-22.000.jsonl"] /\
    exists files, collect_log_files (Ok (Some some_listing)) = Ok files.
Proof.
  eexists. split; [vm_compute; reflexivity|]. split; [by vm_compute|].
  destruct (quota_exact (fun _ => true) 250 (Ok (Some some_listing)) _ eq_refl) as (files & Hc & _); [done|by exists files].
Defined.
