(* ===== verification/AuthStore.v ===== *)
(** * The auth file of the plugins

    plugins/authstore.rs: a map of credentials in one file, written through a
    temporary file and a rename, with a backup of what was there before and a
    lock file. The writing is a list of single file operations, so that a
    crash is a prefix of it; the lock is a machine whose steps are single
    operations of several contenders. What a directory on the way refuses is
    not modelled, nor is the branch for Windows. *)
From Stdlib Require Import ZArith Lia.
From stdpp Require Import gmap sorting functions.
From S2P Require Import Prelude.
From S2P Require Import RustStd.
From S2P Require Import Json.

Local Open Scope Z_scope.

Inductive AuthStoreError : Type := AuthIo | AuthSerialize (message : string) | Corrupted.
#[export] Instance AuthStoreError_eq_dec : EqDecision AuthStoreError.
Proof. solve_decision. Defined.

Inductive PluginAuth : Type :=
  | OAuth (refresh access : option string) (expires : option Z) (extra : gmap string Value)
  | ApiKey (key : string) (extra : gmap string Value).

Abbreviation AuthMap := (gmap string PluginAuth).

Definition provider_of (account_key : string) : string := default account_key (head (split ":" account_key)).

(** ** The files

    What a path holds: nothing, something that cannot be opened or read, or a
    text with its permission bits (0o700, 0o600 and 0o666 are written 0x1c0,
    0x180 and 0x1b6). The lock file is the time it was made. *)
Inductive Node : Type := Missing | Unreadable | Text (mode : Z) (text : string).
#[export] Instance Node_eq_dec : EqDecision Node.
Proof. solve_decision. Defined.

Record Disk := { d_path : Node; d_bak : Node; d_tmp : Node; d_lock : option Z; d_parent : option Z }.

Definition set_path (n : Node) (d : Disk) : Disk :=
  {| d_path := n; d_bak := d_bak d; d_tmp := d_tmp d; d_lock := d_lock d; d_parent := d_parent d |}.
Definition set_bak (n : Node) (d : Disk) : Disk :=
  {| d_path := d_path d; d_bak := n; d_tmp := d_tmp d; d_lock := d_lock d; d_parent := d_parent d |}.
Definition set_tmp (n : Node) (d : Disk) : Disk :=
  {| d_path := d_path d; d_bak := d_bak d; d_tmp := n; d_lock := d_lock d; d_parent := d_parent d |}.
Definition set_lock (l : option Z) (d : Disk) : Disk :=
  {| d_path := d_path d; d_bak := d_bak d; d_tmp := d_tmp d; d_lock := l; d_parent := d_parent d |}.

(** A file operation. *)
Abbreviation Op := (Disk -> result AuthStoreError Disk).

(** [ensure_parent]; a bare file name has no directory. *)
Definition ensure_parent (bare : bool) (d : Disk) : Disk :=
  if bare then d
  else {| d_path := d_path d; d_bak := d_bak d; d_tmp := d_tmp d; d_lock := d_lock d; d_parent := Some 0x1c0 |}.

(** The keys of a [BTreeMap] come in order. *)
Definition str_le (a b : string) : Prop := String.leb a b = true.
#[export] Instance str_le_dec : RelDecision str_le.
Proof. intros a b. unfold str_le. apply _. Defined.

Section store.
Context `{Serialize AuthMap} `{Deserialize AuthMap}.

(** ** Reading *)

Definition read_file (n : Node) : result AuthStoreError (option AuthMap) :=
  match n with
  | Missing => Ok None
  | Unreadable => Err AuthIo
  | Text _ text => map_err AuthSerialize (Some <$> from_json text)
  end.

Definition load (d : Disk) : result AuthStoreError AuthMap :=
  match read_file (d_path d) with
  | Ok (Some map) => Ok map
  | Ok None => Ok ∅
  | Err _ =>
      match read_file (d_bak d) with
      | Ok (Some map) => Ok map
      | Ok None => Err Corrupted
      | Err e => Err e
      end
  end.

Definition accounts_of (provider : string) (d : Disk) : result AuthStoreError (list string) :=
  map ← load d;
  Ok (filter (fun k => starts_with (provider +:+ ":") k = true) (merge_sort str_le (elements (dom map)))).

(** ** Writing

    [save] as its file operations. A write and a copy add a byte at a time;
    the operation that fails ends the list. *)

Definition open_tmp (umask : Z) : Op := fun d =>
  match d_tmp d with
  | Missing => Ok (set_tmp (Text (Z.ldiff 0x1b6 umask) "") d)
  | Text mode _ => Ok (set_tmp (Text mode "") d)
  | Unreadable => Err AuthIo
  end.
Definition chmod_tmp : Op := fun d =>
  match d_tmp d with Text _ text => Ok (set_tmp (Text 0x180 text) d) | _ => Err AuthIo end.
Definition write_tmp (bytes : string) (n : nat) : Op := fun d =>
  match d_tmp d with Text mode _ => Ok (set_tmp (Text mode (String.substring 0 n bytes)) d) | _ => Err AuthIo end.
(** [fs::copy] gives the copy the permissions of the original. *)
Definition copy_bak (n : nat) : Op := fun d =>
  match d_path d, d_bak d with
  | Text mode text, (Missing | Text _ _) => Ok (set_bak (Text mode (String.substring 0 n text)) d)
  | _, _ => Err AuthIo
  end.
Definition rename : Op := fun d => Ok (set_tmp Missing (set_path (d_tmp d) d)).

Definition save_ops (umask : Z) (bytes : string) (path : Node) : list Op :=
  [open_tmp umask; chmod_tmp] ++ map (write_tmp bytes) (seq 1 (String.length bytes)) ++
  match path with
  | Missing => []
  | Unreadable => [fun _ => Err AuthIo]
  | Text _ text => map copy_bak (seq 0 (S (String.length text)))
  end ++ [rename].

(** The disk after the operations, and the error of the one that failed. *)
Fixpoint run (ops : list Op) (d : Disk) : result AuthStoreError unit * Disk :=
  match ops with
  | [] => (Ok tt, d)
  | op :: ops => match op d with Ok d => run ops d | Err e => (Err e, d) end
  end.

Section writing.
Variables (bare : bool) (umask : Z).

(** [cut] is the operation the system refuses, or stops before. *)
Definition save_cut (cut : option nat) (map : AuthMap) (d : Disk) : result AuthStoreError unit * Disk :=
  match to_json map with
  | Err e => (Err (AuthSerialize e), d)
  | Ok bytes =>
      let d := ensure_parent bare d in
      let ops := save_ops umask bytes (d_path d) in
      run match cut with
          | Some k => if (k <? length ops)%nat then firstn k ops ++ [fun _ => Err AuthIo] else ops
          | None => ops
          end d
  end.
Definition save : AuthMap -> Disk -> result AuthStoreError unit * Disk := save_cut None.

(** ** The uses

    What [set] and [remove] make of the map; [None] is nothing to write. *)
Inductive Update : Type := USet (account_key : string) (auth : PluginAuth) | URemove (account_key : string).

Definition apply (u : Update) (map : AuthMap) : option AuthMap * bool :=
  match u with
  | USet k a => (Some (<[k := a]> map), true)
  | URemove k => match map !! k with Some _ => (Some (delete k map), true) | None => (None, false) end
  end.

(** The two halves of the body, and the body. *)
Definition body_load (u : Update) (d : Disk) : result AuthStoreError (option AuthMap * bool) :=
  map ← load d; Ok (apply u map).
Definition body (cut : option nat) (u : Update) (d : Disk) : result AuthStoreError bool * Disk :=
  match body_load u d with
  | Err e => (Err e, d)
  | Ok (None, reply) => (Ok reply, d)
  | Ok (Some map, reply) => let '(r, d) := save_cut cut map d in ((_ ← r; Ok reply), d)
  end.
Definition set (cut : option nat) (account_key : string) (auth : PluginAuth) : Disk -> result AuthStoreError bool * Disk :=
  body cut (USet account_key auth).
Definition remove (cut : option nat) (account_key : string) : Disk -> result AuthStoreError bool * Disk :=
  body cut (URemove account_key).

(** ** The lock

    Several contenders, each with an update to make under [with_lock]: the
    operation that comes next. *)
Inductive Pc : Type :=
  | Starting
  | Trying
  | Looking
  | Breaking
  | Inside
  | Loaded (map : AuthMap) (reply : bool)
  | Leaving (outcome : result AuthStoreError bool)
  | Done (outcome : result AuthStoreError bool)
  | Gone.

Record Keeper := { kp_disk : Disk; kp_now : Z; kp_pc : nat -> Pc }.

(** A contender goes on or dies, in a save with what the save had done; time
    passes. *)
Inductive Event : Type :=
  | Act (i : nat) (cut : option nat)
  | Die (i : nat) (cut : option nat)
  | Tick (d : Z).

Variables (stale_after : Z) (updates : nat -> Update).

(** A lock that cannot be looked at counts as stale. *)
Definition stale (s : Keeper) : bool :=
  match d_lock (kp_disk s) with
  | Some at_ => stale_after <? kp_now s - at_
  | None => true
  end.

Definition goto (i : nat) (pc : Pc) (d : Disk) (s : Keeper) : Keeper :=
  {| kp_disk := d; kp_now := kp_now s; kp_pc := <[i := pc]> (kp_pc s) |}.

Definition act (i : nat) (cut : option nat) (s : Keeper) : option Keeper :=
  let d := kp_disk s in
  match kp_pc s i with
  | Starting => Some (goto i Trying (ensure_parent bare d) s)
  | Trying =>
      Some match d_lock d with
           | None => goto i Inside (set_lock (Some (kp_now s)) d) s
           | Some _ => goto i Looking d s
           end
  | Looking => Some (goto i (if stale s then Breaking else Trying) d s)
  | Breaking => Some (goto i Trying (set_lock None d) s)
  | Inside =>
      Some match body_load (updates i) d with
           | Err e => goto i (Leaving (Err e)) d s
           | Ok (None, reply) => goto i (Leaving (Ok reply)) d s
           | Ok (Some map, reply) => goto i (Loaded map reply) d s
           end
  | Loaded map reply =>
      let '(r, d) := save_cut cut map d in Some (goto i (Leaving (_ ← r; Ok reply)) d s)
  | Leaving outcome => Some (goto i (Done outcome) (set_lock None d) s)
  | Done _ | Gone => None
  end.

Definition step (s : Keeper) (e : Event) : option Keeper :=
  match e with
  | Act i cut => act i cut s
  | Die i cut =>
      match kp_pc s i with
      | Done _ | Gone => None
      | Loaded map _ => Some (goto i Gone (snd (save_cut cut map (kp_disk s))) s)
      | _ => Some (goto i Gone (kp_disk s) s)
      end
  | Tick d => if 0 <? d then Some {| kp_disk := kp_disk s; kp_now := kp_now s + d; kp_pc := kp_pc s |} else None
  end.

Fixpoint steps (s : Keeper) (events : list Event) : option Keeper :=
  match events with
  | [] => Some s
  | e :: events => s ← step s e; steps s events
  end.
End writing.
End store.

(** * Nothing is lost

    What a crash leaves of a save, and what the updates of several contenders
    come to. *)
From S2P Require Import Concrete.

(** The fields a derived serializer would write twice. *)
Definition plain_auth (a : PluginAuth) : Prop :=
  match a with
  | OAuth _ _ _ extra => Forall (fun k => extra !! k = None) ["type"; "refresh"; "access"; "expires"]
  | ApiKey _ extra => Forall (fun k => extra !! k = None) ["type"; "key"]
  end /\
  match a with OAuth _ _ _ extra | ApiKey _ extra => map_Forall (fun _ v => wf_value v = true) extra end.
Definition plain : AuthMap -> Prop := map_Forall (fun _ a => plain_auth a).

(** serde_json reads back what it printed. *)
Class AuthJsonLaws `{Serialize AuthMap} `{Deserialize AuthMap} : Prop :=
  auth_json (map : AuthMap) : plain map -> exists text, to_json map = Ok text /\ from_json text = Ok map.

Section safe.
Context `{AuthJsonLaws}.
Variables (bare : bool) (umask : Z).


(** ** Running the operations *)

Lemma run_ops_app ops ops' d :
  run (ops ++ ops') d = match run ops d with (Ok _, d') => run ops' d' | bad => bad end.
Proof.
  revert d. induction ops as [|op ops IH]; intros d; [done|]. cbn. destruct (op d) as [d'|e]; [|done]. apply IH.
Qed.

(** What an operation leaves alone. *)
Definition keeps {A} (f : Disk -> A) (op : Op) : Prop := forall d d', op d = Ok d' -> f d' = f d.

Lemma run_keeps {A} (f : Disk -> A) ops d : Forall (keeps f) ops -> f (run ops d).2 = f d.
Proof.
  intros Hk. revert d. induction Hk as [|op ops Hop _ IH]; intros d; [done|]. cbn.
  destruct (op d) as [d'|e] eqn:E; [|done]. by rewrite IH, (Hop _ _ E).
Qed.

Lemma refuse_keeps {A} (f : Disk -> A) : keeps f (fun _ => Err AuthIo).
Proof. by intros d d' [=]. Qed.
Lemma open_keeps {A} (f : Disk -> A) : (forall n d, f (set_tmp n d) = f d) -> keeps f (open_tmp umask).
Proof. intros Hf d d'. unfold open_tmp. by destruct (d_tmp d); intros [= <-]. Qed.
Lemma chmod_keeps {A} (f : Disk -> A) : (forall n d, f (set_tmp n d) = f d) -> keeps f chmod_tmp.
Proof. intros Hf d d'. unfold chmod_tmp. by destruct (d_tmp d); intros [= <-]. Qed.
Lemma write_keeps {A} (f : Disk -> A) bytes n : (forall n d, f (set_tmp n d) = f d) -> keeps f (write_tmp bytes n).
Proof. intros Hf d d'. unfold write_tmp. by destruct (d_tmp d); intros [= <-]. Qed.
Lemma copy_keeps {A} (f : Disk -> A) n : (forall n d, f (set_bak n d) = f d) -> keeps f (copy_bak n).
Proof. intros Hf d d'. unfold copy_bak. by destruct (d_path d), (d_bak d); intros [= <-]. Qed.

(** All of a save but the rename. *)
Definition before_rename (bytes : string) (path : Node) : list Op :=
  [open_tmp umask; chmod_tmp] ++ map (write_tmp bytes) (seq 1 (String.length bytes)) ++
  match path with
  | Missing => []
  | Unreadable => [fun _ => Err AuthIo]
  | Text _ text => map copy_bak (seq 0 (S (String.length text)))
  end.

Lemma save_ops_rename bytes path : save_ops umask bytes path = before_rename bytes path ++ [rename].
Proof. unfold save_ops, before_rename. by rewrite <- !(assoc_L (++)). Qed.

Lemma before_rename_keeps {A} (f : Disk -> A) bytes path :
  (forall n d, f (set_tmp n d) = f d) -> (forall n d, f (set_bak n d) = f d) ->
  Forall (keeps f) (before_rename bytes path).
Proof.
  intros Ht Hb. unfold before_rename. repeat (apply list.Forall_app; split).
  - constructor; [by apply open_keeps|]. constructor; [by apply chmod_keeps|done].
  - apply list.Forall_forall. intros op (n & -> & _)%list_elem_of_fmap. by apply write_keeps.
  - destruct path as [| |mode text]; [done|constructor; [apply refuse_keeps|done]|].
    apply list.Forall_forall. intros op (n & -> & _)%list_elem_of_fmap. by apply copy_keeps.
Qed.

Lemma run_writes bytes mode n d :
  d_tmp d = Text mode "" ->
  run (map (write_tmp bytes) (seq 1 n)) d = (Ok tt, set_tmp (Text mode (String.substring 0 n bytes)) d).
Proof.
  intros Ht. induction n as [|n IH].
  - cbn. f_equal. destruct d. cbn in *. subst. f_equal. by destruct bytes.
  - rewrite seq_S, map_app, run_ops_app, IH. cbn. done.
Qed.

Lemma run_copies mode text d :
  d_path d = Text mode text -> d_bak d <> Unreadable -> forall n,
  run (map copy_bak (seq 0 (S n))) d = (Ok tt, set_bak (Text mode (String.substring 0 n text)) d).
Proof.
  intros Hp Hb. induction n as [|n IH].
  - cbn [seq map run]. unfold copy_bak. rewrite Hp. by destruct (d_bak d).
  - rewrite seq_S, map_app, run_ops_app, IH. cbn -[String.substring]. unfold copy_bak. cbn -[String.substring]. by rewrite Hp.
Qed.

Lemma substring_all s : String.substring 0 (String.length s) s = s.
Proof. induction s as [|c s IH]; [done|]. cbn. by rewrite IH. Qed.

(** What a save comes to, when nothing refuses. *)
Definition saved (bytes : string) (d : Disk) : Disk :=
  {| d_path := Text 0x180 bytes; d_bak := match d_path d with Text _ _ => d_path d | _ => d_bak d end;
     d_tmp := Missing; d_lock := d_lock d; d_parent := d_parent d |}.

Lemma run_save bytes d :
  d_path d <> Unreadable -> d_path d = Missing \/ d_bak d <> Unreadable -> d_tmp d <> Unreadable ->
  run (save_ops umask bytes (d_path d)) d = (Ok tt, saved bytes d).
Proof.
  intros Hp Hb Ht. unfold save_ops. rewrite run_ops_app.
  assert (run [open_tmp umask; chmod_tmp] d = (Ok tt, set_tmp (Text 0x180 "") d)) as ->.
  { cbn [run]. unfold open_tmp. by destruct (d_tmp d). }
  rewrite run_ops_app, (run_writes _ 0x180) by done. rewrite substring_all.
  unfold saved. destruct (d_path d) as [| |pm text] eqn:E; [done|done|]. destruct Hb as [Hb|Hb]; [done|].
  rewrite run_ops_app, (run_copies pm text) by done. by rewrite substring_all.
Qed.

(** A save fails before its rename or does all it should. *)
Lemma run_save_cases bytes d :
  (exists e d', run (before_rename bytes (d_path d)) d = (Err e, d')) \/
  run (save_ops umask bytes (d_path d)) d = (Ok tt, saved bytes d).
Proof.
  destruct (decide (d_tmp d = Unreadable)) as [Ht|Ht].
  { left. unfold before_rename. cbn. unfold open_tmp. rewrite Ht. by do 2 eexists. }
  destruct (decide (d_path d = Unreadable \/ (d_path d <> Missing /\ d_bak d = Unreadable))) as [Hb|Hb].
  - left. unfold before_rename. rewrite run_ops_app.
    assert (run [open_tmp umask; chmod_tmp] d = (Ok tt, set_tmp (Text 0x180 "") d)) as ->.
    { cbn [run]. unfold open_tmp. by destruct (d_tmp d). }
    rewrite run_ops_app, (run_writes _ 0x180) by done.
    destruct (d_path d) as [| |pm text] eqn:E; [by destruct Hb as [|[]]|by do 2 eexists|].
    destruct Hb as [|[_ Hb]]; [done|]. cbn. unfold copy_bak. cbn. rewrite E, Hb. by do 2 eexists.
  - right. apply run_save; [tauto| |done]. destruct (d_path d); tauto || (right; intuition congruence).
Qed.

Lemma run_save_refused bytes path d k :
  (k < length (save_ops umask bytes path))%nat ->
  run (firstn k (save_ops umask bytes path)) d = run (firstn k (before_rename bytes path)) d.
Proof.
  rewrite save_ops_rename, length_app. cbn [length]. intros Hk. rewrite firstn_app.
  replace (k - length (before_rename bytes path))%nat with 0%nat by lia. by rewrite firstn_O, app_nil_r.
Qed.

(** The operations a save runs: all of them, or some before the rename and
    then a refusal. *)
Lemma save_cut_ops cut map bytes d :
  to_json map = Ok bytes ->
  let d0 := ensure_parent bare d in
  save_cut bare umask cut map d = run (save_ops umask bytes (d_path d0)) d0 \/
  exists k, save_cut bare umask cut map d = run (firstn k (before_rename bytes (d_path d0)) ++ [fun _ => Err AuthIo]) d0.
Proof.
  intros Hj d0. unfold save_cut. rewrite Hj. fold d0. destruct cut as [k|]; [|by left].
  destruct (k <? length _)%nat eqn:E; [|by left]. apply Nat.ltb_lt in E. right. exists k.
  rewrite !run_ops_app, run_save_refused by done. done.
Qed.

Lemma run_refused ops d : exists e, run (ops ++ [fun _ => Err AuthIo]) d = (Err e, (run ops d).2).
Proof. rewrite run_ops_app. destruct (run ops d) as [[[]|e] d']; by eexists. Qed.

(** A save that fails changes neither the file nor the lock. *)
Lemma save_cut_spec cut map d :
  (exists e d', save_cut bare umask cut map d = (Err e, d') /\ d_path d' = d_path d /\ d_lock d' = d_lock d) \/
  (exists bytes, to_json map = Ok bytes /\ save_cut bare umask cut map d = (Ok tt, saved bytes (ensure_parent bare d))).
Proof.
  destruct (to_json map) as [bytes|e] eqn:Hj; [|left; exists (AuthSerialize e), d; by unfold save_cut; rewrite Hj].
  assert (d_path (ensure_parent bare d) = d_path d /\ d_lock (ensure_parent bare d) = d_lock d) as [Hp Hl]
    by (by destruct bare).
  pose proof (save_cut_ops cut map bytes d Hj) as Hops. cbn zeta in Hops.
  set (d0 := ensure_parent bare d) in *. rewrite <- Hp, <- Hl.
  assert (forall k, d_path (run (firstn k (before_rename bytes (d_path d0))) d0).2 = d_path d0 /\
                    d_lock (run (firstn k (before_rename bytes (d_path d0))) d0).2 = d_lock d0) as Hk.
  { intros k. by rewrite !run_keeps by (apply Forall_take, before_rename_keeps; done). }
  destruct Hops as [->|(k & ->)].
  - destruct (run_save_cases bytes d0) as [(e & d' & E)| ->]; [left|right; by exists bytes].
    exists e, d'. rewrite save_ops_rename, run_ops_app, E. split; [done|].
    specialize (Hk (length (before_rename bytes (d_path d0)))). by rewrite firstn_all, E in Hk.
  - left. destruct (run_refused (firstn k (before_rename bytes (d_path d0))) d0) as (e & ->). by do 2 eexists.
Qed.

(** ** One save *)

(** What the main file says the map is. *)
Definition says (n : Node) (map : AuthMap) : Prop :=
  match n with
  | Missing => map = ∅
  | Unreadable => False
  | Text _ text => from_json text = Ok map
  end.

Lemma load_says d map : says (d_path d) map -> load d = Ok map.
Proof. unfold load. destruct (d_path d); cbn; [by intros ->|done|by intros ->]. Qed.

(** The temporary file, unless it is as it was, is empty or its owner's. *)
Definition private (before after : Node) : Prop :=
  after = before \/ match after with Text mode text => mode = 0x180 \/ text = "" | _ => True end.

Definition mode_ok (d : Disk) : Prop := match d_tmp d with Text mode _ => mode = 0x180 | _ => True end.

Lemma mode_ok_run ops d :
  (forall op d d', op ∈ ops -> op d = Ok d' -> mode_ok d -> mode_ok d') -> mode_ok d -> mode_ok (run ops d).2.
Proof.
  revert d. induction ops as [|op ops IH]; intros d Hk Hd; [done|]. cbn. destruct (op d) as [d'|e] eqn:E; [|done].
  apply IH; [intros; eapply Hk; eauto; by right|]. eapply Hk; [by left|exact E|done].
Qed.

Lemma private_run k bytes path d : private (d_tmp d) (d_tmp (run (firstn k (save_ops umask bytes path)) d).2).
Proof.
  unfold save_ops. destruct k as [|[|k]]; [by left|..].
  - cbn. unfold open_tmp. destruct (d_tmp d) eqn:E; cbn; rewrite ?E; [right; by right|by left|right; by right].
  - cbn [firstn app]. cbn [run].
    assert (open_tmp umask d = Err AuthIo \/ exists d1, open_tmp umask d = Ok d1 /\
      chmod_tmp d1 = Ok (set_tmp (Text 0x180 "") d)) as [->|(d1 & -> & ->)].
    { unfold open_tmp. destruct (d_tmp d); [right|by left|right]; by eexists. }
    { by left. }
    right. match goal with |- match d_tmp (run ?o ?d).2 with _ => _ end => assert (mode_ok (run o d).2) as Hm end;
      [|unfold mode_ok in Hm; destruct (d_tmp _); [done|done|by left]].
    apply mode_ok_run; [|done]. clear. intros op d d' Hop Ho Hd.
    apply elem_of_take in Hop as (? & Hop%list_elem_of_lookup_2 & _).
    apply list.elem_of_app in Hop as [(n & -> & _)%list_elem_of_fmap|[Hop|Hop]%list.elem_of_app].
    + unfold write_tmp in Ho. unfold mode_ok in *. destruct (d_tmp d); by inversion Ho; subst.
    + destruct path as [| |m t]; [by inversion Hop|apply list_elem_of_singleton in Hop; by subst|].
      apply list_elem_of_fmap in Hop as (n & -> & _). unfold copy_bak in Ho. unfold mode_ok in *.
      destruct (d_path d), (d_bak d); by inversion Ho; subst.
    + apply list_elem_of_singleton in Hop. subst op. by inversion Ho; subst.
Qed.

(** The auth file of the plugins survives a save that stops anywhere: while
    the file held a map (or was not there), a save that fails or is cut short
    at any of its operations leaves it, and one that does not fail leaves the
    new map, in a file only its owner reads, with what was there before in the
    backup; and the secrets are never in a temporary file others may read. *)
Theorem save_survives (cut : option nat) (old map : AuthMap) (d d' : Disk) (r : result AuthStoreError unit) :
  plain map -> says (d_path d) old -> save_cut bare umask cut map d = (r, d') ->
  load d' = Ok (match r with Ok _ => map | Err _ => old end) /\
  private (d_tmp d) (d_tmp d') /\ d_lock d' = d_lock d /\
  (r = Ok tt -> exists bytes, to_json map = Ok bytes /\ d_path d' = Text 0x180 bytes /\ d_tmp d' = Missing /\
     (d_path d <> Missing -> d_bak d' = d_path d)).
Proof using All.
  intros Hplain Hsays Hs. destruct (auth_json map Hplain) as (bytes & Hj & Hback).
  assert (private (d_tmp d) (d_tmp d')) as Hpriv.
  { pose proof (save_cut_ops cut map bytes d Hj) as [E|(k & E)]; rewrite E in Hs.
    - pose proof (private_run (length (save_ops umask bytes (d_path (ensure_parent bare d)))) bytes
        (d_path (ensure_parent bare d)) (ensure_parent bare d)) as Hp.
      rewrite firstn_all, Hs in Hp. by destruct bare.
    - destruct (run_refused (firstn k (before_rename bytes (d_path (ensure_parent bare d)))) (ensure_parent bare d)) as (e & Er).
      rewrite Er in Hs. injection Hs as <- <-.
      pose proof (private_run (k `min` length (before_rename bytes (d_path (ensure_parent bare d)))) bytes
        (d_path (ensure_parent bare d)) (ensure_parent bare d)) as Hp.
      rewrite save_ops_rename, firstn_app in Hp.
      replace (k `min` _ - _)%nat with 0%nat in Hp by lia. rewrite firstn_O, app_nil_r in Hp.
      rewrite <- firstn_firstn, firstn_all in Hp. by destruct bare. }
  destruct (save_cut_spec cut map d) as [(e & d1 & E & Hp & Hl)|(b & Hb & E)]; rewrite E in Hs; injection Hs as <- <-.
  - split_and!; [apply load_says; by rewrite Hp|done|done|done].
  - rewrite Hj in Hb. injection Hb as <-. split_and!; [|done|by destruct bare|].
    + by apply load_says.
    + intros _. exists bytes. split_and!; [done..|]. cbn. destruct bare, d as [[]]; done.
Qed.

(** ** Several contenders *)

Variables (stale_after : Z) (updates : nat -> Update).

Definition plain_update (u : Update) : Prop := match u with USet _ a => plain_auth a | URemove _ => True end.
Definition applied (map : AuthMap) (i : nat) : AuthMap := default map (fst (apply (updates i) map)).
Definition value (m0 : AuthMap) (order : list nat) : AuthMap := fold_left applied order m0.
Definition inside (pc : Pc) : bool := match pc with Inside | Loaded _ _ | Leaving _ => true | _ => false end.

(** A lock is taken over when it is gone again or its holder is. *)
Definition careful (s : Keeper) (e : Event) : Prop :=
  match e with
  | Act i _ => kp_pc s i = Breaking -> d_lock (kp_disk s) = None \/ forall j, inside (kp_pc s j) = false
  | _ => True
  end.

Inductive reach (s0 : Keeper) : Keeper -> Prop :=
  | reach_refl : reach s0 s0
  | reach_step s e s' : reach s0 s -> careful s e -> step bare umask stale_after updates s e = Some s' -> reach s0 s'.

Definition contending (d : Disk) (now : Z) : Keeper := {| kp_disk := d; kp_now := now; kp_pc := fun _ => Starting |}.

Definition replied (m0 : AuthMap) (order : list nat) (i : nat) (reply : bool) : Prop :=
  exists a b, order = a ++ (i :: b) /\ reply = snd (apply (updates i) (value m0 a)).

Definition pc_ok (m0 : AuthMap) (order : list nat) (i : nat) (pc : Pc) : Prop :=
  match pc with
  | Loaded map reply => (i ∉ order) /\ apply (updates i) (value m0 order) = (Some map, reply)
  | Leaving (Ok reply) | Done (Ok reply) => replied m0 order i reply
  | Gone => True
  | _ => i ∉ order
  end.

Record inv (m0 : AuthMap) (order : list nat) (s : Keeper) : Prop := {
  v_one i j : inside (kp_pc s i) = true -> inside (kp_pc s j) = true -> i = j;
  v_lock i : inside (kp_pc s i) = true -> d_lock (kp_disk s) <> None;
  v_nodup : NoDup order;
  v_says : says (d_path (kp_disk s)) (value m0 order);
  v_plain : plain (value m0 order);
  v_pc i : pc_ok m0 order i (kp_pc s i)
}.

Lemma value_app m0 order i : value m0 (order ++ [i]) = applied (value m0 order) i.
Proof. unfold value. by rewrite fold_left_app. Qed.

Lemma applied_plain map i : plain_update (updates i) -> plain map -> plain (applied map i).
Proof.
  unfold applied, plain. destruct (updates i) as [k a|k]; cbn; intros Hu Hm; [by apply map_Forall_insert_2|].
  destruct (map !! k); [by apply map_Forall_delete|done].
Qed.

#[local] Arguments goto : simpl never.
Lemma goto_disk i pc d s : kp_disk (goto i pc d s) = d.
Proof. done. Qed.
Lemma goto_pc i pc d s j : kp_pc (goto i pc d s) j = if decide (i = j) then pc else kp_pc s j.
Proof. unfold goto. cbn. destruct (decide (i = j)) as [->|]; [apply fn_lookup_insert|by apply fn_lookup_insert_ne]. Qed.

(** A step that leaves the file as it is, of a contender that does not come
    in. *)
Lemma inv_goto m0 order s i pc d :
  inv m0 order s -> d_path d = d_path (kp_disk s) ->
  (inside pc = true -> inside (kp_pc s i) = true) ->
  (d_lock d = d_lock (kp_disk s) \/ forall j, j <> i -> inside (kp_pc s j) = false) ->
  (inside pc = true -> d_lock d <> None) -> pc_ok m0 order i pc -> inv m0 order (goto i pc d s).
Proof.
  intros [Ho Hk Hn Hs Hpl Hc] Hp Hin Hl Hnew Hpc. split; rewrite ?goto_disk; [| |done|by rewrite Hp|done|].
  - intros a b. rewrite !goto_pc. repeat case_decide; subst; auto.
  - intros a. rewrite goto_pc. case_decide; subst; [done|]. intros Ha.
    destruct Hl as [->|Hl]; [by eapply Hk|]. by rewrite Hl in Ha.
  - intros a. rewrite goto_pc. case_decide; by subst.
Qed.

(** A contender comes in where nobody is. *)
Lemma inv_in m0 order s i now :
  inv m0 order s -> (forall j, inside (kp_pc s j) = false) -> i ∉ order ->
  inv m0 order (goto i Inside (set_lock (Some now) (kp_disk s)) s).
Proof.
  intros [Ho Hk Hn Hs Hpl Hc] Hno Hi. split; rewrite ?goto_disk; try done.
  - intros a b. rewrite !goto_pc. repeat case_decide; subst; [done| | |]; by rewrite ?Hno.
  - intros a. rewrite goto_pc. case_decide; by subst.
Qed.

(** The step that writes an update. *)
Lemma inv_commit m0 order s i pc d :
  inv m0 order s -> inside (kp_pc s i) = true -> i ∉ order ->
  plain_update (updates i) -> says (d_path d) (applied (value m0 order) i) -> d_lock d = d_lock (kp_disk s) ->
  pc_ok m0 (order ++ [i]) i pc -> inv m0 (order ++ [i]) (goto i pc d s).
Proof.
  intros [Ho Hk Hn Hs Hpl Hc] Hi Hni Hpu Hsays Hl Hpc. split; rewrite ?goto_disk.
  - intros a b. rewrite !goto_pc. repeat case_decide; subst; auto.
  - intros a. rewrite goto_pc, Hl. case_decide; subst; [intros _; by eapply Hk|apply Hk].
  - apply list.NoDup_app. split_and!; [done| |apply NoDup_singleton]. by intros a Ha ->%list_elem_of_singleton.
  - by rewrite value_app.
  - rewrite value_app. by apply applied_plain.
  - intros a. rewrite goto_pc. case_decide as E; subst; [done|]. specialize (Hc a).
    assert (forall reply, replied m0 order a reply -> replied m0 (order ++ [i]) a reply) as Hmono.
    { intros reply (x & y & -> & ->). exists x, (y ++ [i]). by rewrite <- (assoc_L (++)). }
    assert ((a ∉ order) -> a ∉ order ++ [i]) as Hnot.
    { intros Ha [?|Hai%list_elem_of_singleton]%list.elem_of_app; by subst. }
    destruct (kp_pc s a) as [| | | | |map reply|[reply|e]|[reply|e]|] eqn:Ea; cbn in Hc |- *; auto.
    destruct E. apply Ho; [done|by rewrite Ea].
Qed.

Lemma inv_act m0 order s i cut s' :
  inv m0 order s -> (forall i, plain_update (updates i)) -> careful s (Act i cut) ->
  act bare umask stale_after updates i cut s = Some s' -> exists order', inv m0 order' s'.
Proof using Type*.
  intros Hinv Hpu Hcare. pose proof (v_pc _ _ _ Hinv i) as Hi. unfold act.
  destruct (kp_pc s i) as [| | | | |map reply|outcome|outcome|] eqn:Ei; try done; cbn in Hi.
  - intros [= <-]. exists order. apply inv_goto; try done; [by destruct bare|by left; destruct bare].
  - intros [= <-]. exists order. destruct (d_lock (kp_disk s)) as [at_|] eqn:El.
    + apply inv_goto; try done. by left.
    + assert (forall j, inside (kp_pc s j) = false) as Hno.
      { intros j. destruct (inside (kp_pc s j)) eqn:Ej; [|done]. by destruct (v_lock _ _ _ Hinv j Ej). }
      apply inv_in; try done.
  - intros [= <-]. exists order. case (stale stale_after s); apply inv_goto; try done; by left.
  - intros [= <-]. exists order. apply inv_goto; try done.
    destruct (Hcare Ei) as [Hn|Hn]; [left; by rewrite Hn|by right].
  - assert (d_lock (kp_disk s) <> None) as Hlk by (eapply (v_lock _ _ _ Hinv i); by rewrite Ei).
    unfold body_load. rewrite (load_says _ _ (v_says _ _ _ Hinv)). cbn.
    destruct (apply (updates i) (value m0 order)) as [[map|] reply] eqn:Ea; intros [= <-].
    + exists order. apply inv_goto; try done; [by rewrite Ei|by left].
    + exists (order ++ [i]). apply inv_commit; try done; [by rewrite Ei| |].
      * unfold applied. rewrite Ea. apply (v_says _ _ _ Hinv).
      * cbn. exists order, []. by rewrite Ea.
  - assert (d_lock (kp_disk s) <> None) as Hlk by (eapply (v_lock _ _ _ Hinv i); by rewrite Ei).
    destruct Hi as [Hni Ha]. assert (applied (value m0 order) i = map) as Hv by (unfold applied; by rewrite Ha).
    assert (plain map) as Hpm by (rewrite <- Hv; apply applied_plain; [done|apply (v_plain _ _ _ Hinv)]).
    destruct (auth_json map Hpm) as (bytes & Hj & Hback).
    destruct (save_cut_spec cut map (kp_disk s)) as [(e & d1 & E & Hp & Hl)|(b & Hb & E)]; rewrite E; intros [= <-].
    + exists order. apply inv_goto; try done; [by rewrite Ei|by left|by rewrite Hl].
    + rewrite Hj in Hb. injection Hb as <-. exists (order ++ [i]). apply inv_commit; try done.
      * by rewrite Ei.
      * by rewrite Hv.
      * by destruct bare.
      * cbn. exists order, []. by rewrite Ha.
  - intros [= <-]. exists order. apply inv_goto; try done.
    right. intros j Hj. destruct (inside (kp_pc s j)) eqn:Ej; [|done]. destruct Hj.
    apply (v_one _ _ _ Hinv); [done|by rewrite Ei].
Qed.

Lemma inv_die m0 order s i cut s' :
  inv m0 order s -> (forall i, plain_update (updates i)) ->
  step bare umask stale_after updates s (Die i cut) = Some s' -> exists order', inv m0 order' s'.
Proof using Type*.
  intros Hinv Hpu. pose proof (v_pc _ _ _ Hinv i) as Hi. cbn.
  assert (forall d, d_path d = d_path (kp_disk s) -> d_lock d = d_lock (kp_disk s) -> inv m0 order (goto i Gone d s)) as Hdie
    by (intros d Hp Hl; apply inv_goto; try done; by left).
  destruct (kp_pc s i) as [| | | | |map reply|outcome|outcome|] eqn:Ei; try done; cbn in Hi;
    try (intros [= <-]; exists order; by apply Hdie).
  destruct Hi as [Hni Ha]. assert (applied (value m0 order) i = map) as Hv by (unfold applied; by rewrite Ha).
  assert (plain map) as Hpm by (rewrite <- Hv; apply applied_plain; [done|apply (v_plain _ _ _ Hinv)]).
  destruct (auth_json map Hpm) as (bytes & Hj & Hback).
  destruct (save_cut_spec cut map (kp_disk s)) as [(e & d1 & E & Hp & Hl)|(b & Hb & E)]; rewrite E; intros [= <-].
  - exists order. by apply Hdie.
  - rewrite Hj in Hb. injection Hb as <-. exists (order ++ [i]). apply inv_commit; try done.
    + by rewrite Ei.
    + by rewrite Hv.
    + by destruct bare.
Qed.

Lemma inv_reach m0 d0 now s :
  (forall i, plain_update (updates i)) -> plain m0 -> says (d_path d0) m0 -> reach (contending d0 now) s ->
  exists order, inv m0 order s.
Proof using Type*.
  intros Hpu Hp Hs Hr. induction Hr as [|s e s' _ [order IH] Hc Hstep].
  - exists []. split; cbn; try done; [constructor|set_solver].
  - destruct e as [i cut|i cut|d].
    + by eapply inv_act.
    + by eapply inv_die.
    + cbn in Hstep. exists order. destruct (0 <? d); [|done]. injection Hstep as <-. by destruct IH.
Qed.

(** C19: Whatever the interleaving of the contenders for the plugins' auth file,
    whichever of them die and whichever operation of a save is refused, as long
    as a lock is only taken over when nobody holds it: no two are in the store
    at once, and the file always holds the map that the updates made so far,
    one after the other in some order, turn the first map into; a contender
    that got an answer is in that order, once, with the answer its update has
    there, and one that got an error is not. *)
Theorem updates_serialize (m0 : AuthMap) (d0 : Disk) (now : Z) (s : Keeper) :
  (forall i, plain_update (updates i)) -> plain m0 -> says (d_path d0) m0 -> reach (contending d0 now) s ->
  (forall i j, inside (kp_pc s i) = true -> inside (kp_pc s j) = true -> i = j) /\
  exists order, NoDup order /\ load (kp_disk s) = Ok (value m0 order) /\
    forall i outcome, kp_pc s i = Done outcome ->
      match outcome with Ok reply => replied m0 order i reply | Err _ => i ∉ order end.
Proof using Type*.
  intros Hpu Hp Hs Hr. destruct (inv_reach m0 d0 now s Hpu Hp Hs Hr) as [order Hinv].
  split; [exact (v_one _ _ _ Hinv)|]. exists order. split_and!.
  - apply (v_nodup _ _ _ Hinv).
  - apply load_says, (v_says _ _ _ Hinv).
  - intros i outcome Ei. pose proof (v_pc _ _ _ Hinv i) as Hi. rewrite Ei in Hi. by destruct outcome.
Qed.

(** A lock whose holder is gone is taken over once it is old enough. *)
Lemma abandoned_lock s i at_ :
  kp_pc s i = Trying -> d_lock (kp_disk s) = Some at_ -> stale_after < kp_now s - at_ ->
  exists s', steps bare umask stale_after updates s [Act i None; Act i None; Act i None; Act i None] = Some s' /\
    kp_pc s' i = Inside.
Proof.
  intros Hi Hl Hold. assert ((stale_after <? kp_now s - at_) = true) as Hlt by (by apply Z.ltb_lt).
  set (s1 := goto i Looking (kp_disk s) s). set (s2 := goto i Breaking (kp_disk s) s1).
  set (s3 := goto i Trying (set_lock None (kp_disk s)) s2).
  assert (act bare umask stale_after updates i None s = Some s1) as E1 by (unfold act; by rewrite Hi, Hl).
  assert (act bare umask stale_after updates i None s1 = Some s2) as E2.
  { unfold act. subst s1. rewrite goto_pc, decide_True by done. unfold stale. rewrite goto_disk, Hl.
    change (kp_now (goto _ _ _ s)) with (kp_now s). by rewrite Hlt. }
  assert (act bare umask stale_after updates i None s2 = Some s3) as E3
    by (unfold act; subst s2; by rewrite goto_pc, decide_True).
  assert (act bare umask stale_after updates i None s3 =
    Some (goto i Inside (set_lock (Some (kp_now s)) (set_lock None (kp_disk s))) s3)) as E4
    by (unfold act; subst s3; by rewrite goto_pc, decide_True).
  eexists. cbn. rewrite E1. cbn. rewrite E2. cbn. rewrite E3. cbn. rewrite E4. cbn. split; [done|].
  by rewrite goto_pc, decide_True.
Qed.
End safe.

(** ** Instances and concrete runs *)

Definition auth_tuple (a : PluginAuth)
  : (option string * option string * option Z * list (string * Value)) + (string * list (string * Value)) :=
  match a with
  | OAuth refresh access expires extra => inl (refresh, access, expires, map_to_list extra)
  | ApiKey key extra => inr (key, map_to_list extra)
  end.
Definition tuple_auth
  (t : (option string * option string * option Z * list (string * Value)) + (string * list (string * Value))) : PluginAuth :=
  match t with
  | inl (refresh, access, expires, extra) => OAuth refresh access expires (list_to_map extra)
  | inr (key, extra) => ApiKey key (list_to_map extra)
  end.
Lemma tuple_auth_tuple a : tuple_auth (auth_tuple a) = a.
Proof. destruct a; cbn; by rewrite list_to_map_to_list. Qed.
#[export] Instance PluginAuth_eq_dec : EqDecision PluginAuth.
Proof. solve_decision. Defined.
#[export] Instance PluginAuth_countable : Countable PluginAuth := inj_countable' auth_tuple tuple_auth tuple_auth_tuple.
#[export] Instance binary_auth : Serialize AuthMap := fun map => Ok (binary_print (map_to_list map)).
#[export] Instance auth_binary : Deserialize AuthMap := fun text => list_to_map <$> binary_parse text.
Lemma binary_auth_reads (map : AuthMap) : from_json (binary_print (map_to_list map)) = Ok map.
Proof. unfold from_json, auth_binary. rewrite binary_roundtrip. cbn. by rewrite list_to_map_to_list. Qed.

#[export] Instance binary_auth_laws : AuthJsonLaws.
Proof.
  intros map _. eexists. split; [done|]. apply binary_auth_reads.
Qed.

Definition key (k : string) : PluginAuth := ApiKey k ∅.
Definition no_disk : Disk := {| d_path := Missing; d_bak := Missing; d_tmp := Missing; d_lock := None; d_parent := None |}.

Lemma save_survives_witness :
  exists r d', save_cut false 0 (Some 1%nat) {["p:a" := key "k"]} no_disk = (r, d') /\ load d' = Ok ∅.
Proof.
  exists (Err AuthIo). eexists. split; [reflexivity|].
  refine (proj1 (save_survives false 0 (Some 1%nat) ∅ {["p:a" := key "k"]} no_disk _ (Err AuthIo) _ _ _)); [|done|reflexivity].
  apply map_Forall_singleton. split; [by repeat constructor|apply map_Forall_empty].
Defined.

(** What the contenders want, from a schedule of their steps, and which of the
    two keys the store has at the end. *)
Definition wants (i : nat) : Update :=
  match i with O => URemove "p:c" | 1%nat => USet "p:a" (key "k") | _ => USet "p:b" (key "k") end.
Definition played (l : list nat) : option Keeper :=
  steps false 0 60 wants (contending no_disk 0) (map (fun i => Act i None) l).
Definition kept (s : Keeper) : list bool :=
  match load (kp_disk s) with
  | Ok map => [is_some (map !! "p:a"); is_some (map !! "p:b")]
  | Err _ => []
  end.
Definition is_ok {E A} (r : result E A) : bool := match r with Ok _ => true | Err _ => false end.
Definition answered (s : Keeper) : list bool :=
  map (fun i => match kp_pc s i with Done r => is_ok r | _ => false end) [0; 1; 2]%nat.

Example in_turn : (fun s => (kept s, answered s)) <$> played [0; 0; 0; 0; 1; 1; 1; 1; 1; 2; 2; 2; 2; 2]%nat =
  Some ([true; true], [true; true; true]).
Proof. vm_compute. reflexivity. Qed.

(** No lock grows old, and yet one is taken over: contender 1 finds the lock
    taken, 0 leaves, and 1, which cannot look at a lock that is gone, takes it
    for stale; before 1 removes it, 2 has made its own. 1 and 2 are both inside,
    both are told that their key is kept, and the key of the first to write is
    lost. *)
Example lock_race_loses : (fun s => (kept s, answered s)) <$>
  played [0; 0; 1; 1; 0; 0; 1; 2; 2; 1; 1; 1; 2; 1; 2; 1; 2]%nat = Some ([false; true], [true; true; true]).
Proof. vm_compute. reflexivity. Qed.

(** A main file that is damaged beside a good backup: the store still reads,
    but a save copies the damage over the backup before the rename, so that a
    crash between the two loses every key. *)
Example backup_overwritten :
  let good := binary_print (map_to_list ({["p:a" := key "k"]} : AuthMap)) in
  let d := {| d_path := Text 0x180 "x"; d_bak := Text 0x180 good; d_tmp := Missing; d_lock := None; d_parent := None |} in
  let bytes := String.length (binary_print (map_to_list ({["p:a" := key "k"; "p:b" := key "k"]} : AuthMap))) in
  is_ok (load d) = true /\ is_ok (load (set false 0 (Some (bytes + 4)%nat) "p:b" (key "k") d).2) = false /\
  is_ok (load (set false 0 None "p:b" (key "k") d).2) = true.
Proof. vm_compute. done. Qed.

(** A schedule in which no lock is taken over. *)
Fixpoint calm (s : Keeper) (l : list nat) : bool :=
  match l with
  | [] => true
  | i :: l =>
      match kp_pc s i with Breaking => false | _ => true end &&
      match step false 0 60 wants s (Act i None) with Some s => calm s l | None => false end
  end.

Lemma calm_reach s0 l : forall s s', reach false 0 60 wants s0 s -> calm s l = true ->
  steps false 0 60 wants s (map (fun i => Act i None) l) = Some s' -> reach false 0 60 wants s0 s'.
Proof.
  induction l as [|i l IH]; intros s s' Hr Hc; [by intros [= <-]|].
  cbn [calm] in Hc. apply andb_true_iff in Hc as [Hb Hc]. cbn [map steps].
  destruct (step false 0 60 wants s (Act i None)) as [s1|] eqn:E; [|done]. cbn. apply IH; [|done].
  apply (reach_step _ _ _ _ _ s (Act i None)); [done| |done]. intros Hi. by rewrite Hi in Hb.
Qed.

Lemma updates_serialize_witness :
  match played [1; 1; 1; 1; 1]%nat with
  | Some s =>
      exists order, NoDup order /\ load (kp_disk s) = Ok (value wants ∅ order) /\
        forall i outcome, kp_pc s i = Done outcome ->
          match outcome with Ok reply => replied wants ∅ order i reply | Err _ => i ∉ order end
  | None => False
  end.
Proof.
  assert (is_some (played [1; 1; 1; 1; 1]%nat) = true) as Hsome by (vm_compute; reflexivity).
  destruct (played _) as [s|] eqn:E; [|discriminate Hsome].
  refine (proj2 (updates_serialize false 0 60 wants ∅ no_disk 0 s _ _ _ _)).
  - intros [|[|i]]; cbn; [done|split; [by repeat constructor|apply map_Forall_empty]..].
  - apply map_Forall_empty.
  - done.
  - apply (calm_reach _ [1; 1; 1; 1; 1]%nat (contending no_disk 0)); [constructor|vm_compute; reflexivity|exact E].
Defined.
