(* ===== verification/PluginHost.v ===== *)
(** * Plugin processes

    plugins/host.rs and plugins/mod.rs: the line-by-line JSON-RPC connection
    to a plugin process as a machine of single steps, the calls of a hosted
    plugin over it, and the registry. The process is the source of the lines
    and the errors below; the children and pipes of the operating system, and
    the copy of plugin-host.js to a temporary file, are not modelled. *)
From Stdlib Require Import ZArith Lia.
From stdpp Require Import gmap pretty sorting.
From S2P Require Import Prelude.
From S2P Require Import RustStd.
From S2P Require Import Json.
From S2P Require Import AuthStore.

Local Open Scope Z_scope.

(** ** The protocol's types *)

Module methods.
Definition AUTHORIZE : string := "authorize".
Definition CALLBACK : string := "callback".
Definition API_KEY : string := "apiKey".
Definition SIGN_OUT : string := "signOut".
Definition USAGE : string := "usage".
Definition LOAD : string := "load".
Definition MODELS : string := "models".
Definition FETCH : string := "fetch".
End methods.

Inductive PluginError : Type :=
  | Rpc (message : string)
  | Protocol (message : string)
  | NoSuchMethod
  | PluginStorage (error : AuthStore.AuthStoreError).
#[export] Instance PluginError_eq_dec : EqDecision PluginError.
Proof. solve_decision. Defined.

Record PluginSpec := { ps_spec : string; ps_target : string }.
Record PluginLaunch := { la_program : string; la_args : list string; la_env : list (string * string) }.

Inductive AuthMethodKind : Type := KindOauth | KindApi.
Inductive PromptKind : Type := PromptText | PromptPassword | PromptSelect (options : list string).
Record PromptDef := { pd_key : string; pd_label : string; pd_kind : PromptKind }.
Record AuthMethod := { am_kind : AuthMethodKind; am_label : string; am_prompts : list PromptDef }.
Record PluginProviderInfo := { pi_id : string; pi_name : string; pi_methods : list AuthMethod }.

Record AuthorizeParams := {
  ap_provider : string; ap_method : Z; ap_inputs : option (gmap string Value); ap_account : string;
  ap_proxy : option string
}.
Record Authorization := {
  az_session : string; az_url : option string; az_instructions : option string; az_method : string; az_opened : bool
}.
Record CallbackParams := { cb_session : string; cb_code : string }.
Record AuthResult := { ar_ok : bool; ar_error : option string; ar_provider : string; ar_account : string }.
Record ApiKeyParams := {
  ak_provider : string; ak_method : Z; ak_inputs : option (gmap string Value); ak_key : string; ak_account : string;
  ak_proxy : option string
}.
Record SignOutParams := { so_provider : string; so_account : string }.
Record UsageParams := { us_provider : string; us_account : string; us_proxy : option string }.
Record LoaderOptions := { lo_base_url : string; lo_api_key : string; lo_headers : gmap string string; lo_fetch : bool }.
Record PluginModel := {
  lm_id : string; lm_name : string; lm_npm : string; lm_url : string; lm_api_id : string; lm_context : Z;
  lm_output : Z; lm_reasoning : bool; lm_image : bool; lm_free : bool
}.
Record LoadParams := { ld_provider : string; ld_account : string; ld_proxy : option string }.
Record ModelsParams := { mp_provider : string; mp_account : string; mp_proxy : option string }.
Record PluginFetchRequest := {
  fr_url : string; fr_method : string; fr_headers : list (string * string); fr_body : string; fr_provider : string;
  fr_account : string; fr_model : string; fr_npm : string
}.
Record PluginFetchResponse := { fp_status : Z; fp_headers : gmap string string; fp_body : string }.

(** ** The connection

    A call is the task that awaits [PluginTransport::call]; its slot is the
    channel its answer comes through. *)
Definition GONE_MSG : string := "plugin process is gone".

Inductive Slot : Type := SlotOpen | SlotSent (reply : result string Value) | SlotLost.

(** Where a call is: before it draws its number, before it is registered,
    before it is written, after a failed write, waiting, at its end, or dropped
    by its caller. *)
Inductive CallPc : Type :=
  | AtNumber (method : string) (params : Value)
  | AtInsert (id : Z) (line : string)
  | AtWrite (id : Z) (line : string)
  | AtWithdraw (id : Z) (error : PluginError)
  | AtAwait (id : Z)
  | Ended (id : option Z) (outcome : result PluginError Value)
  | Abandoned (id : option Z).
Record Call := { cl_pc : CallPc; cl_slot : Slot }.

(** The reader thread: in its loop, out of it, after it has stored [gone],
    and after it has cleared the waiters. *)
Inductive Reader : Type := Reading | Leaving | Marked | Finished.
#[export] Instance Reader_eq_dec : EqDecision Reader.
Proof. solve_decision. Defined.

(** [tp_written] are the lines the process was sent and [tp_read] the JSON
    values it wrote. *)
Record Transport := {
  tp_next_id : Z;
  tp_stdin : bool;
  tp_pending : gmap Z nat;
  tp_gone : bool;
  tp_reader : Reader;
  tp_calls : gmap nat Call;
  tp_written : list string;
  tp_read : list Value
}.
Definition spawned : Transport :=
  {| tp_next_id := 0; tp_stdin := true; tp_pending := ∅; tp_gone := false; tp_reader := Reading; tp_calls := ∅;
     tp_written := []; tp_read := [] |}.

Definition set_calls (calls : gmap nat Call) (t : Transport) : Transport :=
  {| tp_next_id := tp_next_id t; tp_stdin := tp_stdin t; tp_pending := tp_pending t; tp_gone := tp_gone t;
     tp_reader := tp_reader t; tp_calls := calls; tp_written := tp_written t; tp_read := tp_read t |}.
Definition set_pending (pending : gmap Z nat) (t : Transport) : Transport :=
  {| tp_next_id := tp_next_id t; tp_stdin := tp_stdin t; tp_pending := pending; tp_gone := tp_gone t;
     tp_reader := tp_reader t; tp_calls := tp_calls t; tp_written := tp_written t; tp_read := tp_read t |}.
Definition set_reader (gone : bool) (reader : Reader) (t : Transport) : Transport :=
  {| tp_next_id := tp_next_id t; tp_stdin := tp_stdin t; tp_pending := tp_pending t; tp_gone := gone;
     tp_reader := reader; tp_calls := tp_calls t; tp_written := tp_written t; tp_read := tp_read t |}.
Definition put_call (i : nat) (pc : CallPc) (slot : Slot) (t : Transport) : Transport :=
  set_calls (<[i := {| cl_pc := pc; cl_slot := slot |}]> (tp_calls t)) t.

(** A sender that is used or dropped: the call it belongs to sees it. *)
Definition settle (i : nat) (slot : Slot) (calls : gmap nat Call) : gmap nat Call :=
  alter (fun c => {| cl_pc := cl_pc c; cl_slot := slot |}) i calls.

(** [dispatch_response]. *)
Definition reply_id (value : Value) : option Z := get_key "id" value ≫= Json.as_u64.

Section connection.
Context `{SerdeJson}.

Definition reply_of (value : Value) : result string Value :=
  match get_key "error" value with
  | Some error => Err (default (value_to_string error) (value_str "message" error))
  | None => Ok (default VNull (get_key "result" value))
  end.

Definition dispatch_response (value : Value) (t : Transport) : Transport :=
  match reply_id value with
  | None => t
  | Some id =>
      match tp_pending t !! id with
      | None => t
      | Some i => set_calls (settle i (SlotSent (reply_of value)) (tp_calls t)) (set_pending (delete id (tp_pending t)) t)
      end
  end.

(** [pending.clear()]: every registered sender is dropped. *)
Definition lose (pending : gmap Z nat) (calls : gmap nat Call) : gmap nat Call :=
  map_imap (fun i c =>
      Some (if bool_decide (map_Exists (fun _ j => j = i) pending)
            then {| cl_pc := cl_pc c; cl_slot := SlotLost |} else c)) calls.
Definition clear_pending (t : Transport) : Transport :=
  set_pending ∅ (set_calls (lose (tp_pending t) (tp_calls t)) t).

Definition request_line (id : Z) (method : string) (params : Value) : result string string :=
  serde_to_string (obj [("id", num id); ("method", str method); ("params", params)]).

(** The next step of a call; [fault] is the error its write meets. *)
Definition call_step (i : nat) (fault : option string) (c : Call) (t : Transport) : option Transport :=
  match cl_pc c with
  | AtNumber method params =>
      let id := u64_add (tp_next_id t) 1 in
      let t := {| tp_next_id := id; tp_stdin := tp_stdin t; tp_pending := tp_pending t; tp_gone := tp_gone t;
                  tp_reader := tp_reader t; tp_calls := tp_calls t; tp_written := tp_written t; tp_read := tp_read t |} in
      Some match request_line id method params with
           | Err e => put_call i (Ended (Some id) (Err (Rpc ("failed to encode request: " +:+ e)))) SlotOpen t
           | Ok line => put_call i (AtInsert id line) SlotOpen t
           end
  | AtInsert id line =>
      Some (put_call i (AtWrite id line) SlotOpen (set_pending (<[id := i]> (tp_pending t)) t))
  | AtWrite id line =>
      Some (if negb (tp_stdin t) then put_call i (AtWithdraw id (Protocol GONE_MSG)) (cl_slot c) t
            else match fault with
                 | Some e =>
                     put_call i (AtWithdraw id (Protocol (GONE_MSG +:+ " (stdin write failed: " +:+ e +:+ ")"))) (cl_slot c) t
                 | None =>
                     put_call i (AtAwait id) (cl_slot c)
                       {| tp_next_id := tp_next_id t; tp_stdin := tp_stdin t; tp_pending := tp_pending t;
                          tp_gone := tp_gone t; tp_reader := tp_reader t; tp_calls := tp_calls t;
                          tp_written := tp_written t ++ [line]; tp_read := tp_read t |}
                 end)
  | AtWithdraw id e => Some (put_call i (Ended (Some id) (Err e)) (cl_slot c) (set_pending (delete id (tp_pending t)) t))
  | AtAwait id =>
      match cl_slot c with
      | SlotOpen => None
      | SlotSent (Ok value) => Some (put_call i (Ended (Some id) (Ok value)) (cl_slot c) t)
      | SlotSent (Err message) => Some (put_call i (Ended (Some id) (Err (Rpc message))) (cl_slot c) t)
      | SlotLost => Some (put_call i (Ended (Some id) (Err (Protocol GONE_MSG))) (cl_slot c) t)
      end
  | Ended _ _ | Abandoned _ => None
  end.

Definition call_id (pc : CallPc) : option Z :=
  match pc with
  | AtNumber _ _ => None
  | AtInsert id _ | AtWrite id _ | AtWithdraw id _ | AtAwait id => Some id
  | Ended id _ | Abandoned id => id
  end.

(** A call begins, goes on, or is dropped by its caller while it waits; the
    reader gets a line, loses its input, or goes on; and the two effects of
    [try_shutdown] on the connection. *)
Inductive Event : Type :=
  | Begin (i : nat) (method : string) (params : Value)
  | Go (i : nat) (fault : option string)
  | Drop (i : nat)
  | Line (text : string)
  | Eof
  | ReaderGo
  | CloseStdin
  | ShutdownEnd.

(** [None]: the event cannot happen. *)
Definition step (t : Transport) (e : Event) : option Transport :=
  match e with
  | Begin i method params =>
      match tp_calls t !! i with
      | Some _ => None
      | None =>
          Some (if tp_gone t then put_call i (Ended None (Err (Protocol GONE_MSG))) SlotOpen t
                else put_call i (AtNumber method params) SlotOpen t)
      end
  | Go i fault => c ← tp_calls t !! i; call_step i fault c t
  | Drop i =>
      c ← tp_calls t !! i;
      match cl_pc c with
      | AtAwait id => Some (put_call i (Abandoned (Some id)) (cl_slot c) t)
      | _ => None
      end
  | Line text =>
      if decide (tp_reader t = Reading) then
        let trimmed := trim text in
        Some (if is_empty trimmed then t
              else match value_from_str trimmed with
                   | Err _ => t
                   | Ok value =>
                       dispatch_response value
                         {| tp_next_id := tp_next_id t; tp_stdin := tp_stdin t; tp_pending := tp_pending t;
                            tp_gone := tp_gone t; tp_reader := tp_reader t; tp_calls := tp_calls t;
                            tp_written := tp_written t; tp_read := tp_read t ++ [value] |}
                   end)
      else None
  | Eof => if decide (tp_reader t = Reading) then Some (set_reader (tp_gone t) Leaving t) else None
  | ReaderGo =>
      match tp_reader t with
      | Leaving => Some (set_reader true Marked t)
      | Marked => Some (set_reader (tp_gone t) Finished (clear_pending t))
      | _ => None
      end
  | CloseStdin =>
      Some {| tp_next_id := tp_next_id t; tp_stdin := false; tp_pending := tp_pending t; tp_gone := tp_gone t;
              tp_reader := tp_reader t; tp_calls := tp_calls t; tp_written := tp_written t; tp_read := tp_read t |}
  | ShutdownEnd => Some (set_reader true (tp_reader t) (clear_pending t))
  end.

Fixpoint steps (t : Transport) (events : list Event) : option Transport :=
  match events with
  | [] => Some t
  | e :: events => t ← step t e; steps t events
  end.
End connection.

(** ** Launching *)

Definition PLUGIN_ARG : string := "--plugins".

Section launching.
Context `{Serialize (list PluginSpec)} `{Deserialize (list PluginSpec)}.

(** [host_path] is the script on disk, [node] the override of its program. *)
Definition default_launch (host_path : string) (node : option string) (plugins : list PluginSpec) : PluginLaunch :=
  {| la_program := default "node" node;
     la_args := host_path ::
       match plugins with
       | [] => []
       | _ :: _ => match to_json plugins with Ok json => [PLUGIN_ARG; json] | Err _ => [] end
       end;
     la_env := [] |}.

Fixpoint after_flag (args : list string) : option string :=
  match args with
  | [] => None
  | arg :: args => if decide (arg = PLUGIN_ARG) then head args else after_flag args
  end.
Definition plugins_from_args (args : list string) : list PluginSpec :=
  match after_flag args with
  | Some json => unwrap_or_r [] (from_json json)
  | None => []
  end.
End launching.

(** ** A hosted plugin

    Each call of the connection is its outcome, an argument here. *)
Record SessionCtx := { sx_plugin_session : string; sx_provider : string; sx_account : string }.
Abbreviation Sessions := (gmap string SessionCtx).

Section hosted.
Context `{SerdeJson}.
Context `{FromValue PluginProviderInfo} `{FromValue Authorization} `{FromValue AuthResult}
  `{FromValue LoaderOptions} `{FromValue (list PluginModel)} `{FromValue PluginFetchResponse}.
Context `{ToValue AuthorizeParams} `{ToValue ApiKeyParams} `{ToValue SignOutParams} `{ToValue UsageParams}
  `{ToValue LoadParams} `{ToValue ModelsParams}.

(** [PluginTransport::call]: its outcome for a method and parameters. *)
Variable call : string -> Value -> result PluginError Value.

Definition rpc (T : Type) `{FromValue T} (method : string) (params : Value) : result PluginError T :=
  value ← call method params;
  map_err (fun e => Protocol ("invalid `" +:+ method +:+ "` response: " +:+ e)) (from_value value).

Definition encoded {T} `{ToValue T} (what : string) (params : T) : result PluginError Value :=
  map_err (fun e => Rpc ("failed to encode " +:+ what +:+ " params: " +:+ e)) (to_value params).

Definition is_object (v : Value) : bool := is_some (as_object v).

Definition init_provider_info (value : Value) (fallback : PluginProviderInfo) : PluginProviderInfo :=
  match get_key "providers" value ≫= as_array with
  | None => fallback
  | Some entries =>
      match opt_or (List.find (fun entry => bool_decide (value_str "id" entry = Some (pi_id fallback))) entries)
              (List.find is_object entries) with
      | None => fallback
      | Some entry => unwrap_or_r fallback (from_value entry)
      end
  end.

(** The end of the handshake: [None] is its timeout. On an error the process
    is shut down. *)
Definition handshake (info : PluginProviderInfo) (reply : option (result PluginError Value))
  : result PluginError PluginProviderInfo :=
  match reply with
  | None => Err (Protocol "init handshake timed out after 60s")
  | Some (Err e) => Err e
  | Some (Ok value) =>
      match get_key "plugins" value ≫= as_array with
      | Some (_ :: _) => Ok (init_provider_info value info)
      | _ => Err (Protocol "init response must include a non-empty `plugins` array")
      end
  end.

(** The session's number is drawn when the call is made. *)
Definition host_session (next_session : Z) : string := "s-" +:+ pretty next_session.

Definition authorize (params : AuthorizeParams) (next_session : Z) (sessions : Sessions)
  : result PluginError Authorization * Z * Sessions :=
  let next_session := u64_add next_session 1 in
  match (request ← encoded "authorize" params; rpc Authorization methods.AUTHORIZE request) with
  | Err e => (Err e, next_session, sessions)
  | Ok authorization =>
      let session := host_session next_session in
      (Ok {| az_session := session; az_url := az_url authorization;
             az_instructions := az_instructions authorization; az_method := az_method authorization;
             az_opened := az_opened authorization |},
       next_session,
       <[session := {| sx_plugin_session := az_session authorization; sx_provider := ap_provider params;
                       sx_account := ap_account params |}]> sessions)
  end.

Definition or_text (s d : string) : string := if is_empty s then d else s.

(** What is sent to the plugin, if anything is, stands beside the outcome. *)
Definition callback (params : CallbackParams) (sessions : Sessions)
  : result PluginError AuthResult * option Value * Sessions :=
  match sessions !! cb_session params with
  | None => (Err (Protocol ("unknown session `" +:+ cb_session params +:+ "`")), None, sessions)
  | Some ctx =>
      let request := obj [("session", str (sx_plugin_session ctx)); ("code", str (cb_code params))] in
      (result ← rpc AuthResult methods.CALLBACK request;
       if negb (ar_ok result) then Err (Rpc (default "callback failed" (ar_error result)))
       else Ok {| ar_ok := ar_ok result; ar_error := ar_error result;
                  ar_provider := or_text (ar_provider result) (sx_provider ctx);
                  ar_account := or_text (ar_account result) (sx_account ctx) |},
       Some request, delete (cb_session params) sessions)
  end.

Definition api_key (params : ApiKeyParams) : result PluginError AuthResult :=
  request ← encoded "apiKey" params;
  result ← rpc AuthResult methods.API_KEY request;
  if negb (ar_ok result) then Err (Rpc (default "apiKey failed" (ar_error result))) else Ok result.

(** The keys an empty account stands for go one by one; the removals before
    one that fails stay. *)
Section signing_out.
Context `{Serialize (gmap string AuthStore.PluginAuth)} `{Deserialize (gmap string AuthStore.PluginAuth)}.
Variables (bare : bool) (umask : Z).

Fixpoint remove_all (keys : list string) (d : AuthStore.Disk) : result PluginError unit * AuthStore.Disk :=
  match keys with
  | [] => (Ok tt, d)
  | key :: keys =>
      match AuthStore.remove bare umask None key d with
      | (Ok _, d) => remove_all keys d
      | (Err e, d) => (Err (PluginStorage e), d)
      end
  end.

Definition sign_out (params : SignOutParams) (d : AuthStore.Disk) : result PluginError unit * AuthStore.Disk :=
  match (request ← encoded "signOut" params; call methods.SIGN_OUT request) with
  | Err e => (Err e, d)
  | Ok _ =>
      if is_empty (so_account params) then
        match AuthStore.accounts_of (so_provider params) d with
        | Err e => (Err (PluginStorage e), d)
        | Ok keys => remove_all keys d
        end
      else remove_all [so_provider params +:+ ":" +:+ so_account params] d
  end.
End signing_out.

Definition usage (params : UsageParams) : result PluginError (option Value) :=
  request ← encoded "usage" params;
  value ← call methods.USAGE request;
  Ok (if is_null value then None else Some value).

Definition load (params : LoadParams) : result PluginError LoaderOptions :=
  request ← encoded "load" params; rpc LoaderOptions methods.LOAD request.

Definition models (params : ModelsParams) : result PluginError (list PluginModel) :=
  request ← encoded "models" params; rpc (list PluginModel) methods.MODELS request.

(** Of two headers of one name the last stays. *)
Definition fetch_request (plugin_id : string) (params : PluginFetchRequest) : Value :=
  let headers := VObject (map_of_list (map (fun h => (h.1, str h.2)) (fr_headers params))) in
  obj ([("url", str (fr_url params)); ("method", str (fr_method params)); ("headers", headers);
        ("body", str (fr_body params)); ("provider", str (or_text (fr_provider params) plugin_id));
        ("account", str (fr_account params))] ++
       (if is_empty (fr_model params) then [] else [("model", str (fr_model params))]) ++
       (if is_empty (fr_npm params) then [] else [("npm", str (fr_npm params))])).
Definition fetch (plugin_id : string) (params : PluginFetchRequest) : result PluginError PluginFetchResponse :=
  rpc PluginFetchResponse methods.FETCH (fetch_request plugin_id params).
End hosted.

(** ** The registry *)

Section registry.
Context {Plugin : Type}.
Definition register (info : Plugin -> PluginProviderInfo) (plugin : Plugin) (plugins : gmap string Plugin)
  : option Plugin * gmap string Plugin :=
  (plugins !! pi_id (info plugin), <[pi_id (info plugin) := plugin]> plugins).
Definition registry_get (provider : string) (plugins : gmap string Plugin) : option Plugin := plugins !! provider.
End registry.

(** * Every answer reaches its call

    The numbers of the calls keep their answers apart; a waiting call is
    registered, so that the next line with its number answers it and the end of
    the process releases it; and the one call that neither reaches. *)
From S2P Require Import Concrete.

Section matching.
Context `{SerdeJson}.

Definition awaiting (pc : CallPc) : option Z :=
  match pc with AtWrite id _ | AtAwait id => Some id | _ => None end.
(** The line of a call's request. *)
Definition request_of (id : Z) (line : string) : Prop :=
  exists method params, request_line id method params = Ok line.
(** A line the process wrote that answers the call numbered [id]. *)
Definition answer_of (t : Transport) (id : Z) (reply : result string Value) : Prop :=
  exists value, value ∈ tp_read t /\ reply_id value = Some id /\ reply_of value = reply.
Definition sent_of (t : Transport) (id : Z) : Prop := exists line, line ∈ tp_written t /\ request_of id line.

Record good (t : Transport) (i : nat) (c : Call) : Prop := {
  g_id id : call_id (cl_pc c) = Some id -> 1 <= id <= tp_next_id t;
  g_open id : awaiting (cl_pc c) = Some id -> cl_slot c = SlotOpen -> tp_pending t !! id = Some i;
  g_sent reply : cl_slot c = SlotSent reply -> exists id, call_id (cl_pc c) = Some id /\ answer_of t id reply;
  g_line id line : cl_pc c = AtInsert id line \/ cl_pc c = AtWrite id line -> request_of id line;
  g_written id : cl_pc c = AtAwait id -> sent_of t id;
  g_done id value : cl_pc c = Ended id (Ok value) ->
    exists n, id = Some n /\ sent_of t n /\ answer_of t n (Ok value)
}.

Record wf (n : Z) (t : Transport) : Prop := {
  wf_next : 0 <= tp_next_id t <= n;
  wf_calls i c : tp_calls t !! i = Some c -> good t i c;
  wf_inj i j ci cj id : tp_calls t !! i = Some ci -> tp_calls t !! j = Some cj ->
    call_id (cl_pc ci) = Some id -> call_id (cl_pc cj) = Some id -> i = j;
  wf_pending id i : tp_pending t !! id = Some i ->
    exists c, tp_calls t !! i = Some c /\ call_id (cl_pc c) = Some id
}.

Lemma good_mono t t' i c :
  good t i c -> tp_next_id t <= tp_next_id t' -> tp_read t ⊆ tp_read t' -> tp_written t ⊆ tp_written t' ->
  (forall id, call_id (cl_pc c) = Some id -> tp_pending t !! id = Some i -> tp_pending t' !! id = Some i) ->
  good t' i c.
Proof.
  intros [Hid Ho Hs Hl Hw Hd] Hn Hr Hwr Hp.
  assert (forall id r, answer_of t id r -> answer_of t' id r) as Ha by (intros id r (v & Hv & ?); exists v; auto).
  assert (forall id, sent_of t id -> sent_of t' id) as Hse by (intros id (l & Hv & ?); exists l; auto).
  split.
  - intros id E. specialize (Hid id E). lia.
  - intros id E So. apply Hp; [|by apply Ho]. by destruct (cl_pc c); simplify_eq/=.
  - intros reply E. destruct (Hs reply E) as (id & Hc & Han). exists id. auto.
  - done.
  - auto.
  - intros id v E. destruct (Hd id v E) as (m & -> & Hse' & Han). exists m. auto.
Qed.

Lemma wf_spawned : wf 0 spawned.
Proof. split; cbn; try done; lia. Qed.

(** One call changes, and at most its own number in [pending]. *)
Lemma wf_put n t t' i c c' :
  wf n t -> tp_calls t !! i = Some c ->
  tp_calls t' = <[i := c']> (tp_calls t) ->
  tp_next_id t <= tp_next_id t' <= n + 1 -> tp_read t ⊆ tp_read t' -> tp_written t ⊆ tp_written t' ->
  call_id (cl_pc c') = call_id (cl_pc c) ->
  (forall id, call_id (cl_pc c) <> Some id -> tp_pending t' !! id = tp_pending t !! id) ->
  (forall id j, call_id (cl_pc c) = Some id -> tp_pending t' !! id = Some j -> j = i) ->
  good t' i c' -> wf (n + 1) t'.
Proof.
  intros [Hn Hg Hi Hp] Hc Hcalls Hnx Hr Hw Hid Hpe Hpi Hgood. split.
  - lia.
  - intros j d. rewrite Hcalls. intros [[<- <-]|[Hj Hd]]%lookup_insert_Some; [done|].
    apply (good_mono t); [by apply Hg|lia|done|done|]. intros id Hdid Hpj. rewrite Hpe; [done|].
    intros Hcid. by destruct Hj; eapply Hi.
  - intros a b ca cb id. rewrite Hcalls, !lookup_insert_Some.
    intros [[<- <-]|[Ha Hca]] [[<- <-]|[Hb Hcb]]; try done; rewrite ?Hid; intros; by eapply Hi.
  - intros id j Hj. rewrite Hcalls. destruct (decide (call_id (cl_pc c) = Some id)) as [E|E].
    + rewrite (Hpi _ _ E Hj), lookup_insert_eq. exists c'. by rewrite Hid.
    + rewrite Hpe in Hj by done. destruct (Hp _ _ Hj) as (d & Hd & Hdid). destruct (decide (j = i)) as [->|].
      { simplify_eq. }
      exists d. by rewrite lookup_insert_ne.
Qed.

Lemma wf_weaken n n' t : wf n t -> n <= n' -> wf n' t.
Proof. intros [? ? ? ?] ?. split; [lia|done..]. Qed.

(** The fields a step leaves alone. *)
Lemma wf_same n t t' :
  wf n t -> tp_calls t' = tp_calls t -> tp_next_id t' = tp_next_id t -> tp_read t ⊆ tp_read t' ->
  tp_written t' = tp_written t -> tp_pending t' = tp_pending t -> wf n t'.
Proof.
  intros [Hn Hg Hi Hp] Hc Hx Hr Hw Hpe. split; rewrite ?Hx, ?Hc, ?Hpe; [done| |done..].
  intros i c E. apply (good_mono t); [by apply Hg|lia|done|by rewrite Hw|]. intros id _. by rewrite Hpe.
Qed.

(** A call that had no number draws a new one. *)
Lemma wf_number n t t' i c' :
  wf n t -> (forall c, tp_calls t !! i = Some c -> call_id (cl_pc c) = None) ->
  tp_calls t' = <[i := c']> (tp_calls t) -> tp_next_id t' = tp_next_id t + 1 ->
  tp_read t' = tp_read t -> tp_written t' = tp_written t -> tp_pending t' = tp_pending t ->
  (call_id (cl_pc c') = None \/ call_id (cl_pc c') = Some (tp_next_id t')) -> good t' i c' -> wf (n + 1) t'.
Proof.
  intros [Hn Hg Hi Hp] Hno Hc Hx Hr Hw Hpe Hid Hgood.
  assert (forall j d id, tp_calls t !! j = Some d -> call_id (cl_pc d) = Some id -> id <= tp_next_id t) as Hold.
  { intros j d id Hd E. by destruct (g_id _ _ _ (Hg j d Hd) id E). }
  split.
  - lia.
  - intros j d. rewrite Hc. intros [[<- <-]|[Hj Hd]]%lookup_insert_Some; [done|].
    apply (good_mono t); [by apply Hg|lia|by rewrite Hr|by rewrite Hw|]. intros id _. by rewrite Hpe.
  - intros a b ca cb id. rewrite Hc, !lookup_insert_Some.
    intros [[<- <-]|[Ha Hca]] [[<- <-]|[Hb Hcb]] E1 E2; [done|..|by eapply Hi].
    + specialize (Hold _ _ _ Hcb E2). destruct Hid as [Hid|Hid]; rewrite Hid in E1; [done|]. injection E1 as <-. lia.
    + specialize (Hold _ _ _ Hca E1). destruct Hid as [Hid|Hid]; rewrite Hid in E2; [done|]. injection E2 as <-. lia.
  - intros id j Hj. rewrite Hpe in Hj. destruct (Hp _ _ Hj) as (d & Hd & E). exists d. split; [|done]. rewrite Hc.
    destruct (decide (j = i)) as [->|]; [by rewrite (Hno d Hd) in E|by rewrite lookup_insert_ne].
Qed.

Lemma wf_call_step n t i fault c t' :
  wf n t -> n + 1 < 2 ^ 64 -> tp_calls t !! i = Some c -> call_step i fault c t = Some t' -> wf (n + 1) t'.
Proof.
  intros Hwf Hlt Hc Hstep. pose proof (wf_calls _ _ Hwf _ _ Hc) as Hg. pose proof (wf_next _ _ Hwf) as Hn.
  assert (u64_add (tp_next_id t) 1 = tp_next_id t + 1) as Hu.
  { unfold u64_add, RustStd.as_u64. apply Z.mod_small. lia. }
  unfold call_step in Hstep. destruct (cl_pc c) as [method params|id line|id line|id e|id|id r|id] eqn:Pc; try done.
  - rewrite Hu in Hstep. destruct (request_line (tp_next_id t + 1) method params) as [line|e] eqn:L; injection Hstep as <-.
    + eapply (wf_number n t _ i); [done| |done..|by right|].
      { intros d Hd. rewrite Hc in Hd. injection Hd as <-. by rewrite Pc. }
      split; cbn; try done; [intros id [= <-]; lia|]. intros id l [[= <- <-]|[=]]. by exists method, params.
    + eapply (wf_number n t _ i); [done| |done..|by right|].
      { intros d Hd. rewrite Hc in Hd. injection Hd as <-. by rewrite Pc. }
      split; cbn; try done; [intros id [= <-]; lia|]. by intros id l [[=]|[=]].
  - injection Hstep as <-. destruct Hg as [Hid _ _ Hl _ _]. rewrite Pc in Hid. specialize (Hid id eq_refl).
    eapply (wf_put n t _ i c); [done|done|done|cbn; lia|done|done|by rewrite Pc|..]; rewrite ?Pc; cbn.
    + intros id' Hne. by rewrite lookup_insert_ne by congruence.
    + intros id' j [= <-]. rewrite lookup_insert_eq. by intros [= <-].
    + split; cbn; try done; [by intros ? [= <-]|intros ? [= <-] _; by rewrite lookup_insert_eq|].
      intros id' l [[=]|[= <- <-]]. apply Hl. by left.
  - assert (forall pc w, awaiting pc = None \/ awaiting pc = Some id -> call_id pc = Some id ->
      tp_written t ⊆ w -> (pc = AtAwait id -> exists line, line ∈ w /\ request_of id line) ->
      (forall i l, pc <> AtInsert i l /\ pc <> AtWrite i l) -> (forall i r, pc <> Ended i r) ->
      wf (n + 1) (put_call i pc (cl_slot c)
        {| tp_next_id := tp_next_id t; tp_stdin := tp_stdin t; tp_pending := tp_pending t; tp_gone := tp_gone t;
           tp_reader := tp_reader t; tp_calls := tp_calls t; tp_written := w; tp_read := tp_read t |})) as Hput.
    { intros pc w Haw Hpid Hsub Hwr Hni Hne.
      eapply (wf_put n t _ i c); [done|done|done|cbn; lia|done|done|by rewrite Pc|..]; cbn; [done|..].
      - intros id' j Hcid Hj. destruct (wf_pending _ _ Hwf _ _ Hj) as (d & Hd & Hdid).
        by eapply (wf_inj _ _ Hwf); [exact Hd|exact Hc|..].
      - destruct Hg as [Hid Ho Hs Hl Hw Hd]. rewrite Pc in *. cbn in *. split; cbn.
        + intros id' E. rewrite Hpid in E. by apply Hid.
        + intros id' E So. destruct Haw as [Haw|Haw]; rewrite Haw in E; [done|]. injection E as <-. by apply Ho.
        + intros reply E. destruct (Hs reply E) as (id' & [= <-] & Han). exists id. done.
        + intros id' l [->| ->]; by destruct (Hni id' l).
        + intros id' ->. cbn in Hpid. injection Hpid as ->. by apply Hwr.
        + intros id' v ->. by destruct (Hne id' (Ok v)). }
    revert Hstep. destruct (negb (tp_stdin t)); [|destruct fault as [e|]]; intros [= <-].
    + eapply wf_same; [apply (Hput (AtWithdraw id (Protocol GONE_MSG)) (tp_written t)); try done; by left|done..].
    + eapply wf_same; [apply (Hput (AtWithdraw id (Protocol (GONE_MSG +:+ " (stdin write failed: " +:+ e +:+ ")"))) (tp_written t)); try done; by left|done..].
    + apply Hput; [by right|done|set_solver|intros _; exists line; split; [set_solver|]|done..].
      apply (g_line _ _ _ Hg). by right.
  - injection Hstep as <-.
    eapply (wf_put n t _ i c); [done|done|done|cbn; lia|done|done|by rewrite Pc|..]; rewrite ?Pc; cbn.
    + intros id' Hne. by rewrite lookup_delete_ne by congruence.
    + intros id' j [= <-]. by rewrite lookup_delete_eq.
    + destruct Hg as [Hid Ho Hs Hl Hw Hd]. rewrite Pc in *. split; cbn; try done; try (by intros ? ? [[=]|[=]]).
  - destruct Hg as [Hid Ho Hs Hl Hw Hd]. rewrite Pc in *. cbn in *.
    destruct (cl_slot c) as [|[value|message]|] eqn:Sl; [done|injection Hstep as <-..].
    all: eapply (wf_put n t _ i c); [done|done|done|cbn; lia|done|done|by rewrite Pc|done|..].
    all: try (intros id' j Hcid Hj; destruct (wf_pending _ _ Hwf _ _ Hj) as (d & Hd' & Hdid);
      by eapply (wf_inj _ _ Hwf); [exact Hd'|exact Hc|..]).
    all: split; cbn; try done; try (by intros ? ? [[=]|[=]]).
    intros id' v [= <- <-]. exists id. destruct (Hs _ eq_refl) as (? & [= <-] & ?). split_and!; [done|by apply Hw|done].
Qed.

(** Only the channels of the calls change: one is used by an answer to its
    call, or dropped. *)
Definition slot_step (t t' : Transport) (i : nat) (c c' : Call) : Prop :=
  cl_pc c' = cl_pc c /\
  ((cl_slot c' = cl_slot c /\
    forall id, call_id (cl_pc c) = Some id -> tp_pending t !! id = Some i -> tp_pending t' !! id = Some i) \/
   cl_slot c' = SlotLost \/
   exists reply id, cl_slot c' = SlotSent reply /\ call_id (cl_pc c) = Some id /\ answer_of t' id reply).

Lemma wf_slots n t t' :
  wf n t -> tp_next_id t' = tp_next_id t -> tp_read t ⊆ tp_read t' -> tp_written t' = tp_written t ->
  tp_pending t' ⊆ tp_pending t ->
  (forall i, is_Some (tp_calls t !! i) -> is_Some (tp_calls t' !! i)) ->
  (forall i c', tp_calls t' !! i = Some c' -> exists c, tp_calls t !! i = Some c /\ slot_step t t' i c c') ->
  wf n t'.
Proof.
  intros [Hn Hg Hi Hp] Hx Hr Hw Hsub Hall Hcall. split; [by rewrite Hx|..].
  - intros i c' Hc'. destruct (Hcall i c' Hc') as (c & Hc & Hpc & Hslot).
    destruct Hslot as [[Hsl Hpe]|[Hsl|(reply & id & Hsl & Hid & Han)]].
    + assert (c' = c) as -> by (destruct c, c'; cbn in *; congruence).
      apply (good_mono t); [by apply Hg|lia|done|by rewrite Hw|done].
    + destruct (Hg i c Hc) as [G1 G2 G3 G4 G5 G6]. split; rewrite ?Hpc, ?Hsl, ?Hx; try done.
      * intros id E. destruct (G5 id E) as (l & ? & ?). exists l. by rewrite Hw.
      * intros id v E. destruct (G6 id v E) as (m & -> & (l & ? & ?) & w & ? & ? & ?).
        exists m. split_and!; [done|by exists l; rewrite Hw|exists w; auto].
    + destruct (Hg i c Hc) as [G1 G2 G3 G4 G5 G6]. split; rewrite ?Hpc, ?Hsl, ?Hx; try done.
      * intros r [= <-]. by exists id.
      * intros id' E. destruct (G5 id' E) as (l & ? & ?). exists l. by rewrite Hw.
      * intros id' v E. destruct (G6 id' v E) as (m & -> & (l & ? & ?) & w & ? & ? & ?).
        exists m. split_and!; [done|by exists l; rewrite Hw|exists w; auto].
  - intros i j ci cj id Ei Ej E1 E2.
    destruct (Hcall i ci Ei) as (c & Hc & Hpc & _), (Hcall j cj Ej) as (d & Hd & Hpd & _).
    eapply Hi; [exact Hc|exact Hd|by rewrite <- Hpc|by rewrite <- Hpd].
  - intros id i Hid. apply (lookup_weaken _ _ _ _ Hid) in Hsub. destruct (Hp id i Hsub) as (c & Hc & Hcid).
    destruct (Hall i) as [c' Hc']; [by exists c|]. exists c'. split; [done|].
    destruct (Hcall i c' Hc') as (d & Hd & Hpd & _). by rewrite Hpd; simplify_eq.
Qed.

Lemma wf_dispatch n value t : wf n t -> value ∈ tp_read t -> wf n (dispatch_response value t).
Proof.
  intros Hwf Hv. unfold dispatch_response. destruct (reply_id value) as [id|] eqn:Eid; [|done].
  destruct (tp_pending t !! id) as [i|] eqn:Ep; [|done].
  destruct (wf_pending _ _ Hwf _ _ Ep) as (c & Hc & Hcid).
  apply (wf_slots n t); try done; cbn.
  - apply delete_subseteq.
  - intros j [d Hd]. unfold settle. rewrite lookup_alter. case_decide; subst; rewrite Hd; eauto.
  - intros j d'. unfold settle. intros Hd'%lookup_alter_Some. destruct Hd' as [(-> & d & Hd & ->)|(Hji & Hd)].
    + exists d. assert (d = c) as -> by congruence. split; [done|]. split; [done|]. right. right. cbn.
      exists (reply_of value), id. split_and!; [done..|by exists value].
    + exists d'. split; [done|]. split; [done|]. left. split; [done|]. cbn. intros id' E Hp.
      rewrite lookup_delete_ne; [done|]. intros ->. congruence.
Qed.

Lemma lookup_lose pending calls (i : nat) :
  lose pending calls !! i =
    (fun c => if bool_decide (map_Exists (fun _ j => j = i) pending)
              then {| cl_pc := cl_pc c; cl_slot := SlotLost |} else c) <$> calls !! i.
Proof. unfold lose. rewrite map_lookup_imap. by destruct (calls !! i). Qed.

Lemma wf_clear n t : wf n t -> wf n (clear_pending t).
Proof.
  intros Hwf. apply (wf_slots n t); try done; cbn.
  - apply map_empty_subseteq.
  - intros i [c Hc]. rewrite lookup_lose, Hc. eauto.
  - intros i c'. rewrite lookup_lose, fmap_Some. intros (c & Hc & ->). exists c. split; [done|].
    unfold slot_step. case_bool_decide as E; (split; [done|]); [by right; left|left]. split; [done|].
    intros id _ Hid. destruct E. by exists id, i.
Qed.

Lemma wf_step n t e t' : wf n t -> n + 1 < 2 ^ 64 -> step t e = Some t' -> wf (n + 1) t'.
Proof.
  intros Hwf Hlt. pose proof (wf_next _ _ Hwf) as Hn.
  assert (wf (n + 1) t) as Hw1 by (apply (wf_weaken n); [done|lia]).
  destruct e as [i method params|i fault|i|text| | | |]; cbn.
  - destruct (tp_calls t !! i) as [c|] eqn:E; [done|].
    assert (forall pc, call_id pc = None -> (forall r, pc = Ended None r -> exists e, r = Err e) ->
      wf (n + 1) (put_call i pc SlotOpen t)) as Hput.
    { intros pc Hpc Hend. split; cbn; [lia|..].
      - intros j c. rewrite lookup_insert_Some. intros [[<- <-]|[? Hc]].
        + split; cbn; try done; [intros id; by rewrite Hpc|..].
          * intros id Haw. by destruct pc; simplify_eq/=.
          * intros id line [-> | ->]; done.
          * by intros id ->.
          * intros id v ->. cbn in Hpc. subst id. by destruct (Hend _ eq_refl).
        + apply (good_mono t); try done. by apply (wf_calls _ _ Hwf).
      - intros a b ca cb id. rewrite !lookup_insert_Some.
        intros [[<- <-]|[_ Ha]] [[<- <-]|[_ Hb]]; cbn; rewrite ?Hpc; try done. by apply (wf_inj _ _ Hwf).
      - intros id j Hj. destruct (wf_pending _ _ Hwf _ _ Hj) as (d & Hd & ?). exists d. split; [|done].
        rewrite lookup_insert_ne by congruence. done. }
    intros [= <-]. case (tp_gone t); apply Hput; try done. intros r [= <-]. eauto.
  - destruct (tp_calls t !! i) as [c|] eqn:E; [|done]. cbn. by apply wf_call_step.
  - destruct (tp_calls t !! i) as [c|] eqn:E; [|done]. cbn. destruct (cl_pc c) as [| | | |id| |] eqn:Pc; try done.
    intros [= <-]. destruct (wf_calls _ _ Hwf _ _ E) as [Hid Ho Hs Hl Hw Hd]. rewrite Pc in *.
    eapply (wf_put n t _ i c); [done|done|done|cbn; lia|done|done|by rewrite Pc|done|..].
    + intros id' j Hcid Hj. destruct (wf_pending _ _ Hwf _ _ Hj) as (d & Hd' & Hdid).
      by eapply (wf_inj _ _ Hwf); [exact Hd'|exact E|..].
    + split; cbn; try done; try (by intros ? ? [[=]|[=]]).
  - case_decide; [|done]. intros [= <-]. case (is_empty (trim text)); [done|].
    destruct (value_from_str (trim text)) as [value|e] eqn:V; [|done].
    apply wf_dispatch; [|cbn; set_solver]. by apply (wf_same _ t); [..|cbn; set_solver|done|done].
  - case_decide; [|done]. intros [= <-]. by apply (wf_same _ t).
  - destruct (tp_reader t); try done; intros [= <-]; [by apply (wf_same _ t)|].
    by apply (wf_same _ (clear_pending t)); [apply wf_clear|..].
  - intros [= <-]. by apply (wf_same _ t).
  - intros [= <-]. by apply (wf_same _ (clear_pending t)); [apply wf_clear|..].
Qed.

Lemma wf_steps events : forall n t t',
  wf n t -> n + Z.of_nat (length events) < 2 ^ 64 -> steps t events = Some t' ->
  wf (n + Z.of_nat (length events)) t'.
Proof.
  induction events as [|e events IH]; intros n t t' Hwf Hlt.
  - intros [= <-]. by rewrite Z.add_0_r.
  - cbn [length] in *. rewrite Nat2Z.inj_succ in *. cbn [steps]. destruct (step t e) as [t1|] eqn:E; [|done]. cbn. intros Hs.
    replace (n + Z.succ _) with ((n + 1) + Z.of_nat (length events)) by lia.
    apply (IH _ t1); [|lia|done]. apply (wf_step n t e); [done|lia|done].
Qed.

(** What the caller of an answered call gets. *)
Definition outcome_of (reply : result string Value) : result PluginError Value := map_err Rpc reply.
Definition ended_as (t : Transport) (i : nat) (id : Z) (outcome : result PluginError Value) : Prop :=
  exists slot, tp_calls t !! i = Some {| cl_pc := Ended (Some id) outcome; cl_slot := slot |}.
Definition waiting (t : Transport) (i : nat) (id : Z) : Prop :=
  tp_calls t !! i = Some {| cl_pc := AtAwait id; cl_slot := SlotOpen |}.

Lemma waiting_answered n t i id text value :
  wf n t -> waiting t i id -> tp_reader t = Reading ->
  is_empty (trim text) = false -> value_from_str (trim text) = Ok value -> reply_id value = Some id ->
  exists t', steps t [Line text; Go i None] = Some t' /\ ended_as t' i id (outcome_of (reply_of value)) /\
    forall j, j <> i -> tp_calls t' !! j = tp_calls t !! j.
Proof.
  intros Hwf Hw Hr He Hv Hid. pose proof (g_open _ _ _ (wf_calls _ _ Hwf _ _ Hw) id eq_refl eq_refl) as Hp.
  cbn -[value_from_str]. rewrite decide_True by done. rewrite He, Hv. cbn. unfold dispatch_response. rewrite Hid. cbn.
  rewrite Hp. cbn. unfold settle. rewrite lookup_alter_eq, Hw. cbn. unfold call_step. cbn.
  destruct (reply_of value) as [v|m]; cbn; (eexists; split; [done|]; split; cbn;
    [eexists; cbn; by rewrite lookup_insert_eq
    |intros j Hj; rewrite lookup_insert_ne by done; by rewrite lookup_alter_ne]).
Qed.

Lemma waiting_released n t i id :
  wf n t -> waiting t i id -> tp_reader t = Reading ->
  exists t', steps t [Eof; ReaderGo; ReaderGo; Go i None] = Some t' /\ ended_as t' i id (Err (Protocol GONE_MSG)).
Proof.
  intros Hwf Hw Hr. pose proof (g_open _ _ _ (wf_calls _ _ Hwf _ _ Hw) id eq_refl eq_refl) as Hp.
  cbn. rewrite decide_True by done. cbn. rewrite lookup_lose, Hw. cbn.
  rewrite bool_decide_eq_true_2 by (by exists id, i). cbn. eexists. split; [done|]. cbn. eexists. cbn.
  by rewrite lookup_insert_eq.
Qed.

(** C20: However the calls of a plugin, their writes and the lines of the
    process interleave, a call that returns a value had written its request
    under its own number, and the process had written a line with that number,
    no error and that value; a call that waits is answered by the next line
    with its number, whose result or error it gets, while every other call
    stays as it was; and if the process ends instead, the call fails with
    "plugin process is gone". *)
Theorem plugin_replies (events : list Event) (t : Transport) :
  Z.of_nat (length events) < 2 ^ 64 -> steps spawned events = Some t ->
  (forall i j ci cj id, tp_calls t !! i = Some ci -> tp_calls t !! j = Some cj ->
     call_id (cl_pc ci) = Some id -> call_id (cl_pc cj) = Some id -> i = j) /\
  (forall i c id v, tp_calls t !! i = Some c -> cl_pc c = Ended id (Ok v) ->
     exists n, id = Some n /\ sent_of t n /\ answer_of t n (Ok v)) /\
  forall i id, waiting t i id -> tp_reader t = Reading ->
    (forall text value,
       is_empty (trim text) = false -> value_from_str (trim text) = Ok value -> reply_id value = Some id ->
       exists t', steps t [Line text; Go i None] = Some t' /\ ended_as t' i id (outcome_of (reply_of value)) /\
         forall j, j <> i -> tp_calls t' !! j = tp_calls t !! j) /\
    exists t', steps t [Eof; ReaderGo; ReaderGo; Go i None] = Some t' /\ ended_as t' i id (Err (Protocol GONE_MSG)).
Proof.
  intros Hlen Hs. pose proof (wf_steps events 0 spawned t wf_spawned ltac:(lia) Hs) as Hwf.
  split; [exact (wf_inj _ _ Hwf)|]. split.
  - intros i c id v Hc. exact (g_done _ _ _ (wf_calls _ _ Hwf i c Hc) id v).
  - intros i id Hw Hr. split; [|by eapply waiting_released].
    intros text value. by eapply waiting_answered.
Qed.

(** A call that waits without a sender, once the reader is through. *)
Definition releases (i : nat) (e : Event) : bool :=
  match e with Drop j => Nat.eqb i j | ShutdownEnd => true | _ => false end.

Lemma hung_step t i id e t' :
  waiting t i id -> tp_reader t = Finished -> releases i e = false -> step t e = Some t' ->
  waiting t' i id /\ tp_reader t' = Finished.
Proof.
  intros Hw Hr Hrel. unfold waiting in *. destruct e as [j method params|j fault|j|text| | | |]; cbn in *; try done.
  - destruct (tp_calls t !! j) as [c|] eqn:E; [done|]. intros [= <-].
    assert (i <> j) by congruence. case (tp_gone t); cbn; by rewrite lookup_insert_ne.
  - destruct (tp_calls t !! j) as [c|] eqn:E; [|done]. cbn. destruct (decide (i = j)) as [<-|Hne].
    { rewrite E in Hw. injection Hw as ->. done. }
    unfold call_step. destruct (cl_pc c) as [m p|n l|n l|n err|n|n r|n]; try done.
    + destruct (request_line _ m p); intros [= <-]; cbn; by rewrite lookup_insert_ne.
    + intros [= <-]. cbn. by rewrite lookup_insert_ne.
    + destruct (negb _); [|destruct fault]; intros [= <-]; cbn; by rewrite lookup_insert_ne.
    + intros [= <-]. cbn. by rewrite lookup_insert_ne.
    + destruct (cl_slot c) as [|[v|m]|]; try done; intros [= <-]; cbn; by rewrite lookup_insert_ne.
  - destruct (tp_calls t !! j) as [c|] eqn:E; [|done]. cbn. apply Nat.eqb_neq in Hrel.
    destruct (cl_pc c); try done. intros [= <-]. cbn. by rewrite lookup_insert_ne.
  - by rewrite decide_False by (by rewrite Hr).
  - by rewrite decide_False by (by rewrite Hr).
  - by rewrite Hr.
  - by intros [= <-].
Qed.

(** The reader of a plugin's output marks the connection gone and drops the
    waiters once, when the output ends. A call that had passed the check of the
    mark and registers after that waits for ever, however its write goes and
    whatever else happens, until its own caller drops it or the plugin is shut
    down: no line and no other call reaches it. *)
Theorem late_call_hangs (events : list Event) (t t' : Transport) (i : nat) (id : Z) :
  waiting t i id -> tp_reader t = Finished -> forallb (fun e => negb (releases i e)) events = true ->
  steps t events = Some t' -> waiting t' i id /\ step t' (Go i None) = None.
Proof.
  intros Hw Hr Hall Hs. enough (waiting t' i id) as Hw'.
  { split; [done|]. cbn. unfold waiting in Hw'. by rewrite Hw'. }
  revert t Hw Hr Hs. induction events as [|e events IH]; intros t Hw Hr; cbn; [by intros [= <-]|].
  cbn in Hall. apply andb_true_iff in Hall as [He Hall]. destruct (step t e) as [t1|] eqn:E; [|done]. cbn.
  apply negb_true_iff in He. destruct (hung_step _ _ _ _ _ Hw Hr He E). by apply IH.
Qed.
End matching.

(** ** Sessions, launches and sign-outs *)

Section contract.
Context `{SerdeJson}.
Context `{FromValue Authorization} `{FromValue AuthResult} `{ToValue AuthorizeParams}.

Lemma host_session_inj m n : host_session m = host_session n -> m = n.
Proof. unfold host_session. intros E. apply (inj (String.append "s-")) in E. exact (inj pretty _ _ E). Qed.

(** A sign-in through a plugin keeps the plugin's own session to itself: the
    caller gets one of the host, no two of which are the same; the code the
    caller brings back is sent to the plugin under the plugin's session, and the
    session is gone with that, whatever the plugin answers, so that a second
    code is refused without a call and no other session is touched. *)
Theorem session_once (call call' call'' : string -> Value -> result PluginError Value) (params : AuthorizeParams)
    (code code' : string) (next next' : Z) (sessions sessions' : Sessions) (a : Authorization) :
  authorize call params next sessions = (Ok a, next', sessions') ->
  let back := callback call' {| cb_session := az_session a; cb_code := code |} sessions' in
  (exists own, (request ← encoded "authorize" params; rpc call Authorization methods.AUTHORIZE request) = Ok own /\
    snd (fst back) = Some (obj [("session", str (az_session own)); ("code", str code)])) /\
  callback call'' {| cb_session := az_session a; cb_code := code' |} (snd back) =
    (Err (Protocol ("unknown session `" +:+ az_session a +:+ "`")), None, snd back) /\
  (forall s, s <> az_session a -> snd back !! s = sessions !! s) /\
  (forall n, host_session n = az_session a -> n = next').
Proof.
  unfold authorize. destruct (encoded "authorize" params ≫= _) as [own|e] eqn:E; [|done].
  intros [= <- <- <-]. cbn. unfold callback. cbn. rewrite lookup_insert_eq. cbn. split_and!.
  - by exists own.
  - by rewrite lookup_delete_eq.
  - intros s Hs. by rewrite lookup_delete_ne, lookup_insert_ne by congruence.
  - intros n. apply host_session_inj.
Qed.
End contract.

(** *** The launch and its arguments *)

Lemma after_flag_skips args path :
  path <> PLUGIN_ARG -> after_flag (path :: args) = after_flag args.
Proof. intros Hp. cbn. by rewrite decide_False. Qed.

(** The plugins of a launch are read back from its arguments, unless the script
    itself has the flag's name. *)
Lemma launch_roundtrip `{Serialize (list PluginSpec)} `{Deserialize (list PluginSpec)} path node plugins json :
  path <> PLUGIN_ARG -> to_json plugins = Ok json -> from_json json = Ok plugins ->
  plugins_from_args (la_args (default_launch path node plugins)) = plugins.
Proof.
  intros Hp Hto Hfrom. unfold default_launch, plugins_from_args. cbn [la_args].
  rewrite after_flag_skips by done.
  destruct plugins as [|p plugins]; [done|]. rewrite Hto. cbn [after_flag head].
  rewrite decide_True by done. unfold head. by rewrite Hfrom.
Qed.

(** *** Signing out *)

Section signing_out_spec.
Context `{SerdeJson} `{ToValue SignOutParams}.
Context `{AuthJsonLaws}.
Variables (bare : bool) (umask : Z).

(** One removal from a file that says what the map is. *)
Lemma remove_says key d m reply d' :
  plain m -> says (d_path d) m -> remove bare umask None key d = (Ok reply, d') ->
  says (d_path d') (delete key m) /\ reply = is_some (m !! key).
Proof using Type*.
  intros Hp Hs. unfold remove, body, body_load. rewrite (load_says _ _ Hs). cbn.
  destruct (m !! key) as [a|] eqn:E.
  - destruct (auth_json (delete key m)) as (bytes & Hj & Hb); [by apply map_Forall_delete|].
    destruct (save_cut_spec bare umask None (delete key m) d) as [(e & d1 & -> & _)|(b & Hb' & ->)]; [done|].
    intros [= <- <-]. cbn. split; [|done]. rewrite Hj in Hb'. by injection Hb' as <-.
  - intros [= <- <-]. by rewrite delete_id.
Qed.

Lemma remove_all_says keys : forall d m d',
  plain m -> says (d_path d) m -> remove_all bare umask keys d = (Ok tt, d') ->
  says (d_path d') (filter (fun kv => ~ kv.1 ∈ keys) m).
Proof using Type*.
  induction keys as [|key keys IH]; intros d m d' Hp Hs.
  - intros [= <-]. rewrite map_filter_id; [done|]. intros k a _. apply not_elem_of_nil.
  - cbn. destruct (remove bare umask None key d) as [[reply|e] d1] eqn:E; [|done]. intros Hr.
    destruct (remove_says key d m reply d1 Hp Hs E) as [Hs1 _].
    pose proof (IH d1 (delete key m) d' (map_Forall_delete _ _ _ Hp) Hs1 Hr) as Hd.
    replace (filter _ m) with (filter (fun kv => ~ kv.1 ∈ keys) (delete key m)); [done|].
    apply map_eq. intros k. apply option_eq. intros a. rewrite !map_lookup_filter_Some, lookup_delete_Some. cbn.
    rewrite list.elem_of_cons. intuition congruence.
Qed.

(** Signing out of a plugin provider as a whole leaves, in the auth file, the
    credentials whose key does not start with the provider's name and a colon,
    and no others; signing one account out removes that account's alone; and
    nothing is removed unless the plugin answered. *)
Theorem signed_out (call : string -> Value -> result PluginError Value) (params : SignOutParams)
    (m : AuthMap) (d d' : AuthStore.Disk) (r : result PluginError unit) :
  plain m -> says (d_path d) m -> sign_out call bare umask params d = (r, d') ->
  (forall e, (request ← encoded "signOut" params; call methods.SIGN_OUT request) = Err e -> r = Err e /\ d' = d) /\
  (r = Ok tt -> AuthStore.load d' = Ok
     (if is_empty (so_account params)
      then filter (fun kv => starts_with (so_provider params +:+ ":") kv.1 = false) m
      else delete (so_provider params +:+ ":" +:+ so_account params) m)).
Proof using Type*.
  intros Hp Hs. unfold sign_out. destruct (_ ≫= _) as [v|e]; [|intros [= <- <-]; split; [by intros ? [= <-]|done]].
  intros Hr. split; [done|]. intros ->. apply load_says. destruct (is_empty (so_account params)).
  - unfold accounts_of in Hr. rewrite (load_says _ _ Hs) in Hr. cbn in Hr.
    apply (remove_all_says _ _ m) in Hr; [|done..].
    replace (filter _ m) with (filter (fun kv => ~ kv.1 ∈ filter (fun k => starts_with (so_provider params +:+ ":") k = true)
      (merge_sort str_le (elements (dom m)))) m); [done|].
    apply map_filter_ext. intros k a Hk. cbn. rewrite list_elem_of_filter, merge_sort_Permutation, elem_of_elements.
    destruct (starts_with _ k); [|naive_solver].
    split; [|done]. intros Hn. destruct Hn. split; [done|]. by apply elem_of_dom_2 in Hk.
  - apply (remove_all_says _ _ m) in Hr; [|done..].
    replace (delete _ m) with (filter (fun kv : string * PluginAuth =>
      ~ kv.1 ∈ [so_provider params +:+ ":" +:+ so_account params]) m); [done|].
    apply map_eq. intros k. apply option_eq. intros a. rewrite map_lookup_filter_Some, lookup_delete_Some. cbn.
    rewrite list_elem_of_singleton. intuition congruence.
Qed.
End signing_out_spec.

(** ** Concrete runs *)

(** A call that is answered, and one that registers after the reader has gone. *)
Definition answered_run : list Event :=
  [Begin 0 "load" VNull; Go 0 None; Go 0 None; Go 0 None;
   Line (binary_print (obj [("id", num 1); ("result", str "r")])); Go 0 None].
Definition late_run : list Event :=
  [Begin 0 "load" VNull; Go 0 None; Eof; ReaderGo; ReaderGo; Go 0 None; Go 0 None].
Definition after (events : list Event) : Transport := default spawned (steps spawned events).

Lemma plugin_replies_witness :
  exists t, steps spawned answered_run = Some t /\ (cl_pc <$> tp_calls t !! 0%nat) = Some (Ended (Some 1) (Ok (str "r"))) /\
    exists n, Some 1 = Some n /\ sent_of t n /\ answer_of t n (Ok (str "r")).
Proof.
  assert (steps spawned answered_run = Some (after answered_run)) as E by (vm_compute; reflexivity).
  assert (tp_calls (after answered_run) !! 0%nat =
    Some {| cl_pc := Ended (Some 1) (Ok (str "r")); cl_slot := SlotSent (Ok (str "r")) |}) as Hc by (vm_compute; reflexivity).
  exists (after answered_run). split; [exact E|]. split; [by rewrite Hc|].
  exact (proj1 (proj2 (plugin_replies answered_run (after answered_run) ltac:(vm_compute; reflexivity) E))
    0%nat _ (Some 1) (str "r") Hc eq_refl).
Defined.

Lemma late_call_hangs_witness :
  exists t, steps (after late_run) [Begin 1 "load" VNull; CloseStdin] = Some t /\ waiting t 0 1 /\ step t (Go 0 None) = None.
Proof.
  assert (steps (after late_run) [Begin 1 "load" VNull; CloseStdin] =
    Some (after (late_run ++ [Begin 1 "load" VNull; CloseStdin]))) as E by (vm_compute; reflexivity).
  exists (after (late_run ++ [Begin 1 "load" VNull; CloseStdin])). split; [exact E|].
  apply (late_call_hangs [Begin 1 "load" VNull; CloseStdin] (after late_run) _ 0 1);
    [vm_compute; reflexivity..|exact E].
Defined.

Section samples.
#[local] Instance sample_to_authorize : ToValue AuthorizeParams := fun p => Ok (str (ap_provider p)).
#[local] Instance sample_to_sign_out : ToValue SignOutParams := fun p => Ok (str (so_provider p)).
#[local] Instance sample_authorization : FromValue Authorization := fun v =>
  match as_str v with
  | Some s => Ok {| az_session := s; az_url := None; az_instructions := None; az_method := "code"; az_opened := false |}
  | None => Err "expected a string"
  end.
#[local] Instance sample_auth_result : FromValue AuthResult := fun _ => Err "unused".

Lemma session_once_witness :
  exists a next sessions, authorize (fun _ _ => Ok (str "own"))
      {| ap_provider := "p"; ap_method := 0; ap_inputs := None; ap_account := ""; ap_proxy := None |} 0 ∅ =
      (Ok a, next, sessions) /\ az_session a = "s-1" /\
    forall n, host_session n = az_session a -> n = next.
Proof.
  do 3 eexists. split; [reflexivity|]. split; [reflexivity|].
  refine (proj2 (proj2 (proj2 (session_once (fun _ _ => Ok (str "own")) (fun _ _ => Err NoSuchMethod)
    (fun _ _ => Err NoSuchMethod)
    {| ap_provider := "p"; ap_method := 0; ap_inputs := None; ap_account := ""; ap_proxy := None |} "c" "c" 0 _ ∅ _ _ _)))).
  reflexivity.
Defined.

Definition two_keys : AuthStore.Disk :=
  {| d_path := Text 0x180 (binary_print (map_to_list ({["p:a" := key "k"; "q:a" := key "k"]} : AuthMap)));
     d_bak := Missing; d_tmp := Missing; d_lock := None; d_parent := None |}.

Lemma signed_out_witness :
  exists d', sign_out (fun _ _ => Ok VNull) false 0 {| so_provider := "p"; so_account := "" |} two_keys = (Ok tt, d') /\
    AuthStore.load d' = Ok (filter (fun kv => starts_with "p:" kv.1 = false) {["p:a" := key "k"; "q:a" := key "k"]}).
Proof.
  eexists. split; [vm_compute; reflexivity|].
  refine (proj2 (signed_out false 0 (fun _ _ => Ok VNull) {| so_provider := "p"; so_account := "" |}
    {["p:a" := key "k"; "q:a" := key "k"]} two_keys _ (Ok tt) _ _ _) eq_refl); [| |vm_compute; reflexivity].
  - apply map_Forall_insert_2; [|apply map_Forall_singleton];
      (split; [by repeat constructor|apply map_Forall_empty]).
  - apply binary_auth_reads.
Defined.
End samples.
