(* ===== verification/ManagedHosts.v ===== *)
(** * The plugin hosts of the server

    plugins/managed.rs: one process per plugin, started when it is first asked
    for, as a machine of the requests that ask; the lists of models that are
    kept for a minute; and the listing of the installed packages. The processes
    are numbers; what they answer is the outside of the machine. *)
From Stdlib Require Import ZArith Lia.
From stdpp Require Import gmap sorting.
From S2P Require Import Prelude.
From S2P Require Import RustStd.
From S2P Require Import Config.
From S2P Require Import AuthStore.
From S2P Require Import PluginHost.

Local Open Scope Z_scope.

(** Times are in nanoseconds. *)
Definition MODELS_TTL : Z := 60 * 1000000000.
Definition host_key (r : PluginRef) : string := pl_spec r +:+ "|" +:+ pl_target r.
Definition placeholder_info (spec : string) : PluginProviderInfo :=
  {| pi_id := spec; pi_name := spec; pi_methods := [] |}.

(** ** Starting hosts

    Where a call of [host_for] is: it looks for a host, asks it whether it is
    alive, takes the start lock of its key, looks and asks again, drops a dead
    host, starts one, keeps it, and returns; or its caller has dropped it. The
    guard of the table of hosts lives as long as the [if let] that looks: a call
    that asks holds it. *)
Inductive TaskPc : Type :=
  | Peek
  | Probe (host : nat)
  | Queue
  | Recheck
  | Reprobe (host : nat)
  | Forget
  | Launch
  | Keep (host : nat)
  | Ret (outcome : result PluginError nat)
  | Dropped.
Record Task := { tk_key : string; tk_pc : TaskPc }.

(** [mg_guard] holds the lock of [mg_hosts], [mg_starts] the start locks that
    are taken; [mg_started] counts the processes. *)
Record Managed := {
  mg_hosts : gmap string nat;
  mg_guard : option nat;
  mg_starts : gmap string nat;
  mg_tasks : gmap nat Task;
  mg_started : nat
}.
Definition with_store : Managed := {| mg_hosts := ∅; mg_guard := None; mg_starts := ∅; mg_tasks := ∅; mg_started := 0 |}.

(** A call starts, goes on, or is dropped; [reply] is what the host or the start
    answers, where one is asked. *)
Inductive Event : Type :=
  | Begin (i : nat) (r : PluginRef)
  | Go (i : nat) (reply : result PluginError unit)
  | Drop (i : nat).

Definition at_pc (i : nat) (key : string) (pc : TaskPc) (m : Managed) : Managed :=
  {| mg_hosts := mg_hosts m; mg_guard := mg_guard m; mg_starts := mg_starts m;
     mg_tasks := <[i := {| tk_key := key; tk_pc := pc |}]> (mg_tasks m); mg_started := mg_started m |}.
Definition set_hosts (hosts : gmap string nat) (m : Managed) : Managed :=
  {| mg_hosts := hosts; mg_guard := mg_guard m; mg_starts := mg_starts m; mg_tasks := mg_tasks m;
     mg_started := mg_started m |}.
Definition set_guard (guard : option nat) (m : Managed) : Managed :=
  {| mg_hosts := mg_hosts m; mg_guard := guard; mg_starts := mg_starts m; mg_tasks := mg_tasks m;
     mg_started := mg_started m |}.
Definition set_starts (starts : gmap string nat) (m : Managed) : Managed :=
  {| mg_hosts := mg_hosts m; mg_guard := mg_guard m; mg_starts := starts; mg_tasks := mg_tasks m;
     mg_started := mg_started m |}.

(** The locks a call holds are released with it. *)
Definition releasing (i : nat) (m : Managed) : Managed :=
  set_starts (filter (fun kj => kj.2 <> i) (mg_starts m))
    (set_guard (g ← mg_guard m; if decide (g = i) then None else Some g) m).

(** The table of hosts, when nobody holds it. *)
Definition look (key : string) (m : Managed) : option (option nat) :=
  match mg_guard m with Some _ => None | None => Some (mg_hosts m !! key) end.

Definition go (i : nat) (reply : result PluginError unit) (t : Task) (m : Managed) : option Managed :=
  let key := tk_key t in
  match tk_pc t with
  | Peek =>
      found ← look key m;
      Some match found with
           | Some host => at_pc i key (Probe host) (set_guard (Some i) m)
           | None => at_pc i key Queue m
           end
  | Probe host =>
      Some match reply with
           | Ok _ => at_pc i key (Ret (Ok host)) (releasing i m)
           | Err _ => at_pc i key Queue (set_guard None m)
           end
  | Queue =>
      match mg_starts m !! key with
      | Some _ => None
      | None => Some (at_pc i key Recheck (set_starts (<[key := i]> (mg_starts m)) m))
      end
  | Recheck =>
      found ← look key m;
      Some match found with
           | Some host => at_pc i key (Reprobe host) (set_guard (Some i) m)
           | None => at_pc i key Launch m
           end
  | Reprobe host =>
      Some match reply with
           | Ok _ => at_pc i key (Ret (Ok host)) (releasing i m)
           | Err _ => at_pc i key Forget m
           end
  | Forget => _ ← look key m; Some (at_pc i key Launch (set_guard None (set_hosts (delete key (mg_hosts m)) m)))
  | Launch =>
      Some match reply with
           | Err e => at_pc i key (Ret (Err e)) (releasing i m)
           | Ok _ =>
               at_pc i key (Keep (mg_started m))
                 {| mg_hosts := mg_hosts m; mg_guard := mg_guard m; mg_starts := mg_starts m; mg_tasks := mg_tasks m;
                    mg_started := S (mg_started m) |}
           end
  | Keep host =>
      _ ← look key m; Some (at_pc i key (Ret (Ok host)) (releasing i (set_hosts (<[key := host]> (mg_hosts m)) m)))
  | Ret _ | Dropped => None
  end.

Definition step (m : Managed) (e : Event) : option Managed :=
  match e with
  | Begin i r => match mg_tasks m !! i with Some _ => None | None => Some (at_pc i (host_key r) Peek m) end
  | Go i reply => t ← mg_tasks m !! i; go i reply t m
  | Drop i =>
      t ← mg_tasks m !! i;
      match tk_pc t with
      | Ret _ | Dropped => None
      | _ => Some (at_pc i (tk_key t) Dropped (releasing i m))
      end
  end.

Fixpoint steps (m : Managed) (events : list Event) : option Managed :=
  match events with
  | [] => Some m
  | e :: events => m ← step m e; steps m events
  end.

(** ** The lists of models *)

Section models.
Context {Model : Type}.
Abbreviation Models := (gmap string (list Model * Z)).

Definition models_key (r : PluginRef) (account : string) : string := host_key r +:+ "|" +:+ account.

(** What is kept and young enough at the time [now]. *)
Definition models_kept (now : Z) (r : PluginRef) (account : string) (models : Models) : option (list Model) :=
  match models !! models_key r account with
  | Some (list, fetched_at) => if now - fetched_at <? MODELS_TTL then Some list else None
  | None => None
  end.
Definition models_store (now : Z) (r : PluginRef) (account : string) (list : list Model) (models : Models) : Models :=
  <[models_key r account := (list, now)]> models.

(** [fetched] is what the plugin answers, if it is asked, by the time [later]. *)
Definition models_for (now later : Z) (fetched : result PluginError (list Model)) (r : PluginRef) (account : string)
    (models : Models) : result PluginError (list Model) * Models :=
  match models_kept now r account models with
  | Some list => (Ok list, models)
  | None =>
      match fetched with
      | Ok list => (Ok list, models_store later r account list models)
      | Err e => (Err e, models)
      end
  end.

(** The entries that go: every account of the plugin, or the one. *)
Definition dropped (r : PluginRef) (account key : string) : bool :=
  match strip_prefix (host_key r +:+ "|") key with
  | Some rest => is_empty account || bool_decide (rest = account)
  | None => false
  end.
Definition invalidate (r : PluginRef) (account : string) (models : Models) : Models :=
  filter (fun kv => dropped r account kv.1 = false) models.
End models.

(** ** The installed packages *)

Record InstalledPlugin := { ip_spec : string; ip_providers : list PluginProviderInfo; ip_error : string }.
Record Known := { kn_stamp : Z; kn_providers : list PluginProviderInfo; kn_error : string }.

(** The entries of [node_modules], each with those below it; a name that is not
    text is [None]. *)
Definition one_spec (entry : option string * list (option string)) : list string :=
  match entry.1 with
  | None => []
  | Some name =>
      if bool_decide (name = ".bin") then []
      else if starts_with "@" name then
        omap (fun inner => (fun one => name +:+ "/" +:+ one) <$> inner) entry.2
      else [name]
  end.
Definition installed_specs (entries : list (option string * list (option string))) : list string :=
  merge_sort str_le (flat_map one_spec entries).

(** The state of a package directory: its time of change in seconds and its
    size, if it can be looked at. *)
Definition package_stamp (meta : option (option Z * Z)) : Z :=
  match meta with
  | None => 0
  | Some (mtime, len) => Z.lxor (default 0 mtime) (len * 1000003 mod 2 ^ 64)
  end.

(** [ManagedHosts::installed], with the file of what is known, which is read
    once and read again for each package that is remembered. [ask] is the host
    of a package, started for it, and [written] whether the file can be. The
    packages asked come back with the list. *)
Section listing.
Variables (stamp : string -> Z) (ask : string -> result PluginError (list PluginProviderInfo))
  (error_text : PluginError -> string) (written : bool).

Definition remember (spec : string) (known : Known) (all : gmap string Known) : gmap string Known :=
  if written then <[spec := known]> all else all.

Definition asked (spec : string) : Known :=
  match ask spec with
  | Ok providers => {| kn_stamp := stamp spec; kn_providers := providers; kn_error := "" |}
  | Err e => {| kn_stamp := stamp spec; kn_providers := []; kn_error := error_text e |}
  end.
Definition listed (spec : string) (k : Known) : InstalledPlugin :=
  {| ip_spec := spec; ip_providers := kn_providers k; ip_error := kn_error k |}.
Definition up_to_date (known : gmap string Known) (spec : string) : option Known :=
  k ← known !! spec; if decide (kn_stamp k = stamp spec) then Some k else None.

Fixpoint installed_loop (known : gmap string Known) (specs : list string) (file : gmap string Known)
  : list InstalledPlugin * list string * gmap string Known :=
  match specs with
  | [] => ([], [], file)
  | spec :: specs =>
      match up_to_date known spec with
      | Some k =>
          let '(out, started, file) := installed_loop known specs file in (listed spec k :: out, started, file)
      | None =>
          let '(out, started, file) := installed_loop known specs (remember spec (asked spec) file) in
          (listed spec (asked spec) :: out, spec :: started, file)
      end
  end.
Definition installed (specs : list string) (file : gmap string Known)
  : list InstalledPlugin * list string * gmap string Known := installed_loop file specs file.
End listing.

(** * One host per plugin

    Every call for a plugin gets the same process, and none of them gets
    another once it is dead. *)

Definition pc_ok (m : Managed) (i : nat) (t : Task) : Prop :=
  let guards := mg_guard m = Some i in
  let starts := mg_starts m !! tk_key t = Some i in
  let host h := mg_hosts m !! tk_key t = Some h in
  match tk_pc t with
  | Probe h => guards /\ host h
  | Recheck => starts
  | Reprobe h => guards /\ starts /\ host h
  | Forget => guards /\ starts
  | Launch | Keep _ => starts /\ mg_hosts m !! tk_key t = None
  | Ret (Ok h) => host h
  | _ => True
  end.
Definition tasks_ok (m : Managed) : Prop := forall i t, mg_tasks m !! i = Some t -> pc_ok m i t.

Lemma host_pc_mono m m' i t :
  pc_ok m i t -> (mg_guard m = Some i -> mg_guard m' = Some i) ->
  (forall k, mg_starts m !! k = Some i -> mg_starts m' !! k = Some i) -> mg_hosts m ⊆ mg_hosts m' ->
  (mg_hosts m !! tk_key t = None -> mg_starts m !! tk_key t = Some i -> mg_hosts m' !! tk_key t = None) -> pc_ok m' i t.
Proof.
  intros Hok Hg Hs Hh Hn. pose proof (fun k h => lookup_weaken (mg_hosts m) (mg_hosts m') k h) as Hw.
  unfold pc_ok in *. destruct (tk_pc t) as [| | | | | | | |[]|]; naive_solver.
Qed.

(** One call changes: the others keep what they hold. *)
Lemma tasks_ok_put m m' i key pc :
  tasks_ok m -> mg_tasks m' = <[i := {| tk_key := key; tk_pc := pc |}]> (mg_tasks m) ->
  (forall j, j <> i -> mg_guard m = Some j -> mg_guard m' = Some j) ->
  (forall j k, j <> i -> mg_starts m !! k = Some j -> mg_starts m' !! k = Some j) -> mg_hosts m ⊆ mg_hosts m' ->
  (forall j k, j <> i -> mg_hosts m !! k = None -> mg_starts m !! k = Some j -> mg_hosts m' !! k = None) ->
  pc_ok m' i {| tk_key := key; tk_pc := pc |} -> tasks_ok m'.
Proof.
  intros Hm Ht Hg Hs Hh Hn Hok j t. rewrite Ht, lookup_insert_Some. intros [[<- <-]|[Hj Hjt]]; [done|].
  apply (host_pc_mono m); eauto.
Qed.

Lemma releasing_guard i m : mg_guard (releasing i m) = g ← mg_guard m; if decide (g = i) then None else Some g.
Proof. done. Qed.
Lemma releasing_starts i m k j : j <> i -> mg_starts m !! k = Some j -> mg_starts (releasing i m) !! k = Some j.
Proof. intros Hj Hk. cbn. apply map_lookup_filter_Some. done. Qed.
Lemma releasing_others i m j : j <> i -> mg_guard m = Some j -> mg_guard (releasing i m) = Some j.
Proof. intros Hj Hg. rewrite releasing_guard, Hg. cbn. by rewrite decide_False. Qed.
Lemma look_Some key m found : look key m = Some found -> mg_guard m = None /\ found = mg_hosts m !! key.
Proof. unfold look. destruct (mg_guard m); [done|]. by intros [= <-]. Qed.

Lemma tasks_ok_release m i key pc :
  tasks_ok m -> pc_ok (at_pc i key pc (releasing i m)) i {| tk_key := key; tk_pc := pc |} ->
  tasks_ok (at_pc i key pc (releasing i m)).
Proof.
  intros Hm Hok. eapply (tasks_ok_put m); [done|done| | |done|done|done].
  - intros j. apply releasing_others.
  - intros j k. apply releasing_starts.
Qed.

Lemma go_ok m i reply t m' :
  tasks_ok m -> mg_tasks m !! i = Some t -> go i reply t m = Some m' -> tasks_ok m' /\ mg_hosts m ⊆ mg_hosts m'.
Proof.
  intros Hm Ht. pose proof (Hm i t Ht) as Hok. unfold go, pc_ok in *. destruct (tk_pc t) as [|h| | |h| | |h|o|] eqn:Pc; try done.
  - destruct (look _ _) as [found|] eqn:L; [|done]. apply look_Some in L as [Hg ->]. cbn. intros [= <-].
    destruct (mg_hosts m !! tk_key t) as [h|] eqn:E; (split; [|done]).
    + eapply (tasks_ok_put m); [done|done|cbn; congruence|done..|]. done.
    + by eapply (tasks_ok_put m).
  - destruct Hok as [Hg Hh]. intros [= <-]. destruct reply as [[]|e]; (split; [|done]).
    + by apply tasks_ok_release.
    + eapply (tasks_ok_put m); [done|done|cbn; congruence|done..].
  - destruct (mg_starts m !! tk_key t) as [j|] eqn:E; [done|]. intros [= <-]. split; [|done].
    eapply (tasks_ok_put m); [done|done|done| |done|done|].
    + intros j k Hj Hk. cbn. rewrite lookup_insert_ne by congruence. done.
    + cbn. unfold pc_ok. cbn. by rewrite lookup_insert_eq.
  - destruct (look _ _) as [found|] eqn:L; [|done]. apply look_Some in L as [Hg ->]. cbn. intros [= <-].
    destruct (mg_hosts m !! tk_key t) as [h|] eqn:E; (split; [|done]).
    + eapply (tasks_ok_put m); [done|done|cbn; congruence|done..|]. done.
    + by eapply (tasks_ok_put m).
  - destruct Hok as (Hg & Hs & Hh). intros [= <-]. destruct reply as [[]|e]; (split; [|done]).
    + by apply tasks_ok_release.
    + by eapply (tasks_ok_put m).
  - destruct Hok as [Hg Hs]. destruct (look _ _) as [found|] eqn:L; [|done]. apply look_Some in L as [Hn _]. congruence.
  - destruct Hok as [Hs Hn]. intros [= <-]. destruct reply as [[]|e]; (split; [|done]).
    + by eapply (tasks_ok_put m).
    + by apply tasks_ok_release.
  - destruct Hok as [Hs Hn]. destruct (look _ _) as [found|] eqn:L; [|done]. apply look_Some in L as [Hg _]. cbn.
    intros [= <-]. assert (mg_hosts m ⊆ <[tk_key t := h]> (mg_hosts m)) as Hsub by (by apply insert_subseteq).
    split; [|done]. eapply (tasks_ok_put m); [done|done|cbn; congruence| |done| |].
    + intros j k Hj Hk. by apply (releasing_starts i (set_hosts (<[tk_key t := h]> (mg_hosts m)) m)).
    + intros j k Hj Hnone Hk. cbn. rewrite lookup_insert_ne; [done|]. intros <-. congruence.
    + unfold pc_ok. cbn. by rewrite lookup_insert_eq.
Qed.

Lemma step_ok m e m' : tasks_ok m -> step m e = Some m' -> tasks_ok m' /\ mg_hosts m ⊆ mg_hosts m'.
Proof.
  intros Hm. destruct e as [i r|i reply|i]; cbn.
  - destruct (mg_tasks m !! i) as [t|] eqn:E; [done|]. intros [= <-]. split; [|done]. by eapply (tasks_ok_put m).
  - destruct (mg_tasks m !! i) as [t|] eqn:E; [|done]. cbn. by apply go_ok.
  - destruct (mg_tasks m !! i) as [t|] eqn:E; [|done]. cbn.
    assert (tasks_ok (at_pc i (tk_key t) Dropped (releasing i m))) as Hd by (by apply tasks_ok_release).
    destruct (tk_pc t); by intros [= <-].
Qed.

Lemma steps_ok events : forall m m', tasks_ok m -> steps m events = Some m' -> tasks_ok m' /\ mg_hosts m ⊆ mg_hosts m'.
Proof.
  induction events as [|e events IH]; intros m m' Hm; cbn; [by intros [= <-]|].
  destruct (step m e) as [m1|] eqn:E; [|done]. cbn. intros Hs. destruct (step_ok _ _ _ Hm E) as [H1 H2].
  destruct (IH m1 m' H1 Hs) as [H3 H4]. split; [done|]. by transitivity (mg_hosts m1).
Qed.

Lemma with_store_ok : tasks_ok with_store.
Proof. intros i t. cbn. by rewrite lookup_empty. Qed.

Definition got (m : Managed) (i : nat) (key : string) (host : nat) : Prop :=
  mg_tasks m !! i = Some {| tk_key := key; tk_pc := Ret (Ok host) |}.

(** However many requests ask for a plugin at once and whichever of them are
    dropped, all that get a host get the same process, now and later; one
    request at a time starts hosts for a plugin, and only while it has none. *)
Theorem one_host_per_plugin (events later : list Event) (m m' : Managed) :
  steps with_store events = Some m -> steps m later = Some m' ->
  (forall i j key h h', got m i key h -> got m' j key h' -> h = h') /\
  (forall i j t t', mg_tasks m !! i = Some t -> mg_tasks m !! j = Some t' -> tk_key t = tk_key t' ->
     tk_pc t = Launch \/ (exists h, tk_pc t = Keep h) -> tk_pc t' = Launch \/ (exists h, tk_pc t' = Keep h) -> i = j) /\
  (forall i t, mg_tasks m !! i = Some t -> tk_pc t = Launch \/ (exists h, tk_pc t = Keep h) ->
     mg_hosts m !! tk_key t = None).
Proof.
  intros Hs Hs'. destruct (steps_ok _ _ _ with_store_ok Hs) as [Hm _]. destruct (steps_ok _ _ _ Hm Hs') as [Hm' Hsub].
  assert (forall i t, mg_tasks m !! i = Some t -> tk_pc t = Launch \/ (exists h, tk_pc t = Keep h) ->
    mg_starts m !! tk_key t = Some i /\ mg_hosts m !! tk_key t = None) as Hin.
  { intros i t Ht Hpc. specialize (Hm i t Ht). unfold pc_ok in Hm. by destruct Hpc as [E|[h E]]; rewrite E in Hm. }
  split_and!.
  - intros i j key h h' Hi Hj. specialize (Hm i _ Hi). specialize (Hm' j _ Hj). cbn in Hm, Hm'.
    apply (lookup_weaken _ _ _ _ Hm) in Hsub. congruence.
  - intros i j t t' Hi Hj E H1 H2. destruct (Hin i t Hi H1) as [Hi' _], (Hin j t' Hj H2) as [Hj' _]. congruence.
  - intros i t Hi H1. apply (Hin i t Hi H1).
Qed.

(** What a dropped call does not change. *)
Definition drops (i : nat) (e : Event) : bool := match e with Drop j => Nat.eqb i j | _ => false end.

Definition stuck (i : nat) (key : string) (m : Managed) : Prop :=
  mg_tasks m !! i = Some {| tk_key := key; tk_pc := Forget |} /\ mg_guard m = Some i.

Lemma stuck_step i key m e m' :
  tasks_ok m -> stuck i key m -> drops i e = false -> step m e = Some m' ->
  stuck i key m' /\ mg_hosts m' = mg_hosts m /\ forall j k h, got m' j k h -> got m j k h.
Proof.
  intros Hm [Hi Hg] Hd. unfold stuck, got. destruct e as [j r|j reply|j]; cbn in *.
  - destruct (mg_tasks m !! j) as [t|] eqn:E; [done|]. intros [= <-]. cbn. rewrite lookup_insert_ne by congruence.
    split_and!; try done. intros a k h. rewrite lookup_insert_Some. naive_solver.
  - destruct (mg_tasks m !! j) as [t|] eqn:E; [|done]. cbn. destruct (decide (i = j)) as [<-|Hij].
    { rewrite E in Hi. injection Hi as ->. unfold go. cbn. unfold look. by rewrite Hg. }
    pose proof (Hm j t E) as Hok. unfold go, pc_ok, look in *. rewrite Hg in *.
    assert (forall pc, (forall h, pc <> Ret (Ok h)) -> forall a k h,
      <[j := {| tk_key := tk_key t; tk_pc := pc |}]> (mg_tasks m) !! a = Some {| tk_key := k; tk_pc := Ret (Ok h) |} ->
      mg_tasks m !! a = Some {| tk_key := k; tk_pc := Ret (Ok h) |}) as Hgot
      by (intros pc Hpc a k h; rewrite lookup_insert_Some; naive_solver).
    destruct (tk_pc t) as [|h| | |h| | |h|o|] eqn:Pc; try done; try (destruct Hok; congruence).
    + destruct (mg_starts m !! tk_key t); [done|]. intros [= <-]. cbn. rewrite lookup_insert_ne by done.
      split_and!; try done. by apply Hgot.
    + intros [= <-]. destruct reply as [[]|e]; cbn; rewrite lookup_insert_ne, ?Hg by done; cbn;
        rewrite ?decide_False by done; (split_and!; [done..|by apply Hgot]).
  - destruct (mg_tasks m !! j) as [t|] eqn:E; [|done]. cbn. apply Nat.eqb_neq in Hd.
    assert (stuck i key (at_pc j (tk_key t) Dropped (releasing j m)) /\
      mg_hosts (at_pc j (tk_key t) Dropped (releasing j m)) = mg_hosts m /\
      forall a k h, got (at_pc j (tk_key t) Dropped (releasing j m)) a k h -> got m a k h) as Hdone.
    { unfold stuck, got. cbn. rewrite lookup_insert_ne, Hg by done. cbn. rewrite decide_False by done.
      split_and!; try done. intros a k h. rewrite lookup_insert_Some. naive_solver. }
    unfold stuck, got in Hdone. destruct (tk_pc t); by intros [= <-].
Qed.

(** C29: A request that finds the host of its plugin dead never replaces it: it
    waits for the table of hosts, which it holds itself, and until its own
    caller gives up, whatever happens, it stays there, the dead host stays in
    the table, and no request for any plugin gets a host. *)
Theorem dead_host_blocks (events later : list Event) (m m' : Managed) (i : nat) (key : string) (host : nat)
    (e : PluginError) :
  steps with_store events = Some m -> mg_tasks m !! i = Some {| tk_key := key; tk_pc := Reprobe host |} ->
  forallb (fun e => negb (drops i e)) later = true -> steps m (Go i (Err e) :: later) = Some m' ->
  mg_tasks m' !! i = Some {| tk_key := key; tk_pc := Forget |} /\ mg_hosts m' !! key = Some host /\
  forall j k h, got m' j k h -> got m j k h.
Proof.
  intros Hs Hi Hall. destruct (steps_ok _ _ _ with_store_ok Hs) as [Hm _]. destruct (Hm i _ Hi) as (Hg & Hst & Hh). cbn in Hg, Hst, Hh.
  cbn [steps]. destruct (step m (Go i (Err e))) as [m1|] eqn:E; [|done].
  destruct (step_ok _ _ _ Hm E) as [Hm1 _]. cbn in E. rewrite Hi in E. cbn in E. unfold go in E. cbn in E.
  injection E as <-. set (m1 := at_pc i key Forget m) in *.
  assert (stuck i key m1) as Hst1 by (split; cbn; [by rewrite lookup_insert_eq|done]).
  assert (forall j k h, got m1 j k h -> got m j k h) as Hgot1.
  { intros j k h. unfold got. cbn. rewrite lookup_insert_Some. naive_solver. }
  assert (mg_hosts m1 !! key = Some host) as Hh1 by done. clearbody m1. cbn.
  clear - Hm1 Hst1 Hgot1 Hh1 Hall. revert m1 Hm1 Hst1 Hgot1 Hh1.
  induction later as [|e later IH]; intros m1 Hm1 Hst1 Hgot1 Hh1; cbn; [intros [= <-]; by destruct Hst1|].
  cbn in Hall. apply andb_true_iff in Hall as [He Hall]. apply negb_true_iff in He.
  destruct (step m1 e) as [m2|] eqn:E; [|done]. cbn.
  destruct (stuck_step _ _ _ _ _ Hm1 Hst1 He E) as (Hst2 & Hh2 & Hgot2). destruct (step_ok _ _ _ Hm1 E) as [Hm2 _].
  apply IH; [done..|by auto|by rewrite Hh2].
Qed.

(** ** What is kept *)

Section kept.
Context {Model : Type}.
Abbreviation Models := (gmap string (list Model * Z)).

Lemma models_key_strip r account : strip_prefix (host_key r +:+ "|") (models_key r account) = Some account.
Proof.
  unfold models_key. rewrite <- app_assoc_str. apply strip_prefix_app.
Qed.

(** A list of models is served from memory only while it is younger than a
    minute; after a sign-in or a sign-out of an account the next request for it
    asks the plugin, and the lists of the plugin's other accounts stay unless
    the account was left open, in which case they all go. *)
Theorem models_refreshed (r : PluginRef) (account other : string) (models : Models) :
  (forall now later fetched list models', models_for now later fetched r account models = (Ok list, models') ->
     (exists at_, models !! models_key r account = Some (list, at_) /\ now - at_ < MODELS_TTL /\ models' = models) \/
     (fetched = Ok list /\ models' !! models_key r account = Some (list, later))) /\
  (forall now later fetched, fst (models_for now later fetched r account (invalidate r account models)) = fetched) /\
  invalidate r account models !! models_key r other =
    (if is_empty account || bool_decide (other = account) then None else models !! models_key r other).
Proof.
  assert (forall account other, invalidate r account models !! models_key r other =
    (if is_empty account || bool_decide (other = account) then None else models !! models_key r other)) as Hinv.
  { intros a o. unfold invalidate. apply option_eq. intros x. rewrite map_lookup_filter_Some. cbn. unfold dropped.
    rewrite models_key_strip. destruct (is_empty a || bool_decide (o = a)); naive_solver. }
  split_and!; [| |apply Hinv].
  - intros now later fetched list models'. unfold models_for, models_kept.
    destruct (models !! models_key r account) as [[l at_]|]; [destruct (Z.ltb_spec (now - at_) MODELS_TTL)|].
    + intros [= <- <-]. left. by exists at_.
    + destruct fetched; intros [= <- <-]. right. split; [done|]. apply lookup_insert_eq.
    + destruct fetched; intros [= <- <-]. right. split; [done|]. apply lookup_insert_eq.
  - intros now later fetched. unfold models_for, models_kept. rewrite Hinv, bool_decide_true, orb_true_r by done.
    by destruct fetched.
Qed.

(** A list that was asked for before a sign-in and comes after it is kept: it
    is served for a minute. *)
Example stale_list (before after : list Model) (r : PluginRef) :
  let models := invalidate r "a" (∅ : Models) in
  let late := models_store 10 r "a" before models in
  fst (models_for 20 30 (Ok after) r "a" late) = Ok before.
Proof.
  cbn. unfold models_for, models_kept, models_store. by rewrite lookup_insert_eq.
Qed.
End kept.

Section listings.
Variables (stamp : string -> Z) (ask ask' : string -> result PluginError (list PluginProviderInfo))
  (error_text : PluginError -> string).
Abbreviation first_listing := (installed_loop stamp ask error_text true).
Abbreviation next_listing := (installed_loop stamp ask' error_text true).

(** What the file knows of a package after a listing. *)
Lemma installed_file known specs : forall file out started file',
  first_listing known specs file = (out, started, file') ->
  forall spec, file' !! spec = if decide (spec ∈ started) then Some (asked stamp ask error_text spec) else file !! spec.
Proof.
  induction specs as [|s specs IH]; intros file out started file'; cbn; [by intros [= <- <- <-]|].
  destruct (up_to_date stamp known s) as [k|].
  - destruct (first_listing known specs file) as [[o st] f] eqn:E. intros [= <- <- <-]. by eapply IH.
  - destruct (first_listing known specs _) as [[o st] f] eqn:E. intros [= <- <- <-] spec.
    rewrite (IH _ _ _ _ E spec). unfold remember. destruct (decide (spec ∈ st)).
    + by rewrite decide_True by (by right).
    + destruct (decide (spec = s)) as [->|Hne].
      * rewrite lookup_insert_eq, decide_True; [done|by left].
      * rewrite lookup_insert_ne by congruence. rewrite decide_False; [done|]. by intros [?|?]%list.elem_of_cons.
Qed.

(** A listing from a file that knows every package. *)
Lemma installed_known known specs : forall file,
  Forall (fun spec => is_Some (up_to_date stamp known spec)) specs ->
  next_listing known specs file =
    (omap (fun spec => listed spec <$> up_to_date stamp known spec) specs, [], file).
Proof.
  induction specs as [|s specs IH]; intros file Hk; [done|]. inversion Hk as [|? ? [k Hs] Hks]; subst. cbn.
  rewrite Hs, (IH _ Hks). done.
Qed.

(** Listing the installed plugins starts those packages whose directory is
    not as it was when they were last asked, each once; when the listing can be
    remembered, the next one of unchanged packages starts none and says the
    same. *)
Theorem installed_twice (specs started started' : list string) (out out' : list InstalledPlugin)
    (file file' file'' : gmap string Known) :
  NoDup specs -> installed stamp ask error_text true specs file = (out, started, file') ->
  installed stamp ask' error_text true specs file' = (out', started', file'') ->
  (forall spec, spec ∈ started <-> spec ∈ specs /\ up_to_date stamp file spec = None) /\ NoDup started /\
  map ip_spec out = specs /\ started' = [] /\ out' = out /\ file'' = file'.
Proof.
  unfold installed. intros Hnd H1 H2.
  assert (Hshape : forall known specs file out started file', first_listing known specs file = (out, started, file') ->
    started = filter (fun s => up_to_date stamp known s = None) specs /\
    out = map (fun s => listed s (default (asked stamp ask error_text s) (up_to_date stamp known s))) specs).
  { clear. intros known specs. induction specs as [|s specs IH]; intros file out started file'; [by intros [= <- <- _]|].
    rewrite list.filter_cons. cbn [installed_loop map]. destruct (up_to_date stamp known s) as [k|] eqn:U.
    - destruct (first_listing known specs file) as [[o st] f] eqn:E. intros [= <- <- <-].
      destruct (IH _ _ _ _ E) as [-> ->]. by rewrite decide_False.
    - destruct (first_listing known specs _) as [[o st] f] eqn:E. intros [= <- <- <-].
      destruct (IH _ _ _ _ E) as [-> ->]. by rewrite decide_True. }
  destruct (Hshape _ _ _ _ _ _ H1) as [Hst Hout].
  assert (forall s, s ∈ started <-> s ∈ specs /\ up_to_date stamp file s = None) as Hin.
  { intros s. rewrite Hst, list_elem_of_filter. naive_solver. }
  assert (Hup : forall s, s ∈ specs -> up_to_date stamp file' s = Some (default (asked stamp ask error_text s) (up_to_date stamp file s))).
  { intros s Hs. unfold up_to_date at 1. rewrite (installed_file _ _ _ _ _ _ H1 s). destruct (decide (s ∈ started)) as [E|E].
    - apply Hin in E as [_ E]. rewrite E. cbn. rewrite decide_True; [done|]. unfold asked. by destruct (ask s).
    - destruct (up_to_date stamp file s) as [k|] eqn:U; [|by destruct E; apply Hin]. unfold up_to_date in U. by rewrite U. }
  rewrite installed_known in H2.
  2:{ apply list.Forall_forall. intros s Hs. by rewrite (Hup s Hs). }
  injection H2 as <- <- <-. split_and!; [done|rewrite Hst; by apply list.NoDup_filter| |done| |done].
  - rewrite Hout, map_map. cbn. apply map_id.
  - rewrite Hout. clear - Hup. induction specs as [|s specs IH]; [done|]. cbn. rewrite (Hup s) by (by left). cbn. f_equal.
    apply IH. intros s' Hs'. apply Hup. by right.
Qed.
End listings.

(** ** Concrete runs *)

Definition one_ref : PluginRef := {| pl_spec := "p"; pl_target := "" |}.
Definition seen (events : list Event) : Managed := default with_store (steps with_store events).
(** One request starts a host and a second one gets it. *)
Definition shared_run : list Event :=
  [Begin 0 one_ref; Begin 1 one_ref; Go 0 (Ok tt); Go 1 (Ok tt); Go 0 (Ok tt); Go 0 (Ok tt); Go 0 (Ok tt); Go 0 (Ok tt);
   Go 1 (Ok tt); Go 1 (Ok tt); Go 1 (Ok tt)].
(** A third finds it dead, twice. *)
Definition dead : result PluginError unit := Err (Protocol GONE_MSG).
Definition dying_run : list Event :=
  shared_run ++ [Begin 2 one_ref; Go 2 (Ok tt); Go 2 dead; Go 2 (Ok tt); Go 2 (Ok tt)].

Lemma one_host_per_plugin_witness :
  exists m, steps with_store shared_run = Some m /\ got m 0 "p|" 0 /\ got m 1 "p|" 0 /\
    forall i j key h h', got m i key h -> got m j key h' -> h = h'.
Proof.
  assert (steps with_store shared_run = Some (seen shared_run)) as E by (vm_compute; reflexivity).
  exists (seen shared_run). split; [exact E|]. split; [vm_compute; reflexivity|]. split; [vm_compute; reflexivity|].
  exact (proj1 (one_host_per_plugin shared_run [] (seen shared_run) (seen shared_run) E eq_refl)).
Defined.

Lemma dead_host_blocks_witness :
  exists m', steps (seen dying_run) (Go 2 dead :: [Begin 3 {| pl_spec := "q"; pl_target := "" |}]) = Some m' /\
    mg_tasks m' !! 2%nat = Some {| tk_key := "p|"; tk_pc := Forget |} /\ mg_hosts m' !! "p|" = Some 0%nat.
Proof.
  assert (steps with_store dying_run = Some (seen dying_run)) as E by (vm_compute; reflexivity).
  eexists. split; [vm_compute; reflexivity|].
  refine ((fun P => conj (proj1 P) (proj1 (proj2 P))) (dead_host_blocks dying_run
    [Begin 3 {| pl_spec := "q"; pl_target := "" |}] (seen dying_run) _ 2 "p|" 0 (Protocol GONE_MSG) E _ _ _));
    vm_compute; reflexivity.
Defined.

Lemma installed_twice_witness :
  exists out file, installed (fun _ => 7) (fun _ => Err NoSuchMethod) (fun _ => "no") true ["a"; "b"] ∅ = (out, ["a"; "b"], file) /\
    forall out' started' file'',
      installed (fun _ => 7) (fun _ => Ok []) (fun _ => "no") true ["a"; "b"] file = (out', started', file'') ->
      started' = [] /\ out' = out.
Proof.
  do 2 eexists. split; [vm_compute; reflexivity|]. intros out' started' file'' H2.
  refine ((fun P => conj (proj1 (proj2 (proj2 (proj2 P)))) (proj1 (proj2 (proj2 (proj2 (proj2 P))))))
    (installed_twice (fun _ => 7) (fun _ => Err NoSuchMethod) (fun _ => Ok []) (fun _ => "no") ["a"; "b"] ["a"; "b"] started'
       _ out' ∅ _ file'' _ _ H2)).
  - apply (bool_decide_unpack _). vm_compute. exact I.
  - vm_compute. reflexivity.
Defined.
