(* ===== verification/Import.v ===== *)
(** * Accounts from other tools

    credentials/import.rs, credentials/agent_import.rs and
    credentials/codex_store.rs: the accounts of export files taken into the
    credential store, the sign-ins that Codex and Claude Code keep, and the
    tokens written back to Codex. The files are what reading them gives; which
    directories count as homes of Codex is not modelled. *)
From Stdlib Require Import ZArith Lia Floats.SpecFloat.
From stdpp Require Import gmap sorting pretty.
From S2P Require Import Prelude.
From S2P Require Import RustStd.
From S2P Require Import Json.
From S2P Require Import Float64.
From S2P Require Import AuthStore.
From S2P Require Import VendorSignIn.
From S2P Require Import SecretStore.

Local Open Scope Z_scope.

Inductive ImportStatus : Type := Added | Exists (why : string) | Refused (why : string).
Record ImportedAccount := {
  im_account : string; im_provider : string; im_email : string; im_status : ImportStatus; im_file : string
}.
#[export] Instance ImportStatus_eq_dec : EqDecision ImportStatus.
Proof. solve_decision. Defined.

(** One account of a file, whatever the shape of the file. *)
Record Entry := {
  en_provider : string;
  en_name : string;
  en_email : string;
  en_access_token : string;
  en_refresh_token : option string;
  en_expires_at_unix : option Z;
  en_newer_wins : bool
}.

(** ** Fields *)

Fixpoint str_in_keys (m : Map) (keys : list string) : string :=
  match keys with
  | [] => ""
  | key :: keys => match get_str key m with Some found => found | None => str_in_keys m keys end
  end.
Definition str_of (obj : option Map) (keys : list string) : string :=
  match obj with None => "" | Some m => str_in_keys m keys end.
Definition opt_str (obj : option Map) (keys : list string) : option string :=
  let found := str_of obj keys in if is_empty found then None else Some found.
Definition first_nonempty (value fallback : string) : string := if is_empty value then fallback else value.

(** A number beyond [i64] ends the search. *)
Fixpoint i64_in_keys (m : Map) (keys : list string) : option Z :=
  match keys with
  | [] => None
  | key :: keys =>
      match map_get key m with
      | Some value =>
          match Json.as_i64 value, Json.as_u64 value with
          | Some found, _ => Some found
          | None, Some _ => None
          | None, None => i64_in_keys m keys
          end
      | None => i64_in_keys m keys
      end
  end.
Definition i64_of (obj : option Map) (keys : list string) : option Z := m ← obj; i64_in_keys m keys.

(** Division truncates; the values divided are positive. *)
Definition normalize_expiry (value : Z) : Z := if 100000000000 <? value then value / 1000 else value.

Definition name_if_email (obj : option Map) : string :=
  let name := str_of obj ["name"] in if contains "@" name then name else "".

Definition object_in (key : string) (m : Map) : option Map := map_get key m ≫= as_object.
Definition eq_ignore_ascii_case (a b : string) : bool :=
  bool_decide (to_ascii_lowercase a = to_ascii_lowercase b).

(** ** Rows *)

Definition refused (provider name email why file : string) : ImportedAccount :=
  {| im_account := if is_empty name then "" else provider +:+ ":" +:+ name;
     im_provider := provider; im_email := email; im_status := Refused why; im_file := file |}.
Definition refused_file (why file : string) : ImportedAccount := refused "" "" "" why file.

Definition ENCRYPTED_CSWAP_MSG : string :=
  "an encrypted claude-swap export: decrypt it first (e.g. `gpg -d`), or export it again from claude-swap without encryption (`cswap --export`), then import what that gives".
Definition API_KEY_MSG : string :=
  "an API key, not an OAuth sign-in; add it as a provider API key in config.toml instead".
Definition CODEX_CSWAP_MSG : string :=
  "a Codex account in a claude-swap export: claude-swap files hold Claude sign-ins; import Codex accounts from a Codex tool's export (CLIProxyAPI or Sub2API) instead".
Definition NO_EXPIRY_MSG : string :=
  "the export gives no expiresAt for this account, so it never replaces the stored sign-in: kept".

Definition unknown_shape (file : string) : ImportedAccount :=
  refused_file "unrecognized export shape: supported exports are claude-swap (cswap) files ({format: 1, accounts: [...]}), Sub2API exports ([{platform, credentials, ...}] or {accounts: [...]}) and CLIProxyAPI files ({email: {type, access_token, refresh_token, expires}})" file.

(** ** One entry into the store *)
Section importing.
Context `{SerdeJson}.
Variables (store_error : SecretStoreError -> string) (file : string).

Definition stored_expiry (store : FileSecretStore) (id : string) : option (option Z) :=
  match store_get id store with
  | Ok (Some (CredOAuth _ _ _ _ expires_at_unix _)) => Some expires_at_unix
  | Ok (Some _) => Some None
  | Ok None | Err _ => None
  end.

Definition entry_id (e : Entry) : string := en_provider e +:+ ":" +:+ en_name e.
Definition row (e : Entry) (status : ImportStatus) : ImportedAccount :=
  {| im_account := entry_id e; im_provider := en_provider e; im_email := en_email e; im_status := status; im_file := file |}.
Definition entry_credential (e : Entry) : Credential :=
  CredOAuth (en_provider e) (en_name e) (en_access_token e) (en_refresh_token e) (en_expires_at_unix e) None.

Definition write_entry (e : Entry) (store : FileSecretStore) : ImportedAccount * FileSecretStore :=
  match store_put (entry_id e) (entry_credential e) store with
  | (Ok _, store) => (row e Added, store)
  | (Err err, store) => (row e (Refused ("could not write to the credential store: " +:+ store_error err)), store)
  end.

Definition import_entry (e : Entry) (store : FileSecretStore) : ImportedAccount * FileSecretStore :=
  if is_empty (en_name e) then
    (refused (en_provider e) "" "" "no email and no alias in the account, so there is no account name to store it under" file,
     store)
  else if is_empty (en_access_token e) && negb (is_some (en_refresh_token e)) then
    (refused (en_provider e) (en_name e) (en_email e) "no tokens in the entry (no access_token/refresh_token)" file, store)
  else
    match stored_expiry store (entry_id e) with
    | None => write_entry e store
    | Some local =>
        if negb (en_newer_wins e) then
          (row e (Exists "an account is already stored under this id: kept (accounts are never overwritten, except a claude-swap export whose expiresAt is newer)"), store)
        else
          match local, en_expires_at_unix e with
          | None, None | Some _, None => (row e (Exists NO_EXPIRY_MSG), store)
          | None, Some _ => write_entry e store
          | Some local, Some file_exp =>
              if local <? file_exp then write_entry e store
              else (row e (Exists ("expiresAt " +:+ pretty file_exp +:+ " is not newer than the stored sign-in's "
                                   +:+ pretty local +:+ ": kept")), store)
          end
    end.

(** ** The entries of a file

    What a file holds, account by account: a row of its own, or an entry to
    import. *)
Definition Item : Type := ImportedAccount + Entry.
Definition no (why : string) : Item := inl (refused_file why file).

Definition has_platform (value : Value) : bool :=
  match as_object value with Some m => map_contains "platform" m | None => false end.

Definition claude_src (credentials : Map) : Map := default credentials (object_in "claudeAiOauth" credentials).

Definition cswap_entry (account : Value) : Item :=
  match as_object account with
  | None => no "not an account object"
  | Some m =>
      let kind := to_ascii_lowercase (str_of (Some m) ["kind"]) in
      let entry_type := to_ascii_lowercase (str_of (Some m) ["type"]) in
      if bool_decide (kind = "api_key") || is_some (get_str "credentials" m) then no API_KEY_MSG
      else if bool_decide (kind = "codex") || bool_decide (entry_type = "codex") then no CODEX_CSWAP_MSG
      else
        match object_in "credentials" m with
        | None => no "no credentials object in the account"
        | Some credentials =>
            let src := claude_src credentials in
            let oauth_account := config ← object_in "config" m; object_in "oauthAccount" config in
            let email := first_nonempty (str_of oauth_account ["emailAddress"]) (str_of (Some m) ["email"]) in
            let alias := str_of (Some m) ["alias"] in
            inr {| en_provider := "claude"; en_name := first_nonempty email alias; en_email := email;
                   en_access_token := str_of (Some src) ["accessToken"; "access_token"];
                   en_refresh_token := opt_str (Some src) ["refreshToken"; "refresh_token"];
                   en_expires_at_unix := normalize_expiry <$> i64_of (Some src) ["expiresAt"];
                   en_newer_wins := true |}
        end
  end.

(** Whether [format] is the number one. *)
Definition is_v1 (format : Value) : bool :=
  bool_decide (Json.as_i64 format = Some 1) || bool_decide (Json.as_u64 format = Some 1) ||
  match format with VNumber (Float f) => SFeqb f (f64_of_Z 1) | _ => false end.

Definition cswap_items (m : Map) (accounts : list Value) : list Item :=
  match opt_or (map_get "format" m) (map_get "version" m) with
  | Some format =>
      if is_v1 format then map cswap_entry accounts
      else [no ("a claude-swap export of format " +:+ value_to_string format +:+
                ": any-converter reads format 1 (claude-swap 0.29); re-export the accounts with `cswap --export`")]
  | None => map cswap_entry accounts
  end.

Definition sub2api_entry (entry : Value) : Item :=
  match as_object entry with
  | None => no "not an account object"
  | Some m =>
      let platform := str_of (Some m) ["platform"] in
      if is_empty platform then
        no "no platform field in the account: Sub2API entries say which vendor the account is for"
      else
        let vendor := to_ascii_lowercase platform in
        match (if bool_decide (vendor = "openai") then Some "codex"
               else if bool_decide (vendor = "claude") || bool_decide (vendor = "anthropic") then Some "claude" else None) with
        | None => no ("platform " +:+ dquote +:+ platform +:+ dquote +:+
                      " is not supported: Sub2API entries for the claude/anthropic and openai platforms can be imported")
        | Some provider =>
            if eq_ignore_ascii_case (str_of (Some m) ["type"]) "apikey" then inl (refused provider "" "" API_KEY_MSG file)
            else
              match object_in "credentials" m with
              | None => inl (refused provider "" "" "no credentials object in the account" file)
              | Some credentials =>
                  let extra := object_in "extra" m in
                  let src := claude_src credentials in
                  let email := first_nonempty (str_of (Some credentials) ["email_address"; "email"])
                    (first_nonempty (str_of extra ["email_address"; "email"]) (name_if_email (Some m))) in
                  if is_empty email then
                    inl (refused provider "" "" ("the file doesn't say which " +:+ provider +:+
                      " account this is (no email): sign in to it with `any-converter accounts add` instead") file)
                  else
                    inr {| en_provider := provider; en_name := email; en_email := email;
                           en_access_token := str_of (Some src) ["accessToken"; "access_token"];
                           en_refresh_token := opt_str (Some src) ["refreshToken"; "refresh_token"];
                           en_expires_at_unix := normalize_expiry <$> i64_of (Some src) ["expiresAt"; "expires"; "expires_at"];
                           en_newer_wins := false |}
              end
        end
  end.

Definition has_token_fields (entry : Map) : bool :=
  existsb (fun key => map_contains key entry)
    ["access_token"; "refresh_token"; "accessToken"; "refreshToken"; "claudeAiOauth"].
Definition is_cliproxy_map (m : Map) : bool :=
  match m with [] => false | _ => true end &&
  forallb (fun kv => match as_object kv.2 with
                     | Some entry => has_token_fields entry || map_contains "type" entry
                     | None => false
                     end) m.
Definition is_flat_account (m : Map) : bool := map_contains "type" m && has_token_fields m.

Definition cliproxy_entry (key : option string) (entry : Map) : Item :=
  let entry_type := to_ascii_lowercase (str_of (Some entry) ["type"]) in
  let import provider : Item :=
    let src := default entry (object_in "claudeAiOauth" entry) in
    let email := first_nonempty (str_of (Some entry) ["email"]) (default "" key) in
    inr {| en_provider := provider; en_name := email; en_email := email;
           en_access_token := str_of (Some src) ["access_token"; "accessToken"];
           en_refresh_token := opt_str (Some src) ["refresh_token"; "refreshToken"];
           en_expires_at_unix := normalize_expiry <$> i64_of (Some src) ["expires"; "expiresAt"];
           en_newer_wins := false |} in
  if bool_decide (entry_type = "claude") then import "claude"
  else if bool_decide (entry_type = "codex") then import "codex"
  else if is_empty entry_type then
    if map_contains "claudeAiOauth" entry || map_contains "expiresAt" entry then import "claude"
    else if map_contains "id_token" entry || map_contains "account_id" entry then import "codex"
    else no ("no type field in the account: CLIProxyAPI entries are " +:+ dquote +:+ "claude" +:+ dquote +:+ " or "
             +:+ dquote +:+ "codex" +:+ dquote)
  else if map_contains "api_key" entry || map_contains "OPENAI_API_KEY" entry then no API_KEY_MSG
  else no ("entry type " +:+ dquote +:+ entry_type +:+ dquote +:+ " is not supported: CLIProxyAPI entries are "
           +:+ dquote +:+ "claude" +:+ dquote +:+ " or " +:+ dquote +:+ "codex" +:+ dquote +:+ " accounts").

Definition cliproxy_items (m : Map) : list Item :=
  map (fun kv => match as_object kv.2 with
                 | None => no ("the entry for " +:+ kv.1 +:+ " is not an account object")
                 | Some entry => cliproxy_entry (Some kv.1) entry
                 end) m.

Definition object_items (m : Map) (root : Value) : list Item :=
  if bool_decide ((map_get "encrypted" m ≫= as_bool) = Some true) then [no ENCRYPTED_CSWAP_MSG]
  else
    match map_get "accounts" m ≫= as_array with
    | Some [] => [no "the file holds no accounts"]
    | Some accounts =>
        if map_contains "format" m || map_contains "version" m || map_contains "swapVersion" m then cswap_items m accounts
        else if existsb has_platform accounts then map sub2api_entry accounts
        else [inl (unknown_shape file)]
    | None =>
        if map_contains "platform" m then [sub2api_entry root]
        else if is_cliproxy_map m then cliproxy_items m
        else if is_flat_account m then [cliproxy_entry None m]
        else [inl (unknown_shape file)]
    end.

(** What [import_file] reads: bytes, or the error of reading them. *)
Definition file_items (read : result string string) : list Item :=
  match read with
  | Err err => [no ("cannot read: " +:+ err)]
  | Ok bytes =>
      match value_from_str bytes with
      | Err err => [no ("not valid JSON: " +:+ err)]
      | Ok root =>
          match root with
          | VObject m => object_items m root
          | VArray items => if existsb has_platform items then map sub2api_entry items else [inl (unknown_shape file)]
          | _ => [inl (unknown_shape file)]
          end
      end
  end.

Definition import_item (item : Item) (store : FileSecretStore) : ImportedAccount * FileSecretStore :=
  match item with inl row => (row, store) | inr e => import_entry e store end.

Fixpoint import_items (items : list Item) (store : FileSecretStore) : list ImportedAccount * FileSecretStore :=
  match items with
  | [] => ([], store)
  | item :: items =>
      let '(row, store) := import_item item store in
      let '(rows, store) := import_items items store in
      (row :: rows, store)
  end.
Definition import_file (read : result string string) (store : FileSecretStore)
  : list ImportedAccount * FileSecretStore := import_items (file_items read) store.
End importing.

(** The extension of a file name: what follows its last dot, unless the dot
    comes first. *)
Definition extension (name : string) : option string :=
  match rsplit_once "." name with
  | Some (stem, ext) => if is_empty stem then None else Some ext
  | None => None
  end.

(** A path: a file and what reading it gives, or a directory with its entries
    (a name, whether it is a file, and what reading it gives). *)
Inductive PathEntry : Type :=
  | OneFile (read : result string string)
  | Directory (entries : result string (list (string * bool * result string string))).

Definition by_name (a b : string * bool * result string string) : Prop := str_le a.1.1 b.1.1.
#[export] Instance by_name_dec : RelDecision by_name.
Proof. intros a b. unfold by_name. apply _. Defined.

Definition json_file (entry : string * bool * result string string) : bool :=
  entry.1.2 && match extension entry.1.1 with Some ext => eq_ignore_ascii_case ext "json" | None => false end.

Section paths.
Context `{SerdeJson}.
Variables (store_error : SecretStoreError -> string).

(** [path] is shown as it was given; a file of a directory as [path/name]. *)
Fixpoint import_files (path : string) (files : list (string * bool * result string string)) (store : FileSecretStore)
  : list ImportedAccount * FileSecretStore :=
  match files with
  | [] => ([], store)
  | f :: files =>
      let '(rows, store) := import_file store_error (path +:+ "/" +:+ f.1.1) f.2 store in
      let '(rows', store) := import_files path files store in
      (rows ++ rows', store)
  end.

Definition import_path (path : string) (entry : PathEntry) (store : FileSecretStore)
  : list ImportedAccount * FileSecretStore :=
  match entry with
  | OneFile read => import_file store_error path read store
  | Directory (Err err) => ([refused_file ("cannot read directory: " +:+ err) path], store)
  | Directory (Ok entries) =>
      match merge_sort by_name (filter (fun f => json_file f = true) entries) with
      | [] => ([refused_file ("no *.json files under " +:+ path +:+ " to import") path], store)
      | files => import_files path files store
      end
  end.
End paths.

(** ** The sign-ins of the agents *)

Record FoundAccount := {
  fa_provider : string; fa_account : string; fa_email : string; fa_plan : string; fa_access_token : string;
  fa_refresh_token : string; fa_expires_at_unix : option Z; fa_source : string; fa_home : string
}.

Record CodexTokens := {
  cx_id_token : option string; cx_access_token : option string; cx_refresh_token : option string;
  cx_account_id : option string
}.
Record CodexAuth := { cx_auth_mode : option string; cx_tokens : option CodexTokens; cx_openai_api_key : option Value }.
Record ClaudeOAuth := {
  cl_access_token : option string; cl_refresh_token : option string; cl_expires_at : option Z;
  cl_subscription_type : option string
}.
(** [ClaudeCredentials] is its one field, and [ClaudeState] the email of its
    account. *)
Record ClaudeCredentials := { claude_ai_oauth : option ClaudeOAuth }.
Record ClaudeState := { oauth_account : option (option string) }.

Section agents.
Context `{SerdeJson} `{Deserialize CodexAuth} `{Deserialize ClaudeCredentials} `{Deserialize ClaudeState}.

(** [dir] is a home of Codex, [is_main] whether it is the main one, and [name]
    its last component. *)
Definition codex_found (dir name : string) (is_main : bool) (auth : CodexAuth) : list FoundAccount :=
  let subscription := bool_decide (cx_auth_mode auth = Some "tokens") &&
    match cx_openai_api_key auth with None => true | Some key => is_null key end in
  match cx_tokens auth with
  | None => []
  | Some tokens =>
      let refresh_token := default "" (cx_refresh_token tokens) in
      if negb subscription || is_empty refresh_token then []
      else
        let id_claims := cx_id_token tokens ≫= jwt_claims in
        let email := trim (claim_str id_claims ["email"]) in
        let account_id := first_nonempty (default "" (cx_account_id tokens))
          (claim_str id_claims [AUTH_CLAIM; "chatgpt_account_id"]) in
        [{| fa_provider := "codex";
            fa_account := "codex:" +:+ (if negb (is_empty email) then email
                                        else if negb (is_empty account_id) then account_id else name);
            fa_email := email; fa_plan := claim_str id_claims [AUTH_CLAIM; "chatgpt_plan_type"];
            fa_access_token := default "" (cx_access_token tokens); fa_refresh_token := refresh_token;
            fa_expires_at_unix := cx_access_token tokens ≫= access_token_exp;
            fa_source := dir +:+ "/auth.json"; fa_home := if is_main then "" else dir |}]
  end.

(** [read] is what reading [auth.json] of the directory gives. *)
Definition read_codex_dir (dir name : string) (is_main : bool) (read : option string) : list FoundAccount :=
  match read with
  | None => []
  | Some bytes => match from_json bytes with Ok auth => codex_found dir name is_main auth | Err _ => [] end
  end.

(** The two state files of Claude Code, in the order they are read. *)
Fixpoint claude_email (states : list (option string)) : string :=
  match states with
  | [] => ""
  | state :: states =>
      match (bytes ← state; match from_json bytes with Ok s => Some s | Err _ => None end) ≫= oauth_account with
      | Some (Some email) => if is_empty (trim email) then claude_email states else email
      | _ => claude_email states
      end
  end.

Definition read_claude (home : string) (credentials : option string) (states : list (option string)) : list FoundAccount :=
  match (bytes ← credentials; match from_json (T := ClaudeCredentials) bytes with Ok c => claude_ai_oauth c | Err _ => None end) with
  | None => []
  | Some oauth =>
      let access_token := default "" (cl_access_token oauth) in
      if is_empty access_token then []
      else
        let email := claude_email states in
        let plan := default "" (cl_subscription_type oauth) in
        [{| fa_provider := "claude";
            fa_account := if negb (is_empty email) then "claude:" +:+ email
                          else if negb (is_empty plan) then "claude:" +:+ plan else "claude:default";
            fa_email := email; fa_plan := plan; fa_access_token := access_token;
            fa_refresh_token := default "" (cl_refresh_token oauth);
            fa_expires_at_unix := (fun ms => Z.quot ms 1000) <$> cl_expires_at oauth;
            fa_source := home +:+ "/.claude/.credentials.json"; fa_home := "" |}]
  end.

Definition to_credential (account : FoundAccount) : Credential :=
  CredOAuth (fa_provider account)
    (match split_once ":" (fa_account account) with Some (_, bare) => bare | None => fa_account account end)
    (fa_access_token account)
    (if is_empty (fa_refresh_token account) then None else Some (fa_refresh_token account))
    (fa_expires_at_unix account) None.
End agents.

(** ** Tokens written back to Codex *)

Inductive CodexStore : Type := InFile | StoreRefused (why : string).
Record TokenUpdate := { tu_access_token : string; tu_refresh_token : string; tu_id_token : option string }.
Inductive WriteBackError : Type := WbRefused (why : string) | WbIo (message : string).

(** [config] is what reading [config.toml] gives: its text with the setting it
    makes ([None] when it cannot be parsed), or the error. *)
Inductive ConfigRead : Type :=
  | NoConfig
  | ConfigError (error : string)
  | Unparsed (error : string)
  | Parsed (cli_auth_credentials_store : option string).

Definition codex_store (home : string) (config : ConfigRead) : CodexStore :=
  let path := home +:+ "/config.toml" in
  match config with
  | NoConfig => InFile
  | ConfigError error => StoreRefused ("can't read " +:+ path +:+ "; refusing to write Codex's auth.json: " +:+ error)
  | Unparsed error => StoreRefused (path +:+ " can't be parsed (" +:+ error +:+ "); refusing to write Codex's auth.json")
  | Parsed None => InFile
  | Parsed (Some store) =>
      if bool_decide (store = "file") then InFile
      else StoreRefused ("Codex is configured to keep this sign-in in `" +:+ store
             +:+ "` (cli_auth_credentials_store in " +:+ path +:+ "), not in auth.json; magpie never writes keychains — set cli_auth_credentials_store = "
             +:+ dquote +:+ "file" +:+ dquote
             +:+ " in that file and sign in again in Codex, or leave the store alone")
  end.

(** [auth.json] and its backup; the lock, which the code takes around all of
    this, is the one of lockfile.rs. *)
Inductive AuthRead : Type := NotThere | Unread (error : string) | Bytes (text : string).
Record CodexFiles := { cf_auth : AuthRead; cf_backup : option string }.

Section writing_back.
Context `{SerdeJson}.
(** [serde_json::to_vec_pretty]. *)
Variable to_vec_pretty : Value -> result string string.

(** The object with the new tokens, or why not. *)
Definition update_tokens (now : string) (tokens : TokenUpdate) (auth : Value) : result string Value :=
  match as_object auth with
  | None => Err "auth.json is not a JSON object; left as it is"
  | Some auth_obj =>
      match map_get "tokens" auth_obj ≫= as_object with
      | None => Err "auth.json has no `tokens` object; left as it is"
      | Some tokens_obj =>
          let tokens_obj := map_insert "access_token" (str (tu_access_token tokens)) tokens_obj in
          let tokens_obj := map_insert "refresh_token" (str (tu_refresh_token tokens)) tokens_obj in
          let tokens_obj :=
            match tu_id_token tokens with
            | Some id_token => if is_empty id_token then tokens_obj else map_insert "id_token" (str id_token) tokens_obj
            | None => tokens_obj
            end in
          Ok (VObject (map_insert "last_refresh" (str now) (map_insert "tokens" (VObject tokens_obj) auth_obj)))
      end
  end.

(** [copied] is the error the copy meets and what it then leaves at the
    backup, [written] the error of the write. *)
Definition write_tokens (home : string) (config : ConfigRead) (now : string) (tokens : TokenUpdate)
    (copied : option (string * option string)) (written : option string) (files : CodexFiles) : result WriteBackError unit * CodexFiles :=
  match codex_store home config with
  | StoreRefused reason => (Err (WbRefused reason), files)
  | InFile =>
      match cf_auth files with
      | NotThere => (Err (WbRefused ("no sign-in to update: " +:+ home +:+ "/auth.json does not exist")), files)
      | Unread error => (Err (WbIo error), files)
      | Bytes text =>
          match value_from_str text with
          | Err error => (Err (WbRefused ("auth.json can't be read; left as it is (" +:+ error +:+ ")")), files)
          | Ok auth =>
              match update_tokens now tokens auth with
              | Err why => (Err (WbRefused why), files)
              | Ok auth =>
                  match to_vec_pretty auth, copied with
                  | Err error, _ => (Err (WbIo error), files)
                  | Ok _, Some (error, backup) => (Err (WbIo error), {| cf_auth := Bytes text; cf_backup := backup |})
                  | Ok out, None =>
                      match written with
                      | Some error => (Err (WbIo error), {| cf_auth := Bytes text; cf_backup := Some text |})
                      | None => (Ok tt, {| cf_auth := Bytes out; cf_backup := Some text |})
                      end
                  end
              end
          end
      end
  end.
End writing_back.

(** * Nothing newer is lost

    What an import does to the accounts that were there, and what writing
    tokens back leaves alone. *)
From S2P Require Import Concrete.

(** When a credential ends; an API key and a sign-in that does not say are the
    oldest. *)
Definition expiry_of (c : Credential) : option Z :=
  match c with CredOAuth _ _ _ _ e _ => e | CredApiKey _ => None end.
Definition later (a b : option Z) : Prop :=
  match a, b with Some x, Some y => x < y | None, Some _ => True | _, None => False end.
Definition newer (c c' : Credential) : Prop := c' = c \/ later (expiry_of c) (expiry_of c').

Lemma newer_trans a b c : newer a b -> newer b c -> newer a c.
Proof.
  unfold newer, later. intros [-> |H1] [-> |H2]; auto. right.
  destruct (expiry_of a), (expiry_of b), (expiry_of c); try done. lia.
Qed.

(** Every account stays, as it was or newer. *)
Definition grows (m m' : DiskMap) : Prop := forall id c, m !! id = Some c -> exists c', m' !! id = Some c' /\ newer c c'.
Lemma keeps_refl m : grows m m.
Proof. intros id c Hc. exists c. split; [done|by left]. Qed.
Lemma keeps_trans m1 m2 m3 : grows m1 m2 -> grows m2 m3 -> grows m1 m3.
Proof.
  intros H1 H2 id a Ha. destruct (H1 id a Ha) as (b & Hb & Hab). destruct (H2 id b Hb) as (c & Hc & Hbc).
  exists c. split; [done|by eapply newer_trans].
Qed.

Section import_spec.
Context `{SerdeJson}.
Variables (store_error : SecretStoreError -> string).

Definition added (row : ImportedAccount) : Prop := im_status row = Added.

(** The entries an import refuses whatever is stored. *)
Definition invalid (e : Entry) : bool :=
  is_empty (en_name e) || (is_empty (en_access_token e) && negb (is_some (en_refresh_token e))).
(** An entry that would not be written over what is stored. *)
Definition settled (e : Entry) (m : DiskMap) : Prop :=
  exists c, m !! entry_id e = Some c /\ (en_newer_wins e = false \/ ~ later (expiry_of c) (en_expires_at_unix e)).
Definition item_done (item : Item) (m : DiskMap) : Prop :=
  match item with inl row => ~ added row | inr e => invalid e = true \/ settled e m end.

Lemma stored_expiry_load store m id :
  load store = Ok m -> stored_expiry store id = expiry_of <$> m !! id.
Proof. intros Hl. unfold stored_expiry, store_get. rewrite Hl. cbn. by destruct (m !! id) as [[]|]. Qed.

(** No write of the saves to come fails. *)
Definition writes_well (store : FileSecretStore) : Prop := Forall (fun e => se_write e = None) (fs_saves store).

Lemma write_entry_load file e store m :
  load store = Ok m ->
  exists r store', write_entry store_error file e store = (r, store') /\ (writes_well store -> writes_well store' /\ added r) /\
    (r = row file e Added /\ load store' = Ok (<[entry_id e := entry_credential e]> m) \/ ~ added r /\ load store' = Ok m).
Proof.
  intros Hl. unfold write_entry, store_put. rewrite Hl. unfold save, writes_well.
  destruct (fs_saves store) as [|x saves] eqn:Es; cbn [next_save].
  { cbn. eexists _, _. split; [done|]. split; [by intros|by left]. }
  destruct (se_write x) eqn:Ex.
  - eexists _, _. split; [done|]. split; [|by right]. intros Hw%List.Forall_inv. congruence.
  - eexists _, _. split; [done|]. split; [|by left]. by intros Hw%List.Forall_inv_tail.
Qed.

(** An entry is passed over, or written. *)
Lemma import_entry_cases file e store m :
  load store = Ok m ->
  ((forall c, m !! entry_id e = Some c -> later (expiry_of c) (en_expires_at_unix e) /\ en_newer_wins e = true) /\
   invalid e = false /\ import_entry store_error file e store = write_entry store_error file e store) \/
  (exists r, import_entry store_error file e store = (r, store) /\ ~ added r /\ (invalid e = true \/ settled e m)).
Proof.
  intros Hl. pose proof (stored_expiry_load store m (entry_id e) Hl) as Hst.
  unfold import_entry, invalid. destruct (is_empty (en_name e)); [right; eexists; split; [done|]; split; [done|by left]|].
  destruct (is_empty (en_access_token e) && negb (is_some (en_refresh_token e))) eqn:Et;
    [right; eexists; split; [done|]; split; [done|by left]|].
  cbn. rewrite Hst. destruct (m !! entry_id e) as [c|] eqn:Em; cbn; [|left; by split_and!].
  destruct (en_newer_wins e) eqn:Ew; cbn.
  - destruct (expiry_of c) as [local|] eqn:Ec, (en_expires_at_unix e) as [y|] eqn:Ey.
    + destruct (Z.ltb_spec local y).
      * left. split_and!; try done. intros c' [= <-]. rewrite Ec. split; [cbn; lia|done].
      * right. eexists. split; [done|]. split; [done|]. right. exists c. split; [done|]. right. rewrite Ec, Ey. cbn. lia.
    + right. eexists. split; [done|]. split; [done|]. right. exists c. split; [done|]. right. rewrite Ec, Ey. by intros [].
    + left. split_and!; try done. intros c' [= <-]. by rewrite Ec.
    + right. eexists. split; [done|]. split; [done|]. right. exists c. split; [done|]. right. rewrite Ec, Ey. by intros [].
  - right. eexists. split; [done|]. split; [done|]. right. exists c. split; [done|by left].
Qed.

Lemma settled_grows e m m' : grows m m' -> settled e m -> settled e m'.
Proof.
  intros Hg (c & Hc & Hs). destruct (Hg _ _ Hc) as (c' & Hc' & Hn). exists c'. split; [done|].
  destruct Hs as [Hs|Hs]; [by left|right]. destruct Hn as [-> |Hn]; [done|]. intros Hl. apply Hs.
  destruct (expiry_of c), (expiry_of c'), (en_expires_at_unix e); cbn in *; try done. lia.
Qed.
Lemma done_grows item m m' : grows m m' -> item_done item m -> item_done item m'.
Proof. intros Hg. destruct item as [r|e]; [done|]. intros [?|?]; [by left|right; by eapply settled_grows]. Qed.

(** What one item does. *)
Record imported (m m' : DiskMap) (rows : list ImportedAccount) : Prop := {
  i_grows : grows m m';
  i_new id c : m' !! id = Some c -> m !! id = Some c \/ exists r, r ∈ rows /\ im_account r = id /\ added r;
  i_added r : r ∈ rows -> added r -> is_Some (m' !! im_account r)
}.

Lemma imported_none m r : ~ added r -> imported m m [r].
Proof. intros Hr. split; [apply keeps_refl|by left|]. by intros r' ->%list_elem_of_singleton Ha. Qed.

Lemma import_item_spec file item store m :
  load store = Ok m -> (forall r, item = inl r -> ~ added r) ->
  exists r store' m', import_item store_error file item store = (r, store') /\ load store' = Ok m' /\
    imported m m' [r] /\ (writes_well store -> writes_well store' /\ item_done item m').
Proof.
  intros Hl Hrow. destruct item as [r|e]; cbn.
  - exists r, store, m. split_and!; [done|done|by apply imported_none, Hrow|]. intros Hw. split; [done|by apply Hrow].
  - destruct (import_entry_cases file e store m Hl) as [(Hnew & Hinv & ->)|(r & -> & Hna & Hs)].
    + destruct (write_entry_load file e store m Hl) as (r & store' & -> & Hw & [[-> Hl']|[Hna Hl']]).
      * eexists _, store', _. split_and!; [done|exact Hl'| |].
        -- split.
           ++ intros id c Hc. destruct (decide (id = entry_id e)) as [->|Hne].
              ** exists (entry_credential e). split; [by rewrite lookup_insert_eq|]. right. by apply (Hnew c).
              ** exists c. rewrite lookup_insert_ne by done. split; [done|by left].
           ++ intros id c. rewrite lookup_insert_Some. intros [[<- <-]|[_ Hc]]; [right|by left].
              eexists. split; [by left|]. done.
           ++ intros r ->%list_elem_of_singleton _. cbn. rewrite lookup_insert_eq. by eexists.
        -- intros [Hw' _]%Hw. split; [done|]. right. exists (entry_credential e). rewrite lookup_insert_eq. split; [done|]. right. cbn.
           destruct (en_expires_at_unix e); cbn; lia || by intros [].
      * exists r, store', m. split_and!; [done|done|by apply imported_none|]. by intros [_ Ha]%Hw.
    + exists r, store, m. split_and!; [done|done|by apply imported_none|done].
Qed.

(** An import as one list of items, each with its file. *)
Fixpoint import_all (items : list (string * Item)) (store : FileSecretStore) : list ImportedAccount * FileSecretStore :=
  match items with
  | [] => ([], store)
  | (file, item) :: items =>
      let '(r, store) := import_item store_error file item store in
      let '(rows, store) := import_all items store in
      (r :: rows, store)
  end.

Definition path_items (path : string) (entry : PathEntry) : list (string * Item) :=
  match entry with
  | OneFile read => map (pair path) (file_items path read)
  | Directory (Err err) => [(path, inl (refused_file ("cannot read directory: " +:+ err) path))]
  | Directory (Ok entries) =>
      match merge_sort by_name (filter (fun f => json_file f = true) entries) with
      | [] => [(path, inl (refused_file ("no *.json files under " +:+ path +:+ " to import") path))]
      | files => flat_map (fun f => map (pair (path +:+ "/" +:+ f.1.1)) (file_items (path +:+ "/" +:+ f.1.1) f.2)) files
      end
  end.

Lemma import_all_app a b store :
  import_all (a ++ b) store =
    let '(rows, store) := import_all a store in let '(rows', store) := import_all b store in (rows ++ rows', store).
Proof.
  revert store. induction a as [|[file item] a IH]; intros store; cbn; [by destruct (import_all b store)|].
  destruct (import_item store_error file item store) as [r s1]. rewrite IH.
  destruct (import_all a s1) as [rows s2]. by destruct (import_all b s2).
Qed.

Lemma import_items_all file items store :
  import_items store_error file items store = import_all (map (pair file) items) store.
Proof.
  revert store. induction items as [|item items IH]; intros store; [done|]. cbn.
  destruct (import_item store_error file item store). by rewrite IH.
Qed.

Lemma import_files_all path files store :
  import_files store_error path files store =
    import_all (flat_map (fun f => map (pair (path +:+ "/" +:+ f.1.1)) (file_items (path +:+ "/" +:+ f.1.1) f.2)) files) store.
Proof.
  revert store. induction files as [|f files IH]; intros store; [done|]. cbn. rewrite import_all_app.
  unfold import_file. rewrite import_items_all. destruct (import_all _ store) as [rows s1]. by rewrite IH.
Qed.

Lemma import_path_all path entry store :
  import_path store_error path entry store = import_all (path_items path entry) store.
Proof.
  unfold import_path, path_items. destruct entry as [read|[entries|err]]; [apply import_items_all| |done].
  destruct (merge_sort _ _) as [|f files]; [done|]. apply (import_files_all path (f :: files)).
Qed.

(** The rows a file makes itself are refusals. *)
Definition refusing (item : Item) : Prop := match item with inl r => ~ added r | inr _ => True end.
Lemma cswap_refusing file v : refusing (cswap_entry file v).
Proof. unfold cswap_entry. repeat case_match; done. Qed.
Lemma sub2api_refusing file v : refusing (sub2api_entry file v).
Proof. unfold sub2api_entry. repeat case_match; done. Qed.
Lemma cliproxy_refusing file key m : refusing (cliproxy_entry file key m).
Proof. unfold cliproxy_entry. repeat case_match; done. Qed.

Lemma file_items_refusing file read : Forall refusing (file_items file read) /\ file_items file read <> [].
Proof.
  assert (forall (f : Value -> Item) x l, (forall v, refusing (f v)) -> Forall refusing (map f (x :: l)) /\ map f (x :: l) <> []) as Hmap.
  { intros f x l Hf. split; [|done]. induction (x :: l); constructor; auto. }
  assert (forall r, ~ added r -> Forall refusing [inl r] /\ [inl r : Item] <> []) as Hone by (intros; split; [by constructor|done]).
  unfold file_items. destruct read as [bytes|err]; [|by apply Hone]. destruct (value_from_str bytes) as [root|err]; [|by apply Hone].
  destruct root as [| | | |items|m]; try by apply Hone.
  - destruct items as [|x items]; [by apply Hone|]. destruct (existsb has_platform _); [|by apply Hone].
    apply Hmap, sub2api_refusing.
  - unfold object_items. case_match; [by apply Hone|]. destruct (_ ≫= as_array) as [[|x accounts]|]; [by apply Hone|..].
    + unfold cswap_items. repeat case_match; try (by apply Hone); apply Hmap; auto using cswap_refusing, sub2api_refusing.
    + repeat case_match; try (by apply Hone).
      * split; [|done]. constructor; [apply sub2api_refusing|done].
      * unfold cliproxy_items. destruct m as [|kv m]; [done|]. split; [|done].
        generalize (kv :: m) as l. clear. induction l as [|kv' m' IH]; constructor; [|done]. case_match; [apply cliproxy_refusing|done].
      * split; [|done]. constructor; [apply cliproxy_refusing|done].
Qed.

Lemma path_items_refusing path entry : Forall (fun fi => refusing fi.2) (path_items path entry) /\ path_items path entry <> [].
Proof.
  assert (forall file read, Forall (fun fi => refusing fi.2) (map (pair file) (file_items file read))) as Hf.
  { intros file read. destruct (file_items_refusing file read) as [Ha _]. induction Ha; constructor; auto. }
  assert (forall r : ImportedAccount, ~ added r ->
    Forall (fun fi : string * Item => refusing fi.2) [(path, inl r)] /\ [(path, inl r : Item)] <> []) as Hone
    by (intros r Hr; split; [by constructor|done]).
  unfold path_items. destruct entry as [read|[entries|err]]; [|destruct (merge_sort _ _) as [|f files]|];
    try (by apply Hone).
  - split; [apply Hf|]. destruct (file_items_refusing path read) as [_ Hn]. by destruct (file_items path read).
  - split.
    + generalize (f :: files) as l. intros l. induction l as [|g l IH]; [constructor|]. cbn.
      apply list.Forall_app. split; [apply Hf|apply IH].
    + cbn. destruct (file_items_refusing (path +:+ "/" +:+ f.1.1) f.2) as [_ Hn]. by destruct (file_items _ _).
Qed.

Lemma imported_cons m m1 m2 r rows : imported m m1 [r] -> imported m1 m2 rows -> imported m m2 (r :: rows).
Proof.
  intros [Hg1 Hn1 Ha1] [Hg2 Hn2 Ha2]. split; [by eapply keeps_trans| |].
  - intros id c Hc. destruct (Hn2 id c Hc) as [Hc1|(r' & Hr' & ?)].
    + destruct (Hn1 id c Hc1) as [Hc0|(r' & ->%list_elem_of_singleton & ?)]; [by left|right].
      exists r. split; [by left|done].
    + right. exists r'. split; [by right|done].
  - intros r' [-> |Hr']%list.elem_of_cons Ha; [|by apply Ha2].
    destruct (Ha1 r ltac:(by left) Ha) as [c Hc]. destruct (Hg2 _ _ Hc) as (c' & Hc' & _). by exists c'.
Qed.

Lemma import_all_spec items : forall store m,
  load store = Ok m -> Forall (fun fi => refusing fi.2) items ->
  exists rows store' m', import_all items store = (rows, store') /\ load store' = Ok m' /\ imported m m' rows /\
    length rows = length items /\ (writes_well store -> Forall (fun fi => item_done fi.2 m') items).
Proof.
  induction items as [|[file item] items IH]; intros store m Hl Href.
  - exists [], store, m. split_and!; try done. split; [apply keeps_refl|by left|by intros r ?%not_elem_of_nil].
  - inversion Href as [|? ? Hr Hrs]; subst. cbn in Hr. cbn.
    destruct (import_item_spec file item store m Hl) as (r & s1 & m1 & -> & Hl1 & Hi1 & Hd1).
    { intros r ->. done. }
    destruct (IH s1 m1 Hl1 Hrs) as (rows & s2 & m2 & -> & Hl2 & Hi2 & Hlen & Hd2).
    exists (r :: rows), s2, m2. split_and!; [done|done|by eapply imported_cons|cbn; by rewrite Hlen|].
    intros [Hw1 Hd]%Hd1. constructor; [|by apply Hd2]. cbn. eapply done_grows; [apply Hi2|done].
Qed.

(** Items that are done change nothing. *)
Lemma import_all_done items : forall store m,
  load store = Ok m -> Forall (fun fi => item_done fi.2 m) items ->
  exists rows, import_all items store = (rows, store) /\ Forall (fun r => ~ added r) rows.
Proof.
  induction items as [|[file item] items IH]; intros store m Hl Hd; [by exists []|].
  inversion Hd as [|? ? Hi His]; subst. cbn in Hi. cbn.
  assert (exists r, import_item store_error file item store = (r, store) /\ ~ added r) as (r & -> & Hr).
  { destruct item as [r|e]; cbn; [by exists r|].
    destruct (import_entry_cases file e store m Hl) as [(Hnew & Hinv & _)|(r & -> & Hr & _)]; [|by exists r].
    destruct Hi as [Hi|(c & Hc & Hw)]; [congruence|]. destruct (Hnew c Hc) as [Hlat Hnw]. destruct Hw as [Hw|Hw]; [congruence|done]. }
  destruct (IH store m Hl His) as (rows & -> & Hrs). exists (r :: rows). split; [done|by constructor].
Qed.

(** C21: Importing a file, or a directory of them, never loses what is stored:
    every account stays, as it was or as a sign-in that ends strictly later;
    every row that says an account was added is right, and no other account
    appears, whatever write to the store fails; and when none failed, importing
    the same again changes nothing and adds nothing. *)
Theorem import_keeps (path : string) (entry : PathEntry) (store : FileSecretStore) (m : DiskMap) :
  load store = Ok m ->
  exists rows store' m', import_path store_error path entry store = (rows, store') /\ load store' = Ok m' /\
    rows <> [] /\
    (forall id c, m !! id = Some c -> exists c', m' !! id = Some c' /\ newer c c') /\
    (forall id, is_Some (m' !! id) <-> is_Some (m !! id) \/ exists r, r ∈ rows /\ im_account r = id /\ im_status r = Added) /\
    (writes_well store -> exists rows', import_path store_error path entry store' = (rows', store') /\
       Forall (fun r => im_status r <> Added) rows').
Proof.
  intros Hl. destruct (path_items_refusing path entry) as [Href Hne].
  destruct (import_all_spec (path_items path entry) store m Hl Href) as (rows & store' & m' & Hi & Hl' & [Hg Hn Ha] & Hlen & Hd).
  rewrite !import_path_all. exists rows, store', m'. split_and!; [done|done| |done| |].
  - intros ->. by destruct (path_items path entry).
  - intros id. split.
    + intros [c Hc]. destruct (Hn id c Hc) as [?|?]; [left; by eexists|by right].
    + intros [[c Hc]|(r & Hr & <- & Hadd)]; [|by apply Ha].
      destruct (Hg id c Hc) as (c' & Hc' & _). by exists c'.
  - intros Hw%Hd. destruct (import_all_done _ store' m' Hl' Hw) as (rows' & E & Hrows). exists rows'. by rewrite import_path_all.
Qed.
End import_spec.

(** ** Writing tokens back *)

(** What the derived deserializer of [CodexAuth] makes of an object with a
    [tokens] object: a field that is missing or null is [None], one that is not
    a string an error. *)
Definition opt_field (key : string) (m : Map) : option (option string) :=
  match map_get key m with
  | None | Some VNull => Some None
  | Some (VString s) => Some (Some s)
  | Some _ => None
  end.
Definition tokens_of (m : Map) : option CodexTokens :=
  id_token ← opt_field "id_token" m; access_token ← opt_field "access_token" m;
  refresh_token ← opt_field "refresh_token" m; account_id ← opt_field "account_id" m;
  Some {| cx_id_token := id_token; cx_access_token := access_token; cx_refresh_token := refresh_token;
          cx_account_id := account_id |}.
Definition auth_of (m tokens : Map) : option CodexAuth :=
  auth_mode ← opt_field "auth_mode" m; tokens ← tokens_of tokens;
  Some {| cx_auth_mode := auth_mode; cx_tokens := Some tokens;
          cx_openai_api_key := match map_get "OPENAI_API_KEY" m with Some VNull => None | key => key end |}.
Class CodexAuthLaws `{SerdeJson} `{Deserialize CodexAuth} : Prop :=
  codex_auth text m tokens : value_from_str text = Ok (VObject m) -> map_get "tokens" m = Some (VObject tokens) ->
    match from_json text with Ok auth => Some auth | Err _ => None end = auth_of m tokens.

Lemma wf_map_get k m v : wf_value (VObject m) = true -> map_get k m = Some v -> wf_value v = true.
Proof.
  cbn [wf_value]. intros [_ Hm]%andb_prop. induction m as [|[k' v'] m IH]; [done|]. cbn in *.
  apply andb_prop in Hm as [Hv Hm]. case_decide; [by intros [= <-]|by apply IH].
Qed.

Section write_back_spec.
Context `{CodexAuthLaws}.
Variable to_vec_pretty : Value -> result string string.
Hypothesis pretty_reads : forall v text, wf_value v = true -> to_vec_pretty v = Ok text -> value_from_str text = Ok v.

(** The object after the update. *)
Lemma update_tokens_spec now tokens auth auth' :
  update_tokens now tokens auth = Ok auth' -> wf_value auth = true ->
  exists m told m' tnew, auth = VObject m /\ map_get "tokens" m = Some (VObject told) /\ auth' = VObject m' /\
    wf_value auth' = true /\ map_get "tokens" m' = Some (VObject tnew) /\ map_get "last_refresh" m' = Some (str now) /\
    (forall k, k <> "tokens" -> k <> "last_refresh" -> map_get k m' = map_get k m) /\
    (forall k, ~ k ∈ ["access_token"; "refresh_token"; "id_token"] -> map_get k tnew = map_get k told) /\
    map_get "access_token" tnew = Some (str (tu_access_token tokens)) /\
    map_get "refresh_token" tnew = Some (str (tu_refresh_token tokens)) /\
    map_get "id_token" tnew = (if is_empty (default "" (tu_id_token tokens)) then map_get "id_token" told
                               else str <$> tu_id_token tokens).
Proof.
  unfold update_tokens. destruct auth as [| | | | |m]; cbn [as_object]; try done.
  destruct (map_get "tokens" m) as [[| | | | |told]|] eqn:Et; cbn [mbind option_bind as_object]; try done.
  intros [= <-] Hwf. assert (wf_value (VObject told) = true) as Hwt by (by eapply wf_map_get).
  set (t1 := map_insert "refresh_token" _ _).
  assert (wf_value (VObject t1) = true) as Hw1 by (by repeat apply wf_map_insert).
  set (t2 := match tu_id_token tokens with Some _ => _ | None => _ end).
  assert (wf_value (VObject t2) = true) as Hw2.
  { subst t2. destruct (tu_id_token tokens) as [t|]; [|done]. destruct (is_empty t); [done|by apply wf_map_insert]. }
  exists m, told, (map_insert "last_refresh" (str now) (map_insert "tokens" (VObject t2) m)), t2.
  split_and!; try done.
  - by repeat apply wf_map_insert.
  - rewrite !map_get_insert. by rewrite decide_False, decide_True by done.
  - by rewrite map_get_insert, decide_True by done.
  - intros k Hk Hl. rewrite !map_get_insert. by rewrite !decide_False by done.
  - intros k Hk. subst t2 t1. rewrite !list.elem_of_cons in Hk.
    destruct (tu_id_token tokens) as [t|]; [destruct (is_empty t)|]; rewrite !map_get_insert, !decide_False by tauto; done.
  - subst t2 t1. destruct (tu_id_token tokens) as [t|]; [destruct (is_empty t)|]; by rewrite !map_get_insert.
  - subst t2 t1. destruct (tu_id_token tokens) as [t|]; [destruct (is_empty t)|]; by rewrite !map_get_insert.
  - subst t2 t1. destruct (tu_id_token tokens) as [t|]; cbn; [destruct (is_empty t) eqn:E|]; rewrite !map_get_insert; by rewrite ?E.
Qed.

(** The files after a write-back: all of it, or nothing but the backup. *)
Lemma write_tokens_spec home config now tokens copied written files r files' :
  write_tokens to_vec_pretty home config now tokens copied written files = (r, files') ->
  (exists e, r = Err e /\ cf_auth files' = cf_auth files /\
     (cf_backup files' = cf_backup files \/ (exists text, cf_auth files = Bytes text /\ cf_backup files' = Some text) \/
      exists error, copied = Some (error, cf_backup files'))) \/
  (r = Ok tt /\ exists text auth auth' out, cf_auth files = Bytes text /\ value_from_str text = Ok auth /\
     update_tokens now tokens auth = Ok auth' /\ to_vec_pretty auth' = Ok out /\
     files' = {| cf_auth := Bytes out; cf_backup := Some text |} /\ codex_store home config = InFile).
Proof.
  unfold write_tokens. destruct (codex_store home config) as [|reason]; [|intros [= <- <-]; left; eauto 10].
  destruct (cf_auth files) as [|error|text] eqn:Ea; [intros [= <- <-]; left; eauto 10..|].
  destruct (value_from_str text) as [auth|error] eqn:Ev; [|intros [= <- <-]; left; eauto 10].
  destruct (update_tokens now tokens auth) as [auth'|why] eqn:Eu; [|intros [= <- <-]; left; eauto 10].
  destruct (to_vec_pretty auth') as [out|error] eqn:Ep; [|intros [= <- <-]; left; eauto 10].
  destruct copied as [[error backup]|]; [intros [= <- <-]; left; eauto 12|].
  destruct written as [error|]; intros [= <- <-].
  - left. eexists. split_and!; [done|done|right; left]. by exists text.
  - right. split; [done|]. by exists text, auth, auth', out.
Qed.

(** A home that is read, through the object of its file. *)
Lemma codex_read home name is_main text m told found :
  value_from_str text = Ok (VObject m) -> map_get "tokens" m = Some (VObject told) ->
  read_codex_dir home name is_main (Some text) = [found] <->
  exists auth, auth_of m told = Some auth /\ codex_found home name is_main auth = [found].
Proof using Type*.
  intros Hv Ht. cbn. rewrite <- (codex_auth _ _ _ Hv Ht). destruct (from_json text) as [auth|e]; [|naive_solver].
  split; [by exists auth|]. by intros (a & [= <-] & ?).
Qed.

(** The reading of the object with the new tokens. *)
Lemma auth_of_update m m' told tnew tokens auth :
  auth_of m told = Some auth -> (forall k, k ∈ ["auth_mode"; "OPENAI_API_KEY"] -> map_get k m' = map_get k m) ->
  map_get "account_id" tnew = map_get "account_id" told -> map_get "id_token" tnew = map_get "id_token" told ->
  map_get "access_token" tnew = Some (str (tu_access_token tokens)) ->
  map_get "refresh_token" tnew = Some (str (tu_refresh_token tokens)) ->
  exists tok, cx_tokens auth = Some tok /\
    auth_of m' tnew = Some {| cx_auth_mode := cx_auth_mode auth;
      cx_tokens := Some {| cx_id_token := cx_id_token tok; cx_access_token := Some (tu_access_token tokens);
                           cx_refresh_token := Some (tu_refresh_token tokens); cx_account_id := cx_account_id tok |};
      cx_openai_api_key := cx_openai_api_key auth |}.
Proof.
  intros Ho Hk Ha Hi Hat Hrt. unfold auth_of, tokens_of in *.
  assert (forall key a b, map_get key a = map_get key b -> opt_field key a = opt_field key b) as Hext
    by (intros key a b E; unfold opt_field; by rewrite E).
  rewrite (Hext "auth_mode" m' m) by (apply Hk; by left). rewrite (Hk "OPENAI_API_KEY") by (right; by left).
  rewrite (Hext "id_token" tnew told), (Hext "account_id" tnew told) by done.
  assert (opt_field "access_token" tnew = Some (Some (tu_access_token tokens))) as -> by (unfold opt_field; by rewrite Hat).
  assert (opt_field "refresh_token" tnew = Some (Some (tu_refresh_token tokens))) as -> by (unfold opt_field; by rewrite Hrt).
  destruct (opt_field "auth_mode" m); [|done]. cbn in *. destruct (opt_field "id_token" told); [|done]. cbn in *.
  destruct (opt_field "access_token" told); [|done]. cbn in *. destruct (opt_field "refresh_token" told); [|done]. cbn in *.
  destruct (opt_field "account_id" told); [|done]. cbn in *. injection Ho as <-. by eexists.
Qed.

(** C31: Writing rotated tokens back to Codex either fails and changes nothing
    but the backup, which is then as it was, the file as it is, or what a failed
    copy left; or leaves a file that reads as the old one with the new access
    and refresh tokens, the new ID token where one is given that is not empty,
    and the time of the refresh: every other field, known or not, is as it was,
    and the old file is the backup. When no new ID token is given and the
    refresh token is not empty, a sign-in that was found in the old file is
    found in the new one, the same account with the new tokens. *)
Theorem write_back_reads (home name : string) (is_main : bool) (config : ConfigRead) (now : string) (tokens : TokenUpdate)
    (copied : option (string * option string)) (written : option string) (files files' : CodexFiles) (r : result WriteBackError unit) (text : string)
    (auth : Value) (found : FoundAccount) :
  cf_auth files = Bytes text -> value_from_str text = Ok auth -> wf_value auth = true ->
  write_tokens to_vec_pretty home config now tokens copied written files = (r, files') ->
  match r with
  | Err _ => cf_auth files' = Bytes text /\
      (cf_backup files' = cf_backup files \/ cf_backup files' = Some text \/ exists error, copied = Some (error, cf_backup files'))
  | Ok _ =>
      codex_store home config = InFile /\ cf_backup files' = Some text /\
      exists out m m' told tnew, cf_auth files' = Bytes out /\ value_from_str out = Ok (VObject m') /\ auth = VObject m /\
        map_get "tokens" m = Some (VObject told) /\ map_get "tokens" m' = Some (VObject tnew) /\
        map_get "last_refresh" m' = Some (str now) /\
        map_get "access_token" tnew = Some (str (tu_access_token tokens)) /\
        map_get "refresh_token" tnew = Some (str (tu_refresh_token tokens)) /\
        map_get "id_token" tnew = (if is_empty (default "" (tu_id_token tokens)) then map_get "id_token" told
                                   else str <$> tu_id_token tokens) /\
        (forall k, k <> "tokens" -> k <> "last_refresh" -> map_get k m' = map_get k m) /\
        (forall k, ~ k ∈ ["access_token"; "refresh_token"; "id_token"] -> map_get k tnew = map_get k told) /\
        (read_codex_dir home name is_main (Some text) = [found] ->
         is_empty (default "" (tu_id_token tokens)) = true -> is_empty (tu_refresh_token tokens) = false ->
         read_codex_dir home name is_main (Some out) =
           [{| fa_provider := fa_provider found; fa_account := fa_account found; fa_email := fa_email found;
               fa_plan := fa_plan found; fa_access_token := tu_access_token tokens;
               fa_refresh_token := tu_refresh_token tokens;
               fa_expires_at_unix := access_token_exp (tu_access_token tokens);
               fa_source := fa_source found; fa_home := fa_home found |}])
  end.
Proof using Type*.
  intros Hf Hv Hwf Hw. destruct (write_tokens_spec _ _ _ _ _ _ _ _ _ Hw)
    as [(e & -> & Ha & Hb)|(-> & text' & auth0 & auth' & out & Ha & Hv0 & Hu & Hp & -> & Hst)].
  { rewrite Ha, Hf. split; [done|]. destruct Hb as [Hb|[(t & Ht & Hb)|Hb]]; [by left|right; left; congruence|by right; right]. }
  rewrite Hf in Ha. injection Ha as <-. rewrite Hv in Hv0. injection Hv0 as <-. cbn.
  destruct (update_tokens_spec _ _ _ _ Hu Hwf) as (m & told & m' & tnew & -> & Ht & -> & Hwf' & Ht' & Hls & Hk & Hkt & Hat & Hrt & Hit).
  pose proof (pretty_reads _ _ Hwf' Hp) as Hback. split_and!; [done|done|].
  exists out, m, m', told, tnew. split_and!; try done.
  intros Hfound Hid Hre. apply (codex_read home name is_main text m told _ Hv Ht) in Hfound as (auth & Ho & Hfound).
  rewrite Hid in Hit. destruct (auth_of_update m m' told tnew tokens auth) as (tok & Htok & Hn); try done.
  { intros k [-> |[-> |[]%not_elem_of_nil]%list.elem_of_cons]%list.elem_of_cons; by apply Hk. }
  { apply Hkt. by intros [[=]|[[=]|[[=]|[]%not_elem_of_nil]%list.elem_of_cons]%list.elem_of_cons]%list.elem_of_cons. }
  apply (codex_read home name is_main out m' tnew _ Hback Ht'). eexists. split; [exact Hn|].
  unfold codex_found in *. cbn. rewrite Htok in Hfound. rewrite Hre, orb_false_r.
  destruct (bool_decide (cx_auth_mode auth = Some "tokens") && _); [|done]. cbn in Hfound |- *.
  destruct (is_empty (default "" (cx_refresh_token tok))); [done|]. by injection Hfound as <-.
Qed.
End write_back_spec.

(** ** Concrete runs *)

(** A claude-swap export with one account. *)
Definition cswap (expires : Z) (tokens : list (string * Value)) : Value :=
  obj [("format", num 1);
       ("accounts", VArray [obj [("email", str "a@b");
          ("credentials", obj [("claudeAiOauth", obj (("expiresAt", num expires) :: tokens))])]])].
Definition stored (expires : Z) : FileSecretStore :=
  {| fs_path := Holds {["claude:a@b" := CredOAuth "claude" "a@b" "old" None (Some expires) None]}; fs_backup_path := NoFile; fs_saves := [] |}.
Definition imported_token (expires : Z) (v : Value) : option (list ImportStatus * string) :=
  let '(rows, store) := import_path (fun _ => "") "f" (OneFile (Ok (binary_print v))) (stored expires) in
  match store_get "claude:a@b" store with
  | Ok (Some (CredOAuth _ _ token _ _ _)) => Some (map im_status rows, token)
  | _ => None
  end.

Example newer_wins : imported_token 5 (cswap 6000000000000 [("accessToken", str "new")]) = Some ([Added], "new").
Proof. vm_compute. reflexivity. Qed.
(** A key that is there but empty hides the one after it. *)
Example empty_hides :
  snd <$> imported_token 5 (cswap 6000000000000 [("accessToken", str ""); ("access_token", str "new")]) = Some "old".
Proof. vm_compute. reflexivity. Qed.

Lemma import_keeps_witness :
  exists rows store' m',
    import_path (fun _ => "") "f" (OneFile (Ok (binary_print (cswap 6 [("accessToken", str "new")])))) (stored 5) =
      (rows, store') /\ load store' = Ok m' /\ rows <> [] /\
    forall id, is_Some (m' !! id) <-> is_Some (({["claude:a@b" := CredOAuth "claude" "a@b" "old" None (Some 5) None]} : DiskMap) !! id)
      \/ exists r, r ∈ rows /\ im_account r = id /\ im_status r = Added.
Proof.
  destruct (import_keeps (fun _ => "") "f" (OneFile (Ok (binary_print (cswap 6 [("accessToken", str "new")])))) (stored 5)
    {["claude:a@b" := CredOAuth "claude" "a@b" "old" None (Some 5) None]} eq_refl) as (rows & store' & m' & H1 & H2 & H3 & _ & H5 & _).
  exists rows, store', m'. split; [exact H1|]. split; [exact H2|]. split; [exact H3|exact H5].
Defined.

#[local] Instance binary_codex : Deserialize CodexAuth := fun text =>
  match value_from_str text with
  | Ok (VObject m) =>
      match map_get "tokens" m with
      | Some (VObject tokens) => match auth_of m tokens with Some auth => Ok auth | None => Err "invalid type" end
      | _ => Err "invalid type"
      end
  | Ok _ => Err "invalid type"
  | Err e => Err e
  end.
#[local] Instance binary_codex_laws : CodexAuthLaws.
Proof. intros text m tokens Hv Ht. unfold from_json, binary_codex. rewrite Hv, Ht. by destruct (auth_of m tokens). Qed.

(** An [auth.json] with a field that is not known here. *)
Definition codex_file : Value :=
  obj [("auth_mode", str "tokens"); ("extra", num 7);
       ("tokens", obj [("access_token", str "a0"); ("refresh_token", str "r0"); ("account_id", str "acc"); ("x", VNull)])].
Definition codex_files : CodexFiles := {| cf_auth := Bytes (binary_print codex_file); cf_backup := None |}.
Definition rotated : TokenUpdate := {| tu_access_token := "a1"; tu_refresh_token := "r1"; tu_id_token := None |}.
Definition codex_account (access refresh : string) : FoundAccount :=
  {| fa_provider := "codex"; fa_account := "codex:acc"; fa_email := ""; fa_plan := ""; fa_access_token := access;
     fa_refresh_token := refresh; fa_expires_at_unix := None; fa_source := "/h/auth.json"; fa_home := "" |}.

Lemma binary_reads v text : wf_value v = true -> Ok (E := string) (binary_print v) = Ok text -> value_from_str text = Ok v.
Proof. intros _ [= <-]. apply binary_roundtrip. Qed.

Lemma write_back_reads_witness :
  exists files' out, write_tokens (fun v => Ok (binary_print v)) "/h" NoConfig "now" rotated None None codex_files = (Ok tt, files') /\
    cf_auth files' = Bytes out /\ read_codex_dir "/h" "h" true (Some out) = [codex_account "a1" "r1"].
Proof.
  destruct (write_tokens (fun v => Ok (binary_print v)) "/h" NoConfig "now" rotated None None codex_files) as [r files'] eqn:E.
  assert (r = Ok tt) as -> by (revert E; vm_compute; congruence).
  assert (value_from_str (binary_print codex_file) = Ok codex_file) as Hv by apply binary_roundtrip.
  assert (wf_value codex_file = true) as Hwf by (vm_compute; reflexivity).
  destruct (write_back_reads (fun v => Ok (binary_print v)) binary_reads
    "/h" "h" true NoConfig "now" rotated None None codex_files files' (Ok tt) (binary_print codex_file) codex_file
    (codex_account "a0" "r0") eq_refl Hv Hwf E) as (_ & _ & out & m & m' & told & tnew & Hout & _ & _ & _ & _ & _ & _ & Hread).
  exists files', out. split; [reflexivity|]. split; [exact Hout|].
  apply Hread; vm_compute; reflexivity.
Defined.
